(* ===== verification/_CoqProject ===== *)
-Q . S2P
Prelude.v
GoError.v
GoStrings.v
Sha256.v
GoPath.v
FileSystem.v
FileCalls.v
GoTime.v
FileWrites.v
Interleave.v
Tailnet.v
TailnetTheorems.v
Remote.v
CodecTable.v
Persistence.v
Migrations.v
Activity.v
ActivityStreams.v
ActivityTheorems.v
HostEvents.v
Dispatcher.v
HostRequests.v
Workspace.v
WorkspaceFiles.v
WorkspaceStaging.v
WorkspaceService.v
WorkspaceTheorems.v
WorkspaceExamples.v
Budget.v
BudgetTheorems.v
Manager.v
ManagerTheorems.v
ManagerExamples.v
Server.v
ServerSystem.v
ServerWatch.v
ServerExamples.v
Attachments.v
AttachmentTheorems.v
AttachmentExamples.v
Capability.v
Directory.v
Runtime.v
RuntimeTheorems.v
RuntimeExamples.v
Float64.v
Json.v
JsonTheorems.v
Client.v
ClientTheorems.v
Adapter.v
AdapterTheorems.v
Sessions.v
Base64.v
Translate.v
TranslateTheorems.v
ManagerWorkspace.v
ManagerWorkspaceTheorems.v
ManagerItems.v
ManagerTurns.v
ManagerQueries.v
ManagerSessions.v
ManagerQueryTheorems.v
ManagerItemTheorems.v
ManagerTurnTheorems.v
ManagerSessionTheorems.v
AuditLog.v
AuditLogTheorems.v
AuditLogExamples.v
HostBinary.v
