(* ===== verification/Prelude.v ===== *)
(** * Codex Remote Host: verification development

    The Host is a Go program (module under [src/], binary [cmd/codex-remote-host]) that runs
    an app-server process on a machine, manages its conversations ("Codexes") and offers
    them to remote clients over a WebSocket protocol inside a private network.  This library
    models the Host's own code and proves what its parts promise to each other and to the
    clients.

    ** The parts and how they interact

    A client's frame arrives at a connection of the gateway server, which audits it and
    hands the request to the dispatcher.  The dispatcher reserves the request's id in the
    database, calls the Codex manager and stores the response.  The manager keeps the
    Codexes in memory and in the database; it starts turns through the adapter, which
    speaks JSON-RPC with the app-server process that the runtime supervisor keeps alive.
    Events of the app-server come back through the adapter, change the manager's view of a
    Codex and are committed and published by the activity store, whose watchers are the
    connections.  The workspace service lets a client read and change the files of a Codex
    while no agent works there; the attachment store keeps uploaded images; the directory,
    session and capability services answer queries; the audit recorder keeps evidence of all
    of this in journals, and the tailnet node carries the connections.

    ** Files

    The language, its library and the operating system, as far as the Host uses them:
    - [Prelude]: machine integers with their wrap-around, tactics, hints, lemmas on lists
      and maps;
    - [GoError]: errors with [errors.Is]/[As]/[Join], the state-and-error monad [M], and which
      choices of the environment a computation takes ([spends]);
    - [GoStrings], [GoPath], [Base64], [Sha256], [Float64], [Json], [GoTime]: byte strings and
      UTF-8, slash paths, base64, SHA-256, float64 in decimal, encoding/json, calendar dates;
    - [FileSystem], [FileCalls], [FileWrites]: a tree of inodes with symbolic links, the calls
      on it, and their failures;
    - [Interleave]: programs as sequences of atomic sections, pools of them that interleave,
      invariants and simulations of pools.

    The Host, with the sources under [src/]:
    - [Remote]: the protocol messages the sources read and write; [CodecTable]: a codec with
      the laws the Host relies on, for examples;
    - [Persistence], [Migrations] (internal/persistence/store.go): the tables and every method
      as its SQL statements; the schema and its upgrades over a catalog of tables;
    - [Activity], [ActivityStreams], [ActivityTheorems], [HostEvents]
      (internal/activity/store.go): sequencing, replay and live watches against the class
      [EventPersistence], which the database implements;
    - [Dispatcher], [HostRequests] (internal/gateway/dispatcher.go): reservation, execution and
      replay of requests against the class [DedupLaws], which the database implements;
    - [Server], [ServerSystem], [ServerWatch], [ServerExamples] (internal/gateway/server.go): one
      connection as a transition system of its goroutines, composed with the activity store;
    - [Workspace], [WorkspaceFiles], [WorkspaceStaging], [WorkspaceService],
      [WorkspaceTheorems], [WorkspaceExamples] (internal/workspace/service.go): the access-state
      machine, the file operations and the handlers that combine them;
    - [Budget], [BudgetTheorems] (internal/codex/budget.go and the bounding functions of
      manager.go): cutting messages to the size of a frame;
    - [Manager], [ManagerTheorems], [ManagerExamples]: the manager's state and the life cycle of
      a Codex (lease, unmanage, rename, forget); [ManagerWorkspace], [ManagerWorkspaceTheorems]
      (internal/codex/workspace.go): access states and agents; [ManagerItems], [ManagerTurns],
      [ManagerQueries], [ManagerSessions] with [ManagerItemTheorems], [ManagerTurnTheorems],
      [ManagerQueryTheorems], [ManagerSessionTheorems] (internal/codex/manager.go): items and
      deltas, turns and events, paged queries, creation, import and restoration;
    - [Translate], [TranslateTheorems] (internal/codex/translate.go): items of the app-server;
    - [Client], [ClientTheorems], [Adapter], [AdapterTheorems] (internal/adapter): the JSON-RPC
      client and the adapter, with their goroutines; [JsonTheorems]: printing and reading;
    - [Sessions] (internal/session/service.go), [Directory] (internal/directory/service.go),
      [Capability] (internal/capability/service.go and the wiring in main.go);
    - [Runtime], [RuntimeTheorems], [RuntimeExamples] (internal/runtime/manager.go): the
      supervisor as a transition system;
    - [Attachments], [AttachmentTheorems], [AttachmentExamples] (internal/attachment/store.go);
    - [Tailnet], [TailnetTheorems] (internal/tailnet): the node's methods as atomic sections
      against the class [AuditSink], which the recorder implements;
    - [AuditLog], [AuditLogTheorems], [AuditLogExamples] (internal/audit/recorder.go);
    - [HostBinary] (cmd/codex-remote-host/main.go): options, identity file, loopback check and
      [run] with its deferred calls.

    A definition has the name of the Go function it translates.  A function that changes
    state is a function in [M]; a method that holds a lock for its whole body is one such
    function, a method that releases it in between is a sequence of them, and goroutines
    interleave at these points.  Every call of the operating system, the database or a
    library may fail: the failures are arguments ([fs_faults], the outcomes of statements,
    the answers of a library), so a theorem holds for every pattern of them.

    ** What the theorems show

    - Requests and events: a side-effecting request runs at most once over interleavings and
      crashes and is answered again with its first response ([at_most_once],
      [dispatch_replay]); a watch gets its replay and then exactly what is published since
      it was opened, and only its own calls end it ([live_delivery], [resumed_watch_exact],
      [resume_after_reset], [watch_sessions], [watch_complete]).
    - Database: methods are atomic and refine their specification under every failure
      ([store_refines_spec], [CommitEvent_atomic]); upgrades keep the rows
      ([migration_keeps_rows]).
    - Connections: nothing before the hello, bounds of queues and watches, what is written on
      the socket ([hello_gate], [connection_bounds], [wire_discipline]); what is advertised is
      well formed ([capabilities_well_formed]).
    - Codexes: an accepted turn is not started twice, events reach memory, database and
      clients together, lifecycle changes are all or nothing, leases never end early,
      restoration claims nothing that is not so, a session is imported once
      ([accepted_turn_not_repeated], [adapter_event_applied], [lifecycle_all_or_nothing],
      [sweep_outcome], [restore_conservative], [import_once]).
    - Workspaces: the access state is the truth, mutations need a current token and are all
      or nothing, paths stay inside the root ([workspace_truthful],
      [workspace_and_codex_agree], [mutation_token_single_use], [mutation_all_or_nothing],
      [resolve_confined], [write_read_roundtrip]).
    - Content: cutting keeps what a client needs and finds the largest prefix
      ([bounding_keeps_core], [boundedProtoPrefix_largest]); deltas, answers, pages and images
      come back as they were given ([deltas_accumulate], [answers_roundtrip],
      [pages_show_everything], [image_roundtrip]).
    - Processes: the supervisor keeps one process and gives up after bounded restarts
      ([runtime_safe], [restarts_terminate]); answers reach their call, requests are answered
      once on the wire ([answers_reach_their_call], [requests_answered_once]); the binary
      closes what it opened, the last first, but for a gateway whose Serve failed
      ([host_closes_everything]).
    - Evidence: accepted records are kept and linked, and secrets do not get into them
      ([evidence_kept], [evidence_linked], [secrets_not_recorded]).

    Where a theorem says that something is left as it was after an error, its statement names
    the exceptions: a commit or statement whose outcome is unknown, and a failure in the
    rollback itself, tied to the failing call by what is left of the environment's failures.

    The modules named Demo and the Examples files hold concrete runs: they show that the
    hypotheses can be met, and some of them behaviour the code does not intend.

    ** Bounds and fuel

    Recursion that is not structural carries fuel that is enough: sending with room made in a
    queue, its length plus one; the blocks of a hash, the number of words plus one; the
    nearest existing ancestor, the number of components; walks of a directory tree, the size
    of the tree plus one; the binary search for a prefix, its length; a path walk follows at
    most 40 links, as Linux does (EvalSymlinks 255, as Go does); the shortest decimal of a
    float64 has at most 17 digits; a JSON text of n bytes needs at most 2n+2 steps and is
    refused below depth 10000, as in Go; an IPv6 address has at most eight groups.  Calendar
    dates are checked over the cycle of 400 years.  Sequence numbers of JSON-RPC calls are
    distinct for the first 2^64 calls.

    ** Not modelled

    Code outside the repository is a parameter or an answer of the environment: SQLite beyond
    the meaning of the statements used, archive/zip, archive/tar and compress/gzip, the image
    decoder, ProtoJSON and the generated protocol code, the WebSocket library, tsnet, the
    app-server.  Letters beyond ASCII are not lowered or quoted as Go would; a float64 out of
    range is converted to an integer as on amd64; a JSON array given three times for the same
    key, and the texts of encoding/json's errors, are not followed.  Directory timestamps,
    other processes that change the Host's files, dialling, the HTTP server beyond what it
    does to its listener, reading the app-server's standard error, the flag parser, signals,
    log output and deadlines ([ReadyContext]) are left out, as are hooks that only tests use
    and a manager without a workspace service, which [NewManager] never makes.  A workspace
    mutation runs to its end as one step ([mutate]); that another one can come between its
    publication and its rollback is shown by a run ([late_rollback_loses_upload]). *)

From stdpp Require Import base tactics numbers list gmap strings.

(** ** Machine integers

    Go's [uint64], [uint32] and [int64] are integers of [Z] kept in range by an
    explicit wrap-around at every arithmetic operation that can overflow. *)

Definition u64_modulus : Z := (2 ^ 64)%Z.
Definition u32_modulus : Z := (2 ^ 32)%Z.

(** Conversion to [uint64]: reduction modulo 2^64. *)
Definition u64 (x : Z) : Z := (x mod u64_modulus)%Z.

(** Conversion to [uint32]. *)
Definition u32 (x : Z) : Z := (x mod u32_modulus)%Z.

(** [x++] on a [uint64]. *)
Definition u64_incr (x : Z) : Z := u64 (x + 1).

(** [x + y] on [uint64]. *)
Definition u64_add (x y : Z) : Z := u64 (x + y).

(** [len(s)] as a Go [int]. *)
Definition slen (s : string) : Z := Z.of_nat (String.length s).

(** [len(l)] of a slice. *)
Definition zlen {A} (l : list A) : Z := Z.of_nat (length l).

(** [s == ""]. *)
Definition str_empty (s : string) : bool := bool_decide (s = EmptyString).

(** ** Boolean reasoning and case analysis shared by the components *)

Create HintDb codex.

(** Split every [if]/[match] scrutinee that blocks the goal or a hypothesis. *)
Ltac split_matches :=
  repeat match goal with
  | |- context [match ?x with _ => _ end] =>
      let E := fresh "E" in destruct x eqn:E; simplify_eq/=
  | H : context [match ?x with _ => _ end] |- _ =>
      let E := fresh "E" in destruct x eqn:E; simplify_eq/=
  end.

(** Turn boolean tests into the propositions they decide. *)
Ltac to_prop :=
  repeat match goal with
  | H : bool_decide _ = true |- _ => apply bool_decide_eq_true in H
  | H : bool_decide _ = false |- _ => apply bool_decide_eq_false in H
  | H : (_ && _)%bool = true |- _ => apply andb_prop in H as [? ?]
  | H : (_ || _)%bool = false |- _ => apply orb_false_elim in H as [? ?]
  | H : negb _ = true |- _ => apply negb_true_iff in H
  | H : negb _ = false |- _ => apply negb_false_iff in H
  | H : (_ <? _)%Z = true |- _ => apply Z.ltb_lt in H
  | H : (_ <? _)%Z = false |- _ => apply Z.ltb_ge in H
  | H : (_ <=? _)%Z = true |- _ => apply Z.leb_le in H
  | H : (_ <=? _)%Z = false |- _ => apply Z.leb_gt in H
  | H : (_ =? _)%Z = true |- _ => apply Z.eqb_eq in H
  | H : (_ =? _)%Z = false |- _ => apply Z.eqb_neq in H
  end.

(** ** Machine-integer lemmas *)

Lemma u64_small x : (0 ≤ x < u64_modulus)%Z → u64 x = x.
Proof. apply Z.mod_small. Qed.

Lemma u64_range x : (0 ≤ u64 x < u64_modulus)%Z.
Proof. by apply Z.mod_pos_bound. Qed.

Lemma u32_small x : (0 ≤ x < u32_modulus)%Z → u32 x = x.
Proof. apply Z.mod_small. Qed.

Lemma u32_range x : (0 ≤ u32 x < u32_modulus)%Z.
Proof. by apply Z.mod_pos_bound. Qed.

Lemma u64_incr_small x : (0 ≤ x < u64_modulus - 1)%Z → u64_incr x = (x + 1)%Z.
Proof. intros. apply u64_small. lia. Qed.

Lemma slen_nonneg s : (0 ≤ slen s)%Z.
Proof. unfold slen. lia. Qed.

Lemma zlen_nonneg {A} (l : list A) : (0 ≤ zlen l)%Z.
Proof. unfold zlen. lia. Qed.

Lemma str_empty_spec s : str_empty s = true ↔ s = EmptyString.
Proof. unfold str_empty. by rewrite bool_decide_eq_true. Qed.

#[export] Hint Resolve u64_range u32_range slen_nonneg zlen_nonneg : codex.

(** ** Runs of consecutive sequence numbers

    [seqZ m n] lists [m, m+1, ...] of length [n]; event replay is specified
    with it. *)

Lemma seqZ_snoc m n : (0 ≤ n)%Z → seqZ m (n + 1) = seqZ m n ++ [(m + n)%Z].
Proof.
  intros Hn. rewrite seqZ_app by lia. f_equal.
Qed.

Lemma seqZ_drop k m n :
  (0 ≤ k ≤ n)%Z → drop (Z.to_nat k) (seqZ m n) = seqZ (m + k) (n - k).
Proof.
  intros Hk. replace n with (k + (n - k))%Z at 1 by lia.
  rewrite seqZ_app by lia. rewrite drop_app_length'; [done|].
  rewrite length_seqZ. lia.
Qed.

Lemma fmap_drop {A B} (f : A → B) k (l : list A) : f <$> drop k l = drop k (f <$> l).
Proof. revert k. induction l as [|x l IH]; intros [|k]; simpl; auto. Qed.

Lemma filter_all {A} (Q : A → Prop) `{∀ x, Decision (Q x)} (l : list A) : Forall Q l → filter Q l = l.
Proof. induction 1 as [|x l Hx _ IH]; [done|]. rewrite filter_cons_True by done. by rewrite IH. Qed.

Lemma filter_none {A} (Q : A → Prop) `{∀ x, Decision (Q x)} (l : list A) : Forall (λ x, ¬ Q x) l → filter Q l = [].
Proof. induction 1 as [|x l Hx _ IH]; [done|]. by rewrite filter_cons_False. Qed.

Lemma fmap_filter {A B} (f : A → B) (Q : B → Prop) `{∀ x, Decision (Q (f x)), ∀ y, Decision (Q y)} (l : list A) :
  f <$> filter (λ x, Q (f x)) l = filter Q (f <$> l).
Proof.
  induction l as [|x l IH]; [done|]. rewrite fmap_cons.
  destruct (decide (Q (f x))); [rewrite !filter_cons_True by done|rewrite !filter_cons_False by done]; [|done].
  by rewrite fmap_cons, IH.
Qed.

(** The part of a run from [start] on. *)
Lemma filter_seqZ_from start m n :
  (m ≤ start ≤ m + n)%Z →
  filter (λ x, start ≤ x ≤ m + n - 1)%Z (seqZ m n) = seqZ start (m + n - start).
Proof.
  intros Hs. assert (seqZ m n = seqZ m (start - m) ++ seqZ start (m + n - start)) as ->.
  { replace n with ((start - m) + (m + n - start))%Z at 1 by lia.
    rewrite seqZ_app by lia. by replace (m + (start - m))%Z with start by lia. }
  rewrite filter_app, filter_none, filter_all; [done| |].
  - apply Forall_forall. intros x Hx%elem_of_seqZ. lia.
  - apply Forall_forall. intros x Hx%elem_of_seqZ. lia.
Qed.

Lemma snoc_ne {A} (l : list A) x : l ++ [x] ≠ [].
Proof. by destruct l. Qed.
