(* ===== verification/GoError.v ===== *)
(** * Go errors, fallible results and the state-and-error monad

    Every Go function of the Host that returns [(value, error)] is a function
    into [res]; one that also changes state is an element of [M S A], explicit
    state passing with an error result.  An error keeps the structure that
    [errors.Is] and [errors.As] look at: package-level sentinels, [%w] wrapping,
    [errors.Join], and the three structured error types of the code base
    ([gateway.RPCError], [adapter.RPCError], [workspace.Error]). *)

From stdpp Require Import base tactics numbers list gmap strings pretty.
From S2P Require Import Prelude.

(** ** Protocol error codes

    The codes of [remotev1.ErrorCode] that the Host sources name. *)
Inductive ErrorCode :=
| ERROR_CODE_UNSPECIFIED
| ERROR_CODE_APPROVAL_ALREADY_RESOLVED
| ERROR_CODE_APPROVAL_NOT_FOUND
| ERROR_CODE_CAPABILITY_NOT_SUPPORTED
| ERROR_CODE_CODEX_BUSY
| ERROR_CODE_CODEX_NOT_FOUND
| ERROR_CODE_CONFLICT
| ERROR_CODE_DEADLINE_EXCEEDED
| ERROR_CODE_DIRECTORY_CREATE_FAILED
| ERROR_CODE_DIRECTORY_NOT_ACCESSIBLE
| ERROR_CODE_HOST_NOT_READY
| ERROR_CODE_IMAGE_ATTACHMENT_CONTENT_INVALID
| ERROR_CODE_IMAGE_ATTACHMENT_HASH_MISMATCH
| ERROR_CODE_IMAGE_ATTACHMENT_MIME_TYPE_UNSUPPORTED
| ERROR_CODE_IMAGE_ATTACHMENT_NOT_FOUND
| ERROR_CODE_IMAGE_ATTACHMENT_TOO_LARGE
| ERROR_CODE_INTERNAL_ERROR
| ERROR_CODE_INVALID_REQUEST
| ERROR_CODE_RUNTIME_UNAVAILABLE
| ERROR_CODE_SESSION_IMPORT_FAILED
| ERROR_CODE_SESSION_NOT_FOUND
| ERROR_CODE_TURN_ALREADY_RUNNING
| ERROR_CODE_TURN_NOT_RUNNING
| ERROR_CODE_USER_INPUT_ALREADY_RESOLVED
| ERROR_CODE_USER_INPUT_REQUEST_NOT_FOUND
| ERROR_CODE_WORKSPACE_ARCHIVE_EXPANDED_TOO_LARGE
| ERROR_CODE_WORKSPACE_ARCHIVE_INVALID
| ERROR_CODE_WORKSPACE_ARCHIVE_TOO_MANY_ENTRIES
| ERROR_CODE_WORKSPACE_BUSY
| ERROR_CODE_WORKSPACE_DOWNLOAD_TOO_LARGE
| ERROR_CODE_WORKSPACE_ENTRY_NOT_FOUND
| ERROR_CODE_WORKSPACE_ENTRY_TYPE_UNSUPPORTED
| ERROR_CODE_WORKSPACE_PATH_INVALID
| ERROR_CODE_WORKSPACE_PATH_OUTSIDE_ROOT
| ERROR_CODE_WORKSPACE_REVISION_CONFLICT
| ERROR_CODE_WORKSPACE_TEXT_NOT_UTF8
| ERROR_CODE_WORKSPACE_TEXT_TOO_LARGE
| ERROR_CODE_WORKSPACE_UPLOAD_TOO_LARGE.

#[export] Instance ErrorCode_eq_dec : EqDecision ErrorCode.
Proof. solve_decision. Defined.

(** [remotev1.Error]: code, message, retryability and metadata. *)
Record Error := mkError {
  err_Code : ErrorCode;
  err_Message : string;
  err_Retryable : bool;
  err_Metadata : gmap string string;
}.

#[export] Instance Error_eq_dec : EqDecision Error.
Proof. solve_decision. Defined.

(** The package-level error values the Host compares with [errors.Is]. *)
Inductive sentinel :=
| ErrNoRows                    (* database/sql *)
| ErrRequestConflict           (* persistence *)
| ErrRequestInProgress
| ErrEventCommitOutcomeUnknown
| ErrLogicalOwnerConflict
| ErrCodexNotFound             (* activity *)
| DeadlineExceeded             (* context *)
| Canceled
| ErrNotReady                  (* runtime *)
| ErrRestartDeferred
| ErrDisconnected              (* adapter *)
| ErrAttachmentNotFound        (* attachment *)
| ErrTooLarge
| ErrMIMEUnsupported
| ErrContentInvalid
| ErrHashMismatch
| ErrNotExist.                 (* os: ENOENT *)

#[export] Instance sentinel_eq_dec : EqDecision sentinel.
Proof. solve_decision. Defined.

(** A Go [error] value. *)
Inductive goerr :=
| ErrText (msg : string)                          (* errors.New, fmt.Errorf without %w, driver errors *)
| ErrSentinel (s : sentinel)
| ErrWrapped (before : string) (cause : goerr) (after : string) (* fmt.Errorf with one %w and the text around it *)
| ErrJoin (first second : goerr)                  (* errors.Join *)
| ErrRPC (detail : Error)                         (* *gateway.RPCError *)
| ErrAppServer (code : Z) (msg : string)          (* *adapter.RPCError *)
| ErrWorkspace (code : ErrorCode) (cause : goerr). (* *workspace.Error, which unwraps to its cause *)

#[export] Instance goerr_eq_dec : EqDecision goerr.
Proof. solve_decision. Defined.

(** [err.Error()] of the sentinels. *)
Definition sentinel_text (s : sentinel) : string :=
  match s with
  | ErrNoRows => "sql: no rows in result set"
  | ErrRequestConflict => "request id was used with a different operation"
  | ErrRequestInProgress => "request is in progress or its outcome is unknown"
  | ErrEventCommitOutcomeUnknown => "event transaction commit outcome is unknown"
  | ErrLogicalOwnerConflict => "native session is already bound to another logical owner"
  | ErrCodexNotFound => "codex not found"
  | DeadlineExceeded => "context deadline exceeded"
  | Canceled => "context canceled"
  | ErrNotReady => "app-server is not ready"
  | ErrRestartDeferred => "restart scheduled until runtime is idle"
  | ErrDisconnected => "app-server disconnected"
  | ErrAttachmentNotFound => "image attachment not found"
  | ErrTooLarge => "image attachment is too large"
  | ErrMIMEUnsupported => "image attachment MIME type is unsupported"
  | ErrContentInvalid => "image attachment content is invalid"
  | ErrHashMismatch => "image attachment hash mismatch"
  | ErrNotExist => "no such file or directory"
  end.

(** [err.Error()]. *)
Fixpoint error_text (e : goerr) : string :=
  match e with
  | ErrText msg => msg
  | ErrSentinel s => sentinel_text s
  | ErrWrapped before c after => before +:+ error_text c +:+ after
  | ErrJoin a b => error_text a +:+ String (Ascii.ascii_of_nat 10) (error_text b)
  | ErrRPC d => err_Message d
  | ErrAppServer code msg => "app-server RPC error " +:+ pretty code +:+ ": " +:+ msg
  | ErrWorkspace _ c => error_text c
  end.

(** [errors.Is(err, sentinel)] walks wrapping and joins. *)
Fixpoint errorsIs (e : goerr) (s : sentinel) : bool :=
  match e with
  | ErrSentinel s' => bool_decide (s' = s)
  | ErrWrapped _ c _ | ErrWorkspace _ c => errorsIs c s
  | ErrJoin a b => errorsIs a s || errorsIs b s
  | ErrText _ | ErrRPC _ | ErrAppServer _ _ => false
  end.

(** [errors.As(err, *gateway.RPCError)]: the first structured RPC error found. *)
Fixpoint errorsAsRPC (e : goerr) : option Error :=
  match e with
  | ErrRPC d => Some d
  | ErrWrapped _ c _ | ErrWorkspace _ c => errorsAsRPC c
  | ErrJoin a b => match errorsAsRPC a with Some d => Some d | None => errorsAsRPC b end
  | ErrText _ | ErrSentinel _ | ErrAppServer _ _ => None
  end.

(** [errors.As(err, *adapter.RPCError)]. *)
Fixpoint errorsAsAppServer (e : goerr) : option (Z * string) :=
  match e with
  | ErrAppServer c m => Some (c, m)
  | ErrWrapped _ c _ | ErrWorkspace _ c => errorsAsAppServer c
  | ErrJoin a b => match errorsAsAppServer a with Some d => Some d | None => errorsAsAppServer b end
  | ErrText _ | ErrSentinel _ | ErrRPC _ => None
  end.

(** [errors.As(err, *workspace.Error)]. *)
Fixpoint errorsAsWorkspace (e : goerr) : option (ErrorCode * goerr) :=
  match e with
  | ErrWorkspace c m => Some (c, m)
  | ErrWrapped _ c _ => errorsAsWorkspace c
  | ErrJoin a b => match errorsAsWorkspace a with Some d => Some d | None => errorsAsWorkspace b end
  | ErrText _ | ErrSentinel _ | ErrRPC _ | ErrAppServer _ _ => None
  end.

(** ** Results *)

Inductive res (A : Type) :=
| Ok (a : A)
| Err (e : goerr).
Arguments Ok {A} a.
Arguments Err {A} e.

#[export] Instance res_eq_dec {A} `{EqDecision A} : EqDecision (res A).
Proof. solve_decision. Defined.

#[export] Instance res_ret : MRet res := λ A a, Ok a.
#[export] Instance res_bind : MBind res := λ A B k r,
  match r with Ok a => k a | Err e => Err e end.

#[export] Instance res_fmap : FMap res := λ A B f r,
  match r with Ok a => Ok (f a) | Err e => Err e end.

Definition is_ok {A} (r : res A) : bool := match r with Ok _ => true | Err _ => false end.

(** ** The state-and-error monad

    The state survives an error: Go code that returns an error keeps whatever it
    already changed. *)

Definition M (S A : Type) : Type := S → S * res A.

#[export] Instance M_ret {S} : MRet (M S) := λ A a s, (s, Ok a).
#[export] Instance M_bind {S} : MBind (M S) := λ A B k m s,
  match m s with
  | (s', Ok a) => k a s'
  | (s', Err e) => (s', Err e)
  end.

Definition throw {S A} (e : goerr) : M S A := λ s, (s, Err e).
Definition fail_msg {S A} (msg : string) : M S A := throw (ErrText msg).
Definition gets {S A} (f : S → A) : M S A := λ s, (s, Ok (f s)).
Definition modify {S} (f : S → S) : M S unit := λ s, (f s, Ok tt).
Definition of_res {S A} (r : res A) : M S A := λ s, (s, r).

(** [if err := m; err != nil { ... }]: run [m] and continue with its result as a
    value, keeping the state it leaves. *)
Definition attempt {S A} (m : M S A) : M S (res A) := λ s,
  let '(s', r) := m s in (s', Ok r).

(** A guard: [if cond { return err }]. *)
Definition guard_err {S} (cond : bool) (e : goerr) : M S unit :=
  if cond then throw e else mret tt.

(** Run a computation of a component inside a larger state. *)
Definition zoom {S T A} (get : S → T) (set : T → S → S) (m : M T A) : M S A := λ s,
  let '(t, r) := m (get s) in (set t s, r).

(** Left-to-right loop that stops at the first error. *)
Fixpoint mfor {S A} (l : list A) (body : A → M S unit) : M S unit :=
  match l with
  | [] => mret tt
  | x :: l => body x ≫= λ _, mfor l body
  end.

(** ** Lemmas *)

Lemma errorsIs_wrapped pre post e s : errorsIs (ErrWrapped pre e post) s = errorsIs e s.
Proof. done. Qed.

Lemma M_bind_ok {S A B} (m : M S A) (k : A → M S B) s s' a :
  m s = (s', Ok a) → (m ≫= k) s = k a s'.
Proof. intros H. unfold mbind, M_bind. by rewrite H. Qed.

Lemma M_bind_err {S A B} (m : M S A) (k : A → M S B) s s' e :
  m s = (s', Err e) → (m ≫= k) s = (s', Err e).
Proof. intros H. unfold mbind, M_bind. by rewrite H. Qed.

Lemma M_bind_inv_ok {S A B} (m : M S A) (k : A → M S B) s s' b :
  (m ≫= k) s = (s', Ok b) →
  ∃ s1 a, m s = (s1, Ok a) ∧ k a s1 = (s', Ok b).
Proof.
  unfold mbind, M_bind. destruct (m s) as [s1 [a|e]]; intros; simplify_eq. eauto.
Qed.

Lemma M_bind_inv_err {S A B} (m : M S A) (k : A → M S B) s s' e :
  (m ≫= k) s = (s', Err e) →
  (m s = (s', Err e)) ∨ ∃ s1 a, m s = (s1, Ok a) ∧ k a s1 = (s', Err e).
Proof.
  unfold mbind, M_bind. destruct (m s) as [s1 [a|e1]]; intros; simplify_eq; eauto.
Qed.

(** Unfold the monad down to pattern matching on pairs. *)
Ltac unfold_monad :=
  unfold mbind, M_bind, mret, M_ret, res_ret, res_bind, throw, fail_msg, gets, modify,
    of_res, attempt, guard_err, zoom in *; simpl in *.

Lemma M_bind_inv_any {S A B} (m : M S A) (k : A → M S B) s s' r :
  (m ≫= k) s = (s', r) →
  ∃ s1 rm, m s = (s1, rm) ∧
    match rm with Ok a => k a s1 = (s', r) | Err e => s' = s1 ∧ r = Err e end.
Proof.
  unfold mbind, M_bind. destruct (m s) as [s1 [a|e]]; intros H; eexists _, _; (split; [done|]); [done|].
  by injection H.
Qed.

Lemma attempt_inv {S A} (m : M S A) s s' r :
  attempt m s = (s', Ok r) → m s = (s', r).
Proof. unfold attempt. destruct (m s). intros. by simplify_eq. Qed.

(** ** What a computation takes from its environment

    The environment's choices are a list in the state; [spends] says that what is left
    after a computation is what was left before, less the choices it took. *)

Definition spends {S X A} (left : S → list X) (m : M S A) : Prop := ∀ s, left (m s).1 `suffix_of` left s.

Lemma spends_bind {S X A B} (left : S → list X) (m : M S A) (k : A → M S B) :
  spends left m → (∀ x, spends left (k x)) → spends left (m ≫= k).
Proof.
  intros Hm Hk s. unfold mbind, M_bind. specialize (Hm s). destruct (m s) as [s1 [x|e]]; simpl in *; [|done].
  etrans; [apply Hk|done].
Qed.

Lemma spends_attempt {S X A} (left : S → list X) (m : M S A) : spends left m → spends left (attempt m).
Proof. intros Hm s. unfold attempt. specialize (Hm s). by destruct (m s). Qed.

Lemma spends_same {S X A} (left : S → list X) (m : M S A) : (∀ s, left (m s).1 = left s) → spends left m.
Proof. intros H s. by rewrite H. Qed.

Lemma spends_mfor {S X A} (left : S → list X) (l : list A) body : (∀ x, spends left (body x)) → spends left (mfor l body).
Proof. intros Hb. induction l as [|x l IH]; simpl; [by apply spends_same|]. by apply spends_bind. Qed.

Lemma spends_run {S X A} (left : S → list X) (m : M S A) s s' r : spends left m → m s = (s', r) → left s' `suffix_of` left s.
Proof. intros Hm H. specialize (Hm s). by rewrite H in Hm. Qed.
