(* ===== verification/GoStrings.v ===== *)
(** * Go byte strings

    A Go [string] (and a [[]byte] blob) is a Rocq [string], read as a sequence of
    8-bit characters.  This file models the parts of the Go standard library the
    Host applies to them: slicing, [strings.HasPrefix]/[HasSuffix]/[Contains]/
    [Split]/[TrimSpace]/[TrimSuffix], [unicode/utf8.ValidString] and
    [encoding/hex.EncodeToString]. *)

From Stdlib Require Import Ascii String.
From stdpp Require Import base tactics numbers list gmap strings.
From S2P Require Import Prelude.
Local Open Scope nat_scope.
Local Open Scope list_scope.

(** ** Characters and slices *)

Definition chars (s : string) : list ascii := list_ascii_of_string s.
Definition of_chars (l : list ascii) : string := string_of_list_ascii l.

(** The value of a byte. *)
Definition bval (c : ascii) : Z := Z.of_N (N_of_ascii c).

Lemma bval_range x : (0 ≤ bval x < 256)%Z.
Proof. unfold bval. pose proof (N_ascii_bounded x). lia. Qed.

(** [s[:n]] and [s[n:]] for [n] within the string. *)
Definition str_take (n : nat) (s : string) : string := of_chars (take n (chars s)).
Definition str_drop (n : nat) (s : string) : string := of_chars (drop n (chars s)).

(** The string of one NUL byte, the separator of composite keys. *)
Definition nul : string := String "000"%char EmptyString.

(** ** Prefixes, suffixes and splitting, on character lists *)

Fixpoint is_prefix (p l : list ascii) : bool :=
  match p, l with
  | [], _ => true
  | a :: p, b :: l => Ascii.eqb a b && is_prefix p l
  | _ :: _, [] => false
  end.

Fixpoint contains_list (sub l : list ascii) : bool :=
  is_prefix sub l ||
  match l with [] => false | _ :: l => contains_list sub l end.

(** Split at every occurrence of one separator character. *)
Fixpoint split_list (sep : ascii) (l : list ascii) : list (list ascii) :=
  match l with
  | [] => [[]]
  | c :: l =>
      match split_list sep l with
      | [] => [[c]]
      | part :: parts => if Ascii.eqb c sep then [] :: part :: parts else (c :: part) :: parts
      end
  end.

Definition HasPrefix (s prefix : string) : bool := is_prefix (chars prefix) (chars s).
Definition HasSuffix (s suffix : string) : bool := is_prefix (rev (chars suffix)) (rev (chars s)).
Definition Contains (s sub : string) : bool := contains_list (chars sub) (chars s).
Definition Split (s : string) (sep : ascii) : list string := of_chars <$> split_list sep (chars s).
Definition TrimPrefix (s prefix : string) : string :=
  if HasPrefix s prefix then str_drop (String.length prefix) s else s.
Definition TrimSuffix (s suffix : string) : string :=
  if HasSuffix s suffix then str_take (String.length s - String.length suffix) s else s.

(** ** strings.TrimSpace

    [unicode.IsSpace] holds of exactly these code points; each is given by its
    UTF-8 encoding.  Trimming by decoded runes and trimming by these byte
    sequences agree, because a space rune at either end of the string is there
    with its whole encoding. *)

Definition byte_char (n : nat) : ascii := ascii_of_nat n.

Definition space_encodings : list (list ascii) :=
  ((λ n, [byte_char n]) <$> [9; 10; 11; 12; 13; 32]) ++
  [[byte_char 194; byte_char 133]; [byte_char 194; byte_char 160];
   [byte_char 225; byte_char 154; byte_char 128]] ++
  ((λ n, [byte_char 226; byte_char 128; byte_char n]) <$>
     [128; 129; 130; 131; 132; 133; 134; 135; 136; 137; 138; 168; 169; 175]) ++
  [[byte_char 226; byte_char 129; byte_char 159];
   [byte_char 227; byte_char 128; byte_char 128]].

(** The first encoding of [encs] that starts [l]. *)
Definition leading (encs : list (list ascii)) (l : list ascii) : option (list ascii) :=
  List.find (λ e, is_prefix e l) encs.

(** Strip leading spaces; [fuel] bounds the number of stripped runes, and the
    length of the list is enough since every encoding is non-empty. *)
Fixpoint trim_list (encs : list (list ascii)) (fuel : nat) (l : list ascii) : list ascii :=
  match fuel with
  | O => l
  | S fuel =>
      match leading encs l with
      | Some e => trim_list encs fuel (drop (length e) l)
      | None => l
      end
  end.

Definition trim_left (l : list ascii) : list ascii :=
  trim_list space_encodings (length l) l.
Definition trim_right (l : list ascii) : list ascii :=
  rev (trim_list ((λ e, rev e) <$> space_encodings) (length l) (rev l)).

Definition TrimSpace (s : string) : string := of_chars (trim_right (trim_left (chars s))).

(** ** unicode/utf8.ValidString *)

Definition in_range (lo hi x : Z) : bool := (lo <=? x)%Z && (x <=? hi)%Z.
Definition cont_byte (c : ascii) : bool := in_range 128 191 (bval c).

(** The accept table of Go's [unicode/utf8]: which second byte each leading byte
    allows, then continuation bytes. *)
Fixpoint valid_utf8 (l : list ascii) : bool :=
  match l with
  | [] => true
  | a :: l1 =>
      let x := bval a in
      if in_range 0 127 x then valid_utf8 l1
      else match l1 with
      | [] => false
      | b :: l2 =>
          let y := bval b in
          if in_range 194 223 x then cont_byte b && valid_utf8 l2
          else match l2 with
          | [] => false
          | c :: l3 =>
              if (x =? 224)%Z then in_range 160 191 y && cont_byte c && valid_utf8 l3
              else if in_range 225 236 x then cont_byte b && cont_byte c && valid_utf8 l3
              else if (x =? 237)%Z then in_range 128 159 y && cont_byte c && valid_utf8 l3
              else if in_range 238 239 x then cont_byte b && cont_byte c && valid_utf8 l3
              else match l3 with
              | [] => false
              | d :: l4 =>
                  if (x =? 240)%Z then in_range 144 191 y && cont_byte c && cont_byte d && valid_utf8 l4
                  else if in_range 241 243 x then cont_byte b && cont_byte c && cont_byte d && valid_utf8 l4
                  else if (x =? 244)%Z then in_range 128 143 y && cont_byte c && cont_byte d && valid_utf8 l4
                  else false
              end
          end
      end
  end.

Definition ValidString (s : string) : bool := valid_utf8 (chars s).

(** ** encoding/hex *)

Definition hex_digit (n : Z) : ascii :=
  if (n <? 10)%Z then ascii_of_N (Z.to_N (48 + n)) else ascii_of_N (Z.to_N (87 + n)).

Definition hex_byte (c : ascii) : list ascii := [hex_digit (bval c / 16)%Z; hex_digit (bval c mod 16)%Z].

Definition EncodeToString (s : string) : string := of_chars (chars s ≫= hex_byte).

(** [strings.ToLower] on ASCII letters; characters beyond ASCII are left as they are. *)
Definition lower_char (c : ascii) : ascii :=
  let n := nat_of_ascii c in if (65 <=? n)%nat && (n <=? 90)%nat then ascii_of_nat (n + 32) else c.
Definition ToLower (s : string) : string := of_chars (lower_char <$> chars s).

(** [strconv.Quote], as [%q] prints a string: ASCII escapes, [\x] for a byte that is no
    part of a character; characters beyond ASCII are taken as printable. *)
Definition rune_width (l : list ascii) : option nat :=
  List.find (λ n, (n <=? length l)%nat && valid_utf8 (take n l)) [1; 2; 3; 4]%nat.

Definition quote_hex (c : ascii) : list ascii := "\"%char :: "x"%char :: hex_byte c.

Definition quote_char (c : ascii) : list ascii :=
  let n := nat_of_ascii c in
  if (n =? 34)%nat || (n =? 92)%nat then ["\"%char; c]
  else if (32 <=? n)%nat && (n <? 127)%nat then [c]
  else match n with
       | 7 => ["\"%char; "a"%char] | 8 => ["\"%char; "b"%char] | 12 => ["\"%char; "f"%char]
       | 10 => ["\"%char; "n"%char] | 13 => ["\"%char; "r"%char] | 9 => ["\"%char; "t"%char]
       | 11 => ["\"%char; "v"%char]
       | _ => quote_hex c
       end%nat.

Fixpoint quote_list (inside : nat) (l : list ascii) : list ascii :=
  match l with
  | [] => []
  | c :: l' =>
      match inside, rune_width l with
      | S n, _ => c :: quote_list n l'
      | O, None => (quote_hex c ++ quote_list 0 l')%list
      | O, Some (S (S n)) => c :: quote_list (S n) l'
      | O, _ => (quote_char c ++ quote_list 0 l')%list
      end
  end.

Definition Quote (s : string) : string :=
  let quote := ascii_of_nat 34 in of_chars (quote :: quote_list 0 (chars s) ++ [quote])%list.

(** ** Lemmas *)

Lemma chars_of_chars l : chars (of_chars l) = l.
Proof. apply list_ascii_of_string_of_list_ascii. Qed.

Lemma of_chars_chars s : of_chars (chars s) = s.
Proof. apply string_of_list_ascii_of_string. Qed.

#[export] Instance chars_inj : Inj (=) (=) chars.
Proof. intros s t H. by rewrite <- (of_chars_chars s), <- (of_chars_chars t), H. Qed.

Lemma length_chars s : length (chars s) = String.length s.
Proof. unfold chars. induction s; simpl; auto. Qed.

Lemma length_of_chars l : String.length (of_chars l) = length l.
Proof. by rewrite <- length_chars, chars_of_chars. Qed.

Lemma chars_str_take n s : chars (str_take n s) = take n (chars s).
Proof. unfold str_take. by rewrite chars_of_chars. Qed.

Lemma length_str_take n s : String.length (str_take n s) = n `min` String.length s.
Proof. unfold str_take. by rewrite length_of_chars, length_take, length_chars. Qed.

Lemma str_take_ge n s : String.length s ≤ n → str_take n s = s.
Proof.
  intros. unfold str_take. rewrite take_ge by (rewrite length_chars; lia).
  apply of_chars_chars.
Qed.

Lemma is_prefix_spec p l : is_prefix p l = true ↔ ∃ k, l = p ++ k.
Proof.
  revert l. induction p as [|a p IH]; intros l; simpl.
  - split; eauto.
  - destruct l as [|b l].
    + split; [done|]. by intros [k Hk].
    + rewrite andb_true_iff, Ascii.eqb_eq, IH. split.
      * intros [-> [k ->]]. by exists k.
      * intros [k Hk]. simplify_eq. eauto.
Qed.

Lemma is_prefix_weaken p k l : is_prefix p k = true → k `prefix_of` l → is_prefix p l = true.
Proof.
  rewrite !is_prefix_spec. intros [x ->] [y ->]. exists (x ++ y). by rewrite app_assoc.
Qed.

Lemma leading_weaken encs k l : k `prefix_of` l → leading encs l = None → leading encs k = None.
Proof.
  intros Hkl Hl. destruct (leading encs k) as [e|] eqn:E; [|done].
  apply find_some in E as [Hin Hp]. pose proof (find_none _ _ Hl e Hin) as Hn.
  simpl in Hn. rewrite (is_prefix_weaken _ _ _ Hp Hkl) in Hn. done.
Qed.

(** Enough fuel: the result has no leading space. *)
Lemma trim_list_none encs fuel l :
  Forall (λ e, e ≠ []) encs → length l ≤ fuel → leading encs (trim_list encs fuel l) = None.
Proof.
  intros Hne. revert l. induction fuel as [|fuel IH]; intros l Hl; simpl.
  - destruct l; [|simpl in Hl; lia]. clear Hl. unfold leading.
    induction Hne as [|e encs He Hencs IH]; simpl; [done|].
    destruct e; [done|]. simpl. done.
  - destruct (leading encs l) as [e|] eqn:E; [|done].
    apply find_some in E as [Hin Hp]. apply IH.
    rewrite Forall_forall in Hne. specialize (Hne e). rewrite list_elem_of_In in Hne.
    specialize (Hne Hin). rewrite length_drop. destruct e; [done|]. simpl. lia.
Qed.

Lemma trim_list_id encs fuel l : leading encs l = None → trim_list encs fuel l = l.
Proof. intros H. destruct fuel; simpl; [done|]. by rewrite H. Qed.

Lemma trim_list_suffix encs fuel l : trim_list encs fuel l `suffix_of` l.
Proof.
  revert l. induction fuel as [|fuel IH]; intros l; simpl; [done|].
  destruct (leading encs l) as [e|]; [|done].
  etrans; [apply IH|]. exists (take (length e) l). by rewrite take_drop.
Qed.

Lemma space_encodings_ne : Forall (λ e, e ≠ []) space_encodings.
Proof. vm_compute. repeat constructor; discriminate. Qed.

Lemma rev_space_encodings_ne : Forall (λ e, e ≠ []) ((λ e, rev e) <$> space_encodings).
Proof. vm_compute. repeat constructor; discriminate. Qed.

Lemma trim_right_prefix l : trim_right l `prefix_of` l.
Proof.
  unfold trim_right. destruct (trim_list_suffix ((λ e, rev e) <$> space_encodings) (length l) (rev l)) as [k Hk].
  exists (rev k). rewrite <- rev_app_distr, <- Hk. by rewrite rev_involutive.
Qed.

(** [strings.TrimSpace] is idempotent. *)
Lemma TrimSpace_idemp s : TrimSpace (TrimSpace s) = TrimSpace s.
Proof.
  unfold TrimSpace. rewrite chars_of_chars. f_equal.
  set (l := trim_left (chars s)).
  assert (leading space_encodings l = None) as Hl
    by (apply trim_list_none; [apply space_encodings_ne|done]).
  assert (trim_left (trim_right l) = trim_right l) as ->.
  { apply trim_list_id. eapply leading_weaken; [apply trim_right_prefix|done]. }
  unfold trim_right at 1. rewrite trim_list_id.
  - by rewrite rev_involutive.
  - unfold trim_right. rewrite rev_involutive. apply trim_list_none.
    + apply rev_space_encodings_ne.
    + by rewrite length_rev.
Qed.

Example TrimSpace_example : TrimSpace "  cli	" = "cli"%string.
Proof. vm_compute. reflexivity. Qed.
