(* ===== verification/Sha256.v ===== *)
(** * SHA-256 (crypto/sha256)

    The Host fingerprints requests, image blobs and workspace entries with
    [sha256.Sum256].  The algorithm is written out on 32-bit words kept as integers
    with explicit wrap-around, so fingerprints can be computed. *)

From Stdlib Require Import Ascii String.
From stdpp Require Import base tactics numbers list strings.
From S2P Require Import Prelude GoStrings.

Local Open Scope Z_scope.

(** 32-bit addition, rotation and complement. *)
Definition add32 (x y : Z) : Z := u32 (x + y).
Definition rotr32 (k x : Z) : Z := Z.lor (Z.shiftr x k) (u32 (Z.shiftl x (32 - k))).
Definition not32 (x : Z) : Z := Z.lxor x (u32_modulus - 1).

(** The constants of FIPS 180-4: the first 32 bits of the fractional parts of the cube
    roots (round constants) and square roots (initial state) of the first primes. *)
Definition is_prime (n : Z) : bool :=
  forallb (λ k, negb (bool_decide (n mod Z.of_nat k = 0))) (seq 2 (Z.to_nat n - 2)).
Definition primes : list Z := filter is_prime (Z.of_nat <$> seq 2 310).

(** Digit-by-digit integer root: the largest [r] below [2 ^ bits] with [r ^ k <= n]. *)
Fixpoint int_root (k : Z) (bits : nat) (r n : Z) : Z :=
  match bits with
  | O => r
  | S b =>
      let r' := Z.setbit r (Z.of_nat b) in
      int_root k b (if (r' ^ k <=? n) then r' else r) n
  end.

Definition frac_root (k p : Z) : Z := u32 (int_root k 40 0 (Z.shiftl p (32 * k))).

Definition sha_K : list Z := Eval vm_compute in (frac_root 3 <$> primes).
Definition sha_H0 : list Z := Eval vm_compute in (frac_root 2 <$> take 8 primes).

Definition sha_ch (x y z : Z) : Z := Z.lxor (Z.land x y) (Z.land (not32 x) z).
Definition sha_maj (x y z : Z) : Z := Z.lxor (Z.lxor (Z.land x y) (Z.land x z)) (Z.land y z).
Definition sha_Sigma0 (x : Z) : Z := Z.lxor (Z.lxor (rotr32 2 x) (rotr32 13 x)) (rotr32 22 x).
Definition sha_Sigma1 (x : Z) : Z := Z.lxor (Z.lxor (rotr32 6 x) (rotr32 11 x)) (rotr32 25 x).
Definition sha_sigma0 (x : Z) : Z := Z.lxor (Z.lxor (rotr32 7 x) (rotr32 18 x)) (Z.shiftr x 3).
Definition sha_sigma1 (x : Z) : Z := Z.lxor (Z.lxor (rotr32 17 x) (rotr32 19 x)) (Z.shiftr x 10).

(** The message schedule: 48 more words, each from the last sixteen; [w] is newest
    first. *)
Fixpoint sha_schedule (n : nat) (w : list Z) : list Z :=
  match n with
  | O => rev w
  | S n =>
      let t := add32 (add32 (sha_sigma1 (nth 1 w 0)) (nth 6 w 0))
                     (add32 (sha_sigma0 (nth 14 w 0)) (nth 15 w 0)) in
      sha_schedule n (t :: w)
  end.

(** One round on the eight working variables. *)
Definition sha_round (v : list Z) (kw : Z * Z) : list Z :=
  match v with
  | [a; b; c; d; e; f; g; h] =>
      let t1 := add32 (add32 h (sha_Sigma1 e)) (add32 (sha_ch e f g) (add32 kw.1 kw.2)) in
      let t2 := add32 (sha_Sigma0 a) (sha_maj a b c) in
      [add32 t1 t2; a; b; c; add32 d t1; e; f; g]
  | _ => v
  end.

Definition sha_block (hs : list Z) (block : list Z) : list Z :=
  zip_with add32 hs (foldl sha_round hs (zip sha_K (sha_schedule 48 (rev block)))).

(** Big-endian bytes. *)
Fixpoint be_bytes (n : nat) (x : Z) : list Z :=
  match n with
  | O => []
  | S n => be_bytes n (Z.shiftr x 8) ++ [Z.land x 255]
  end.

Fixpoint be_words (bs : list Z) : list Z :=
  match bs with
  | a :: b :: c :: d :: bs =>
      (Z.shiftl a 24 + Z.shiftl b 16 + Z.shiftl c 8 + d) :: be_words bs
  | _ => []
  end.

(** Padding: a one bit, zeros up to 56 modulo 64, the length in bits. *)
Definition sha_pad (bs : list Z) : list Z :=
  let n := zlen bs in
  bs ++ [128] ++ replicate (Z.to_nat ((55 - n) mod 64)) 0 ++ be_bytes 8 (8 * n).

Fixpoint sha_blocks (fuel : nat) (hs : list Z) (ws : list Z) : list Z :=
  match fuel with
  | O => hs
  | S fuel =>
      match ws with
      | [] => hs
      | _ => sha_blocks fuel (sha_block hs (take 16 ws)) (drop 16 ws)
      end
  end.

Definition byte_of_Z (x : Z) : ascii := ascii_of_N (Z.to_N (x mod 256)).

(** [sha256.Sum256]: 32 bytes. *)
Definition Sum256 (s : string) : string :=
  let ws := be_words (sha_pad (bval <$> chars s)) in
  of_chars (byte_of_Z <$> mbind (be_bytes 4) (sha_blocks (S (length ws)) sha_H0 ws)).

(** The published test vectors. *)
Example Sum256_abc :
  EncodeToString (Sum256 "abc") = "ba7816bf8f01cfea414140de5dae2223b00361a396177a9cb410ff61f20015ad"%string.
Proof. vm_compute. reflexivity. Qed.

Example Sum256_two_blocks :
  EncodeToString (Sum256 "abcdbcdecdefdefgefghfghighijhijkijkljklmklmnlmnomnopnopq") =
  "248d6a61d20638b8e5c026930c3e6039a33ce45964ff2167f6ecedd419db06c1"%string.
Proof. vm_compute. reflexivity. Qed.

Lemma be_bytes_length n x : length (be_bytes n x) = n.
Proof. revert x. induction n as [|n IH]; intros x; simpl; [done|]. rewrite length_app, IH. simpl. lia. Qed.

Lemma sha_round_length v kw : length (sha_round v kw) = length v.
Proof. unfold sha_round. repeat case_match; done. Qed.

Lemma sha_block_length hs block : length hs = 8%nat → length (sha_block hs block) = 8%nat.
Proof.
  intros Hl. unfold sha_block. rewrite length_zip_with.
  assert (∀ l v, length v = 8%nat → length (foldl sha_round v l) = 8%nat) as Hf.
  { induction l as [|kw l IH]; intros v Hv; simpl; [done|]. apply IH. by rewrite sha_round_length. }
  rewrite Hf; [lia|done].
Qed.

Lemma sha_blocks_length fuel hs ws : length hs = 8%nat → length (sha_blocks fuel hs ws) = 8%nat.
Proof.
  revert hs ws. induction fuel as [|fuel IH]; intros hs ws Hl; simpl; [done|].
  destruct ws; [done|]. by apply IH, sha_block_length.
Qed.

(** A digest has 32 bytes, so a fingerprint is never empty. *)
Lemma Sum256_length s : String.length (Sum256 s) = 32%nat.
Proof.
  unfold Sum256. rewrite length_of_chars, length_fmap.
  set (hs := sha_blocks _ _ _). assert (length hs = 8%nat) as Hl by (by apply sha_blocks_length).
  assert (∀ l : list Z, length (mbind (be_bytes 4) l) = (4 * length l)%nat) as Hb.
  { induction l as [|x l IH]; [done|]. rewrite bind_cons, length_app, IH, be_bytes_length. simpl. lia. }
  rewrite Hb, Hl. done.
Qed.

