(* ===== verification/GoPath.v ===== *)
(** * Slash-separated paths (path and path/filepath on Unix)

    Lexical path processing as the Host uses it: [Clean], [Join], [Dir], [Base],
    [Rel], [IsAbs].  A path is processed by its components, the parts between
    slashes; the lemmas relate the operations to component lists, so that
    containment of one path in another is the prefix order on lists. *)

From Stdlib Require Import Ascii String.
From stdpp Require Import base tactics numbers list gmap strings.
From S2P Require Import Prelude GoError GoStrings.
Local Open Scope string_scope.
Local Open Scope nat_scope.
Local Open Scope list_scope.

(** ** Operations *)

Definition slash : ascii := "/"%char.

(** [strings.Join(parts, "/")]. *)
Fixpoint join_slash (parts : list string) : string :=
  match parts with
  | [] => ""
  | [p] => p
  | p :: parts => p +:+ String slash (join_slash parts)
  end.

Definition Split_slash (p : string) : list string := Split p slash.

(** The effect of one component on the output, which is kept newest first. *)
Definition clean_step (rooted : bool) (out : list string) (c : string) : list string :=
  if bool_decide (c = "") || bool_decide (c = ".") then out
  else if bool_decide (c = "..") then
    match out with
    | [] => if rooted then [] else [".."]
    | top :: rest => if bool_decide (top = "..") then ".." :: out else rest
    end
  else c :: out.

Definition clean_comps (rooted : bool) (parts : list string) : list string :=
  rev (foldl (clean_step rooted) [] parts).

Definition IsAbs (p : string) : bool := HasPrefix p "/".

(** A rooted path from its components. *)
Definition apath (cs : list string) : string := String slash (join_slash cs).

Definition Clean (p : string) : string :=
  let out := clean_comps (IsAbs p) (Split_slash p) in
  if IsAbs p then apath out
  else match out with [] => "." | _ => join_slash out end.

(** [filepath.Join(elems...)]. *)
Fixpoint Join (elems : list string) : string :=
  match elems with
  | [] => ""
  | e :: rest => if str_empty e then Join rest else Clean (join_slash elems)
  end.

(** [filepath.Abs]; [wd] is what [os.Getwd] returns. *)
Definition Abs (wd : res string) (p : string) : res string :=
  if IsAbs p then Ok (Clean p)
  else match wd with Ok wd => Ok (Join [wd; p]) | Err e => Err e end.

(** The path up to its last slash, cleaned. *)
Definition Dir (p : string) : string :=
  match rev (Split_slash p) with
  | _ :: ((_ :: _) as before) => Clean (join_slash (rev before) +:+ "/")
  | _ => "."
  end.

Definition Base (p : string) : string :=
  if str_empty p then "."
  else match last (filter (λ c, c ≠ "") (Split_slash p)) with
  | None => "/"
  | Some c => c
  end.

(** The non-empty components. *)
Definition pcomps (p : string) : list string := filter (λ c, c ≠ "") (Split_slash p).

Fixpoint strip_common (bs ts : list string) : list string * list string :=
  match bs, ts with
  | b :: bs', t :: ts' => if bool_decide (b = t) then strip_common bs' ts' else (bs, ts)
  | _, _ => (bs, ts)
  end.

(** [filepath.Rel]. *)
Definition Rel (basepath targpath : string) : res string :=
  let base := Clean basepath in
  let targ := Clean targpath in
  if bool_decide (targ = base) then Ok "."
  else
    let base := if bool_decide (base = ".") then "" else base in
    if negb (eqb (IsAbs base) (IsAbs targ)) then Err (ErrText ("Rel: can't make " +:+ targpath +:+ " relative to " +:+ basepath))
    else
      let '(bs, ts) := strip_common (pcomps base) (pcomps targ) in
      match bs, ts with
      | ".." :: _, _ :: _ => Err (ErrText ("Rel: can't make " +:+ targpath +:+ " relative to " +:+ basepath))
      | _, _ => Ok (join_slash (((λ _, "..") <$> bs) ++ ts))
      end.

(** ** Splitting and joining *)

Definition slash_free (c : string) : Prop := slash ∉ chars c.
#[export] Instance slash_free_dec c : Decision (slash_free c).
Proof. unfold slash_free. apply _. Defined.

(** A component that names an entry. *)
Definition normal (c : string) : Prop := slash_free c ∧ c ≠ "" ∧ c ≠ "." ∧ c ≠ "..".
#[export] Instance normal_dec c : Decision (normal c).
Proof. unfold normal. apply _. Defined.

Lemma chars_app a b : chars (a +:+ b) = (chars a ++ chars b)%list.
Proof. induction a as [|c a IH]; simpl; [done|]. by f_equal. Qed.

Lemma slen_append a b : slen (a +:+ b) = (slen a + slen b)%Z.
Proof. unfold slen. rewrite <- !length_chars, chars_app, length_app. lia. Qed.

Lemma string_append_nil_r s : s +:+ "" = s.
Proof. rewrite <- (of_chars_chars (s +:+ "")), chars_app, app_nil_r. apply of_chars_chars. Qed.

Lemma string_append_assoc a b c : (a +:+ b) +:+ c = a +:+ (b +:+ c).
Proof. rewrite <- (of_chars_chars ((a +:+ b) +:+ c)), <- (of_chars_chars (a +:+ (b +:+ c))). by rewrite !chars_app, app_assoc. Qed.

Lemma slen_take k s : (slen (str_take k s) ≤ (Z.of_nat k))%Z.
Proof. unfold slen, str_take. rewrite <- length_chars, chars_of_chars, length_take. lia. Qed.

Lemma split_list_ne sep l : split_list sep l ≠ [].
Proof. destruct l as [|c l]; simpl; [done|]. by repeat case_match. Qed.

Lemma split_list_app sep a b : split_list sep (a ++ sep :: b) = (split_list sep a ++ split_list sep b)%list.
Proof.
  induction a as [|c a IH]; simpl.
  - destruct (split_list sep b) eqn:E; [by apply split_list_ne in E|]. by rewrite Ascii.eqb_refl.
  - rewrite IH. destruct (split_list sep a) as [|p ps] eqn:E; [by apply split_list_ne in E|].
    simpl. by destruct (Ascii.eqb c sep).
Qed.

Lemma split_list_free sep l : sep ∉ l → split_list sep l = [l].
Proof.
  induction l as [|c l IH]; simpl; [done|]. intros [Hc Hl]%not_elem_of_cons.
  rewrite IH by done. destruct (Ascii.eqb c sep) eqn:E; [|done]. by apply Ascii.eqb_eq in E.
Qed.

Lemma split_list_parts sep l : Forall (λ p, sep ∉ p) (split_list sep l).
Proof.
  induction l as [|c l IH]; simpl; [repeat constructor; apply not_elem_of_nil|].
  destruct (split_list sep l) as [|p ps] eqn:E; [by apply split_list_ne in E|].
  inversion IH as [|?? Hp Hps]; subst.
  destruct (Ascii.eqb c sep) eqn:Ec.
  - constructor; [apply not_elem_of_nil|by constructor].
  - constructor; [|done]. apply not_elem_of_cons. split; [|done].
    intros ->. by rewrite Ascii.eqb_refl in Ec.
Qed.

Lemma Split_slash_app a b : Split_slash (a +:+ String slash b) = (Split_slash a ++ Split_slash b)%list.
Proof. unfold Split_slash, Split. rewrite chars_app. simpl. by rewrite split_list_app, fmap_app. Qed.

Lemma Split_slash_free c : slash_free c → Split_slash c = [c].
Proof. intros H. unfold Split_slash, Split. rewrite split_list_free by done. simpl. by rewrite of_chars_chars. Qed.

Lemma Split_slash_parts p : Forall slash_free (Split_slash p).
Proof.
  unfold Split_slash, Split. apply Forall_fmap. eapply Forall_impl; [apply split_list_parts|].
  intros l Hl. unfold slash_free. simpl. by rewrite chars_of_chars.
Qed.

Lemma Split_slash_ne p : Split_slash p ≠ [].
Proof. unfold Split_slash, Split. intros E%fmap_nil_inv. by apply split_list_ne in E. Qed.

Lemma Split_join parts : parts ≠ [] → Forall slash_free parts → Split_slash (join_slash parts) = parts.
Proof.
  induction parts as [|p parts IH]; [done|]. intros _ [Hp Hps]%Forall_cons.
  destruct parts as [|q parts]; [by apply Split_slash_free|].
  change (join_slash (p :: q :: parts)) with (p +:+ String slash (join_slash (q :: parts))).
  rewrite Split_slash_app, IH by done. by rewrite Split_slash_free.
Qed.

Lemma join_slash_cons p parts : parts ≠ [] → join_slash (p :: parts) = p +:+ String slash (join_slash parts).
Proof. by destruct parts. Qed.

Lemma join_split p : join_slash (Split_slash p) = p.
Proof.
  apply (inj chars). unfold Split_slash, Split. generalize (chars p) as l. clear p.
  induction l as [|c l IH]; [done|]. simpl.
  destruct (split_list slash l) as [|q qs]; [by rewrite <- IH|].
  destruct (Ascii.eqb c slash) eqn:Ec.
  - apply Ascii.eqb_eq in Ec as ->. rewrite fmap_cons, join_slash_cons by done. simpl.
    by rewrite <- IH at 1.
  - destruct qs as [|r qs]; [by rewrite <- IH; simpl; rewrite !chars_of_chars|].
    rewrite !fmap_cons in *. rewrite join_slash_cons in * by done. rewrite chars_app in *.
    rewrite chars_of_chars in *. simpl in *. by rewrite <- IH.
Qed.

(** ** Cleaning *)

Lemma clean_step_normal rooted out c : normal c → clean_step rooted out c = c :: out.
Proof. intros (? & ? & ? & ?). unfold clean_step. by rewrite !bool_decide_false by done. Qed.

Lemma clean_step_empty rooted out : clean_step rooted out "" = out.
Proof. done. Qed.

Lemma foldl_clean_normal rooted out parts :
  Forall normal parts → foldl (clean_step rooted) out parts = (rev parts ++ out)%list.
Proof.
  intros H. revert out. induction H as [|p parts Hp _ IH]; intros out; [done|].
  simpl. rewrite clean_step_normal, IH by done. by rewrite <- app_assoc.
Qed.

(** A rooted path is cleaned to entry names only. *)
Lemma foldl_clean_rooted out parts :
  Forall slash_free parts → Forall normal out → Forall normal (foldl (clean_step true) out parts).
Proof.
  intros H. revert out. induction H as [|p parts Hp _ IH]; intros out Hout; [done|]. simpl. apply IH.
  unfold clean_step. destruct (bool_decide (p = "") || bool_decide (p = ".")) eqn:E; [done|]. to_prop.
  case_bool_decide as Hd.
  - destruct Hout as [|top rest Ht Hr]; [constructor|]. case_bool_decide; [|done].
    destruct Ht as (_ & _ & _ & Hn). done.
  - constructor; [|done]. by repeat split.
Qed.

Lemma clean_comps_rooted parts : Forall slash_free parts → Forall normal (clean_comps true parts).
Proof. intros H. apply Forall_rev, foldl_clean_rooted; [done|constructor]. Qed.

Lemma IsAbs_apath cs : IsAbs (apath cs) = true.
Proof. done. Qed.

Lemma Split_apath cs : Forall slash_free cs →
  Split_slash (apath cs) = "" :: (match cs with [] => [""] | _ => cs end).
Proof.
  intros H. unfold apath. change (String slash (join_slash cs)) with ("" +:+ String slash (join_slash cs)).
  rewrite Split_slash_app. simpl. f_equal. destruct cs; [done|]. by rewrite Split_join.
Qed.

Lemma normal_slash_free cs : Forall normal cs → Forall slash_free cs.
Proof. intros H. eapply Forall_impl; [exact H|]. by intros c []. Qed.

Lemma foldl_clean_apath rooted cs : Forall normal cs →
  foldl (clean_step rooted) [] (Split_slash (apath cs)) = rev cs.
Proof.
  intros H. rewrite Split_apath by by apply normal_slash_free. simpl. rewrite clean_step_empty.
  destruct cs; [done|]. rewrite foldl_clean_normal by done. by rewrite app_nil_r.
Qed.

Lemma Clean_apath cs : Forall normal cs → Clean (apath cs) = apath cs.
Proof.
  intros H. unfold Clean. rewrite IsAbs_apath. unfold clean_comps.
  by rewrite foldl_clean_apath, rev_involutive.
Qed.

(** Every rooted path has a normal form. *)
Lemma Clean_rooted p : IsAbs p = true → ∃ cs, Forall normal cs ∧ Clean p = apath cs.
Proof.
  intros H. unfold Clean. rewrite H. eexists. split; [|done]. apply clean_comps_rooted, Split_slash_parts.
Qed.

Lemma pcomps_apath cs : Forall normal cs → pcomps (apath cs) = cs.
Proof.
  intros H. unfold pcomps. rewrite Split_apath by by apply normal_slash_free.
  rewrite filter_cons_False by naive_solver.
  destruct cs as [|c cs]; [done|]. apply filter_all. eapply Forall_impl; [exact H|]. by intros x (? & ? & ?).
Qed.


Lemma apath_eq a b : Forall normal a → Forall normal b → apath a = apath b → a = b.
Proof. intros Ha Hb E. by rewrite <- (pcomps_apath a), <- (pcomps_apath b), E. Qed.

(** ** Join, Dir and Base on rooted clean paths *)

Lemma str_empty_apath cs : str_empty (apath cs) = false.
Proof. done. Qed.

Lemma IsAbs_app cs s : IsAbs (apath cs +:+ s) = true.
Proof. done. Qed.

(** Appending a relative path and cleaning continues the component list. *)
Lemma Clean_append rs rel : Forall normal rs →
  Clean (apath rs +:+ String slash rel) = apath (rev (foldl (clean_step true) (rev rs) (Split_slash rel))).
Proof.
  intros H. unfold Clean. rewrite IsAbs_app. unfold clean_comps.
  by rewrite Split_slash_app, foldl_app, foldl_clean_apath.
Qed.

Lemma Join_append rs rel : Forall normal rs →
  Join [apath rs; rel] = apath (rev (foldl (clean_step true) (rev rs) (Split_slash rel))).
Proof. intros H. unfold Join. rewrite str_empty_apath. simpl. by apply Clean_append. Qed.

Lemma Join_root rs : Forall normal rs → Join [apath rs; ""] = apath rs.
Proof.
  intros H. rewrite Join_append by done. change (Split_slash "") with [""]. simpl.
  by rewrite clean_step_empty, rev_involutive.
Qed.

Lemma Join_parts rs parts : Forall normal rs → Forall normal parts → parts ≠ [] →
  Join [apath rs; join_slash parts] = apath (rs ++ parts).
Proof.
  intros Hr Hp Hne. rewrite Join_append by done.
  rewrite Split_join by (done || by apply normal_slash_free). rewrite foldl_clean_normal by done.
  by rewrite rev_app_distr, !rev_involutive.
Qed.

Lemma Join_child rs c : Forall normal rs → normal c → Join [apath rs; c] = apath (rs ++ [c]).
Proof. intros Hr Hc. apply (Join_parts rs [c]); [done|by constructor|done]. Qed.

Lemma join_slash_snoc cs c : cs ≠ [] → join_slash (cs ++ [c]) = join_slash cs +:+ String slash c.
Proof.
  induction cs as [|p cs IH]; [done|]. intros _. destruct cs as [|q cs]; [done|].
  rewrite <- app_comm_cons, !join_slash_cons by (done || by destruct cs).
  rewrite IH by done. apply (inj chars). rewrite !chars_app. simpl. rewrite chars_app. by rewrite <- app_assoc.
Qed.

Lemma Dir_apath rs c : Forall normal rs → slash_free c → Dir (apath (rs ++ [c])) = apath rs.
Proof.
  intros Hr Hc. pose proof (normal_slash_free _ Hr) as Hs. unfold Dir.
  rewrite Split_apath by (by apply Forall_app; split; [|constructor]).
  assert ((match rs ++ [c] with [] => [""] | _ => rs ++ [c] end) = (rs ++ [c])%list)%list as -> by by destruct rs.
  change ("" :: (rs ++ [c])%list) with (("" :: rs) ++ [c])%list. rewrite rev_app_distr.
  change (rev [c] ++ rev ("" :: rs))%list with (c :: rev ("" :: rs)).
  destruct (rev ("" :: rs)) as [|x l] eqn:E; [by apply (f_equal length) in E; rewrite length_rev in E|].
  rewrite <- E, rev_involutive. destruct rs as [|r rs]; [done|].
  rewrite join_slash_cons by done. change ("" +:+ String slash (join_slash (r :: rs))) with (apath (r :: rs)).
  change "/" with (String slash ""). rewrite Clean_append by done. change (Split_slash "") with [""].
  cbn [foldl]. by rewrite clean_step_empty, rev_involutive.
Qed.

Lemma Dir_root : Dir (apath []) = apath [].
Proof. done. Qed.

Lemma Base_apath rs c : Forall normal rs → normal c → Base (apath (rs ++ [c])) = c.
Proof.
  intros Hr Hc. unfold Base. rewrite str_empty_apath.
  change (filter (λ c, c ≠ "") (Split_slash (apath (rs ++ [c])))) with (pcomps (apath (rs ++ [c]))).
  rewrite pcomps_apath by (by apply Forall_app; split; [|constructor]). by rewrite last_snoc.
Qed.

(** ** Rel *)

Lemma strip_common_prefix bs ts : (strip_common bs ts).1 = [] → bs `prefix_of` ts.
Proof.
  revert ts. induction bs as [|b bs IH]; intros ts H; [apply prefix_nil|].
  destruct ts as [|t ts]; simpl in H; [done|]. case_bool_decide; [|done]. subst.
  apply prefix_cons. by apply IH.
Qed.

Lemma strip_common_app bs ts : strip_common bs (bs ++ ts) = ([], ts).
Proof. induction bs as [|b bs IH]; simpl; [by destruct ts|]. by rewrite bool_decide_true. Qed.

Lemma strip_common_fst bs ts : ∃ k, bs = (k ++ (strip_common bs ts).1)%list.
Proof.
  revert ts. induction bs as [|b bs IH]; intros ts; simpl; [by exists []|].
  destruct ts as [|t ts]; [by exists []|]. case_bool_decide; [|by exists []].
  destruct (IH ts) as [k Hk]. exists (b :: k). simpl. by f_equal.
Qed.

(** The relative path between rooted clean paths, by components. *)
Lemma Rel_apath rs cs : Forall normal rs → Forall normal cs →
  Rel (apath rs) (apath cs) =
    if bool_decide (cs = rs) then Ok "."
    else let '(bs, ts) := strip_common rs cs in Ok (join_slash (((λ _, "..") <$> bs) ++ ts)).
Proof.
  intros Hr Hc. unfold Rel. rewrite !Clean_apath by done.
  case_bool_decide as E; [by rewrite bool_decide_true by by apply apath_eq|].
  rewrite (bool_decide_false (cs = rs)) by congruence.
  rewrite (bool_decide_false (apath rs = ".")) by done. simpl negb.
  rewrite !pcomps_apath by done. destruct (strip_common rs cs) as [bs ts] eqn:Es.
  destruct (strip_common_fst rs cs) as [k Hk]. rewrite Es in Hk. simpl in Hk.
  destruct bs as [|b bs]; [done|]. assert (normal b) as (_ & _ & _ & Hb).
  { rewrite Hk, Forall_app, Forall_cons in Hr. naive_solver. }
  destruct b as [|[[] [] [] [] [] [] [] []] b]; try done. destruct b as [|[[] [] [] [] [] [] [] []] b]; try done.
  by destruct b.
Qed.

Lemma join_slash_head c cs : ∃ s, join_slash (c :: cs) = c +:+ s ∧ (s = "" ∧ cs = [] ∨ ∃ s', s = String slash s').
Proof.
  destruct cs as [|d cs].
  - exists "". split; [|by left]. simpl. apply (inj chars). by rewrite chars_app, app_nil_r.
  - exists (String slash (join_slash (d :: cs))). split; [done|]. right. eauto.
Qed.

Lemma chars_nonempty c : c ≠ "" → ∃ x l, chars c = x :: l.
Proof. destruct c; [done|]. intros _. simpl. eauto. Qed.

Lemma IsAbs_join c cs : slash_free c → c ≠ "" → IsAbs (join_slash (c :: cs)) = false.
Proof.
  intros Hf Hne. destruct (join_slash_head c cs) as (s & -> & _). unfold IsAbs, HasPrefix. rewrite chars_app.
  unfold slash_free in Hf. destruct (chars_nonempty c Hne) as (x & l & Hx). rewrite Hx in *. simpl.
  rewrite andb_true_r. destruct (Ascii.eqb "/" x) eqn:E; [|done]. apply Ascii.eqb_eq in E as <-.
  apply not_elem_of_cons in Hf as [Hf _]. done.
Qed.

Lemma is_prefix_app_l p l k : is_prefix p (l ++ k) = true → length p ≤ length l → is_prefix p l = true.
Proof.
  rewrite !is_prefix_spec. intros [x Hx] Hl. exists (drop (length p) l).
  rewrite <- (take_drop (length p) l) at 1. f_equal.
  apply (f_equal (take (length p))) in Hx. rewrite take_app_le, take_app_length in Hx by lia. done.
Qed.

(** A normal first component does not lead upwards. *)
Lemma join_not_up c cs : normal c → join_slash (c :: cs) ≠ ".." ∧ HasPrefix (join_slash (c :: cs)) "../" = false.
Proof.
  intros (Hf & H0 & H1 & H2). destruct (join_slash_head c cs) as (s & -> & Hs).
  assert (∀ k, chars c ++ chars s = chars "../" ++ k → False) as Hup.
  { intros k E. unfold slash_free in Hf. destruct (chars c) as [|a [|b [|d l]]] eqn:Ec; simpl in E.
    - by apply H0, (inj chars).
    - destruct Hs as [(-> & _) | [s' ->]]; simpl in E; discriminate E.
    - injection E as -> -> _. apply H2, (inj chars). by rewrite Ec.
    - injection E as -> -> -> _. apply Hf. set_solver. }
  split.
  - intros E. apply (f_equal chars) in E. rewrite chars_app in E.
    destruct Hs as [(-> & _) | [s' ->]].
    + rewrite app_nil_r in E. by apply H2, (inj chars).
    + destruct (chars c) as [|a [|b l]] eqn:Ec; simpl in E; [by apply H0, (inj chars)|discriminate E|].
      injection E as _ _ E. by destruct l.
  - destruct (HasPrefix _ _) eqn:E; [|done]. unfold HasPrefix in E. rewrite is_prefix_spec, chars_app in E.
    destruct E as [k E]. by apply Hup in E.
Qed.
