(* ===== verification/FileSystem.v ===== *)
(** * The file system (os, path/filepath.EvalSymlinks)

    The operating system seen by the Host: a tree of inodes keyed by physical path
    (the list of entry names from the root), symbolic links included, and the calls
    the Host makes on it.  Every call may fail with an error of the environment's
    choice ([fs_faults]), and random names come from the environment ([fs_rand]).
    Directory timestamps are not tracked. *)

From Stdlib Require Import Ascii String.
From stdpp Require Import base tactics numbers list sorting gmap strings pretty.
From S2P Require Import Prelude GoError GoStrings GoPath.
Local Open Scope string_scope.
Local Open Scope nat_scope.
Local Open Scope list_scope.

(** ** Inodes and trees *)

Inductive node :=
| NFile (content : string)
| NDir
| NLink (target : string)
| NOther (bits : Z).       (* device, pipe, socket: the type bits of its mode *)

#[export] Instance node_eq_dec : EqDecision node.
Proof. solve_decision. Defined.

Record inode := mkInode {
  in_node : node;
  in_perm : Z;
  in_mtime : Z;    (* nanoseconds *)
  in_dev : Z;
  in_ino : Z;
  in_ctime : Z;    (* nanoseconds *)
}.

#[export] Instance inode_eq_dec : EqDecision inode.
Proof. solve_decision. Defined.

Definition path_eq_dec : EqDecision (list string) := _.
Definition path_countable : @Countable (list string) path_eq_dec := _.
Notation tree := (@gmap (list string) path_eq_dec path_countable inode).

Definition set_in_ctime (now : Z) (i : inode) : inode :=
  mkInode (in_node i) (in_perm i) (in_mtime i) (in_dev i) (in_ino i) now.

(** [os.FileInfo]. *)
Definition ModeDir : Z := 2 ^ 31.
Definition ModeSymlink : Z := 2 ^ 27.
Definition fi_Mode (i : inode) : Z :=
  Z.lor (in_perm i)
    match in_node i with NFile _ => 0 | NDir => ModeDir | NLink _ => ModeSymlink | NOther bits => bits end.
Definition fi_IsRegular (i : inode) : bool := match in_node i with NFile _ => true | _ => false end.
Definition fi_IsDir (i : inode) : bool := match in_node i with NDir => true | _ => false end.
Definition fi_IsSymlink (i : inode) : bool := match in_node i with NLink _ => true | _ => false end.
Definition fi_Size (i : inode) : Z :=
  match in_node i with NFile c => slen c | NDir => 4096 | NLink t => slen t | NOther _ => 0 end.

Record FS := mkFS {
  fs_tree : tree;
  fs_faults : list (option (goerr * nat));
  fs_rand : list (option string);
  fs_clock : Z;
}.

Definition set_fs_tree (t : tree) (s : FS) : FS := mkFS t (fs_faults s) (fs_rand s) (fs_clock s).
Definition set_fs_faults (l : list (option (goerr * nat))) (s : FS) : FS := mkFS (fs_tree s) l (fs_rand s) (fs_clock s).
Definition set_fs_rand (l : list (option string)) (s : FS) : FS := mkFS (fs_tree s) (fs_faults s) l (fs_clock s).
Definition tick (s : FS) : FS := mkFS (fs_tree s) (fs_faults s) (fs_rand s) (fs_clock s + 1).

(** An environment failure is not a missing entry: that is for the tree to say. *)
Definition fault_err (e : goerr) : goerr :=
  if errorsIs e ErrNotExist then ErrText "input/output error" else e.

(** One call: it fails without effect when the environment says so. *)
Definition sys {A} (op : M FS A) : M FS A := λ s,
  match fs_faults s with
  | Some (e, _) :: faults => (set_fs_faults faults s, Err (fault_err e))
  | None :: faults => op (tick (set_fs_faults faults s))
  | [] => op (tick s)
  end.

(** ** Path resolution *)

Definition ENOENT : goerr := ErrSentinel ErrNotExist.
Definition ENOTDIR : goerr := ErrText "not a directory".
Definition ELOOP : goerr := ErrText "too many links".

Definition parent_of (p : list string) : list string := take (length p - 1) p.

(** Follow [todo] from the physical directory [dest], through at most [links] symbolic
    links; the result is a physical path. *)
Fixpoint walk (links : nat) (t : tree) : list string → list string → res (list string) :=
  fix go (dest todo : list string) : res (list string) :=
    match todo with
    | [] => Ok dest
    | c :: rest =>
        if bool_decide (c = "") || bool_decide (c = ".") then go dest rest
        else if bool_decide (c = "..") then go (parent_of dest) rest
        else
          match t !! (dest ++ [c])%list with
          | None => Err ENOENT
          | Some i =>
              match in_node i with
              | NLink target =>
                  match links with
                  | O => Err ELOOP
                  | S links => walk links t (if IsAbs target then [] else dest) (Split_slash target ++ rest)
                  end
              | NDir => go (dest ++ [c])%list rest
              | _ => match rest with [] => Ok (dest ++ [c])%list | _ => Err ENOTDIR end
              end
          end
    end.

(** [filepath.EvalSymlinks] of a rooted path follows at most 255 links. *)
Definition EvalSymlinks (p : string) : M FS string :=
  sys (λ s, (s, apath <$> walk 255 (fs_tree s) [] (Split_slash p))).

(** The kernel follows at most 40. *)
Definition max_links : nat := 40.

Definition is_dir_at (t : tree) (p : list string) : bool :=
  match p with [] => true | _ => match t !! p with Some i => fi_IsDir i | None => false end end.

(** Where the last component of the clean rooted path [p] is or would be. *)
Definition locate (t : tree) (p : string) : res (list string) :=
  match rev (pcomps p) with
  | [] => Ok []
  | c :: before =>
      match walk max_links t [] (rev before) with
      | Ok d => if is_dir_at t d then Ok (d ++ [c])%list else Err ENOTDIR
      | Err e => Err e
      end
  end.

(** The entry a path names, after following a final link. *)
Definition follow (t : tree) (p : string) : res inode :=
  match walk max_links t [] (Split_slash p) with
  | Ok d => match t !! d with Some i => Ok i | None => Err ENOENT end
  | Err e => Err e
  end.

Definition lstat_tree (t : tree) (p : string) : res inode :=
  match locate t p with
  | Ok d => match t !! d with Some i => Ok i | None => Err ENOENT end
  | Err e => Err e
  end.

Definition Lstat (p : string) : M FS inode := sys (λ s, (s, lstat_tree (fs_tree s) p)).
Definition Stat (p : string) : M FS inode := sys (λ s, (s, follow (fs_tree s) p)).

Definition ReadFile (p : string) : M FS string :=
  sys (λ s, (s, match follow (fs_tree s) p with
                | Ok i => match in_node i with
                          | NFile c => Ok c
                          | NDir => Err (ErrText "is a directory")
                          | _ => Err (ErrText "input/output error")
                          end
                | Err e => Err e
                end)).

(** [os.ReadDir]: entry names in byte order. *)
Definition child_name (d : list string) (k : list string) : option string :=
  match drop (length d) k with
  | [c] => if bool_decide (take (length d) k = d) then Some c else None
  | _ => None
  end.

Definition name_le (a b : string) : Prop := String.leb a b = true.
#[export] Instance name_le_dec : RelDecision name_le.
Proof. intros a b. unfold name_le. apply _. Defined.

Definition children (t : tree) (d : list string) : list string :=
  merge_sort name_le (omap (child_name d) (map_to_list t).*1).

Definition ReadDir (p : string) : M FS (list string) :=
  sys (λ s, (s, match walk max_links (fs_tree s) [] (Split_slash p) with
                | Ok d => if is_dir_at (fs_tree s) d then Ok (children (fs_tree s) d) else Err ENOTDIR
                | Err e => Err e
                end)).

(** ** Changes *)

Definition drop_tree (p : list string) (t : tree) : tree := filter (λ '(k, _), ¬ p `prefix_of` k) t.

Definition has_children (t : tree) (p : list string) : bool :=
  negb (bool_decide (filter (λ '(k, _), p ≠ k ∧ p `prefix_of` k) t = (∅ : tree))).

(** Exchange two disjoint subtrees' names. *)
Definition swap_prefix (src dst k : list string) : list string :=
  if bool_decide (src `prefix_of` k) then (dst ++ drop (length src) k)%list
  else if bool_decide (dst `prefix_of` k) then (src ++ drop (length dst) k)%list
  else k.

Definition move_tree (src dst : list string) (t : tree) : tree := kmap (swap_prefix src dst) (drop_tree dst t).

(** rename(2). *)
Definition rename_tree (now : Z) (src dst : list string) (t : tree) : res tree :=
  match t !! src with
  | None => Err ENOENT
  | Some i =>
      if bool_decide (src = dst) then Ok t
      else if bool_decide (src `prefix_of` dst) then Err (ErrText "invalid argument")
      else if bool_decide (dst `prefix_of` src) then Err (ErrText "directory not empty")
      else
        let moved := alter (set_in_ctime now) dst (move_tree src dst t) in
        match t !! dst with
        | None => Ok moved
        | Some j =>
            if fi_IsDir i then
              if negb (fi_IsDir j) then Err ENOTDIR
              else if has_children t dst then Err (ErrText "directory not empty") else Ok moved
            else if fi_IsDir j then Err (ErrText "file exists") else Ok moved
        end
  end.

Definition Rename (src dst : string) : M FS unit :=
  sys (λ s, match locate (fs_tree s) src, locate (fs_tree s) dst with
            | Ok a, Ok b =>
                match rename_tree (fs_clock s) a b (fs_tree s) with
                | Ok t => (set_fs_tree t s, Ok tt)
                | Err e => (s, Err e)
                end
            | Err e, _ | _, Err e => (s, Err e)
            end).

(** [os.Remove]. *)
Definition Remove (p : string) : M FS unit :=
  sys (λ s, match locate (fs_tree s) p with
            | Err e => (s, Err e)
            | Ok d =>
                match fs_tree s !! d with
                | None => (s, Err ENOENT)
                | Some i => if has_children (fs_tree s) d then (s, Err (ErrText "directory not empty"))
                            else (set_fs_tree (delete d (fs_tree s)) s, Ok tt)
                end
            end).

Definition deeper (a b : list string) : Prop := (length b ≤ length a)%nat.
#[export] Instance deeper_dec : RelDecision deeper.
Proof. intros a b. unfold deeper. apply _. Defined.

(** A removal that fails half-way has removed [n] entries, deepest first. *)
Definition partly_removed (n : nat) (d : list string) (t : tree) : tree :=
  let ks := merge_sort deeper
              (filter (λ k, d `prefix_of` k) (map_to_list t).*1) in
  foldl (λ t k, delete k t) t (take n ks).

(** [os.RemoveAll]: a missing path is not an error. *)
Definition RemoveAll (p : string) : M FS unit := λ s,
  let failed (e : goerr) := if errorsIs e ErrNotExist then Ok tt else Err e in
  match fs_faults s with
  | Some (e, n) :: faults =>
      let s := set_fs_faults faults s in
      match locate (fs_tree s) p with
      | Ok d => (set_fs_tree (partly_removed n d (fs_tree s)) s, Err (fault_err e))
      | Err e' => (s, failed e')
      end
  | _ =>
      let s := tick (set_fs_faults (tail (fs_faults s)) s) in
      match locate (fs_tree s) p with
      | Ok d => (set_fs_tree (drop_tree d (fs_tree s)) s, Ok tt)
      | Err e' => (s, failed e')
      end
  end.

(** A new inode; its number and times come from the clock. *)
Definition new_inode (n : node) (perm : Z) (s : FS) : inode :=
  mkInode n perm (fs_clock s) 0 (fs_clock s) (fs_clock s).

Definition put_inode (d : list string) (i : inode) (s : FS) : FS := set_fs_tree (<[d := i]> (fs_tree s)) s.

(** The first unused name of the environment's choice, as [os.CreateTemp] and
    [os.MkdirTemp] look for it. *)
Fixpoint fresh_name (t : tree) (d : list string) (prefix : string) (rand : list (option string))
    : option (string * list (option string)) :=
  match rand with
  | [] => None
  | None :: rand => fresh_name t d prefix rand
  | Some raw :: rand =>
      let name := prefix +:+ EncodeToString raw in
      match t !! (d ++ [name])%list with
      | None => Some (name, rand)
      | Some _ => fresh_name t d prefix rand
      end
  end.

Definition create_temp (n : node) (perm : Z) (dir prefix : string) : M FS string :=
  sys (λ s, match walk max_links (fs_tree s) [] (Split_slash dir) with
            | Err e => (s, Err e)
            | Ok d =>
                if negb (is_dir_at (fs_tree s) d) then (s, Err ENOTDIR)
                else match fresh_name (fs_tree s) d prefix (fs_rand s) with
                | None => (set_fs_rand [] s, Err (ErrText "file exists"))
                | Some (name, rand) =>
                    (set_fs_rand rand (put_inode (d ++ [name]) (new_inode n perm s) s),
                     Ok (Join [dir; name]))
                end
            end).

Definition CreateTemp (dir prefix : string) : M FS string := create_temp (NFile "") 384 dir prefix.  (* 0600 *)
Definition MkdirTemp (dir prefix : string) : M FS string := create_temp NDir 448 dir prefix.         (* 0700 *)

(** Calls on an open file, named by its path. *)
Definition on_file (p : string) (f : FS → inode → inode) : M FS unit :=
  sys (λ s, match locate (fs_tree s) p with
            | Err e => (s, Err e)
            | Ok d => match fs_tree s !! d with
                      | None => (s, Err ENOENT)
                      | Some i => (put_inode d (f s i) s, Ok tt)
                      end
            end).

Definition Chmod (p : string) (perm : Z) : M FS unit :=
  on_file p (λ s i, mkInode (in_node i) perm (in_mtime i) (in_dev i) (in_ino i) (fs_clock s)).

(** [f.Write] of the whole content into a new, empty file. *)
Definition FileWrite (p content : string) : M FS unit :=
  on_file p (λ s i, mkInode (NFile content) (in_perm i) (fs_clock s) (in_dev i) (in_ino i) (fs_clock s)).

(** [f.Sync] and [f.Close]. *)
Definition FileSync (p : string) : M FS unit := sys (mret tt).
Definition FileClose (p : string) : M FS unit := sys (mret tt).

(** [os.OpenFile(p, O_CREATE|O_EXCL|O_WRONLY, perm)]. *)
Definition OpenExclusive (p : string) (perm : Z) : M FS unit :=
  sys (λ s, match locate (fs_tree s) p with
            | Err e => (s, Err e)
            | Ok d => match fs_tree s !! d with
                      | Some _ => (s, Err (ErrText "file exists"))
                      | None => (put_inode d (new_inode (NFile "") perm s) s, Ok tt)
                      end
            end).

(** [os.MkdirAll]: the missing directories of the path, outermost first. *)
Definition mkdir_missing (perm : Z) (q : string) : M FS unit :=
  r ← attempt (Stat q);
  match r with
  | Ok i => if fi_IsDir i then mret tt else throw ENOTDIR
  | Err e =>
      if errorsIs e ErrNotExist then
        sys (λ s, match locate (fs_tree s) q with
                  | Err e => (s, Err e)
                  | Ok d => match fs_tree s !! d with
                            | Some _ => (s, Err (ErrText "file exists"))
                            | None => (put_inode d (new_inode NDir perm s) s, Ok tt)
                            end
                  end)
      else throw e
  end.

Definition MkdirAll (p : string) (perm : Z) : M FS unit :=
  mfor ((λ n, apath (take n (pcomps p))) <$> seq 1 (length (pcomps p))) (mkdir_missing perm).

(** ** Resolution is sound

    A physical path: every proper prefix is a directory and nothing on it is a link. *)

Definition real_dir (t : tree) (p : list string) : Prop :=
  ∀ k, k `prefix_of` p → k ≠ [] → ∃ i, t !! k = Some i ∧ in_node i = NDir.

Definition physical (t : tree) (p : list string) : Prop :=
  ∀ k, k `prefix_of` p → k ≠ [] →
    ∃ i, t !! k = Some i ∧ fi_IsSymlink i = false ∧ (k ≠ p → in_node i = NDir).

Lemma real_dir_nil t : real_dir t [].
Proof. intros k Hk Hne. by apply prefix_nil_inv in Hk. Qed.

Lemma real_dir_physical t p : real_dir t p → physical t p.
Proof.
  intros H k Hk Hne. destruct (H k Hk Hne) as (i & Hi & Hd). exists i.
  unfold fi_IsSymlink. rewrite Hd. done.
Qed.

Lemma real_dir_prefix t p q : q `prefix_of` p → real_dir t p → real_dir t q.
Proof. intros Hq H k Hk. apply H. by etrans. Qed.

Lemma prefix_snoc_inv {A} (k p : list A) x : k `prefix_of` p ++ [x] → k `prefix_of` p ∨ k = p ++ [x].
Proof.
  intros [l Hl]. destruct l as [|y l _] using rev_ind.
  - right. by rewrite app_nil_r in Hl.
  - left. rewrite app_assoc in Hl. apply app_inj_tail in Hl as [-> _]. by exists l.
Qed.

Lemma real_dir_snoc t p c i : real_dir t p → t !! (p ++ [c])%list = Some i → in_node i = NDir → real_dir t (p ++ [c]).
Proof.
  intros H Hi Hd k Hk Hne. destruct (prefix_snoc_inv _ _ _ Hk) as [? | ->]; [by apply H|eauto].
Qed.

Lemma physical_snoc t p c i :
  real_dir t p → t !! (p ++ [c])%list = Some i → fi_IsSymlink i = false → physical t (p ++ [c]).
Proof.
  intros H Hi Hl k Hk Hne. destruct (prefix_snoc_inv _ _ _ Hk) as [Hk' | ->].
  - destruct (real_dir_physical t p H k Hk' Hne) as (j & Hj & Hjl & _). exists j. split_and!; [done..|].
    intros _. destruct (H k Hk' Hne) as (j' & Hj' & ?). by simplify_eq.
  - exists i. by split_and!.
Qed.

Lemma parent_of_prefix p : parent_of p `prefix_of` p.
Proof. unfold parent_of. exists (drop (length p - 1) p). by rewrite take_drop. Qed.

Lemma parent_of_snoc p c : parent_of (p ++ [c]) = p.
Proof. unfold parent_of. rewrite length_app. simpl. by rewrite Nat.add_sub, take_app_length. Qed.

(** Unfolding one component. *)
Definition walk_comp (links : nat) (t : tree) (dest : list string) (c : string) (rest : list string) : res (list string) :=
  if bool_decide (c = "") || bool_decide (c = ".") then walk links t dest rest
  else if bool_decide (c = "..") then walk links t (parent_of dest) rest
  else
    match t !! (dest ++ [c])%list with
    | None => Err ENOENT
    | Some i =>
        match in_node i with
        | NLink target =>
            match links with
            | O => Err ELOOP
            | S links => walk links t (if IsAbs target then [] else dest) (Split_slash target ++ rest)
            end
        | NDir => walk links t (dest ++ [c])%list rest
        | _ => match rest with [] => Ok (dest ++ [c])%list | _ => Err ENOTDIR end
        end
    end.

Lemma walk_nil links t dest : walk links t dest [] = Ok dest.
Proof. by destruct links. Qed.

Lemma walk_cons links t dest c rest : walk links t dest (c :: rest) = walk_comp links t dest c rest.
Proof. by destruct links. Qed.

(** Induction over a walk: on the links left, then on the components. *)
Lemma walk_sound links t dest todo r :
  real_dir t dest → Forall normal dest → Forall slash_free todo →
  walk links t dest todo = Ok r → physical t r ∧ Forall normal r.
Proof.
  revert dest todo. induction links as [links IHl] using lt_wf_ind. intros dest todo.
  revert dest. induction todo as [|c rest IH]; intros dest Hd Hn Hf.
  { rewrite walk_nil. intros [= ->]. split; [by apply real_dir_physical|done]. }
  rewrite walk_cons. unfold walk_comp. apply Forall_cons in Hf as [Hc Hf].
  destruct (bool_decide (c = "") || bool_decide (c = ".")) eqn:E1; [by apply IH|]. to_prop.
  case_bool_decide.
  { apply IH; [eapply real_dir_prefix; [apply parent_of_prefix|done]|by apply Forall_take|done]. }
  destruct (t !! (dest ++ [c])%list) as [i|] eqn:Hi; [|done].
  assert (Forall normal (dest ++ [c])) as Hn' by (apply Forall_app; split; [done|repeat constructor; done]).
  destruct (in_node i) eqn:Ei.
  - destruct rest; [|done]. intros [= <-]. split; [|done]. eapply physical_snoc; [done..|]. unfold fi_IsSymlink. by rewrite Ei.
  - apply IH; [by eapply real_dir_snoc|done..].
  - destruct links as [|links]; [done|]. apply IHl; [lia|by destruct (IsAbs target); [apply real_dir_nil|]| |].
    + by destruct (IsAbs target).
    + apply Forall_app. split; [apply Split_slash_parts|done].
  - destruct rest; [|done]. intros [= <-]. split; [|done]. eapply physical_snoc; [done..|]. unfold fi_IsSymlink. by rewrite Ei.
Qed.

(** More links never change a result. *)
Lemma walk_more_links n m t dest todo r : n ≤ m → walk n t dest todo = Ok r → walk m t dest todo = Ok r.
Proof.
  revert m dest todo. induction n as [n IHn] using lt_wf_ind. intros m dest todo Hnm.
  revert dest. induction todo as [|c rest IH]; intros dest; [by rewrite !walk_nil|].
  rewrite !walk_cons. unfold walk_comp.
  destruct (bool_decide (c = "") || bool_decide (c = ".")); [by apply IH|].
  case_bool_decide; [by apply IH|]. destruct (t !! (dest ++ [c])%list) as [i|]; [|done].
  destruct (in_node i); [done|by apply IH| |done].
  destruct n as [|n]; [done|]. destruct m as [|m]; [lia|]. apply IHn; lia.
Qed.

(** A physical path resolves to itself. *)
Lemma walk_physical_app n t d p :
  Forall normal p → physical t (d ++ p) → walk n t d p = Ok (d ++ p)%list.
Proof.
  intros Hn. revert d. induction Hn as [|c p Hc Hp IH]; intros d H; [by rewrite walk_nil, app_nil_r|].
  rewrite walk_cons. unfold walk_comp. destruct Hc as (_ & H1 & H2 & H3).
  rewrite !bool_decide_false by done. simpl.
  destruct (H (d ++ [c])%list) as (i & -> & Hl & Hdir); [exists p; by rewrite <- app_assoc|by destruct d|].
  unfold fi_IsSymlink in Hl. destruct p as [|c' p].
  - destruct (in_node i); try done. by rewrite walk_nil.
  - rewrite Hdir by (intros E%(app_inv_head d [c] (c :: c' :: p)); done).
    rewrite (IH (d ++ [c])%list); rewrite <- app_assoc; done.
Qed.

Lemma walk_physical n t p : Forall normal p → physical t p → walk n t [] p = Ok p.
Proof. intros Hn H. by apply (walk_physical_app n t []). Qed.

Lemma walk_apath n t d cs : Forall normal cs → walk n t d (Split_slash (apath cs)) = walk n t d cs.
Proof.
  intros H. rewrite Split_apath by by apply normal_slash_free.
  rewrite walk_cons. unfold walk_comp. simpl. destruct cs; [|done].
  rewrite walk_cons. unfold walk_comp. done.
Qed.

Lemma real_dir_is_dir t d : real_dir t d → is_dir_at t d = true.
Proof.
  intros H. destruct d as [|c d]; [done|]. destruct (H (c :: d)) as (i & Hi & Hd); [done..|].
  simpl. rewrite Hi. unfold fi_IsDir. by rewrite Hd.
Qed.

(** Names in a real directory. *)
Lemma locate_in t d c : Forall normal d → real_dir t d → normal c → locate t (apath (d ++ [c])) = Ok (d ++ [c])%list.
Proof.
  intros Hn Hd Hc. unfold locate.
  rewrite pcomps_apath by (apply Forall_app; split; [done|by constructor]).
  rewrite rev_unit, rev_involutive.
  rewrite walk_physical by (done || by apply real_dir_physical). by rewrite real_dir_is_dir.
Qed.

Lemma locate_walk t rs c n d loc : Forall normal rs → normal c →
  walk n t [] rs = Ok d → locate t (apath (rs ++ [c])) = Ok loc → loc = (d ++ [c])%list.
Proof.
  intros Hn Hc Hw. unfold locate.
  rewrite pcomps_apath by (apply Forall_app; split; [done|by constructor]).
  rewrite rev_unit, rev_involutive.
  destruct (walk max_links t [] rs) as [d'|] eqn:E; [|done].
  assert (d' = d) as ->.
  { pose proof (walk_more_links _ (max_links `max` n) _ _ _ _ (Nat.le_max_l _ _) E) as E1.
    pose proof (walk_more_links _ (max_links `max` n) _ _ _ _ (Nat.le_max_r _ _) Hw) as E2. congruence. }
  destruct (is_dir_at t d); [|done]. by intros [= <-].
Qed.

(** ** A program logic for file-system code

    [triple P m Q]: run in a tree with [P], under any environment, [m] ends with a
    result and a tree related by [Q]. *)

Definition triple {A : Type} (P : tree → Prop) (m : M FS A) (Q : res A → tree → Prop) : Prop :=
  ∀ s s' r, P (fs_tree s) → m s = (s', r) → Q r (fs_tree s').

Section Triples.
Context {A B : Type}.
Implicit Types (P : tree → Prop) (m : M FS A).

Lemma triple_bind P m (R : res A → tree → Prop) (k : A → M FS B) (Q : res B → tree → Prop) :
  triple P m R → (∀ a, triple (R (Ok a)) (k a) Q) → (∀ e t, R (Err e) t → Q (Err e) t) →
  triple P (m ≫= k) Q.
Proof.
  intros Hm Hk He s s' r HP H. apply M_bind_inv_any in H as (s1 & rm & H1 & H2).
  specialize (Hm _ _ _ HP H1). destruct rm as [a|e]; [by eapply Hk|]. destruct H2 as [-> ->]. by apply He.
Qed.

(** A call whose failure ends the handler in the state it found. *)
Lemma triple_attempt P m (Q : res A → tree → Prop) (Q' : res (res A) → tree → Prop) :
  triple P m Q → (∀ r t, Q r t → Q' (Ok r) t) → triple P (attempt m) Q'.
Proof.
  intros Hm HQ s s' r HP H. unfold attempt in H. destruct (m s) as [s1 r1] eqn:E. simplify_eq. apply HQ. by eapply Hm.
Qed.

Lemma triple_conseq P P' m (Q Q' : res A → tree → Prop) :
  (∀ t, P' t → P t) → triple P m Q → (∀ r t, Q r t → Q' r t) → triple P' m Q'.
Proof. intros HP Hm HQ s s' r HP' H. eapply HQ, Hm; [by apply HP|done]. Qed.

Lemma triple_post P m (Q Q' : res A → tree → Prop) :
  triple P m Q → (∀ r t, Q r t → Q' r t) → triple P m Q'.
Proof. intros Hm HQ. by eapply triple_conseq. Qed.

Lemma triple_pure (φ : Prop) P m (Q : res A → tree → Prop) :
  (∀ t, P t → φ) → (φ → triple P m Q) → triple P m Q.
Proof. intros Hφ Hm s s' r HP H. eapply Hm; [by eapply Hφ|done..]. Qed.

Lemma triple_fix P m (Q : res A → tree → Prop) :
  (∀ t1, P t1 → triple (λ t, t = t1) m Q) → triple P m Q.
Proof. intros Hm s s' r HP H. by eapply Hm. Qed.

Lemma triple_ret P (a : A) (Q : res A → tree → Prop) : (∀ t, P t → Q (Ok a) t) → triple P (mret a) Q.
Proof. intros HQ s s' r HP H. unfold mret, M_ret in H. simplify_eq. by apply HQ. Qed.

Lemma triple_of_res P (x : res A) (Q : res A → tree → Prop) : (∀ t, P t → Q x t) → triple P (of_res x) Q.
Proof. intros HQ s s' r HP H. unfold of_res in H. simplify_eq. by apply HQ. Qed.

Lemma triple_throw P e (Q : res A → tree → Prop) : (∀ t, P t → Q (Err e) t) → triple P (throw e) Q.
Proof. apply triple_of_res. Qed.

(** A call either fails without effect or does what it does. *)
Lemma fault_err_exists e : errorsIs (fault_err e) ErrNotExist = false.
Proof. unfold fault_err. by destruct (errorsIs e ErrNotExist) eqn:E. Qed.

Lemma triple_sys P m (Q : res A → tree → Prop) :
  triple P m Q → (∀ e t, errorsIs e ErrNotExist = false → P t → Q (Err e) t) → triple P (sys m) Q.
Proof.
  intros Hm He s s' r HP H. unfold sys in H. destruct (fs_faults s) as [|[[e n]|] faults].
  - by apply (Hm (tick s)).
  - simplify_eq. apply He; [apply fault_err_exists|done].
  - by apply (Hm (tick (set_fs_faults faults s))).
Qed.

Lemma triple_read P (f : tree → res A) (Q : res A → tree → Prop) :
  (∀ t, P t → Q (f t) t) → (∀ e t, errorsIs e ErrNotExist = false → P t → Q (Err e) t) → triple P (sys (λ s, (s, f (fs_tree s)))) Q.
Proof. intros Hf He. apply triple_sys; [|done]. intros s s' r HP H. simplify_eq. by apply Hf. Qed.

End Triples.

Lemma triple_assoc {A B C : Type} P (m : M FS A) (k : A → M FS B) (f : B → M FS C) Q :
  triple P ((m ≫= k) ≫= f) Q → triple P (m ≫= λ a, k a ≫= f) Q.
Proof.
  intros H s s' r HP E. apply (H s s' r HP). unfold mbind, M_bind in *. by destruct (m s) as [s1 [a|e]].
Qed.

(** Bind with a call that only reads, or whose failure leaves [P]. *)
Ltac fs_bind R := apply (triple_bind _ _ R); [|intros ?|].
Ltac fs_try R := apply (triple_bind _ _ (λ r t, match r with Ok r' => R r' t | Err _ => False end)); [eapply triple_attempt; [|by intros ?? H; exact H]|intros ?|by intros].

Lemma read_inv {A} (f : tree → res A) s s' r :
  sys (λ s, (s, f (fs_tree s))) s = (s', r) → fs_tree s' = fs_tree s ∧ ∀ a, r = Ok a → f (fs_tree s) = Ok a.
Proof.
  unfold sys. destruct (fs_faults s) as [|[[e n]|] faults]; intros H; simplify_eq; done.
Qed.

Lemma Lstat_inv p s s' r : Lstat p s = (s', r) →
  fs_tree s' = fs_tree s ∧ ∀ i, r = Ok i → lstat_tree (fs_tree s) p = Ok i.
Proof. apply (read_inv (λ t, lstat_tree t p)). Qed.

Lemma Stat_inv p s s' r : Stat p s = (s', r) →
  fs_tree s' = fs_tree s ∧ ∀ i, r = Ok i → follow (fs_tree s) p = Ok i.
Proof. apply (read_inv (λ t, follow t p)). Qed.

Lemma EvalSymlinks_inv p s s' r : EvalSymlinks p s = (s', r) →
  fs_tree s' = fs_tree s ∧ ∀ q, r = Ok q → ∃ cs, q = apath cs ∧ walk 255 (fs_tree s) [] (Split_slash p) = Ok cs.
Proof.
  intros [Ht Hr]%(read_inv (λ t, apath <$> walk 255 t [] (Split_slash p))). split; [done|]. intros q Hq.
  specialize (Hr q Hq). destruct (walk _ _ _ _) as [cs|]; [|done]. injection Hr as <-. eauto.
Qed.

(** ** Lookups after a change *)

(** An entry up to its change time, which renaming touches. *)
Definition elook (t : tree) (k : list string) : option inode := set_in_ctime 0 <$> t !! k.

Definition disjoint_paths (a b : list string) : Prop := ¬ a `prefix_of` b ∧ ¬ b `prefix_of` a.

Lemma lookup_drop_tree_under p t k : p `prefix_of` k → drop_tree p t !! k = None.
Proof. intros H. apply map_lookup_filter_None. right. by intros i _ Hn. Qed.

Lemma lookup_drop_tree_other p t k : ¬ p `prefix_of` k → drop_tree p t !! k = t !! k.
Proof.
  intros H. destruct (t !! k) as [i|] eqn:E.
  - by apply map_lookup_filter_Some.
  - apply map_lookup_filter_None. by left.
Qed.

Lemma swap_prefix_src src dst l : swap_prefix src dst (src ++ l) = dst ++ l.
Proof.
  unfold swap_prefix. rewrite bool_decide_true by by exists l. by rewrite drop_app_length.
Qed.

Lemma disjoint_app src dst l : disjoint_paths src dst → ¬ src `prefix_of` dst ++ l.
Proof.
  intros [H1 H2] Hp. destruct (prefix_weak_total src dst (dst ++ l)); [done|by exists l|done..].
Qed.

Lemma swap_prefix_dst src dst l : disjoint_paths src dst → swap_prefix src dst (dst ++ l) = src ++ l.
Proof.
  intros H. unfold swap_prefix. rewrite bool_decide_false by by apply disjoint_app.
  rewrite bool_decide_true by by exists l. by rewrite drop_app_length.
Qed.

Lemma swap_prefix_other src dst k : ¬ src `prefix_of` k → ¬ dst `prefix_of` k → swap_prefix src dst k = k.
Proof. intros. unfold swap_prefix. by rewrite !bool_decide_false. Qed.

Lemma swap_prefix_involutive src dst k : disjoint_paths src dst → swap_prefix src dst (swap_prefix src dst k) = k.
Proof.
  intros H. destruct (decide (src `prefix_of` k)) as [[l ->]|H1].
  { by rewrite swap_prefix_src, swap_prefix_dst. }
  destruct (decide (dst `prefix_of` k)) as [[l ->]|H2].
  { by rewrite swap_prefix_dst, swap_prefix_src. }
  rewrite (swap_prefix_other src dst k) by done. by apply swap_prefix_other.
Qed.

Lemma lookup_move_tree src dst t k : disjoint_paths src dst →
  move_tree src dst t !! k = drop_tree dst t !! swap_prefix src dst k.
Proof.
  intros H. assert (Inj (=) (=) (swap_prefix src dst)).
  { intros a b E. by rewrite <- (swap_prefix_involutive src dst a), <- (swap_prefix_involutive src dst b), E. }
  pose proof (lookup_kmap (M2:=gmap (list string)) (swap_prefix src dst) (drop_tree dst t) (swap_prefix src dst k)) as E.
  by rewrite swap_prefix_involutive in E.
Qed.

Record renamed (src dst : list string) (t t' : tree) : Prop := mkRenamed {
  rn_disjoint : disjoint_paths src dst;
  rn_source : is_Some (t !! src);
  rn_gone : ∀ l, t' !! (src ++ l) = None;
  rn_moved : ∀ l, elook t' (dst ++ l) = elook t (src ++ l);
  rn_other : ∀ k, ¬ src `prefix_of` k → ¬ dst `prefix_of` k → t' !! k = t !! k;
}.

Lemma rename_tree_spec now src dst t t' :
  rename_tree now src dst t = Ok t' → src ≠ dst → renamed src dst t t'.
Proof.
  unfold rename_tree. destruct (t !! src) as [i|] eqn:Ei; [|done]. intros H Hne.
  rewrite bool_decide_false in H by done. case_bool_decide as H1; [done|]. case_bool_decide as H2; [done|].
  assert (t' = alter (set_in_ctime now) dst (move_tree src dst t)) as ->.
  { destruct (t !! dst) as [j|]; [|congruence]. by repeat case_match; simplify_eq. }
  assert (disjoint_paths src dst) as Hd by done. clear H.
  split; [done|by rewrite Ei|..].
  - intros l. rewrite lookup_alter_ne by (intros ->; destruct H1; by exists l).
    rewrite lookup_move_tree, swap_prefix_src by done. apply lookup_drop_tree_under. by exists l.
  - intros l. unfold elook. assert (move_tree src dst t !! (dst ++ l) = t !! (src ++ l)) as Hm.
    { rewrite lookup_move_tree, swap_prefix_dst by done. apply lookup_drop_tree_other.
      apply disjoint_app. by destruct Hd. }
    destruct (decide (l = [])) as [->|Hl].
    + rewrite app_nil_r in *. rewrite lookup_alter_eq, Hm. rewrite app_nil_r. by destruct (t !! src).
    + rewrite lookup_alter_ne, Hm; [done|]. intros E. apply (f_equal length) in E. rewrite length_app in E. by destruct l; [|simpl in E; lia].
  - intros k Hk1 Hk2. rewrite lookup_alter_ne by (by intros ->).
    rewrite lookup_move_tree, swap_prefix_other by done. by apply lookup_drop_tree_other.
Qed.

Lemma elook_None t k : elook t k = None ↔ t !! k = None.
Proof. unfold elook. by rewrite fmap_None. Qed.

Lemma elook_eq t t' k : t !! k = t' !! k → elook t k = elook t' k.
Proof. unfold elook. by intros ->. Qed.

Lemma elook_node t t' k k' i :
  elook t k = elook t' k' → t !! k = Some i → ∃ i', t' !! k' = Some i' ∧ in_node i' = in_node i ∧ in_perm i' = in_perm i.
Proof.
  unfold elook. intros E Hi. rewrite Hi in E. destruct (t' !! k') as [i'|]; [|done]. exists i'.
  split; [done|]. simpl in E. by injection E.
Qed.

(** Prefixes of [d] are not below an entry of [d]. *)
Lemma not_below_child {A} (d : list A) c k : k `prefix_of` d → ¬ d ++ [c] `prefix_of` k.
Proof.
  intros Hk Hc. assert (d ++ [c] `prefix_of` d) as Hl%prefix_length by by etrans.
  rewrite length_app in Hl. simpl in Hl. lia.
Qed.

Lemma real_dir_frame t t' d : real_dir t d → (∀ k, k `prefix_of` d → t' !! k = t !! k) → real_dir t' d.
Proof. intros H Hf k Hk Hne. rewrite Hf by done. by apply H. Qed.

Lemma partly_removed_other n d t k : ¬ d `prefix_of` k → partly_removed n d t !! k = t !! k.
Proof.
  intros Hk. unfold partly_removed. set (ks := merge_sort _ _).
  assert (Forall (λ x, d `prefix_of` x) (take n ks)) as Hks.
  { apply Forall_take. apply Forall_forall. intros x Hx. unfold ks in Hx.
    rewrite merge_sort_Permutation in Hx. by apply list_elem_of_filter in Hx as [? _]. }
  clearbody ks. revert t Hks. generalize (take n ks) as l. induction l as [|x l IH]; intros t' Hl; [done|].
  apply Forall_cons in Hl as [Hx Hl]. simpl. rewrite IH by done. apply lookup_delete_ne. by intros ->.
Qed.

(** ** Well-formed trees: an entry's parent is a directory *)

Definition closed (t : tree) : Prop :=
  ∀ k x i, t !! (k ++ [x]) = Some i → k ≠ [] → ∃ j, t !! k = Some j ∧ in_node j = NDir.

Lemma closed_missing t k l : closed t → k ≠ [] → t !! k = None → t !! (k ++ l) = None.
Proof.
  intros Hcl Hk Hn. induction l as [|x l IH] using rev_ind; [by rewrite app_nil_r|].
  destruct (t !! (k ++ l ++ [x])) as [i|] eqn:E; [|done]. rewrite app_assoc in E.
  destruct (Hcl _ _ _ E) as (j & Hj & _); [by destruct k|]. congruence.
Qed.

(** Nothing lies below a file. *)
Lemma closed_file t k i l : closed t → k ≠ [] → t !! k = Some i → in_node i ≠ NDir → l ≠ [] → t !! (k ++ l) = None.
Proof.
  intros Hcl Hk Hi Hf Hl. destruct l as [|x l _] using rev_ind; [done|].
  revert x Hl. induction l as [|y l IH] using rev_ind; intros x _.
  - destruct (t !! (k ++ [] ++ [x])) as [j|] eqn:E; [|done]. destruct (Hcl _ _ _ E Hk) as (j' & Hj' & Hd). congruence.
  - destruct (t !! (k ++ (l ++ [y]) ++ [x])) as [j|] eqn:E; [|done]. rewrite app_assoc in E.
    destruct (Hcl _ _ _ E) as (j' & Hj' & _); [by destruct k|]. rewrite IH in Hj'; [done|by destruct l].
Qed.

Lemma renamed_closed src d x t t' :
  closed t → renamed src (d ++ [x]) t t' → (d ≠ [] → ∃ j, t' !! d = Some j ∧ in_node j = NDir) → closed t'.
Proof.
  intros Hcl Hrn Hd k y i Hi Hk. pose proof (rn_disjoint _ _ _ _ Hrn) as Hdis.
  destruct (decide (d ++ [x] `prefix_of` k ++ [y])) as [[l Hl]|Hnd].
  - destruct l as [|z l _] using rev_ind.
    + rewrite app_nil_r in Hl. apply app_inj_tail in Hl as [-> _]. by apply Hd.
    + rewrite (app_assoc (d ++ [x])) in Hl. apply app_inj_tail in Hl as [-> ->].
      pose proof (rn_moved _ _ _ _ Hrn (l ++ [z])) as Hm. rewrite !(app_assoc _ l) in Hm.
      destruct (elook_node _ _ _ _ i Hm Hi) as (i' & Hi' & _).
      destruct (Hcl _ _ _ Hi') as (j & Hj & Hdj); [|].
      * intros E. apply app_nil in E as [-> ->]. destruct Hdis as [Hx _]. apply Hx. apply prefix_nil.
      * pose proof (rn_moved _ _ _ _ Hrn l) as Hm2. symmetry in Hm2.
        destruct (elook_node _ _ _ _ j Hm2 Hj) as (j' & Hj' & Hn & _). exists j'. by rewrite Hn.
  - destruct (decide (src `prefix_of` k ++ [y])) as [[l Hl]|Hns].
    { rewrite Hl, (rn_gone _ _ _ _ Hrn) in Hi. done. }
    rewrite (rn_other _ _ _ _ Hrn) in Hi by done. destruct (Hcl _ _ _ Hi Hk) as (j & Hj & Hdj).
    exists j. split; [|done]. rewrite (rn_other _ _ _ _ Hrn); [done|..].
    + intros Hp. apply Hns. by apply prefix_app_r.
    + intros Hp. apply Hnd. by apply prefix_app_r.
Qed.

Lemma walk_real_app n t e d rest :
  Forall normal d → real_dir t (e ++ d) → walk n t e (d ++ rest) = walk n t (e ++ d) rest.
Proof.
  intros Hn. revert e. induction Hn as [|y d Hy _ IH]; intros e He; [by rewrite app_nil_r|].
  rewrite <- app_comm_cons, walk_cons. unfold walk_comp. destruct Hy as (_ & H1 & H2 & H3).
  rewrite !bool_decide_false by done. simpl.
  destruct (He (e ++ [y])) as (i & -> & ->); [exists d; by rewrite <- app_assoc|by destruct e|].
  rewrite IH by by rewrite <- app_assoc. by rewrite <- app_assoc.
Qed.

(** Following a name in a real directory that is not a link. *)
Lemma follow_in t d y : Forall normal d → real_dir t d → normal y →
  (∀ i, t !! (d ++ [y]) = Some i → fi_IsSymlink i = false) →
  follow t (apath (d ++ [y])) = match t !! (d ++ [y]) with Some i => Ok i | None => Err ENOENT end.
Proof.
  intros Hn Hd Hy Hl. assert (Forall normal (d ++ [y])) as Hn' by (apply Forall_app; split; [done|by constructor]).
  unfold follow. rewrite walk_apath by done. destruct (t !! (d ++ [y])) as [i|] eqn:E.
  - rewrite walk_physical; [by rewrite E|done|]. eapply physical_snoc; [done|exact E|by apply Hl].
  - rewrite (walk_real_app max_links t [] d [y]) by done. rewrite walk_cons. unfold walk_comp.
    destruct Hy as (_ & H1 & H2 & H3). rewrite !bool_decide_false by done. simpl. by rewrite E.
Qed.

(** Entries are only added. *)
Definition grown (t t' : tree) : Prop := ∀ k i, t !! k = Some i → t' !! k = Some i.

#[export] Instance grown_preorder : PreOrder grown.
Proof. split; [by intros t k i|]. intros t1 t2 t3 H1 H2 k i H. by apply H2, H1. Qed.

Lemma grown_insert t k i : t !! k = None → grown t (<[k := i]> t).
Proof. intros Hk k' i' H. rewrite lookup_insert_ne; [done|]. intros ->. congruence. Qed.

Lemma real_dir_grown t t' d : grown t t' → real_dir t d → real_dir t' d.
Proof. intros Hg Hd k Hk Hne. destruct (Hd k Hk Hne) as (i & Hi & Hn). eauto. Qed.

Lemma closed_insert t d y i : closed t → real_dir t d → t !! (d ++ [y]) = None → closed (<[d ++ [y] := i]> t).
Proof.
  intros Hcl Hd Hf k x j Hj Hk. destruct (decide (k ++ [x] = d ++ [y])) as [E|E].
  - apply app_inj_tail in E as [-> ->]. destruct (Hd d) as (i' & Hi' & Hn); [done..|].
    exists i'. split; [|done]. by apply grown_insert.
  - rewrite lookup_insert_ne in Hj by done. destruct (Hcl _ _ _ Hj Hk) as (i' & Hi' & Hn).
    exists i'. split; [|done]. by apply grown_insert.
Qed.

(** Replacing an entry that is not a directory. *)
Lemma closed_update t k i j : closed t → t !! k = Some i → in_node i ≠ NDir → closed (<[k := j]> t).
Proof.
  intros Hcl Hi Hf q x i' H Hq. destruct (decide (q ++ [x] = k)) as [<-|E].
  - destruct (Hcl _ _ _ Hi Hq) as (d & Hd & Hn). exists d. split; [|done].
    rewrite lookup_insert_ne; [done|]. intros E%(f_equal length). rewrite length_app in E. simpl in E. lia.
  - rewrite lookup_insert_ne in H by done. destruct (Hcl _ _ _ H Hq) as (d & Hd & Hn). exists d. split; [|done].
    rewrite lookup_insert_ne; [done|]. intros ->. congruence.
Qed.

(** ** Undisturbed reading

    [yields t m r]: with no failures ahead, [m] returns [r] and leaves the tree [t]. *)

Definition yields {A : Type} (t : tree) (m : M FS A) (r : res A) : Prop :=
  ∀ s, fs_faults s = [] → fs_tree s = t → ∃ s', m s = (s', r) ∧ fs_faults s' = [] ∧ fs_tree s' = t.

Lemma yields_bind {A B : Type} t (m : M FS A) (k : A → M FS B) a r :
  yields t m (Ok a) → yields t (k a) r → yields t (m ≫= k) r.
Proof.
  intros Hm Hk s Hf Ht. destruct (Hm s Hf Ht) as (s1 & E1 & Hf1 & Ht1). destruct (Hk s1 Hf1 Ht1) as (s2 & E2 & ?).
  exists s2. by rewrite (M_bind_ok _ _ _ _ _ E1).
Qed.

Lemma yields_attempt {A : Type} t (m : M FS A) r : yields t m r → yields t (attempt m) (Ok r).
Proof. intros Hm s Hf Ht. destruct (Hm s Hf Ht) as (s1 & E1 & ?). exists s1. unfold attempt. by rewrite E1. Qed.

Lemma yields_ret {A : Type} t (a : A) : yields t (mret a) (Ok a).
Proof. intros s Hf Ht. by exists s. Qed.

Lemma yields_of_res {A : Type} t (r : res A) : yields t (of_res r) r.
Proof. intros s Hf Ht. by exists s. Qed.

Lemma yields_read {A : Type} t (f : tree → res A) : yields t (sys (λ s, (s, f (fs_tree s)))) (f t).
Proof. intros s Hf Ht. exists (tick s). unfold sys. rewrite Hf. simpl. by rewrite Ht. Qed.

Lemma Lstat_yields t d y i : Forall normal d → real_dir t d → normal y → t !! (d ++ [y]) = Some i →
  yields t (Lstat (apath (d ++ [y]))) (Ok i).
Proof.
  intros Hd Hr Hy Hi. assert (lstat_tree t (apath (d ++ [y])) = Ok i) as <-.
  { unfold lstat_tree. by rewrite locate_in, Hi. }
  apply (yields_read t (λ t, lstat_tree t _)).
Qed.

Lemma Stat_yields t p i : Forall normal p → physical t p → t !! p = Some i → yields t (Stat (apath p)) (Ok i).
Proof.
  intros Hn Hp Hi. assert (follow t (apath p) = Ok i) as <-.
  { unfold follow. by rewrite walk_apath, walk_physical, Hi. }
  apply (yields_read t (λ t, follow t _)).
Qed.

Lemma EvalSymlinks_yields t p : Forall normal p → physical t p → yields t (EvalSymlinks (apath p)) (Ok (apath p)).
Proof.
  intros Hn Hp. assert (apath <$> walk 255 t [] (Split_slash (apath p)) = Ok (apath p)) as <-.
  { by rewrite walk_apath, walk_physical. }
  apply (yields_read t (λ t, apath <$> walk 255 t [] _)).
Qed.

Lemma ReadFile_yields t p i content : Forall normal p → physical t p → t !! p = Some i → in_node i = NFile content →
  yields t (ReadFile (apath p)) (Ok content).
Proof.
  intros Hn Hp Hi Hc s Hf Ht. exists (tick s). unfold ReadFile, sys. rewrite Hf. simpl. rewrite Ht.
  unfold follow. by rewrite walk_apath, walk_physical, Hi, Hc.
Qed.
