(* ===== verification/FileCalls.v ===== *)
(** * Calls on the entries of a directory

    What [os.Lstat], [os.Rename], [os.Remove], [os.RemoveAll], [os.CreateTemp] and the
    writes to an open file do to the tree when their path names an entry of a directory
    that is reached without links; shared by the workspace service and the attachment
    store. *)

From Stdlib Require Import Ascii String.
From stdpp Require Import base tactics numbers list sorting gmap strings pretty.
From S2P Require Import Prelude GoError GoStrings Sha256 GoPath FileSystem.
Local Open Scope string_scope.
Local Open Scope nat_scope.
Local Open Scope list_scope.

Lemma hex_digit_not_slash n : (0 ≤ n < 16)%Z → hex_digit n ≠ slash.
Proof.
  intros Hn. assert (n = 0 ∨ n = 1 ∨ n = 2 ∨ n = 3 ∨ n = 4 ∨ n = 5 ∨ n = 6 ∨ n = 7 ∨ n = 8 ∨ n = 9 ∨ n = 10 ∨
    n = 11 ∨ n = 12 ∨ n = 13 ∨ n = 14 ∨ n = 15)%Z as H by lia.
  repeat destruct H as [-> | H]; try (vm_compute; discriminate). subst. vm_compute. discriminate.
Qed.

Lemma EncodeToString_slash_free raw : slash_free (EncodeToString raw).
Proof.
  unfold slash_free, EncodeToString. rewrite chars_of_chars. induction (chars raw) as [|x l IH]; [apply not_elem_of_nil|].
  rewrite bind_cons. apply not_elem_of_app. split; [|done]. pose proof (bval_range x).
  unfold hex_byte. rewrite !not_elem_of_cons. split_and!; [| |apply not_elem_of_nil]; apply not_eq_sym, hex_digit_not_slash.
  - split; [apply Z.div_pos; lia|apply Z.div_lt_upper_bound; lia].
  - by apply Z.mod_pos_bound.
Qed.

Lemma slash_free_app a b : slash_free a → slash_free b → slash_free (a +:+ b).
Proof. unfold slash_free. rewrite chars_app, not_elem_of_app. done. Qed.

Lemma child_prefix {A} (d : list A) x y l : d ++ [x] `prefix_of` d ++ y :: l → x = y.
Proof. intros H. apply prefix_app_inv in H. by apply prefix_cons_inv_1 in H. Qed.

(** ** Calls on entries of a real directory *)

Section InDirectory.
Context (P : list string) (HP : Forall normal P).
Implicit Types (I : tree → Prop) (x y : string).

Definition at_dir (I : tree → Prop) : Prop := ∀ t, I t → real_dir t P.

Lemma Lstat_in I x : at_dir I → normal x →
  triple I (Lstat (apath (P ++ [x]))) (λ r t, I t ∧
    match r with Ok i => t !! (P ++ [x]) = Some i | Err e => errorsIs e ErrNotExist = true → t !! (P ++ [x]) = None end).
Proof.
  intros HI Hx. apply (triple_read _ (λ t, lstat_tree t _)).
  - intros t Ht. split; [done|]. unfold lstat_tree. rewrite locate_in by auto.
    destruct (t !! (P ++ [x])) eqn:E; done.
  - intros e t He Ht. split; [done|]. congruence.
Qed.

Lemma Rename_in I x y : at_dir I → normal x → normal y → x ≠ y →
  triple I (Rename (apath (P ++ [x])) (apath (P ++ [y]))) (λ r t',
    match r with Ok _ => ∃ t, I t ∧ renamed (P ++ [x]) (P ++ [y]) t t' | Err _ => I t' end).
Proof.
  intros HI Hx Hy Hne. apply triple_sys; [|done]. intros s s' r Ht H.
  rewrite !locate_in in H by auto. destruct (rename_tree _ _ _ _) as [t'|e] eqn:E; simplify_eq; [|done].
  exists (fs_tree s). split; [done|]. eapply rename_tree_spec; [done|].
  intros E'%app_inv_head. congruence.
Qed.

Lemma RemoveAll_in I x : at_dir I → normal x →
  triple I (RemoveAll (apath (P ++ [x]))) (λ r t', ∃ t, I t ∧
    match r with Ok _ => t' = drop_tree (P ++ [x]) t | Err _ => ∃ n, t' = partly_removed n (P ++ [x]) t end).
Proof.
  intros HI Hx s s' r Ht H. unfold RemoveAll in H. exists (fs_tree s). split; [done|].
  destruct (fs_faults s) as [|[[e n]|] faults]; simpl in H; rewrite locate_in in H by auto; simplify_eq; eauto.
Qed.

Lemma Remove_in I x : at_dir I → normal x →
  triple I (Remove (apath (P ++ [x]))) (λ _ t', ∃ t, I t ∧ (t' = t ∨ t' = delete (P ++ [x]) t)).
Proof.
  intros HI Hx. apply triple_sys; [|eauto]. intros s s' r Ht H. exists (fs_tree s). split; [done|].
  rewrite locate_in in H by auto. destruct (fs_tree s !! _); [|simplify_eq; by left].
  destruct (has_children _ _); simplify_eq; [by left|by right].
Qed.

Lemma on_file_in I x f : at_dir I → normal x →
  triple I (on_file (apath (P ++ [x])) f) (λ r t',
    match r with
    | Ok _ => ∃ t i s, I t ∧ t !! (P ++ [x]) = Some i ∧ t' = <[P ++ [x] := f s i]> t
    | Err _ => I t'
    end).
Proof.
  intros HI Hx. apply triple_sys; [|done]. intros s s' r Ht H.
  rewrite locate_in in H by auto. destruct (fs_tree s !! _) as [i|] eqn:E; simplify_eq; [|done]. by exists (fs_tree s), i, s.
Qed.

Lemma fresh_name_spec t d pre rand x rand' : fresh_name t d pre rand = Some (x, rand') →
  t !! (d ++ [x]) = None ∧ ∃ raw, x = pre +:+ EncodeToString raw.
Proof.
  induction rand as [|[raw|] rand IH]; simpl; intros H; [done| |by apply IH].
  destruct (t !! (d ++ [pre +:+ EncodeToString raw])) eqn:E; [by apply IH|]. simplify_eq. eauto.
Qed.

Lemma create_temp_in I n perm pre : at_dir I → (∀ raw, normal (pre +:+ EncodeToString raw)) →
  triple I (create_temp n perm (apath P) pre) (λ r t',
    match r with
    | Ok p => ∃ t x i, I t ∧ p = apath (P ++ [x]) ∧ normal x ∧ (∃ raw, x = pre +:+ EncodeToString raw) ∧
        t !! (P ++ [x]) = None ∧ t' = <[P ++ [x] := i]> t ∧ in_node i = n
    | Err _ => I t'
    end).
Proof.
  intros HI Hpre. apply triple_sys; [|done]. intros s s' r Ht H.
  rewrite walk_apath, walk_physical, real_dir_is_dir in H by auto using real_dir_physical. simpl in H.
  destruct (fresh_name _ _ _ _) as [[x rand]|] eqn:E; simplify_eq; [|done].
  apply fresh_name_spec in E as [Hn [raw ->]].
  exists (fs_tree s), (pre +:+ EncodeToString raw), (new_inode n perm s). split_and!; try done; [|by eexists].
  by apply Join_child.
Qed.

End InDirectory.

Lemma triple_noop {A} (I : tree → Prop) (a : A) : triple I (sys (mret a)) (λ r t, I t).
Proof. apply triple_sys; [|done]. by apply triple_ret. Qed.

(** ** The failures a call takes *)

Lemma spends_sys {A} (op : M FS A) : spends fs_faults op → spends fs_faults (sys op).
Proof.
  intros Hop s. unfold sys. destruct (fs_faults s) as [|[[e n]|] l] eqn:E; simpl.
  - pose proof (Hop (tick s)) as H. simpl in H. by rewrite E in H.
  - by apply suffix_cons_r.
  - apply suffix_cons_r, (Hop (tick (set_fs_faults l s))).
Qed.

Lemma spends_RemoveAll p : spends fs_faults (RemoveAll p).
Proof.
  intros s. unfold RemoveAll. destruct (fs_faults s) as [|[[e n]|] l] eqn:E; simpl; destruct (locate _ _); simpl;
    done || by apply suffix_cons_r.
Qed.

Lemma spends_create_temp n perm dir pre : spends fs_faults (create_temp n perm dir pre).
Proof. apply spends_sys, spends_same. intros s. by repeat case_match. Qed.

Lemma spends_on_file p f : spends fs_faults (on_file p f).
Proof. apply spends_sys, spends_same. intros s. by repeat case_match. Qed.

Lemma spends_Rename src dst : spends fs_faults (Rename src dst).
Proof. apply spends_sys, spends_same. intros s. by repeat case_match. Qed.

Lemma spends_Remove p : spends fs_faults (Remove p).
Proof. apply spends_sys, spends_same. intros s. by repeat case_match. Qed.

Lemma spends_OpenExclusive p perm : spends fs_faults (OpenExclusive p perm).
Proof. apply spends_sys, spends_same. intros s. by repeat case_match. Qed.

Lemma spends_MkdirAll p perm : spends fs_faults (MkdirAll p perm).
Proof.
  apply spends_mfor. intros q. apply spends_bind; [by apply spends_attempt, spends_sys, spends_same|].
  intros [i|e]; (case_match; [|by apply spends_same]); [by apply spends_same|].
  apply spends_sys, spends_same. intros s. by repeat case_match.
Qed.

Create HintDb spends.
#[export] Hint Resolve spends_RemoveAll spends_create_temp spends_on_file spends_Rename spends_Remove spends_OpenExclusive spends_MkdirAll : spends.

(** Through a handler: its calls, its attempts and its branches. *)
Ltac fs_spends :=
  repeat first
    [ solve [auto with spends]
    | apply spends_bind; [|intros]
    | apply spends_attempt
    | by apply spends_same
    | by apply spends_sys, spends_same
    | case_match ].

(** ** Checking that a concrete tree is well formed *)

Definition closed_check (t : tree) : bool :=
  forallb (λ '(k, _), match parent_of k with [] => true | pk => is_dir_at t pk end) (map_to_list t).

Lemma closed_check_sound t : closed_check t = true → closed t.
Proof.
  intros H k x i Hi Hk. unfold closed_check in H. rewrite forallb_forall in H.
  specialize (H (k ++ [x], i)). simpl in H. rewrite parent_of_snoc in H.
  destruct k as [|y k]; [done|]. unfold is_dir_at in H.
  assert (match t !! (y :: k) with Some i => fi_IsDir i | None => false end = true) as Hd.
  { apply H. apply list_elem_of_In. by apply elem_of_map_to_list. }
  destruct (t !! (y :: k)) as [j|]; [|done]. exists j. split; [done|].
  unfold fi_IsDir in Hd. by destruct (in_node j).
Qed.

Definition real_dir_check (t : tree) (p : list string) : bool :=
  forallb (λ n, match t !! take n p with Some i => fi_IsDir i | None => false end) (seq 1 (length p)).

Lemma real_dir_check_sound t p : real_dir_check t p = true → real_dir t p.
Proof.
  intros H k [l ->] Hk. unfold real_dir_check in H. rewrite forallb_forall in H.
  specialize (H (length k)). rewrite take_app_length in H.
  assert (match t !! k with Some i => fi_IsDir i | None => false end = true) as Hd.
  { apply H. apply in_seq. rewrite length_app. destruct k; [done|simpl; lia]. }
  destruct (t !! k) as [i|]; [|done]. exists i. split; [done|]. unfold fi_IsDir in Hd. by destruct (in_node i).
Qed.
