(* ===== verification/GoTime.v ===== *)
(** * Calendar dates (time.Time.Format in UTC)

    The layouts the Host formats its times with: the date in the names of the audit
    journals and RFC 3339 in the audit manifest.  A time is its number of nanoseconds
    since 1970-01-01T00:00:00Z. *)

From Stdlib Require Import Ascii String.
From stdpp Require Import base tactics numbers list strings pretty.
From S2P Require Import Prelude GoStrings.
Local Open Scope string_scope.
Local Open Scope Z_scope.

(** ** The Gregorian calendar *)

(** Year, month and day of a number of days since 1970-01-01.  The year is counted from
    March and the days from the start of a cycle of 400 years. *)
Definition days_per_cycle : Z := 146097.

Definition civil (days : Z) : Z * Z * Z :=
  let z := days + 719468 in
  let era := z / days_per_cycle in
  let doe := z mod days_per_cycle in
  let yoe := (doe - doe / 1460 + doe / 36524 - doe / 146096) / 365 in
  let doy := doe - (365 * yoe + yoe / 4 - yoe / 100) in
  let mp := (5 * doy + 2) / 153 in
  let m := if mp <? 10 then mp + 3 else mp - 9 in
  (yoe + era * 400 + (if m <=? 2 then 1 else 0), m, doy - (153 * mp + 2) / 5 + 1).

Definition leap (y : Z) : bool := (y mod 4 =? 0) && (negb (y mod 100 =? 0) || (y mod 400 =? 0)).

Definition month_days (y m : Z) : Z :=
  if m =? 2 then if leap y then 29 else 28
  else if (m =? 4) || (m =? 6) || (m =? 9) || (m =? 11) then 30 else 31.

(** The day before the first of a month, and the number of days before a year. *)
Definition days_before_month (y m : Z) : Z := foldr Z.add 0 (month_days y <$> seqZ 1 (m - 1)).
Definition days_before_year (y : Z) : Z := 365 * (y - 1970) + ((y - 1) / 4 - (y - 1) / 100 + (y - 1) / 400) - 477.

(** ** The calendar is right

    [civil] inverts counting days by years and months, and its dates exist; a cycle of 400
    years is checked day by day. *)

Definition is_date (days : Z) (c : Z * Z * Z) : bool :=
  let '(y, m, d) := c in
  (1 <=? m) && (m <=? 12) && (1 <=? d) && (d <=? month_days y m) && (days_before_year y + days_before_month y m + (d - 1) =? days).

Definition check_day (st : Z * bool) : Z * bool :=
  (st.1 + 1, st.2 && is_date (st.1 - 719468) (civil (st.1 - 719468))).

Lemma checked_days n : (N.iter n check_day (0, true)).1 = Z.of_N n ∧
  ((N.iter n check_day (0, true)).2 = true → ∀ i, 0 ≤ i < Z.of_N n → is_date (i - 719468) (civil (i - 719468)) = true).
Proof.
  induction n as [|n [IH1 IH2]] using N.peano_ind; [split; [done|]; intros _ i; lia|].
  rewrite N.iter_succ. destruct (N.iter n check_day (0, true)) as [j ok]. cbn in IH1. subst j. unfold check_day. cbn [fst snd].
  split; [lia|]. intros [-> Hd]%andb_prop i Hi. destruct (decide (i = Z.of_N n)) as [->|]; [exact Hd|]. apply IH2; [done|lia].
Qed.

Lemma cycle_checked i : 0 ≤ i < days_per_cycle → is_date (i - 719468) (civil (i - 719468)) = true.
Proof.
  destruct (checked_days (Z.to_N days_per_cycle)) as [_ H]. change days_per_cycle with (Z.of_N (Z.to_N days_per_cycle)).
  apply H. vm_compute. reflexivity.
Qed.

Lemma leap_shift y k : leap (y + 400 * k) = leap y.
Proof.
  unfold leap. replace (y + 400 * k) with (y + 100 * k * 4) at 1 by lia. rewrite Z_mod_plus_full.
  replace (y + 400 * k) with (y + 4 * k * 100) at 1 by lia. rewrite Z_mod_plus_full.
  replace (y + 400 * k) with (y + k * 400) by lia. by rewrite Z_mod_plus_full.
Qed.

Lemma month_days_shift y k m : month_days (y + 400 * k) m = month_days y m.
Proof. unfold month_days. by rewrite leap_shift. Qed.

Lemma is_date_shift days y m d k : is_date days (y, m, d) = true → is_date (days + k * days_per_cycle) (y + 400 * k, m, d) = true.
Proof.
  unfold is_date. rewrite month_days_shift.
  assert (days_before_month (y + 400 * k) m = days_before_month y m) as ->.
  { unfold days_before_month. f_equal. apply list_fmap_ext. intros i x _. apply month_days_shift. }
  assert (days_before_year (y + 400 * k) = days_before_year y + k * days_per_cycle) as ->.
  { unfold days_before_year, days_per_cycle. replace (y + 400 * k - 1) with (y - 1 + 100 * k * 4) at 1 by lia. rewrite Z_div_plus_full by lia.
    replace (y + 400 * k - 1) with (y - 1 + 4 * k * 100) at 1 by lia. rewrite Z_div_plus_full by lia.
    replace (y + 400 * k - 1) with (y - 1 + k * 400) by lia. rewrite Z_div_plus_full by lia. lia. }
  intros H. to_prop. rewrite !andb_true_iff, !Z.leb_le, Z.eqb_eq in *. lia.
Qed.

(** Every day has exactly the date the calendar gives it. *)
Lemma civil_correct days : is_date days (civil days) = true.
Proof.
  set (k := (days + 719468) / days_per_cycle). set (i := (days + 719468) mod days_per_cycle).
  assert (days = (i - 719468) + k * days_per_cycle) as E.
  { pose proof (Z_div_mod_eq_full (days + 719468) days_per_cycle). lia. }
  assert (0 ≤ i < days_per_cycle) as Hi by (apply Z.mod_pos_bound; by vm_compute).
  assert (is_date (i - 719468) (civil (i - 719468)) = true) as H.
  { by apply cycle_checked. }
  assert (civil days = (let '(y, m, d) := civil (i - 719468) in (y + 400 * k, m, d))) as ->.
  { unfold civil. replace (i - 719468 + 719468) with i by lia. fold k. fold i.
    rewrite (Z.div_small i days_per_cycle), (Z.mod_small i days_per_cycle) by exact Hi. cbv zeta. do 2 f_equal. lia. }
  destruct (civil (i - 719468)) as [[y m] d]. rewrite E. by apply is_date_shift.
Qed.

(** ** Layouts *)

(** A number with leading zeros, as [%0*d] of a number that is not negative prints it. *)
Definition pad_zeros (width : nat) (n : Z) : string :=
  let ds := pretty n in of_chars (replicate (width - String.length ds) "0"%char) +:+ ds.

Definition second : Z := 1000000000.

(** ["2006-01-02"]. *)
Definition date_text (now : Z) : string :=
  let '(y, m, d) := civil (now / second / 86400) in
  pad_zeros 4 y +:+ "-" +:+ pad_zeros 2 m +:+ "-" +:+ pad_zeros 2 d.

(** [".999999999"]: the fraction of the second without its trailing zeros. *)
Fixpoint drop_zeros (l : list ascii) : list ascii :=
  match l with c :: l' => if bool_decide (c = "0"%char) then drop_zeros l' else l | [] => [] end.

Definition fraction_text (ns : Z) : string :=
  match rev (drop_zeros (rev (chars (pad_zeros 9 ns)))) with
  | [] => ""
  | ds => "." +:+ of_chars ds
  end.

(** [time.RFC3339Nano] in UTC. *)
Definition RFC3339Nano (now : Z) : string :=
  let secs := now / second mod 86400 in
  date_text now +:+ "T" +:+ pad_zeros 2 (secs / 3600) +:+ ":" +:+ pad_zeros 2 (secs / 60 mod 60) +:+ ":" +:+
  pad_zeros 2 (secs mod 60) +:+ fraction_text (now mod second) +:+ "Z".

Lemma RFC3339Nano_example : RFC3339Nano 1709210096250000000 = "2024-02-29T12:34:56.25Z" ∧ date_text 0 = "1970-01-01".
Proof. split; vm_compute; reflexivity. Qed.
