(* ===== verification/FileWrites.v ===== *)
(** * Files that are opened for writing

    [os.OpenFile] with [O_CREATE] and [O_APPEND] or [O_TRUNC], [f.Write], [f.Stat] and
    [os.WriteFile].  The handle of an open file is the place of its inode in the tree:
    nothing the Host does moves a file it has open here. *)

From Stdlib Require Import Ascii String.
From stdpp Require Import base tactics numbers list sorting gmap strings pretty.
From S2P Require Import Prelude GoError GoStrings Sha256 GoPath FileSystem FileCalls.
Local Open Scope string_scope.
Local Open Scope nat_scope.
Local Open Scope list_scope.

Definition EISDIR : goerr := ErrText "is a directory".

(** Where a file is opened or made: a final link is followed even when what it names does
    not exist.  The link count starts again on each part of the way. *)
Fixpoint create_at (links : nat) (t : tree) (d : list string) : res (list string) :=
  match t !! d with
  | Some i =>
      match in_node i with
      | NLink target =>
          match links, rev (Split_slash target) with
          | O, _ => Err ELOOP
          | _, [] => Err EISDIR
          | S links, c :: before =>
              if bool_decide (c = "") || bool_decide (c = ".") || bool_decide (c = "..") then Err EISDIR
              else match walk links t (if IsAbs target then [] else parent_of d) (rev before) with
                   | Ok p => if is_dir_at t p then create_at links t (p ++ [c]) else Err ENOTDIR
                   | Err e => Err e
                   end
          end
      | _ => Ok d
      end
  | None => Ok d
  end.

Definition open_path (t : tree) (p : string) : res (list string) :=
  match locate t p with Ok d => create_at max_links t d | Err e => Err e end.

(** [os.OpenFile(p, O_CREATE|O_WRONLY, perm)], with [O_APPEND] or with [O_TRUNC]; a device
    is refused. *)
Definition open_write (truncate : bool) (p : string) (perm : Z) : M FS (list string) :=
  sys (λ s, match open_path (fs_tree s) p with
            | Err e => (s, Err e)
            | Ok d =>
                match fs_tree s !! d with
                | None => if bool_decide (d = []) then (s, Err EISDIR)
                          else (put_inode d (new_inode (NFile "") perm s) s, Ok d)
                | Some i =>
                    match in_node i with
                    | NFile c => ((if truncate then put_inode d (mkInode (NFile "") (in_perm i) (fs_clock s) (in_dev i) (in_ino i) (fs_clock s)) s else s), Ok d)
                    | NDir => (s, Err EISDIR)
                    | _ => (s, Err (ErrText "no such device or address"))
                    end
                end
            end).

Definition OpenAppend : string → Z → M FS (list string) := open_write false.

(** [f.Write(b)]: a failed write has written some of the bytes, not all. *)
Definition append_to (d : list string) (b : string) (s : FS) : option FS :=
  match fs_tree s !! d with
  | Some i =>
      match in_node i with
      | NFile c => Some (put_inode d (mkInode (NFile (c +:+ b)) (in_perm i) (fs_clock s) (in_dev i) (in_ino i) (fs_clock s)) s)
      | _ => None
      end
  | None => None
  end.

Definition Write (d : list string) (b : string) : M FS (Z * option goerr) := λ s,
  let written (b : string) (e : option goerr) (s : FS) :=
    match append_to d b s with
    | Some s' => (s', Ok (slen b, e))
    | None => (s, Ok (0%Z, Some (ErrText "bad file descriptor")))
    end in
  match fs_faults s with
  | Some (e, n) :: faults => written (str_take (Nat.min n (String.length b - 1)) b) (Some (fault_err e)) (tick (set_fs_faults faults s))
  | None :: faults => written b None (tick (set_fs_faults faults s))
  | [] => written b None (tick s)
  end.

(** [f.Stat]. *)
Definition FStat (d : list string) : M FS inode :=
  sys (λ s, (s, match fs_tree s !! d with Some i => Ok i | None => Err (ErrText "bad file descriptor") end)).

(** [f.Close] of an open file; it is closed even when the call reports an error. *)
Definition HandleClose (d : list string) : M FS unit := sys (mret tt).

Definition WriteFile (p content : string) (perm : Z) : M FS unit :=
  d ← open_write true p perm;
  r ← Write d content;
  c ← attempt (HandleClose d);
  match r.2 with Some e => throw e | None => of_res c end.

(** ** Files only grow

    [grows t t']: every file of [t] is in [t'] and starts with what it held. *)
Definition file_at (t : tree) (d : list string) : option string :=
  match t !! d with Some i => match in_node i with NFile c => Some c | _ => None end | None => None end.

Definition grows (t t' : tree) : Prop :=
  ∀ d c, file_at t d = Some c → ∃ more, file_at t' d = Some (c +:+ more).

(** The same files with the same content; directories may be new. *)
Definition same_files (t t' : tree) : Prop := ∀ d c, file_at t d = Some c → file_at t' d = Some c.

#[export] Instance grows_preorder : PreOrder grows.
Proof.
  split.
  - intros t d c H. exists EmptyString. by rewrite string_append_nil_r.
  - intros t1 t2 t3 H1 H2 d c H. destruct (H1 d c H) as [m1 H']. destruct (H2 _ _ H') as [m2 H'']. exists (m1 +:+ m2).
    by rewrite <- string_append_assoc.
Qed.

#[export] Instance same_files_preorder : PreOrder same_files.
Proof. split; [intros t d c H; exact H|]. intros t1 t2 t3 H1 H2 d c H. auto. Qed.

Lemma same_files_grows t t' : same_files t t' → grows t t'.
Proof. intros H d c Hc. exists "". rewrite string_append_nil_r. auto. Qed.

Lemma file_at_insert_ne t d d' i : d ≠ d' → file_at (<[d := i]> t) d' = file_at t d'.
Proof. intros H. unfold file_at. by rewrite lookup_insert_ne. Qed.

Lemma file_at_insert t d i : file_at (<[d := i]> t) d = match in_node i with NFile c => Some c | _ => None end.
Proof. unfold file_at. by rewrite lookup_insert_eq. Qed.

Lemma same_files_new t d i : t !! d = None → same_files t (<[d := i]> t).
Proof.
  intros Hd d' c Hc. destruct (decide (d = d')) as [<-|Hne]; [|by rewrite file_at_insert_ne].
  unfold file_at in Hc. by rewrite Hd in Hc.
Qed.

(** ** What the calls do to the files *)

Lemma sys_files {A} (op : M FS A) (R : tree → tree → Prop) s s' r :
  (∀ t, R t t) → (∀ s s' r, op s = (s', r) → R (fs_tree s) (fs_tree s')) → sys op s = (s', r) → R (fs_tree s) (fs_tree s').
Proof.
  intros Hr Hop. unfold sys. destruct (fs_faults s) as [|[[e n]|] faults].
  - intros H. by apply Hop in H.
  - intros [= <- _]. apply Hr.
  - intros H. by apply Hop in H.
Qed.

Lemma sys_noop_files {A} (a : A) s s' r : sys (mret a) s = (s', r) → fs_tree s' = fs_tree s.
Proof. apply (sys_files _ (λ t t', t' = t)); [done|]. by intros ??? [= <- _]. Qed.

Lemma open_append_files p perm s s' r : OpenAppend p perm s = (s', r) →
  same_files (fs_tree s) (fs_tree s') ∧ ∀ d, r = Ok d → is_Some (file_at (fs_tree s') d).
Proof.
  assert (∀ s s' r, (match open_path (fs_tree s) p with
            | Err e => (s, Err e)
            | Ok d =>
                match fs_tree s !! d with
                | None => if bool_decide (d = []) then (s, Err EISDIR)
                          else (put_inode d (new_inode (NFile "") perm s) s, Ok d)
                | Some i =>
                    match in_node i with
                    | NFile c => (s, Ok d)
                    | NDir => (s, Err EISDIR)
                    | _ => (s, Err (ErrText "no such device or address"))
                    end
                end
            end) = (s', r) → same_files (fs_tree s) (fs_tree s') ∧ ∀ d, r = Ok d → is_Some (file_at (fs_tree s') d)) as Hop.
  { clear. intros s s' r. destruct (open_path _ _) as [d|e]; [|by intros [= <- <-]]. destruct (fs_tree s !! d) as [i|] eqn:Ed.
    - destruct (in_node i) eqn:Ei; intros [= <- <-]; (split; [done|]); [|done..]. intros d' [= <-]. unfold file_at. rewrite Ed, Ei. by eexists.
    - case_bool_decide; intros [= <- <-]; [done|]. split; [by apply same_files_new|]. intros d' [= <-]. cbn. rewrite file_at_insert. by eexists. }
  unfold OpenAppend, open_write, sys. destruct (fs_faults s) as [|[[e n]|] faults].
  - apply (Hop (tick s)).
  - by intros [= <- <-].
  - apply (Hop (tick (set_fs_faults faults s))).
Qed.

Lemma append_to_files d b s s' : append_to d b s = Some s' →
  ∃ c, file_at (fs_tree s) d = Some c ∧ file_at (fs_tree s') d = Some (c +:+ b) ∧ ∀ d', d' ≠ d → file_at (fs_tree s') d' = file_at (fs_tree s) d'.
Proof.
  unfold append_to, file_at. destruct (fs_tree s !! d) as [i|] eqn:Ed; [|done]. destruct (in_node i) as [c| | |] eqn:Ei; try done.
  intros [= <-]. exists c. split; [done|]. cbn. rewrite lookup_insert_eq. split; [done|]. intros d' Hd'. by rewrite lookup_insert_ne.
Qed.

(** A write appends what it says it wrote, and touches nothing else. *)
Lemma Write_files d b s s' r : Write d b s = (s', r) →
  ∃ n e, r = Ok (n, e) ∧
    ((e = None ∧ n = slen b ∧ ∃ c, file_at (fs_tree s) d = Some c ∧ file_at (fs_tree s') d = Some (c +:+ b)) ∨
     (∃ err c k, e = Some err ∧ n = slen (str_take k b) ∧ file_at (fs_tree s) d = Some c ∧ file_at (fs_tree s') d = Some (c +:+ str_take k b)) ∨
     (∃ err, e = Some err ∧ n = 0%Z ∧ fs_tree s' = fs_tree s)) ∧
    ∀ d', d' ≠ d → file_at (fs_tree s') d' = file_at (fs_tree s) d'.
Proof.
  assert (∀ b e s1 s' r, fs_tree s1 = fs_tree s → match append_to d b s1 with Some s' => (s', Ok (slen b, e)) | None => (s1, Ok (0%Z, Some (ErrText "bad file descriptor"))) end = (s', r) →
    ∃ n e', r = Ok (n, e') ∧ ((e' = e ∧ n = slen b ∧ ∃ c, file_at (fs_tree s) d = Some c ∧ file_at (fs_tree s') d = Some (c +:+ b)) ∨
      (∃ err, e' = Some err ∧ n = 0%Z ∧ fs_tree s' = fs_tree s)) ∧ ∀ d', d' ≠ d → file_at (fs_tree s') d' = file_at (fs_tree s) d') as Hw.
  { clear. intros b e s1 s' r Ht. destruct (append_to d b s1) as [s2|] eqn:E; intros [= <- <-].
    - apply append_to_files in E as (c&H1&H2&H3). rewrite Ht in *. do 2 eexists. split; [done|]. split; [left; eauto|done].
    - do 2 eexists. split; [done|]. rewrite Ht. split; [right; eauto|done]. }
  unfold Write. destruct (fs_faults s) as [|[[e n]|] faults]; intros H; (apply Hw in H as (n'&e'&Hr&Hc&Hf); [|done]; exists n', e'; split; [exact Hr|]; split; [|exact Hf]).
  - destruct Hc as [(->&->&H)|H]; [by left|by right; right].
  - destruct Hc as [(->&->&c&H1&H2)|H]; [right; left; eauto 8|by right; right].
  - destruct Hc as [(->&->&H)|H]; [by left|by right; right].
Qed.

Lemma Write_grows d b s s' r : Write d b s = (s', r) → grows (fs_tree s) (fs_tree s').
Proof.
  intros (n&e&_&H&Hf)%Write_files d' c Hc. destruct (decide (d' = d)) as [->|Hne]; [|exists ""; rewrite string_append_nil_r; by rewrite Hf].
  destruct H as [(_&_&c'&H1&H2)|[(err&c'&k&_&_&H1&H2)|(err&_&_&Ht)]].
  - rewrite Hc in H1. simplify_eq. by eexists.
  - rewrite Hc in H1. simplify_eq. by eexists.
  - exists "". by rewrite string_append_nil_r, Ht.
Qed.

(** [os.MkdirAll] only makes directories. *)
Lemma mkdir_missing_files perm q s s' r : mkdir_missing perm q s = (s', r) → same_files (fs_tree s) (fs_tree s').
Proof.
  unfold mkdir_missing. unfold attempt, mbind, M_bind. destruct (Stat q s) as [s1 r1] eqn:Es.
  assert (fs_tree s1 = fs_tree s) as E1 by (revert Es; apply (sys_files _ (λ t t', t' = t)); [done|]; by intros ??? [= <- _]).
  rewrite <- E1. clear Es E1. destruct r1 as [i|e]; cbn -[fi_IsDir sys].
  - destruct (fi_IsDir i); by intros [= <- _].
  - destruct (errorsIs e ErrNotExist); [|by intros [= <- _]]. apply (sys_files _ same_files); [done|]. clear. intros s s' r.
    destruct (locate _ _) as [d|e]; [|by intros [= <- _]]. destruct (fs_tree s !! d) as [i|] eqn:Ed; intros [= <- _]; [done|]. by apply same_files_new.
Qed.

Lemma MkdirAll_files p perm s s' r : MkdirAll p perm s = (s', r) → same_files (fs_tree s) (fs_tree s').
Proof.
  unfold MkdirAll. generalize ((λ n, apath (take n (pcomps p))) <$> seq 1 (length (pcomps p))). intros l. revert s.
  induction l as [|q l IH]; intros s; [by intros [= <- _]|]. cbn. unfold mbind, M_bind.
  destruct (mkdir_missing perm q s) as [s1 [[]|e]] eqn:E; apply mkdir_missing_files in E; [|by intros [= <- _]].
  intros H%IH. by etrans.
Qed.
