(* ===== verification/Interleave.v ===== *)
(** * Threads made of atomic sections

    A method that takes a lock several times, or calls out between two critical sections,
    is a [prog]: a sequence of atomic sections on the shared state, each of which decides
    how to go on.  [run] is the method on its own; [pool_step] interleaves any number of
    methods, with what the environment does in between. *)

From stdpp Require Import base tactics numbers list relations.
From S2P Require Import Prelude GoError.

Section Programs.
Context {W : Type}.

Inductive prog (A : Type) : Type :=
| Ret (r : res A)
| Atomic (act : W → W) (next : W → prog A).   (* both read the state before the section *)
Arguments Ret {A} r.
Arguments Atomic {A} act next.

(** Go on with the result, error or not. *)
Fixpoint and_then {A B} (p : prog A) (k : res A → prog B) : prog B :=
  match p with
  | Ret r => k r
  | Atomic act next => Atomic act (λ w, and_then (next w) k)
  end.

(** [if err := ...; err != nil] between sections. *)
Definition on_result {A B} (p : prog A) (fails : goerr → prog B) (k : A → prog B) : prog B :=
  and_then p (λ r, match r with Ok a => k a | Err e => fails e end).

(** One critical section. *)
Definition atomic {A} (m : M W A) : prog A := Atomic (λ w, (m w).1) (λ w, Ret (m w).2).

Fixpoint run {A} (p : prog A) (w : W) : W * res A :=
  match p with
  | Ret r => (w, r)
  | Atomic act next => run (next w) (act w)
  end.

Lemma run_atomic {A} (m : M W A) w : run (atomic m) w = m w.
Proof. cbn. by destruct (m w). Qed.

Lemma run_and_then {A B} (p : prog A) (k : res A → prog B) w : run (and_then p k) w = run (k (run p w).2) (run p w).1.
Proof.
  revert w. induction p as [r|act next IH]; intros w; [done|]. apply IH.
Qed.

(** ** Interleaving

    [spawned] are the methods that may be called, [env] is what happens outside them. *)
Context (spawned : prog unit → Prop) (env : W → W → Prop).

Inductive pool_step : W * list (prog unit) → W * list (prog unit) → Prop :=
| step_section w ps i act next : ps !! i = Some (Atomic act next) → pool_step (w, ps) (act w, <[i := next w]> ps)
| step_spawn w ps p : spawned p → pool_step (w, ps) (w, ps ++ [p])
| step_env w ps w' : env w w' → pool_step (w, ps) (w', ps).

(** ** Invariants

    [keeps w0 p]: from any state after [w0] in which the invariant [I] holds, the next
    section of [p] leads to a state related by [R] that has [I] again, and so on.  [R] is
    what every section guarantees and what therefore holds between any two states. *)
Context (R : W → W → Prop) (I : W → Prop) (HR : PreOrder R).

Inductive keeps {A} : W → prog A → Prop :=
| keeps_ret w0 r : keeps w0 (Ret r)
| keeps_atomic w0 act next :
    (∀ w, R w0 w → I w → R w (act w) ∧ I (act w)) → (∀ w, R w0 w → I w → keeps (act w) (next w)) → keeps w0 (Atomic act next).

Lemma keeps_later {A} w0 w (p : prog A) : keeps w0 p → R w0 w → keeps w p.
Proof. intros Hp HR'. destruct Hp as [|w0 act next Ha Hn]; constructor; intros w' Hw'; [apply Ha|apply Hn]; by etrans. Qed.

(** A section is followed by what is right for its result. *)
Lemma keeps_section {A B} w0 (m : M W A) (k : res A → prog B) :
  (∀ w w' r, R w0 w → I w → m w = (w', r) → R w w' ∧ I w' ∧ keeps w' (k r)) → keeps w0 (and_then (atomic m) k).
Proof. intros H. constructor; intros w Hw HI; specialize (H w); destruct (m w) as [w' r]; by destruct (H w' r) as (?&?&?). Qed.

Lemma keeps_and_then {A B} w0 (p : prog A) (k : res A → prog B) : keeps w0 p → (∀ w r, keeps w (k r)) → keeps w0 (and_then p k).
Proof. intros Hp Hk. induction Hp as [w0 r|w0 act next Ha Hn IH]; [apply Hk|]. by constructor. Qed.

Lemma keeps_atomic_section {A} w0 (m : M W A) :
  (∀ w w' r, R w0 w → I w → m w = (w', r) → R w w' ∧ I w') → keeps w0 (atomic m).
Proof.
  intros H. constructor; intros w Hw HI; [|constructor]. specialize (H w). destruct (m w) as [w' r]. by apply (H w' r).
Qed.

Lemma pool_invariant w ps w' ps' :
  (∀ w p, spawned p → keeps w p) → (∀ w w', I w → env w w' → R w w' ∧ I w') →
  I w → Forall (keeps w) ps → rtc pool_step (w, ps) (w', ps') → R w w' ∧ I w' ∧ Forall (keeps w') ps'.
Proof.
  intros Hs He HI Hps H. remember (w, ps) as x eqn:Ex. remember (w', ps') as y eqn:Ey. revert w ps HI Hps Ex.
  induction H as [|x y z Hxy _ IH]; intros w ps HI Hps ->; [by simplify_eq|]. specialize (IH Ey).
  assert (∀ w2, R w w2 → Forall (keeps w2) ps) as Hlater.
  { intros w2 H2. eapply Forall_impl; [exact Hps|]. intros p Hp. by eapply keeps_later. }
  inversion Hxy as [w0 ps0 i act next Hi|w0 ps0 p Hp|w0 ps0 w1 Hw]; subst; clear Hxy.
  - pose proof (Forall_lookup_1 _ _ _ _ Hps Hi) as Hk. inversion Hk as [|w0' act' next' Ha Hn]; subst. destruct (Ha w) as [H1 H2]; [done..|]. specialize (Hn w ltac:(done) HI).
    destruct (IH (act w) (<[i:=next w]> ps)) as (?&?&?); [done|apply Forall_insert; auto|done|]. split; [by etrans|done].
  - apply (IH w (ps ++ [p])); [done|by apply Forall_app_2; [|constructor; [apply Hs|]]|done].
  - destruct (He w w1 HI Hw) as [H1 H2]. destruct (IH w1 ps) as (?&?&?); [done|by apply Hlater|done|]. split; [by etrans|done].
Qed.

End Programs.

(** ** Simulation

    [alike] are states that a lower-ranking observer cannot tell apart; programs are alike
    if their sections lead from such states to such states, in step. *)
Section Simulation.
Context {W : Type} (alike : W → W → Prop).

Inductive sim {A} : prog A → prog A → Prop :=
| sim_ret r : sim (Ret _ r) (Ret _ r)
| sim_atomic act1 next1 act2 next2 :
    (∀ w1 w2, alike w1 w2 → alike (act1 w1) (act2 w2)) → (∀ w1 w2, alike w1 w2 → sim (next1 w1) (next2 w2)) →
    sim (Atomic _ act1 next1) (Atomic _ act2 next2).

(** Sections whose results are the same. *)
Lemma sim_section {A B} (m1 m2 : M W A) (k1 k2 : res A → prog B) :
  (∀ w1 w2, alike w1 w2 → alike (m1 w1).1 (m2 w2).1 ∧ sim (k1 (m1 w1).2) (k2 (m2 w2).2)) →
  sim (and_then (atomic m1) k1) (and_then (atomic m2) k2).
Proof. intros H. constructor; apply H. Qed.

Lemma sim_and_then {A B} (p1 p2 : prog A) (k1 k2 : res A → prog B) :
  sim p1 p2 → (∀ r, sim (k1 r) (k2 r)) → sim (and_then p1 k1) (and_then p2 k2).
Proof. intros Hp Hk. induction Hp as [r|act1 next1 act2 next2 Ha Hn IH]; [apply Hk|]. by constructor. Qed.

Lemma pool_simulation spawned1 spawned2 w1 ps1 w2 ps2 w1' ps1' :
  (∀ p1, spawned1 p1 → ∃ p2, spawned2 p2 ∧ sim p1 p2) →
  alike w1 w2 → Forall2 sim ps1 ps2 → rtc (pool_step spawned1 (λ _ _, False)) (w1, ps1) (w1', ps1') →
  ∃ w2' ps2', rtc (pool_step spawned2 (λ _ _, False)) (w2, ps2) (w2', ps2') ∧ alike w1' w2' ∧ Forall2 sim ps1' ps2'.
Proof.
  intros Hs Hw Hps H. remember (w1, ps1) as x eqn:Ex. remember (w1', ps1') as y eqn:Ey. revert w1 ps1 w2 ps2 Hw Hps Ex.
  induction H as [|x y z Hxy _ IH]; intros w1 ps1 w2 ps2 Hw Hps ->.
  { simplify_eq. exists w2, ps2. by split; [constructor|]. }
  specialize (IH Ey). inversion Hxy as [w0 ps0 i act next Hi|w0 ps0 p Hp|]; subst; clear Hxy; [| |done].
  - destruct (Forall2_lookup_l _ _ _ _ _ Hps Hi) as (p2&Hi2&Hsim). inversion Hsim as [|? ? act2 next2 Ha Hn]; subst.
    specialize (Ha w1 w2 Hw) as Hw'. specialize (Hn w1 w2 Hw). destruct (IH (act w1) (<[i := next w1]> ps1) (act2 w2) (<[i := next2 w2]> ps2) Hw') as (w2'&ps2'&Hr&?&?); [by apply Forall2_insert|done|].
    exists w2', ps2'. split; [|done]. eapply rtc_l; [|exact Hr]. by econstructor.
  - destruct (Hs p Hp) as (p2&Hp2&Hsim). destruct (IH w1 (ps1 ++ [p]) w2 (ps2 ++ [p2]) Hw) as (w2'&ps2'&Hr&?&?); [apply Forall2_app; [done|by constructor]|done|].
    exists w2', ps2'. split; [|done]. eapply rtc_l; [|exact Hr]. by constructor.
Qed.
End Simulation.

Arguments prog W A : clear implicits.
Arguments Ret {W A} r.
Arguments Atomic {W A} act next.
