(* ===== verification/Tailnet.v ===== *)
(** * The embedded tailnet node (internal/tailnet/service.go)

    A [Service] starts the node of the tsnet library, waits until it is usable, opens its
    listener and stops it again.  Its methods take the lock [mu] for single assignments and
    call out in between, and the library's log callback calls [setAuthURL] from a goroutine
    of its own, so every method is a sequence of atomic sections.  What the library answers
    (the results of its Start, Up, Listen, LocalClient, WhoIs and Close) is an argument of
    the methods; audit events go to an [AuditSink]. *)

From Stdlib Require Import Ascii String.
From stdpp Require Import base tactics numbers list gmap strings pretty.
From S2P Require Import Prelude GoError GoStrings Sha256 GoPath FileSystem Interleave.
Local Open Scope string_scope.
Local Open Scope Z_scope.
Local Open Scope list_scope.

(** ** Data *)

Inductive State :=
| StateStopped | StateStarting | StateAuthRequired | StateConnecting | StateReady | StateDegraded | StateStopping.

#[export] Instance State_eq_dec : EqDecision State.
Proof. solve_decision. Defined.

Definition state_text (s : State) : string :=
  match s with
  | StateStopped => "stopped" | StateStarting => "starting" | StateAuthRequired => "auth_required"
  | StateConnecting => "connecting" | StateReady => "ready" | StateDegraded => "degraded" | StateStopping => "stopping"
  end.

Record Config := mkConfig {
  tc_Hostname : string;
  tc_StateDir : string;
  tc_ListenAddr : string;
  tc_AuthKey : string;
  tc_Verbose : bool;
  tc_hasOnAuthURL : bool;
}.

Record AuditEvent := mkAuditEvent {
  ae_Operation : string;
  ae_Outcome : string;
  ae_Message : string;
  ae_Metadata : gmap string string;
}.

(** The time and the random bytes a record gets. *)
Definition moment : Type := Z * string.

(** The interface of the recorder, over its state [R] and the file system. *)
Class AuditSink (R : Type) := RecordTailnet : moment → AuditEvent → M (R * FS) unit.

(** The fields of [tsnet.Server] the service sets. *)
Record Server := mkServer { srv_Hostname : string; srv_Dir : string; srv_AuthKey : string }.

(** [tailnet.Service], with what it has put out on the console. *)
Record Service := mkService {
  ts_cfg : Config;
  ts_audited : bool;  (* audit is not nil *)
  ts_srv : option Server;
  ts_state : State;
  ts_authURL : string;
  ts_lastErr : option goerr;
  ts_status : option (list string);  (* the node's addresses *)
  ts_listener : option nat;
  ts_console : list string;  (* lines given to the logger *)
  ts_told : list string;  (* calls of OnAuthURL *)
}.

Definition set_ts_srv (x : option Server) (r : Service) : Service :=
  mkService (ts_cfg r) (ts_audited r) x (ts_state r) (ts_authURL r) (ts_lastErr r) (ts_status r)
    (ts_listener r) (ts_console r) (ts_told r).
Definition set_ts_state (x : State) (r : Service) : Service :=
  mkService (ts_cfg r) (ts_audited r) (ts_srv r) x (ts_authURL r) (ts_lastErr r) (ts_status r) (ts_listener r)
    (ts_console r) (ts_told r).
Definition set_ts_authURL (x : string) (r : Service) : Service :=
  mkService (ts_cfg r) (ts_audited r) (ts_srv r) (ts_state r) x (ts_lastErr r) (ts_status r) (ts_listener r)
    (ts_console r) (ts_told r).
Definition set_ts_lastErr (x : option goerr) (r : Service) : Service :=
  mkService (ts_cfg r) (ts_audited r) (ts_srv r) (ts_state r) (ts_authURL r) x (ts_status r) (ts_listener r)
    (ts_console r) (ts_told r).
Definition set_ts_status (x : option (list string)) (r : Service) : Service :=
  mkService (ts_cfg r) (ts_audited r) (ts_srv r) (ts_state r) (ts_authURL r) (ts_lastErr r) x (ts_listener r)
    (ts_console r) (ts_told r).
Definition set_ts_listener (x : option nat) (r : Service) : Service :=
  mkService (ts_cfg r) (ts_audited r) (ts_srv r) (ts_state r) (ts_authURL r) (ts_lastErr r) (ts_status r) x
    (ts_console r) (ts_told r).
Definition set_ts_console (x : list string) (r : Service) : Service :=
  mkService (ts_cfg r) (ts_audited r) (ts_srv r) (ts_state r) (ts_authURL r) (ts_lastErr r) (ts_status r)
    (ts_listener r) x (ts_told r).
Definition set_ts_told (x : list string) (r : Service) : Service :=
  mkService (ts_cfg r) (ts_audited r) (ts_srv r) (ts_state r) (ts_authURL r) (ts_lastErr r) (ts_status r)
    (ts_listener r) (ts_console r) x.

Record Status := mkStatus {
  st_State : State;
  st_Hostname : string;
  st_ListenAddr : string;
  st_AuthURL : string;
  st_TailnetIPs : list string;
  st_LastError : string;
}.

Record PeerIdentity := mkPeerIdentity {
  pi_NodeID : string;
  pi_NodeName : string;
  pi_UserID : string;
  pi_LoginName : string;
  pi_DisplayName : string;
  pi_Tags : list string;
  pi_RemoteAddr : string;
}.

(** What the local client's WhoIs answers: node id, name and tags; user id, login and name. *)
Record WhoIsResponse := mkWhoIsResponse {
  who_Node : option (Z * string * list string);
  who_UserProfile : option (Z * string * string);
}.

(** ** Text *)

(** [\s] of a regular expression. *)
Definition re_space (c : ascii) : bool := existsb (λ n, bval c =? n) [9; 10; 12; 13; 32].

Fixpoint take_nonspace (l : list ascii) : list ascii :=
  match l with c :: l => if re_space c then [] else c :: take_nonspace l | [] => [] end.

Definition login_prefix : list ascii := chars "https://login.tailscale.com/".

(** [authURLPattern.FindString]: the leftmost match, empty if there is none. *)
Fixpoint find_url (l : list ascii) : list ascii :=
  match l with
  | [] => []
  | _ :: rest =>
      if is_prefix login_prefix l then
        match take_nonspace (drop (length login_prefix) l) with
        | [] => find_url rest
        | tail => login_prefix ++ tail
        end
      else find_url rest
  end.

Definition FindAuthURL (message : string) : string := of_chars (find_url (chars message)).

Definition host_char (c : ascii) : bool :=
  in_range 97 122 (bval c) || in_range 48 57 (bval c) || bool_decide (c = "-"%char).

(** [[^a-z0-9-]+] replaced by a dash; [inside] a run that is already replaced. *)
Fixpoint replace_runs (inside : bool) (l : list ascii) : list ascii :=
  match l with
  | [] => []
  | c :: l =>
      if host_char c then c :: replace_runs false l
      else if inside then replace_runs true l else "-"%char :: replace_runs true l
  end.

Fixpoint drop_dashes (l : list ascii) : list ascii :=
  match l with c :: l' => if bool_decide (c = "-"%char) then drop_dashes l' else l | [] => [] end.

(** [strings.Trim(s, "-")]. *)
Definition trim_dashes (l : list ascii) : list ascii := rev (drop_dashes (rev (drop_dashes l))).

(** [DefaultHostname]; [host] is the answer of [os.Hostname]. *)
Definition DefaultHostname (host : res string) : string :=
  match host with
  | Err _ => "codex-remote"
  | Ok host =>
      if str_empty (TrimSpace host) then "codex-remote"
      else match trim_dashes (replace_runs false (chars (ToLower host))) with
           | [] => "codex-remote"
           | l => "codex-remote-" +:+ of_chars l
           end
  end.

(** ** The methods *)

Section Service.
Context {R : Type} {sink : AuditSink R}.

(** The result of [tshttpproxy.SetProxyFunc], which runs once per process. *)
Context (proxyErr : option goerr).

Notation World := (Service * (R * FS))%type (only parsing).

Definition svc {A} (m : M Service A) : M World A := zoom fst (λ s w, (s, w.2)) m.
Definition files {A} (m : M FS A) : M World A := zoom (λ w, w.2.2) (λ x w, (w.1, (w.2.1, x))) m.
Definition sinks {A} (m : M (R * FS) A) : M World A := zoom snd (λ x w, (w.1, x)) m.

(** [s.audit.RecordTailnet]; its error is ignored. *)
Definition record (mo : moment) (operation outcome message : string) (metadata : gmap string string) : prog World unit :=
  atomic (audited ← svc (gets ts_audited);
          if audited : bool
          then _ ← attempt (sinks (RecordTailnet mo (mkAuditEvent operation outcome message metadata))); mret tt
          else mret tt).

Definition locked {A} (m : M Service A) : prog World A := atomic (svc m).

Definition fail {A} (mo : moment) (operation : string) (e : goerr) : prog World A :=
  and_then (locked (modify (λ s, set_ts_lastErr (Some e) (set_ts_state StateDegraded s)))) (λ _,
  and_then (record mo operation "failed" (error_text e) ∅) (λ _, Ret (Err e))).

Definition proxy_failed (e : goerr) : goerr := ErrWrapped "configure embedded tailscale direct proxy policy: " e "".

(** [New]: the checks, the default address, and the first audit event. *)
Definition New (mo : moment) (cfg : Config) (audited : bool) : M (R * FS) Service :=
  if str_empty (TrimSpace (tc_Hostname cfg)) then fail_msg "tailnet hostname is required"
  else if str_empty (TrimSpace (tc_StateDir cfg)) then fail_msg "tailnet state directory is required"
  else
    let cfg := if str_empty (tc_ListenAddr cfg)
               then mkConfig (tc_Hostname cfg) (tc_StateDir cfg) ":80" (tc_AuthKey cfg) (tc_Verbose cfg) (tc_hasOnAuthURL cfg) else cfg in
    match proxyErr with
    | Some e => throw (proxy_failed e)
    | None =>
        let s := mkService cfg audited None StateStopped "" None None None
                   ["embedded Tailscale proxy policy: direct; process proxy environment is ignored"] [] in
        _ ← (if audited
             then attempt (RecordTailnet mo (mkAuditEvent "tailnet.proxy_policy" "configured"
                    "embedded Tailscale uses direct connections" {[ "policy" := "direct" ]}))
             else mret (Ok tt));
        mret s
    end.

(** The state is read again, after the lock is released, for the message. *)
Definition Start (mo mo' : moment) (started : option goerr) : prog World unit :=
  match proxyErr with
  | Some e => fail mo "tailnet.proxy_policy" (proxy_failed e)
  | None =>
      on_result (locked (state ← gets ts_state;
                         if bool_decide (state ≠ StateStopped) then mret false
                         else _ ← modify (set_ts_state StateStarting); mret true)) (λ e, Ret (Err e)) (λ free,
      if negb free then
        on_result (locked (gets ts_state)) (λ e, Ret (Err e)) (λ state,
        Ret (Err (ErrText ("tailnet cannot start from " +:+ state_text state))))
      else
        on_result (locked (gets ts_cfg)) (λ e, Ret (Err e)) (λ cfg,
        on_result (atomic (files (MkdirAll (tc_StateDir cfg) 448))) (fail mo "tailnet.start") (λ _,
        on_result (atomic (files (Chmod (tc_StateDir cfg) 448))) (fail mo "tailnet.start") (λ _,
        let server := mkServer (tc_Hostname cfg) (Clean (tc_StateDir cfg)) (tc_AuthKey cfg) in
        and_then (locked (modify (λ s, set_ts_state StateConnecting (set_ts_srv (Some server) s)))) (λ _,
        and_then (record mo "tailnet.start" "started" "embedded tailnet node starting" ∅) (λ _,
        match started with Some e => fail mo' "tailnet.start" e | None => Ret (Ok tt) end))))))
  end.

Definition setAuthURL (mo : moment) (url : string) : prog World unit :=
  on_result (locked (old ← gets ts_authURL;
                     _ ← modify (λ s, set_ts_state StateAuthRequired (set_ts_authURL url s));
                     mret (bool_decide (old ≠ url)))) (λ e, Ret (Err e)) (λ changed,
  if negb changed then Ret (Ok tt)
  else
    and_then (locked (modify (λ s, set_ts_console (ts_console s ++ ["authentication required: " +:+ url]) s))) (λ _,
    and_then (locked (modify (λ s, if tc_hasOnAuthURL (ts_cfg s) then set_ts_told (ts_told s ++ [url]) s else s))) (λ _,
    record mo "tailnet.auth_required" "started" "tailnet authentication required; see host console" ∅))).

(** [server.Logf], called by the library with a formatted message. *)
Definition Logf (mo : moment) (message : string) : prog World unit :=
  and_then (locked (modify (λ s, if tc_Verbose (ts_cfg s) then set_ts_console (ts_console s ++ [message]) s else s))) (λ _,
  let url := FindAuthURL message in
  if str_empty url then Ret (Ok tt) else setAuthURL mo url).

Definition not_started : goerr := ErrText "tailnet is not started".

(** [up] is the answer of [server.Up]: the addresses of the node. *)
Definition WaitReady (mo mo' : moment) (up : res (list string)) : prog World unit :=
  on_result (locked (gets ts_srv)) (λ e, Ret (Err e)) (λ server,
  match server with
  | None => Ret (Err not_started)
  | Some _ =>
      match up with
      | Err e => fail mo "tailnet.wait_ready" e
      | Ok st =>
          and_then (locked (modify (λ s, set_ts_lastErr None (set_ts_authURL "" (set_ts_state StateReady (set_ts_status (Some st) s)))))) (λ _,
          and_then (record mo "tailnet.auth_succeeded" "succeeded" "tailnet node authenticated" ∅) (λ _,
          and_then (record mo' "tailnet.ready" "succeeded" "tailnet node ready" ∅) (λ _, Ret (Ok tt))))
      end
  end).

(** [ln] is the answer of [server.Listen]. *)
Definition Listen (mo : moment) (ln : res nat) : prog World nat :=
  on_result (locked (server ← gets ts_srv; state ← gets ts_state; mret (server, state))) (λ e, Ret (Err e)) (λ '(server, state),
  if match server with None => true | Some _ => false end || bool_decide (state ≠ StateReady)
  then Ret (Err (ErrText ("tailnet is not ready: " +:+ state_text state)))
  else match ln with
  | Err e => fail mo "tailnet.listener_started" e
  | Ok ln =>
      and_then (locked (modify (set_ts_listener (Some ln)))) (λ _,
      on_result (locked (gets (tc_ListenAddr ∘ ts_cfg))) (λ e, Ret (Err e)) (λ addr,
      and_then (record mo "tailnet.listener_started" "succeeded" "plain TCP listener started inside tailnet" {[ "address" := addr ]}) (λ _,
      Ret (Ok ln))))
  end).

Definition identity_of (remoteAddr : string) (who : WhoIsResponse) : PeerIdentity :=
  let '(nodeID, nodeName, tags) := match who_Node who with Some (id, name, tags) => (pretty id, name, tags) | None => ("", "", []) end in
  let '(userID, login, display) := match who_UserProfile who with Some (id, login, display) => (pretty id, login, display) | None => ("", "", "") end in
  mkPeerIdentity nodeID nodeName userID login display tags remoteAddr.

(** [lc] is the error of [server.LocalClient], [who] the answer of its WhoIs. *)
Definition WhoIs (mo : moment) (lc : option goerr) (who : res WhoIsResponse) (remoteAddr : string) : prog World PeerIdentity :=
  on_result (locked (gets ts_srv)) (λ e, Ret (Err e)) (λ server,
  let failed (e : goerr) :=
    and_then (record mo "tailnet.whois_failed" "failed" (error_text e) {[ "remote_addr" := remoteAddr ]}) (λ _, Ret (Err e)) in
  match server, lc, who with
  | None, _, _ => Ret (Err not_started)
  | _, Some e, _ => failed e
  | _, _, Err e => failed e
  | _, _, Ok who =>
      let identity := identity_of remoteAddr who in
      and_then (record mo "tailnet.whois_succeeded" "succeeded" "tailnet peer identified"
                  (<["remote_addr" := remoteAddr]> (<["node_id" := pi_NodeID identity]> {[ "user_id" := pi_UserID identity ]}))) (λ _,
      Ret (Ok identity))
  end).

Definition LocalClient (lc : res nat) : prog World nat :=
  on_result (locked (gets ts_srv)) (λ e, Ret (Err e)) (λ server,
  match server with None => Ret (Err not_started) | Some _ => Ret lc end).

Definition status_of (s : Service) : Status :=
  mkStatus (ts_state s) (tc_Hostname (ts_cfg s)) (tc_ListenAddr (ts_cfg s)) (ts_authURL s) (default [] (ts_status s))
    (match ts_lastErr s with Some e => error_text e | None => "" end).

(** [s.Status()]. *)
Definition GetStatus : prog World Status := locked (gets status_of).

(** [errors.Join]. *)
Definition join_errors (errs : list goerr) : res unit :=
  match errs with
  | [] => Ok tt
  | e :: errs => Err (foldl ErrJoin e errs)
  end.

(** [lnErr]: the error of the listener and whether it is [net.ErrClosed]; [srvErr]: the
    error of [server.Close]. *)
Definition Close (mo : moment) (lnErr : option (goerr * bool)) (srvErr : option goerr) : prog World unit :=
  on_result (locked (s ← gets id;
                     if bool_decide (ts_state s = StateStopped) then mret None
                     else _ ← modify (λ s, set_ts_listener None (set_ts_state StateStopping s)); mret (Some (ts_listener s, ts_srv s))))
            (λ e, Ret (Err e)) (λ open,
  match open with
  | None => Ret (Ok tt)
  | Some (ln, server) =>
      let errs := match ln, lnErr with Some _, Some (e, false) => [e] | _, _ => [] end
               ++ match server, srvErr with Some _, Some e => [e] | _, _ => [] end in
      and_then (locked (modify (λ s, set_ts_status None (set_ts_srv None (set_ts_state StateStopped s))))) (λ _,
      and_then (record mo "tailnet.stopped" "succeeded" "tailnet node stopped" ∅) (λ _, Ret (join_errors errs)))
  end).

(** [auditListener.Accept]; [conn] is the answer of the listener: a connection and the
    address of its peer. *)
Definition Accept (mo : moment) (conn : res (nat * string)) : prog World (nat * string) :=
  match conn with
  | Err e => Ret (Err e)
  | Ok c =>
      and_then (record mo "tailnet.connection_accepted" "succeeded" "tailnet TCP connection accepted" {[ "remote_addr" := c.2 ]}) (λ _,
      Ret (Ok c))
  end.

End Service.
