(* ===== verification/TailnetTheorems.v ===== *)
(** * The tailnet node: proofs

    What the audit evidence can tell about the login URLs and the auth key, and the node's
    life cycle. *)

From Stdlib Require Import Ascii String.
From stdpp Require Import base tactics numbers list gmap strings pretty.
From S2P Require Import Prelude GoError GoStrings Sha256 GoPath FileSystem Interleave Tailnet.
Local Open Scope string_scope.
Local Open Scope Z_scope.
Local Open Scope list_scope.

(** ** Calls

    The calls of the Host and of the library's log callback, with the answers of the
    library. *)
Inductive call :=
| CallStart (mo mo' : moment) (started : option goerr)
| CallLog (mo : moment) (message : string)
| CallWaitReady (mo mo' : moment) (up : res (list string))
| CallListen (mo : moment) (ln : res nat)
| CallWhoIs (mo : moment) (lc : option goerr) (who : res WhoIsResponse) (remoteAddr : string)
| CallStatus
| CallClose (mo : moment) (lnErr : option (goerr * bool)) (srvErr : option goerr)
| CallAccept (mo : moment) (conn : res (nat * string)).

Section Calls.
Context {R : Type} {sink : AuditSink R} (proxyErr : option goerr).

(** The result is forgotten; the caller's use of it is not the service's. *)
Definition forget {A} (p : prog (Service * (R * FS)) A) : prog (Service * (R * FS)) unit := and_then p (λ _, Ret (Ok tt)).

Definition method (c : call) : prog (Service * (R * FS)) unit :=
  match c with
  | CallStart mo mo' started => forget (Start proxyErr mo mo' started)
  | CallLog mo message => forget (Logf mo message)
  | CallWaitReady mo mo' up => forget (WaitReady mo mo' up)
  | CallListen mo ln => forget (Listen mo ln)
  | CallWhoIs mo lc who addr => forget (WhoIs mo lc who addr)
  | CallStatus => forget GetStatus
  | CallClose mo lnErr srvErr => forget (Close mo lnErr srvErr)
  | CallAccept mo conn => forget (Accept mo conn)
  end.

(** ** Secrets

    Two services that differ in their auth key, in the login URLs they were given ([f]
    takes the one to the other) and in what they printed on the console. *)
Context (f : string → string).

Definition cfg_alike (c1 c2 : Config) : Prop :=
  tc_Hostname c1 = tc_Hostname c2 ∧ tc_StateDir c1 = tc_StateDir c2 ∧ tc_ListenAddr c1 = tc_ListenAddr c2.

Definition svc_alike (s1 s2 : Service) : Prop :=
  cfg_alike (ts_cfg s1) (ts_cfg s2) ∧ ts_audited s1 = ts_audited s2 ∧
  (is_Some (ts_srv s1) ↔ is_Some (ts_srv s2)) ∧ ts_state s1 = ts_state s2 ∧ ts_authURL s2 = f (ts_authURL s1) ∧
  ts_lastErr s1 = ts_lastErr s2 ∧ ts_status s1 = ts_status s2 ∧ ts_listener s1 = ts_listener s2.

(** The recorder and the files are the same. *)
Definition alike (w1 w2 : Service * (R * FS)) : Prop := svc_alike w1.1 w2.1 ∧ w1.2 = w2.2.

(** The same calls, but for the login URLs in the library's messages. *)
Inductive call_alike : call → call → Prop :=
| log_alike mo m1 m2 : FindAuthURL m2 = f (FindAuthURL m1) → call_alike (CallLog mo m1) (CallLog mo m2)
| same_call c : (∀ mo m, c ≠ CallLog mo m) → call_alike c c.

(** Alike services stay alike when the same fields are set. *)
Ltac alike_svc := unfold svc_alike in *; cbn in *; intuition (try done; try congruence; try (by eexists)).

Notation sim := (sim alike).

Lemma alike_state s1 s2 : svc_alike s1 s2 → ts_state s1 = ts_state s2.
Proof. intros (_&_&_&H&_). exact H. Qed.

Lemma alike_cfg s1 s2 : svc_alike s1 s2 → cfg_alike (ts_cfg s1) (ts_cfg s2).
Proof. intros (H&_). exact H. Qed.

(** A section on the service alone. *)
Lemma sim_locked {A B} (m1 m2 : M Service A) (k1 k2 : res A → prog (Service * (R * FS)) B) :
  (∀ s1 s2, svc_alike s1 s2 → svc_alike (m1 s1).1 (m2 s2).1 ∧ sim (k1 (m1 s1).2) (k2 (m2 s2).2)) →
  sim (and_then (locked m1) k1) (and_then (locked m2) k2).
Proof.
  intros H. apply sim_section. intros [s1 r1] [s2 r2] [Hs Hr]. cbn in Hs, Hr. subst r2. unfold svc, zoom. cbn [fst snd].
  destruct (H s1 s2 Hs) as [H1 H2]. destruct (m1 s1), (m2 s2). done.
Qed.

(** A section on the files or the recorder. *)
Lemma sim_outside {A B} (m : M (R * FS) A) (k1 k2 : res A → prog (Service * (R * FS)) B) :
  (∀ r, sim (k1 r) (k2 r)) → sim (and_then (atomic (sinks m)) k1) (and_then (atomic (sinks m)) k2).
Proof.
  intros H. apply sim_section. intros [s1 r1] [s2 r2] [Hs Hr]. cbn in Hs, Hr. subst r2. unfold sinks, zoom. cbn [fst snd].
  destruct (m r1) as [r' a]. split; [done|apply H].
Qed.

Lemma sim_files {A B} (m : M FS A) (k1 k2 : res A → prog (Service * (R * FS)) B) :
  (∀ r, sim (k1 r) (k2 r)) → sim (and_then (atomic (files m)) k1) (and_then (atomic (files m)) k2).
Proof.
  intros H. apply sim_section. intros [s1 [r1 x1]] [s2 r2] [Hs Hr]. cbn in Hs, Hr. subst r2. unfold files, zoom. cbn [fst snd].
  destruct (m x1) as [x' a]. split; [done|apply H].
Qed.

Lemma sim_record {B} mo op outcome message metadata (k1 k2 : res unit → prog (Service * (R * FS)) B) :
  (∀ r, sim (k1 r) (k2 r)) → sim (and_then (record mo op outcome message metadata) k1) (and_then (record mo op outcome message metadata) k2).
Proof.
  intros H. apply sim_section. intros [s1 r1] [s2 r2] [Hs Hr]. cbn in Hs, Hr. subst r2.
  unfold mbind, M_bind, svc, zoom, gets. cbn [fst snd]. rewrite <- (proj1 (proj2 Hs)). destruct (ts_audited s1); [|by split].
  unfold attempt, sinks, zoom. cbn [fst snd]. destruct (RecordTailnet _ _ r1) as [r' a]. by split.
Qed.

Lemma sim_fail {A} mo op e : sim (fail (A := A) mo op e) (fail mo op e).
Proof.
  apply sim_locked. intros s1 s2 H. split; [alike_svc|]. apply sim_record. intros _. constructor.
Qed.

Lemma sim_Start mo mo' started : sim (Start proxyErr mo mo' started) (Start proxyErr mo mo' started).
Proof.
  unfold Start. destruct proxyErr as [e|]; [apply sim_fail|]. apply sim_locked. intros s1 s2 H.
  unfold mbind, M_bind, gets, modify. rewrite <- (alike_state _ _ H). case_bool_decide; (split; [alike_svc|]); cbn [snd negb mret M_ret].
  { apply sim_locked. intros t1 t2 Ht. split; [done|]. cbn [gets snd]. rewrite (alike_state _ _ Ht). constructor. }
  apply sim_locked. intros t1 t2 Ht. split; [done|]. cbn [gets snd]. destruct (alike_cfg _ _ Ht) as (_&Hd&_). rewrite <- Hd.
  apply sim_files. intros [[]|e]; [|apply sim_fail]. apply sim_files. intros [[]|e]; [|apply sim_fail].
  apply sim_locked. intros u1 u2 Hu. split; [alike_svc|]. apply sim_record. intros _.
  destruct started; [apply sim_fail|constructor].
Qed.

Lemma sim_setAuthURL mo url : Inj (=) (=) f → sim (setAuthURL mo url) (setAuthURL mo (f url)).
Proof.
  intros Hf. apply sim_locked. intros s1 s2 H. split; [alike_svc|]. unfold mbind, M_bind, gets, modify, mret, M_ret. cbn [snd].
  assert (ts_authURL s2 = f (ts_authURL s1)) as -> by apply H.
  rewrite (bool_decide_ext (f (ts_authURL s1) ≠ f url) (ts_authURL s1 ≠ url)) by (split; intros Hne E; apply Hne; [by rewrite E|by apply (inj f)]).
  destruct (bool_decide _); cbn [negb]; [|constructor]. apply sim_locked. intros t1 t2 Ht. split; [alike_svc|].
  apply sim_locked. intros u1 u2 Hu. split; [unfold modify; cbn [fst]; repeat case_match; alike_svc|].
  apply (sim_record _ _ _ _ _ Ret Ret). constructor.
Qed.

Lemma sim_Logf mo m1 m2 : Inj (=) (=) f → f "" = "" → FindAuthURL m2 = f (FindAuthURL m1) → sim (Logf mo m1) (Logf mo m2).
Proof.
  intros Hf He Hm. apply sim_locked. intros s1 s2 H. split; [unfold modify; cbn [fst]; repeat case_match; alike_svc|].
  rewrite Hm. cbv zeta. assert (str_empty (f (FindAuthURL m1)) = str_empty (FindAuthURL m1)) as ->.
  { unfold str_empty. apply bool_decide_ext. split; [|by intros ->]. intros E. apply (inj f). by rewrite He. }
  destruct (str_empty _); [constructor|by apply sim_setAuthURL].
Qed.

Lemma sim_WaitReady mo mo' up : f "" = "" → sim (WaitReady mo mo' up) (WaitReady mo mo' up).
Proof.
  intros He. apply sim_locked. intros s1 s2 H. split; [done|]. cbn [snd gets].
  destruct H as (_&_&Hsrv&_). destruct (ts_srv s1), (ts_srv s2); [|by destruct Hsrv as [[? ?] _]; eauto|by destruct Hsrv as [_ [? ?]]; eauto|constructor].
  destruct up as [st|e]; [|apply sim_fail]. apply sim_locked. intros t1 t2 Ht. split; [alike_svc|].
  apply sim_record. intros _. apply sim_record. intros _. constructor.
Qed.

Lemma sim_Listen mo ln : sim (Listen mo ln) (Listen mo ln).
Proof.
  apply sim_locked. intros s1 s2 H. split; [done|]. unfold mbind, M_bind, gets, mret, M_ret. cbn [snd]. rewrite (alike_state _ _ H).
  destruct H as (_&_&Hsrv&_). destruct (ts_srv s1), (ts_srv s2); [|by destruct Hsrv as [[? ?] _]; eauto|by destruct Hsrv as [_ [? ?]]; eauto|constructor].
  cbn [orb]. case_bool_decide; [constructor|]. destruct ln as [ln|e]; [|apply sim_fail].
  apply sim_locked. intros t1 t2 Ht. split; [alike_svc|]. apply sim_locked. intros u1 u2 Hu. split; [done|]. cbn [snd gets compose].
  destruct (alike_cfg _ _ Hu) as (_&_&->). apply sim_record. intros _. constructor.
Qed.

Lemma sim_WhoIs mo lc who addr : sim (WhoIs mo lc who addr) (WhoIs mo lc who addr).
Proof.
  apply sim_locked. intros s1 s2 H. split; [done|]. cbn [snd gets]. cbv zeta.
  destruct H as (_&_&Hsrv&_). destruct (ts_srv s1), (ts_srv s2); [|by destruct Hsrv as [[? ?] _]; eauto|by destruct Hsrv as [_ [? ?]]; eauto|constructor].
  destruct lc as [e|]; [|destruct who as [who|e]]; apply sim_record; intros _; constructor.
Qed.

Lemma sim_Close mo lnErr srvErr : sim (Close mo lnErr srvErr) (Close mo lnErr srvErr).
Proof.
  apply sim_locked. intros s1 s2 H. unfold mbind, M_bind, gets, modify, id. rewrite <- (alike_state _ _ H).
  case_bool_decide; (split; [alike_svc|]); cbn [snd mret M_ret]; [constructor|].
  destruct H as (_&_&Hsrv&_&_&_&_&Hln). rewrite <- Hln.
  assert (match ts_srv s1, srvErr with Some _, Some e => [e] | _, _ => [] end = match ts_srv s2, srvErr with Some _, Some e => [e] | _, _ => [] end) as ->.
  { destruct (ts_srv s1), (ts_srv s2); [done|by destruct Hsrv as [[? ?] _]; eauto|by destruct Hsrv as [_ [? ?]]; eauto|done]. }
  apply sim_locked. intros t1 t2 Ht. split; [alike_svc|]. apply sim_record. intros _. constructor.
Qed.

Lemma sim_call c1 c2 : Inj (=) (=) f → f "" = "" → call_alike c1 c2 → sim (method c1) (method c2).
Proof.
  intros Hf He Hc. assert (∀ A (p1 p2 : prog (Service * (R * FS)) A), sim p1 p2 → sim (forget p1) (forget p2)) as Hfg.
  { intros A p1 p2 H. by apply sim_and_then; [|constructor]. }
  destruct Hc as [mo m1 m2 Hm|c Hc]; [by apply Hfg, sim_Logf|]. destruct c as [mo mo' st|mo m|mo mo' up|mo ln|mo lc who addr| |mo a b|mo conn].
  - apply Hfg, sim_Start.
  - by destruct (Hc mo m).
  - by apply Hfg, sim_WaitReady.
  - apply Hfg, sim_Listen.
  - apply Hfg, sim_WhoIs.
  - apply sim_locked. intros s1 s2 H. by split; [|constructor].
  - apply Hfg, sim_Close.
  - apply Hfg. unfold Accept. destruct conn as [c|e]; [|constructor]. apply sim_record. intros _. constructor.
Qed.

End Calls.

(** C29: The login URLs and the auth key do not reach the audit evidence.  Whatever the methods
    do, interleaved in any way with each other and with the library's log messages, the
    same calls on a service with another auth key, and with other login URLs in the
    messages (different ones for different ones), can run so that the recorder and all the
    files end up exactly the same, and the node in the same state.  What the library answers,
    errors included, is the same in both. *)
Theorem secrets_not_recorded R (sink : AuditSink R) proxyErr f w1 w2 calls1 calls2 w1' ps1'
    (Hf : Inj (=) (=) f) (He : f "" = "") (Hw : alike f w1 w2)
    (Hcalls : ∀ c1, calls1 c1 → ∃ c2, calls2 c2 ∧ call_alike f c1 c2)
    (Hrun : rtc (pool_step (λ p, ∃ c, calls1 c ∧ p = method proxyErr c) (λ _ _, False)) (w1, []) (w1', ps1')) :
  ∃ w2' ps2', rtc (pool_step (λ p, ∃ c, calls2 c ∧ p = method proxyErr c) (λ _ _, False)) (w2, []) (w2', ps2') ∧
    w2'.2 = w1'.2 ∧ ts_state w2'.1 = ts_state w1'.1.
Proof.
  edestruct (pool_simulation (alike f) (λ p, ∃ c, calls1 c ∧ p = method proxyErr c) (λ p, ∃ c, calls2 c ∧ p = method proxyErr c) w1 [] w2 [])
    as (w2'&ps2'&Hr&[Hs Hw']&_); [|done|constructor|exact Hrun|].
  - intros p (c1&Hc1&->). destruct (Hcalls c1 Hc1) as (c2&Hc2&Hc). exists (method proxyErr c2). split; [by exists c2|by eapply sim_call].
  - exists w2', ps2'. split; [exact Hr|]. split; [done|]. symmetry. by eapply alike_state.
Qed.

(** ** Host names *)

Lemma replace_runs_chars inside l : Forall (λ c, host_char c = true) (replace_runs inside l).
Proof.
  revert inside. induction l as [|c l IH]; intros inside; [constructor|]. cbn. destruct (host_char c) eqn:E; [by constructor|].
  destruct inside; [done|]. by constructor.
Qed.

Lemma drop_dashes_suffix l : ∃ k, drop_dashes l = drop k l.
Proof. induction l as [|c l [k IH]]; [by exists 0%nat|]. cbn. case_bool_decide; [by exists (S k)|by exists 0%nat]. Qed.

(** The default name of the node is made of lower-case letters, digits and dashes. *)
Lemma default_hostname_chars host : Forall (λ c, host_char c = true) (chars (DefaultHostname host)).
Proof.
  assert (Forall (λ c, host_char c = true) (chars "codex-remote") ∧ Forall (λ c, host_char c = true) (chars "codex-remote-")) as [H1 H2]
    by (split; by repeat constructor).
  unfold DefaultHostname. destruct host as [host|e]; [|done]. destruct (str_empty _); [done|].
  destruct (trim_dashes _) as [|c l] eqn:E; [done|]. rewrite chars_app, chars_of_chars. apply Forall_app. split; [done|]. rewrite <- E.
  unfold trim_dashes. destruct (drop_dashes_suffix (replace_runs false (chars (ToLower host)))) as [k ->].
  destruct (drop_dashes_suffix (rev (drop k (replace_runs false (chars (ToLower host)))))) as [k' ->].
  apply Forall_rev, Forall_drop, Forall_rev, Forall_drop, replace_runs_chars.
Qed.

(** ** Runs *)

Module TailnetDemo.

(** A sink that keeps the events. *)
#[export] Instance memory_sink : AuditSink (list AuditEvent) := λ _ e, modify (λ w, (w.1 ++ [e], w.2)).

Definition cfg (key : string) : Config := mkConfig "host" "/state" ":80" key false true.
Definition stopped (key : string) : Service := mkService (cfg key) true None StateStopped "" None None None [] [].
Definition fs0 : FS := mkFS ∅ [] [] 0.
Definition world (key : string) : Service * (list AuditEvent * FS) := (stopped key, ([], fs0)).
Definition mo : moment := (0, "").

Definition message (token : string) : string := "To authenticate, visit: https://login.tailscale.com/a/" +:+ token +:+ " now".
Definition url (token : string) : string := "https://login.tailscale.com/a/" +:+ token.

Lemma message_url : FindAuthURL (message "abc") = url "abc".
Proof. reflexivity. Qed.

(** Exchanges two URLs. *)
Definition other (u : string) : string :=
  if bool_decide (u = url "abc") then url "xyz" else if bool_decide (u = url "xyz") then url "abc" else u.

Lemma other_inj : Inj (=) (=) other.
Proof. intros a b. unfold other. repeat case_bool_decide; congruence. Qed.

Definition calls (token : string) (c : call) : Prop := c = CallLog mo (message token).

Definition step (token : string) := pool_step (λ p : prog (Service * (list AuditEvent * FS)) unit, ∃ c, calls token c ∧ p = method None c) (λ _ _, False).

(** The library asks for a login. *)
Lemma login_run : ∃ w ps, rtc (step "abc") (world "key1", []) (w, ps) ∧
  w.2.1 = [mkAuditEvent "tailnet.auth_required" "started" "tailnet authentication required; see host console" ∅].
Proof.
  do 2 eexists. split.
  - eapply rtc_l; [apply step_spawn; by eexists|]. do 5 (eapply rtc_l; [by apply (step_section _ _ _ _ 0)|]). apply rtc_refl.
  - vm_compute. reflexivity.
Qed.

Lemma secrets_not_recorded_witness : ∃ w ps, rtc (step "xyz") (world "key2", []) (w, ps) ∧
  w.2.1 = [mkAuditEvent "tailnet.auth_required" "started" "tailnet authentication required; see host console" ∅].
Proof.
  destruct login_run as (w&ps&Hr&E).
  destruct (secrets_not_recorded _ memory_sink None other (world "key1") (world "key2") (calls "abc") (calls "xyz") w ps) as (w2&ps2&Hr2&Hw&_).
  - exact other_inj.
  - reflexivity.
  - split; [|reflexivity]. split; [by split|]. split; [reflexivity|]. split; [split; by intros [? ?]|]. repeat split.
  - intros c ->. exists (CallLog mo (message "xyz")). split; [reflexivity|]. apply log_alike. vm_compute. reflexivity.
  - exact Hr.
  - exists w2, ps2. split; [exact Hr2|]. rewrite Hw. exact E.
Defined.

(** ** A late log message

    The node is started, comes up and is closed; a message of the library that still names
    a login URL is delivered after that.  The closed service is then waiting for a login,
    and cannot be started again. *)
Definition sequence : M (Service * (list AuditEvent * FS)) unit :=
  _ ← run (Start None mo mo None);
  _ ← run (WaitReady mo mo (Ok ["100.64.0.1"]));
  _ ← run (Close mo None None);
  _ ← run (Logf mo (message "abc"));
  run (Start None mo mo None).

Lemma late_message_blocks_start :
  (sequence (world "key1")).2 = Err (ErrText "tailnet cannot start from auth_required") ∧ ts_srv (sequence (world "key1")).1.1 = None.
Proof. split; vm_compute; reflexivity. Qed.

End TailnetDemo.
