(* ===== verification/Remote.v ===== *)
(** * Protocol messages of the Host (package remotev1)

    The Host exchanges the messages of the pinned protocol module
    [codex-remote-protocol v1.2.0].  The generated Go code of that module is not
    part of the repository; the records below carry the fields that the Host
    sources read or write, under the field names the sources use, and nothing
    else.  A pointer field that the code tests against [nil] is an [option]; a
    oneof is an inductive type; a [map[string]string] is a [gmap].

    ProtoJSON encoding ([google.golang.org/protobuf]) is a parameter, the class
    [ProtoJSON], with the documented facts the Host relies on in [ProtoJSONLaws]. *)

From stdpp Require Import base tactics numbers list gmap strings.
From S2P Require Import Prelude GoError.

(** ** Enumerations *)

(** How a Codex came to the Host. *)
Inductive CodexOrigin :=
| CODEX_ORIGIN_UNSPECIFIED
| CODEX_ORIGIN_REMOTE_CREATED
| CODEX_ORIGIN_LOCAL_EXISTING.

#[export] Instance CodexOrigin_eq_dec : EqDecision CodexOrigin.
Proof. solve_decision. Defined.

(** Runtime status, orthogonal to the management state. *)
Inductive CodexStatus :=
| CODEX_STATUS_UNSPECIFIED
| CODEX_STATUS_IDLE
| CODEX_STATUS_RUNNING
| CODEX_STATUS_WAITING_FOR_APPROVAL
| CODEX_STATUS_WAITING_FOR_USER_INPUT
| CODEX_STATUS_INTERRUPTING
| CODEX_STATUS_UNAVAILABLE
| CODEX_STATUS_ERROR.

#[export] Instance CodexStatus_eq_dec : EqDecision CodexStatus.
Proof. solve_decision. Defined.

(** Management lease state. *)
Inductive ManagementState :=
| MANAGEMENT_STATE_UNSPECIFIED
| MANAGEMENT_STATE_MANAGED
| MANAGEMENT_STATE_EXPIRING_SOON
| MANAGEMENT_STATE_UNMANAGED.

#[export] Instance ManagementState_eq_dec : EqDecision ManagementState.
Proof. solve_decision. Defined.

(** Status of a turn. *)
Inductive TurnStatus :=
| TURN_STATUS_UNSPECIFIED
| TURN_STATUS_RUNNING
| TURN_STATUS_COMPLETED
| TURN_STATUS_FAILED
| TURN_STATUS_INTERRUPTED.

#[export] Instance TurnStatus_eq_dec : EqDecision TurnStatus.
Proof. solve_decision. Defined.

(** Status of an item. *)
Inductive ItemStatus :=
| ITEM_STATUS_UNSPECIFIED
| ITEM_STATUS_RUNNING
| ITEM_STATUS_COMPLETED
| ITEM_STATUS_FAILED
| ITEM_STATUS_CANCELLED.

#[export] Instance ItemStatus_eq_dec : EqDecision ItemStatus.
Proof. solve_decision. Defined.

(** Warning reasons the Host emits. *)
Inductive WarningCode :=
| WARNING_CODE_UNSPECIFIED
| WARNING_CODE_HISTORY_IMPORT_INCOMPLETE
| WARNING_CODE_MANAGEMENT_EXPIRING_SOON.

#[export] Instance WarningCode_eq_dec : EqDecision WarningCode.
Proof. solve_decision. Defined.

(** A client's answer to an approval. *)
Inductive ApprovalDecision :=
| APPROVAL_DECISION_UNSPECIFIED
| APPROVAL_DECISION_ALLOW
| APPROVAL_DECISION_ALLOW_FOR_SESSION
| APPROVAL_DECISION_DENY.

#[export] Instance ApprovalDecision_eq_dec : EqDecision ApprovalDecision.
Proof. solve_decision. Defined.

(** Status of an approval. *)
Inductive ApprovalStatus :=
| APPROVAL_STATUS_UNSPECIFIED
| APPROVAL_STATUS_PENDING
| APPROVAL_STATUS_ALLOWED
| APPROVAL_STATUS_DENIED.

#[export] Instance ApprovalStatus_eq_dec : EqDecision ApprovalStatus.
Proof. solve_decision. Defined.

(** Where an item was observed. *)
Inductive ProvenanceKind :=
| PROVENANCE_KIND_UNSPECIFIED
| PROVENANCE_KIND_LIVE_WIRE
| PROVENANCE_KIND_IMPORTED_HISTORY.

#[export] Instance ProvenanceKind_eq_dec : EqDecision ProvenanceKind.
Proof. solve_decision. Defined.

(** Kind of a file change. *)
Inductive FileChangeKind :=
| FILE_CHANGE_KIND_UNSPECIFIED
| FILE_CHANGE_KIND_ADDED
| FILE_CHANGE_KIND_DELETED
| FILE_CHANGE_KIND_MODIFIED
| FILE_CHANGE_KIND_RENAMED.

#[export] Instance FileChangeKind_eq_dec : EqDecision FileChangeKind.
Proof. solve_decision. Defined.

(** Stream of a command output delta. *)
Inductive OutputStream :=
| OUTPUT_STREAM_UNSPECIFIED
| OUTPUT_STREAM_STDOUT
| OUTPUT_STREAM_STDERR
| OUTPUT_STREAM_COMBINED.

#[export] Instance OutputStream_eq_dec : EqDecision OutputStream.
Proof. solve_decision. Defined.

(** Whether workspace mutations are admitted. *)
Inductive WorkspaceMutationStatus :=
| WORKSPACE_MUTATION_STATUS_UNSPECIFIED
| WORKSPACE_MUTATION_STATUS_ALLOWED
| WORKSPACE_MUTATION_STATUS_BUSY.

#[export] Instance WorkspaceMutationStatus_eq_dec : EqDecision WorkspaceMutationStatus.
Proof. solve_decision. Defined.

(** Outcome of WatchCodex. *)
Inductive WatchMode :=
| WATCH_MODE_UNSPECIFIED
| WATCH_MODE_RESUMED
| WATCH_MODE_RESET.

#[export] Instance WatchMode_eq_dec : EqDecision WatchMode.
Proof. solve_decision. Defined.

(** Why a watch was reset. *)
Inductive WatchResetReason :=
| WATCH_RESET_REASON_UNSPECIFIED
| WATCH_RESET_REASON_INITIAL_WATCH
| WATCH_RESET_REASON_CURSOR_UNAVAILABLE
| WATCH_RESET_REASON_CURSOR_INVALID
| WATCH_RESET_REASON_HOST_RESTARTED.

#[export] Instance WatchResetReason_eq_dec : EqDecision WatchResetReason.
Proof. solve_decision. Defined.

(** ** Messages *)

(** Completeness marker; OriginalSizeBytes is a uint64. *)
Record Completeness := mkCompleteness {
  comp_Truncated : bool;
  comp_Incomplete : bool;
  comp_OriginalSizeBytes : Z;
  comp_Reason : string;
}.

#[export] Instance Completeness_eq_dec : EqDecision Completeness.
Proof. solve_decision. Defined.

Definition set_comp_Truncated (x : bool) (r : Completeness) : Completeness :=
  mkCompleteness x (comp_Incomplete r) (comp_OriginalSizeBytes r) (comp_Reason r).

Definition set_comp_Incomplete (x : bool) (r : Completeness) : Completeness :=
  mkCompleteness (comp_Truncated r) x (comp_OriginalSizeBytes r) (comp_Reason r).

Definition set_comp_OriginalSizeBytes (x : Z) (r : Completeness) : Completeness :=
  mkCompleteness (comp_Truncated r) (comp_Incomplete r) x (comp_Reason r).

Definition set_comp_Reason (x : string) (r : Completeness) : Completeness :=
  mkCompleteness (comp_Truncated r) (comp_Incomplete r) (comp_OriginalSizeBytes r) x.

(** A warning attached to a Codex or raised as an event. *)
Record Warning := mkWarning {
  warn_Code : WarningCode;
  warn_Message : string;
  warn_ManagedUntilUnixMs : Z;
  warn_Metadata : gmap string string;
}.

#[export] Instance Warning_eq_dec : EqDecision Warning.
Proof. solve_decision. Defined.

Definition set_warn_Code (x : WarningCode) (r : Warning) : Warning :=
  mkWarning x (warn_Message r) (warn_ManagedUntilUnixMs r) (warn_Metadata r).

Definition set_warn_Message (x : string) (r : Warning) : Warning :=
  mkWarning (warn_Code r) x (warn_ManagedUntilUnixMs r) (warn_Metadata r).

Definition set_warn_ManagedUntilUnixMs (x : Z) (r : Warning) : Warning :=
  mkWarning (warn_Code r) (warn_Message r) x (warn_Metadata r).

Definition set_warn_Metadata (x : gmap string string) (r : Warning) : Warning :=
  mkWarning (warn_Code r) (warn_Message r) (warn_ManagedUntilUnixMs r) x.

(** A managed Codex. *)
Record Codex := mkCodex {
  cdx_CodexId : string;
  cdx_ThreadId : string;
  cdx_Cwd : string;
  cdx_Title : string;
  cdx_Origin : CodexOrigin;
  cdx_Status : CodexStatus;
  cdx_ActiveTurnId : string;
  cdx_ManagementState : ManagementState;
  cdx_ManagedUntilUnixMs : Z;
  cdx_CreatedAtUnixMs : Z;
  cdx_ImportedAtUnixMs : Z;
  cdx_LastActivityAtUnixMs : Z;
  cdx_Warnings : list Warning;
}.

#[export] Instance Codex_eq_dec : EqDecision Codex.
Proof. solve_decision. Defined.

Definition set_cdx_CodexId (x : string) (r : Codex) : Codex :=
  mkCodex x (cdx_ThreadId r) (cdx_Cwd r) (cdx_Title r) (cdx_Origin r) (cdx_Status r)
    (cdx_ActiveTurnId r) (cdx_ManagementState r) (cdx_ManagedUntilUnixMs r) (cdx_CreatedAtUnixMs r)
    (cdx_ImportedAtUnixMs r) (cdx_LastActivityAtUnixMs r) (cdx_Warnings r).

Definition set_cdx_ThreadId (x : string) (r : Codex) : Codex :=
  mkCodex (cdx_CodexId r) x (cdx_Cwd r) (cdx_Title r) (cdx_Origin r) (cdx_Status r)
    (cdx_ActiveTurnId r) (cdx_ManagementState r) (cdx_ManagedUntilUnixMs r) (cdx_CreatedAtUnixMs r)
    (cdx_ImportedAtUnixMs r) (cdx_LastActivityAtUnixMs r) (cdx_Warnings r).

Definition set_cdx_Cwd (x : string) (r : Codex) : Codex :=
  mkCodex (cdx_CodexId r) (cdx_ThreadId r) x (cdx_Title r) (cdx_Origin r) (cdx_Status r)
    (cdx_ActiveTurnId r) (cdx_ManagementState r) (cdx_ManagedUntilUnixMs r) (cdx_CreatedAtUnixMs r)
    (cdx_ImportedAtUnixMs r) (cdx_LastActivityAtUnixMs r) (cdx_Warnings r).

Definition set_cdx_Title (x : string) (r : Codex) : Codex :=
  mkCodex (cdx_CodexId r) (cdx_ThreadId r) (cdx_Cwd r) x (cdx_Origin r) (cdx_Status r)
    (cdx_ActiveTurnId r) (cdx_ManagementState r) (cdx_ManagedUntilUnixMs r) (cdx_CreatedAtUnixMs r)
    (cdx_ImportedAtUnixMs r) (cdx_LastActivityAtUnixMs r) (cdx_Warnings r).

Definition set_cdx_Origin (x : CodexOrigin) (r : Codex) : Codex :=
  mkCodex (cdx_CodexId r) (cdx_ThreadId r) (cdx_Cwd r) (cdx_Title r) x (cdx_Status r)
    (cdx_ActiveTurnId r) (cdx_ManagementState r) (cdx_ManagedUntilUnixMs r) (cdx_CreatedAtUnixMs r)
    (cdx_ImportedAtUnixMs r) (cdx_LastActivityAtUnixMs r) (cdx_Warnings r).

Definition set_cdx_Status (x : CodexStatus) (r : Codex) : Codex :=
  mkCodex (cdx_CodexId r) (cdx_ThreadId r) (cdx_Cwd r) (cdx_Title r) (cdx_Origin r) x
    (cdx_ActiveTurnId r) (cdx_ManagementState r) (cdx_ManagedUntilUnixMs r) (cdx_CreatedAtUnixMs r)
    (cdx_ImportedAtUnixMs r) (cdx_LastActivityAtUnixMs r) (cdx_Warnings r).

Definition set_cdx_ActiveTurnId (x : string) (r : Codex) : Codex :=
  mkCodex (cdx_CodexId r) (cdx_ThreadId r) (cdx_Cwd r) (cdx_Title r) (cdx_Origin r) (cdx_Status r) x
    (cdx_ManagementState r) (cdx_ManagedUntilUnixMs r) (cdx_CreatedAtUnixMs r)
    (cdx_ImportedAtUnixMs r) (cdx_LastActivityAtUnixMs r) (cdx_Warnings r).

Definition set_cdx_ManagementState (x : ManagementState) (r : Codex) : Codex :=
  mkCodex (cdx_CodexId r) (cdx_ThreadId r) (cdx_Cwd r) (cdx_Title r) (cdx_Origin r) (cdx_Status r)
    (cdx_ActiveTurnId r) x (cdx_ManagedUntilUnixMs r) (cdx_CreatedAtUnixMs r)
    (cdx_ImportedAtUnixMs r) (cdx_LastActivityAtUnixMs r) (cdx_Warnings r).

Definition set_cdx_ManagedUntilUnixMs (x : Z) (r : Codex) : Codex :=
  mkCodex (cdx_CodexId r) (cdx_ThreadId r) (cdx_Cwd r) (cdx_Title r) (cdx_Origin r) (cdx_Status r)
    (cdx_ActiveTurnId r) (cdx_ManagementState r) x (cdx_CreatedAtUnixMs r) (cdx_ImportedAtUnixMs r)
    (cdx_LastActivityAtUnixMs r) (cdx_Warnings r).

Definition set_cdx_CreatedAtUnixMs (x : Z) (r : Codex) : Codex :=
  mkCodex (cdx_CodexId r) (cdx_ThreadId r) (cdx_Cwd r) (cdx_Title r) (cdx_Origin r) (cdx_Status r)
    (cdx_ActiveTurnId r) (cdx_ManagementState r) (cdx_ManagedUntilUnixMs r) x
    (cdx_ImportedAtUnixMs r) (cdx_LastActivityAtUnixMs r) (cdx_Warnings r).

Definition set_cdx_ImportedAtUnixMs (x : Z) (r : Codex) : Codex :=
  mkCodex (cdx_CodexId r) (cdx_ThreadId r) (cdx_Cwd r) (cdx_Title r) (cdx_Origin r) (cdx_Status r)
    (cdx_ActiveTurnId r) (cdx_ManagementState r) (cdx_ManagedUntilUnixMs r) (cdx_CreatedAtUnixMs r) x
    (cdx_LastActivityAtUnixMs r) (cdx_Warnings r).

Definition set_cdx_LastActivityAtUnixMs (x : Z) (r : Codex) : Codex :=
  mkCodex (cdx_CodexId r) (cdx_ThreadId r) (cdx_Cwd r) (cdx_Title r) (cdx_Origin r) (cdx_Status r)
    (cdx_ActiveTurnId r) (cdx_ManagementState r) (cdx_ManagedUntilUnixMs r) (cdx_CreatedAtUnixMs r)
    (cdx_ImportedAtUnixMs r) x (cdx_Warnings r).

Definition set_cdx_Warnings (x : list Warning) (r : Codex) : Codex :=
  mkCodex (cdx_CodexId r) (cdx_ThreadId r) (cdx_Cwd r) (cdx_Title r) (cdx_Origin r) (cdx_Status r)
    (cdx_ActiveTurnId r) (cdx_ManagementState r) (cdx_ManagedUntilUnixMs r) (cdx_CreatedAtUnixMs r)
    (cdx_ImportedAtUnixMs r) (cdx_LastActivityAtUnixMs r) x.

(** Immutable image descriptor. *)
Record ImageAttachment := mkImageAttachment {
  img_AttachmentId : string;
  img_Filename : string;
  img_MimeType : string;
  img_SizeBytes : Z;
  img_Sha256 : string;
  img_WidthPixels : option Z;
  img_HeightPixels : option Z;
}.

#[export] Instance ImageAttachment_eq_dec : EqDecision ImageAttachment.
Proof. solve_decision. Defined.

(** One part of a user message; [PartNone] is the unset oneof. *)
Inductive UserMessagePart :=
| PartText (text : string)
| PartImage (image : ImageAttachment)
| PartNone.

#[export] Instance UserMessagePart_eq_dec : EqDecision UserMessagePart.
Proof. solve_decision. Defined.

(** A plan step. *)
Record PlanStep := mkPlanStep {
  step_Text : string;
  step_Status : string;
}.

#[export] Instance PlanStep_eq_dec : EqDecision PlanStep.
Proof. solve_decision. Defined.

Definition set_step_Text (x : string) (r : PlanStep) : PlanStep :=
  mkPlanStep x (step_Status r).

Definition set_step_Status (x : string) (r : PlanStep) : PlanStep :=
  mkPlanStep (step_Text r) x.

(** A changed file. *)
Record FileChange := mkFileChange {
  fc_Path : string;
  fc_OldPath : string;
  fc_NewPath : string;
  fc_Kind : FileChangeKind;
}.

#[export] Instance FileChange_eq_dec : EqDecision FileChange.
Proof. solve_decision. Defined.

Definition set_fc_Path (x : string) (r : FileChange) : FileChange :=
  mkFileChange x (fc_OldPath r) (fc_NewPath r) (fc_Kind r).

Definition set_fc_OldPath (x : string) (r : FileChange) : FileChange :=
  mkFileChange (fc_Path r) x (fc_NewPath r) (fc_Kind r).

Definition set_fc_NewPath (x : string) (r : FileChange) : FileChange :=
  mkFileChange (fc_Path r) (fc_OldPath r) x (fc_Kind r).

Definition set_fc_Kind (x : FileChangeKind) (r : FileChange) : FileChange :=
  mkFileChange (fc_Path r) (fc_OldPath r) (fc_NewPath r) x.

(** A command execution item. *)
Record CommandItem := mkCommandItem {
  cmd_Argv : list string;
  cmd_Cwd : string;
  cmd_Output : string;
  cmd_ExitCode : Z;
  cmd_HasExitCode : bool;
}.

#[export] Instance CommandItem_eq_dec : EqDecision CommandItem.
Proof. solve_decision. Defined.

Definition set_cmd_Argv (x : list string) (r : CommandItem) : CommandItem :=
  mkCommandItem x (cmd_Cwd r) (cmd_Output r) (cmd_ExitCode r) (cmd_HasExitCode r).

Definition set_cmd_Cwd (x : string) (r : CommandItem) : CommandItem :=
  mkCommandItem (cmd_Argv r) x (cmd_Output r) (cmd_ExitCode r) (cmd_HasExitCode r).

Definition set_cmd_Output (x : string) (r : CommandItem) : CommandItem :=
  mkCommandItem (cmd_Argv r) (cmd_Cwd r) x (cmd_ExitCode r) (cmd_HasExitCode r).

Definition set_cmd_ExitCode (x : Z) (r : CommandItem) : CommandItem :=
  mkCommandItem (cmd_Argv r) (cmd_Cwd r) (cmd_Output r) x (cmd_HasExitCode r).

Definition set_cmd_HasExitCode (x : bool) (r : CommandItem) : CommandItem :=
  mkCommandItem (cmd_Argv r) (cmd_Cwd r) (cmd_Output r) (cmd_ExitCode r) x.

(** A tool call item. *)
Record ToolItem := mkToolItem {
  tool_ToolName : string;
  tool_Summary : string;
  tool_ResultSummary : string;
}.

#[export] Instance ToolItem_eq_dec : EqDecision ToolItem.
Proof. solve_decision. Defined.

Definition set_tool_ToolName (x : string) (r : ToolItem) : ToolItem :=
  mkToolItem x (tool_Summary r) (tool_ResultSummary r).

Definition set_tool_Summary (x : string) (r : ToolItem) : ToolItem :=
  mkToolItem (tool_ToolName r) x (tool_ResultSummary r).

Definition set_tool_ResultSummary (x : string) (r : ToolItem) : ToolItem :=
  mkToolItem (tool_ToolName r) (tool_Summary r) x.

(** A file change item. *)
Record FileChangeItem := mkFileChangeItem {
  fci_UnifiedDiff : string;
  fci_Changes : list FileChange;
}.

#[export] Instance FileChangeItem_eq_dec : EqDecision FileChangeItem.
Proof. solve_decision. Defined.

Definition set_fci_UnifiedDiff (x : string) (r : FileChangeItem) : FileChangeItem :=
  mkFileChangeItem x (fci_Changes r).

Definition set_fci_Changes (x : list FileChange) (r : FileChangeItem) : FileChangeItem :=
  mkFileChangeItem (fci_UnifiedDiff r) x.

(** The content oneof of an item. *)
Inductive ItemContent :=
| Item_UserMessage (parts : list UserMessagePart)
| Item_AgentMessage (text : string)
| Item_ReasoningSummary (text : string)
| Item_Plan (steps : list PlanStep)
| Item_Command (command : CommandItem)
| Item_Tool (tool : ToolItem)
| Item_FileChange (change : FileChangeItem).

#[export] Instance ItemContent_eq_dec : EqDecision ItemContent.
Proof. solve_decision. Defined.

(** An item of a turn. *)
Record Item := mkItem {
  item_ItemId : string;
  item_TurnId : string;
  item_Status : ItemStatus;
  item_Content : option ItemContent;
  item_Completeness : option Completeness;
  item_Provenance : ProvenanceKind;
}.

#[export] Instance Item_eq_dec : EqDecision Item.
Proof. solve_decision. Defined.

Definition set_item_ItemId (x : string) (r : Item) : Item :=
  mkItem x (item_TurnId r) (item_Status r) (item_Content r) (item_Completeness r) (item_Provenance r).

Definition set_item_TurnId (x : string) (r : Item) : Item :=
  mkItem (item_ItemId r) x (item_Status r) (item_Content r) (item_Completeness r) (item_Provenance r).

Definition set_item_Status (x : ItemStatus) (r : Item) : Item :=
  mkItem (item_ItemId r) (item_TurnId r) x (item_Content r) (item_Completeness r) (item_Provenance r).

Definition set_item_Content (x : option ItemContent) (r : Item) : Item :=
  mkItem (item_ItemId r) (item_TurnId r) (item_Status r) x (item_Completeness r) (item_Provenance r).

Definition set_item_Completeness (x : option Completeness) (r : Item) : Item :=
  mkItem (item_ItemId r) (item_TurnId r) (item_Status r) (item_Content r) x (item_Provenance r).

Definition set_item_Provenance (x : ProvenanceKind) (r : Item) : Item :=
  mkItem (item_ItemId r) (item_TurnId r) (item_Status r) (item_Content r) (item_Completeness r) x.

(** A turn with its items. *)
Record TurnSnapshot := mkTurnSnapshot {
  turn_TurnId : string;
  turn_Status : TurnStatus;
  turn_StartedAtUnixMs : Z;
  turn_CompletedAtUnixMs : Z;
  turn_Items : list Item;
  turn_Failure : option Error;
  turn_Completeness : option Completeness;
  turn_Provenance : ProvenanceKind;
}.

#[export] Instance TurnSnapshot_eq_dec : EqDecision TurnSnapshot.
Proof. solve_decision. Defined.

Definition set_turn_TurnId (x : string) (r : TurnSnapshot) : TurnSnapshot :=
  mkTurnSnapshot x (turn_Status r) (turn_StartedAtUnixMs r) (turn_CompletedAtUnixMs r) (turn_Items r)
    (turn_Failure r) (turn_Completeness r) (turn_Provenance r).

Definition set_turn_Status (x : TurnStatus) (r : TurnSnapshot) : TurnSnapshot :=
  mkTurnSnapshot (turn_TurnId r) x (turn_StartedAtUnixMs r) (turn_CompletedAtUnixMs r) (turn_Items r)
    (turn_Failure r) (turn_Completeness r) (turn_Provenance r).

Definition set_turn_StartedAtUnixMs (x : Z) (r : TurnSnapshot) : TurnSnapshot :=
  mkTurnSnapshot (turn_TurnId r) (turn_Status r) x (turn_CompletedAtUnixMs r) (turn_Items r)
    (turn_Failure r) (turn_Completeness r) (turn_Provenance r).

Definition set_turn_CompletedAtUnixMs (x : Z) (r : TurnSnapshot) : TurnSnapshot :=
  mkTurnSnapshot (turn_TurnId r) (turn_Status r) (turn_StartedAtUnixMs r) x (turn_Items r)
    (turn_Failure r) (turn_Completeness r) (turn_Provenance r).

Definition set_turn_Items (x : list Item) (r : TurnSnapshot) : TurnSnapshot :=
  mkTurnSnapshot (turn_TurnId r) (turn_Status r) (turn_StartedAtUnixMs r) (turn_CompletedAtUnixMs r)
    x (turn_Failure r) (turn_Completeness r) (turn_Provenance r).

Definition set_turn_Failure (x : option Error) (r : TurnSnapshot) : TurnSnapshot :=
  mkTurnSnapshot (turn_TurnId r) (turn_Status r) (turn_StartedAtUnixMs r) (turn_CompletedAtUnixMs r)
    (turn_Items r) x (turn_Completeness r) (turn_Provenance r).

Definition set_turn_Completeness (x : option Completeness) (r : TurnSnapshot) : TurnSnapshot :=
  mkTurnSnapshot (turn_TurnId r) (turn_Status r) (turn_StartedAtUnixMs r) (turn_CompletedAtUnixMs r)
    (turn_Items r) (turn_Failure r) x (turn_Provenance r).

Definition set_turn_Provenance (x : ProvenanceKind) (r : TurnSnapshot) : TurnSnapshot :=
  mkTurnSnapshot (turn_TurnId r) (turn_Status r) (turn_StartedAtUnixMs r) (turn_CompletedAtUnixMs r)
    (turn_Items r) (turn_Failure r) (turn_Completeness r) x.

(** An approval request. *)
Record Approval := mkApproval {
  apr_ApprovalId : string;
  apr_TurnId : string;
  apr_ItemId : string;
  apr_Kind : string;
  apr_Status : ApprovalStatus;
  apr_Title : string;
  apr_Explanation : string;
  apr_Command : list string;
  apr_AllowedDecisions : list ApprovalDecision;
  apr_ResolvedDecision : ApprovalDecision;
  apr_CreatedAtUnixMs : Z;
  apr_ResolvedAtUnixMs : Z;
}.

#[export] Instance Approval_eq_dec : EqDecision Approval.
Proof. solve_decision. Defined.

Definition set_apr_ApprovalId (x : string) (r : Approval) : Approval :=
  mkApproval x (apr_TurnId r) (apr_ItemId r) (apr_Kind r) (apr_Status r) (apr_Title r)
    (apr_Explanation r) (apr_Command r) (apr_AllowedDecisions r) (apr_ResolvedDecision r)
    (apr_CreatedAtUnixMs r) (apr_ResolvedAtUnixMs r).

Definition set_apr_TurnId (x : string) (r : Approval) : Approval :=
  mkApproval (apr_ApprovalId r) x (apr_ItemId r) (apr_Kind r) (apr_Status r) (apr_Title r)
    (apr_Explanation r) (apr_Command r) (apr_AllowedDecisions r) (apr_ResolvedDecision r)
    (apr_CreatedAtUnixMs r) (apr_ResolvedAtUnixMs r).

Definition set_apr_ItemId (x : string) (r : Approval) : Approval :=
  mkApproval (apr_ApprovalId r) (apr_TurnId r) x (apr_Kind r) (apr_Status r) (apr_Title r)
    (apr_Explanation r) (apr_Command r) (apr_AllowedDecisions r) (apr_ResolvedDecision r)
    (apr_CreatedAtUnixMs r) (apr_ResolvedAtUnixMs r).

Definition set_apr_Kind (x : string) (r : Approval) : Approval :=
  mkApproval (apr_ApprovalId r) (apr_TurnId r) (apr_ItemId r) x (apr_Status r) (apr_Title r)
    (apr_Explanation r) (apr_Command r) (apr_AllowedDecisions r) (apr_ResolvedDecision r)
    (apr_CreatedAtUnixMs r) (apr_ResolvedAtUnixMs r).

Definition set_apr_Status (x : ApprovalStatus) (r : Approval) : Approval :=
  mkApproval (apr_ApprovalId r) (apr_TurnId r) (apr_ItemId r) (apr_Kind r) x (apr_Title r)
    (apr_Explanation r) (apr_Command r) (apr_AllowedDecisions r) (apr_ResolvedDecision r)
    (apr_CreatedAtUnixMs r) (apr_ResolvedAtUnixMs r).

Definition set_apr_Title (x : string) (r : Approval) : Approval :=
  mkApproval (apr_ApprovalId r) (apr_TurnId r) (apr_ItemId r) (apr_Kind r) (apr_Status r) x
    (apr_Explanation r) (apr_Command r) (apr_AllowedDecisions r) (apr_ResolvedDecision r)
    (apr_CreatedAtUnixMs r) (apr_ResolvedAtUnixMs r).

Definition set_apr_Explanation (x : string) (r : Approval) : Approval :=
  mkApproval (apr_ApprovalId r) (apr_TurnId r) (apr_ItemId r) (apr_Kind r) (apr_Status r)
    (apr_Title r) x (apr_Command r) (apr_AllowedDecisions r) (apr_ResolvedDecision r)
    (apr_CreatedAtUnixMs r) (apr_ResolvedAtUnixMs r).

Definition set_apr_Command (x : list string) (r : Approval) : Approval :=
  mkApproval (apr_ApprovalId r) (apr_TurnId r) (apr_ItemId r) (apr_Kind r) (apr_Status r)
    (apr_Title r) (apr_Explanation r) x (apr_AllowedDecisions r) (apr_ResolvedDecision r)
    (apr_CreatedAtUnixMs r) (apr_ResolvedAtUnixMs r).

Definition set_apr_AllowedDecisions (x : list ApprovalDecision) (r : Approval) : Approval :=
  mkApproval (apr_ApprovalId r) (apr_TurnId r) (apr_ItemId r) (apr_Kind r) (apr_Status r)
    (apr_Title r) (apr_Explanation r) (apr_Command r) x (apr_ResolvedDecision r)
    (apr_CreatedAtUnixMs r) (apr_ResolvedAtUnixMs r).

Definition set_apr_ResolvedDecision (x : ApprovalDecision) (r : Approval) : Approval :=
  mkApproval (apr_ApprovalId r) (apr_TurnId r) (apr_ItemId r) (apr_Kind r) (apr_Status r)
    (apr_Title r) (apr_Explanation r) (apr_Command r) (apr_AllowedDecisions r) x
    (apr_CreatedAtUnixMs r) (apr_ResolvedAtUnixMs r).

Definition set_apr_CreatedAtUnixMs (x : Z) (r : Approval) : Approval :=
  mkApproval (apr_ApprovalId r) (apr_TurnId r) (apr_ItemId r) (apr_Kind r) (apr_Status r)
    (apr_Title r) (apr_Explanation r) (apr_Command r) (apr_AllowedDecisions r)
    (apr_ResolvedDecision r) x (apr_ResolvedAtUnixMs r).

Definition set_apr_ResolvedAtUnixMs (x : Z) (r : Approval) : Approval :=
  mkApproval (apr_ApprovalId r) (apr_TurnId r) (apr_ItemId r) (apr_Kind r) (apr_Status r)
    (apr_Title r) (apr_Explanation r) (apr_Command r) (apr_AllowedDecisions r)
    (apr_ResolvedDecision r) (apr_CreatedAtUnixMs r) x.

(** An option of a question. *)
Record UserInputOption := mkUserInputOption {
  opt_OptionId : string;
  opt_Label : string;
  opt_Description : string;
}.

#[export] Instance UserInputOption_eq_dec : EqDecision UserInputOption.
Proof. solve_decision. Defined.

Definition set_opt_OptionId (x : string) (r : UserInputOption) : UserInputOption :=
  mkUserInputOption x (opt_Label r) (opt_Description r).

Definition set_opt_Label (x : string) (r : UserInputOption) : UserInputOption :=
  mkUserInputOption (opt_OptionId r) x (opt_Description r).

Definition set_opt_Description (x : string) (r : UserInputOption) : UserInputOption :=
  mkUserInputOption (opt_OptionId r) (opt_Label r) x.

(** A structured question. *)
Record UserInputQuestion := mkUserInputQuestion {
  qst_QuestionId : string;
  qst_Header : string;
  qst_Prompt : string;
  qst_AllowsMultiple : bool;
  qst_AllowsFreeForm : bool;
  qst_Options : list UserInputOption;
}.

#[export] Instance UserInputQuestion_eq_dec : EqDecision UserInputQuestion.
Proof. solve_decision. Defined.

Definition set_qst_QuestionId (x : string) (r : UserInputQuestion) : UserInputQuestion :=
  mkUserInputQuestion x (qst_Header r) (qst_Prompt r) (qst_AllowsMultiple r) (qst_AllowsFreeForm r)
    (qst_Options r).

Definition set_qst_Header (x : string) (r : UserInputQuestion) : UserInputQuestion :=
  mkUserInputQuestion (qst_QuestionId r) x (qst_Prompt r) (qst_AllowsMultiple r)
    (qst_AllowsFreeForm r) (qst_Options r).

Definition set_qst_Prompt (x : string) (r : UserInputQuestion) : UserInputQuestion :=
  mkUserInputQuestion (qst_QuestionId r) (qst_Header r) x (qst_AllowsMultiple r)
    (qst_AllowsFreeForm r) (qst_Options r).

Definition set_qst_AllowsMultiple (x : bool) (r : UserInputQuestion) : UserInputQuestion :=
  mkUserInputQuestion (qst_QuestionId r) (qst_Header r) (qst_Prompt r) x (qst_AllowsFreeForm r)
    (qst_Options r).

Definition set_qst_AllowsFreeForm (x : bool) (r : UserInputQuestion) : UserInputQuestion :=
  mkUserInputQuestion (qst_QuestionId r) (qst_Header r) (qst_Prompt r) (qst_AllowsMultiple r) x
    (qst_Options r).

Definition set_qst_Options (x : list UserInputOption) (r : UserInputQuestion) : UserInputQuestion :=
  mkUserInputQuestion (qst_QuestionId r) (qst_Header r) (qst_Prompt r) (qst_AllowsMultiple r)
    (qst_AllowsFreeForm r) x.

(** A structured answer. *)
Record UserInputAnswer := mkUserInputAnswer {
  ans_QuestionId : string;
  ans_SelectedOptionIds : list string;
  ans_FreeFormText : string;
}.

#[export] Instance UserInputAnswer_eq_dec : EqDecision UserInputAnswer.
Proof. solve_decision. Defined.

Definition set_ans_QuestionId (x : string) (r : UserInputAnswer) : UserInputAnswer :=
  mkUserInputAnswer x (ans_SelectedOptionIds r) (ans_FreeFormText r).

Definition set_ans_SelectedOptionIds (x : list string) (r : UserInputAnswer) : UserInputAnswer :=
  mkUserInputAnswer (ans_QuestionId r) x (ans_FreeFormText r).

Definition set_ans_FreeFormText (x : string) (r : UserInputAnswer) : UserInputAnswer :=
  mkUserInputAnswer (ans_QuestionId r) (ans_SelectedOptionIds r) x.

(** A user-input request. *)
Record UserInputRequestState := mkUserInputRequestState {
  uir_UserInputRequestId : string;
  uir_TurnId : string;
  uir_ItemId : string;
  uir_Questions : list UserInputQuestion;
  uir_CreatedAtUnixMs : Z;
  uir_Resolved : bool;
  uir_ResolvedAtUnixMs : Z;
  uir_ResolvedAnswers : list UserInputAnswer;
  uir_Completeness : option Completeness;
}.

#[export] Instance UserInputRequestState_eq_dec : EqDecision UserInputRequestState.
Proof. solve_decision. Defined.

Definition set_uir_UserInputRequestId (x : string) (r : UserInputRequestState) : UserInputRequestState :=
  mkUserInputRequestState x (uir_TurnId r) (uir_ItemId r) (uir_Questions r) (uir_CreatedAtUnixMs r)
    (uir_Resolved r) (uir_ResolvedAtUnixMs r) (uir_ResolvedAnswers r) (uir_Completeness r).

Definition set_uir_TurnId (x : string) (r : UserInputRequestState) : UserInputRequestState :=
  mkUserInputRequestState (uir_UserInputRequestId r) x (uir_ItemId r) (uir_Questions r)
    (uir_CreatedAtUnixMs r) (uir_Resolved r) (uir_ResolvedAtUnixMs r) (uir_ResolvedAnswers r)
    (uir_Completeness r).

Definition set_uir_ItemId (x : string) (r : UserInputRequestState) : UserInputRequestState :=
  mkUserInputRequestState (uir_UserInputRequestId r) (uir_TurnId r) x (uir_Questions r)
    (uir_CreatedAtUnixMs r) (uir_Resolved r) (uir_ResolvedAtUnixMs r) (uir_ResolvedAnswers r)
    (uir_Completeness r).

Definition set_uir_Questions (x : list UserInputQuestion) (r : UserInputRequestState) : UserInputRequestState :=
  mkUserInputRequestState (uir_UserInputRequestId r) (uir_TurnId r) (uir_ItemId r) x
    (uir_CreatedAtUnixMs r) (uir_Resolved r) (uir_ResolvedAtUnixMs r) (uir_ResolvedAnswers r)
    (uir_Completeness r).

Definition set_uir_CreatedAtUnixMs (x : Z) (r : UserInputRequestState) : UserInputRequestState :=
  mkUserInputRequestState (uir_UserInputRequestId r) (uir_TurnId r) (uir_ItemId r) (uir_Questions r)
    x (uir_Resolved r) (uir_ResolvedAtUnixMs r) (uir_ResolvedAnswers r) (uir_Completeness r).

Definition set_uir_Resolved (x : bool) (r : UserInputRequestState) : UserInputRequestState :=
  mkUserInputRequestState (uir_UserInputRequestId r) (uir_TurnId r) (uir_ItemId r) (uir_Questions r)
    (uir_CreatedAtUnixMs r) x (uir_ResolvedAtUnixMs r) (uir_ResolvedAnswers r) (uir_Completeness r).

Definition set_uir_ResolvedAtUnixMs (x : Z) (r : UserInputRequestState) : UserInputRequestState :=
  mkUserInputRequestState (uir_UserInputRequestId r) (uir_TurnId r) (uir_ItemId r) (uir_Questions r)
    (uir_CreatedAtUnixMs r) (uir_Resolved r) x (uir_ResolvedAnswers r) (uir_Completeness r).

Definition set_uir_ResolvedAnswers (x : list UserInputAnswer) (r : UserInputRequestState) : UserInputRequestState :=
  mkUserInputRequestState (uir_UserInputRequestId r) (uir_TurnId r) (uir_ItemId r) (uir_Questions r)
    (uir_CreatedAtUnixMs r) (uir_Resolved r) (uir_ResolvedAtUnixMs r) x (uir_Completeness r).

Definition set_uir_Completeness (x : option Completeness) (r : UserInputRequestState) : UserInputRequestState :=
  mkUserInputRequestState (uir_UserInputRequestId r) (uir_TurnId r) (uir_ItemId r) (uir_Questions r)
    (uir_CreatedAtUnixMs r) (uir_Resolved r) (uir_ResolvedAtUnixMs r) (uir_ResolvedAnswers r) x.

(** A request waiting for the user; [Pending_None] is the unset oneof. *)
Inductive PendingRequest :=
| Pending_Approval (a : Approval)
| Pending_UserInput (u : UserInputRequestState)
| Pending_None.

#[export] Instance PendingRequest_eq_dec : EqDecision PendingRequest.
Proof. solve_decision. Defined.

(** Workspace access state; Generation is a uint64 and ActiveAgentCount a uint32. *)
Record WorkspaceAccessState := mkWorkspaceAccessState {
  was_Generation : Z;
  was_ActiveAgentCount : Z;
  was_MutationStatus : WorkspaceMutationStatus;
  was_QuiescenceToken : string;
  was_ObservedAtUnixMs : Z;
}.

#[export] Instance WorkspaceAccessState_eq_dec : EqDecision WorkspaceAccessState.
Proof. solve_decision. Defined.

Definition set_was_Generation (x : Z) (r : WorkspaceAccessState) : WorkspaceAccessState :=
  mkWorkspaceAccessState x (was_ActiveAgentCount r) (was_MutationStatus r) (was_QuiescenceToken r)
    (was_ObservedAtUnixMs r).

Definition set_was_ActiveAgentCount (x : Z) (r : WorkspaceAccessState) : WorkspaceAccessState :=
  mkWorkspaceAccessState (was_Generation r) x (was_MutationStatus r) (was_QuiescenceToken r)
    (was_ObservedAtUnixMs r).

Definition set_was_MutationStatus (x : WorkspaceMutationStatus) (r : WorkspaceAccessState) : WorkspaceAccessState :=
  mkWorkspaceAccessState (was_Generation r) (was_ActiveAgentCount r) x (was_QuiescenceToken r)
    (was_ObservedAtUnixMs r).

Definition set_was_QuiescenceToken (x : string) (r : WorkspaceAccessState) : WorkspaceAccessState :=
  mkWorkspaceAccessState (was_Generation r) (was_ActiveAgentCount r) (was_MutationStatus r) x
    (was_ObservedAtUnixMs r).

Definition set_was_ObservedAtUnixMs (x : Z) (r : WorkspaceAccessState) : WorkspaceAccessState :=
  mkWorkspaceAccessState (was_Generation r) (was_ActiveAgentCount r) (was_MutationStatus r)
    (was_QuiescenceToken r) x.

(** The restartable snapshot of one Codex. *)
Record CurrentView := mkCurrentView {
  cv_Codex : option Codex;
  cv_ActiveTurn : option TurnSnapshot;
  cv_PendingRequests : list PendingRequest;
  cv_WorkspaceAccessState : option WorkspaceAccessState;
  cv_Completeness : option Completeness;
  cv_HeadEventSeq : Z;
  cv_GeneratedAtUnixMs : Z;
}.

#[export] Instance CurrentView_eq_dec : EqDecision CurrentView.
Proof. solve_decision. Defined.

Definition set_cv_Codex (x : option Codex) (r : CurrentView) : CurrentView :=
  mkCurrentView x (cv_ActiveTurn r) (cv_PendingRequests r) (cv_WorkspaceAccessState r)
    (cv_Completeness r) (cv_HeadEventSeq r) (cv_GeneratedAtUnixMs r).

Definition set_cv_ActiveTurn (x : option TurnSnapshot) (r : CurrentView) : CurrentView :=
  mkCurrentView (cv_Codex r) x (cv_PendingRequests r) (cv_WorkspaceAccessState r) (cv_Completeness r)
    (cv_HeadEventSeq r) (cv_GeneratedAtUnixMs r).

Definition set_cv_PendingRequests (x : list PendingRequest) (r : CurrentView) : CurrentView :=
  mkCurrentView (cv_Codex r) (cv_ActiveTurn r) x (cv_WorkspaceAccessState r) (cv_Completeness r)
    (cv_HeadEventSeq r) (cv_GeneratedAtUnixMs r).

Definition set_cv_WorkspaceAccessState (x : option WorkspaceAccessState) (r : CurrentView) : CurrentView :=
  mkCurrentView (cv_Codex r) (cv_ActiveTurn r) (cv_PendingRequests r) x (cv_Completeness r)
    (cv_HeadEventSeq r) (cv_GeneratedAtUnixMs r).

Definition set_cv_Completeness (x : option Completeness) (r : CurrentView) : CurrentView :=
  mkCurrentView (cv_Codex r) (cv_ActiveTurn r) (cv_PendingRequests r) (cv_WorkspaceAccessState r) x
    (cv_HeadEventSeq r) (cv_GeneratedAtUnixMs r).

Definition set_cv_HeadEventSeq (x : Z) (r : CurrentView) : CurrentView :=
  mkCurrentView (cv_Codex r) (cv_ActiveTurn r) (cv_PendingRequests r) (cv_WorkspaceAccessState r)
    (cv_Completeness r) x (cv_GeneratedAtUnixMs r).

Definition set_cv_GeneratedAtUnixMs (x : Z) (r : CurrentView) : CurrentView :=
  mkCurrentView (cv_Codex r) (cv_ActiveTurn r) (cv_PendingRequests r) (cv_WorkspaceAccessState r)
    (cv_Completeness r) (cv_HeadEventSeq r) x.

(** A page of history (the page info reduced to its token, its only field used). *)
Record HistoryPage := mkHistoryPage {
  hp_CodexId : string;
  hp_Turns : list TurnSnapshot;
  hp_NextPageToken : string;
  hp_HistoryComplete : bool;
  hp_Completeness : option Completeness;
}.

#[export] Instance HistoryPage_eq_dec : EqDecision HistoryPage.
Proof. solve_decision. Defined.

Definition set_hp_CodexId (x : string) (r : HistoryPage) : HistoryPage :=
  mkHistoryPage x (hp_Turns r) (hp_NextPageToken r) (hp_HistoryComplete r) (hp_Completeness r).

Definition set_hp_Turns (x : list TurnSnapshot) (r : HistoryPage) : HistoryPage :=
  mkHistoryPage (hp_CodexId r) x (hp_NextPageToken r) (hp_HistoryComplete r) (hp_Completeness r).

Definition set_hp_NextPageToken (x : string) (r : HistoryPage) : HistoryPage :=
  mkHistoryPage (hp_CodexId r) (hp_Turns r) x (hp_HistoryComplete r) (hp_Completeness r).

Definition set_hp_HistoryComplete (x : bool) (r : HistoryPage) : HistoryPage :=
  mkHistoryPage (hp_CodexId r) (hp_Turns r) (hp_NextPageToken r) x (hp_Completeness r).

Definition set_hp_Completeness (x : option Completeness) (r : HistoryPage) : HistoryPage :=
  mkHistoryPage (hp_CodexId r) (hp_Turns r) (hp_NextPageToken r) (hp_HistoryComplete r) x.

(** Payload of a TurnUpdated event. *)
Record TurnUpdated := mkTurnUpdated {
  tu_TurnId : string;
  tu_Status : TurnStatus;
  tu_StartedAtUnixMs : Z;
  tu_CompletedAtUnixMs : Z;
  tu_Failure : option Error;
}.

#[export] Instance TurnUpdated_eq_dec : EqDecision TurnUpdated.
Proof. solve_decision. Defined.

Definition set_tu_TurnId (x : string) (r : TurnUpdated) : TurnUpdated :=
  mkTurnUpdated x (tu_Status r) (tu_StartedAtUnixMs r) (tu_CompletedAtUnixMs r) (tu_Failure r).

Definition set_tu_Status (x : TurnStatus) (r : TurnUpdated) : TurnUpdated :=
  mkTurnUpdated (tu_TurnId r) x (tu_StartedAtUnixMs r) (tu_CompletedAtUnixMs r) (tu_Failure r).

Definition set_tu_StartedAtUnixMs (x : Z) (r : TurnUpdated) : TurnUpdated :=
  mkTurnUpdated (tu_TurnId r) (tu_Status r) x (tu_CompletedAtUnixMs r) (tu_Failure r).

Definition set_tu_CompletedAtUnixMs (x : Z) (r : TurnUpdated) : TurnUpdated :=
  mkTurnUpdated (tu_TurnId r) (tu_Status r) (tu_StartedAtUnixMs r) x (tu_Failure r).

Definition set_tu_Failure (x : option Error) (r : TurnUpdated) : TurnUpdated :=
  mkTurnUpdated (tu_TurnId r) (tu_Status r) (tu_StartedAtUnixMs r) (tu_CompletedAtUnixMs r) x.

(** The delta oneof. *)
Inductive Delta :=
| Delta_Text (text : string)
| Delta_CommandOutput (stream : OutputStream) (text : string)
| Delta_None.

#[export] Instance Delta_eq_dec : EqDecision Delta.
Proof. solve_decision. Defined.

(** Payload of an ItemDelta event. *)
Record ItemDelta := mkItemDelta {
  dl_TurnId : string;
  dl_ItemId : string;
  dl_ChunkSeq : Z;
  dl_Delta : Delta;
}.

#[export] Instance ItemDelta_eq_dec : EqDecision ItemDelta.
Proof. solve_decision. Defined.

Definition set_dl_TurnId (x : string) (r : ItemDelta) : ItemDelta :=
  mkItemDelta x (dl_ItemId r) (dl_ChunkSeq r) (dl_Delta r).

Definition set_dl_ItemId (x : string) (r : ItemDelta) : ItemDelta :=
  mkItemDelta (dl_TurnId r) x (dl_ChunkSeq r) (dl_Delta r).

Definition set_dl_ChunkSeq (x : Z) (r : ItemDelta) : ItemDelta :=
  mkItemDelta (dl_TurnId r) (dl_ItemId r) x (dl_Delta r).

Definition set_dl_Delta (x : Delta) (r : ItemDelta) : ItemDelta :=
  mkItemDelta (dl_TurnId r) (dl_ItemId r) (dl_ChunkSeq r) x.

(** The ten canonical event families. *)
Inductive EventPayload :=
| Event_CodexUpdated (codex : Codex)
| Event_CodexForgotten
| Event_TurnUpdated (turn : TurnUpdated)
| Event_ItemStarted (item : Item)
| Event_ItemDelta (delta : ItemDelta)
| Event_ItemUpdated (item : Item)
| Event_ItemCompleted (item : Item)
| Event_PendingRequestUpdated (request : PendingRequest)
| Event_WarningRaised (warning : Warning)
| Event_WorkspaceAccessStateUpdated (access : WorkspaceAccessState).

#[export] Instance EventPayload_eq_dec : EqDecision EventPayload.
Proof. solve_decision. Defined.

(** A canonical event; EventSeq is a uint64. *)
Record Event := mkEvent {
  ev_CodexId : string;
  ev_EventSeq : Z;
  ev_OccurredAtUnixMs : Z;
  ev_CausedByRequestId : string;
  ev_Completeness : option Completeness;
  ev_Payload : option EventPayload;
}.

#[export] Instance Event_eq_dec : EqDecision Event.
Proof. solve_decision. Defined.

Definition set_ev_CodexId (x : string) (r : Event) : Event :=
  mkEvent x (ev_EventSeq r) (ev_OccurredAtUnixMs r) (ev_CausedByRequestId r) (ev_Completeness r)
    (ev_Payload r).

Definition set_ev_EventSeq (x : Z) (r : Event) : Event :=
  mkEvent (ev_CodexId r) x (ev_OccurredAtUnixMs r) (ev_CausedByRequestId r) (ev_Completeness r)
    (ev_Payload r).

Definition set_ev_OccurredAtUnixMs (x : Z) (r : Event) : Event :=
  mkEvent (ev_CodexId r) (ev_EventSeq r) x (ev_CausedByRequestId r) (ev_Completeness r)
    (ev_Payload r).

Definition set_ev_CausedByRequestId (x : string) (r : Event) : Event :=
  mkEvent (ev_CodexId r) (ev_EventSeq r) (ev_OccurredAtUnixMs r) x (ev_Completeness r) (ev_Payload r).

Definition set_ev_Completeness (x : option Completeness) (r : Event) : Event :=
  mkEvent (ev_CodexId r) (ev_EventSeq r) (ev_OccurredAtUnixMs r) (ev_CausedByRequestId r) x
    (ev_Payload r).

Definition set_ev_Payload (x : option EventPayload) (r : Event) : Event :=
  mkEvent (ev_CodexId r) (ev_EventSeq r) (ev_OccurredAtUnixMs r) (ev_CausedByRequestId r)
    (ev_Completeness r) x.

(** Answer to WatchCodex. *)
Record WatchCodexResponse := mkWatchCodexResponse {
  wr_CodexId : string;
  wr_HeadEventSeq : Z;
  wr_Mode : WatchMode;
  wr_ResetReason : WatchResetReason;
  wr_ResetView : option CurrentView;
  wr_ReplayFromEventSeq : Z;
}.

#[export] Instance WatchCodexResponse_eq_dec : EqDecision WatchCodexResponse.
Proof. solve_decision. Defined.

Definition set_wr_ResetReason (x : WatchResetReason) (r : WatchCodexResponse) : WatchCodexResponse :=
  mkWatchCodexResponse (wr_CodexId r) (wr_HeadEventSeq r) (wr_Mode r) x (wr_ResetView r)
    (wr_ReplayFromEventSeq r).

(** ** ProtoJSON

    [protojson.Marshal] of any of the messages the Host encodes, and the two
    decoders it calls.  The encoder may fail (for instance on a string that is not
    UTF-8). *)
Inductive message :=
| MsgView (v : CurrentView)
| MsgEvent (e : Event)
| MsgItem (i : Item)
| MsgPending (p : PendingRequest)
| MsgWarning (w : Warning)
| MsgError (e : Error)
| MsgCodex (c : Codex)
| MsgTurn (t : TurnSnapshot)
| MsgHistory (h : HistoryPage).

Class ProtoJSON := {
  Marshal : message → res string;
  UnmarshalView : string → option CurrentView;
}.

(** What the Host relies on: an encoded message is not empty, and decoding what
    was encoded gives the message back. *)
Class ProtoJSONLaws `{ProtoJSON} : Prop := {
  Marshal_nonempty m raw : Marshal m = Ok raw → raw ≠ EmptyString;
  UnmarshalView_Marshal v raw : Marshal (MsgView v) = Ok raw → UnmarshalView raw = Some v;
}.
