(* ===== verification/CodecTable.v ===== *)
(** * A lawful codec for examples

    Views that are listed in a table are encoded as their place in it and read back; other
    views cannot be encoded, other messages all look alike.  Any table gives a codec with
    the laws the Host relies on, so a hypothesis about the codec can be met in an example by
    listing the views it writes. *)

From stdpp Require Import base tactics numbers list gmap strings pretty.
From S2P Require Import Prelude GoError Remote.
Local Open Scope string_scope.
Local Open Scope list_scope.

Section Table.
Context (table : list CurrentView).

Definition place_text (i : nat) : string := "v" +:+ pretty (N.of_nat i).

Definition table_Marshal (m : message) : res string :=
  match m with
  | MsgView v => match list_find (λ w, w = v) table with Some (i, _) => Ok (place_text i) | None => Err (ErrText "not in the table") end
  | _ => Ok "{}"
  end.

Definition table_UnmarshalView (raw : string) : option CurrentView :=
  match list_find (λ i, place_text i = raw) (seq 0 (length table)) with Some (_, i) => table !! i | None => None end.

Definition table_json : ProtoJSON := {| Marshal := table_Marshal; UnmarshalView := table_UnmarshalView |}.

Lemma place_text_inj i j : place_text i = place_text j → i = j.
Proof. unfold place_text. intros E. apply (inj (String.append _)) in E. apply (inj (pretty (A := N))) in E. by apply (inj N.of_nat) in E. Qed.

Lemma table_json_laws : @ProtoJSONLaws table_json.
Proof.
  split.
  - intros [] raw E; cbn in E; try (injection E as <-; discriminate).
    destruct (list_find _ table) as [[i w]|]; [injection E as <-; discriminate|done].
  - intros v raw E. cbn in E. destruct (list_find _ table) as [[i w]|] eqn:Ef; [|done]. injection E as <-.
    apply list_find_Some in Ef as (Hi&->&_). cbn. unfold table_UnmarshalView.
    pose proof (lookup_lt_Some _ _ _ Hi) as Hlt.
    destruct (list_find_elem_of (λ j, place_text j = place_text i) (seq 0 (length table)) i) as [[k j] Hk]; [apply elem_of_seq; lia|done|].
    rewrite Hk. apply list_find_Some in Hk as (_&Hj&_). apply place_text_inj in Hj. by subst.
Qed.
End Table.
