(* ===== verification/Persistence.v ===== *)
(** * Persistence: the SQLite store (internal/persistence/store.go)

    The seven tables are finite maps keyed by their primary keys; every exported
    method of [persistence.Store] is one definition that runs the SQL statements
    of the Go method in order.  SQLite itself is not modelled beyond the documented
    meaning of those statements; its failures are: every statement, [BEGIN] and
    [COMMIT] consumes one outcome of an oracle, so a theorem that quantifies over
    the store quantifies over every pattern of I/O failures, cancellations and
    commits whose effect is unknown to the caller. *)

From stdpp Require Import base tactics numbers list sorting gmap strings.
From S2P Require Import Prelude GoError GoStrings.

(** ** Rows *)

(** A row of [codexes]; a NULL view and an empty blob both read back as the empty string. *)
Record CodexRecord := mkCodexRecord {
  cr_CodexID : string;
  cr_ThreadID : string;
  cr_SessionSource : string;
  cr_LogicalOwnerID : string;
  cr_CWD : string;
  cr_Title : string;
  cr_Origin : string;
  cr_Status : string;
  cr_ActiveTurnID : string;
  cr_RuntimeVersion : string;
  cr_ManagementState : string;
  cr_CreatedAtUnixMS : Z;
  cr_ImportedAtUnixMS : Z;
  cr_LastActivityAtUnixMS : Z;
  cr_ManagedUntilUnixMS : Z;
  cr_WarningDeadlineUnixMS : Z;
  cr_CurrentViewJSON : string;
  cr_ManualTitleOverride : bool;
}.

#[export] Instance CodexRecord_eq_dec : EqDecision CodexRecord.
Proof. solve_decision. Defined.

Definition set_cr_ThreadID (x : string) (r : CodexRecord) : CodexRecord :=
  mkCodexRecord (cr_CodexID r) x (cr_SessionSource r) (cr_LogicalOwnerID r) (cr_CWD r) (cr_Title r)
    (cr_Origin r) (cr_Status r) (cr_ActiveTurnID r) (cr_RuntimeVersion r) (cr_ManagementState r)
    (cr_CreatedAtUnixMS r) (cr_ImportedAtUnixMS r) (cr_LastActivityAtUnixMS r)
    (cr_ManagedUntilUnixMS r) (cr_WarningDeadlineUnixMS r) (cr_CurrentViewJSON r)
    (cr_ManualTitleOverride r).

Definition set_cr_SessionSource (x : string) (r : CodexRecord) : CodexRecord :=
  mkCodexRecord (cr_CodexID r) (cr_ThreadID r) x (cr_LogicalOwnerID r) (cr_CWD r) (cr_Title r)
    (cr_Origin r) (cr_Status r) (cr_ActiveTurnID r) (cr_RuntimeVersion r) (cr_ManagementState r)
    (cr_CreatedAtUnixMS r) (cr_ImportedAtUnixMS r) (cr_LastActivityAtUnixMS r)
    (cr_ManagedUntilUnixMS r) (cr_WarningDeadlineUnixMS r) (cr_CurrentViewJSON r)
    (cr_ManualTitleOverride r).

Definition set_cr_LogicalOwnerID (x : string) (r : CodexRecord) : CodexRecord :=
  mkCodexRecord (cr_CodexID r) (cr_ThreadID r) (cr_SessionSource r) x (cr_CWD r) (cr_Title r)
    (cr_Origin r) (cr_Status r) (cr_ActiveTurnID r) (cr_RuntimeVersion r) (cr_ManagementState r)
    (cr_CreatedAtUnixMS r) (cr_ImportedAtUnixMS r) (cr_LastActivityAtUnixMS r)
    (cr_ManagedUntilUnixMS r) (cr_WarningDeadlineUnixMS r) (cr_CurrentViewJSON r)
    (cr_ManualTitleOverride r).

Definition set_cr_CWD (x : string) (r : CodexRecord) : CodexRecord :=
  mkCodexRecord (cr_CodexID r) (cr_ThreadID r) (cr_SessionSource r) (cr_LogicalOwnerID r) x
    (cr_Title r) (cr_Origin r) (cr_Status r) (cr_ActiveTurnID r) (cr_RuntimeVersion r)
    (cr_ManagementState r) (cr_CreatedAtUnixMS r) (cr_ImportedAtUnixMS r) (cr_LastActivityAtUnixMS r)
    (cr_ManagedUntilUnixMS r) (cr_WarningDeadlineUnixMS r) (cr_CurrentViewJSON r)
    (cr_ManualTitleOverride r).

Definition set_cr_Status (x : string) (r : CodexRecord) : CodexRecord :=
  mkCodexRecord (cr_CodexID r) (cr_ThreadID r) (cr_SessionSource r) (cr_LogicalOwnerID r) (cr_CWD r)
    (cr_Title r) (cr_Origin r) x (cr_ActiveTurnID r) (cr_RuntimeVersion r) (cr_ManagementState r)
    (cr_CreatedAtUnixMS r) (cr_ImportedAtUnixMS r) (cr_LastActivityAtUnixMS r)
    (cr_ManagedUntilUnixMS r) (cr_WarningDeadlineUnixMS r) (cr_CurrentViewJSON r)
    (cr_ManualTitleOverride r).

Definition set_cr_ActiveTurnID (x : string) (r : CodexRecord) : CodexRecord :=
  mkCodexRecord (cr_CodexID r) (cr_ThreadID r) (cr_SessionSource r) (cr_LogicalOwnerID r) (cr_CWD r)
    (cr_Title r) (cr_Origin r) (cr_Status r) x (cr_RuntimeVersion r) (cr_ManagementState r)
    (cr_CreatedAtUnixMS r) (cr_ImportedAtUnixMS r) (cr_LastActivityAtUnixMS r)
    (cr_ManagedUntilUnixMS r) (cr_WarningDeadlineUnixMS r) (cr_CurrentViewJSON r)
    (cr_ManualTitleOverride r).

Definition set_cr_ManagementState (x : string) (r : CodexRecord) : CodexRecord :=
  mkCodexRecord (cr_CodexID r) (cr_ThreadID r) (cr_SessionSource r) (cr_LogicalOwnerID r) (cr_CWD r)
    (cr_Title r) (cr_Origin r) (cr_Status r) (cr_ActiveTurnID r) (cr_RuntimeVersion r) x
    (cr_CreatedAtUnixMS r) (cr_ImportedAtUnixMS r) (cr_LastActivityAtUnixMS r)
    (cr_ManagedUntilUnixMS r) (cr_WarningDeadlineUnixMS r) (cr_CurrentViewJSON r)
    (cr_ManualTitleOverride r).

Definition set_cr_CreatedAtUnixMS (x : Z) (r : CodexRecord) : CodexRecord :=
  mkCodexRecord (cr_CodexID r) (cr_ThreadID r) (cr_SessionSource r) (cr_LogicalOwnerID r) (cr_CWD r)
    (cr_Title r) (cr_Origin r) (cr_Status r) (cr_ActiveTurnID r) (cr_RuntimeVersion r)
    (cr_ManagementState r) x (cr_ImportedAtUnixMS r) (cr_LastActivityAtUnixMS r)
    (cr_ManagedUntilUnixMS r) (cr_WarningDeadlineUnixMS r) (cr_CurrentViewJSON r)
    (cr_ManualTitleOverride r).

Definition set_cr_LastActivityAtUnixMS (x : Z) (r : CodexRecord) : CodexRecord :=
  mkCodexRecord (cr_CodexID r) (cr_ThreadID r) (cr_SessionSource r) (cr_LogicalOwnerID r) (cr_CWD r)
    (cr_Title r) (cr_Origin r) (cr_Status r) (cr_ActiveTurnID r) (cr_RuntimeVersion r)
    (cr_ManagementState r) (cr_CreatedAtUnixMS r) (cr_ImportedAtUnixMS r) x (cr_ManagedUntilUnixMS r)
    (cr_WarningDeadlineUnixMS r) (cr_CurrentViewJSON r) (cr_ManualTitleOverride r).

Definition set_cr_ManagedUntilUnixMS (x : Z) (r : CodexRecord) : CodexRecord :=
  mkCodexRecord (cr_CodexID r) (cr_ThreadID r) (cr_SessionSource r) (cr_LogicalOwnerID r) (cr_CWD r)
    (cr_Title r) (cr_Origin r) (cr_Status r) (cr_ActiveTurnID r) (cr_RuntimeVersion r)
    (cr_ManagementState r) (cr_CreatedAtUnixMS r) (cr_ImportedAtUnixMS r) (cr_LastActivityAtUnixMS r)
    x (cr_WarningDeadlineUnixMS r) (cr_CurrentViewJSON r) (cr_ManualTitleOverride r).

Definition set_cr_WarningDeadlineUnixMS (x : Z) (r : CodexRecord) : CodexRecord :=
  mkCodexRecord (cr_CodexID r) (cr_ThreadID r) (cr_SessionSource r) (cr_LogicalOwnerID r) (cr_CWD r)
    (cr_Title r) (cr_Origin r) (cr_Status r) (cr_ActiveTurnID r) (cr_RuntimeVersion r)
    (cr_ManagementState r) (cr_CreatedAtUnixMS r) (cr_ImportedAtUnixMS r) (cr_LastActivityAtUnixMS r)
    (cr_ManagedUntilUnixMS r) x (cr_CurrentViewJSON r) (cr_ManualTitleOverride r).

Definition set_cr_CurrentViewJSON (x : string) (r : CodexRecord) : CodexRecord :=
  mkCodexRecord (cr_CodexID r) (cr_ThreadID r) (cr_SessionSource r) (cr_LogicalOwnerID r) (cr_CWD r)
    (cr_Title r) (cr_Origin r) (cr_Status r) (cr_ActiveTurnID r) (cr_RuntimeVersion r)
    (cr_ManagementState r) (cr_CreatedAtUnixMS r) (cr_ImportedAtUnixMS r) (cr_LastActivityAtUnixMS r)
    (cr_ManagedUntilUnixMS r) (cr_WarningDeadlineUnixMS r) x (cr_ManualTitleOverride r).

Definition set_cr_ManualTitleOverride (x : bool) (r : CodexRecord) : CodexRecord :=
  mkCodexRecord (cr_CodexID r) (cr_ThreadID r) (cr_SessionSource r) (cr_LogicalOwnerID r) (cr_CWD r)
    (cr_Title r) (cr_Origin r) (cr_Status r) (cr_ActiveTurnID r) (cr_RuntimeVersion r)
    (cr_ManagementState r) (cr_CreatedAtUnixMS r) (cr_ImportedAtUnixMS r) (cr_LastActivityAtUnixMS r)
    (cr_ManagedUntilUnixMS r) (cr_WarningDeadlineUnixMS r) (cr_CurrentViewJSON r) x.

(** A row of [forgotten_sessions]. *)
Record ForgottenSessionRecord := mkForgottenSessionRecord {
  fs_Source : string;
  fs_SessionID : string;
  fs_LogicalOwnerID : string;
  fs_CWD : string;
  fs_Title : string;
  fs_Preview : string;
  fs_Origin : string;
  fs_CreatedAtUnixMS : Z;
  fs_UpdatedAtUnixMS : Z;
  fs_Materialized : bool;
}.

#[export] Instance ForgottenSessionRecord_eq_dec : EqDecision ForgottenSessionRecord.
Proof. solve_decision. Defined.

Definition set_fs_Source (x : string) (r : ForgottenSessionRecord) : ForgottenSessionRecord :=
  mkForgottenSessionRecord x (fs_SessionID r) (fs_LogicalOwnerID r) (fs_CWD r) (fs_Title r)
    (fs_Preview r) (fs_Origin r) (fs_CreatedAtUnixMS r) (fs_UpdatedAtUnixMS r) (fs_Materialized r).

(** A row of [image_attachments]. *)
Record AttachmentRecord := mkAttachmentRecord {
  at_AttachmentID : string;
  at_LogicalOwnerID : string;
  at_Filename : string;
  at_MIMEType : string;
  at_SHA256 : string;
  at_SizeBytes : Z;
  at_WidthPixels : Z;
  at_HeightPixels : Z;
  at_CreatedAtUnixMS : Z;
}.

#[export] Instance AttachmentRecord_eq_dec : EqDecision AttachmentRecord.
Proof. solve_decision. Defined.

(** The CHECK constraint of [request_dedup.status]. *)
Inductive DedupStatus :=
| IN_PROGRESS
| COMPLETED.

#[export] Instance DedupStatus_eq_dec : EqDecision DedupStatus.
Proof. solve_decision. Defined.

(** A row of [request_dedup]. *)
Record DedupRow := mkDedupRow {
  dr_operation : string;
  dr_fingerprint : string;
  dr_status : DedupStatus;
  dr_response_json : string;
  dr_created_at_ms : Z;
  dr_completed_at_ms : Z;
}.

#[export] Instance DedupRow_eq_dec : EqDecision DedupRow.
Proof. solve_decision. Defined.

(** What [BeginRequest] found. *)
Inductive DedupState :=
| DedupStarted
| DedupCompleted
| DedupInProgress.

#[export] Instance DedupState_eq_dec : EqDecision DedupState.
Proof. solve_decision. Defined.

(** The database. *)
Record DB := mkDB {
  db_codexes : gmap string CodexRecord;
  db_request_dedup : gmap string DedupRow;
  db_event_heads : gmap string Z;
  db_resolved_pending : gmap (string * string) (string * string * Z);
  db_forgotten_sessions : gmap (string * string) ForgottenSessionRecord;
  db_session_logical_owners : gmap (string * string) string;
  db_image_attachments : gmap string AttachmentRecord;
}.

#[export] Instance DB_eq_dec : EqDecision DB.
Proof. solve_decision. Defined.

Definition set_db_codexes (x : gmap string CodexRecord) (r : DB) : DB :=
  mkDB x (db_request_dedup r) (db_event_heads r) (db_resolved_pending r) (db_forgotten_sessions r)
    (db_session_logical_owners r) (db_image_attachments r).

Definition set_db_request_dedup (x : gmap string DedupRow) (r : DB) : DB :=
  mkDB (db_codexes r) x (db_event_heads r) (db_resolved_pending r) (db_forgotten_sessions r)
    (db_session_logical_owners r) (db_image_attachments r).

Definition set_db_event_heads (x : gmap string Z) (r : DB) : DB :=
  mkDB (db_codexes r) (db_request_dedup r) x (db_resolved_pending r) (db_forgotten_sessions r)
    (db_session_logical_owners r) (db_image_attachments r).

Definition set_db_resolved_pending (x : gmap (string * string) (string * string * Z)) (r : DB) : DB :=
  mkDB (db_codexes r) (db_request_dedup r) (db_event_heads r) x (db_forgotten_sessions r)
    (db_session_logical_owners r) (db_image_attachments r).

Definition set_db_forgotten_sessions (x : gmap (string * string) ForgottenSessionRecord) (r : DB) : DB :=
  mkDB (db_codexes r) (db_request_dedup r) (db_event_heads r) (db_resolved_pending r) x
    (db_session_logical_owners r) (db_image_attachments r).

Definition set_db_session_logical_owners (x : gmap (string * string) string) (r : DB) : DB :=
  mkDB (db_codexes r) (db_request_dedup r) (db_event_heads r) (db_resolved_pending r)
    (db_forgotten_sessions r) x (db_image_attachments r).

Definition set_db_image_attachments (x : gmap string AttachmentRecord) (r : DB) : DB :=
  mkDB (db_codexes r) (db_request_dedup r) (db_event_heads r) (db_resolved_pending r)
    (db_forgotten_sessions r) (db_session_logical_owners r) x.

(** A failure reported by the driver: an I/O or constraint error, or the context
    of the call being done. *)
Inductive fault :=
| FaultText (msg : string)
| FaultDeadline
| FaultCanceled.

Definition fault_err (f : fault) : goerr :=
  match f with
  | FaultText msg => ErrText msg
  | FaultDeadline => ErrSentinel DeadlineExceeded
  | FaultCanceled => ErrSentinel Canceled
  end.

(** The outcome of one statement: it works, or the driver reports a fault, in
    which case an autocommit statement or a [COMMIT] may still have taken effect. *)
Inductive outcome :=
| Good
| Bad (f : fault) (applied : bool).

Record Store := mkStore {
  st_db : DB;
  st_oracle : list outcome;
}.

Definition set_st_db (d : DB) (s : Store) : Store := mkStore d (st_oracle s).

(** The next outcome; an exhausted oracle reports no failure. *)
Definition pop (s : Store) : outcome * Store :=
  match st_oracle s with
  | [] => (Good, s)
  | o :: os => (o, mkStore (st_db s) os)
  end.

(** ** Statements *)

(** A read. *)
Definition sql_query {A} (q : DB → res A) : M Store A := λ s,
  let '(o, s) := pop s in
  match o with
  | Good => (s, q (st_db s))
  | Bad f _ => (s, Err (fault_err f))
  end.

(** An autocommit write. *)
Definition sql_exec {A} (w : DB → res (DB * A)) : M Store A := λ s,
  let '(o, s) := pop s in
  match o, w (st_db s) with
  | Good, Ok (d, a) => (set_st_db d s, Ok a)
  | Good, Err e => (s, Err e)
  | Bad f true, Ok (d, _) => (set_st_db d s, Err (fault_err f))
  | Bad f _, _ => (s, Err (fault_err f))
  end.

(** A write inside a transaction: a failed statement has no effect. *)
Definition tx_exec {A} (w : DB → res (DB * A)) : M Store A := λ s,
  let '(o, s) := pop s in
  match o with
  | Good => match w (st_db s) with
            | Ok (d, a) => (set_st_db d s, Ok a)
            | Err e => (s, Err e)
            end
  | Bad f _ => (s, Err (fault_err f))
  end.

(** How a transaction body ends: by reaching [tx.Commit], or by returning before
    it, in which case the deferred [tx.Rollback] undoes it. *)
Inductive txend (A : Type) :=
| TxCommit (a : A)
| TxReturn (r : res A).
Arguments TxCommit {A} a.
Arguments TxReturn {A} r.

(** [BeginTx; defer Rollback; body; Commit]; [wrap] is what the method does with a
    commit error. *)
Definition with_tx {A} (wrap : goerr → goerr) (body : M Store (txend A)) : M Store A := λ s,
  let '(o, s0) := pop s in
  match o with
  | Bad f _ => (s0, Err (fault_err f))
  | Good =>
      match body s0 with
      | (s1, Err e) => (set_st_db (st_db s0) s1, Err e)
      | (s1, Ok (TxReturn r)) => (set_st_db (st_db s0) s1, r)
      | (s1, Ok (TxCommit a)) =>
          let '(o, s2) := pop s1 in
          match o with
          | Good => (s2, Ok a)
          | Bad f true => (s2, Err (wrap (fault_err f)))
          | Bad f false => (set_st_db (st_db s0) s2, Err (wrap (fault_err f)))
          end
      end
  end.

(** [QueryRow(...).Scan]: no row is [sql.ErrNoRows]. *)
Definition row {A} (o : option A) : res A :=
  match o with Some a => Ok a | None => Err (ErrSentinel ErrNoRows) end.

(** ** Helpers of the package *)

Definition normalizeSessionSource (source : string) : string :=
  let source := TrimSpace source in
  if str_empty source then "unknown" else source.

(** [equalBytes]: a length test, then byte by byte. *)
Fixpoint equal_from (a b : string) : bool :=
  match a, b with
  | EmptyString, EmptyString => true
  | String x a, String y b => if Ascii.eqb x y then equal_from a b else false
  | _, _ => false
  end.

Definition equalBytes (a b : string) : bool :=
  if bool_decide (String.length a ≠ String.length b) then false else equal_from a b.

(** [newOpaqueID] for the sixteen bytes [raw] read from [crypto/rand]. *)
Definition newOpaqueID (raw : string) : string := EncodeToString raw.

(** ** Request deduplication *)

Definition BeginRequest (now : Z) (requestID operation fingerprint : string)
    : M Store (DedupState * string) :=
  if str_empty requestID || str_empty operation || str_empty fingerprint then
    fail_msg "request id, operation and fingerprint are required"
  else with_tx id (
    old ← attempt (sql_query (λ d, row (db_request_dedup d !! requestID)));
    match old with
    | Err e =>
        if errorsIs e ErrNoRows then
          _ ← tx_exec (λ d, Ok (set_db_request_dedup
                 (<[requestID := mkDedupRow operation fingerprint IN_PROGRESS "" now 0]> (db_request_dedup d)) d, tt));
          mret (TxCommit (DedupStarted, EmptyString))
        else throw e
    | Ok r =>
        if negb (bool_decide (dr_operation r = operation)) || negb (equalBytes (dr_fingerprint r) fingerprint) then
          mret (TxReturn (Err (ErrSentinel ErrRequestConflict)))
        else match dr_status r with
        | COMPLETED => mret (TxReturn (Ok (DedupCompleted, dr_response_json r)))
        | IN_PROGRESS => mret (TxReturn (Err (ErrSentinel ErrRequestInProgress)))
        end
    end).

Definition CompleteRequest (now : Z) (requestID responseJSON : string) : M Store unit :=
  if str_empty responseJSON then fail_msg "completed response is required"
  else
    n ← sql_exec (λ d,
      match db_request_dedup d !! requestID with
      | Some (mkDedupRow op fp IN_PROGRESS _ created _) =>
          Ok (set_db_request_dedup
                (<[requestID := mkDedupRow op fp COMPLETED responseJSON created now]> (db_request_dedup d)) d, 1%Z)
      | _ => Ok (d, 0%Z)
      end);
    if bool_decide (n ≠ 1%Z) then fail_msg ("request " +:+ Quote requestID +:+ " is not in progress") else mret tt.

(** ** Codexes *)

(** Whether another Codex already holds the (session_source, thread_id) pair. *)
Definition session_taken (d : DB) (codexID source thread : string) : bool :=
  bool_decide (map_Exists (λ id r,
    id ≠ codexID ∧ cr_SessionSource r = source ∧ cr_ThreadID r = thread) (db_codexes d)).

(** [INSERT ... ON CONFLICT(codex_id) DO UPDATE]: an existing row keeps its
    created_at_ms; the UNIQUE(session_source, thread_id) constraint fails the
    statement. *)
Definition UpsertCodex (r : CodexRecord) : M Store unit :=
  let r := set_cr_SessionSource (normalizeSessionSource (cr_SessionSource r)) r in
  sql_exec (λ d,
    if session_taken d (cr_CodexID r) (cr_SessionSource r) (cr_ThreadID r) then
      Err (ErrText "UNIQUE constraint failed: codexes.session_source, codexes.thread_id")
    else
      let r' := match db_codexes d !! cr_CodexID r with
                | Some old => set_cr_CreatedAtUnixMS (cr_CreatedAtUnixMS old) r
                | None => r
                end in
      Ok (set_db_codexes (<[cr_CodexID r := r']> (db_codexes d)) d, tt)).

Definition GetCodex (id : string) : M Store CodexRecord :=
  sql_query (λ d, row (db_codexes d !! id)).

(** The rows of the table, newest activity first, then by id. *)
Definition codex_le (a b : CodexRecord) : Prop :=
  (cr_LastActivityAtUnixMS b < cr_LastActivityAtUnixMS a)%Z ∨
  (cr_LastActivityAtUnixMS a = cr_LastActivityAtUnixMS b ∧ String.leb (cr_CodexID a) (cr_CodexID b) = true).

#[export] Instance codex_le_dec : RelDecision codex_le.
Proof. intros a b. unfold codex_le. apply _. Defined.

Definition codex_rows (d : DB) : list CodexRecord :=
  merge_sort codex_le (map_to_list (db_codexes d)).*2.

Definition GetCodexByThread (threadID : string) : M Store CodexRecord :=
  sql_query (λ d, row (List.find (λ r, bool_decide (cr_ThreadID r = threadID)) (codex_rows d))).

Definition GetCodexBySession (source sessionID : string) : M Store CodexRecord :=
  sql_query (λ d, row (List.find (λ r,
    bool_decide (cr_SessionSource r = normalizeSessionSource source) && bool_decide (cr_ThreadID r = sessionID))
    (codex_rows d))).

Definition ListCodexes (limit offset : Z) : M Store (list CodexRecord) :=
  let limit := if (limit <=? 0)%Z then 50%Z else limit in
  let offset := if (offset <? 0)%Z then 0%Z else offset in
  sql_query (λ d, Ok (take (Z.to_nat limit) (drop (Z.to_nat offset) (codex_rows d)))).

(** [DELETE FROM resolved_pending WHERE codex_id=?]. *)
Definition without_codex {A} (codexID : string) (m : gmap (string * string) A) : gmap (string * string) A :=
  filter (λ '(k, _), k.1 ≠ codexID) m.

Definition DeleteCodex (codexID : string) : M Store unit :=
  if str_empty codexID then fail_msg "codex id is required"
  else with_tx id (
    _ ← sql_query (λ d, row (db_codexes d !! codexID));
    _ ← tx_exec (λ d, Ok (set_db_resolved_pending (without_codex codexID (db_resolved_pending d)) d, tt));
    _ ← tx_exec (λ d, Ok (set_db_event_heads (delete codexID (db_event_heads d)) d, tt));
    _ ← tx_exec (λ d, Ok (set_db_codexes (delete codexID (db_codexes d)) d, tt));
    mret (TxCommit tt)).

(** ** Forgotten sessions *)

Definition UpsertForgottenSession (r : ForgottenSessionRecord) : M Store unit :=
  if str_empty (TrimSpace (fs_SessionID r)) || str_empty (TrimSpace (fs_CWD r)) then
    fail_msg "forgotten session id and cwd are required"
  else
    let r := set_fs_Source (normalizeSessionSource (fs_Source r)) r in
    sql_exec (λ d, Ok (set_db_forgotten_sessions
      (<[(fs_Source r, fs_SessionID r) := r]> (db_forgotten_sessions d)) d, tt)).

Definition GetForgottenSession (source sessionID : string) : M Store ForgottenSessionRecord :=
  sql_query (λ d, row (db_forgotten_sessions d !! (normalizeSessionSource source, sessionID))).

Definition forgotten_le (a b : ForgottenSessionRecord) : Prop :=
  (fs_UpdatedAtUnixMS b < fs_UpdatedAtUnixMS a)%Z ∨
  (fs_UpdatedAtUnixMS a = fs_UpdatedAtUnixMS b ∧
    (String.ltb (fs_Source a) (fs_Source b) = true ∨
     (fs_Source a = fs_Source b ∧ String.leb (fs_SessionID a) (fs_SessionID b) = true))).

#[export] Instance forgotten_le_dec : RelDecision forgotten_le.
Proof. intros a b. unfold forgotten_le. apply _. Defined.

Definition ListForgottenSessions (cwd : string) : M Store (list ForgottenSessionRecord) :=
  sql_query (λ d, Ok (merge_sort forgotten_le
    (filter (λ r, fs_CWD r = cwd) (map_to_list (db_forgotten_sessions d)).*2))).

Definition DeleteForgottenSession (source sessionID : string) : M Store unit :=
  sql_exec (λ d, Ok (set_db_forgotten_sessions
    (delete (normalizeSessionSource source, sessionID) (db_forgotten_sessions d)) d, tt)).

(** ** Logical owners *)

(** [INSERT ... ON CONFLICT DO NOTHING]. *)
Definition insert_owner (key : string * string) (owner : string) (d : DB) : DB :=
  match db_session_logical_owners d !! key with
  | Some _ => d
  | None => set_db_session_logical_owners (<[key := owner]> (db_session_logical_owners d)) d
  end.

Definition LogicalOwnerForSession (source sessionID : string) : M Store string :=
  sql_query (λ d, row (db_session_logical_owners d !! (normalizeSessionSource source, sessionID))).

(** [entropy] is what [crypto/rand] delivers to [newOpaqueID], or its failure. *)
Definition EnsureLogicalOwner (entropy : res string) (source sessionID : string) : M Store string :=
  let source := normalizeSessionSource source in
  if str_empty (TrimSpace sessionID) then fail_msg "session id is required"
  else
    raw ← of_res entropy;
    _ ← sql_exec (λ d, Ok (insert_owner (source, sessionID) (newOpaqueID raw) d, tt));
    LogicalOwnerForSession source sessionID.

Definition BindLogicalOwner (source sessionID ownerID : string) : M Store unit :=
  let source := normalizeSessionSource source in
  if str_empty (TrimSpace sessionID) || str_empty (TrimSpace ownerID) then
    fail_msg "session id and logical owner id are required"
  else
    _ ← sql_exec (λ d, Ok (insert_owner (source, sessionID) ownerID d, tt));
    existing ← LogicalOwnerForSession source sessionID;
    if bool_decide (existing ≠ ownerID) then throw (ErrSentinel ErrLogicalOwnerConflict) else mret tt.

(** ** Attachments *)

Definition SaveAttachment (r : AttachmentRecord) : M Store unit :=
  if str_empty (TrimSpace (at_AttachmentID r)) || str_empty (TrimSpace (at_LogicalOwnerID r)) then
    fail_msg "attachment id and logical owner id are required"
  else if (2 ^ 63 - 1 <? at_SizeBytes r)%Z then fail_msg "attachment size is too large to persist"
  else sql_exec (λ d,
    match db_image_attachments d !! at_AttachmentID r with
    | Some _ => Err (ErrText "UNIQUE constraint failed: image_attachments.attachment_id")
    | None => Ok (set_db_image_attachments (<[at_AttachmentID r := r]> (db_image_attachments d)) d, tt)
    end).

Definition GetAttachment (logicalOwnerID attachmentID : string) : M Store AttachmentRecord :=
  r ← sql_query (λ d, row (
    match db_image_attachments d !! attachmentID with
    | Some r => if bool_decide (at_LogicalOwnerID r = logicalOwnerID) then Some r else None
    | None => None
    end));
  if (at_SizeBytes r <? 0)%Z then fail_msg "persisted attachment size is negative" else mret r.

(** ** Current view and event heads *)

Definition SetCurrentView (now : Z) (codexID viewJSON : string) : M Store unit :=
  n ← sql_exec (λ d,
    match db_codexes d !! codexID with
    | Some r => Ok (set_db_codexes (<[codexID :=
          set_cr_LastActivityAtUnixMS now (set_cr_CurrentViewJSON viewJSON r)]> (db_codexes d)) d, 1%Z)
    | None => Ok (d, 0%Z)
    end);
  if bool_decide (n ≠ 1%Z) then throw (ErrSentinel ErrNoRows) else mret tt.

Definition CurrentViewJSON (codexID : string) : M Store string :=
  sql_query (λ d, cr_CurrentViewJSON <$> row (db_codexes d !! codexID)).

(** The durable event boundary of a Codex: its head, 0 if none was allocated, and
    its view. *)
Definition event_state (d : DB) (codexID : string) : option (Z * string) :=
  match db_codexes d !! codexID with
  | Some r => Some (default 0%Z (db_event_heads d !! codexID), cr_CurrentViewJSON r)
  | None => None
  end.

Definition LoadEventState (codexID : string) : M Store (Z * string) :=
  sql_query (λ d, row (event_state d codexID)).

(** [INSERT ... VALUES(?,0) ON CONFLICT DO NOTHING]. *)
Definition ensure_head (codexID : string) (d : DB) : DB :=
  match db_event_heads d !! codexID with
  | Some _ => d
  | None => set_db_event_heads (<[codexID := 0%Z]> (db_event_heads d)) d
  end.

(** [UPDATE event_heads SET head_seq=head_seq+1 ... RETURNING head_seq].  A SQLite
    INTEGER has 64 bits with sign; past its largest value the sum is a REAL, which
    does not scan into a uint64. *)
Definition incr_head (codexID : string) (d : DB) : res (DB * Z) :=
  match db_event_heads d !! codexID with
  | Some h =>
      if (h + 1 <? 2 ^ 63)%Z then
        Ok (set_db_event_heads (<[codexID := (h + 1)%Z]> (db_event_heads d)) d, (h + 1)%Z)
      else Err (ErrText "sql: Scan error on column index 0: converting driver.Value type float64 to a uint64")
  | None => Err (ErrSentinel ErrNoRows)
  end.

Definition commit_unknown (e : goerr) : goerr :=
  ErrWrapped "" (ErrSentinel ErrEventCommitOutcomeUnknown) (": " +:+ error_text e).

Definition CommitEvent (now : Z) (codexID : string) (buildView : option (Z → res string)) : M Store Z :=
  match buildView with
  | None => fail_msg "codex id and event view builder are required"
  | Some buildView =>
  if str_empty codexID then fail_msg "codex id and event view builder are required"
  else with_tx commit_unknown (
    _ ← sql_query (λ d, row (db_codexes d !! codexID));
    _ ← tx_exec (λ d, Ok (ensure_head codexID d, tt));
    seq ← tx_exec (incr_head codexID);
    viewJSON ← of_res (buildView seq);
    if str_empty viewJSON then fail_msg "event CurrentView is required"
    else
      updated ← tx_exec (λ d,
        match db_codexes d !! codexID with
        | Some r => Ok (set_db_codexes (<[codexID :=
              set_cr_LastActivityAtUnixMS now (set_cr_CurrentViewJSON viewJSON r)]> (db_codexes d)) d, 1%Z)
        | None => Ok (d, 0%Z)
        end);
      if bool_decide (updated ≠ 1%Z) then throw (ErrSentinel ErrNoRows)
      else mret (TxCommit seq))
  end.

Definition NextEventSequence (codexID : string) : M Store Z :=
  with_tx id (
    _ ← tx_exec (λ d, Ok (ensure_head codexID d, tt));
    seq ← tx_exec (incr_head codexID);
    mret (TxCommit seq)).

Definition EventHead (codexID : string) : M Store Z :=
  r ← attempt (sql_query (λ d, row (db_event_heads d !! codexID)));
  match r with
  | Ok seq => mret seq
  | Err e => if errorsIs e ErrNoRows then mret 0%Z else throw e
  end.

(** ** Resolved pending requests *)

Definition SaveResolvedPending (now : Z) (codexID pendingID kind resolvedJSON : string) : M Store unit :=
  if str_empty codexID || str_empty pendingID || str_empty kind || str_empty resolvedJSON then
    fail_msg "resolved pending identity, kind and state are required"
  else sql_exec (λ d, Ok (set_db_resolved_pending
    (<[(codexID, pendingID) := (kind, resolvedJSON, now)]> (db_resolved_pending d)) d, tt)).

Definition ResolvedPending (codexID pendingID : string) : M Store (string * string) :=
  sql_query (λ d, fst <$> row (db_resolved_pending d !! (codexID, pendingID))).

(** ** The operations of the store as one alphabet

    Every exported method that can change the database, as a step of a caller. *)
Inductive store_op :=
| OpBeginRequest (now : Z) (id op fp : string)
| OpCompleteRequest (now : Z) (id resp : string)
| OpUpsertCodex (r : CodexRecord)
| OpDeleteCodex (id : string)
| OpUpsertForgotten (r : ForgottenSessionRecord)
| OpDeleteForgotten (source id : string)
| OpEnsureOwner (entropy : res string) (source id : string)
| OpBindOwner (source id owner : string)
| OpSaveAttachment (r : AttachmentRecord)
| OpSetCurrentView (now : Z) (id view : string)
| OpCommitEvent (now : Z) (id : string) (build : option (Z → res string))
| OpNextSequence (id : string)
| OpSaveResolved (now : Z) (id pid kind json : string).

Definition run_op (op : store_op) (s : Store) : Store :=
  match op with
  | OpBeginRequest now id op fp => (BeginRequest now id op fp s).1
  | OpCompleteRequest now id resp => (CompleteRequest now id resp s).1
  | OpUpsertCodex r => (UpsertCodex r s).1
  | OpDeleteCodex id => (DeleteCodex id s).1
  | OpUpsertForgotten r => (UpsertForgottenSession r s).1
  | OpDeleteForgotten source id => (DeleteForgottenSession source id s).1
  | OpEnsureOwner e source id => (EnsureLogicalOwner e source id s).1
  | OpBindOwner source id owner => (BindLogicalOwner source id owner s).1
  | OpSaveAttachment r => (SaveAttachment r s).1
  | OpSetCurrentView now id view => (SetCurrentView now id view s).1
  | OpCommitEvent now id build => (CommitEvent now id build s).1
  | OpNextSequence id => (NextEventSequence id s).1
  | OpSaveResolved now id pid kind json => (SaveResolvedPending now id pid kind json s).1
  end.

Fixpoint run_ops (ops : list store_op) (s : Store) : Store :=
  match ops with
  | [] => s
  | op :: ops => run_ops ops (run_op op s)
  end.

(** ** The abstract specification: atomic transitions of the database

    What each method promises, without statements, transactions or failures: one
    transition relates the database before and after. *)

(** The row [BeginRequest] reserves. *)
Definition reserved (now : Z) (op fp : string) : DedupRow := mkDedupRow op fp IN_PROGRESS "" now 0.

(** The row [CompleteRequest] leaves. *)
Definition completed (now : Z) (resp : string) (r : DedupRow) : DedupRow :=
  mkDedupRow (dr_operation r) (dr_fingerprint r) COMPLETED resp (dr_created_at_ms r) now.

Definition with_view (now : Z) (view : string) (r : CodexRecord) : CodexRecord :=
  set_cr_LastActivityAtUnixMS now (set_cr_CurrentViewJSON view r).

(** The event [seq] of [id] is durable together with [view]. *)
Definition event_applied (now : Z) (id view : string) (seq : Z) (d d' : DB) : Prop :=
  ∃ r, db_codexes d !! id = Some r ∧ view ≠ EmptyString ∧
    seq = (default 0 (db_event_heads d !! id) + 1)%Z ∧ (seq < 2 ^ 63)%Z ∧
    d' = set_db_codexes (<[id := with_view now view r]> (db_codexes d))
           (set_db_event_heads (<[id := seq]> (db_event_heads d)) d).

(** Everything the Host keeps for a Codex is gone. *)
Definition codex_erased (id : string) (d : DB) : DB :=
  set_db_codexes (delete id (db_codexes d))
    (set_db_event_heads (delete id (db_event_heads d))
      (set_db_resolved_pending (without_codex id (db_resolved_pending d)) d)).

(** The row an upsert writes. *)
Definition upserted (r : CodexRecord) (d : DB) : CodexRecord :=
  match db_codexes d !! cr_CodexID r with
  | Some old => set_cr_CreatedAtUnixMS (cr_CreatedAtUnixMS old) r
  | None => r
  end.

Inductive db_step : store_op → DB → DB → Prop :=
| step_begin d now id op fp :
    db_request_dedup d !! id = None → id ≠ EmptyString →
    db_step (OpBeginRequest now id op fp) d
      (set_db_request_dedup (<[id := reserved now op fp]> (db_request_dedup d)) d)
| step_complete d now id resp r :
    db_request_dedup d !! id = Some r → dr_status r = IN_PROGRESS → resp ≠ EmptyString →
    db_step (OpCompleteRequest now id resp) d
      (set_db_request_dedup (<[id := completed now resp r]> (db_request_dedup d)) d)
| step_upsert d r0 r :
    r = set_cr_SessionSource (normalizeSessionSource (cr_SessionSource r0)) r0 →
    session_taken d (cr_CodexID r) (cr_SessionSource r) (cr_ThreadID r) = false →
    db_step (OpUpsertCodex r0) d (set_db_codexes (<[cr_CodexID r := upserted r d]> (db_codexes d)) d)
| step_erase d id :
    is_Some (db_codexes d !! id) → db_step (OpDeleteCodex id) d (codex_erased id d)
| step_remember d r0 r :
    r = set_fs_Source (normalizeSessionSource (fs_Source r0)) r0 →
    db_step (OpUpsertForgotten r0) d
      (set_db_forgotten_sessions (<[(fs_Source r, fs_SessionID r) := r]> (db_forgotten_sessions d)) d)
| step_unforget d source id :
    db_step (OpDeleteForgotten source id) d
      (set_db_forgotten_sessions (delete (normalizeSessionSource source, id) (db_forgotten_sessions d)) d)
| step_own d source id raw k :
    k = (normalizeSessionSource source, id) → db_session_logical_owners d !! k = None →
    db_step (OpEnsureOwner (Ok raw) source id) d
      (set_db_session_logical_owners (<[k := newOpaqueID raw]> (db_session_logical_owners d)) d)
| step_bind d source id owner k :
    k = (normalizeSessionSource source, id) → db_session_logical_owners d !! k = None →
    db_step (OpBindOwner source id owner) d
      (set_db_session_logical_owners (<[k := owner]> (db_session_logical_owners d)) d)
| step_attach d r :
    db_image_attachments d !! at_AttachmentID r = None → (at_SizeBytes r < 2 ^ 63)%Z →
    db_step (OpSaveAttachment r) d
      (set_db_image_attachments (<[at_AttachmentID r := r]> (db_image_attachments d)) d)
| step_view d now id view r :
    db_codexes d !! id = Some r →
    db_step (OpSetCurrentView now id view) d
      (set_db_codexes (<[id := with_view now view r]> (db_codexes d)) d)
| step_event d d' now id build view seq :
    build seq = Ok view → event_applied now id view seq d d' →
    db_step (OpCommitEvent now id (Some build)) d d'
| step_sequence d id :
    (default 0 (db_event_heads d !! id) + 1 < 2 ^ 63)%Z →
    db_step (OpNextSequence id) d
      (set_db_event_heads (<[id := (default 0 (db_event_heads d !! id) + 1)%Z]> (db_event_heads d)) d)
| step_resolve d now id pid kind json :
    db_step (OpSaveResolved now id pid kind json) d
      (set_db_resolved_pending (<[(id, pid) := (kind, json, now)]> (db_resolved_pending d)) d).

(** ** Statements and transactions change the database as the specification allows *)

Lemma pop_db s o s' : pop s = (o, s') → st_db s' = st_db s.
Proof. unfold pop. destruct (st_oracle s); intros; by simplify_eq. Qed.

Lemma sql_query_inv {A} (q : DB → res A) s s' r :
  sql_query q s = (s', r) →
  st_db s' = st_db s ∧ (r = q (st_db s) ∨ ∃ f, r = Err (fault_err f)).
Proof.
  unfold sql_query. destruct (pop s) as [o s1] eqn:E. apply pop_db in E.
  destruct o; intros; simplify_eq; rewrite E; eauto.
Qed.

Lemma sql_query_ok {A} (q : DB → res A) s s' a :
  sql_query q s = (s', Ok a) → st_db s' = st_db s ∧ q (st_db s) = Ok a.
Proof. intros [? [?|(?&?)]]%sql_query_inv; by simplify_eq. Qed.

Lemma row_inv {A} (o : option A) a : row o = Ok a → o = Some a.
Proof. destruct o; simpl; intros; by simplify_eq. Qed.

Lemma sql_exec_inv {A} (w : DB → res (DB * A)) s s' r :
  sql_exec w s = (s', r) →
  (∃ a, r = Ok a ∧ w (st_db s) = Ok (st_db s', a)) ∨
  (∃ e, r = Err e ∧ (st_db s' = st_db s ∨ ∃ a, w (st_db s) = Ok (st_db s', a))).
Proof.
  unfold sql_exec. destruct (pop s) as [o s1] eqn:E. apply pop_db in E. rewrite E.
  destruct o as [|f []], (w (st_db s)) as [[d a]|e] eqn:W; intros; simplify_eq/=; eauto 8.
Qed.

Lemma tx_exec_inv {A} (w : DB → res (DB * A)) s s' r :
  tx_exec w s = (s', r) →
  (∃ a, r = Ok a ∧ w (st_db s) = Ok (st_db s', a)) ∨ (∃ e, r = Err e ∧ st_db s' = st_db s).
Proof.
  unfold tx_exec. destruct (pop s) as [o s1] eqn:E. apply pop_db in E. rewrite E.
  destruct o as [|f b], (w (st_db s)) as [[d a]|e] eqn:W; intros; simplify_eq/=; eauto 8.
Qed.

(** A transaction either leaves the database alone or leaves what its body built;
    it reports success only in the second case or when the body returned early. *)
Lemma with_tx_inv {A} wrap (body : M Store (txend A)) s s' r :
  with_tx wrap body s = (s', r) →
  (∃ s0 s1 a, st_db s0 = st_db s ∧ body s0 = (s1, Ok (TxCommit a)) ∧
     ((st_db s' = st_db s1 ∧ (r = Ok a ∨ ∃ f, r = Err (wrap (fault_err f)))) ∨
      (st_db s' = st_db s ∧ ∃ f, r = Err (wrap (fault_err f))))) ∨
  (st_db s' = st_db s ∧
     ((∃ f, r = Err (fault_err f)) ∨
      ∃ s0 s1, st_db s0 = st_db s ∧
        (body s0 = (s1, Ok (TxReturn r)) ∨ ∃ e, body s0 = (s1, Err e) ∧ r = Err e))).
Proof.
  unfold with_tx. destruct (pop s) as [o s0] eqn:E. apply pop_db in E.
  destruct o as [|f b]; [|intros; simplify_eq; eauto].
  destruct (body s0) as [s1 [[a|r1]|e]] eqn:B.
  - destruct (pop s1) as [o s2] eqn:E2. apply pop_db in E2.
    destruct o as [|f []]; intros; simplify_eq/=; left; exists s0, s1, a; eauto 8.
  - intros; simplify_eq/=; right; eauto 8.
  - intros; simplify_eq/=; right; split; [done|]. right. exists s0, s1. eauto.
Qed.

(** Walk through a successful or failed run of a method, statement by statement. *)
Ltac run_step :=
  match goal with
  | H : mbind _ _ _ = (_, Ok _) |- _ => apply M_bind_inv_ok in H as (?&?&?&?)
  | H : mbind _ _ _ = (_, Err _) |- _ => apply M_bind_inv_err in H as [?|(?&?&?&?)]
  | H : mret _ _ = _ |- _ => unfold mret, M_ret in H; simplify_eq/=
  | H : throw _ _ = _ |- _ => unfold throw in H; simplify_eq/=
  | H : fail_msg _ _ = _ |- _ => unfold fail_msg, throw in H; simplify_eq/=
  | H : of_res _ _ = _ |- _ => unfold of_res in H; simplify_eq/=
  | H : attempt _ _ = (_, Ok _) |- _ => apply attempt_inv in H
  | H : (if ?b then _ else _) _ = _ |- _ => let E := fresh "E" in destruct b eqn:E
  | H : sql_query _ _ = (_, Ok _) |- _ => apply sql_query_ok in H as [? ?]
  | H : sql_query _ _ = _ |- _ => apply sql_query_inv in H as [? ?]
  | H : row _ = Ok _ |- _ => apply row_inv in H
  | H : tx_exec _ _ = _ |- _ => apply tx_exec_inv in H as [(?&?&?)|(?&?&?)]; simplify_eq/=
  end.
Ltac run_inv := repeat run_step.

Lemma equal_from_spec a b : equal_from a b = true ↔ a = b.
Proof.
  revert b. induction a as [|x a IH]; intros [|y b]; simpl; try (split; done).
  destruct (Ascii.eqb x y) eqn:E.
  - apply Ascii.eqb_eq in E as ->. rewrite IH. split; congruence.
  - split; [done|]. intros [= -> _]. by rewrite Ascii.eqb_refl in E.
Qed.

Lemma equalBytes_spec a b : equalBytes a b = true ↔ a = b.
Proof.
  unfold equalBytes. case_bool_decide as H; [|apply equal_from_spec].
  split; [done|]. intros ->. done.
Qed.

Lemma ensure_incr id d d' h :
  incr_head id (ensure_head id d) = Ok (d', h) →
  h = (default 0 (db_event_heads d !! id) + 1)%Z ∧ (h < 2 ^ 63)%Z ∧
  d' = set_db_event_heads (<[id := h]> (db_event_heads d)) d.
Proof.
  unfold incr_head, ensure_head. destruct (db_event_heads d !! id) as [h0|] eqn:E.
  - rewrite E. case_match; intros; simplify_eq/=. to_prop. done.
  - change (db_event_heads (set_db_event_heads ?m d)) with m. rewrite lookup_insert_eq.
    intros; simplify_eq/=. split_and!; [done|done|].
    by rewrite insert_insert_eq.
Qed.

(** [CommitEvent] in full: success means the next sequence and its view are
    durable together; a failure changed nothing, unless the commit itself is
    reported as unknown, and then either nothing or the whole event is durable. *)
Lemma CommitEvent_inv now id build s s' r :
  CommitEvent now id (Some build) s = (s', r) →
  match r with
  | Ok seq => ∃ view, build seq = Ok view ∧ event_applied now id view seq (st_db s) (st_db s')
  | Err e => st_db s' = st_db s ∨
      (∃ f view seq, e = commit_unknown (fault_err f) ∧ build seq = Ok view ∧
         event_applied now id view seq (st_db s) (st_db s'))
  end.
Proof.
  unfold CommitEvent. destruct (str_empty id); [intros; run_inv; auto|].
  intros H. apply with_tx_inv in H as [(s0&s1&a&E0&B&H)|(E&H)].
  - assert (∃ view, build a = Ok view ∧ event_applied now id view a (st_db s) (st_db s1)) as (view&Hb&Ha).
    { run_inv.
      repeat match goal with H : st_db ?x = st_db _ |- _ => rewrite H in *; clear H end.
      match goal with H : ensure_head _ _ = _ |- _ => rewrite <-H in * end.
      match goal with H : incr_head _ _ = _ |- _ => apply ensure_incr in H as (Hseq&Hmax&Hdb) end.
      rewrite Hdb in *. simplify_option_eq. eexists; split; [done|].
      eexists; split_and!; try done. by intros ->. }
    destruct H as [[-> [->|[f ->]]]|[-> [f ->]]]; eauto 8.
  - destruct H as [[f ->]|(s0&s1&E0&[B|(e&B&->)])]; auto. run_inv.
Qed.

(** At most one transition of the specification. *)
Definition db_step_opt (op : store_op) (d d' : DB) : Prop := d' = d ∨ db_step op d d'.

Lemma sql_exec_step {A} op (w : DB → res (DB * A)) s s' r :
  (∀ d' a, w (st_db s) = Ok (d', a) → db_step_opt op (st_db s) d') →
  sql_exec w s = (s', r) → db_step_opt op (st_db s) (st_db s').
Proof.
  intros Hw. intros [(a&->&H)|(e&->&[->|[a H]])]%sql_exec_inv; eauto; by left.
Qed.

Lemma BeginRequest_inv now id op fp s s' r :
  BeginRequest now id op fp s = (s', r) →
  (st_db s' = st_db s ∧
     (∀ st resp, r = Ok (st, resp) → ∃ row, db_request_dedup (st_db s) !! id = Some row ∧
        dr_operation row = op ∧ dr_fingerprint row = fp ∧
        st = DedupCompleted ∧ dr_status row = COMPLETED ∧ resp = dr_response_json row)) ∨
  (db_request_dedup (st_db s) !! id = None ∧ id ≠ EmptyString ∧
     st_db s' = set_db_request_dedup (<[id := reserved now op fp]> (db_request_dedup (st_db s))) (st_db s) ∧
     (r = Ok (DedupStarted, EmptyString) ∨ ∃ f, r = Err (fault_err f))).
Proof.
  unfold BeginRequest. destruct (_ || _) eqn:G; [intros; run_inv; left; split; [done|]; intros; simplify_eq|].
  to_prop. intros [(s0&s1&a&E0&B&HR)|(E&HR)]%with_tx_inv.
  - run_inv. destruct x0 as [row|e]; run_inv.
    match goal with H : Err _ = _ ∨ _ |- _ => destruct H as [H|[f ?]]; [|by destruct f; simplify_eq] end.
    repeat match goal with H : st_db ?x = st_db _ |- _ => rewrite H in *; clear H end.
    destruct (db_request_dedup (st_db s) !! id) eqn:L; simplify_eq/=.
    destruct HR as [[-> [->|[f ->]]]|[-> [f ->]]].
    + right. split_and!; [done|by intros -> |done|eauto].
    + right. split_and!; [done|by intros -> |done|eauto].
    + left. split; [done|]. intros. simplify_eq.
  - left. split; [done|]. intros st resp ->.
    destruct HR as [[f ?]|(s0&s1&E0&[B|(e&B&?)])]; simplify_eq. run_inv.
    destruct x0 as [row|e]; run_inv.
    match goal with H : Ok _ = _ ∨ _ |- _ => destruct H as [H|[f ?]]; [|done] end.
    match goal with H : Ok _ = _ |- _ => symmetry in H; apply row_inv in H end.
    to_prop. match goal with H : equalBytes _ _ = true |- _ => apply equalBytes_spec in H end.
    exists row. rewrite <-E0. by split_and!.
Qed.

Lemma DeleteCodex_inv id s s' r :
  DeleteCodex id s = (s', r) →
  (is_Some (db_codexes (st_db s) !! id) ∧ st_db s' = codex_erased id (st_db s) ∧
     (r = Ok tt ∨ ∃ f, r = Err (fault_err f))) ∨
  (st_db s' = st_db s ∧ ∃ e, r = Err e).
Proof.
  unfold DeleteCodex. destruct (str_empty id); [intros; run_inv; eauto|].
  intros [(s0&s1&a&E0&B&H)|(E&[[f ->]|(s0&s1&E0&[B|(e&B&->)])])]%with_tx_inv; eauto.
  - run_inv. repeat match goal with H : st_db ?x = st_db _ |- _ => rewrite H in *; clear H end.
    destruct H as [[-> [->|[f ->]]]|[-> [f ->]]]; [left|left|by eauto].
    all: split_and!; [eauto| |by eauto].
    all: repeat match goal with H : _ = st_db _ |- _ => rewrite <-H end; done.
  - run_inv.
Qed.

Lemma NextEventSequence_inv id s s' r :
  NextEventSequence id s = (s', r) → db_step_opt (OpNextSequence id) (st_db s) (st_db s').
Proof.
  intros [(s0&s1&a&E0&B&H)|(E&_)]%with_tx_inv; [|by left].
  run_inv. repeat match goal with H : st_db ?x = st_db _ |- _ => rewrite H in *; clear H end.
  match goal with H : ensure_head _ _ = _ |- _ => rewrite <-H in * end.
  match goal with H : incr_head _ _ = _ |- _ => apply ensure_incr in H as (Hseq&Hmax&Hdb) end.
  destruct H as [[-> _]|[-> _]]; [|by left]. rewrite Hdb, Hseq. right. apply step_sequence. lia.
Qed.

Lemma insert_owner_cases k owner d :
  insert_owner k owner d = d ∨
  (db_session_logical_owners d !! k = None ∧
   insert_owner k owner d =
     set_db_session_logical_owners (<[k := owner]> (db_session_logical_owners d)) d).
Proof. unfold insert_owner. destruct (db_session_logical_owners d !! k) eqn:E; auto. Qed.

Lemma sql_query_step {A} (q : DB → res A) s s' r :
  sql_query q s = (s', r) → st_db s' = st_db s.
Proof. by intros [? _]%sql_query_inv. Qed.

#[export] Hint Constructors db_step : codex.

(** A method that is one autocommit write, possibly followed by work that only
    reads. *)
Lemma exec_then_step {A B} op (w : DB → res (DB * A)) (k : A → M Store B) s :
  (∀ d' a, w (st_db s) = Ok (d', a) → db_step_opt op (st_db s) d') →
  (∀ a s1, st_db (k a s1).1 = st_db s1) →
  db_step_opt op (st_db s) (st_db ((sql_exec w ≫= k) s).1).
Proof.
  intros Hw Hk. unfold mbind, M_bind. destruct (sql_exec w s) as [s1 [a|e]] eqn:E; simpl.
  - rewrite Hk. by eapply sql_exec_step.
  - by eapply sql_exec_step.
Qed.

Lemma exec_step {A} op (w : DB → res (DB * A)) s :
  (∀ d' a, w (st_db s) = Ok (d', a) → db_step_opt op (st_db s) d') →
  db_step_opt op (st_db s) (st_db (sql_exec w s).1).
Proof. intros Hw. destruct (sql_exec w s) as [s1 r] eqn:E. by eapply sql_exec_step. Qed.

Lemma LogicalOwnerForSession_db source id s : st_db (LogicalOwnerForSession source id s).1 = st_db s.
Proof.
  unfold LogicalOwnerForSession. destruct (sql_query _ s) eqn:E.
  by eapply sql_query_step.
Qed.

(** Every method of the store, under every pattern of statement and commit
    failures, performs at most one atomic transition. *)
Lemma run_op_step op s : db_step_opt op (st_db s) (st_db (run_op op s)).
Proof.
  destruct op; simpl.
  - destruct (BeginRequest _ _ _ _ _) as [s' r] eqn:E; simpl.
    apply BeginRequest_inv in E as [[-> _]|(?&?&->&_)]; [by left|right; by apply step_begin].
  - unfold CompleteRequest. destruct (str_empty resp) eqn:Er; [by left|].
    apply exec_then_step; [|intros; by case_match].
    intros d' a. destruct (db_request_dedup (st_db s) !! id) as [[op fp [] ? ? ?]|] eqn:L;
      intros; simplify_eq; [|by left..].
    right. apply (step_complete _ now id resp _ L); [done|by intros ->].
  - apply exec_step. intros d' a. case_match eqn:Ht; intros [= <- _].
    right. by apply (step_upsert _ r _ eq_refl).
  - destruct (DeleteCodex _ _) as [s' r] eqn:E; simpl.
    apply DeleteCodex_inv in E as [(?&->&_)|[-> _]]; [right; by apply step_erase|by left].
  - unfold UpsertForgottenSession. case_match; [by left|].
    apply exec_step. intros; simplify_eq. right. by apply (step_remember _ r _ eq_refl).
  - apply exec_step. intros; simplify_eq. right. apply step_unforget.
  - unfold EnsureLogicalOwner. case_match; [by left|]. destruct entropy as [raw|e]; [|by left].
    apply exec_then_step; [|intros; apply LogicalOwnerForSession_db].
    intros ? ? [= <- _]. destruct (insert_owner_cases (normalizeSessionSource source, id) (newOpaqueID raw) (st_db s))
      as [->|[? ->]]; [by left|right; by apply step_own].
  - unfold BindLogicalOwner. case_match; [by left|].
    apply exec_then_step.
    { intros ? ? [= <- _]. destruct (insert_owner_cases (normalizeSessionSource source, id) owner (st_db s))
        as [->|[? ->]]; [by left|right; by apply step_bind]. }
    intros [] s1. pose proof (LogicalOwnerForSession_db (normalizeSessionSource source) id s1) as Hq.
    unfold mbind, M_bind. destruct (LogicalOwnerForSession _ _ s1) as [s2 [o|e]]; [|done].
    simpl in *. by case_match.
  - unfold SaveAttachment. case_match; [by left|]. case_match; [by left|]. to_prop.
    apply exec_step. intros d' a. case_match eqn:L; intros; simplify_eq. right.
    apply step_attach; [done|lia].
  - apply exec_then_step; [|intros; by case_match].
    intros d' a. destruct (db_codexes (st_db s) !! id) eqn:L; intros; simplify_eq; [|by left].
    right. by apply step_view.
  - destruct build as [build|]; [|by left].
    destruct (CommitEvent _ _ _ _) as [s' r] eqn:E; simpl. apply CommitEvent_inv in E.
    destruct r as [seq|e]; [destruct E as (?&?&?)|destruct E as [->|(?&?&?&_&?&?)]];
      [right; by eapply step_event|by left|right; by eapply step_event].
  - destruct (NextEventSequence _ _) as [s' r] eqn:E. by eapply NextEventSequence_inv.
  - unfold SaveResolvedPending. case_match; [by left|]. apply exec_step.
    intros; simplify_eq. right. apply step_resolve.
Qed.

(** ** Invariants of the database *)

(** Rows sit under their own key and a native session belongs to one Codex. *)
Definition codexes_wf (d : DB) : Prop :=
  (∀ id r, db_codexes d !! id = Some r → cr_CodexID r = id) ∧
  (∀ i j ri rj, db_codexes d !! i = Some ri → db_codexes d !! j = Some rj →
     cr_SessionSource ri = cr_SessionSource rj → cr_ThreadID ri = cr_ThreadID rj → i = j).

(** What is promised never to be taken back: bound owners, stored attachments,
    reserved request ids with their payload, and completed responses. *)
Definition durable_extends (d d' : DB) : Prop :=
  db_session_logical_owners d ⊆ db_session_logical_owners d' ∧
  db_image_attachments d ⊆ db_image_attachments d' ∧
  (∀ id r, db_request_dedup d !! id = Some r → ∃ r', db_request_dedup d' !! id = Some r' ∧
     dr_operation r' = dr_operation r ∧ dr_fingerprint r' = dr_fingerprint r ∧
     (dr_status r = COMPLETED → r' = r)).

#[export] Instance durable_extends_preorder : PreOrder durable_extends.
Proof.
  split.
  - intros d. split_and!; [done..|]. eauto.
  - intros d1 d2 d3 (Ho&Ha&Hd) (Ho'&Ha'&Hd'). split_and!; [by etrans|by etrans|].
    intros id r (r2&L2&Eo&Ef&Hc)%Hd. destruct (Hd' _ _ L2) as (r3&L3&Eo3&Ef3&Hc3).
    exists r3. split_and!; [done|congruence|congruence|].
    intros Hr. specialize (Hc Hr). subst. auto.
Qed.

Lemma session_taken_false d id source thread :
  session_taken d id source thread = false →
  ∀ j r, db_codexes d !! j = Some r → cr_SessionSource r = source → cr_ThreadID r = thread → j = id.
Proof.
  unfold session_taken. intros H j r Hj Hs Ht. to_prop.
  destruct (decide (j = id)) as [|Hne]; [done|]. destruct H. by exists j, r.
Qed.

(** Replacing a row by one of the same identity keeps the invariant. *)
Lemma codexes_wf_update d id r r' :
  codexes_wf d → db_codexes d !! id = Some r →
  cr_CodexID r' = cr_CodexID r → cr_SessionSource r' = cr_SessionSource r → cr_ThreadID r' = cr_ThreadID r →
  codexes_wf (set_db_codexes (<[id := r']> (db_codexes d)) d).
Proof.
  intros [Hk Hu] L Ei Es Et. split; simpl.
  - intros i q. rewrite lookup_insert. case_decide; intros; simplify_eq; [rewrite Ei|]; eauto.
  - intros i j ri rj. rewrite !lookup_insert. repeat case_decide; intros; simplify_eq; auto;
      eapply Hu; eauto; congruence.
Qed.

Lemma db_step_codexes_wf op d d' : db_step op d d' → codexes_wf d → codexes_wf d'.
Proof.
  intros Hstep Hwf. destruct Hstep as [| |d r0 r _ Ht|d id _| | | | | |d now id view r L|d d' now id b view seq _ (r&L&_&_&_&->)| |];
    try exact Hwf.
  - destruct Hwf as [Hk Hu]. pose proof (session_taken_false _ _ _ _ Ht) as Hfree.
    assert (cr_CodexID (upserted r d) = cr_CodexID r ∧ cr_SessionSource (upserted r d) = cr_SessionSource r
      ∧ cr_ThreadID (upserted r d) = cr_ThreadID r) as (Ei&Es&Et) by (unfold upserted; by case_match).
    split; simpl.
    + intros i q. rewrite lookup_insert. case_decide; intros; simplify_eq; eauto.
    + intros i j ri rj. rewrite !lookup_insert.
      repeat case_decide; intros; simplify_eq; eauto;
        first [eapply Hfree; eauto; congruence | symmetry; eapply Hfree; eauto; congruence].
  - destruct Hwf as [Hk Hu]. split; simpl.
    + intros i q [_ ?]%lookup_delete_Some. eauto.
    + intros i j ri rj [_ ?]%lookup_delete_Some [_ ?]%lookup_delete_Some. eauto.
  - by apply (codexes_wf_update _ _ r).
  - apply (codexes_wf_update (set_db_event_heads _ d) _ r); done.
Qed.

Lemma db_step_durable op d d' : db_step op d d' → durable_extends d d'.
Proof.
  intros Hstep. destruct Hstep as [d now id o fp L _|d now id resp r L Hs _| | | | |d src id raw k _ L|d src id owner k _ L|d r L _| |d d' now id b view seq _ (r&_&_&_&_&->)| |];
    try (split_and!; simpl; by eauto).
  - split_and!; [done..|]. simpl. intros i q Hi. exists q. split_and!; [|done..].
    rewrite lookup_insert_ne; [done|congruence].
  - split_and!; [done..|]. simpl. intros i q Hi. rewrite lookup_insert. case_decide; subst.
    + simplify_eq. eexists; split_and!; [done..|congruence].
    + eauto.
  - split_and!; simpl; [by apply insert_subseteq|done|eauto].
  - split_and!; simpl; [by apply insert_subseteq|done|eauto].
  - split_and!; simpl; [done|by apply insert_subseteq|eauto].
Qed.

Lemma run_ops_invariant (P : DB → DB → Prop) ops s :
  (∀ d, P d d) → (∀ d1 d2 d3, P d1 d2 → P d2 d3 → P d1 d3) → (∀ op d d', db_step op d d' → P d d') →
  P (st_db s) (st_db (run_ops ops s)).
Proof.
  intros Hr Ht Hs. revert s. induction ops as [|op ops IH]; intros s; simpl; [done|].
  eapply Ht; [|apply IH]. destruct (run_op_step op s) as [->|?]; eauto.
Qed.

(** The head a reader sees: 0 when no event was allocated. *)
Definition head_of (d : DB) (id : string) : Z := default 0%Z (db_event_heads d !! id).

Definition deletes (id : string) (op : store_op) : bool :=
  match op with OpDeleteCodex id' => bool_decide (id' = id) | _ => false end.

Lemma head_of_insert d id j h : (head_of d j ≤ h)%Z →
  (head_of d id ≤ default 0 (<[j := h]> (db_event_heads d) !! id))%Z.
Proof.
  unfold head_of. intros H. destruct (decide (j = id)) as [->|Hne].
  - by rewrite lookup_insert_eq.
  - by rewrite lookup_insert_ne.
Qed.

(** Only [DeleteCodex id] lowers the head of [id]. *)
Lemma db_step_head op d d' id :
  db_step op d d' → deletes id op = false → (head_of d id ≤ head_of d' id)%Z.
Proof.
  intros Hstep. destruct Hstep as [| | |d j Hj| | | | | | |d d' now j b view seq _ (r&_&_&Hq&_&->)|d j|];
    intros Hd; try (unfold head_of; simpl; lia).
  - simpl in Hd. to_prop. unfold head_of. simpl. by rewrite lookup_delete_ne.
  - apply head_of_insert. subst. unfold head_of. lia.
  - apply head_of_insert. unfold head_of. lia.
Qed.

Lemma run_ops_head ops s id :
  Forall (λ op, deletes id op = false) ops →
  (head_of (st_db s) id ≤ head_of (st_db (run_ops ops s)) id)%Z.
Proof.
  intros Hf. revert s. induction Hf as [|op ops Hop _ IH]; intros s; simpl; [lia|].
  etrans; [|apply IH]. destruct (run_op_step op s) as [->|?]; [done|]. by eapply db_step_head.
Qed.

Lemma run_ops_durable ops s : durable_extends (st_db s) (st_db (run_ops ops s)).
Proof.
  apply run_ops_invariant; [intros; done|intros; by etrans|]. intros. by eapply db_step_durable.
Qed.

(** ** Listing *)

#[export] Instance codex_le_total : Total codex_le.
Proof.
  intros a b. unfold codex_le.
  destruct (Z.lt_trichotomy (cr_LastActivityAtUnixMS a) (cr_LastActivityAtUnixMS b)) as [|[|]]; auto.
  destruct (String.leb_total (cr_CodexID a) (cr_CodexID b)); auto.
Qed.

(** Page [k] of the listing, with no statement failing. *)
Definition codex_page (d : DB) (limit : Z) (k : nat) : list CodexRecord :=
  match (ListCodexes limit (Z.of_nat k * limit) (mkStore d [])).2 with
  | Ok rows => rows
  | Err _ => []
  end.

Lemma codex_page_eq d limit k : (0 < limit)%Z →
  codex_page d limit k = take (Z.to_nat limit) (drop (k * Z.to_nat limit) (codex_rows d)).
Proof.
  intros Hl. unfold codex_page, ListCodexes.
  rewrite (proj2 (Z.leb_gt limit 0)), (proj2 (Z.ltb_ge (Z.of_nat k * limit) 0)) by nia.
  simpl. do 2 f_equal. nia.
Qed.

Lemma concat_chunks {A} (l : list A) c n :
  concat ((λ k, take c (drop (k * c) l)) <$> seq 0 n) = take (n * c) l.
Proof.
  induction n as [|n IH]; [done|].
  rewrite seq_S, fmap_app, concat_app, IH. simpl. rewrite app_nil_r.
  replace (c + n * c) with (n * c + c) by lia. by rewrite take_take_drop.
Qed.

(** ** Theorems *)

(** C8: every exported method of the store, under every pattern of statement,
    transaction and commit failures (commits whose effect the caller cannot know
    included), changes the database by at most one atomic transition of the
    specification, and only by the transition that method promises. *)
Theorem store_refines_spec op s : db_step_opt op (st_db s) (st_db (run_op op s)).
Proof. apply run_op_step. Qed.

(** C7: [CommitEvent] makes the next sequence number and the view built for it
    durable together or not at all: success means the event is applied; an error
    means nothing changed, except an error that wraps
    [ErrEventCommitOutcomeUnknown], which leaves either nothing or the whole event. *)
Theorem CommitEvent_atomic now id build s :
  let '(s', r) := CommitEvent now id (Some build) s in
  match r with
  | Ok seq => ∃ view, build seq = Ok view ∧ event_applied now id view seq (st_db s) (st_db s')
  | Err e => st_db s' = st_db s ∨
      (∃ f view seq, e = commit_unknown (fault_err f) ∧ build seq = Ok view ∧
         event_applied now id view seq (st_db s) (st_db s'))
  end.
Proof.
  destruct (CommitEvent now id (Some build) s) as [s' r] eqn:E.
  exact (CommitEvent_inv _ _ _ _ _ _ E).
Qed.

(** Over any sequence of store calls the table of Codexes stays keyed by its
    own ids and no native session (source and thread) ever belongs to two Codexes. *)
Theorem session_identity_unique ops s :
  codexes_wf (st_db s) → codexes_wf (st_db (run_ops ops s)).
Proof.
  intros Hwf. apply (run_ops_invariant (λ d d', codexes_wf d → codexes_wf d')); auto.
  intros op d d' Hs. exact (db_step_codexes_wf op d d' Hs).
Qed.

(** No sequence of store calls, whatever fails, rebinds a session to another
    logical owner, changes or drops a stored attachment, frees a reserved request
    id or its fingerprint, or alters a completed response. *)
Theorem durable_promises ops s : durable_extends (st_db s) (st_db (run_ops ops s)).
Proof. apply run_ops_durable. Qed.

(** As long as the Codex is not deleted, a later successful [CommitEvent]
    returns a strictly larger sequence than an earlier one, whatever other calls
    ran, failed or had an unknown outcome in between. *)
Theorem event_sequences_increase now1 now2 id b1 b2 s1 s2 s3 seq1 seq2 ops :
  CommitEvent now1 id (Some b1) s1 = (s2, Ok seq1) →
  Forall (λ op, deletes id op = false) ops →
  CommitEvent now2 id (Some b2) (run_ops ops s2) = (s3, Ok seq2) →
  (seq1 < seq2)%Z.
Proof.
  intros (v1&_&r1&_&_&_&_&Hd1)%CommitEvent_inv Hops (v2&_&r2&_&_&Hq2&_&_)%CommitEvent_inv.
  pose proof (run_ops_head ops s2 id Hops) as Hm. unfold head_of in Hm.
  rewrite Hd1 in Hm at 1. simpl in Hm. rewrite lookup_insert_eq in Hm. simpl in Hm. lia.
Qed.

(** The pages of [ListCodexes] at consecutive offsets, put together, are the
    table itself, every Codex once and newest activity first. *)
Theorem ListCodexes_pages d limit n :
  (0 < limit)%Z → (size (db_codexes d) ≤ n * Z.to_nat limit) →
  let all := concat (codex_page d limit <$> seq 0 n) in
  all ≡ₚ (map_to_list (db_codexes d)).*2 ∧ Sorted codex_le all.
Proof.
  intros Hl Hn all.
  assert (all = codex_rows d) as ->; [|split; [apply merge_sort_Permutation|apply Sorted_merge_sort, _]].
  unfold all. rewrite (list_fmap_ext _ (λ k, take (Z.to_nat limit) (drop (k * Z.to_nat limit) (codex_rows d)))).
  2: { intros; by apply codex_page_eq. }
  rewrite concat_chunks. apply take_ge. unfold codex_rows. rewrite merge_sort_Permutation.
  by rewrite length_fmap, length_map_to_list.
Qed.

(** A stored attachment is readable by its logical owner, unchanged, after any
    sequence of store calls, and by nobody else. *)
Theorem attachment_readback r s s' ops owner :
  SaveAttachment r s = (s', Ok tt) → (0 ≤ at_SizeBytes r)%Z →
  (GetAttachment owner (at_AttachmentID r) (mkStore (st_db (run_ops ops s')) [])).2 =
    if bool_decide (at_LogicalOwnerID r = owner) then Ok r else Err (ErrSentinel ErrNoRows).
Proof.
  intros Hsave Hsize.
  assert (db_image_attachments (st_db s') !! at_AttachmentID r = Some r) as L.
  { unfold SaveAttachment in Hsave. repeat case_match; run_inv.
    apply sql_exec_inv in Hsave as [(a&_&Hw)|(e&?&_)]; [|done]. case_match; [done|].
    injection Hw as <- _. simpl. by rewrite lookup_insert_eq. }
  destruct (run_ops_durable ops s') as (_&Ha&_).
  pose proof (lookup_weaken _ _ _ _ L Ha) as L'.
  unfold GetAttachment, mbind, M_bind, sql_query. simpl. rewrite L'.
  case_bool_decide; simpl; [|done]. case_match; to_prop; [lia|done].
Qed.

(** ** Witnesses: the hypotheses hold on concrete databases *)

Definition empty_db : DB := mkDB ∅ ∅ ∅ ∅ ∅ ∅ ∅.

Definition example_codex (id thread : string) (activity : Z) : CodexRecord :=
  mkCodexRecord id thread "vscode" "owner" "/w" "title" "CREATED" "IDLE" "" "1.0" "MANAGED"
    1 0 activity 0 0 "" false.

Definition example_ops : list store_op :=
  [OpUpsertCodex (example_codex "a" "t1" 5); OpUpsertCodex (example_codex "b" "t1" 6);
   OpUpsertCodex (example_codex "c" "t2" 7)].

Definition example_attachment : AttachmentRecord := mkAttachmentRecord "img" "owner" "f.png" "image/png" "00" 10 1 1 0.

Lemma codexes_wf_empty : codexes_wf empty_db.
Proof. split; simpl; intros *; by rewrite lookup_empty. Qed.

Lemma session_identity_unique_witness :
  codexes_wf (st_db (run_ops example_ops (mkStore empty_db []))).
Proof. apply (session_identity_unique example_ops (mkStore empty_db [])), codexes_wf_empty. Defined.

Lemma event_sequences_increase_witness : (1 < 2)%Z.
Proof.
  apply (event_sequences_increase 0 0 "a" (λ _, Ok "v") (λ _, Ok "w")
    (run_ops example_ops (mkStore empty_db []))
    (CommitEvent 0 "a" (Some (λ _, Ok "v")) (run_ops example_ops (mkStore empty_db []))).1
    (CommitEvent 0 "a" (Some (λ _, Ok "w"))
       (CommitEvent 0 "a" (Some (λ _, Ok "v")) (run_ops example_ops (mkStore empty_db []))).1).1
    1 2 []); [vm_compute; reflexivity|constructor|vm_compute; reflexivity].
Defined.

Lemma ListCodexes_pages_witness :
  let d := st_db (run_ops example_ops (mkStore empty_db [])) in
  let all := concat (codex_page d 1 <$> seq 0 3) in
  all ≡ₚ (map_to_list (db_codexes d)).*2 ∧ Sorted codex_le all.
Proof. apply (ListCodexes_pages (st_db (run_ops example_ops (mkStore empty_db []))) 1 3); vm_compute; [reflexivity|lia]. Defined.

Lemma attachment_readback_witness :
  (GetAttachment "owner" "img"
     (mkStore (st_db (run_ops example_ops (SaveAttachment example_attachment (mkStore empty_db [])).1)) [])).2
  = Ok example_attachment.
Proof.
  apply (attachment_readback example_attachment (mkStore empty_db [])
    (SaveAttachment example_attachment (mkStore empty_db [])).1 example_ops "owner"); vm_compute; done.
Defined.
