(* ===== verification/Migrations.v ===== *)
(** * Schema migrations (internal/persistence/store.go, Open and migrate)

    What opening the database does to its schema and its rows.  The database is a catalog
    of tables, with the SQL text SQLite keeps for each, its columns, unique keys and rows,
    and of indexes.  Every statement and every commit may fail with an error of the
    environment's choice, before or after it took effect. *)

From Stdlib Require Import Ascii String.
From stdpp Require Import base tactics numbers list gmap strings.
From S2P Require Import Prelude GoError GoStrings GoPath FileSystem.
Local Open Scope string_scope.
Local Open Scope list_scope.

(** ** Tables *)

Inductive value := VText (s : string) | VInt (x : Z) | VBlob (s : string) | VNull.

#[export] Instance value_eq_dec : EqDecision value.
Proof. solve_decision. Defined.

Notation row := (gmap string value).

Record table := mkTable {
  tb_sql : string;
  tb_columns : list string;
  tb_uniques : list (list string);
  tb_rows : list row;
}.

Record catalog := mkCatalog {
  ct_tables : gmap string table;
  ct_indexes : gmap string string;   (* index and its table *)
}.

Definition set_ct_tables (x : gmap string table) (c : catalog) : catalog := mkCatalog x (ct_indexes c).
Definition set_ct_indexes (x : gmap string string) (c : catalog) : catalog := mkCatalog (ct_tables c) x.

(** The catalog and the failures to come: the error, and whether the statement or commit it
    is reported for took effect nevertheless. *)
Definition sqlw : Type := catalog * list (option (goerr * bool)).

(** One statement. *)
Definition stmt {A} (op : catalog → catalog * res A) : M sqlw A := λ w,
  match w.2 with
  | Some (e, applied) :: faults => ((if (applied : bool) then (op w.1).1 else w.1, faults), Err e)
  | None :: faults => let '(c, r) := op w.1 in ((c, faults), r)
  | [] => let '(c, r) := op w.1 in ((c, []), r)
  end.

Definition with_table {A} (name : string) (f : table → catalog → catalog * res A) : M sqlw A :=
  stmt (λ c, match ct_tables c !! name with
             | Some t => f t c
             | None => (c, Err (ErrText ("no such table: " +:+ name)))
             end).

Definition put_table (name : string) (t : table) (c : catalog) : catalog := set_ct_tables (<[name := t]> (ct_tables c)) c.

(** Two rows with the same key; NULL is different from NULL. *)
Definition key_of (cols : list string) (r : row) : list (option value) := (λ col, r !! col) <$> cols.
Definition clash (cols : list string) (a b : row) : bool :=
  bool_decide (key_of cols a = key_of cols b) && forallb (λ v, negb (bool_decide (v = Some VNull))) (key_of cols a).
Fixpoint has_clash (cols : list string) (rows : list row) : bool :=
  match rows with
  | [] => false
  | r :: rows => existsb (clash cols r) rows || has_clash cols rows
  end.
Definition violates (uniques : list (list string)) (rows : list row) : bool := existsb (λ cols, has_clash cols rows) uniques.

(** ** Statements *)

(** [CREATE TABLE], with or without [IF NOT EXISTS]. *)
Definition create_table (if_missing : bool) (name : string) (t : table) : M sqlw unit :=
  stmt (λ c, match ct_tables c !! name with
             | Some _ => (c, if if_missing then Ok tt else Err (ErrText ("table " +:+ name +:+ " already exists")))
             | None => (put_table name t c, Ok tt)
             end).

Definition create_index (if_missing : bool) (name table_name : string) : M sqlw unit :=
  with_table table_name (λ t c,
    match ct_indexes c !! name with
    | Some _ => (c, if if_missing then Ok tt else Err (ErrText ("index " +:+ name +:+ " already exists")))
    | None => (set_ct_indexes (<[name := table_name]> (ct_indexes c)) c, Ok tt)
    end).

(** [CREATE UNIQUE INDEX IF NOT EXISTS]: refused when rows clash. *)
Definition create_unique_index (name table_name : string) (cols : list string) : M sqlw unit :=
  with_table table_name (λ t c,
    match ct_indexes c !! name with
    | Some _ => (c, Ok tt)
    | None =>
        if has_clash cols (tb_rows t) then (c, Err (ErrText "UNIQUE constraint failed"))
        else (set_ct_indexes (<[name := table_name]> (ct_indexes c))
                (put_table table_name (mkTable (tb_sql t) (tb_columns t) (cols :: tb_uniques t) (tb_rows t)) c), Ok tt)
    end).

(** [ALTER TABLE ... ADD COLUMN col ... DEFAULT v]; the definition is added to the text. *)
Definition add_to_row (col : string) (v : value) (r : row) : row := <[col := v]> r.

Definition add_column (table_name col definition : string) (v : value) : M sqlw unit :=
  with_table table_name (λ t c,
    if bool_decide (col ∈ tb_columns t) then (c, Err (ErrText ("duplicate column name: " +:+ col)))
    else (put_table table_name (mkTable (tb_sql t +:+ ", " +:+ col +:+ " " +:+ definition) (tb_columns t ++ [col]) (tb_uniques t)
                                 (add_to_row col v <$> tb_rows t)) c, Ok tt)).

(** [ALTER TABLE a RENAME TO b]: its indexes stay with it. *)
Definition rename_table (a b : string) : M sqlw unit :=
  with_table a (λ t c,
    match ct_tables c !! b with
    | Some _ => (c, Err (ErrText ("there is already another table or index with this name: " +:+ b)))
    | None => (mkCatalog (<[b := t]> (delete a (ct_tables c))) ((λ x, if bool_decide (x = a) then b else x) <$> ct_indexes c), Ok tt)
    end).

Definition drop_table (name : string) : M sqlw unit :=
  with_table name (λ _ c, (mkCatalog (delete name (ct_tables c)) (filter (λ ix, ix.2 ≠ name) (ct_indexes c)), Ok tt)).

(** The columns copied, and the defaults of the others. *)
Definition project (cols : list string) (r : row) : row := filter (λ kv, kv.1 ∈ cols) r.

(** [INSERT INTO dst(cols) SELECT cols FROM src]. *)
Definition insert_select (dst src : string) (cols : list string) (defaults : row) : M sqlw unit :=
  with_table src (λ from c,
    match ct_tables c !! dst with
    | None => (c, Err (ErrText ("no such table: " +:+ dst)))
    | Some t =>
        if negb (forallb (λ col, bool_decide (col ∈ tb_columns from)) cols) then (c, Err (ErrText "no such column"))
        else
          let rows := tb_rows t ++ ((λ r, project cols r ∪ defaults) <$> tb_rows from) in
          if violates (tb_uniques t) rows then (c, Err (ErrText "UNIQUE constraint failed"))
          else (put_table dst (mkTable (tb_sql t) (tb_columns t) (tb_uniques t) rows) c, Ok tt)
    end).

(** [PRAGMA table_info], [pragma_table_info] and the text in [sqlite_master]. *)
Definition table_info (name : string) : M sqlw (list string) :=
  stmt (λ c, (c, Ok match ct_tables c !! name with Some t => tb_columns t | None => [] end)).

Definition table_sql (name : string) : M sqlw string :=
  stmt (λ c, (c, match ct_tables c !! name with Some t => Ok (tb_sql t) | None => Err (ErrSentinel ErrNoRows) end)).

(** A transaction: the statements and the commit, or nothing; a commit may be reported as
    failed although it took effect. *)
Definition transaction (body : M sqlw unit) : M sqlw unit := λ w,
  match (_ ← stmt (λ c, (c, Ok tt)); body) w with
  | (w', Err e) => ((w.1, w'.2), Err e)
  | (w', Ok _) =>
      match w'.2 with
      | Some (e, applied) :: faults => ((if (applied : bool) then w'.1 else w.1, faults), Err e)
      | _ => ((w'.1, tail w'.2), Ok tt)
      end
  end.

(** ** The schema *)

Definition codexes_columns : list string :=
  ["codex_id"; "thread_id"; "session_source"; "logical_owner_id"; "cwd"; "title"; "origin"; "status"; "active_turn_id"; "runtime_version";
   "created_at_ms"; "imported_at_ms"; "last_activity_at_ms"; "current_view_json"; "management_state"; "managed_until_ms";
   "management_warning_deadline_ms"; "manual_title_override"].

(** The text of the table as SQLite keeps it. *)
Definition codexes_sql : string :=
  "CREATE TABLE codexes ( codex_id TEXT PRIMARY KEY, thread_id TEXT NOT NULL, session_source TEXT NOT NULL DEFAULT 'unknown', logical_owner_id TEXT NOT NULL DEFAULT '', cwd TEXT NOT NULL, title TEXT NOT NULL, origin TEXT NOT NULL, status TEXT NOT NULL, active_turn_id TEXT NOT NULL DEFAULT '', runtime_version TEXT NOT NULL DEFAULT '', created_at_ms INTEGER NOT NULL, imported_at_ms INTEGER NOT NULL DEFAULT 0, last_activity_at_ms INTEGER NOT NULL, current_view_json BLOB, management_state TEXT NOT NULL DEFAULT '', managed_until_ms INTEGER NOT NULL DEFAULT 0, management_warning_deadline_ms INTEGER NOT NULL DEFAULT 0, manual_title_override INTEGER NOT NULL DEFAULT 0, UNIQUE(session_source, thread_id) )".

Definition session_identity : list string := ["session_source"; "thread_id"].
Definition codexes_table : table := mkTable codexes_sql codexes_columns [["codex_id"]; session_identity] [].

Definition forgotten_columns : list string :=
  ["source"; "session_id"; "logical_owner_id"; "cwd"; "title"; "preview"; "origin"; "created_at_ms"; "updated_at_ms"; "materialized"].
Definition forgotten_table : table :=
  mkTable "CREATE TABLE forgotten_sessions" forgotten_columns [["source"; "session_id"]] [].

(** The tables this version never alters. *)
Definition plain_tables : list (string * table) :=
  [("request_dedup", mkTable "CREATE TABLE request_dedup"
      ["request_id"; "operation"; "fingerprint"; "status"; "response_json"; "created_at_ms"; "completed_at_ms"] [["request_id"]] []);
   ("event_heads", mkTable "CREATE TABLE event_heads" ["codex_id"; "head_seq"] [["codex_id"]] []);
   ("resolved_pending", mkTable "CREATE TABLE resolved_pending"
      ["codex_id"; "pending_id"; "kind"; "resolved_json"; "resolved_at_ms"] [["codex_id"; "pending_id"]] [])].

Definition owner_tables : list (string * table) :=
  [("session_logical_owners", mkTable "CREATE TABLE session_logical_owners" ["source"; "session_id"; "logical_owner_id"] [["source"; "session_id"]] [])].

Definition attachment_table : table :=
  mkTable "CREATE TABLE image_attachments"
    ["attachment_id"; "logical_owner_id"; "filename"; "mime_type"; "size_bytes"; "sha256"; "width_pixels"; "height_pixels"; "created_at_ms"]
    [["attachment_id"]] [].

(** A pragma: it may fail, and touches no table. *)
Definition pragma : M sqlw unit := stmt (λ c, (c, Ok tt)).

(** The statements of the first [ExecContext], one after the other. *)
Definition create_schema : M sqlw unit :=
  _ ← pragma;
  _ ← pragma;
  _ ← create_table true "codexes" codexes_table;
  _ ← create_index true "codexes_activity" "codexes";
  _ ← mfor plain_tables (λ nt, create_table true nt.1 nt.2);
  _ ← create_table true "forgotten_sessions" forgotten_table;
  _ ← mfor owner_tables (λ nt, create_table true nt.1 nt.2);
  _ ← create_index true "session_logical_owners_owner" "session_logical_owners";
  _ ← create_table true "image_attachments" attachment_table;
  create_index true "image_attachments_owner" "image_attachments".

(** ** Upgrades *)

(** [strings.Fields], on ASCII white space. *)
Definition field_space (c : ascii) : bool := existsb (λ n, (bval c =? n)%Z) [9; 10; 11; 12; 13; 32]%Z.
Fixpoint fields_list (word : list ascii) (l : list ascii) : list (list ascii) :=
  match l with
  | [] => match word with [] => [] | _ => [rev word] end
  | c :: l =>
      if field_space c then match word with [] => fields_list [] l | _ => rev word :: fields_list [] l end
      else fields_list (c :: word) l
  end.
Fixpoint join_words (l : list (list ascii)) : list ascii :=
  match l with
  | [] => []
  | [w] => w
  | w :: l => w ++ " "%char :: join_words l
  end.

(** The first schema, in which a thread id was unique whatever its source. *)
Definition legacy_schema (sql : string) : bool :=
  Contains (ToLower (of_chars (join_words (fields_list [] (chars sql))))) "thread_id text not null unique".

Definition copied_columns : list string :=
  ["codex_id"; "thread_id"; "session_source"; "cwd"; "title"; "origin"; "status"; "active_turn_id"; "runtime_version";
   "created_at_ms"; "imported_at_ms"; "last_activity_at_ms"; "current_view_json"].

Definition copied_defaults : row :=
  list_to_map [("logical_owner_id", VText ""); ("management_state", VText ""); ("managed_until_ms", VInt 0);
               ("management_warning_deadline_ms", VInt 0); ("manual_title_override", VInt 0)].

(** The statements of the transaction. *)
Definition rebuild_codexes : M sqlw unit :=
  _ ← rename_table "codexes" "codexes_legacy";
  _ ← create_table false "codexes" codexes_table;
  _ ← insert_select "codexes" "codexes_legacy" copied_columns copied_defaults;
  _ ← drop_table "codexes_legacy";
  create_index false "codexes_activity" "codexes".

Definition ensureSessionSourceIdentity : M sqlw unit :=
  columns ← table_info "codexes";
  _ ← (if bool_decide ("session_source" ∈ columns) then mret tt
       else add_column "codexes" "session_source" "TEXT NOT NULL DEFAULT 'unknown'" (VText "unknown"));
  schema ← table_sql "codexes";
  if negb (legacy_schema schema) then create_unique_index "codexes_session_identity" "codexes" session_identity
  else transaction rebuild_codexes.

Definition lifecycle_columns : list (string * string * value) :=
  [("management_state", "TEXT NOT NULL DEFAULT ''", VText ""); ("managed_until_ms", "INTEGER NOT NULL DEFAULT 0", VInt 0);
   ("management_warning_deadline_ms", "INTEGER NOT NULL DEFAULT 0", VInt 0); ("manual_title_override", "INTEGER NOT NULL DEFAULT 0", VInt 0)].

Definition ensureLifecycleColumns : M sqlw unit :=
  columns ← table_info "codexes";
  mfor lifecycle_columns (λ '(name, definition, v),
    if bool_decide (name ∈ columns) then mret tt else add_column "codexes" name definition v).

Definition ensureAttachmentOwnerColumns : M sqlw unit :=
  mfor ["codexes"; "forgotten_sessions"] (λ name,
    columns ← table_info name;
    if bool_decide ("logical_owner_id" ∈ columns) then mret tt
    else add_column name "logical_owner_id" "TEXT NOT NULL DEFAULT ''" (VText "")).

Definition migrate : M sqlw unit :=
  _ ← create_schema;
  _ ← ensureSessionSourceIdentity;
  _ ← ensureLifecycleColumns;
  ensureAttachmentOwnerColumns.

(** ** Opening the database

    [opened] is the error of [sql.Open], which does not touch the file. *)
Definition Open (path : string) (opened : option goerr) : M (FS * sqlw) unit :=
  if str_empty path then fail_msg "database path is required"
  else
    _ ← zoom fst (λ x w, (x, w.2)) (MkdirAll (Dir path) 448);
    match opened with
    | Some e => throw e
    | None => zoom snd (λ x w, (w.1, x)) migrate
    end.

(** ** Rows survive *)

Definition rows_in_columns (t : table) : Prop := Forall (λ r : row, ∀ col, is_Some (r !! col) → col ∈ tb_columns t) (tb_rows t).

(** The table has more columns, its rows more values, and it keeps its keys. *)
Definition wider (t t' : table) : Prop :=
  tb_columns t ⊆ tb_columns t' ∧ tb_uniques t ⊆ tb_uniques t' ∧ Forall2 (⊆) (tb_rows t) (tb_rows t').

Lemma rows_refl (rows : list row) : Forall2 (⊆) rows rows.
Proof. reflexivity. Qed.

#[export] Instance wider_preorder : PreOrder wider.
Proof.
  split; [intros t; split; [done|]; split; [done|]; apply rows_refl|].
  intros a b c (?&?&Hab) (?&?&Hbc). split; [set_solver|]. split; [set_solver|].
  by etrans.
Qed.

Definition codexes_of (w : sqlw) : option table := ct_tables w.1 !! "codexes".

(** The table of Codexes after some statements: it has the rows [R] relates. *)
Definition leads {A} (R : table → table → Prop) (m : M sqlw A) : Prop :=
  ∀ w w' r t, m w = (w', r) → codexes_of w = Some t → rows_in_columns t →
    ∃ t', codexes_of w' = Some t' ∧ rows_in_columns t' ∧ R t t'.

Definition widens {A} (m : M sqlw A) : Prop := leads wider m.

Lemma leads_bind {A C} R (HR : PreOrder R) (m : M sqlw A) (k : A → M sqlw C) : leads R m → (∀ a, leads R (k a)) → leads R (m ≫= k).
Proof.
  intros Hm Hk w w' r t. unfold mbind, M_bind. destruct (m w) as [w1 [a|e]] eqn:E; intros H Ht Hwf; destruct (Hm _ _ _ _ E Ht Hwf) as (t1&Ht1&Hwf1&Hw).
  - destruct (Hk _ _ _ _ _ H Ht1 Hwf1) as (t2&?&?&?). exists t2. split; [done|]. split; [done|by etrans].
  - simplify_eq. by exists t1.
Qed.

Lemma widens_bind {A C} (m : M sqlw A) (k : A → M sqlw C) : widens m → (∀ a, widens (k a)) → widens (m ≫= k).
Proof. apply leads_bind. apply _. Qed.

Lemma widens_ret {A} (a : A) : widens (mret a).
Proof. intros w w' r t [= <- _] Ht Hwf. by exists t. Qed.

Lemma widens_mfor {A} (l : list A) (body : A → M sqlw unit) : (∀ x, widens (body x)) → widens (mfor l body).
Proof. intros Hb. induction l as [|x l IH]; [apply widens_ret|]. apply widens_bind; [apply Hb|by intros _]. Qed.

Lemma leads_stmt {A} R (HR : Reflexive R) (op : catalog → catalog * res A) :
  (∀ c t, ct_tables c !! "codexes" = Some t → rows_in_columns t → ∃ t', ct_tables (op c).1 !! "codexes" = Some t' ∧ rows_in_columns t' ∧ R t t') →
  leads R (stmt op).
Proof.
  intros Hop [c faults] w' r t H Ht Hwf. unfold codexes_of in *. cbn in Ht. specialize (Hop c t Ht Hwf). unfold stmt in H. cbn in H.
  destruct faults as [|[[e []]|] faults]; [|injection H as <- _; exact Hop|injection H as <- _; by exists t|]; destruct (op c) as [c' x]; injection H as <- _; exact Hop.
Qed.

Lemma widens_with_table {A} name (f : table → catalog → catalog * res A) :
  (∀ x c t, ct_tables c !! name = Some x → ct_tables c !! "codexes" = Some t → rows_in_columns t →
     ∃ t', ct_tables (f x c).1 !! "codexes" = Some t' ∧ rows_in_columns t' ∧ wider t t') →
  widens (with_table name f).
Proof. intros Hf. apply leads_stmt; [apply _|]. intros c t Ht Hwf. destruct (ct_tables c !! name) eqn:E; [by apply Hf|by exists t]. Qed.

Lemma widens_create_table if_missing name x : widens (create_table if_missing name x).
Proof.
  apply leads_stmt; [apply _|]. intros c t Ht Hwf. destruct (ct_tables c !! name) eqn:E; [by exists t|]. exists t. cbn.
  rewrite lookup_insert_ne by congruence. done.
Qed.

Lemma widens_create_index if_missing name tn : widens (create_index if_missing name tn).
Proof. apply widens_with_table. intros x c t _ Ht Hwf. destruct (ct_indexes c !! name); by exists t. Qed.

Lemma widens_table_info name : widens (table_info name).
Proof. apply leads_stmt; [apply _|]. intros c t Ht Hwf. by exists t. Qed.

Lemma widens_table_sql name : widens (table_sql name).
Proof. apply leads_stmt; [apply _|]. intros c t Ht Hwf. by exists t. Qed.

Lemma widens_unique_index name tn cols : widens (create_unique_index name tn cols).
Proof.
  apply widens_with_table. intros x c t Hx Ht Hwf. destruct (ct_indexes c !! name); [by exists t|]. destruct (has_clash _ _); [by exists t|]. cbn.
  destruct (decide (tn = "codexes")) as [->|Hne]; [|exists t; by rewrite lookup_insert_ne].
  rewrite lookup_insert_eq. eexists. split; [done|]. simplify_eq. split; [exact Hwf|]. split; [done|]. split; [set_solver|apply rows_refl].
Qed.

Lemma widens_add_column tn col definition v : widens (add_column tn col definition v).
Proof.
  apply widens_with_table. intros x c t Hx Ht Hwf. case_bool_decide as Hcol; [by exists t|]. cbn.
  destruct (decide (tn = "codexes")) as [->|Hne]; [|exists t; by rewrite lookup_insert_ne].
  rewrite lookup_insert_eq. eexists. split; [done|]. simplify_eq. split.
  - unfold rows_in_columns in *. cbn. apply Forall_fmap. eapply Forall_impl; [exact Hwf|]. intros r Hr c' [y Hy]. cbn in Hy. unfold add_to_row in Hy.
    apply lookup_insert_Some in Hy as [[<- _]|[_ Hy]]; [set_solver|]. apply elem_of_app. left. apply Hr. by eexists.
  - split; [set_solver|]. split; [done|]. cbn. unfold rows_in_columns in Hwf. induction Hwf as [|r rows Hr _ IH]; [constructor|]. cbn.
    constructor; [|done]. apply insert_subseteq. apply eq_None_not_Some. intros H. by apply Hcol, Hr.
Qed.

Lemma widens_pragma : widens pragma.
Proof. apply leads_stmt; [apply _|]. intros c t Ht Hwf. by exists t. Qed.

Lemma widens_create_schema : widens create_schema.
Proof.
  repeat (apply widens_bind; [first [apply widens_pragma|apply widens_create_table|apply widens_create_index|apply widens_mfor; intros; apply widens_create_table]|intros _]).
  apply widens_create_index.
Qed.

Lemma widens_ensureLifecycleColumns : widens ensureLifecycleColumns.
Proof.
  apply widens_bind; [apply widens_table_info|]. intros columns. apply widens_mfor. intros [[name definition] v].
  case_bool_decide; [apply widens_ret|apply widens_add_column].
Qed.

Lemma widens_ensureAttachmentOwnerColumns : widens ensureAttachmentOwnerColumns.
Proof.
  apply widens_mfor. intros name. apply widens_bind; [apply widens_table_info|]. intros columns.
  case_bool_decide; [apply widens_ret|apply widens_add_column].
Qed.

(** ** The rebuilt table *)

Definition row_copied (a b : row) : Prop := ∀ col, col ∈ copied_columns → ∀ v, a !! col = Some v → b !! col = Some v.
Definition copied (t t' : table) : Prop := Forall2 row_copied (tb_rows t) (tb_rows t').

#[export] Instance row_copied_preorder : PreOrder row_copied.
Proof. split; [intros a col _ v Hv; exact Hv|]. intros a b c Hab Hbc col Hcol v Hv. by apply Hbc, Hab. Qed.

#[export] Instance copied_preorder : PreOrder copied.
Proof. split; [intros t; unfold copied; reflexivity|]. intros a b c Hab Hbc. unfold copied in *. by etrans. Qed.

Lemma wider_copied t t' : wider t t' → copied t t'.
Proof. intros (_&_&H). eapply Forall2_impl; [exact H|]. intros a b Hab col _ v Hv. by eapply lookup_weaken. Qed.

Lemma leads_weaken {A} (R R' : table → table → Prop) (m : M sqlw A) : (∀ t t', R t t' → R' t t') → leads R m → leads R' m.
Proof. intros H Hm w w' r t Hr Ht Hwf. destruct (Hm _ _ _ _ Hr Ht Hwf) as (t'&?&?&?). eauto. Qed.

Lemma stmt_ok {A} (op : catalog → catalog * res A) w w' a : stmt op w = (w', Ok a) → op w.1 = (w'.1, Ok a).
Proof.
  unfold stmt. destruct w as [c [|[[e b]|] faults]]; cbn; [|done|]; destruct (op c) as [c' x]; intros [= <- ->]; done.
Qed.

Definition rebuilt (t : table) : table :=
  mkTable codexes_sql codexes_columns [["codex_id"]; session_identity] ((λ r, project copied_columns r ∪ copied_defaults) <$> tb_rows t).

(** The statements of the transaction put the rebuilt table in place. *)
Lemma rebuild_statements w2 w3 t : rebuild_codexes w2 = (w3, Ok tt) → codexes_of w2 = Some t → codexes_of w3 = Some (rebuilt t).
Proof.
  unfold codexes_of, rebuild_codexes. intros E3 Ht.
  apply M_bind_inv_ok in E3 as (a1&[]&A1%stmt_ok&E3). apply M_bind_inv_ok in E3 as (a2&[]&A2%stmt_ok&E3). apply M_bind_inv_ok in E3 as (a3&[]&A3%stmt_ok&E3).
  apply M_bind_inv_ok in E3 as (a4&[]&A4%stmt_ok&A5%stmt_ok). cbn beta in *.
  rewrite Ht in A1. destruct (ct_tables w2.1 !! "codexes_legacy"); [done|]. injection A1 as A1.
  assert (ct_tables a1.1 !! "codexes" = None ∧ ct_tables a1.1 !! "codexes_legacy" = Some t) as [B1 B2].
  { rewrite <- A1. cbn. split; [by rewrite lookup_insert_ne, lookup_delete_eq by done|by rewrite lookup_insert_eq]. }
  rewrite B1 in A2. injection A2 as A2.
  assert (ct_tables a2.1 !! "codexes" = Some codexes_table ∧ ct_tables a2.1 !! "codexes_legacy" = Some t) as [C1 C2].
  { rewrite <- A2. cbn. split; [by rewrite lookup_insert_eq|by rewrite lookup_insert_ne]. }
  rewrite C2 in A3. cbv beta iota zeta in A3. rewrite C1 in A3. cbv beta iota zeta in A3. destruct (negb _); [done|]. destruct (violates _ _); [done|]. injection A3 as A3.
  assert (ct_tables a3.1 !! "codexes" = Some (rebuilt t) ∧ ct_tables a3.1 !! "codexes_legacy" = Some t) as [D1 D2].
  { rewrite <- A3. cbn. split; [by rewrite lookup_insert_eq|by rewrite lookup_insert_ne]. }
  rewrite D2 in A4. injection A4 as A4.
  assert (ct_tables a4.1 !! "codexes" = Some (rebuilt t)) as F1 by (rewrite <- A4; cbn; by rewrite lookup_delete_ne).
  rewrite F1 in A5. destruct (ct_indexes a4.1 !! "codexes_activity"); [done|]. injection A5 as A5. rewrite <- A5. exact F1.
Qed.

(** The transaction either leaves everything as it was or puts the rebuilt table in place;
    when it reports success, the latter. *)
Lemma rebuild_outcome w w' r t : transaction rebuild_codexes w = (w', r) → codexes_of w = Some t →
  codexes_of w' = Some (rebuilt t) ∨ (codexes_of w' = Some t ∧ ∃ e, r = Err e).
Proof.
  unfold transaction. destruct ((_ ← stmt _; rebuild_codexes) w) as [w1 [[]|e]] eqn:E; intros H Ht; [|injection H as <- <-; right; eauto].
  apply M_bind_inv_ok in E as (w2&[]&E2%stmt_ok&E). injection E2 as E2. unfold codexes_of in Ht. rewrite E2 in Ht.
  pose proof (rebuild_statements _ _ _ E Ht) as Hr. rewrite <- E2 in Ht.
  destruct (w1.2) as [|[[e []]|] faults]; injection H as <- <-; [by left|by left| |by left]. right. eauto.
Qed.

Lemma rebuilt_copied t : copied t (rebuilt t).
Proof.
  unfold copied. cbn. induction (tb_rows t) as [|r rows IH]; [constructor|]. constructor; [|done]. intros col Hcol v Hv.
  apply lookup_union_Some_l. unfold project. by apply map_lookup_filter_Some.
Qed.

Lemma rebuilt_in_columns t : rows_in_columns (rebuilt t).
Proof.
  unfold rows_in_columns. cbn. apply Forall_fmap, Forall_true. intros r col [v Hv]. cbn in Hv.
  apply lookup_union_Some_raw in Hv as [Hv|[_ Hv]].
  - unfold project in Hv. apply map_lookup_filter_Some in Hv as [_ Hc]. cbn in Hc.
    assert (Forall (λ c, c ∈ codexes_columns) copied_columns) as HF by (repeat constructor; set_solver). rewrite Forall_forall in HF. by apply HF.
  - unfold copied_defaults in Hv. cbn in Hv. rewrite !lookup_insert_Some in Hv. unfold codexes_columns.
    repeat (destruct Hv as [[<- _]|[_ Hv]]; [set_solver|]). by rewrite lookup_empty in Hv.
Qed.

(** The table needs no rebuilding. *)
Definition current (t : table) : Prop := legacy_schema (tb_sql t) = false ∧ "session_source" ∈ tb_columns t.

Lemma identity_copies : leads copied ensureSessionSourceIdentity.
Proof.
  assert (∀ A (m : M sqlw A), widens m → leads copied m) as Hw by (intros A m; apply leads_weaken, wider_copied).
  apply leads_bind; [apply _|apply Hw, widens_table_info|]. intros columns. apply leads_bind; [apply _|apply Hw; case_bool_decide; [apply widens_ret|apply widens_add_column]|].
  intros _. apply leads_bind; [apply _|apply Hw, widens_table_sql|]. intros schema. destruct (negb _); [apply Hw, widens_unique_index|].
  intros w w' r t H Ht Hwf. apply (rebuild_outcome _ _ _ _ H) in Ht as [Ht|[Ht _]]; [|by exists t]. eexists. split; [exact Ht|]. split; [apply rebuilt_in_columns|apply rebuilt_copied].
Qed.

(** Reading statements say what is there. *)
Lemma stmt_read {A} (f : catalog → res A) w w' r : stmt (λ c, (c, f c)) w = (w', r) → w'.1 = w.1 ∧ (r = f w.1 ∨ ∃ e, r = Err e).
Proof. unfold stmt. destruct w as [c [|[[e []]|] faults]]; cbn; intros [= <- <-]; eauto. Qed.

Lemma identity_current w w' r t : ensureSessionSourceIdentity w = (w', r) → codexes_of w = Some t → rows_in_columns t → current t →
  ∃ t', codexes_of w' = Some t' ∧ rows_in_columns t' ∧ wider t t'.
Proof.
  intros H Ht Hwf [Hl Hs]. unfold ensureSessionSourceIdentity in H. unfold mbind at 1, M_bind at 1 in H.
  destruct (table_info "codexes" w) as [w1 [cols|e]] eqn:E1; apply stmt_read in E1 as [E1 Hc]; unfold codexes_of in *.
  2: { injection H as <- _. rewrite E1. by exists t. }
  destruct Hc as [[= Hc]|[? [=]]]. rewrite Ht in Hc. subst cols. rewrite bool_decide_eq_true_2 in H by done.
  unfold mbind at 1, M_bind at 1 in H. cbn beta iota delta [mret M_ret] in H. unfold mbind at 1, M_bind at 1 in H.
  destruct (table_sql "codexes" w1) as [w2 [sql|e]] eqn:E2; apply stmt_read in E2 as [E2 Hc].
  2: { injection H as <- _. rewrite E2, E1. by exists t. }
  rewrite E1, Ht in Hc. destruct Hc as [[= ->]|[? [=]]]. rewrite Hl in H. eapply widens_unique_index; [exact H| |done]. unfold codexes_of. by rewrite E2, E1.
Qed.

(** ** The upgraded schema *)

Definition added_columns : list string :=
  ["session_source"; "management_state"; "managed_until_ms"; "management_warning_deadline_ms"; "manual_title_override"; "logical_owner_id"].

(** The columns every version had. *)
Definition base_columns : list string := filter (λ c, c ∉ added_columns) codexes_columns.

Definition has (cols : list string) (w : sqlw) : Prop := ∃ t, codexes_of w = Some t ∧ rows_in_columns t ∧ cols ⊆ tb_columns t.

Lemma widens_has {A} (m : M sqlw A) w w' r cols : widens m → m w = (w', r) → has cols w → has cols w'.
Proof. intros Hm H (t&Ht&Hwf&Hc). destruct (Hm _ _ _ _ H Ht Hwf) as (t'&?&?&?&_). exists t'. split; [done|]. split; [done|set_solver]. Qed.

Lemma add_column_has col definition v w w' cols : add_column "codexes" col definition v w = (w', Ok tt) → has cols w → has (col :: cols) w'.
Proof.
  intros H Hc. pose proof (widens_has _ _ _ _ _ (widens_add_column _ _ _ _) H Hc) as (t'&Ht'&Hwf'&Hc'). exists t'. split; [done|]. split; [done|].
  assert (col ∈ tb_columns t'); [|set_solver]. destruct Hc as (t&Ht&_). apply stmt_ok in H. unfold codexes_of in *. rewrite Ht in H.
  cbv beta iota in H. destruct (bool_decide (col ∈ tb_columns t)); [discriminate H|]. injection H as H. rewrite <- H in Ht'. cbn in Ht'. rewrite lookup_insert_eq in Ht'. injection Ht' as <-. cbn. set_solver.
Qed.

Lemma table_info_has w w' cols columns : table_info "codexes" w = (w', Ok columns) → has cols w → has (columns ++ cols) w' ∧ ∀ t, codexes_of w' = Some t → columns = tb_columns t.
Proof.
  intros [E [[= Hcols]|[? [=]]]]%stmt_read (t&Ht&Hwf&Hc). unfold codexes_of in *. rewrite Ht in Hcols. subst columns.
  assert (codexes_of w' = Some t) as Ht' by (unfold codexes_of; by rewrite E). split.
  - exists t. split; [exact Ht'|]. split; [done|set_solver].
  - intros t' H. unfold codexes_of in Ht'. rewrite Ht' in H. by injection H as ->.
Qed.

(** A column is there or is added. *)
Lemma ensure_column col definition v columns w w' cols : columns ⊆ cols →
  (if bool_decide (col ∈ columns) then mret tt else add_column "codexes" col definition v) w = (w', Ok tt) → has cols w → has (col :: cols) w'.
Proof.
  intros Hsub H Hc. case_bool_decide as Hin; [|by eapply add_column_has]. injection H as <-. destruct Hc as (t&?&?&?). exists t. split; [done|]. split; [done|set_solver].
Qed.

Lemma identity_has w w' cols : ensureSessionSourceIdentity w = (w', Ok tt) → has cols w → cols ⊆ codexes_columns → has ("session_source" :: cols) w'.
Proof.
  intros H Hc Hsub. apply M_bind_inv_ok in H as (w1&columns&E1&H). destruct (table_info_has _ _ _ _ E1 Hc) as [Hc1 _].
  apply M_bind_inv_ok in H as (w2&[]&E2&H). apply (ensure_column _ _ _ _ _ _ (columns ++ cols)) in E2; [|set_solver|done].
  apply M_bind_inv_ok in H as (w3&schema&E3&H). apply (widens_has _ _ _ _ _ (widens_table_sql _) E3) in E2.
  destruct (negb _).
  - apply (widens_has _ _ _ _ _ (widens_unique_index _ _ _) H) in E2 as (t&?&?&?). exists t. split; [done|]. split; [done|set_solver].
  - destruct E2 as (t&Ht&_). apply (rebuild_outcome _ _ _ _ H) in Ht as [Ht|[_ [e [=]]]]. exists (rebuilt t). split; [exact Ht|]. split; [apply rebuilt_in_columns|].
    cbn. intros c [->|Hin]%elem_of_cons; [unfold codexes_columns; set_solver|by apply Hsub].
Qed.

Lemma lifecycle_has w w' cols : ensureLifecycleColumns w = (w', Ok tt) → has cols w → has (((λ x, x.1.1) <$> lifecycle_columns) ++ cols) w'.
Proof.
  intros H Hc. apply M_bind_inv_ok in H as (w1&columns&E1&H). destruct (table_info_has _ _ _ _ E1 Hc) as [Hc1 _]. clear E1 Hc w.
  assert (has (((λ x, x.1.1) <$> lifecycle_columns) ++ columns ++ cols) w') as (t&?&?&?); [|exists t; split; [done|]; split; [done|set_solver]].
  assert (columns ⊆ columns ++ cols) as Hsub by set_solver. revert H Hc1 Hsub. generalize (columns ++ cols). intros cs. revert w1 cs.
  induction lifecycle_columns as [|[[name definition] v] l IH]; intros w1 cs H Hc Hsub; [by injection H as <-|].
  apply M_bind_inv_ok in H as (w2&[]&E2&H). apply (ensure_column _ _ _ _ _ _ cs) in E2; [|done|done].
  destruct (IH _ _ H E2) as (t&?&?&?); [set_solver|]. exists t. split; [done|]. split; [done|]. cbn. set_solver.
Qed.

Lemma owner_has w w' cols : ensureAttachmentOwnerColumns w = (w', Ok tt) → has cols w → has ("logical_owner_id" :: cols) w'.
Proof.
  intros H Hc. apply M_bind_inv_ok in H as (w2&[]&E&H). apply M_bind_inv_ok in E as (w1&columns&E1&E).
  destruct (table_info_has _ _ _ _ E1 Hc) as [Hc1 _]. apply (ensure_column _ _ _ _ _ _ (columns ++ cols)) in E; [|set_solver|done].
  assert (has ("logical_owner_id" :: columns ++ cols) w') as (t&?&?&?); [|exists t; split; [done|]; split; [done|set_solver]].
  eapply widens_has; [|exact H|exact E]. apply widens_bind; [|intros _; apply widens_ret]. apply widens_bind; [apply widens_table_info|]. intros cs.
  case_bool_decide; [apply widens_ret|apply widens_add_column].
Qed.

(** [create_schema] leaves an existing table as it is. *)
Definition spares {A} (m : M sqlw A) : Prop := leads eq m.

Lemma create_schema_same w w' r t : create_schema w = (w', r) → codexes_of w = Some t → rows_in_columns t → codexes_of w' = Some t.
Proof.
  assert (spares pragma) as H0 by (apply leads_stmt; [apply _|]; intros c y Hy Hwf; by exists y).
  assert (∀ if_missing name x, spares (create_table if_missing name x)) as H1.
  { intros b name x. apply leads_stmt; [apply _|]. intros c y Hy Hwf. destruct (ct_tables c !! name) eqn:E; [by exists y|]. exists y. cbn.
    by rewrite lookup_insert_ne by congruence. }
  assert (∀ if_missing name tn, spares (create_index if_missing name tn)) as H2.
  { intros b name tn. apply leads_stmt; [apply _|]. intros c y Hy Hwf. exists y. destruct (ct_tables c !! tn); [|done]. by destruct (ct_indexes c !! name). }
  assert (∀ l : list (string * table), spares (mfor l (λ nt, create_table true nt.1 nt.2))) as H3.
  { induction l as [|nt l IH]; [intros a b x y [= <- _] Hy Hwf; by exists y|]. apply leads_bind; [apply _|apply H1|by intros _]. }
  assert (spares create_schema) as H.
  { repeat (apply leads_bind; [apply _|first [apply H0|apply H1|apply H2|apply H3]|intros _]). apply H2. }
  intros Hr Ht Hwf. destruct (H _ _ _ _ Hr Ht Hwf) as (t'&?&_&<-). done.
Qed.

Lemma list_subseteq_check (a b : list string) : forallb (λ x, bool_decide (x ∈ b)) a = true → a ⊆ b.
Proof. rewrite forallb_forall. intros H x Hx. apply list_elem_of_In in Hx. specialize (H x Hx). by apply bool_decide_eq_true in H. Qed.

(** C9: An upgrade loses no Codex.  Opening a database that has a table of Codexes, whatever
    its version and whatever fails on the way, leaves every row in the table, in order,
    with all the values of the columns the first version had; a table that needs no
    rebuilding keeps every value of every column.  When the upgrade succeeds, the table has
    all the columns of this version. *)
Theorem migration_keeps_rows w w' r t (Hrun : migrate w = (w', r)) (Ht : codexes_of w = Some t) (Hwf : rows_in_columns t) :
  ∃ t', codexes_of w' = Some t' ∧ copied t t' ∧ (current t → Forall2 (⊆) (tb_rows t) (tb_rows t')) ∧
    (r = Ok tt → base_columns ⊆ tb_columns t → codexes_columns ⊆ tb_columns t').
Proof.
  assert (leads copied migrate) as Hcopy.
  { apply leads_bind; [apply _|apply (leads_weaken wider), widens_create_schema; apply wider_copied|]. intros _.
    apply leads_bind; [apply _|apply identity_copies|]. intros _. apply (leads_weaken wider); [apply wider_copied|].
    apply widens_bind; [apply widens_ensureLifecycleColumns|]. intros _. apply widens_ensureAttachmentOwnerColumns. }
  destruct (Hcopy _ _ _ _ Hrun Ht Hwf) as (t'&Ht'&Hwf'&Hc). exists t'. split; [done|]. split; [done|]. split.
  - intros Hcur. unfold migrate in Hrun.
    assert (∃ t2, codexes_of w' = Some t2 ∧ Forall2 (⊆) (tb_rows t) (tb_rows t2)) as (t2&Ht2&?); [|by simplify_eq].
    unfold mbind at 1, M_bind at 1 in Hrun. destruct (create_schema w) as [w1 x1] eqn:E1.
    pose proof (create_schema_same _ _ _ _ E1 Ht Hwf) as Ht1. destruct x1 as [[]|e]; [|injection Hrun as <- _; exists t; by split; [|reflexivity]].
    unfold mbind at 1, M_bind at 1 in Hrun. destruct (ensureSessionSourceIdentity w1) as [w2 x2] eqn:E2.
    destruct (identity_current _ _ _ _ E2 Ht1 Hwf Hcur) as (t2&Ht2&Hwf2&(_&_&H2)). destruct x2 as [[]|e]; [|injection Hrun as <- _; by exists t2].
    assert (widens (_ ← ensureLifecycleColumns; ensureAttachmentOwnerColumns)) as Hrest
      by (apply widens_bind; [apply widens_ensureLifecycleColumns|intros _; apply widens_ensureAttachmentOwnerColumns]).
    destruct (Hrest _ _ _ _ Hrun Ht2 Hwf2) as (t3&Ht3&_&(_&_&H3)). exists t3. split; [done|by etrans].
  - intros -> Hbase. apply M_bind_inv_ok in Hrun as (w1&[]&E1&H). assert (has base_columns w) as H0 by by exists t.
    apply (widens_has _ _ _ _ _ widens_create_schema E1) in H0. apply M_bind_inv_ok in H as (w2&[]&E2&H).
    apply (identity_has _ _ _ E2) in H0; [|by intros c [_ Hc']%list_elem_of_filter]. apply M_bind_inv_ok in H as (w3&[]&E3&E4).
    apply (lifecycle_has _ _ _ E3) in H0. apply (owner_has _ _ _ E4) in H0 as (t2&Ht2&_&Hs). simplify_eq.
    etrans; [|exact Hs]. apply list_subseteq_check. vm_compute. reflexivity.
Qed.

(** ** Runs *)

Module MigrationDemo.

Definition legacy_sql : string :=
  "CREATE TABLE codexes (codex_id TEXT PRIMARY KEY,
 thread_id   TEXT NOT NULL UNIQUE, cwd TEXT NOT NULL)".

Definition legacy_row (id thread : string) : row :=
  list_to_map (((λ c, (c, VText "")) <$> ["cwd"; "title"; "origin"; "status"; "active_turn_id"; "runtime_version";
    "created_at_ms"; "imported_at_ms"; "last_activity_at_ms"; "current_view_json"]) ++ [("codex_id", VText id); ("thread_id", VText thread)]).

Definition legacy_table : table :=
  mkTable legacy_sql ["codex_id"; "thread_id"; "cwd"; "title"; "origin"; "status"; "active_turn_id"; "runtime_version";
    "created_at_ms"; "imported_at_ms"; "last_activity_at_ms"; "current_view_json"] [["codex_id"]; ["thread_id"]] [legacy_row "a" "t1"; legacy_row "b" "t2"].

Definition legacy_catalog : catalog := mkCatalog {[ "codexes" := legacy_table ]} {[ "codexes_activity" := "codexes" ]}.

Definition ids (w : sqlw) : list (option value * option value) :=
  match codexes_of w with Some t => (λ r : row, (r !! "codex_id", r !! "session_source")) <$> tb_rows t | None => [] end.

Lemma legacy_in_columns : rows_in_columns legacy_table.
Proof.
  assert (∀ r : row, forallb (λ kv, bool_decide (kv.1 ∈ tb_columns legacy_table)) (map_to_list r) = true →
    ∀ col, is_Some (r !! col) → col ∈ tb_columns legacy_table) as H.
  { intros r Hr col [v Hv]. rewrite forallb_forall in Hr. specialize (Hr (col, v)). cbn [fst] in Hr.
    apply bool_decide_eq_true in Hr; [done|]. apply list_elem_of_In. by apply elem_of_map_to_list. }
  constructor; [apply H; vm_compute; reflexivity|]. constructor; [apply H; vm_compute; reflexivity|constructor].
Qed.

Lemma migration_keeps_rows_witness :
  ids (migrate (legacy_catalog, [])).1 = [(Some (VText "a"), Some (VText "unknown")); (Some (VText "b"), Some (VText "unknown"))] ∧
  ∃ t', codexes_of (migrate (legacy_catalog, [])).1 = Some t' ∧ codexes_columns ⊆ tb_columns t'.
Proof.
  split; [vm_compute; reflexivity|].
  destruct (migration_keeps_rows (legacy_catalog, []) (migrate (legacy_catalog, [])).1 (migrate (legacy_catalog, [])).2 legacy_table) as (t'&Ht'&_&_&Hc).
  - apply surjective_pairing.
  - reflexivity.
  - exact legacy_in_columns.
  - exists t'. split; [exact Ht'|]. apply Hc; [vm_compute; reflexivity|]. apply list_subseteq_check. vm_compute. reflexivity.
Defined.

(** A failure in the middle of the rebuilding rolls it back; the next start finishes it. *)
Definition interrupted : sqlw := (migrate (legacy_catalog, replicate 18 None ++ [Some (ErrText "disk full", false)])).1.

Lemma interrupted_upgrade_resumes :
  (tb_sql <$> codexes_of interrupted) = Some (legacy_sql +:+ ", session_source TEXT NOT NULL DEFAULT 'unknown'") ∧
  ids (migrate (interrupted.1, [])).1 = ids (migrate (legacy_catalog, [])).1 ∧ (migrate (interrupted.1, [])).2 = Ok tt.
Proof. split; [|split]; vm_compute; reflexivity. Qed.

(** A new database gets the schema of this version. *)
Lemma new_database : codexes_of (migrate (mkCatalog ∅ ∅, [])).1 = Some (mkTable codexes_sql codexes_columns [session_identity; ["codex_id"]; session_identity] []).
Proof. vm_compute. reflexivity. Qed.

End MigrationDemo.
