(* ===== verification/Activity.v ===== *)
(** * Activity: event sequencing, replay and live watches (internal/activity/store.go)

    [activity.Store] assigns sequence numbers to canonical events through the
    persistence interface, keeps a bounded replay suffix per Codex and feeds the
    channels of live watchers.  The persistence package appears only as the type
    class [EventPersistence]; its laws are what this component relies on.

    Every exported method holds the mutex for its whole body, so a method is one
    atomic transformation of the store.  A stream is a heap object of the Go
    program: [sm_ref] is its identity, which [Cancel] compares, because a forgotten
    Codex leaves the map while its watchers may still hold the old stream. *)

From stdpp Require Import base tactics numbers list gmap strings.
From S2P Require Import Prelude GoError GoStrings Remote.

(** ** What the component needs from persistence *)

(** [activity.Persistence]; the clock reading is the argument [now]. *)
Class EventPersistence (P : Type) := {
  ep_LoadEventState : string → M P (Z * string);
  ep_CommitEvent : Z → string → (Z → res string) → M P Z;
}.

(** The durable event boundary and the contract of the two operations: a load
    reports it, a successful commit advances it by one together with the view, a
    failed commit leaves it alone or, when its outcome is unknown, may have
    advanced it. *)
Class EventPersistenceLaws (P : Type) `{EventPersistence P} := {
  ep_inv : P → Prop;
  ep_state : P → string → option (Z * string);
  ep_range p id h raw : ep_inv p → ep_state p id = Some (h, raw) → (0 ≤ h < 2 ^ 63)%Z;
  ep_load p id p' r :
    ep_inv p → ep_LoadEventState id p = (p', r) →
    ep_inv p' ∧ (∀ j, ep_state p' j = ep_state p j) ∧
    match r with
    | Ok st => ep_state p id = Some st
    | Err e => errorsIs e ErrNoRows = true → ep_state p id = None
    end;
  ep_commit p now id build p' r :
    ep_inv p → ep_CommitEvent now id build p = (p', r) →
    ep_inv p' ∧ (∀ j, j ≠ id → ep_state p' j = ep_state p j) ∧
    match r with
    | Ok seq => ∃ h old raw, ep_state p id = Some (h, old) ∧ seq = (h + 1)%Z ∧
        build seq = Ok raw ∧ ep_state p' id = Some (seq, raw)
    | Err e => ep_state p' id = ep_state p id ∨
        ∃ h old raw, ep_state p id = Some (h, old) ∧ build (h + 1)%Z = Ok raw ∧
          ep_state p' id = Some ((h + 1)%Z, raw)
    end;
}.

(** ** Channels

    A buffered Go channel as the list of values ever sent and how many of them
    were taken out; [ch_slow] is the companion channel [watcher.slow], which is
    only ever closed. *)
Record chan := mkChan {
  ch_sent : list Event;
  ch_taken : nat;
  ch_cap : Z;
  ch_closed : bool;
  ch_slow : bool;
}.

(** The values waiting in the channel. *)
Definition ch_buf (c : chan) : list Event := drop (ch_taken c) (ch_sent c).

Definition ch_has_room (c : chan) : bool := (zlen (ch_buf c) <? ch_cap c)%Z.

Definition ch_push (ev : Event) (c : chan) : chan :=
  mkChan (ch_sent c ++ [ev]) (ch_taken c) (ch_cap c) (ch_closed c) (ch_slow c).

Definition ch_pop (c : chan) : chan :=
  match ch_buf c with
  | [] => c
  | _ :: _ => mkChan (ch_sent c) (S (ch_taken c)) (ch_cap c) (ch_closed c) (ch_slow c)
  end.

Definition ch_close (c : chan) : chan :=
  mkChan (ch_sent c) (ch_taken c) (ch_cap c) true (ch_slow c).

Definition ch_close_slow (c : chan) : chan :=
  mkChan (ch_sent c) (ch_taken c) (ch_cap c) (ch_closed c) true.

(** [make(chan *remotev1.Event, queue)]. *)
Definition new_chan (queue : Z) : chan := mkChan [] 0 queue false false.

(** ** State *)

(** [activity.stream]; [sm_watchers] maps watcher ids to channels of the heap. *)
Record stream := mkStream {
  sm_ref : nat;
  sm_head : Z;
  sm_events : list Event;
  sm_view : option CurrentView;
  sm_replayUnsafe : bool;
  sm_safeReplayFloor : option Z;
  sm_needsReload : bool;
  sm_nextWatcher : Z;
  sm_watchers : gmap Z nat;
}.

Definition set_sm_head_view (h : Z) (v : option CurrentView) (st : stream) : stream :=
  mkStream (sm_ref st) h (sm_events st) v (sm_replayUnsafe st) (sm_safeReplayFloor st)
    (sm_needsReload st) (sm_nextWatcher st) (sm_watchers st).

Definition set_sm_events (evs : list Event) (st : stream) : stream :=
  mkStream (sm_ref st) (sm_head st) evs (sm_view st) (sm_replayUnsafe st) (sm_safeReplayFloor st)
    (sm_needsReload st) (sm_nextWatcher st) (sm_watchers st).

Definition set_sm_replayUnsafe (b : bool) (st : stream) : stream :=
  mkStream (sm_ref st) (sm_head st) (sm_events st) (sm_view st) b (sm_safeReplayFloor st)
    (sm_needsReload st) (sm_nextWatcher st) (sm_watchers st).

Definition set_sm_safeReplayFloor (f : option Z) (st : stream) : stream :=
  mkStream (sm_ref st) (sm_head st) (sm_events st) (sm_view st) (sm_replayUnsafe st) f
    (sm_needsReload st) (sm_nextWatcher st) (sm_watchers st).

Definition set_sm_needsReload (b : bool) (st : stream) : stream :=
  mkStream (sm_ref st) (sm_head st) (sm_events st) (sm_view st) (sm_replayUnsafe st)
    (sm_safeReplayFloor st) b (sm_nextWatcher st) (sm_watchers st).

Definition set_sm_watchers (next : Z) (w : gmap Z nat) (st : stream) : stream :=
  mkStream (sm_ref st) (sm_head st) (sm_events st) (sm_view st) (sm_replayUnsafe st)
    (sm_safeReplayFloor st) (sm_needsReload st) next w.

(** [activity.Store] with its persistence and the heap of channels.  [as_stuck] is
    set when Go would panic
    on a closed channel or never leave a delivery loop. *)
Record AStore (P : Type) := mkAStore {
  as_persist : P;
  as_audited : bool;
  as_capacity : Z;
  as_codex : gmap string stream;
  as_auditErr : string;
  as_chans : gmap nat chan;
  as_next_ref : nat;
  as_next_chan : nat;
  as_stuck : bool;
}.
Arguments mkAStore {P} _ _ _ _ _ _ _ _ _.
Arguments as_persist {P} _.
Arguments as_audited {P} _.
Arguments as_capacity {P} _.
Arguments as_codex {P} _.
Arguments as_auditErr {P} _.
Arguments as_chans {P} _.
Arguments as_next_ref {P} _.
Arguments as_next_chan {P} _.
Arguments as_stuck {P} _.

Section Setters.
Context {P : Type}.

Definition set_as_persist (p : P) (s : AStore P) : AStore P :=
  mkAStore p (as_audited s) (as_capacity s) (as_codex s) (as_auditErr s) (as_chans s)
    (as_next_ref s) (as_next_chan s) (as_stuck s).

Definition set_as_codex (m : gmap string stream) (s : AStore P) : AStore P :=
  mkAStore (as_persist s) (as_audited s) (as_capacity s) m (as_auditErr s) (as_chans s)
    (as_next_ref s) (as_next_chan s) (as_stuck s).

Definition set_as_auditErr (e : string) (s : AStore P) : AStore P :=
  mkAStore (as_persist s) (as_audited s) (as_capacity s) (as_codex s) e (as_chans s)
    (as_next_ref s) (as_next_chan s) (as_stuck s).

Definition set_as_chans (c : gmap nat chan) (s : AStore P) : AStore P :=
  mkAStore (as_persist s) (as_audited s) (as_capacity s) (as_codex s) (as_auditErr s) c
    (as_next_ref s) (as_next_chan s) (as_stuck s).

Definition set_as_stuck (s : AStore P) : AStore P :=
  mkAStore (as_persist s) (as_audited s) (as_capacity s) (as_codex s) (as_auditErr s) (as_chans s)
    (as_next_ref s) (as_next_chan s) true.

Definition put_stream (id : string) (st : stream) (s : AStore P) : AStore P :=
  set_as_codex (<[id := st]> (as_codex s)) s.

(** Allocate a stream object. *)
Definition alloc_ref (s : AStore P) : nat * AStore P :=
  (as_next_ref s,
   mkAStore (as_persist s) (as_audited s) (as_capacity s) (as_codex s) (as_auditErr s) (as_chans s)
     (S (as_next_ref s)) (as_next_chan s) (as_stuck s)).

(** Allocate a channel. *)
Definition alloc_chan (c : chan) (s : AStore P) : nat * AStore P :=
  (as_next_chan s,
   mkAStore (as_persist s) (as_audited s) (as_capacity s) (as_codex s) (as_auditErr s)
     (<[as_next_chan s := c]> (as_chans s)) (as_next_ref s) (S (as_next_chan s)) (as_stuck s)).
End Setters.

(** ** Operations *)

Section Operations.
Context {P : Type} `{EventPersistence P} `{ProtoJSON}.

Notation MA := (M (AStore P)).

(** A call on the persistence interface. *)
Definition persist {A} (m : M P A) : MA A := zoom as_persist set_as_persist m.

Definition NewStore (p : P) (audited : bool) (replayCapacity : Z) : AStore P :=
  let replayCapacity := if (replayCapacity <=? 0)%Z then 1024%Z else replayCapacity in
  mkAStore p audited replayCapacity ∅ "" ∅ 0 0 false.

(** The stream [st] with the durable head and view, or the error of the load. *)
Definition loadDurable (codexID : string) (st : stream) : MA stream :=
  '(head, raw) ← persist (ep_LoadEventState codexID);
  mret (set_sm_head_view head (if str_empty raw then None else UnmarshalView raw) st).

(** The view of a stream loaded for the first time and whether replay is unsafe. *)
Definition decode_boundary (head : Z) (raw : string) : option CurrentView * bool :=
  if negb (str_empty raw) then
    match UnmarshalView raw with
    | Some v => (Some v, bool_decide (cv_HeadEventSeq v ≠ head))
    | None => (None, true)
    end
  else (None, bool_decide (head ≠ 0%Z)).

(** [st := &stream{...}; s.codex[id] = st]. *)
Definition open_stream (id : string) (head : Z) (raw : string) : MA stream := λ s,
  let '(view, unsafe) := decode_boundary head raw in
  let '(ref, s) := alloc_ref s in
  let st := mkStream ref head [] view unsafe None false 0 ∅ in
  (put_stream id st s, Ok st).

Definition ensure (id : string) : MA stream :=
  cached ← gets (λ s, as_codex s !! id);
  match cached with
  | Some st =>
      if sm_needsReload st then
        st ← loadDurable id st;
        let st := set_sm_replayUnsafe true (set_sm_needsReload false st) in
        _ ← modify (put_stream id st);
        mret st
      else mret st
  | None =>
      loaded ← attempt (persist (ep_LoadEventState id));
      match loaded with
      | Err e =>
          if errorsIs e ErrNoRows then throw (ErrWrapped "" (ErrSentinel ErrCodexNotFound) (": " +:+ id))
          else throw e
      | Ok (head, raw) => open_stream id head raw
      end
  end.

Definition reloadUnsafe (codexID : string) (st : stream) : MA unit :=
  let st := set_sm_safeReplayFloor None (set_sm_replayUnsafe true (set_sm_events [] st)) in
  loaded ← attempt (loadDurable codexID st);
  match loaded with
  | Err _ => modify (put_stream codexID (set_sm_needsReload true st))
  | Ok st => modify (put_stream codexID (set_sm_needsReload false st))
  end.

(** [if s.audit != nil { if err := RecordCanonical(...); err != nil { s.auditErr.Store } }];
    [audit] is the result of the recorder. *)
Definition record_audit (audit : option string) : MA unit :=
  modify (λ s, match audit with
               | Some e => if as_audited s then set_as_auditErr e s else s
               | None => s
               end).

Definition AuditDegraded (s : AStore P) : bool * string :=
  (negb (str_empty (as_auditErr s)), as_auditErr s).

(** One iteration of the delivery loop of [Publish]: a non-blocking send; a full
    channel makes its watcher slow and unregisters it. *)
Definition offer (ev : Event) (acc : AStore P * gmap Z nat) (w : Z * nat) : AStore P * gmap Z nat :=
  let '(s, ws) := acc in
  let '(wid, cid) := w in
  match as_chans s !! cid with
  | None => (s, ws)
  | Some c =>
      if ch_closed c then (set_as_stuck s, ws)
      else if ch_has_room c then (set_as_chans (<[cid := ch_push ev c]> (as_chans s)) s, ws)
      else
        let s := if ch_slow c then set_as_stuck s else s in
        (set_as_chans (<[cid := ch_close_slow c]> (as_chans s)) s, delete wid ws)
  end.

(** [st.events = st.events[len(st.events)-s.capacity:]] when it has grown past it. *)
Definition trim_events (capacity : Z) (evs : list Event) : list Event :=
  if (capacity <? zlen evs)%Z then drop (Z.to_nat (zlen evs - capacity)) evs else evs.

(** Append the committed event to the stream and offer it to every watcher. *)
Definition deliver (id : string) (st : stream) (ev : Event) (view : CurrentView) (s : AStore P) : AStore P :=
  let st := set_sm_head_view (ev_EventSeq ev) (Some view) st in
  let st := set_sm_events (trim_events (as_capacity s) (sm_events st ++ [ev])) st in
  let '(s, ws) := foldl (offer ev) (s, sm_watchers st) (map_to_list (sm_watchers st)) in
  put_stream id (set_sm_watchers (sm_nextWatcher st) ws st) s.

Definition Publish (now : Z) (event : option Event) (view : option CurrentView) (audit : option string)
    : MA Event :=
  match event with
  | None => fail_msg "event with codex id is required"
  | Some event =>
  if str_empty (ev_CodexId event) then fail_msg "event with codex id is required" else
  match view with
  | None => fail_msg "event CurrentView is required"
  | Some view =>
      let id := ev_CodexId event in
      st ← ensure id;
      committed ← attempt (persist (ep_CommitEvent now id (λ seq,
                     Marshal (MsgView (set_cv_HeadEventSeq seq view)))));
      match committed with
      | Err e => _ ← reloadUnsafe id st; throw e
      | Ok seq =>
          let ev := set_ev_EventSeq seq event in
          _ ← record_audit audit;
          _ ← modify (deliver id st ev (set_cv_HeadEventSeq seq view));
          mret ev
      end
  end
  end.

(** The loop that makes room for the terminal event by discarding queued ones. *)
Fixpoint force_send (fuel : nat) (ev : Event) (c : chan) : option chan :=
  match fuel with
  | 0 => None
  | S fuel => if ch_has_room c then Some (ch_push ev c) else force_send fuel ev (ch_pop c)
  end.

(** One iteration of the loop of [Forget]: deliver, unregister, close. *)
Definition terminate (ev : Event) (acc : AStore P * gmap Z nat) (w : Z * nat) : AStore P * gmap Z nat :=
  let '(s, ws) := acc in
  let '(wid, cid) := w in
  match as_chans s !! cid with
  | None => (s, ws)
  | Some c =>
      if ch_closed c then (set_as_stuck s, ws)
      else match force_send (S (length (ch_buf c))) ev c with
      | None => (set_as_stuck s, ws)
      | Some c' => (set_as_chans (<[cid := ch_close c']> (as_chans s)) s, delete wid ws)
      end
  end.

(** The terminal event of a Codex. *)
Definition forgotten_event (now : Z) (codexID requestID : string) (seq : Z) : Event :=
  mkEvent codexID seq now requestID None (Some Event_CodexForgotten).

(** Deliver the terminal event to every watcher and close them all. *)
Definition deliver_last (id : string) (st : stream) (ev : Event) (s : AStore P) : AStore P :=
  let '(s, ws) := foldl (terminate ev) (s, sm_watchers st) (map_to_list (sm_watchers st)) in
  put_stream id (set_sm_watchers (sm_nextWatcher st) ws st) s.

Definition Forget (now : Z) (codexID requestID : string) (destroy : option (string → M P unit))
    (audit : option string) : MA Event :=
  match destroy with
  | None => fail_msg "codex id and destroy callback are required"
  | Some destroy =>
  if str_empty codexID then fail_msg "codex id and destroy callback are required" else
      st ← ensure codexID;
      let ev := forgotten_event now codexID requestID (u64_incr (sm_head st)) in
      _ ← record_audit audit;
      _ ← modify (deliver_last codexID st ev);
      _ ← persist (destroy codexID);
      _ ← modify (λ s, set_as_codex (delete codexID (as_codex s)) s);
      mret ev
  end.

(** The cached stream, or a new empty one placed in the map. *)
Definition cached_or_new (id : string) : MA stream := λ s,
  match as_codex s !! id with
  | Some st => (s, Ok st)
  | None =>
      let '(ref, s) := alloc_ref s in
      let st := mkStream ref 0 [] None false None false 0 ∅ in
      (put_stream id st s, Ok st)
  end.

Definition ReloadDurable (codexID : string) : MA unit :=
  if str_empty codexID then fail_msg "codex id is required" else
  st ← cached_or_new codexID;
  let st := set_sm_safeReplayFloor None (set_sm_replayUnsafe true (set_sm_events [] st)) in
  loaded ← attempt (loadDurable codexID st);
  match loaded with
  | Err e => _ ← modify (put_stream codexID (set_sm_needsReload true st)); throw e
  | Ok st => modify (put_stream codexID (set_sm_needsReload false st))
  end.

Fixpoint continuous_from (events : list Event) (start head expected : Z) : bool :=
  match events with
  | [] => false
  | event :: events =>
      if (ev_EventSeq event <? start)%Z then continuous_from events start head expected
      else if bool_decide (ev_EventSeq event ≠ expected) then false
      else let expected := u64_incr expected in
           if (head <? expected)%Z then true else continuous_from events start head expected
  end.

Definition continuousReplayAvailable (events : list Event) (start head : Z) : bool :=
  if (head <? start)%Z then true else continuous_from events start head start.

Definition empty_view (head : Z) : CurrentView := mkCurrentView None None [] None None head 0.

Definition cloneView (v : option CurrentView) (head : Z) : CurrentView :=
  match v with
  | None => empty_view head
  | Some v => set_cv_HeadEventSeq head v
  end.

(** [activity.Watch]; the channel, and what [Cancel] captured. *)
Record Watch := mkWatch {
  wt_Response : WatchCodexResponse;
  wt_Replay : list Event;
  wt_chan : nat;
  wt_codex : string;
  wt_ref : nat;
  wt_id : Z;
}.

Definition reset_response (codexID : string) (st : stream) (reason : WatchResetReason) : WatchCodexResponse :=
  mkWatchCodexResponse codexID (sm_head st) WATCH_MODE_RESET reason
    (Some (cloneView (sm_view st) (sm_head st))) 0.

(** The mode, reset reason and replay of a watch. *)
Definition watch_response (codexID : string) (st : stream) (after : option Z)
    : WatchCodexResponse * list Event :=
  match after with
  | None => (reset_response codexID st WATCH_RESET_REASON_INITIAL_WATCH, [])
  | Some after =>
      if sm_replayUnsafe st &&
         match sm_safeReplayFloor st with None => true | Some floor => (after <? floor)%Z end then
        (reset_response codexID st WATCH_RESET_REASON_CURSOR_UNAVAILABLE, [])
      else if (sm_head st <? after)%Z then
        (reset_response codexID st WATCH_RESET_REASON_CURSOR_INVALID, [])
      else
        let start := u64_incr after in
        if negb (continuousReplayAvailable (sm_events st) start (sm_head st)) then
          (reset_response codexID st WATCH_RESET_REASON_CURSOR_UNAVAILABLE, [])
        else
          (mkWatchCodexResponse codexID (sm_head st) WATCH_MODE_RESUMED WATCH_RESET_REASON_UNSPECIFIED None start,
           filter (λ ev, (start ≤ ev_EventSeq ev ≤ sm_head st)%Z) (sm_events st))
  end.

Definition watchLocked (codexID : string) (st : stream) (after : option Z) (queue : Z) : MA Watch := λ s,
  let id := u64_incr (sm_nextWatcher st) in
  let '(cid, s) := alloc_chan (new_chan queue) s in
  let st := set_sm_watchers id (<[id := cid]> (sm_watchers st)) st in
  let '(resp, replay) := watch_response codexID st after in
  let st := if bool_decide (wr_Mode resp = WATCH_MODE_RESET)
            then set_sm_safeReplayFloor (Some (wr_HeadEventSeq resp)) st else st in
  (put_stream codexID st s, Ok (mkWatch resp replay cid codexID (sm_ref st) id)).

Definition Store_Watch (codexID : string) (after : option Z) (queue : Z) : MA Watch :=
  if str_empty codexID then fail_msg "codex id is required" else
  let queue := if (queue <=? 0)%Z then 128%Z else queue in
  st ← ensure codexID;
  watchLocked codexID st after queue.

Definition ForceReset (codexID : string) (reason : WatchResetReason) (queue : Z) : MA Watch :=
  if str_empty codexID then fail_msg "codex id is required" else
  let queue := if (queue <=? 0)%Z then 128%Z else queue in
  st ← ensure codexID;
  w ← watchLocked codexID st None queue;
  mret (mkWatch (set_wr_ResetReason reason (wt_Response w)) (wt_Replay w) (wt_chan w) (wt_codex w)
          (wt_ref w) (wt_id w)).

(** [Watch.Cancel]. *)
Definition Cancel (w : Watch) (s : AStore P) : AStore P :=
  match as_codex s !! wt_codex w with
  | None => s
  | Some st =>
      if bool_decide (sm_ref st = wt_ref w) then
        match sm_watchers st !! wt_id w with
        | None => s
        | Some cid =>
            let s := put_stream (wt_codex w)
                       (set_sm_watchers (sm_nextWatcher st) (delete (wt_id w) (sm_watchers st)) st) s in
            match as_chans s !! cid with
            | None => s
            | Some c =>
                let s := if ch_closed c then set_as_stuck s else s in
                set_as_chans (<[cid := ch_close c]> (as_chans s)) s
            end
        end
      else s
  end.

(** The reader of a watch takes one event out of its channel. *)
Definition Receive (cid : nat) (s : AStore P) : AStore P :=
  match as_chans s !! cid with
  | None => s
  | Some c => set_as_chans (<[cid := ch_pop c]> (as_chans s)) s
  end.

Definition Store_CurrentView (codexID : string) : MA CurrentView :=
  st ← ensure codexID;
  match sm_view st with
  | None => fail_msg ("current view for " +:+ Quote codexID +:+ " unavailable")
  | Some v => mret v
  end.
End Operations.

(** ** The operations as one alphabet, and runs with an environment *)

Section Runs.
Context {P : Type} `{EventPersistence P} `{ProtoJSON}.

Inductive a_op :=
| APublish (now : Z) (event : option Event) (view : option CurrentView) (audit : option string)
| AForget (now : Z) (id req : string) (destroy : option (string → M P unit)) (audit : option string)
| AReload (id : string)
| AWatch (id : string) (after : option Z) (queue : Z)
| AForceReset (id : string) (reason : WatchResetReason) (queue : Z)
| ACancel (w : Watch)
| AReceive (cid : nat)
| AView (id : string).

(** The state after the call and the event it published, if it did. *)
Definition arun (op : a_op) (s : AStore P) : AStore P * list Event :=
  match op with
  | APublish now event view audit =>
      let '(s', r) := Publish now event view audit s in
      (s', match r with Ok ev => [ev] | Err _ => [] end)
  | AForget now id req destroy audit =>
      let '(s', r) := Forget now id req destroy audit s in
      (s', match r with Ok ev => [ev] | Err _ => [] end)
  | AReload id => ((ReloadDurable id s).1, [])
  | AWatch id after queue => ((Store_Watch id after queue s).1, [])
  | AForceReset id reason queue => ((ForceReset id reason queue s).1, [])
  | ACancel w => (Cancel w s, [])
  | AReceive cid => (Receive cid s, [])
  | AView id => ((Store_CurrentView id s).1, [])
  end.

(** Consecutive calls and what they published. *)
Fixpoint arun_list (ops : list a_op) (s : AStore P) : AStore P * list Event :=
  match ops with
  | [] => (s, [])
  | op :: ops =>
      let '(s1, evs) := arun op s in
      let '(s2, tr) := arun_list ops s1 in (s2, evs ++ tr)
  end.

(** The channels registered for a Codex. *)
Definition wmap (s : AStore P) (id : string) : gmap Z nat :=
  default ∅ (sm_watchers <$> as_codex s !! id).

Definition registered (s : AStore P) (id : string) (c : nat) : Prop :=
  ∃ w, wmap s id !! w = Some c.

Section Laws.
Context `{!EventPersistenceLaws P}.

(** What [destroy] may do: erase the durable state of that Codex and nothing else. *)
Definition destroys (destroy : string → M P unit) : Prop :=
  ∀ id p p' r, ep_inv p → destroy id p = (p', r) →
    ep_inv p' ∧ (∀ j, j ≠ id → ep_state p' j = ep_state p j) ∧
    match r with
    | Ok _ => ep_state p' id = None
    | Err _ => ep_state p' id = ep_state p id ∨ ep_state p' id = None
    end.

Definition op_ok (op : a_op) : Prop :=
  match op with AForget _ _ _ (Some destroy) _ => destroys destroy | _ => True end.

(** What the rest of the Host may do to the database between two calls: rewrite
    views, and create Codexes this store has not cached, with head 0. *)
Definition env_step (s : AStore P) (p' : P) : Prop :=
  ep_inv p' ∧
  ∀ id, match ep_state (as_persist s) id with
        | Some (h, _) => ∃ raw, ep_state p' id = Some (h, raw)
        | None => ep_state p' id = None ∨
                  (as_codex s !! id = None ∧ ∃ raw, ep_state p' id = Some (0%Z, raw))
        end.

(** Any interleaving of calls and environment steps, with the published events. *)
Inductive asteps : AStore P → list Event → AStore P → Prop :=
| asteps_refl s : asteps s [] s
| asteps_op s op s1 evs tr s2 :
    op_ok op → arun op s = (s1, evs) → asteps s1 tr s2 → asteps s (evs ++ tr) s2
| asteps_env s p' tr s2 :
    env_step s p' → asteps (set_as_persist p' s) tr s2 → asteps s tr s2.

Lemma asteps_list ops s : Forall op_ok ops → asteps s (arun_list ops s).2 (arun_list ops s).1.
Proof.
  intros Hops. revert s. induction Hops as [|op ops Hop _ IH]; intros s; simpl; [constructor|].
  destruct (arun op s) as [s1 evs] eqn:E. specialize (IH s1). destruct (arun_list ops s1) as [s2 tr].
  by eapply asteps_op.
Qed.

(** ** Invariants *)

(** One stream: the replay suffix is the unbroken run of sequence numbers that
    ends at the head, no longer than the capacity; a safe replay floor is a
    boundary the suffix reaches down to, unless the suffix is full. *)
Record stream_wf (cap : Z) (st : stream) : Prop := {
  swf_head : (0 ≤ sm_head st < 2 ^ 63)%Z;
  swf_seqs : ev_EventSeq <$> sm_events st
             = seqZ (sm_head st - zlen (sm_events st) + 1) (zlen (sm_events st));
  swf_len : (zlen (sm_events st) ≤ sm_head st)%Z;
  swf_cap : (zlen (sm_events st) ≤ cap)%Z;
  swf_floor f : sm_safeReplayFloor st = Some f →
    (0 ≤ f ≤ sm_head st)%Z ∧ (sm_head st - zlen (sm_events st) ≤ f ∨ zlen (sm_events st) = cap)%Z;
  swf_reload : sm_needsReload st = true →
    sm_events st = [] ∧ sm_replayUnsafe st = true ∧ sm_safeReplayFloor st = None;
}.

(** The streams agree with the durable heads. *)
Record data_wf (s : AStore P) : Prop := {
  dwf_inv : ep_inv (as_persist s);
  dwf_cap : (0 < as_capacity s)%Z;
  dwf_stream id st : as_codex s !! id = Some st → stream_wf (as_capacity s) st;
  dwf_head id st h raw : as_codex s !! id = Some st → sm_needsReload st = false →
    ep_state (as_persist s) id = Some (h, raw) → h = sm_head st;
}.

(** An open channel with room for at least one event. *)
Definition open_chan (c : chan) : Prop := ch_closed c = false ∧ ch_slow c = false.

(** Registered channels are open and belong to one watcher of one Codex; buffers
    respect their capacity; nothing has panicked. *)
Record chan_wf (s : AStore P) : Prop := {
  cwf_open id w c : wmap s id !! w = Some c → ∃ ch, as_chans s !! c = Some ch ∧ open_chan ch;
  cwf_inj i1 w1 i2 w2 c : wmap s i1 !! w1 = Some c → wmap s i2 !! w2 = Some c → i1 = i2 ∧ w1 = w2;
  cwf_buf c ch : as_chans s !! c = Some ch →
    c < as_next_chan s ∧ (0 < ch_cap ch)%Z ∧ (zlen (ch_buf ch) ≤ ch_cap ch)%Z;
  cwf_stuck : as_stuck s = false;
}.
End Laws.
End Runs.
Arguments a_op P : clear implicits.

(** ** Delivery loops

    Both loops over the watchers visit distinct channels, so their effect on each
    channel is that of one iteration. *)
Section Delivery.
Context {P : Type}.

Lemma foldl_visit (g : AStore P * gmap Z nat → Z * nat → AStore P * gmap Z nat)
    (f : chan → chan) (keep : chan → bool) (l : list (Z * nat)) s ws :
  (∀ s ws w c ch, (w, c) ∈ l → as_chans s !! c = Some ch → open_chan ch → (0 < ch_cap ch)%Z →
     g (s, ws) (w, c) = (set_as_chans (<[c := f ch]> (as_chans s)) s, if keep ch then ws else delete w ws)) →
  NoDup l.*1 → NoDup l.*2 →
  (∀ w c, (w, c) ∈ l → ws !! w = Some c ∧
     ∃ ch, as_chans s !! c = Some ch ∧ open_chan ch ∧ (0 < ch_cap ch)%Z) →
  let '(s', ws') := foldl g (s, ws) l in
  s' = set_as_chans (as_chans s') s ∧
  (∀ c, as_chans s' !! c = if decide (c ∈ l.*2) then f <$> as_chans s !! c else as_chans s !! c) ∧
  (∀ w c, ws' !! w = Some c ↔
     ws !! w = Some c ∧ ((w, c) ∈ l → ∀ ch, as_chans s !! c = Some ch → keep ch = true)).
Proof.
  revert s ws. induction l as [|[w0 c0] l IH]; intros s ws Hg Hd1 Hd2 Hl; simpl.
  { split_and!; [by destruct s|done|]. intros. split; [|by intros [? _]].
    intros. split; [done|]. by intros ?%elem_of_nil. }
  apply NoDup_cons in Hd1 as [Hn1 Hd1]. apply NoDup_cons in Hd2 as [Hn2 Hd2].
  destruct (Hl w0 c0) as (Hw0&ch0&Hc0&Ho0&Hp0); [left|].
  rewrite (Hg s ws w0 c0 ch0) by (done || left).
  set (s1 := set_as_chans _ s). set (ws1 := if keep ch0 then ws else _).
  assert (∀ c, c ≠ c0 → as_chans s1 !! c = as_chans s !! c) as Hs1.
  { intros c Hc. unfold s1. simpl. by rewrite lookup_insert_ne. }
  assert (∀ w, w ≠ w0 → ws1 !! w = ws !! w) as Hws1.
  { intros w Hw. unfold ws1. destruct (keep ch0); [done|]. by rewrite lookup_delete_ne. }
  assert (∀ w c, (w, c) ∈ l → w ≠ w0 ∧ c ≠ c0) as Hne.
  { intros w c Hin. apply (list_elem_of_fmap_2 fst) in Hin as H1. apply (list_elem_of_fmap_2 snd) in Hin as H2.
    simpl in *. split; intros ->; done. }
  specialize (IH s1 ws1). destruct (foldl g (s1, ws1) l) as [s' ws'].
  destruct IH as (E1&E2&E3); [|done|done| |].
  { intros. apply Hg; [by right|done..]. }
  { intros w c Hin. destruct (Hne w c Hin) as [Hw Hc]. rewrite Hs1, Hws1 by done. apply Hl. by right. }
  split_and!.
  - rewrite E1. done.
  - intros c. rewrite E2. destruct (decide (c = c0)) as [->|Hc].
    + rewrite decide_False by done. rewrite decide_True by left. unfold s1. simpl.
      by rewrite lookup_insert_eq, Hc0.
    + rewrite Hs1 by done. destruct (decide (c ∈ l.*2)).
      * by rewrite decide_True by (by right).
      * rewrite decide_False; [done|]. intros [?|?]%elem_of_cons; done.
  - intros w c. rewrite E3. destruct (decide (w = w0)) as [->|Hw].
    + assert (ws1 !! w0 = Some c ↔ ws !! w0 = Some c ∧ keep ch0 = true) as ->.
      { unfold ws1. destruct (keep ch0); [naive_solver|]. rewrite lookup_delete_eq. naive_solver. }
      split.
      * intros [[? Hk] _]. split; [done|]. simplify_eq. intros _ ch ?. by simplify_eq.
      * intros [? Hk]. simplify_eq. split_and!; [done|by eapply Hk; [left|]|].
        intros Hin. by destruct (Hne _ _ Hin).
    + rewrite Hws1 by done. split; intros [? Hk]; (split; [done|]).
      * intros [?|Hin]%elem_of_cons; [simplify_eq|]. destruct (Hne _ _ Hin).
        rewrite <-Hs1 by done. auto.
      * intros Hin. destruct (Hne _ _ Hin). rewrite Hs1 by done. apply Hk. by right.
Qed.

(** The channel after one offer of [Publish]. *)
Definition offered (ev : Event) (c : chan) : chan := if ch_has_room c then ch_push ev c else ch_close_slow c.

Lemma ch_buf_push ev c : (ch_taken c ≤ length (ch_sent c))%nat →
  ch_buf (ch_push ev c) = ch_buf c ++ [ev].
Proof. intros. unfold ch_buf. simpl. by rewrite drop_app_le. Qed.

(** Making room terminates: at most as many rounds as events are queued. *)
Lemma force_send_some fuel ev c :
  (0 < ch_cap c)%Z → length (ch_buf c) < fuel →
  ∃ c', force_send fuel ev c = Some c' ∧ ch_sent c' = ch_sent c ++ [ev] ∧
    ch_closed c' = ch_closed c ∧ ch_cap c' = ch_cap c ∧ (ch_taken c ≤ ch_taken c')%nat ∧
    (zlen (ch_buf c') ≤ ch_cap c)%Z.
Proof.
  revert c. induction fuel as [|fuel IH]; intros c Hcap Hlen; [lia|]. simpl.
  destruct (ch_has_room c) eqn:Er.
  - eexists; split_and!; [done..|]. unfold ch_has_room, ch_buf, zlen in *. to_prop. simpl.
    rewrite length_drop, length_app in *. simpl. lia.
  - unfold ch_has_room in Er. to_prop. destruct (ch_buf c) as [|e b] eqn:Eb; [unfold zlen in Er; simpl in Er; lia|].
    assert (ch_pop c = mkChan (ch_sent c) (S (ch_taken c)) (ch_cap c) (ch_closed c) (ch_slow c)) as Hp
      by (unfold ch_pop; by rewrite Eb).
    assert (ch_buf (ch_pop c) = b) as Hb.
    { rewrite Hp. unfold ch_buf in *. simpl. rewrite <-Nat.add_1_r, <-drop_drop, Eb. done. }
    destruct (IH (ch_pop c)) as (c'&?&?&?&?&?&?).
    + by rewrite Hp.
    + rewrite Hb. simpl in Hlen. lia.
    + rewrite Hp in *. simpl in *. exists c'. split_and!; (done || lia).
Qed.

(** The channel after the terminal event of [Forget]. *)
Definition ended (ev : Event) (c : chan) : chan :=
  match force_send (S (length (ch_buf c))) ev c with Some c' => ch_close c' | None => c end.

Lemma offer_open ev (s : AStore P) ws w c ch :
  as_chans s !! c = Some ch → open_chan ch →
  offer ev (s, ws) (w, c) =
    (set_as_chans (<[c := offered ev ch]> (as_chans s)) s, if ch_has_room ch then ws else delete w ws).
Proof.
  intros Hc [Ho Hs]. unfold offer, offered. rewrite Hc, Ho, Hs. by destruct (ch_has_room ch).
Qed.

Lemma terminate_open ev (s : AStore P) ws w c ch :
  as_chans s !! c = Some ch → open_chan ch → (0 < ch_cap ch)%Z →
  terminate ev (s, ws) (w, c) =
    (set_as_chans (<[c := ended ev ch]> (as_chans s)) s, delete w ws).
Proof.
  intros Hc [Ho Hs] Hcap. unfold terminate, ended. rewrite Hc, Ho.
  destruct (force_send_some (S (length (ch_buf ch))) ev ch) as (c'&->&_); [done|lia|done].
Qed.
End Delivery.

(** ** Every operation preserves the invariants *)

Section Preservation.
Context {P : Type} {HP : EventPersistence P} {HL : EventPersistenceLaws P} {HJ : ProtoJSON}.

(** Nothing that watchers can observe has changed. *)
Definition quiet (s s' : AStore P) : Prop :=
  as_chans s' = as_chans s ∧ as_next_chan s' = as_next_chan s ∧ as_stuck s' = as_stuck s ∧
  as_capacity s' = as_capacity s ∧ ∀ id, wmap s' id = wmap s id.

#[export] Instance quiet_preorder : PreOrder quiet.
Proof.
  split; [by repeat split|]. intros s1 s2 s3 (?&?&?&?&Hw) (?&?&?&?&Hw').
  repeat split; try congruence.
Qed.

Lemma quiet_chan_wf s s' : quiet s s' → chan_wf s → chan_wf s'.
Proof.
  intros (Hc&Hn&Hs&_&Hw) [H1 H2 H3 H4]. split.
  - intros *. rewrite Hw, Hc. eauto.
  - intros *. rewrite !Hw. eauto.
  - intros *. rewrite Hc, Hn. eauto.
  - congruence.
Qed.

Lemma wmap_put (s : AStore P) id st j :
  wmap (put_stream id st s) j = if decide (id = j) then sm_watchers st else wmap s j.
Proof. unfold wmap. simpl. rewrite lookup_insert. by destruct (decide (id = j)). Qed.

Lemma wmap_cached (s : AStore P) id st : as_codex s !! id = Some st → wmap s id = sm_watchers st.
Proof. intros E. unfold wmap. by rewrite E. Qed.

Lemma quiet_put (s : AStore P) id st :
  sm_watchers st = wmap s id → quiet s (put_stream id st s).
Proof.
  intros E. repeat split. intros j. rewrite wmap_put. case_decide; congruence.
Qed.

Lemma quiet_persist (s : AStore P) p : quiet s (set_as_persist p s).
Proof. by repeat split. Qed.

Lemma quiet_audit (s : AStore P) audit : quiet s (record_audit audit s).1.
Proof. unfold record_audit. simpl. destruct audit; [|done]. destruct (as_audited s); by repeat split. Qed.

Lemma quiet_alloc_ref (s : AStore P) : quiet s (alloc_ref s).2.
Proof. by repeat split. Qed.

(** Replacing the durable state keeps the data invariant when the heads of cached
    streams stay the same or disappear. *)
Lemma data_wf_persist s p :
  data_wf s → ep_inv p →
  (∀ id st, as_codex s !! id = Some st → sm_needsReload st = false → ∀ h raw,
     ep_state p id = Some (h, raw) → ∃ raw', ep_state (as_persist s) id = Some (h, raw')) →
  data_wf (set_as_persist p s).
Proof.
  intros [H1 H2 H3 H4] Hp He. split; simpl; auto.
  intros id st h raw Hs Hn (raw'&E)%(He id st); eauto.
Qed.

(** The data invariant for all Codexes but one, while that one is being changed. *)
Definition data_wf_but (id : string) (s : AStore P) : Prop :=
  ep_inv (as_persist s) ∧ (0 < as_capacity s)%Z ∧
  (∀ j st, j ≠ id → as_codex s !! j = Some st → stream_wf (as_capacity s) st) ∧
  (∀ j st h raw, j ≠ id → as_codex s !! j = Some st → sm_needsReload st = false →
     ep_state (as_persist s) j = Some (h, raw) → h = sm_head st).

Lemma data_wf_weaken id s : data_wf s → data_wf_but id s.
Proof. intros [H1 H2 H3 H4]. split_and!; eauto. Qed.

Lemma data_wf_put s id st :
  data_wf_but id s → stream_wf (as_capacity s) st →
  (sm_needsReload st = false → ∀ h raw, ep_state (as_persist s) id = Some (h, raw) → h = sm_head st) →
  data_wf (put_stream id st s).
Proof.
  intros (H1&H2&H3&H4) Hst Hh. split; simpl; auto.
  - intros j st'. rewrite lookup_insert. case_decide; intros; simplify_eq; eauto.
  - intros j st' h raw. rewrite lookup_insert. case_decide; intros; simplify_eq; eauto.
Qed.

Lemma data_wf_quiet_fields s c n k e :
  data_wf s →
  data_wf (mkAStore (as_persist s) (as_audited s) (as_capacity s) (as_codex s) e c n k (as_stuck s)).
Proof. intros [H1 H2 H3 H4]. split; simpl; auto. Qed.

Lemma data_wf_audit s audit : data_wf s → data_wf (record_audit audit s).1.
Proof.
  intros Hs. unfold record_audit. simpl. destruct audit; [|done].
  destruct (as_audited s); [|done]. by apply data_wf_quiet_fields.
Qed.

(** A stream with no replay suffix and no floor. *)
Lemma stream_wf_fresh cap st :
  (0 < cap)%Z → (0 ≤ sm_head st < 2 ^ 63)%Z → sm_events st = [] → sm_safeReplayFloor st = None →
  (sm_needsReload st = true → sm_replayUnsafe st = true) → stream_wf cap st.
Proof.
  intros Hc Hh He Hf Hn. split; rewrite ?He; [done|done|unfold zlen; simpl; lia..| |auto].
  intros f. by rewrite Hf.
Qed.

(** [loadDurable] changes nothing but the head and view of the stream it returns. *)
Lemma loadDurable_spec id st s s' r :
  ep_inv (as_persist s) → loadDurable id st s = (s', r) →
  ∃ p, s' = set_as_persist p s ∧ ep_inv p ∧ (∀ j, ep_state p j = ep_state (as_persist s) j) ∧
  match r with
  | Ok st' => ∃ h v raw, st' = set_sm_head_view h v st ∧ ep_state p id = Some (h, raw) ∧
      v = (if str_empty raw then None else UnmarshalView raw)
  | Err _ => True
  end.
Proof.
  intros Hwf. unfold loadDurable, persist, zoom, mbind, M_bind.
  destruct (ep_LoadEventState id (as_persist s)) as [p [[h raw]|e]] eqn:E; intros [= <- <-].
  - apply ep_load in E as (Hi&Hs&He); [|done]. exists p. split_and!; [done..|].
    eexists h, _, raw. split_and!; [done| |done]. by rewrite Hs.
  - apply ep_load in E as (Hi&Hs&_); [|done]. exists p. by split_and!.
Qed.

Lemma data_wf_same_states s p :
  data_wf s → ep_inv p → (∀ j, ep_state p j = ep_state (as_persist s) j) → data_wf (set_as_persist p s).
Proof. intros Hs Hp He. apply data_wf_persist; [done..|]. intros. rewrite <-He. eauto. Qed.

(** [ensure]: a cached or loaded stream, with nothing else changed. *)
Lemma ensure_spec id s s' r :
  data_wf s → ensure id s = (s', r) →
  data_wf s' ∧ quiet s s' ∧ (∀ j, ep_state (as_persist s') j = ep_state (as_persist s) j) ∧
  (∀ j, j ≠ id → as_codex s' !! j = as_codex s !! j) ∧
  match r with
  | Ok st => as_codex s' !! id = Some st ∧ sm_needsReload st = false ∧
      (sm_events st = [] ∧ ep_state (as_persist s') id ≠ None) ∨
      (as_codex s !! id = Some st ∧ as_codex s' !! id = Some st ∧ sm_needsReload st = false)
  | Err _ => as_codex s' !! id = as_codex s !! id
  end.
Proof.
  intros Hwf. unfold ensure, gets, mbind at 1, M_bind at 1.
  destruct (as_codex s !! id) as [st|] eqn:Ec.
  - destruct (sm_needsReload st) eqn:En; [|intros [= <- <-]; split_and!; auto; done].
    unfold mbind at 1, M_bind at 1. destruct (loadDurable id st s) as [s1 [st1|e]] eqn:El.
    + apply loadDurable_spec in El as (p&->&Hi&Hp&h&v&raw&->&Hst&_); [|apply Hwf].
      intros [= <- <-]. unfold set_sm_replayUnsafe, set_sm_needsReload, set_sm_head_view in *. simpl in *.
      pose proof (dwf_stream s Hwf id st Ec) as Hw. destruct (swf_reload _ _ Hw En) as (He&_&Hf).
      split_and!.
      * apply data_wf_put; [by apply data_wf_weaken, data_wf_same_states| |].
        { apply stream_wf_fresh; simpl; auto; [apply Hwf|by eapply ep_range]. }
        simpl. intros _ h' raw' E'. congruence.
      * transitivity (set_as_persist p s); [apply quiet_persist|]. apply quiet_put. simpl.
        symmetry. by apply wmap_cached.
      * done.
      * intros j Hj. simpl. by rewrite lookup_insert_ne.
      * left. simpl. rewrite lookup_insert_eq. split_and!; [done|done|done|congruence].
    + apply loadDurable_spec in El as (p&->&Hi&Hp&_); [|apply Hwf]. intros [= <- <-].
      split_and!; [by apply data_wf_same_states|apply quiet_persist|done|done|done].
  - unfold attempt, persist, zoom, mbind at 1, M_bind at 1.
    destruct (ep_LoadEventState id (as_persist s)) as [p [[h raw]|e]] eqn:El;
      apply ep_load in El as (Hi&Hp&Hst); try apply Hwf.
    + unfold open_stream. destruct (decode_boundary h raw) as [v u]. intros [= <- <-].
      pose proof (data_wf_same_states s p Hwf Hi Hp) as Hwf1.
      split_and!.
      * apply data_wf_put.
        { apply data_wf_weaken. destruct Hwf1; split; simpl in *; auto. }
        { apply stream_wf_fresh; simpl; auto; [apply Hwf|eapply ep_range; [apply Hwf|done]|done]. }
        simpl. intros _ h' raw'. rewrite Hp. congruence.
      * transitivity (set_as_persist p s); [apply quiet_persist|].
        etrans; [apply quiet_alloc_ref|]. apply quiet_put. simpl. unfold wmap. simpl. by rewrite Ec.
      * done.
      * intros j Hj. simpl. by rewrite lookup_insert_ne.
      * left. simpl. rewrite lookup_insert_eq, Hp. split_and!; [done|done|done|congruence].
    + intros E. assert (s' = set_as_persist p s ∧ ∃ e, r = Err e) as [-> [e' ->]].
      { revert E. destruct (errorsIs e ErrNoRows); intros [= <- <-]; eauto. }
      split_and!; [by apply data_wf_same_states|apply quiet_persist|done|done|done].
Qed.

Lemma data_wf_but_same_states id s p :
  data_wf_but id s → ep_inv p → (∀ j, ep_state p j = ep_state (as_persist s) j) →
  data_wf_but id (set_as_persist p s).
Proof.
  intros (H1&H2&H3&H4) Hp He. split_and!; simpl; auto.
  intros j st h raw. rewrite He. eauto.
Qed.

(** Discarding the suffix of a stream and loading the durable boundary, whether or
    not the load works ([reloadUnsafe] and the end of [ReloadDurable]). *)
Lemma reload_put id st0 s s1 r :
  data_wf_but id s → sm_watchers st0 = wmap s id → (0 ≤ sm_head st0 < 2 ^ 63)%Z →
  sm_events st0 = [] → sm_replayUnsafe st0 = true → sm_safeReplayFloor st0 = None →
  loadDurable id st0 s = (s1, r) →
  let st' := match r with Ok st => set_sm_needsReload false st | Err _ => set_sm_needsReload true st0 end in
  data_wf (put_stream id st' s1) ∧ quiet s (put_stream id st' s1) ∧
  (∀ j, ep_state (as_persist s1) j = ep_state (as_persist s) j) ∧
  sm_replayUnsafe st' = true ∧ sm_safeReplayFloor st' = None.
Proof.
  intros Hwf Hw Hh He Hu Hf El. apply loadDurable_spec in El as (p&->&Hi&Hp&Hr); [|apply Hwf].
  pose proof (data_wf_but_same_states id s p Hwf Hi Hp) as Hwf1.
  destruct r as [st1|e]; intros st'.
  - destruct Hr as (h&v&raw&->&Hst&_). unfold st'. split_and!; [| |done..].
    + apply data_wf_put; [done| |].
      * apply stream_wf_fresh; simpl; auto; [apply Hwf|by eapply ep_range].
      * simpl. intros _ h' raw'. congruence.
    + transitivity (set_as_persist p s); [apply quiet_persist|]. by apply quiet_put.
  - unfold st'. split_and!; [| |done..].
    + apply data_wf_put; [done| |done]. apply stream_wf_fresh; simpl; auto. apply Hwf.
    + transitivity (set_as_persist p s); [apply quiet_persist|]. by apply quiet_put.
Qed.

Lemma reloadUnsafe_spec id st s s' r :
  data_wf_but id s → sm_watchers st = wmap s id → (0 ≤ sm_head st < 2 ^ 63)%Z →
  reloadUnsafe id st s = (s', r) →
  data_wf s' ∧ quiet s s' ∧ (∀ j, ep_state (as_persist s') j = ep_state (as_persist s) j) ∧
  (∃ st', as_codex s' !! id = Some st' ∧ sm_replayUnsafe st' = true ∧ sm_safeReplayFloor st' = None) ∧
  r = Ok tt.
Proof.
  intros Hwf Hw Hh. unfold reloadUnsafe. set (st0 := set_sm_safeReplayFloor _ _).
  unfold attempt, mbind, M_bind, modify.
  destruct (loadDurable id st0 s) as [s1 r1] eqn:El. apply (reload_put id st0) in El; try done.
  destruct r1; intros [= <- <-]; destruct El as (?&?&?&?&?); split_and!; try done;
    eexists; simpl; by rewrite lookup_insert_eq.
Qed.

(** ** Publish *)

Lemma trim_events_seqs cap evs ev h :
  (0 < cap)%Z → (zlen evs ≤ cap)%Z →
  ev_EventSeq <$> evs = seqZ (h - zlen evs + 1) (zlen evs) → ev_EventSeq ev = (h + 1)%Z →
  let evs' := trim_events cap (evs ++ [ev]) in
  ev_EventSeq <$> evs' = seqZ (h + 1 - zlen evs' + 1) (zlen evs') ∧ (zlen evs' ≤ cap)%Z ∧
  zlen evs' = Z.min cap (zlen evs + 1).
Proof.
  intros Hc Hl Hs He evs'.
  assert (zlen (evs ++ [ev]) = zlen evs + 1)%Z as Hlen by (unfold zlen; rewrite length_app; simpl; lia).
  assert (ev_EventSeq <$> (evs ++ [ev]) = seqZ (h - zlen evs + 1) (zlen evs + 1)) as Hall.
  { rewrite fmap_app, Hs. simpl. rewrite seqZ_snoc by apply zlen_nonneg. do 2 f_equal. lia. }
  unfold evs', trim_events. rewrite Hlen. case_match; to_prop.
  - set (k := (zlen evs + 1 - cap)%Z).
    assert (zlen (drop (Z.to_nat k) (evs ++ [ev])) = cap) as Hz.
    { unfold zlen in *. rewrite length_drop, length_app in *. simpl in *. lia. }
    rewrite Hz. split_and!; [|lia|lia]. rewrite fmap_drop, Hall, seqZ_drop by (unfold k; lia).
    f_equal; unfold k; lia.
  - rewrite Hlen. split_and!; [|lia|lia]. rewrite Hall. f_equal; lia.
Qed.

#[export] Instance registered_dec (s : AStore P) id c : Decision (registered s id c).
Proof.
  destruct (decide (Exists (λ wc, wc.2 = c) (map_to_list (wmap s id)))) as [Hx|Hx].
  - left. apply Exists_exists in Hx as ([w c']&Hin&Hc). simpl in Hc. subst c'.
    exists w. by apply elem_of_map_to_list.
  - right. intros [w Hw]. apply Hx, Exists_exists. exists (w, c). split; [|done].
    by apply elem_of_map_to_list.
Defined.

(** What a loop over the watchers of [id] leaves: visited channels are transformed,
    a watcher stays exactly when [keep] says so, everything else is untouched. *)
Definition visited (f : chan → chan) (keep : chan → bool) (id : string) (s s' : AStore P) : Prop :=
  (∀ c ch, registered s id c → as_chans s !! c = Some ch → as_chans s' !! c = Some (f ch)) ∧
  (∀ c, ¬ registered s id c → as_chans s' !! c = as_chans s !! c) ∧
  (∀ w c, wmap s' id !! w = Some c ↔
     wmap s id !! w = Some c ∧ ∀ ch, as_chans s !! c = Some ch → keep ch = true) ∧
  (∀ j, j ≠ id → wmap s' j = wmap s j) ∧
  as_next_chan s' = as_next_chan s ∧ as_stuck s' = as_stuck s.

Lemma visited_chan_wf f keep id s s' :
  (∀ ch, (0 < ch_cap ch)%Z → (zlen (ch_buf ch) ≤ ch_cap ch)%Z → open_chan ch →
     ch_cap (f ch) = ch_cap ch ∧ (zlen (ch_buf (f ch)) ≤ ch_cap ch)%Z ∧ (keep ch = true → open_chan (f ch))) →
  visited f keep id s s' → chan_wf s → chan_wf s'.
Proof.
  intros Hf (Hv&Hnv&Hk&Hj&Hn&Hst) [Ho Hi Hb Hs].
  assert (∀ j w c, wmap s' j !! w = Some c → wmap s j !! w = Some c) as Hsub.
  { intros j w c. destruct (decide (j = id)) as [->|]; [rewrite Hk; by intros [? _]|by rewrite Hj]. }
  split.
  - intros j w c Hw. destruct (Ho j w c) as (ch&Hc&Hoc); [auto|].
    destruct (decide (j = id)) as [->|Hne].
    + apply Hk in Hw as [Hw Hkeep]. destruct (Hb c ch Hc) as (_&?&?).
      exists (f ch). split; [apply Hv; [by exists w|done]|]. apply Hf; auto.
    + exists ch. split; [|done]. rewrite Hnv; [done|]. intros [w' Hw'].
      destruct (Hi j w id w' c); auto.
  - eauto.
  - intros c ch Hc. rewrite Hn.
    destruct (as_chans s !! c) as [ch0|] eqn:E0.
    + destruct (Hb c ch0 E0) as (?&?&?). destruct (decide (registered s id c)) as [Hr|Hr].
      * rewrite (Hv c ch0 Hr E0) in Hc. injection Hc as <-. destruct Hr as [w Hw].
        destruct (Ho id w c Hw) as (ch'&?&?). simplify_eq. destruct (Hf ch0) as (->&?&_); auto.
      * rewrite Hnv in Hc by done. simplify_eq. auto.
    + rewrite Hnv in Hc; [congruence|]. intros [w Hw]. destruct (Ho id w c Hw) as (?&?&_). congruence.
  - congruence.
Qed.

Lemma foldl_visited (g : AStore P * gmap Z nat → Z * nat → AStore P * gmap Z nat)
    (f : chan → chan) (keep : chan → bool) id ws0 (s : AStore P) :
  chan_wf s → wmap s id = ws0 →
  (∀ (s : AStore P) (ws : gmap Z nat) w c ch, as_chans s !! c = Some ch → open_chan ch → (0 < ch_cap ch)%Z →
     g (s, ws) (w, c) = (set_as_chans (<[c := f ch]> (as_chans s)) s, if keep ch then ws else delete w ws)) →
  let '(s1, ws) := foldl g (s, ws0) (map_to_list ws0) in
  s1 = set_as_chans (as_chans s1) s ∧
  ∀ st' : stream, sm_watchers st' = ws → visited f keep id s (put_stream id st' s1).
Proof.
  intros Hwf <- Hg. set (l := map_to_list (wmap s id)).
  assert (∀ w c, (w, c) ∈ l ↔ wmap s id !! w = Some c) as Hl by (intros; apply elem_of_map_to_list).
  assert (∀ c, c ∈ l.*2 ↔ registered s id c) as Hreg.
  { intros c. rewrite list_elem_of_fmap. split.
    - intros ([w c']&->&Hin). exists w. by apply Hl.
    - intros [w Hw]. exists (w, c). split; [done|]. by apply Hl. }
  pose proof (foldl_visit g f keep l s (wmap s id)) as Hfold.
  destruct (foldl g (s, wmap s id) l) as [s1 ws].
  destruct Hfold as (E1&E2&E3); [eauto|apply NoDup_fst_map_to_list| | |].
  { apply NoDup_fmap_2_strong; [|apply NoDup_map_to_list].
    intros [w1 c1] [w2 c2] H1 H2 Heq. simpl in Heq. subst c2. apply Hl in H1, H2.
    destruct (cwf_inj s Hwf id w1 id w2 c1); [done|done|congruence]. }
  { intros w c Hin. apply Hl in Hin. split; [done|].
    destruct (cwf_open s Hwf _ _ _ Hin) as (ch&Hc&Ho). exists ch. split_and!; [done..|].
    by apply (cwf_buf s Hwf c). }
  split; [done|]. intros st' Hst. split_and!.
  - intros c ch Hr Hc. simpl. rewrite E2. rewrite decide_True by (by apply Hreg). by rewrite Hc.
  - intros c Hr. simpl. rewrite E2. rewrite decide_False; [done|]. by rewrite Hreg.
  - intros w c. rewrite wmap_put, decide_True, Hst, E3 by done. split; intros [? Hk]; split; auto.
    apply Hk. by apply Hl.
  - intros j Hj. rewrite wmap_put, decide_False by done. by rewrite E1.
  - rewrite E1. done.
  - rewrite E1. done.
Qed.

Lemma offered_facts ev ch :
  (0 < ch_cap ch)%Z → (zlen (ch_buf ch) ≤ ch_cap ch)%Z → open_chan ch →
  ch_cap (offered ev ch) = ch_cap ch ∧ (zlen (ch_buf (offered ev ch)) ≤ ch_cap ch)%Z ∧
  (ch_has_room ch = true → open_chan (offered ev ch)).
Proof.
  intros Hc Hb [Ho Hs]. unfold offered, ch_has_room. case_match; to_prop; split_and!; try done.
  unfold zlen, ch_buf in *. simpl. rewrite length_drop, length_app in *. simpl. lia.
Qed.

Lemma ended_facts ev ch :
  (0 < ch_cap ch)%Z →
  ch_sent (ended ev ch) = ch_sent ch ++ [ev] ∧ ch_closed (ended ev ch) = true ∧
  ch_cap (ended ev ch) = ch_cap ch ∧ (zlen (ch_buf (ended ev ch)) ≤ ch_cap ch)%Z.
Proof.
  intros Hc. unfold ended.
  destruct (force_send_some (S (length (ch_buf ch))) ev ch) as (c'&->&?&?&?&?&?); [done|lia|].
  by split_and!.
Qed.

(** Publishing to the stream and its watchers. *)
Lemma deliver_spec id st ev view s raw :
  data_wf_but id s → chan_wf s → wmap s id = sm_watchers st → stream_wf (as_capacity s) st →
  sm_needsReload st = false → ev_EventSeq ev = (sm_head st + 1)%Z → (sm_head st + 1 < 2 ^ 63)%Z →
  ep_state (as_persist s) id = Some (ev_EventSeq ev, raw) →
  let s' := deliver id st ev view s in
  data_wf s' ∧ chan_wf s' ∧ visited (offered ev) ch_has_room id s s' ∧ as_persist s' = as_persist s ∧
  ∃ st', as_codex s' !! id = Some st' ∧ sm_head st' = ev_EventSeq ev ∧ sm_view st' = Some view.
Proof.
  intros Hd Hc Hw Hst Hn Hseq Hmax Hep. unfold deliver. simpl.
  pose proof (foldl_visited (offer ev) (offered ev) ch_has_room id (sm_watchers st) s Hc Hw) as Hf.
  destruct (foldl (offer ev) (s, sm_watchers st) (map_to_list (sm_watchers st))) as [s1 ws].
  destruct Hf as [Es Hv]; [intros; by apply offer_open|].
  set (st' := set_sm_watchers _ _ _). specialize (Hv st' eq_refl).
  destruct (trim_events_seqs (as_capacity s) (sm_events st) ev (sm_head st)) as (Ht1&Ht2&Ht3);
    [apply Hd|apply Hst|apply Hst|done|].
  split_and!; [|eapply visited_chan_wf; [apply (offered_facts ev)|done|done]|done|by rewrite Es|].
  - apply data_wf_put; [rewrite Es; destruct Hd as (?&?&?&?); by split_and!| |].
    + rewrite Es. simpl. split; simpl; rewrite ?Hseq; auto.
      * pose proof (swf_head _ _ Hst). lia.
      * pose proof (swf_len _ _ Hst). lia.
      * intros f Hf. destruct (swf_floor _ _ Hst f Hf) as [? ?]. rewrite Ht3.
        pose proof (swf_cap _ _ Hst). lia.
      * rewrite Hn. done.
    + simpl. intros _ h' raw'. rewrite Es. simpl. congruence.
  - exists st'. simpl. by rewrite lookup_insert_eq.
Qed.

Lemma registered_quiet s s1 id c : quiet s s1 → registered s1 id c ↔ registered s id c.
Proof. intros (_&_&_&_&Hw). unfold registered. by rewrite Hw. Qed.

Lemma quiet_visited f keep id s s1 s2 :
  quiet s s1 → visited f keep id s1 s2 → visited f keep id s s2.
Proof.
  intros Hq (H1&H2&H3&H4&H5&H6). pose proof Hq as (Hc&Hn&Hs&_&Hw).
  split_and!; try congruence.
  - intros c ch. rewrite <-(registered_quiet s s1) by done. rewrite <-Hc. auto.
  - intros c. rewrite <-(registered_quiet s s1), <-Hc by done. auto.
  - intros w c. rewrite H3, Hw, Hc. done.
  - intros j Hj. rewrite H4 by done. apply Hw.
Qed.

(** What a successful [ensure] gives its caller. *)
Lemma ensure_ok id s s1 st :
  data_wf s → ensure id s = (s1, Ok st) →
  data_wf s1 ∧ quiet s s1 ∧ (∀ j, ep_state (as_persist s1) j = ep_state (as_persist s) j) ∧
  (∀ j, j ≠ id → as_codex s1 !! j = as_codex s !! j) ∧
  as_codex s1 !! id = Some st ∧ sm_needsReload st = false ∧ wmap s1 id = sm_watchers st ∧
  stream_wf (as_capacity s1) st.
Proof.
  intros Hwf E. apply ensure_spec in E as (Hd&Hq&Hp&Hj&Hr); [|done].
  assert (as_codex s1 !! id = Some st ∧ sm_needsReload st = false) as [Hc Hn] by tauto.
  split_and!; auto; [by apply wmap_cached|by eapply dwf_stream].
Qed.

(** The stream of [id] is about to be replaced: the others do not notice a change
    of the durable state of [id]. *)
Lemma data_wf_but_persist id s p :
  data_wf s → ep_inv p → (∀ j, j ≠ id → ep_state p j = ep_state (as_persist s) j) →
  data_wf_but id (set_as_persist p s).
Proof.
  intros [H1 H2 H3 H4] Hp He. split_and!; simpl; eauto.
  intros j st h raw Hj Hs Hn. rewrite He by done. eauto.
Qed.

Lemma data_wf_but_audit id s audit : data_wf_but id s → data_wf_but id (record_audit audit s).1.
Proof.
  intros (?&?&?&?). unfold record_audit. simpl. destruct audit; [|by split_and!].
  destruct (as_audited s); by split_and!.
Qed.

Lemma record_audit_persist audit (s : AStore P) : as_persist (record_audit audit s).1 = as_persist s.
Proof. unfold record_audit. simpl. destruct audit; [|done]. by destruct (as_audited s). Qed.

(** From a successful commit to the published event. *)
Lemma expose_spec id st ev view s p audit raw :
  data_wf s → chan_wf s → as_codex s !! id = Some st → sm_needsReload st = false →
  ep_inv p → (∀ j, j ≠ id → ep_state p j = ep_state (as_persist s) j) →
  ev_EventSeq ev = (sm_head st + 1)%Z → ep_state p id = Some (ev_EventSeq ev, raw) →
  let s' := deliver id st ev view (record_audit audit (set_as_persist p s)).1 in
  data_wf s' ∧ chan_wf s' ∧ visited (offered ev) ch_has_room id s s' ∧ as_persist s' = p ∧
  ∃ st', as_codex s' !! id = Some st' ∧ sm_head st' = ev_EventSeq ev ∧ sm_view st' = Some view.
Proof.
  intros Hd Hc Hcodex Hn Hi Hpj Hseq Hep. set (s2 := (record_audit audit (set_as_persist p s)).1).
  assert (quiet s s2) as Hq by (etrans; [apply quiet_persist|apply quiet_audit]).
  destruct (deliver_spec id st ev view s2 raw) as (H1&H2&H3&H4&H5).
  - by apply data_wf_but_audit, data_wf_but_persist.
  - by eapply quiet_chan_wf.
  - destruct Hq as (_&_&_&_&->). by apply wmap_cached.
  - destruct Hq as (_&_&_&->&_). by eapply dwf_stream.
  - done.
  - done.
  - rewrite <-Hseq. by eapply ep_range in Hep as [_ ?].
  - unfold s2. by rewrite record_audit_persist.
  - split_and!; [done|done|by eapply quiet_visited| |done].
    rewrite H4. unfold s2. by rewrite record_audit_persist.
Qed.

Lemma Publish_spec now event view audit s s' r :
  data_wf s → chan_wf s → Publish now (Some event) (Some view) audit s = (s', r) →
  let id := ev_CodexId event in
  data_wf s' ∧ chan_wf s' ∧ (∀ j, j ≠ id → ep_state (as_persist s') j = ep_state (as_persist s) j) ∧
  match r with
  | Ok ev =>
      visited (offered ev) ch_has_room id s s' ∧
      ∃ h old raw st', ep_state (as_persist s) id = Some (h, old) ∧ ev = set_ev_EventSeq (h + 1) event ∧
        Marshal (MsgView (set_cv_HeadEventSeq (h + 1) view)) = Ok raw ∧
        ep_state (as_persist s') id = Some ((h + 1)%Z, raw) ∧
        as_codex s' !! id = Some st' ∧ sm_head st' = (h + 1)%Z ∧
        sm_view st' = Some (set_cv_HeadEventSeq (h + 1) view)
  | Err _ => quiet s s' ∧
      (as_codex s' !! id = as_codex s !! id ∨
       ∃ st', as_codex s' !! id = Some st' ∧ sm_replayUnsafe st' = true ∧ sm_safeReplayFloor st' = None)
  end.
Proof.
  intros Hd Hc. unfold Publish. set (id := ev_CodexId event). simpl.
  destruct (str_empty id); [intros [= <- <-]; split_and!; try done; by left|].
  unfold mbind at 1, M_bind at 1. destruct (ensure id s) as [s1 [st|e]] eqn:Ee; cycle 1.
  { intros [= <- <-]. apply ensure_spec in Ee as (?&Hq&?&?&?); [|done].
    split_and!; eauto using quiet_chan_wf. }
  apply ensure_ok in Ee as (Hd1&Hq1&Hp1&Hj1&Hc1&Hn1&Hw1&Hst1); [|done].
  unfold mbind at 1, M_bind at 1, attempt, persist, zoom.
  destruct (ep_CommitEvent now id _ (as_persist s1)) as [p rc] eqn:Ec.
  apply ep_commit in Ec as (Hi&Hpj&Hr); [|apply Hd1].
  destruct rc as [seq|e].
  - destruct Hr as (h&old&raw&Hold&->&Hm&Hnew). unfold mbind, M_bind, modify, mret, M_ret.
    assert (record_audit audit (set_as_persist p s1) = ((record_audit audit (set_as_persist p s1)).1, Ok tt))
      as -> by done.
    intros E. apply pair_equal_spec in E as [<- <-].
    pose proof (dwf_head s1 Hd1 id st h old Hc1 Hn1 Hold) as ->.
    destruct (expose_spec id st (set_ev_EventSeq (sm_head st + 1) event)
      (set_cv_HeadEventSeq (sm_head st + 1) view) s1 p audit raw) as (H1&H2&H3&H4&st'&H5&H6&H7);
      try done; [by eapply quiet_chan_wf|].
    split_and!; [done|done| |by eapply quiet_visited|].
    + intros j Hj. rewrite H4, Hpj by done. apply Hp1.
    + exists (sm_head st), old, raw, st'. rewrite H4, <-Hp1. by split_and!.
  - assert (quiet s (set_as_persist p s1)) as Hq2 by (etrans; [done|apply quiet_persist]).
    unfold mbind, M_bind. destruct (reloadUnsafe id st (set_as_persist p s1)) as [s2 r2] eqn:Er.
    apply reloadUnsafe_spec in Er as (Hd2&Hq3&Hp3&Hst'&->);
      [|by apply data_wf_but_persist|done|apply Hst1].
    intros [= <- <-]. assert (quiet s s2) as Hq by (by etrans).
    split_and!; eauto using quiet_chan_wf.
    intros j Hj. rewrite Hp3. simpl. rewrite Hpj by done. apply Hp1.
Qed.

(** ** Forget *)

Lemma stream_wf_watchers cap st n ws : stream_wf cap st → stream_wf cap (set_sm_watchers n ws st).
Proof. intros [H1 H2 H3 H4 H5 H6]. by split. Qed.

(** Changing only the watchers of a cached stream. *)
Lemma data_wf_put_watchers s id st n ws :
  data_wf s → as_codex s !! id = Some st → data_wf (put_stream id (set_sm_watchers n ws st) s).
Proof.
  intros Hd Hc. apply data_wf_put; [by apply data_wf_weaken|by apply stream_wf_watchers, (dwf_stream s Hd id)|].
  simpl. intros Hn h raw Hep. by eapply dwf_head.
Qed.

Lemma deliver_last_spec id st ev s :
  data_wf s → chan_wf s → as_codex s !! id = Some st →
  let s' := deliver_last id st ev s in
  data_wf s' ∧ chan_wf s' ∧ visited (ended ev) (λ _, false) id s s' ∧ as_persist s' = as_persist s ∧
  (∀ j, j ≠ id → as_codex s' !! j = as_codex s !! j).
Proof.
  intros Hd Hc Hst. unfold deliver_last. simpl.
  pose proof (foldl_visited (terminate ev) (ended ev) (λ _, false) id (sm_watchers st) s Hc
    (wmap_cached _ _ _ Hst)) as Hf.
  destruct (foldl (terminate ev) (s, sm_watchers st) (map_to_list (sm_watchers st))) as [s1 ws].
  destruct Hf as [Es Hv]; [intros; by apply terminate_open|].
  specialize (Hv (set_sm_watchers (sm_nextWatcher st) ws st) eq_refl).
  split_and!; [| |done|by rewrite Es|].
  - apply data_wf_put_watchers; rewrite Es; [|done]. by apply data_wf_quiet_fields.
  - eapply visited_chan_wf; [|done|done]. intros ch H1 H2 H3.
    destruct (ended_facts ev ch) as (_&_&?&?); [done|]. by split_and!.
  - intros j Hj. simpl. rewrite lookup_insert_ne by done. by rewrite Es.
Qed.

Lemma data_wf_delete s id : data_wf s → data_wf (set_as_codex (delete id (as_codex s)) s).
Proof.
  intros [H1 H2 H3 H4]. split; simpl; auto.
  - intros j st [_ ?]%lookup_delete_Some. eauto.
  - intros j st h raw [_ ?]%lookup_delete_Some. eauto.
Qed.

(** Once nothing of [id] is registered, dropping its stream is not observable. *)
Lemma quiet_delete s id :
  (∀ w, wmap s id !! w = None) → quiet s (set_as_codex (delete id (as_codex s)) s).
Proof.
  intros He. repeat split. intros j. unfold wmap at 1. simpl. destruct (decide (j = id)) as [->|Hj].
  - rewrite lookup_delete_eq. simpl. symmetry. apply map_empty. done.
  - by rewrite lookup_delete_ne.
Qed.

Lemma visited_quiet f keep id s s1 s2 :
  visited f keep id s s1 → quiet s1 s2 → visited f keep id s s2.
Proof.
  intros (H1&H2&H3&H4&H5&H6) (Hc&Hn&Hs&_&Hw).
  split_and!; intros *; rewrite ?Hc, ?Hw, ?Hn, ?Hs; auto.
Qed.

Lemma Forget_spec now id req destroy audit s s' r :
  data_wf s → chan_wf s → destroys destroy → Forget now id req (Some destroy) audit s = (s', r) →
  data_wf s' ∧ chan_wf s' ∧ (∀ j, j ≠ id → ep_state (as_persist s') j = ep_state (as_persist s) j) ∧
  ((quiet s s' ∧ ∃ e, r = Err e) ∨
   ∃ seq, let ev := forgotten_event now id req seq in
     visited (ended ev) (λ _, false) id s s' ∧
     ((r = Ok ev ∧ as_codex s' !! id = None ∧ ep_state (as_persist s') id = None) ∨ ∃ e, r = Err e)).
Proof.
  intros Hd Hc Hdes. unfold Forget.
  destruct (str_empty id); [intros [= <- <-]; split_and!; try done; left; split; [done|eauto]|].
  unfold mbind at 1, M_bind at 1. destruct (ensure id s) as [s1 [st|e]] eqn:Ee; cycle 1.
  { intros [= <- <-]. apply ensure_spec in Ee as (?&Hq&?&?&?); [|done].
    split_and!; eauto using quiet_chan_wf. }
  apply ensure_ok in Ee as (Hd1&Hq1&Hp1&Hj1&Hc1&Hn1&Hw1&Hst1); [|done].
  set (ev := forgotten_event _ _ _ _). set (s2 := (record_audit audit s1).1).
  assert (quiet s s2) as Hq2 by (etrans; [done|apply quiet_audit]).
  assert (as_codex s2 = as_codex s1 ∧ as_persist s2 = as_persist s1) as [Ec2 Ep2].
  { split; [|apply record_audit_persist]. unfold s2, record_audit. simpl.
    destruct audit; [|done]. by destruct (as_audited s1). }
  destruct (deliver_last_spec id st ev s2) as (H1&H2&H3&H4&H5);
    [by apply data_wf_audit|by eapply quiet_chan_wf|by rewrite Ec2|].
  set (s3 := deliver_last id st ev s2) in *.
  unfold mbind, M_bind, persist, zoom, modify, mret, M_ret.
  assert (record_audit audit s1 = (s2, Ok tt)) as -> by done. cbv beta iota. fold s3.
  destruct (destroy id (as_persist s3)) as [p rd] eqn:Edes.
  apply Hdes in Edes as (Hi&Hpj&Hr); [|apply H1].
  assert (visited (ended ev) (λ _, false) id s (set_as_persist p s3)) as Hv.
  { eapply visited_quiet; [by eapply quiet_visited|apply quiet_persist]. }
  assert (data_wf (set_as_persist p s3)) as Hd3.
  { apply data_wf_persist; [done..|]. intros j st' Hj Hn h raw Hep.
    destruct (decide (j = id)) as [->|]; [|rewrite <-Hpj by done; eauto].
    destruct rd; [congruence|]. destruct Hr as [<-|]; [eauto|congruence]. }
  assert (∀ j, j ≠ id → ep_state p j = ep_state (as_persist s) j) as Hpj'.
  { intros j Hj. rewrite Hpj, H4, Ep2 by done. apply Hp1. }
  destruct rd as [[]|e]; intros E; apply pair_equal_spec in E as [<- <-].
  - assert (∀ w, wmap (set_as_persist p s3) id !! w = None) as Hnone.
    { intros w. destruct (wmap _ id !! w) as [c|] eqn:Ew; [|done]. apply (proj1 (proj2 (proj2 Hv))) in Ew as [Hw Hk].
      destruct (cwf_open s Hc _ _ _ Hw) as (ch&Hch&_). by specialize (Hk ch Hch). }
    assert (quiet (set_as_persist p s3) (set_as_codex (delete id (as_codex s3)) (set_as_persist p s3))) as Hq3
      by (by apply (quiet_delete (set_as_persist p s3))).
    split_and!; [by apply (data_wf_delete (set_as_persist p s3))| |done|].
    + eapply quiet_chan_wf; [exact Hq3|]. by eapply quiet_chan_wf; [apply quiet_persist|].
    + right. eexists. split; [by eapply visited_quiet|]. left. simpl. by rewrite lookup_delete_eq.
  - split_and!; [done|by eapply quiet_chan_wf; [apply quiet_persist|]|done|].
    right. eexists. split; [done|eauto].
Qed.

(** ** Watch *)

(** A new channel [c] with capacity [q] registered for [id] under a watcher id. *)
Definition watched (id : string) (c : nat) (q : Z) (s s' : AStore P) : Prop :=
  c = as_next_chan s ∧ as_next_chan s' = S c ∧ as_stuck s' = as_stuck s ∧
  as_chans s' = <[c := new_chan q]> (as_chans s) ∧
  (∃ w, wmap s' id = <[w := c]> (wmap s id)) ∧ (∀ j, j ≠ id → wmap s' j = wmap s j).

Lemma chan_unregistered (s : AStore P) c : chan_wf s → as_next_chan s ≤ c → ∀ j w, wmap s j !! w ≠ Some c.
Proof.
  intros Hc Hle j w Hw. destruct (cwf_open s Hc _ _ _ Hw) as (ch&Hch&_).
  apply (cwf_buf s Hc) in Hch. lia.
Qed.

(** What is registered after a watch was registered already, or is the new channel. *)
Lemma watched_wmap id c q (s s' : AStore P) j w d :
  watched id c q s s' → wmap s' j !! w = Some d →
  (d = c ∧ j = id ∧ ∀ w', wmap s' id !! w' = Some c → chan_wf s → w' = w) ∨ wmap s j !! w = Some d.
Proof.
  intros (->&Hn&_&_&[w0 Hw]&Hj). destruct (decide (j = id)) as [->|Hne]; [|rewrite Hj by done; by right].
  rewrite Hw. rewrite lookup_insert. case_decide as E; [|by right].
  intros [= <-]. left. split_and!; [done..|]. subst. intros w'. rewrite lookup_insert.
  case_decide; [done|]. intros Hw' Hc. by apply (chan_unregistered s (as_next_chan s)) in Hw'.
Qed.

Lemma watched_chan_wf id c q s s' : (0 < q)%Z → watched id c q s s' → chan_wf s → chan_wf s'.
Proof.
  intros Hq Hw Hc. pose proof Hw as (Ec&Hn&Hs&Hch&_&_).
  assert (∀ d, d < c → as_chans s' !! d = as_chans s !! d) as Hold.
  { intros d Hd. rewrite Hch, lookup_insert_ne by lia. done. }
  split.
  - intros j w d Hr. destruct (watched_wmap _ _ _ _ _ _ _ _ Hw Hr) as [(->&_&_)|Hr'].
    + exists (new_chan q). by rewrite Hch, lookup_insert_eq.
    + destruct (cwf_open s Hc _ _ _ Hr') as (ch&Hd&Ho). exists ch. rewrite Hold; [done|].
      apply (cwf_buf s Hc) in Hd. lia.
  - intros i1 w1 i2 w2 d H1 H2.
    destruct (watched_wmap _ _ _ _ _ _ _ _ Hw H1) as [(Ed1&Ei1&E1)|H1'],
      (watched_wmap _ _ _ _ _ _ _ _ Hw H2) as [(Ed2&Ei2&E2)|H2']; subst.
    + split; [done|]. symmetry. auto.
    + exfalso. by apply (chan_unregistered s (as_next_chan s)) in H2'.
    + exfalso. by apply (chan_unregistered s (as_next_chan s)) in H1'.
    + by eapply (cwf_inj s Hc).
  - intros d ch. rewrite Hch, lookup_insert, Hn. case_decide as Ed.
    + intros [= <-]. subst. split_and!; [lia|done|unfold zlen; simpl; lia].
    + intros (?&?&?)%(cwf_buf s Hc). split_and!; [lia|done..].
  - rewrite Hs. apply Hc.
Qed.

Lemma data_wf_alloc s c : data_wf s → data_wf (alloc_chan c s).2.
Proof. intros [H1 H2 H3 H4]. by split. Qed.

Lemma watchLocked_spec id st after queue s s' r :
  data_wf s → as_codex s !! id = Some st → sm_needsReload st = false →
  watchLocked id st after queue s = (s', r) →
  ∃ w, r = Ok w ∧ data_wf s' ∧ watched id (wt_chan w) queue s s' ∧ as_persist s' = as_persist s ∧
    (wt_Response w, wt_Replay w) = watch_response id st after.
Proof.
  intros Hd Hc Hn. unfold watchLocked. simpl.
  set (st0 := set_sm_watchers _ _ _).
  destruct (watch_response id st0 after) as [resp replay] eqn:Ew. intros [= <- <-].
  eexists. split; [done|]. set (st1 := if bool_decide _ then _ else _).
  pose proof (dwf_stream s Hd id st Hc) as Hst.
  assert (wr_HeadEventSeq resp = sm_head st) as Hh.
  { unfold watch_response in Ew. repeat case_match; by simplify_eq. }
  assert (sm_watchers st1 = sm_watchers st0 ∧ sm_head st1 = sm_head st ∧ sm_needsReload st1 = false) as (E1&E2&E3).
  { unfold st1. by case_match. }
  split_and!; [| |done|].
  - apply data_wf_put; [by apply data_wf_weaken, data_wf_alloc| |].
    + unfold st1. case_match; [|by apply stream_wf_watchers]. rewrite Hh.
      destruct Hst as [H1 H2 H3 H4 H5 H6]. split; simpl; auto.
      * intros f [= <-]. pose proof (zlen_nonneg (sm_events st)). lia.
      * congruence.
    + intros _ h raw Hep. rewrite E2. by eapply dwf_head.
  - unfold watched. simpl. split_and!; try done.
    + exists (u64_incr (sm_nextWatcher st)). rewrite wmap_put, decide_True, E1 by done.
      simpl. f_equal. symmetry. by apply wmap_cached.
    + intros j Hj. by rewrite wmap_put, decide_False.
  - simpl. rewrite <-Ew. done.
Qed.

(** ** What each operation does to the channels *)

(** Nothing is sent and nothing is newly registered. *)
Definition muted (s s' : AStore P) : Prop :=
  (∀ c ch, as_chans s !! c = Some ch → ∃ ch', as_chans s' !! c = Some ch' ∧ ch_sent ch' = ch_sent ch) ∧
  (∀ id c, registered s' id c → registered s id c).

Inductive effect (s : AStore P) : list Event → AStore P → Prop :=
| effect_muted s' : muted s s' → effect s [] s'
| effect_publish ev s' :
    visited (offered ev) ch_has_room (ev_CodexId ev) s s' → effect s [ev] s'
| effect_forget ev evs s' :
    ev_Payload ev = Some Event_CodexForgotten → evs = [ev] ∨ evs = [] →
    visited (ended ev) (λ _, false) (ev_CodexId ev) s s' → effect s evs s'
| effect_watch id c q s' : watched id c q s s' → effect s [] s'.

Lemma quiet_muted s s' : quiet s s' → muted s s'.
Proof.
  intros Hq. pose proof Hq as (Hc&_). split.
  - intros c ch. rewrite Hc. eauto.
  - intros id c. by rewrite registered_quiet.
Qed.

Lemma muted_refl s : muted s s.
Proof. by apply quiet_muted. Qed.
#[local] Hint Resolve muted_refl quiet_muted : codex.

Lemma Store_Watch_spec id after queue s s' r :
  data_wf s → chan_wf s → Store_Watch id after queue s = (s', r) →
  data_wf s' ∧ chan_wf s' ∧
  match r with
  | Ok w => (∃ q, watched id (wt_chan w) q s s') ∧
      ∃ st, sm_needsReload st = false ∧ stream_wf (as_capacity s) st ∧
        (as_codex s !! id = Some st ∨ sm_events st = []) ∧
        (wt_Response w, wt_Replay w) = watch_response id st after ∧
        (∀ h raw, ep_state (as_persist s) id = Some (h, raw) → h = sm_head st)
  | Err _ => quiet s s'
  end.
Proof.
  intros Hd Hc. unfold Store_Watch. destruct (str_empty id); [by intros [= <- <-]|].
  set (q := if (queue <=? 0)%Z then 128%Z else queue).
  assert (0 < q)%Z as Hq0 by (unfold q; case_match; to_prop; lia).
  unfold mbind, M_bind. destruct (ensure id s) as [s1 [st|e]] eqn:Ee; cycle 1.
  { intros [= <- <-]. apply ensure_spec in Ee as (?&?&_); eauto using quiet_chan_wf. }
  pose proof Ee as Ee'. apply ensure_spec in Ee' as (_&_&_&_&Hor); [|done].
  apply ensure_ok in Ee as (Hd1&Hq1&Hp1&_&Hc1&Hn1&_&Hst1); [|done].
  intros (w&->&Hd'&Hw&_&Hr)%watchLocked_spec; try done.
  assert (watched id (wt_chan w) q s s') as Hw'.
  { destruct Hq1 as (H1&H2&H3&_&H5), Hw as (W1&W2&W3&W4&[w0 W5]&W6).
    unfold watched. rewrite <-H1, <-H2, <-H3, <-H5. split_and!; try done; [eauto|].
    intros j Hj. rewrite W6 by done. apply H5. }
  split_and!; [done|by eapply watched_chan_wf|eauto|].
  exists st. pose proof Hq1 as (_&_&_&<-&_). split_and!; [done|done| |done|].
  - destruct Hor as [(_&_&?&_)|(?&_&_)]; auto.
  - intros h raw. rewrite <-Hp1. by eapply dwf_head.
Qed.

Lemma ForceReset_spec id reason queue s s' r :
  data_wf s → chan_wf s → ForceReset id reason queue s = (s', r) →
  data_wf s' ∧ chan_wf s' ∧
  match r with Ok w => ∃ q, watched id (wt_chan w) q s s' | Err _ => quiet s s' end.
Proof.
  intros Hd Hc E. assert (∃ r', Store_Watch id None queue s = (s', r') ∧
    match r' with Ok w => ∃ w', r = Ok w' ∧ wt_chan w' = wt_chan w | Err e => r = Err e end) as (r'&E'&Hr).
  { revert E. unfold ForceReset, Store_Watch. destruct (str_empty id); [intros [= <- <-]; by eexists|].
    unfold mbind, M_bind. destruct (ensure id s) as [s1 [st|e]]; [|intros [= <- <-]; by eexists].
    destruct (watchLocked id st None _ s1) as [s2 [w|e]]; intros [= <- <-]; eexists; (split; [done|]); simpl; eauto. }
  apply Store_Watch_spec in E' as (?&?&Hw); [|done..]. split_and!; [done..|].
  destruct r' as [w|e]; [|by subst r]. destruct Hr as (w'&->&Ew), Hw as [[q Hw] _].
  exists q. by rewrite Ew.
Qed.

Lemma ReloadDurable_spec id s s' r :
  data_wf s → ReloadDurable id s = (s', r) → data_wf s' ∧ quiet s s'.
Proof.
  intros Hd. unfold ReloadDurable. destruct (str_empty id); [by intros [= <- <-]|].
  unfold mbind at 1, M_bind at 1.
  assert (∃ s1 st, cached_or_new id s = (s1, Ok st) ∧ data_wf_but id s1 ∧ quiet s s1 ∧
    wmap s1 id = sm_watchers st ∧ (0 ≤ sm_head st < 2 ^ 63)%Z) as (s1&st&->&Hb&Hq&Hw&Hh).
  { unfold cached_or_new. destruct (as_codex s !! id) as [st|] eqn:Ec.
    - exists s, st. split; [done|]. split; [by apply data_wf_weaken|]. split; [done|].
      split; [by apply wmap_cached|]. by eapply swf_head, dwf_stream.
    - simpl. eexists _, _. split; [done|]. split; [|split; [|split; [|simpl; lia]]].
      + destruct (data_wf_weaken id s Hd) as (?&?&H3&H4). split_and!; simpl; try done.
        * intros j st Hj. rewrite lookup_insert_ne by done. eauto.
        * intros j st h raw Hj. rewrite lookup_insert_ne by done. eauto.
      + etrans; [apply quiet_alloc_ref|]. apply quiet_put. simpl. unfold wmap. simpl. by rewrite Ec.
      + by rewrite wmap_put, decide_True. }
  set (st0 := set_sm_safeReplayFloor _ _). unfold mbind, M_bind, attempt, modify, throw.
  destruct (loadDurable id st0 s1) as [s2 r2] eqn:El. apply (reload_put id st0) in El; try done.
  destruct r2; intros [= <- <-]; destruct El as (?&?&_); (split; [done|by etrans]).
Qed.

Lemma Cancel_spec w s :
  data_wf s → chan_wf s → data_wf (Cancel w s) ∧ chan_wf (Cancel w s) ∧ muted s (Cancel w s).
Proof.
  intros Hd Hc. unfold Cancel. destruct (as_codex s !! wt_codex w) as [st|] eqn:Ec; [|auto with codex].
  case_bool_decide; [|auto with codex]. destruct (sm_watchers st !! wt_id w) as [c|] eqn:Ew; [|auto with codex].
  rewrite <-(wmap_cached _ _ _ Ec) in *. destruct (cwf_open s Hc _ _ _ Ew) as (ch&Hch&Ho&Hs).
  cbn [as_chans put_stream set_as_codex]. rewrite Hch, Ho. set (s' := set_as_chans _ _).
  assert (data_wf s') as Hd'.
  { apply (data_wf_quiet_fields (put_stream _ _ s)). by apply data_wf_put_watchers. }
  assert (∀ j w' d, wmap s' j !! w' = Some d → wmap s j !! w' = Some d ∧ d ≠ c) as Hsub.
  { intros j w' d. unfold s'. change (wmap (set_as_chans ?m ?t) j) with (wmap t j). rewrite wmap_put.
    case_decide as Ej; simpl.
    - subst j. intros [Hne Hl]%lookup_delete_Some. split; [done|]. intros ->.
      by destruct (cwf_inj s Hc _ _ _ _ _ Ew Hl).
    - intros Hl. split; [done|]. intros ->. by destruct (cwf_inj s Hc _ _ _ _ _ Ew Hl). }
  assert (∀ d, d ≠ c → as_chans s' !! d = as_chans s !! d) as Hne.
  { intros d Hdc. unfold s'. simpl. by rewrite lookup_insert_ne. }
  assert (as_chans s' !! c = Some (ch_close ch)) as Hcc by (unfold s'; simpl; by rewrite lookup_insert_eq).
  split_and!; [done| |].
  - split.
    + intros j w' d [Hl Hdc]%Hsub. rewrite Hne by done. by eapply cwf_open.
    + intros i1 w1 i2 w2 d [H1 _]%Hsub [H2 _]%Hsub. by eapply (cwf_inj s Hc).
    + intros d ch'. destruct (decide (d = c)) as [->|Hdc].
      * rewrite Hcc. intros [= <-]. exact (cwf_buf s Hc c ch Hch).
      * rewrite Hne by done. by apply (cwf_buf s Hc).
    + by apply Hc.
  - split.
    + intros d ch' Hd0. destruct (decide (d = c)) as [->|Hdc]; [|rewrite Hne by done; eauto].
      simplify_eq. eauto.
    + intros j d [w' [Hl _]%Hsub]. by exists w'.
Qed.

Lemma Receive_spec c s :
  data_wf s → chan_wf s → data_wf (Receive c s) ∧ chan_wf (Receive c s) ∧ muted s (Receive c s).
Proof.
  intros Hd Hc. unfold Receive. destruct (as_chans s !! c) as [ch|] eqn:Ec; [|auto with codex].
  set (s' := set_as_chans _ _).
  assert (∀ d, as_chans s' !! d = if decide (c = d) then Some (ch_pop ch) else as_chans s !! d) as Hl.
  { intros d. unfold s'. simpl. by rewrite lookup_insert. }
  assert (ch_sent (ch_pop ch) = ch_sent ch ∧ ch_closed (ch_pop ch) = ch_closed ch ∧
    ch_slow (ch_pop ch) = ch_slow ch ∧ ch_cap (ch_pop ch) = ch_cap ch ∧
    (zlen (ch_buf (ch_pop ch)) ≤ zlen (ch_buf ch))%Z) as (P1&P2&P3&P4&P5).
  { unfold ch_pop. destruct (ch_buf ch) as [|e b] eqn:Eb; split_and!; try done; [by rewrite Eb|].
    apply (f_equal length) in Eb. unfold ch_buf, zlen in *. simpl in *. rewrite length_drop in *. lia. }
  split_and!; [by apply data_wf_quiet_fields| |].
  - split.
    + intros j w d Hw. rewrite Hl. destruct (cwf_open s Hc j w d Hw) as (ch'&Hd'&Ho).
      case_decide; [|eauto]. simplify_eq. eexists; split; [done|]. unfold open_chan. by rewrite P2, P3.
    + apply Hc.
    + intros d ch'. rewrite Hl. case_decide; [|apply Hc]. intros [= <-]. subst.
      apply (cwf_buf s Hc) in Ec as (?&?&?). rewrite P4. split_and!; [done..|lia].
    + apply Hc.
  - split; [|done]. intros d ch' Hd'. rewrite Hl. case_decide; [|eauto]. simplify_eq. eauto.
Qed.

Lemma Store_CurrentView_spec id s s' r :
  data_wf s → Store_CurrentView id s = (s', r) → data_wf s' ∧ quiet s s'.
Proof.
  intros Hd. unfold Store_CurrentView, mbind, M_bind.
  destruct (ensure id s) as [s1 [st|e]] eqn:Ee; apply ensure_spec in Ee as (?&?&_); try done.
  - destruct (sm_view st); by intros [= <- <-].
  - by intros [= <- <-].
Qed.

(** Every call keeps both invariants and has one of the listed effects. *)
Lemma arun_spec op s s' evs :
  data_wf s → chan_wf s → op_ok op → arun op s = (s', evs) →
  data_wf s' ∧ chan_wf s' ∧ effect s evs s'.
Proof.
  intros Hd Hc Hop.
  assert (∀ s1, data_wf s1 ∧ quiet s s1 → data_wf s1 ∧ chan_wf s1 ∧ effect s [] s1) as Hquiet.
  { intros s1 [? Hq]. split_and!; [done|by eapply quiet_chan_wf|]. by apply effect_muted, quiet_muted. }
  destruct op as [now event view audit|now id req destroy audit|id|id after q|id reason q|w|c|id]; simpl.
  - destruct (Publish now event view audit s) as [s1 r] eqn:E. intros [= <- <-].
    destruct event as [event|]; [|injection E as <- <-; by apply Hquiet].
    destruct view as [view|]; [|unfold Publish in E; destruct (str_empty _); injection E as <- <-; by apply Hquiet].
    apply Publish_spec in E as (H1&H2&_&Hr); [|done..]. destruct r as [ev|e]; [|by apply Hquiet; destruct Hr].
    destruct Hr as [Hv (h&old&raw&st&_&->&_)]. split_and!; [done..|]. by apply effect_publish.
  - destruct (Forget now id req destroy audit s) as [s1 r] eqn:E. intros [= <- <-].
    destruct destroy as [destroy|]; [|injection E as <- <-; by apply Hquiet].
    apply Forget_spec in E as (H1&H2&_&[[Hq [e ->]]|(seq&Hv&Hr)]); [by apply Hquiet| |done..].
    split_and!; [done..|]. eapply (effect_forget _ (forgotten_event now id req seq)); [done| |done].
    destruct Hr as [(->&_)|[e ->]]; auto.
  - destruct (ReloadDurable id s) as [s1 r] eqn:E. intros [= <- <-]. apply Hquiet. by eapply ReloadDurable_spec.
  - destruct (Store_Watch id after q s) as [s1 r] eqn:E. intros [= <- <-].
    apply Store_Watch_spec in E as (H1&H2&Hr); [|done..]. destruct r as [w|e]; [|by apply Hquiet].
    destruct Hr as [[q' Hw] _]. split_and!; [done..|]. by eapply effect_watch.
  - destruct (ForceReset id reason q s) as [s1 r] eqn:E. intros [= <- <-].
    apply ForceReset_spec in E as (H1&H2&Hr); [|done..]. destruct r as [w|e]; [|by apply Hquiet].
    destruct Hr as [q' Hw]. split_and!; [done..|]. by eapply effect_watch.
  - intros [= <- <-]. destruct (Cancel_spec w s) as (?&?&?); [done..|]. split_and!; [done..|]. by apply effect_muted.
  - intros [= <- <-]. destruct (Receive_spec c s) as (?&?&?); [done..|]. split_and!; [done..|]. by apply effect_muted.
  - destruct (Store_CurrentView id s) as [s1 r] eqn:E. intros [= <- <-]. apply Hquiet.
    by eapply Store_CurrentView_spec.
Qed.

Lemma env_step_wf s p : data_wf s → chan_wf s → env_step s p →
  data_wf (set_as_persist p s) ∧ chan_wf (set_as_persist p s) ∧ effect s [] (set_as_persist p s).
Proof.
  intros Hd Hc [Hi He]. split_and!.
  - apply data_wf_persist; [done..|]. intros id st Hs Hn h raw Hep. specialize (He id).
    destruct (ep_state (as_persist s) id) as [[h0 raw0]|].
    + destruct He as [raw' E]. rewrite E in Hep. simplify_eq. eauto.
    + destruct He as [E|[E _]]; congruence.
  - eapply quiet_chan_wf; [apply quiet_persist|done].
  - apply effect_muted, quiet_muted, quiet_persist.
Qed.

Lemma asteps_wf s tr s' : asteps s tr s' → data_wf s → chan_wf s → data_wf s' ∧ chan_wf s'.
Proof.
  induction 1 as [|s op s1 evs tr s2 Hop Hr _ IH|s p tr s2 He _ IH]; intros Hd Hc; [done| |].
  - destruct (arun_spec op s s1 evs) as (?&?&_); auto.
  - destruct (env_step_wf s p) as (?&?&_); auto.
Qed.

Lemma NewStore_wf p audited cap : ep_inv p → data_wf (NewStore p audited cap) ∧ chan_wf (NewStore p audited cap).
Proof.
  intros Hp. split; split; simpl; try done.
  - case_match; to_prop; lia.
Qed.
End Preservation.
