(* ===== verification/ActivityStreams.v ===== *)
(** * Activity: what a call does to the streams

    Every call of [activity.Store] concerns one Codex: it leaves the streams of the others
    alone, and numbers watchers upwards.  From this follow when a watcher can lose its
    place, and how long the boundary that a RESET exposed stays valid. *)

From stdpp Require Import base tactics numbers list gmap strings.
From S2P Require Import Prelude GoError GoStrings Remote Activity.

Section Streams.
Context {P : Type} {HP : EventPersistence P} {HL : EventPersistenceLaws P} {HJ : ProtoJSON}.
Implicit Types s : AStore P.

(** Only the stream of [id] may have changed. *)
Definition only (id : string) (s s' : AStore P) : Prop :=
  as_capacity s' = as_capacity s ∧ ∀ j, j ≠ id → as_codex s' !! j = as_codex s !! j.

#[export] Instance only_preorder id : PreOrder (only id).
Proof.
  split; [done|]. intros s1 s2 s3 [E1 H1] [E2 H2]. split; [congruence|]. intros j Hj. by rewrite H2, H1.
Qed.

(** The number of the last watcher of a Codex. *)
Definition next_watcher (s : AStore P) (id : string) : Z := default 0%Z (sm_nextWatcher <$> as_codex s !! id).

Definition steady (id : string) (s s' : AStore P) : Prop := only id s s' ∧ next_watcher s' id = next_watcher s id.

#[export] Instance steady_preorder id : PreOrder (steady id).
Proof. split; [done|]. intros s1 s2 s3 [? E1] [? E2]. split; [by etrans|congruence]. Qed.

Lemma steady_same id s s' : as_codex s' = as_codex s → as_capacity s' = as_capacity s → steady id s s'.
Proof. intros E Ec. unfold steady, only, next_watcher. by rewrite E. Qed.

Lemma steady_put id s s1 st :
  as_codex s1 = as_codex s → as_capacity s1 = as_capacity s → sm_nextWatcher st = next_watcher s id → steady id s (put_stream id st s1).
Proof.
  intros E Ec Hn. unfold steady, only, next_watcher in *. cbn. rewrite E, lookup_insert_eq, Ec. split; [|done]. split; [done|].
  intros j Hj. by rewrite lookup_insert_ne.
Qed.

Lemma next_watcher_cached s id st : as_codex s !! id = Some st → next_watcher s id = sm_nextWatcher st.
Proof. intros E. unfold next_watcher. by rewrite E. Qed.

Lemma loadDurable_fields id st s s' r :
  loadDurable id st s = (s', r) → as_codex s' = as_codex s ∧ as_capacity s' = as_capacity s ∧
  match r with Ok st' => sm_nextWatcher st' = sm_nextWatcher st | Err _ => True end.
Proof.
  unfold loadDurable, persist, zoom, mbind, M_bind.
  destruct (ep_LoadEventState id (as_persist s)) as [p [[h raw]|e]]; by intros [= <- <-].
Qed.

(** [ensure] of a stream that needs no reload does nothing. *)
Lemma ensure_cached id s st : as_codex s !! id = Some st → sm_needsReload st = false → ensure id s = (s, Ok st).
Proof. intros E Hn. unfold ensure, gets, mbind, M_bind. by rewrite E, Hn. Qed.

Lemma ensure_steady id s s' r :
  ensure id s = (s', r) → steady id s s' ∧ match r with Ok st => as_codex s' !! id = Some st | Err _ => True end.
Proof.
  unfold ensure, gets, mbind at 1, M_bind at 1. destruct (as_codex s !! id) as [st|] eqn:Ec.
  - destruct (sm_needsReload st); [|by intros [= <- <-]].
    unfold mbind, M_bind, modify, mret, M_ret.
    destruct (loadDurable id st s) as [s1 [st1|e]] eqn:El; apply loadDurable_fields in El as (E1&E2&E3);
      intros [= <- <-]; [|split; [by apply steady_same|done]].
    split; [|simpl; by rewrite lookup_insert_eq]. apply steady_put; [done..|]. simpl. by rewrite E3, (next_watcher_cached s id st).
  - unfold attempt, persist, zoom, mbind, M_bind.
    destruct (ep_LoadEventState id (as_persist s)) as [p [[h raw]|e]].
    + unfold open_stream. destruct (decode_boundary h raw). intros [= <- <-].
      split; [|simpl; by rewrite lookup_insert_eq]. apply steady_put; [done..|]. unfold next_watcher. by rewrite Ec.
    + destruct (errorsIs e ErrNoRows); intros [= <- <-]; (split; [by apply steady_same|done]).
Qed.

(** Delivery loops leave the streams to their caller. *)
Lemma foldl_fields (g : AStore P * gmap Z nat → Z * nat → AStore P * gmap Z nat) l s ws :
  (∀ s ws w, as_codex (g (s, ws) w).1 = as_codex s ∧ as_capacity (g (s, ws) w).1 = as_capacity s) →
  as_codex (foldl g (s, ws) l).1 = as_codex s ∧ as_capacity (foldl g (s, ws) l).1 = as_capacity s.
Proof.
  intros Hg. revert s ws. induction l as [|w l IH]; intros s ws; [done|]. simpl.
  rewrite (surjective_pairing (g (s, ws) w)). destruct (IH (g (s, ws) w).1 (g (s, ws) w).2) as [-> ->]. apply Hg.
Qed.

Lemma offer_fields ev s ws w : as_codex (offer ev (s, ws) w).1 = as_codex s ∧ as_capacity (offer ev (s, ws) w).1 = as_capacity s.
Proof. destruct w as [w c]. unfold offer. by repeat case_match. Qed.

Lemma terminate_fields ev s ws w : as_codex (terminate ev (s, ws) w).1 = as_codex s ∧ as_capacity (terminate ev (s, ws) w).1 = as_capacity s.
Proof. destruct w as [w c]. unfold terminate. by repeat case_match. Qed.

Lemma record_audit_fields audit s :
  as_codex (record_audit audit s).1 = as_codex s ∧ as_capacity (record_audit audit s).1 = as_capacity s.
Proof. unfold record_audit. simpl. destruct audit; [|done]. by destruct (as_audited s). Qed.

(** The stream after a delivery keeps its boundary. *)
Lemma deliver_stream id st ev view s :
  as_codex s !! id = Some st →
  steady id s (deliver id st ev view s) ∧
  ∃ st', as_codex (deliver id st ev view s) !! id = Some st' ∧ sm_needsReload st' = sm_needsReload st ∧
    sm_safeReplayFloor st' = sm_safeReplayFloor st.
Proof.
  intros Hc. unfold deliver. simpl.
  destruct (foldl_fields (offer ev) (map_to_list (sm_watchers st)) s (sm_watchers st) (offer_fields ev)) as [E1 E2].
  destruct (foldl _ _ _) as [s1 ws]. simpl in E1, E2. split.
  - apply steady_put; [done..|]. simpl. by rewrite (next_watcher_cached s id st).
  - eexists. simpl. by rewrite lookup_insert_eq.
Qed.

Lemma deliver_last_steady id st ev s : as_codex s !! id = Some st → steady id s (deliver_last id st ev s).
Proof.
  intros Hc. unfold deliver_last.
  destruct (foldl_fields (terminate ev) (map_to_list (sm_watchers st)) s (sm_watchers st) (terminate_fields ev)) as [E1 E2].
  destruct (foldl _ _ _) as [s1 ws]. simpl in E1, E2. apply steady_put; [done..|]. simpl. by rewrite (next_watcher_cached s id st).
Qed.

(** A stream that is loaded again. *)
Lemma reload_steady id st0 s s1 r (f g : stream → stream) :
  (∀ st, sm_nextWatcher (f st) = sm_nextWatcher st) → (∀ st, sm_nextWatcher (g st) = sm_nextWatcher st) →
  sm_nextWatcher st0 = next_watcher s id → loadDurable id st0 s = (s1, r) →
  steady id s (put_stream id (match r with Ok st => f st | Err _ => g st0 end) s1).
Proof. intros Hf Hg Hn (E1&E2&E3)%loadDurable_fields. apply steady_put; [done..|]. destruct r; rewrite ?Hf, ?Hg; congruence. Qed.

Lemma Publish_stream now event view audit s s' r :
  Publish now (Some event) view audit s = (s', r) →
  let id := ev_CodexId event in
  steady id s s' ∧
  ∀ st, as_codex s !! id = Some st → sm_needsReload st = false → is_ok r = true →
    ∃ st', as_codex s' !! id = Some st' ∧ sm_needsReload st' = false ∧ sm_safeReplayFloor st' = sm_safeReplayFloor st.
Proof.
  unfold Publish. case_match; [by intros [= <- <-]|]. destruct view as [view|]; [|by intros [= <- <-]].
  cbv zeta. set (id := ev_CodexId event). unfold mbind at 1, M_bind at 1.
  destruct (ensure id s) as [s1 [st|e]] eqn:Ee; pose proof Ee as He; apply ensure_steady in Ee as [Hs Hc]; [|by intros [= <- <-]].
  unfold mbind at 1, M_bind at 1, attempt, persist, zoom.
  destruct (ep_CommitEvent now id _ (as_persist s1)) as [p [seq|e]].
  - unfold mbind, M_bind, modify, mret, M_ret.
    assert (record_audit audit (set_as_persist p s1) = ((record_audit audit (set_as_persist p s1)).1, Ok tt)) as -> by done.
    destruct (record_audit_fields audit (set_as_persist p s1)) as [E1 E2]. set (s2 := (record_audit audit (set_as_persist p s1)).1) in *. clearbody s2.
    intros E. apply pair_equal_spec in E as [<- <-].
    destruct (deliver_stream id st (set_ev_EventSeq seq event) (set_cv_HeadEventSeq seq view) s2) as [Hd Hd']; [by rewrite E1|].
    split.
    + etrans; [exact Hs|]. etrans; [|exact Hd]. by apply steady_same.
    + intros st0 Hc0 Hn0 _. rewrite (ensure_cached _ _ _ Hc0 Hn0) in He. injection He as _ <-. by rewrite <-Hn0.
  - unfold reloadUnsafe. set (st0 := set_sm_safeReplayFloor _ _). unfold mbind, M_bind, attempt, modify, throw.
    destruct (loadDurable id st0 (set_as_persist p s1)) as [s2 r2] eqn:El.
    apply (reload_steady _ _ _ _ _ (set_sm_needsReload false) (set_sm_needsReload true)) in El; [|done|done|].
    + assert (steady id s (put_stream id (match r2 with Ok st => set_sm_needsReload false st | Err _ => set_sm_needsReload true st0 end) s2)) as Hfin.
      { etrans; [exact Hs|]. etrans; [|exact El]. by apply steady_same. }
      destruct r2; intros [= <- <-]; (split; [exact Hfin|done]).
    + unfold st0. cbn. symmetry. by apply next_watcher_cached.
Qed.

Lemma ReloadDurable_steady id s s' r : ReloadDurable id s = (s', r) → steady id s s'.
Proof.
  unfold ReloadDurable. case_match; [by intros [= <- <-]|]. unfold mbind at 1, M_bind at 1.
  assert (∃ s1 st, cached_or_new id s = (s1, Ok st) ∧ steady id s s1 ∧ as_codex s1 !! id = Some st) as (s1&st&->&Hs&Hc).
  { unfold cached_or_new. destruct (as_codex s !! id) as [st|] eqn:E; [by exists s, st|].
    eexists _, _. split; [done|]. split; [|simpl; by rewrite lookup_insert_eq]. apply steady_put; [done..|]. unfold next_watcher. by rewrite E. }
  set (st0 := set_sm_safeReplayFloor _ _). unfold mbind, M_bind, attempt, modify, throw.
  destruct (loadDurable id st0 s1) as [s2 r2] eqn:El.
  apply (reload_steady _ _ _ _ _ (set_sm_needsReload false) (set_sm_needsReload true)) in El; [|done|done|].
  - destruct r2; intros [= <- <-]; (etrans; [exact Hs|exact El]).
  - unfold st0. cbn. symmetry. by apply next_watcher_cached.
Qed.

Lemma Forget_only now id req destroy audit s s' r :
  Forget now id req destroy audit s = (s', r) →
  only id s s' ∧ (next_watcher s' id = next_watcher s id ∨ as_codex s' !! id = None).
Proof.
  unfold Forget. destruct destroy as [destroy|]; [|intros [= <- <-]; split; [done|by left]].
  case_match; [intros [= <- <-]; split; [done|by left]|]. unfold mbind at 1, M_bind at 1.
  destruct (ensure id s) as [s1 [st|e]] eqn:Ee; apply ensure_steady in Ee as [[Ho Hn] Hc]; [|intros [= <- <-]; auto].
  set (ev := forgotten_event _ _ _ _). unfold mbind, M_bind, modify, mret, M_ret, persist, zoom.
  assert (record_audit audit s1 = ((record_audit audit s1).1, Ok tt)) as -> by done. cbv beta iota.
  destruct (record_audit_fields audit s1) as [E1 E2]. set (s2 := (record_audit audit s1).1) in *. clearbody s2.
  assert (steady id s (deliver_last id st ev s2)) as Hs.
  { transitivity s1; [by split|]. transitivity s2; [by apply steady_same|]. apply deliver_last_steady. by rewrite E1. }
  set (s3 := deliver_last id st ev s2) in *. clearbody s3. destruct Hs as [Ho3 Hn3].
  destruct (destroy id (as_persist s3)) as [p [[]|e]]; intros E; apply pair_equal_spec in E as [<- <-].
  - split; [|right; simpl; apply lookup_delete_eq]. etrans; [exact Ho3|]. split; [done|]. intros j Hj. simpl. by rewrite lookup_delete_ne.
  - split; [|left; exact Hn3]. etrans; [exact Ho3|]. done.
Qed.

(** A new watcher gets the next number, and a RESET fixes the boundary. *)
Lemma watchLocked_stream id st after queue s s' r :
  as_codex s !! id = Some st → watchLocked id st after queue s = (s', r) →
  ∃ w, r = Ok w ∧ only id s s' ∧
    wmap s' id = <[u64_incr (next_watcher s id) := wt_chan w]> (wmap s id) ∧ next_watcher s' id = u64_incr (next_watcher s id) ∧
    ∃ st', as_codex s' !! id = Some st' ∧ sm_needsReload st' = sm_needsReload st ∧
      sm_safeReplayFloor st' = (if bool_decide (wr_Mode (wt_Response w) = WATCH_MODE_RESET)
                                then Some (wr_HeadEventSeq (wt_Response w)) else sm_safeReplayFloor st).
Proof.
  intros Hc. unfold watchLocked. simpl. destruct (watch_response _ _ _) as [resp replay] eqn:Ew. intros [= <- <-].
  eexists. split; [done|]. simpl. rewrite (next_watcher_cached s id st Hc), (wmap_cached s id st Hc). split.
  - split; [done|]. intros j Hj. simpl. by rewrite lookup_insert_ne.
  - split; [rewrite wmap_put, decide_True by done; by case_bool_decide|].
    unfold next_watcher. simpl. rewrite lookup_insert_eq. simpl. split; [by case_bool_decide|]. eexists. split; [done|]. by case_bool_decide.
Qed.

(** The same for [Watch] and [ForceReset]. *)
Definition opens (id : string) (s s' : AStore P) (r : res Watch) : Prop :=
  match r with
  | Ok w => only id s s' ∧ next_watcher s' id = u64_incr (next_watcher s id) ∧
      (∀ wid c, wmap s id !! wid = Some c → wid ≠ u64_incr (next_watcher s id) → wmap s' id !! wid = Some c) ∧
      (∀ wid c, wmap s' id !! wid = Some c → wid = u64_incr (next_watcher s id) ∨ wmap s id !! wid = Some c)
  | Err _ => steady id s s'
  end.

Lemma opens_locked id st after queue s s1 s' r :
  ensure id s = (s1, Ok st) → quiet s s1 → watchLocked id st after queue s1 = (s', r) → opens id s s' r.
Proof.
  intros He (_&_&_&_&Hq). apply ensure_steady in He as [[Ho Hn] Hc].
  intros (w&->&Ho'&Hw&Hn'&_)%watchLocked_stream; [|done]. rewrite Hn in Hw, Hn'. rewrite Hq in Hw.
  split; [by etrans|]. split; [done|]. rewrite Hw. split; intros wid c; [intros E Hne; by rewrite lookup_insert_ne|].
  intros [[<- _]|[_ E]]%lookup_insert_Some; auto.
Qed.

Lemma Store_Watch_opens id after queue s s' r : data_wf s → Store_Watch id after queue s = (s', r) → opens id s s' r.
Proof.
  intros Hd. unfold Store_Watch. destruct (str_empty id); [by intros [= <- <-]|]. cbv zeta. unfold mbind, M_bind.
  destruct (ensure id s) as [s1 [st|e]] eqn:Ee.
  - intros Hw. eapply opens_locked; [exact Ee| |exact Hw]. by apply ensure_spec in Ee as (_&?&_).
  - intros [= <- <-]. by apply ensure_steady in Ee as [? _].
Qed.

Lemma ForceReset_opens id reason queue s s' r : data_wf s → ForceReset id reason queue s = (s', r) → opens id s s' r.
Proof.
  intros Hd. unfold ForceReset. destruct (str_empty id); [by intros [= <- <-]|]. cbv zeta. unfold mbind at 1, M_bind at 1.
  destruct (ensure id s) as [s1 [st|e]] eqn:Ee.
  - unfold mbind, M_bind, mret, M_ret. destruct (watchLocked id st None _ s1) as [s2 x] eqn:Hw.
    eapply (opens_locked id st None _ s s1 s2 x) in Hw; [|exact Ee|by apply ensure_spec in Ee as (_&?&_)].
    destruct x as [w|e]; by intros [= <- <-].
  - intros [= <- <-]. by apply ensure_steady in Ee as [? _].
Qed.

Lemma Cancel_steady w s : steady (wt_codex w) s (Cancel w s).
Proof.
  unfold Cancel. destruct (as_codex s !! wt_codex w) as [st|] eqn:Ec; [|done].
  case_bool_decide; [|done]. destruct (sm_watchers st !! wt_id w); [|done].
  etrans; [apply (steady_put (wt_codex w) s s (set_sm_watchers (sm_nextWatcher st) (delete (wt_id w) (sm_watchers st)) st)); [done..|]|].
  - simpl. by rewrite (next_watcher_cached s _ st).
  - repeat case_match; by apply steady_same.
Qed.

Lemma Cancel_next_chan w s : as_next_chan (Cancel w s) = as_next_chan s.
Proof.
  unfold Cancel. destruct (as_codex s !! wt_codex w) as [st|]; [|done]. case_bool_decide; [|done].
  destruct (sm_watchers st !! wt_id w) as [c|]; [|done]. cbv zeta. destruct (as_chans _ !! c) as [ch|]; [|done]. by destruct (ch_closed ch).
Qed.

(** Cancelling takes the watcher it names out, and no other. *)
Lemma Cancel_wmap w s j wid :
  wmap (Cancel w s) j !! wid = wmap s j !! wid ∨ (j = wt_codex w ∧ wid = wt_id w ∧ wmap (Cancel w s) j !! wid = None).
Proof.
  unfold Cancel. destruct (as_codex s !! wt_codex w) as [st|] eqn:Ec; [|by left].
  case_bool_decide; [|by left]. destruct (sm_watchers st !! wt_id w) as [c|]; [|by left].
  set (s1 := put_stream _ _ s). assert (∀ s2, as_codex s2 = as_codex s1 → wmap s2 j !! wid = wmap s1 j !! wid) as Hs
    by (intros s2 E; unfold wmap; by rewrite E).
  assert (wmap s1 j !! wid = wmap s j !! wid ∨ (j = wt_codex w ∧ wid = wt_id w ∧ wmap s1 j !! wid = None)) as Hw.
  { unfold s1. rewrite wmap_put. case_decide as Ej; [subst j|by left]. rewrite (wmap_cached s _ st Ec). simpl.
    destruct (decide (wid = wt_id w)) as [->|Hne]; [right; split; [done|split; [done|apply lookup_delete_eq]]|left; by rewrite lookup_delete_ne]. }
  cbv zeta. destruct (as_chans s1 !! c); [|exact Hw]. rewrite Hs; [exact Hw|by destruct (ch_closed _)].
Qed.

(** ** Numbers of watchers *)

(** As long as fewer than 2^64 watches were opened, the numbers of the watchers of a Codex
    are those given out so far. *)
Definition ids_wf (s : AStore P) : Prop :=
  (Z.of_nat (as_next_chan s) < u64_modulus)%Z → ∀ id,
    (0 ≤ next_watcher s id ≤ Z.of_nat (as_next_chan s))%Z ∧ ∀ w c, wmap s id !! w = Some c → (w ≤ next_watcher s id)%Z.

Lemma only_other id s s' j : only id s s' → j ≠ id → next_watcher s' j = next_watcher s j ∧ wmap s' j = wmap s j.
Proof. intros [_ H] Hj. unfold next_watcher, wmap. by rewrite H. Qed.

Lemma ids_wf_shrink id s s' :
  only id s s' → (next_watcher s' id = next_watcher s id ∨ as_codex s' !! id = None) → as_next_chan s' = as_next_chan s →
  (∀ w c, wmap s' id !! w = Some c → wmap s id !! w = Some c) → ids_wf s → ids_wf s'.
Proof.
  intros Ho Hn Ec Hw Hi. unfold ids_wf. rewrite Ec. intros Hlt j. destruct (Hi Hlt j) as [H1 H2].
  destruct (decide (j = id)) as [->|Hj].
  - destruct Hn as [-> |Hg]; [split; [done|]; eauto|]. unfold next_watcher, wmap. rewrite Hg. simpl. split; [lia|]. intros w c. by rewrite lookup_empty.
  - destruct (only_other id s s' j Ho Hj) as [-> ->]. done.
Qed.

Lemma ids_wf_opens id s s' r : opens id s s' r → (∃ w, r = Ok w) → as_next_chan s' = S (as_next_chan s) → ids_wf s → ids_wf s'.
Proof.
  intros Hop [w ->] Ec Hi Hlt j. rewrite Ec in *. destruct (Hi ltac:(lia) j) as [H1 H2]. destruct Hop as (Ho&Hn&_&Hw).
  destruct (decide (j = id)) as [->|Hj].
  - assert (u64_incr (next_watcher s id) = next_watcher s id + 1)%Z as Hu by (apply u64_incr_small; lia).
    rewrite Hn, Hu. split; [lia|]. intros wid c [-> |E]%Hw; [lia|]. specialize (H2 _ _ E). lia.
  - destruct (only_other id s s' j Ho Hj) as [-> ->]. split; [lia|done].
Qed.

Lemma visited_shrinks f keep id s s' : visited f keep id s s' → ∀ j w c, wmap s' j !! w = Some c → wmap s j !! w = Some c.
Proof.
  intros (_&_&H3&H4&_) j w c. destruct (decide (j = id)) as [->|Hj]; [by intros [? _]%H3|by rewrite H4].
Qed.

Lemma quiet_ids id s s' : steady id s s' → quiet s s' → ids_wf s → ids_wf s'.
Proof. intros [Ho Hn] (_&Ec&_&_&Hw). apply (ids_wf_shrink id); [done|by left|done|]. intros w c. by rewrite Hw. Qed.

Lemma watched_opens_ids id q s s' w : opens id s s' (Ok w) → watched id (wt_chan w) q s s' → ids_wf s → ids_wf s'.
Proof. intros Ho (E&E'&_). apply (ids_wf_opens id s s' (Ok w)); [done|by exists w|congruence]. Qed.

Lemma arun_ids op s s' evs : data_wf s → chan_wf s → op_ok op → arun op s = (s', evs) → ids_wf s → ids_wf s'.
Proof.
  intros Hd Hc Hop. destruct op as [now event view audit|now id req destroy audit|id|id after queue|id reason queue|w|c|id]; cbn [arun].
  - destruct (Publish now event view audit s) as [s1 r] eqn:E. intros [= <- _]. destruct event as [event|]; [|by injection E as <- _].
    pose proof (Publish_stream _ _ _ _ _ _ _ E) as [Hs _]. destruct view as [view|].
    + apply Publish_spec in E as (_&_&_&Hr); [|done..]. destruct r as [ev|e].
      * destruct Hr as [Hv _]. pose proof Hv as (_&_&_&_&Hn&_). destruct Hs as [Ho ?]. apply (ids_wf_shrink (ev_CodexId event)); [done|by left|done|].
        by eapply visited_shrinks.
      * destruct Hr as [Hq _]. by eapply quiet_ids.
    + unfold Publish in E. destruct (str_empty _); by injection E as <- _.
  - destruct (Forget now id req destroy audit s) as [s1 r] eqn:E. intros [= <- _].
    pose proof (Forget_only _ _ _ _ _ _ _ _ E) as [Ho Hn]. destruct destroy as [destroy|]; [|by injection E as <- _].
    apply Forget_spec in E as (_&_&_&H); [|done..]. destruct H as [[Hq _]|(seq&Hv&_)].
    + destruct Hq as (_&Ec&_&_&Hw). apply (ids_wf_shrink id); [done..|]. intros w c. by rewrite Hw.
    + pose proof Hv as (_&_&_&_&Ec&_). apply (ids_wf_shrink id); [done..|]. by eapply visited_shrinks.
  - destruct (ReloadDurable id s) as [s1 r] eqn:E. intros [= <- _]. pose proof (ReloadDurable_steady _ _ _ _ E).
    apply ReloadDurable_spec in E as [_ Hq]; [|done]. by eapply quiet_ids.
  - destruct (Store_Watch id after queue s) as [s1 r] eqn:E. intros [= <- _]. pose proof (Store_Watch_opens _ _ _ _ _ _ Hd E) as Ho.
    apply Store_Watch_spec in E as (_&_&Hr); [|done..]. destruct r as [w|e]; [destruct Hr as [[q Hw] _]; by eapply watched_opens_ids|by eapply quiet_ids].
  - destruct (ForceReset id reason queue s) as [s1 r] eqn:E. intros [= <- _]. pose proof (ForceReset_opens _ _ _ _ _ _ Hd E) as Ho.
    apply ForceReset_spec in E as (_&_&Hr); [|done..]. destruct r as [w|e]; [destruct Hr as [q Hw]; by eapply watched_opens_ids|by eapply quiet_ids].
  - intros [= <- _]. destruct (Cancel_steady w s) as [Ho Hn]. apply (ids_wf_shrink (wt_codex w)); [done|by left| |].
    + apply Cancel_next_chan.
    + intros wid c Hw. destruct (Cancel_wmap w s (wt_codex w) wid) as [E|(_&_&E)]; congruence.
  - intros [= <- _]. unfold Receive. by destruct (as_chans s !! c).
  - destruct (Store_CurrentView id s) as [s1 r] eqn:E. intros [= <- _]. unfold Store_CurrentView, mbind, M_bind in E.
    destruct (ensure id s) as [s2 x] eqn:Ee. assert (s1 = s2) as -> by (destruct x as [st|e]; [destruct (sm_view st)|]; by injection E).
    pose proof (ensure_steady _ _ _ _ Ee) as [Hs _]. apply ensure_spec in Ee as (_&Hq&_); [|done]. by eapply quiet_ids.
Qed.

Lemma NewStore_ids p audited cap : ids_wf (NewStore p audited cap).
Proof. intros _ id. unfold next_watcher, wmap. simpl. rewrite lookup_empty. simpl. split; [lia|]. intros w c. by rewrite lookup_empty. Qed.

Lemma asteps_ids s tr s' : asteps s tr s' → data_wf s → chan_wf s → ids_wf s → ids_wf s'.
Proof.
  induction 1 as [|s op s1 evs tr s2 Hop Hr _ IH|s p tr s2 He _ IH]; intros Hd Hc Hi; [done| |].
  - destruct (arun_spec op s s1 evs) as (Hd1&Hc1&_); [done..|]. apply IH; [done..|]. by apply (arun_ids op s s1 evs).
  - destruct (env_step_wf s p) as (Hd1&Hc1&_); [done..|]. by apply IH.
Qed.

(** ** Why a watcher loses its place *)

(** The call that ends the watch with channel [c]: a publication for its Codex that finds
    its queue full, the Codex being forgotten, or its own cancellation. *)
Definition ends_watch (op : a_op P) (s : AStore P) (id : string) (c : nat) : Prop :=
  match op with
  | APublish _ (Some event) _ _ => ev_CodexId event = id ∧ ∃ ch, as_chans s !! c = Some ch ∧ (ch_cap ch ≤ zlen (ch_buf ch))%Z
  | AForget _ i _ _ _ => i = id
  | ACancel w => wt_codex w = id ∧ wmap s id !! wt_id w = Some c
  | _ => False
  end.

Lemma arun_unregisters op s s' evs id c :
  data_wf s → chan_wf s → ids_wf s → (Z.of_nat (as_next_chan s) < u64_modulus - 1)%Z → op_ok op →
  arun op s = (s', evs) → registered s id c → ¬ registered s' id c → ends_watch op s id c.
Proof.
  intros Hd Hc Hi Hlt Hop Hrun [wid Hreg] Hun.
  assert (∀ s1, quiet s s1 → s1 = s' → False) as Hquiet by (intros s1 (_&_&_&_&Hw) ->; apply Hun; exists wid; by rewrite Hw).
  assert (∀ i r, opens i s s' r → (∃ w, r = Ok w) → False) as Hopens.
  { intros i r Ho [w ->]. destruct Ho as (Ho&_&Hk&_). apply Hun. exists wid. destruct (decide (id = i)) as [->|Hne].
    - apply Hk; [done|]. destruct (Hi ltac:(lia) i) as [H1 H2]. specialize (H2 _ _ Hreg). rewrite u64_incr_small by lia. lia.
    - destruct (only_other _ _ _ _ Ho Hne) as [_ ->]. done. }
  destruct op as [now event view audit|now i req destroy audit|i|i after queue|i reason queue|w|d|i]; cbn [arun ends_watch] in *.
  - destruct (Publish now event view audit s) as [s1 r] eqn:E. injection Hrun as -> _.
    destruct event as [event|]; [|injection E as <- _; exfalso; by eapply Hquiet].
    destruct view as [view|]; [|unfold Publish in E; destruct (str_empty _); injection E as <- _; exfalso; by eapply Hquiet].
    apply Publish_spec in E as (_&_&_&Hr); [|done..]. destruct r as [ev|e]; [|destruct Hr as [Hq _]; exfalso; by eapply Hquiet].
    destruct Hr as [(_&_&H3&H4&_) _]. destruct (decide (id = ev_CodexId event)) as [->|Hne].
    + split; [done|]. destruct (cwf_open s Hc _ _ _ Hreg) as (ch&Hch&_). exists ch. split; [done|].
      destruct (ch_has_room ch) eqn:Er; [|unfold ch_has_room in Er; by apply Z.ltb_ge in Er].
      destruct Hun. exists wid. apply H3. split; [done|]. intros ch' Hch'. congruence.
    + destruct Hun. exists wid. by rewrite H4.
  - destruct (Forget now i req destroy audit s) as [s1 r] eqn:E. injection Hrun as -> _.
    apply Forget_only in E as [Ho _]. destruct (decide (i = id)) as [|Hne]; [done|]. destruct Hun. exists wid.
    destruct (only_other _ _ _ id Ho) as [_ ->]; [congruence|done].
  - destruct (ReloadDurable i s) as [s1 r] eqn:E. injection Hrun as -> _. apply ReloadDurable_spec in E as [_ Hq]; [|done]. exfalso; by eapply Hquiet.
  - destruct (Store_Watch i after queue s) as [s1 r] eqn:E. injection Hrun as -> _. pose proof (Store_Watch_opens _ _ _ _ _ _ Hd E) as Ho.
    apply Store_Watch_spec in E as (_&_&Hr); [|done..]. destruct r as [w|e]; [exfalso; eapply Hopens; eauto|exfalso; by eapply Hquiet].
  - destruct (ForceReset i reason queue s) as [s1 r] eqn:E. injection Hrun as -> _. pose proof (ForceReset_opens _ _ _ _ _ _ Hd E) as Ho.
    apply ForceReset_spec in E as (_&_&Hr); [|done..]. destruct r as [w|e]; [exfalso; eapply Hopens; eauto|exfalso; by eapply Hquiet].
  - injection Hrun as <- _. destruct (Cancel_wmap w s id wid) as [E|(->&->&_)]; [|done]. destruct Hun. exists wid. by rewrite E.
  - injection Hrun as <- _. destruct Hun. exists wid. unfold Receive. by destruct (as_chans s !! d).
  - destruct (Store_CurrentView i s) as [s1 r] eqn:E. injection Hrun as -> _. unfold Store_CurrentView, mbind, M_bind in E.
    destruct (ensure i s) as [s2 x] eqn:Ee. assert (s' = s2) as -> by (destruct x as [st|e]; [destruct (sm_view st)|]; by injection E).
    apply ensure_spec in Ee as (_&Hq&_); [|done]. exfalso; by eapply Hquiet.
Qed.

(** ** How long an exposed boundary stays valid *)

(** The stream is loaded and its boundary is [f]. *)
Definition floor_at (id : string) (f : Z) (s : AStore P) : Prop :=
  ∃ st, as_codex s !! id = Some st ∧ sm_needsReload st = false ∧ sm_safeReplayFloor st = Some f.

(** Calls that neither reset, reload nor forget the Codex, nor fail to publish for it. *)
Definition calm (id : string) (op : a_op P) (s : AStore P) : Prop :=
  match op with
  | APublish now (Some event) (Some view) audit =>
      ev_CodexId event = id → is_ok (Publish now (Some event) (Some view) audit s).2 = true
  | AForget _ i _ _ _ | AReload i | AForceReset i _ _ => i ≠ id
  | AWatch i after queue =>
      i = id → ∀ w, (Store_Watch i after queue s).2 = Ok w → wr_Mode (wt_Response w) = WATCH_MODE_RESUMED
  | _ => True
  end.

Inductive calm_steps (id : string) : AStore P → list Event → AStore P → Prop :=
| calm_refl s : calm_steps id s [] s
| calm_op s op s1 evs tr s2 :
    op_ok op → calm id op s → arun op s = (s1, evs) → calm_steps id s1 tr s2 → calm_steps id s (evs ++ tr) s2
| calm_env s p' tr s2 : env_step s p' → calm_steps id (set_as_persist p' s) tr s2 → calm_steps id s tr s2.

(** Consecutive calls of this kind. *)
Fixpoint calm_all (id : string) (ops : list (a_op P)) (s : AStore P) : Prop :=
  match ops with [] => True | op :: ops => op_ok op ∧ calm id op s ∧ calm_all id ops (arun op s).1 end.

Lemma calm_list id ops s : calm_all id ops s → calm_steps id s (arun_list ops s).2 (arun_list ops s).1.
Proof.
  revert s. induction ops as [|op ops IH]; intros s; simpl; [constructor|]. intros (Hop&Hc&Hrest).
  destruct (arun op s) as [s1 evs] eqn:E. specialize (IH s1 Hrest). destruct (arun_list ops s1) as [s2 tr]. by eapply calm_op.
Qed.

Lemma calm_asteps id s tr s' : calm_steps id s tr s' → asteps s tr s'.
Proof. induction 1; [constructor|by eapply asteps_op|by eapply asteps_env]. Qed.

Lemma only_floor i id f s s' : only i s s' → i ≠ id → floor_at id f s → floor_at id f s'.
Proof. intros [_ H] Hne (st&Hst&?). exists st. by rewrite H. Qed.

(** Opening a watch that is resumed leaves the boundary. *)
Lemma watch_floor id after queue s s' w f :
  Store_Watch id after queue s = (s', Ok w) →
  if bool_decide (wr_Mode (wt_Response w) = WATCH_MODE_RESET)
  then data_wf s → floor_at id (wr_HeadEventSeq (wt_Response w)) s'
  else floor_at id f s → floor_at id f s'.
Proof.
  unfold Store_Watch. destruct (str_empty id); [done|]. intros (s1&st&He&Hw)%M_bind_inv_ok.
  pose proof (ensure_steady _ _ _ _ He) as [_ Hc].
  apply watchLocked_stream in Hw as (w'&[= <-]&_&_&_&st'&Hst'&Hn'&Hf'); [|done]. case_bool_decide.
  - intros Hd. exists st'. split; [done|]. split; [|done]. rewrite Hn'. by apply ensure_ok in He as (_&_&_&_&_&?&_).
  - intros (st0&Hst0&Hn0&Hf0). rewrite (ensure_cached _ _ _ Hst0 Hn0) in He. injection He as <- <-. exists st'. split; [done|]. split; congruence.
Qed.

Lemma arun_floor id f op s s' evs : data_wf s → calm id op s → arun op s = (s', evs) → floor_at id f s → floor_at id f s'.
Proof.
  intros Hd Hcalm Hrun Hf.
  assert (∀ i r s1, ensure i s = (s1, r) → floor_at id f s1) as Hens.
  { intros i r s1 E. destruct (decide (i = id)) as [->|Hne]; [|apply ensure_steady in E as [[Ho _] _]; by eapply only_floor].
    destruct Hf as (st&Hst&Hn&Hfl). rewrite (ensure_cached _ _ _ Hst Hn) in E. injection E as <- _. by exists st. }
  destruct op as [now event view audit|now i req destroy audit|i|i after queue|i reason queue|w|d|i]; cbn [arun calm] in *.
  - destruct (Publish now event view audit s) as [s1 r] eqn:E. injection Hrun as -> _. destruct event as [event|]; [|by injection E as <- _].
    destruct view as [view|]; [|unfold Publish in E; destruct (str_empty _); by injection E as <- _]. rewrite E in Hcalm. cbn in Hcalm.
    apply Publish_stream in E as [[Ho _] Hs]. destruct (decide (ev_CodexId event = id)) as [Eid|Hne]; [|by eapply only_floor].
    rewrite Eid in Hs. destruct Hf as (st&Hst&Hn&Hfl). destruct (Hs st Hst Hn (Hcalm Eid)) as (st'&?&?&?). exists st'. split; [done|]. split; congruence.
  - destruct (Forget now i req destroy audit s) as [s1 r] eqn:E. injection Hrun as -> _. apply Forget_only in E as [Ho _]. by eapply only_floor.
  - destruct (ReloadDurable i s) as [s1 r] eqn:E. injection Hrun as -> _. apply ReloadDurable_steady in E as [Ho _]. by eapply only_floor.
  - destruct (Store_Watch i after queue s) as [s1 r] eqn:E. injection Hrun as -> _. destruct (decide (i = id)) as [->|Hne].
    + destruct r as [w|e]; [|].
      * specialize (Hcalm eq_refl w eq_refl). apply (watch_floor _ _ _ _ _ _ f) in E. rewrite Hcalm in E. by apply E.
      * unfold Store_Watch in E. destruct (str_empty id); [by injection E as <- _|]. unfold mbind, M_bind in E.
        destruct (ensure id s) as [s2 [st|e']] eqn:Ee; [|injection E as <- _; by eapply Hens].
        apply watchLocked_stream in E as (w&?&_); [done|]. by apply ensure_steady in Ee as [_ ?].
    + apply Store_Watch_opens in E; [|done]. destruct r; [destruct E as [Ho _]|destruct E as [Ho _]]; by eapply only_floor.
  - destruct (ForceReset i reason queue s) as [s1 r] eqn:E. injection Hrun as -> _. apply ForceReset_opens in E; [|done].
    destruct r; [destruct E as [Ho _]|destruct E as [Ho _]]; by eapply only_floor.
  - injection Hrun as <- _. destruct Hf as (st&Hst&Hn&Hfl). unfold Cancel. destruct (as_codex s !! wt_codex w) as [st0|] eqn:Ew; [|by exists st].
    case_bool_decide; [|by exists st]. destruct (sm_watchers st0 !! wt_id w) as [c|]; [|by exists st].
    assert (floor_at id f (put_stream (wt_codex w) (set_sm_watchers (sm_nextWatcher st0) (delete (wt_id w) (sm_watchers st0)) st0) s)) as Hput.
    { unfold floor_at. simpl. destruct (decide (id = wt_codex w)) as [->|Hne]; [|exists st; by rewrite lookup_insert_ne].
      rewrite lookup_insert_eq. eexists. split; [done|]. by simplify_eq. }
    cbv zeta. destruct (as_chans _ !! c); [|exact Hput]. by destruct (ch_closed _).
  - injection Hrun as <- _. unfold Receive. by destruct (as_chans s !! d).
  - destruct (Store_CurrentView i s) as [s1 r] eqn:E. injection Hrun as -> _. unfold Store_CurrentView, mbind, M_bind in E.
    destruct (ensure i s) as [s2 x] eqn:Ee. assert (s' = s2) as -> by (destruct x as [st|e]; [destruct (sm_view st)|]; by injection E). by eapply Hens.
Qed.

Lemma calm_floor id f s tr s' : calm_steps id s tr s' → data_wf s → chan_wf s → floor_at id f s → floor_at id f s'.
Proof.
  induction 1 as [|s op s1 evs tr s2 Hop Hcalm Hr _ IH|s p tr s2 He _ IH]; intros Hd Hc Hf; [done| |].
  - destruct (arun_spec op s s1 evs) as (Hd1&Hc1&_); [done..|]. apply IH; [done..|]. by apply (arun_floor id f op s s1 evs).
  - destruct (env_step_wf s p) as (Hd1&Hc1&_); [done..|]. by apply IH.
Qed.

(** ** The capacity does not change *)

Lemma arun_capacity op s s' evs : data_wf s → arun op s = (s', evs) → as_capacity s' = as_capacity s.
Proof.
  intros Hd. destruct op as [now event view audit|now i req destroy audit|i|i after queue|i reason queue|w|d|i]; cbn [arun].
  - destruct (Publish now event view audit s) as [s1 r] eqn:E. intros [= <- _]. destruct event as [event|]; [|by injection E as <- _].
    by apply Publish_stream in E as [[[? _] _] _].
  - destruct (Forget now i req destroy audit s) as [s1 r] eqn:E. intros [= <- _]. by apply Forget_only in E as [[? _] _].
  - destruct (ReloadDurable i s) as [s1 r] eqn:E. intros [= <- _]. by apply ReloadDurable_steady in E as [[? _] _].
  - destruct (Store_Watch i after queue s) as [s1 r] eqn:E. intros [= <- _]. apply Store_Watch_opens in E; [|done].
    destruct r; [by destruct E as [[? _] _]|by destruct E as [[? _] _]].
  - destruct (ForceReset i reason queue s) as [s1 r] eqn:E. intros [= <- _]. apply ForceReset_opens in E; [|done].
    destruct r; [by destruct E as [[? _] _]|by destruct E as [[? _] _]].
  - intros [= <- _]. by destruct (Cancel_steady w s) as [[? _] _].
  - intros [= <- _]. unfold Receive. by destruct (as_chans s !! d).
  - destruct (Store_CurrentView i s) as [s1 r] eqn:E. intros [= <- _]. unfold Store_CurrentView, mbind, M_bind in E.
    destruct (ensure i s) as [s2 x] eqn:Ee. assert (s1 = s2) as -> by (destruct x as [st|e]; [destruct (sm_view st)|]; by injection E).
    by apply ensure_steady in Ee as [[[? _] _] _].
Qed.

Lemma asteps_capacity s tr s' : asteps s tr s' → data_wf s → chan_wf s → as_capacity s' = as_capacity s.
Proof.
  induction 1 as [|s op s1 evs tr s2 Hop Hr _ IH|s p tr s2 He _ IH]; intros Hd Hc; [done| |].
  - destruct (arun_spec op s s1 evs) as (Hd1&Hc1&_); [done..|]. rewrite IH by done. by apply (arun_capacity op s s1 evs).
  - destruct (env_step_wf s p) as (Hd1&Hc1&_); [done..|]. by rewrite IH.
Qed.
End Streams.
