(* ===== verification/ActivityTheorems.v ===== *)
(** * Activity: what watchers can rely on

    Theorems about [activity.Store] over any interleaving of its calls with the
    rest of the Host, against the persistence interface of [Activity]. *)

From stdpp Require Import base tactics numbers list gmap strings.
From S2P Require Import Prelude GoError GoStrings Remote Activity ActivityStreams.

Section Theorems.
Context {P : Type} {HP : EventPersistence P} {HL : EventPersistenceLaws P} {HJ : ProtoJSON}.
Implicit Types s : AStore P.

(** ** Live delivery *)

(** The events published for one Codex. *)
Definition published (id : string) (tr : list Event) : list Event :=
  filter (λ ev, ev_CodexId ev = id) tr.

(** A registered channel received everything published since it was opened; one no
    longer registered received a prefix, then at most one terminal event. *)
Definition delivery (id : string) (c : nat) (pub : list Event) (s : AStore P) : Prop :=
  ∃ ch, as_chans s !! c = Some ch ∧
    ((registered s id c ∧ ch_sent ch = pub) ∨
     ((∀ j, ¬ registered s j c) ∧ ∃ k last, k ≤ length pub ∧ ch_sent ch = take k pub ++ last ∧
        (last = [] ∨ ∃ ev, last = [ev] ∧ ev_Payload ev = Some Event_CodexForgotten))).

(** A channel that is registered nowhere received what it received. *)
Lemma delivery_ended id c pub evs s' ch :
  as_chans s' !! c = Some ch → (∀ j, ¬ registered s' j c) → ch_sent ch = pub →
  delivery id c (pub ++ evs) s'.
Proof.
  intros Hc Hr Hs. exists ch. split; [done|]. right. split; [done|].
  exists (length pub), []. rewrite take_app_length, app_nil_r, length_app. split_and!; [lia|done|auto].
Qed.

Lemma registered_elsewhere s id j c : chan_wf s → registered s id c → registered s j c → j = id.
Proof. intros Hc [w Hw] [w' Hw']. by destruct (cwf_inj s Hc _ _ _ _ _ Hw' Hw). Qed.

Lemma visited_registered f keep i s s' j c :
  visited f keep i s s' → registered s' j c → registered s j c.
Proof.
  intros (_&_&H3&H4&_) [w Hw]. destruct (decide (j = i)) as [->|Hne].
  - apply H3 in Hw as [? _]. by exists w.
  - rewrite H4 in Hw by done. by exists w.
Qed.

(** A channel not registered for the visited Codex does not notice. *)
Lemma visited_other f keep i s s' id c pub :
  visited f keep i s s' → (registered s id c → i ≠ id) → chan_wf s →
  delivery id c pub s → delivery id c pub s'.
Proof.
  intros Hv Hi Hc (ch&Hch&Hd). pose proof Hv as (_&H2&_&H4&_).
  exists ch. destruct Hd as [[Hr Hs]|[Hn Hk]].
  - specialize (Hi Hr). split.
    + rewrite H2; [done|]. intros Hri. apply Hi. by eapply registered_elsewhere.
    + left. split; [|done]. destruct Hr as [w Hw]. exists w. by rewrite H4 by done.
  - rewrite H2 by done. split; [done|]. right. split; [|done].
    intros j Hj. eapply Hn. by eapply visited_registered.
Qed.

Lemma published_app id tr1 tr2 : published id (tr1 ++ tr2) = published id tr1 ++ published id tr2.
Proof. apply filter_app. Qed.

Lemma delivery_weaken id c pub evs s :
  (∀ j, ¬ registered s j c) → delivery id c pub s → delivery id c (pub ++ evs) s.
Proof.
  intros Hn (ch&Hch&[[Hr _]|[_ (k&last&Hk&Hs&Hl)]]); [by destruct (Hn id)|].
  exists ch. split; [done|]. right. split; [done|]. exists k, last. rewrite length_app, take_app_le by done.
  split_and!; [lia|done|done].
Qed.

Lemma effect_delivery_publish id c pub s ev s' :
  chan_wf s → visited (offered ev) ch_has_room (ev_CodexId ev) s s' →
  delivery id c pub s → delivery id c (pub ++ published id [ev]) s'.
Proof.
  intros Hc Hv Hd. unfold published. rewrite filter_cons, filter_nil.
  case_decide as Eid; [|rewrite app_nil_r; by eapply visited_other].
  rewrite Eid in *. destruct (decide (registered s id c)) as [Hreg|Hn]; cycle 1.
  { assert (∀ j, ¬ registered s j c) as Hun.
    { destruct Hd as (ch&_&[[? _]|[? _]]); [done|done]. }
    eapply visited_other; [done|done|done|]. by apply delivery_weaken. }
  destruct Hd as (ch&Hch&[[_ Hs]|[Hn _]]); [|by destruct (Hn id)].
  pose proof Hv as (H1&_&H3&_). specialize (H1 c ch Hreg Hch).
  unfold offered in H1. destruct (ch_has_room ch) eqn:Er.
  - exists (ch_push ev ch). split; [done|]. left. split; [|simpl; by rewrite Hs].
    destruct Hreg as [w Hw]. exists w. apply H3. split; [done|]. intros. by simplify_eq.
  - eapply delivery_ended; [done| |done]. intros j Hj.
    assert (j = id) as -> by (eapply registered_elsewhere; [done|done|by eapply visited_registered]).
    destruct Hj as [w Hw]. apply H3 in Hw as [Hw Hk]. specialize (Hk ch Hch). congruence.
Qed.

Lemma effect_delivery_forget id c pub s ev evs s' :
  chan_wf s → ev_Payload ev = Some Event_CodexForgotten → evs = [ev] ∨ evs = [] →
  visited (ended ev) (λ _, false) (ev_CodexId ev) s s' →
  delivery id c pub s → delivery id c (pub ++ published id evs) s'.
Proof.
  intros Hc Hpl Hevs Hv Hd.
  destruct (decide (ev_CodexId ev = id ∧ registered s id c)) as [[Eid Hreg]|Hno].
  - rewrite Eid in *. destruct Hd as (ch&Hch&[[_ Hs]|[Hn _]]); [|by destruct (Hn id)].
    pose proof Hv as (H1&_&H3&_). specialize (H1 c ch Hreg Hch).
    destruct (ended_facts ev ch) as (He&_); [by apply (cwf_buf s Hc c)|].
    assert (∀ j, ¬ registered s' j c) as Hun.
    { intros j Hj. assert (j = id) as -> by (eapply registered_elsewhere; [done|done|by eapply visited_registered]).
      destruct Hj as [w Hw]. apply H3 in Hw as [Hw Hk]. by specialize (Hk ch Hch). }
    exists (ended ev ch). split; [done|]. right. split; [done|]. rewrite He, Hs.
    exists (length pub), [ev]. rewrite take_app_length, length_app. split_and!; [lia|done|eauto].
  - assert (delivery id c pub s') as Hd'.
    { eapply visited_other; [done| |done|done]. intros Hr Eid. apply Hno. done. }
    destruct Hevs as [-> | ->]; unfold published; rewrite ?filter_cons, filter_nil; [|by rewrite app_nil_r].
    case_decide as Eid; [|by rewrite app_nil_r]. apply delivery_weaken; [|done].
    intros j Hj. apply (visited_registered _ _ _ _ _ _ _ Hv) in Hj.
    destruct Hd as (ch&_&[[Hr _]|[Hn _]]); [by apply Hno|by eapply Hn].
Qed.

(** One effect extends the delivery of a channel by what was published. *)
Lemma effect_delivery id c pub s evs s' :
  chan_wf s → chan_wf s' → effect s evs s' → delivery id c pub s → delivery id c (pub ++ published id evs) s'.
Proof.
  intros Hc Hc' He Hd. destruct He as [s' [Hm Hr]|ev s' Hv|ev evs s' Hpl Hevs Hv|i d q s' Hw].
  - unfold published. rewrite filter_nil, app_nil_r. destruct Hd as (ch&Hch&Hd).
    destruct (Hm c ch Hch) as (ch'&Hch'&Hs').
    destruct Hd as [[Hreg Hs]|[Hn Hk]].
    + destruct (decide (registered s' id c)) as [Hreg'|Hn'].
      * exists ch'. split; [done|]. left. by rewrite Hs'.
      * rewrite <-(app_nil_r pub). eapply delivery_ended; [done| |congruence].
        intros j Hj. assert (j = id) as ->; [|done].
        eapply (registered_elsewhere s); [done|exact Hreg|by apply Hr].
    + exists ch'. split; [done|]. right. rewrite Hs'. split; [|done]. intros j Hj. eapply Hn; by apply Hr.
  - by apply (effect_delivery_publish id c pub s).
  - by apply (effect_delivery_forget id c pub s ev).
  - unfold published. rewrite filter_nil, app_nil_r. destruct Hd as (ch&Hch&Hd).
    pose proof Hw as (->&Hn&_&Hchs&_).
    assert (c < as_next_chan s) as Hlt by (by apply (cwf_buf s Hc c ch)).
    assert (as_chans s' !! c = Some ch) as Hch' by (rewrite Hchs, lookup_insert_ne by lia; done).
    assert (∀ j, registered s' j c → registered s j c) as Hr.
    { intros j [w Hj]. destruct (watched_wmap _ _ _ _ _ _ _ _ Hw Hj) as [(?&_&_)|?]; [lia|by exists w]. }
    destruct Hd as [[Hreg Hs]|[Hun Hk]].
    + destruct (decide (registered s' id c)) as [Hreg'|Hn'].
      * exists ch. split; [done|]. by left.
      * rewrite <-(app_nil_r pub). eapply delivery_ended; [done| |done].
        intros j Hj. assert (j = id) as ->; [|done].
        eapply (registered_elsewhere s); [done|exact Hreg|by apply Hr].
    + exists ch. split; [done|]. right. split; [|done]. intros j Hj. eapply Hun; by apply Hr.
Qed.

(** ** Where the replay suffix comes from *)

(** Every event kept for replay was kept before or is published by this step. *)
Definition events_from (evs : list Event) s s' : Prop :=
  ∀ id st' ev, as_codex s' !! id = Some st' → ev ∈ sm_events st' →
    (∃ st, as_codex s !! id = Some st ∧ ev ∈ sm_events st) ∨ (ev ∈ evs ∧ ev_CodexId ev = id).

Lemma events_from_same evs s s' : as_codex s' = as_codex s → events_from evs s s'.
Proof. intros E id st ev. rewrite E. eauto. Qed.

Lemma events_from_put evs s s1 id st' :
  as_codex s1 = as_codex s →
  (∀ ev, ev ∈ sm_events st' →
     (∃ st, as_codex s !! id = Some st ∧ ev ∈ sm_events st) ∨ (ev ∈ evs ∧ ev_CodexId ev = id)) →
  events_from evs s (put_stream id st' s1).
Proof.
  intros E He j st ev. simpl. rewrite E, lookup_insert. case_decide; [intros [= <-]; subst|]; eauto.
Qed.

Lemma events_from_trans evs s1 s2 s3 :
  events_from [] s1 s2 → events_from evs s2 s3 → events_from evs s1 s3.
Proof.
  intros H12 H23 id st ev Hc Hin. destruct (H23 id st ev Hc Hin) as [(st2&Hc2&Hin2)|?]; [|auto].
  destruct (H12 id st2 ev Hc2 Hin2) as [?|[?%elem_of_nil _]]; [auto|done].
Qed.

Lemma loadDurable_events id st s s' r :
  loadDurable id st s = (s', r) → as_codex s' = as_codex s ∧
  match r with Ok st' => sm_events st' = sm_events st | Err _ => True end.
Proof.
  unfold loadDurable, persist, zoom, mbind, M_bind.
  destruct (ep_LoadEventState id (as_persist s)) as [p [[h raw]|e]]; by intros [= <- <-].
Qed.

Lemma ensure_events id s s' r :
  ensure id s = (s', r) → events_from [] s s' ∧
  match r with Ok st => as_codex s' !! id = Some st | Err _ => True end.
Proof.
  unfold ensure, gets, mbind at 1, M_bind at 1. destruct (as_codex s !! id) as [st|] eqn:Ec.
  - destruct (sm_needsReload st); [|intros [= <- <-]; split; [by apply events_from_same|done]].
    unfold mbind, M_bind, modify, mret, M_ret.
    destruct (loadDurable id st s) as [s1 [st1|e]] eqn:El; apply loadDurable_events in El as [E1 E2];
      intros [= <- <-]; [|split; [by apply events_from_same|done]].
    split; [|simpl; by rewrite lookup_insert_eq]. apply events_from_put; [done|]. simpl. rewrite E2. eauto.
  - unfold attempt, persist, zoom, mbind, M_bind.
    destruct (ep_LoadEventState id (as_persist s)) as [p [[h raw]|e]].
    + unfold open_stream. destruct (decode_boundary h raw). intros [= <- <-].
      split; [|simpl; by rewrite lookup_insert_eq]. apply events_from_put; [done|].
      simpl. by intros ev ?%elem_of_nil.
    + destruct (errorsIs e ErrNoRows); intros [= <- <-]; (split; [by apply events_from_same|done]).
Qed.

(** Folding over watchers does not touch the streams. *)
Lemma foldl_codex (g : AStore P * gmap Z nat → Z * nat → AStore P * gmap Z nat) l s ws :
  (∀ s ws w, as_codex (g (s, ws) w).1 = as_codex s) → as_codex (foldl g (s, ws) l).1 = as_codex s.
Proof.
  intros Hg. revert s ws. induction l as [|w l IH]; intros s ws; [done|]. simpl.
  rewrite (surjective_pairing (g (s, ws) w)), IH. apply Hg.
Qed.

Lemma trim_events_sub cap evs ev : ev ∈ trim_events cap evs → ev ∈ evs.
Proof.
  unfold trim_events. case_match; [|done]. intros Hin.
  rewrite <-(take_drop (Z.to_nat (zlen evs - cap)) evs). apply elem_of_app. auto.
Qed.

Lemma audit_codex audit s : as_codex (record_audit audit s).1 = as_codex s.
Proof. unfold record_audit. simpl. destruct audit; [|done]. by destruct (as_audited s). Qed.

Lemma deliver_events id st ev view s :
  as_codex s !! id = Some st → ev_CodexId ev = id → events_from [ev] s (deliver id st ev view s).
Proof.
  intros Hc Hid. unfold deliver. simpl.
  pose proof (foldl_codex (offer ev) (map_to_list (sm_watchers st)) s (sm_watchers st)) as Hg.
  destruct (foldl _ _ _) as [s1 ws]. simpl in Hg. apply events_from_put.
  - apply Hg. intros s0 ws0 [w c]. unfold offer. by repeat case_match.
  - simpl. intros e [Hin|Heq%list_elem_of_singleton]%trim_events_sub%elem_of_app.
    + left. eauto.
    + right. subst e. split; [by apply list_elem_of_singleton|done].
Qed.

Lemma deliver_last_events id st ev s :
  as_codex s !! id = Some st → events_from [] s (deliver_last id st ev s).
Proof.
  intros Hc. unfold deliver_last.
  pose proof (foldl_codex (terminate ev) (map_to_list (sm_watchers st)) s (sm_watchers st)) as Hg.
  destruct (foldl _ _ _) as [s1 ws]. simpl in Hg. apply events_from_put; [|simpl; eauto].
  apply Hg. intros s0 ws0 [w c]. unfold terminate. by repeat case_match.
Qed.

(** Loading into a stream whose suffix was discarded. *)
Lemma reload_events id st0 s s1 r (f : stream → stream) (g : stream) :
  sm_events st0 = [] → (∀ st, sm_events (f st) = sm_events st) → sm_events g = [] →
  loadDurable id st0 s = (s1, r) →
  events_from [] s (put_stream id (match r with Ok st => f st | Err _ => g end) s1).
Proof.
  intros H0 Hf Hg [E1 E2]%loadDurable_events. apply events_from_put; [done|].
  intros ev. destruct r; rewrite ?Hf, ?E2, ?H0, ?Hg; by intros ?%elem_of_nil.
Qed.

Lemma Publish_events now event view audit s s' r :
  Publish now event view audit s = (s', r) →
  events_from (match r with Ok ev => [ev] | Err _ => [] end) s s'.
Proof.
  unfold Publish. destruct event as [event|]; [|intros [= <- <-]; by apply events_from_same].
  case_match; [intros [= <- <-]; by apply events_from_same|].
  destruct view as [view|]; [|intros [= <- <-]; by apply events_from_same].
  set (id := ev_CodexId event). simpl. unfold mbind at 1, M_bind at 1.
  destruct (ensure id s) as [s1 [st|e]] eqn:Ee; apply ensure_events in Ee as [Hf Hc];
    [|by intros [= <- <-]].
  unfold mbind at 1, M_bind at 1, attempt, persist, zoom.
  destruct (ep_CommitEvent now id _ (as_persist s1)) as [p [seq|e]].
  - unfold mbind, M_bind, modify, mret, M_ret.
    assert (record_audit audit (set_as_persist p s1) = ((record_audit audit (set_as_persist p s1)).1, Ok tt))
      as -> by done.
    intros E. apply pair_equal_spec in E as [<- <-].
    eapply events_from_trans; [done|]. eapply events_from_trans; [|apply deliver_events; [|done]].
    + apply events_from_same. by rewrite audit_codex.
    + by rewrite audit_codex.
  - unfold reloadUnsafe. set (st0 := set_sm_safeReplayFloor _ _). unfold mbind, M_bind, attempt, modify, throw.
    destruct (loadDurable id st0 (set_as_persist p s1)) as [s2 r2] eqn:El.
    apply (reload_events _ _ _ _ _ (set_sm_needsReload false) (set_sm_needsReload true st0)) in El; try done.
    destruct r2; intros [= <- <-]; eapply events_from_trans; [exact Hf|exact El|exact Hf|exact El].
Qed.

Lemma Forget_events now id req destroy audit s s' r :
  Forget now id req destroy audit s = (s', r) → events_from [] s s'.
Proof.
  unfold Forget. destruct destroy as [destroy|]; [|intros [= <- <-]; by apply events_from_same].
  case_match; [intros [= <- <-]; by apply events_from_same|].
  unfold mbind at 1, M_bind at 1.
  destruct (ensure id s) as [s1 [st|e]] eqn:Ee; apply ensure_events in Ee as [Hf Hc];
    [|by intros [= <- <-]].
  set (ev := forgotten_event _ _ _ _). unfold mbind, M_bind, modify, mret, M_ret, persist, zoom.
  assert (record_audit audit s1 = ((record_audit audit s1).1, Ok tt)) as -> by done. cbv beta iota.
  set (s2 := (record_audit audit s1).1). set (s3 := deliver_last id st ev s2).
  assert (events_from [] s s3) as Hf3.
  { eapply events_from_trans; [done|]. eapply events_from_trans; [|apply deliver_last_events].
    - apply events_from_same. apply audit_codex.
    - unfold s2. by rewrite audit_codex. }
  destruct (destroy id (as_persist s3)) as [p [[]|e]]; intros E; apply pair_equal_spec in E as [<- <-].
  - eapply events_from_trans; [done|]. intros j st' e. simpl. intros [_ ?]%lookup_delete_Some. eauto.
  - eapply events_from_trans; [done|]. by apply events_from_same.
Qed.

Lemma watchLocked_events id st after q s s' r :
  as_codex s !! id = Some st → watchLocked id st after q s = (s', r) → events_from [] s s'.
Proof.
  intros Hc. unfold watchLocked. simpl. destruct (watch_response _ _ _) as [resp replay].
  intros [= <- <-]. apply events_from_put; [done|]. intros ev Hin. left. exists st. split; [done|].
  by case_match.
Qed.

Lemma Store_Watch_events id after q s s' r : Store_Watch id after q s = (s', r) → events_from [] s s'.
Proof.
  unfold Store_Watch. case_match; [intros [= <- <-]; by apply events_from_same|].
  unfold mbind, M_bind. destruct (ensure id s) as [s1 [st|e]] eqn:Ee; apply ensure_events in Ee as [Hf Hc];
    [|by intros [= <- <-]].
  intros Hw%watchLocked_events; [|done]. by eapply events_from_trans.
Qed.

Lemma ForceReset_events id reason q s s' r : ForceReset id reason q s = (s', r) → events_from [] s s'.
Proof.
  unfold ForceReset. case_match; [intros [= <- <-]; by apply events_from_same|].
  unfold mbind, M_bind. destruct (ensure id s) as [s1 [st|e]] eqn:Ee; apply ensure_events in Ee as [Hf Hc];
    [|by intros [= <- <-]].
  destruct (watchLocked id st None _ s1) as [s2 [w|e]] eqn:Hw; apply watchLocked_events in Hw; try done;
    intros [= <- <-]; by eapply events_from_trans.
Qed.

Lemma ReloadDurable_events id s s' r : ReloadDurable id s = (s', r) → events_from [] s s'.
Proof.
  unfold ReloadDurable. case_match; [intros [= <- <-]; by apply events_from_same|].
  unfold mbind at 1, M_bind at 1.
  assert (∃ s1 st, cached_or_new id s = (s1, Ok st) ∧ events_from [] s s1) as (s1&st&->&Hf).
  { unfold cached_or_new. destruct (as_codex s !! id) as [st|]; [exists s, st; split; [done|by apply events_from_same]|].
    eexists _, _. split; [done|]. apply events_from_put; [done|]. simpl. by intros ev ?%elem_of_nil. }
  set (st0 := set_sm_safeReplayFloor _ _). unfold mbind, M_bind, attempt, modify, throw.
  destruct (loadDurable id st0 s1) as [s2 r2] eqn:El.
  apply (reload_events _ _ _ _ _ (set_sm_needsReload false) (set_sm_needsReload true st0)) in El; try done.
  destruct r2; intros [= <- <-]; eapply events_from_trans; [exact Hf|exact El|exact Hf|exact El].
Qed.

Lemma arun_events op s s' evs : arun op s = (s', evs) → events_from evs s s'.
Proof.
  destruct op; simpl.
  - destruct (Publish now event view audit s) as [s1 r] eqn:E. intros [= <- <-]. by eapply Publish_events.
  - destruct (Forget now id req destroy audit s) as [s1 r] eqn:E. intros [= <- <-].
    apply Forget_events in E. intros j st' ev Hc Hin. destruct (E j st' ev Hc Hin) as [?|[?%elem_of_nil _]]; [by left|done].
  - destruct (ReloadDurable id s) eqn:E. intros [= <- <-]. by eapply ReloadDurable_events.
  - destruct (Store_Watch id after queue s) eqn:E. intros [= <- <-]. by eapply Store_Watch_events.
  - destruct (ForceReset id reason queue s) eqn:E. intros [= <- <-]. by eapply ForceReset_events.
  - intros [= <- <-]. unfold Cancel. destruct (as_codex s !! wt_codex w) as [st|] eqn:Ec; [|by apply events_from_same].
    case_bool_decide; [|by apply events_from_same].
    destruct (sm_watchers st !! wt_id w); [|by apply events_from_same].
    eapply events_from_trans; [apply (events_from_put [] s s (wt_codex w)
      (set_sm_watchers (sm_nextWatcher st) (delete (wt_id w) (sm_watchers st)) st)); [done|simpl; eauto]|].
    repeat case_match; by apply events_from_same.
  - intros [= <- <-]. unfold Receive. case_match; by apply events_from_same.
  - destruct (Store_CurrentView id s) as [s1 r] eqn:E. intros [= <- <-].
    unfold Store_CurrentView, mbind, M_bind in E.
    destruct (ensure id s) as [s2 [st|e]] eqn:Ee; apply ensure_events in Ee as [Hf _]; [|by simplify_eq].
    destruct (sm_view st); unfold mret, M_ret, fail_msg, throw in E; by simplify_eq.
Qed.

(** Over a run: what is kept for replay at the end was kept at the start or published. *)
Lemma asteps_events s tr s' : asteps s tr s' → events_from tr s s'.
Proof.
  induction 1 as [|s op s1 evs tr s2 _ Hr _ IH|s p tr s2 _ _ IH].
  - by apply events_from_same.
  - apply arun_events in Hr. intros id st ev Hc Hin.
    destruct (IH id st ev Hc Hin) as [(st1&Hc1&Hin1)|[? ?]]; [|right; split; [apply elem_of_app; auto|done]].
    destruct (Hr id st1 ev Hc1 Hin1) as [?|[? ?]]; [auto|right; split; [apply elem_of_app; auto|done]].
  - exact IH.
Qed.

(** ** The replay decision *)

(** Scanning a run that starts at or before [start]. *)
Lemma continuous_from_run l start head m :
  ev_EventSeq <$> l = seqZ m (zlen l) → head = (m + zlen l - 1)%Z → (0 ≤ m)%Z → (head < 2 ^ 63)%Z →
  (m ≤ head)%Z → (start ≤ head)%Z →
  continuous_from l start head (Z.max start m) = bool_decide (m ≤ start)%Z || bool_decide (start ≤ m)%Z.
Proof.
  intros Hs -> Hm Hh Hmh Hsh.
  assert (bool_decide (m ≤ start)%Z || bool_decide (start ≤ m)%Z = true) as ->.
  { destruct (Z.le_gt_cases m start); [by rewrite bool_decide_eq_true_2|].
    rewrite (bool_decide_eq_true_2 (start ≤ m)%Z) by lia. apply orb_true_r. }
  revert m Hs Hm Hh Hmh Hsh. induction l as [|ev l IH]; intros m Hs Hm Hh Hmh Hsh.
  { unfold zlen in *. simpl in *. lia. }
  assert (zlen (ev :: l) = zlen l + 1)%Z as Hl by (unfold zlen; simpl; lia). pose proof (zlen_nonneg l).
  rewrite Hl, seqZ_cons in Hs by lia. simpl in Hs. injection Hs as Hev Hs.
  replace (Z.pred (zlen l + 1)) with (zlen l) in Hs by lia. rewrite <-Z.add_1_r in Hs. simpl. rewrite Hev, Hl.
  replace (m + (zlen l + 1) - 1)%Z with ((m + 1) + zlen l - 1)%Z by lia.
  destruct (Z.ltb_spec m start) as [Hlt|Hge].
  - replace (Z.max start m) with (Z.max start (m + 1)) by lia. apply IH; (done || lia).
  - replace (Z.max start m) with m by lia. rewrite bool_decide_eq_false_2 by naive_solver.
    rewrite u64_incr_small by (unfold u64_modulus; lia).
    destruct (Z.ltb_spec (m + 1 + zlen l - 1) (m + 1)) as [|Hle]; [done|].
    replace (m + 1)%Z with (Z.max start (m + 1)) at 2 by lia. apply IH; (done || lia).
Qed.

Lemma continuous_available l start head :
  ev_EventSeq <$> l = seqZ (head - zlen l + 1) (zlen l) →
  (0 ≤ head - zlen l + 1)%Z → (head < 2 ^ 63)%Z →
  continuousReplayAvailable l start head = true ↔ (head < start ∨ head - zlen l + 1 ≤ start)%Z.
Proof.
  intros Hs Hm Hh. unfold continuousReplayAvailable. destruct (Z.ltb_spec head start) as [|Hle]; [naive_solver|].
  set (m := (head - zlen l + 1)%Z) in *. destruct (Z.le_gt_cases m start) as [Hms|Hms].
  - split; [lia|]. intros _. destruct (Z.le_gt_cases m head).
    + replace start with (Z.max start m) at 2 by lia.
      rewrite (continuous_from_run l start head m); [by rewrite bool_decide_eq_true_2|done|unfold m; lia|done..].
    + unfold m in *. lia.
  - split; [|lia]. destruct l as [|ev l]; [done|].
    assert (zlen (ev :: l) = zlen l + 1)%Z as Hl by (unfold zlen; simpl; lia). pose proof (zlen_nonneg l).
    rewrite Hl, seqZ_cons in Hs by lia. simpl in Hs. injection Hs as Hev _. simpl. rewrite Hev.
    destruct (Z.ltb_spec m start); [lia|]. rewrite bool_decide_eq_true_2; [done|lia].
Qed.

(** A resumed watch replays the run from the cursor to the head. *)
Lemma watch_response_resumed cap id st a resp replay :
  stream_wf cap st → (0 ≤ a)%Z → watch_response id st (Some a) = (resp, replay) →
  wr_Mode resp = WATCH_MODE_RESUMED →
  (a ≤ sm_head st)%Z ∧ wr_HeadEventSeq resp = sm_head st ∧ wr_ReplayFromEventSeq resp = (a + 1)%Z ∧
  ev_EventSeq <$> replay = seqZ (a + 1) (sm_head st - a) ∧ ∀ ev, ev ∈ replay → ev ∈ sm_events st.
Proof.
  intros Hst Ha. unfold watch_response. pose proof (swf_head _ _ Hst). pose proof (swf_len _ _ Hst).
  case_match; [by intros [= <- <-]|]. destruct (Z.ltb_spec (sm_head st) a); [by intros [= <- <-]|].
  rewrite u64_incr_small by (unfold u64_modulus; lia).
  destruct (continuousReplayAvailable _ _ _) eqn:Ec; simpl; [|by intros [= <- <-]].
  intros [= <- <-] _. simpl. split_and!; try done; [|intros ev [_ ?]%list_elem_of_filter; done].
  apply continuous_available in Ec; [|apply Hst|lia..].
  transitivity (filter (λ x, (a + 1 ≤ x ≤ sm_head st)%Z) (ev_EventSeq <$> sm_events st));
    [apply (fmap_filter ev_EventSeq (λ x, (a + 1 ≤ x ≤ sm_head st)%Z))|rewrite (swf_seqs _ _ Hst)].
  set (len := zlen (sm_events st)) in *. destruct Ec as [Hgt|Hle].
  - assert (sm_head st = a) as <- by lia. rewrite (seqZ_nil _ (sm_head st - sm_head st)) by lia.
    apply filter_none, Forall_forall. intros. lia.
  - pose proof (filter_seqZ_from (a + 1) (sm_head st - len + 1) len) as Hf.
    replace (sm_head st - len + 1 + len - 1)%Z with (sm_head st) in Hf by lia.
    rewrite Hf by (unfold len; lia). f_equal. lia.
Qed.

Lemma watch_response_reset id st after resp replay :
  watch_response id st after = (resp, replay) → wr_Mode resp ≠ WATCH_MODE_RESUMED →
  replay = [] ∧ ∃ reason, resp = reset_response id st reason.
Proof. unfold watch_response. repeat case_match; intros [= <- <-] Hm; eauto; by destruct Hm. Qed.

(** A cached unsafe stream without a floor stays so through [ensure]. *)
Lemma ensure_unsafe id s s' st st' :
  as_codex s !! id = Some st → sm_replayUnsafe st = true → sm_safeReplayFloor st = None →
  ensure id s = (s', Ok st') → sm_replayUnsafe st' = true ∧ sm_safeReplayFloor st' = None.
Proof.
  intros Hc Hu Hf. unfold ensure, gets, mbind at 1, M_bind at 1. rewrite Hc.
  destruct (sm_needsReload st); [|by intros [= <- <-]].
  unfold loadDurable, persist, zoom, mbind, M_bind.
  destruct (ep_LoadEventState id (as_persist s)) as [p [[h raw]|e]]; by intros [= <- <-].
Qed.

(** A failed commit leaves an unsafe stream without a floor. *)
Lemma Publish_failed now event view audit s s0 st s' e :
  ev_CodexId event ≠ EmptyString → data_wf s → ensure (ev_CodexId event) s = (s0, Ok st) →
  Publish now (Some event) (Some view) audit s = (s', Err e) →
  ∃ st', as_codex s' !! ev_CodexId event = Some st' ∧ sm_replayUnsafe st' = true ∧ sm_safeReplayFloor st' = None.
Proof.
  intros Hid Hd He. unfold Publish. destruct (str_empty _) eqn:Es; [by apply str_empty_spec in Es|].
  unfold mbind at 1, M_bind at 1. rewrite He.
  apply ensure_ok in He as (Hd0&_&_&_&_&_&Hw&Hst); [|done].
  unfold mbind at 1, M_bind at 1, attempt, persist, zoom.
  destruct (ep_CommitEvent now _ _ (as_persist s0)) as [p [seq|e']] eqn:Ec; [done|].
  apply ep_commit in Ec as (Hi&Hpj&_); [|apply Hd0]. unfold mbind, M_bind.
  destruct (reloadUnsafe _ st (set_as_persist p s0)) as [s2 r2] eqn:Er.
  apply reloadUnsafe_spec in Er as (_&_&_&Hst'&->); [|by apply data_wf_but_persist|done|apply Hst].
  by intros [= <- <-].
Qed.

(** From an empty store, over any interleaving of calls, failures and changes
    by the rest of the Host, the store never sends on or closes a closed channel,
    the loop that makes room for a terminal event always ends, every replay suffix
    is an unbroken run of sequence numbers ending at the stream's head and no longer
    than the capacity, and a stream that needs no reload has the durable head. *)
Theorem activity_invariant p audited cap tr s :
  ep_inv p → asteps (NewStore p audited cap) tr s →
  as_stuck s = false ∧
  (∀ id st, as_codex s !! id = Some st → stream_wf (as_capacity s) st) ∧
  (∀ id st h raw, as_codex s !! id = Some st → sm_needsReload st = false →
     ep_state (as_persist s) id = Some (h, raw) → h = sm_head st).
Proof.
  intros Hp Hs. destruct (NewStore_wf p audited cap Hp) as [Hd0 Hc0].
  destruct (asteps_wf _ _ _ Hs Hd0 Hc0) as [Hd Hc]. split_and!; [apply Hc|apply Hd|].
  intros id st h raw. apply dwf_head, Hd.
Qed.

(** C5: a watch that resumes from cursor [a] is answered with the durable head and
    with exactly the events [a+1 .. head], in order and without gaps, each of them an
    event that was published for this Codex. *)
Theorem resumed_watch_exact p audited cap tr s id a queue s' w h raw :
  ep_inv p → asteps (NewStore p audited cap) tr s → (0 ≤ a)%Z →
  ep_state (as_persist s) id = Some (h, raw) →
  Store_Watch id (Some a) queue s = (s', Ok w) → wr_Mode (wt_Response w) = WATCH_MODE_RESUMED →
  wr_HeadEventSeq (wt_Response w) = h ∧ (a ≤ h)%Z ∧ wr_ReplayFromEventSeq (wt_Response w) = (a + 1)%Z ∧
  ev_EventSeq <$> wt_Replay w = seqZ (a + 1) (h - a) ∧
  Forall (λ ev, ev ∈ tr ∧ ev_CodexId ev = id) (wt_Replay w).
Proof.
  intros Hp Hs Ha Hep Hw Hm. destruct (NewStore_wf p audited cap Hp) as [Hd0 Hc0].
  destruct (asteps_wf _ _ _ Hs Hd0 Hc0) as [Hd Hc].
  apply Store_Watch_spec in Hw as (_&_&_&st&_&Hst&Hfrom&Hr&Hh); [|done..].
  rewrite (Hh _ _ Hep) in *. destruct (watch_response_resumed _ _ _ _ _ _ Hst Ha (eq_sym Hr) Hm) as (?&->&->&?&Hin).
  split_and!; try done. apply Forall_forall. intros ev Hev%Hin.
  destruct Hfrom as [Hc'|Hnil]; [|rewrite Hnil in Hev; by apply elem_of_nil in Hev].
  destruct (asteps_events _ _ _ Hs id st ev Hc' Hev) as [(st0&Hst0&_)|?]; [|done].
  simpl in Hst0. by rewrite lookup_empty in Hst0.
Qed.

(** A watch that is reset gets no replay and a view stamped with the durable
    head, and the response names that same head. *)
Theorem reset_watch_boundary p audited cap tr s id after queue s' w h raw :
  ep_inv p → asteps (NewStore p audited cap) tr s → ep_state (as_persist s) id = Some (h, raw) →
  Store_Watch id after queue s = (s', Ok w) → wr_Mode (wt_Response w) ≠ WATCH_MODE_RESUMED →
  wr_HeadEventSeq (wt_Response w) = h ∧ wt_Replay w = [] ∧
  ∃ v, wr_ResetView (wt_Response w) = Some v ∧ cv_HeadEventSeq v = h.
Proof.
  intros Hp Hs Hep Hw Hm. destruct (NewStore_wf p audited cap Hp) as [Hd0 Hc0].
  destruct (asteps_wf _ _ _ Hs Hd0 Hc0) as [Hd Hc].
  apply Store_Watch_spec in Hw as (_&_&_&st&_&_&_&Hr&Hh); [|done..].
  rewrite (Hh _ _ Hep). destruct (watch_response_reset _ _ _ _ _ (eq_sym Hr) Hm) as [-> [reason ->]].
  split_and!; [done..|]. eexists; split; [done|]. by destruct (sm_view st).
Qed.

(** C31: a watch that is answered with a RESET can be resumed from there: as long as no
    call resets, reloads or forgets the Codex or fails to publish for it, a reader that
    asks for any cursor between the head the RESET exposed and the durable head is resumed
    if the cursor is within the last events the store keeps (1024 unless configured). *)
Theorem resume_after_reset p audited cap tr0 s id after0 queue0 s1 w1 tr s2 h raw a queue s3 w :
  ep_inv p → asteps (NewStore p audited cap) tr0 s →
  Store_Watch id after0 queue0 s = (s1, Ok w1) → wr_Mode (wt_Response w1) = WATCH_MODE_RESET →
  calm_steps id s1 tr s2 → ep_state (as_persist s2) id = Some (h, raw) →
  (wr_HeadEventSeq (wt_Response w1) ≤ a ≤ h)%Z → (h - (if cap <=? 0 then 1024 else cap) ≤ a)%Z →
  Store_Watch id (Some a) queue s2 = (s3, Ok w) →
  wr_Mode (wt_Response w) = WATCH_MODE_RESUMED.
Proof.
  intros Hp Hs Hw1 Hm Hcalm Hh Ha Hcap Hw. destruct (NewStore_wf p audited cap Hp) as [Hd0 Hc0].
  destruct (asteps_wf _ _ _ Hs Hd0 Hc0) as [Hd Hc].
  assert (asteps s [] s1) as Hs1.
  { eapply (asteps_op s (AWatch id after0 queue0) s1 [] [] s1); [done| |constructor]. simpl. by rewrite Hw1. }
  destruct (asteps_wf _ _ _ Hs1 Hd Hc) as [Hd1 Hc1]. pose proof (calm_asteps _ _ _ _ Hcalm) as Hs2.
  destruct (asteps_wf _ _ _ Hs2 Hd1 Hc1) as [Hd2 Hc2].
  assert (as_capacity s2 = if cap <=? 0 then 1024 else cap)%Z as Ecap.
  { rewrite (asteps_capacity _ _ _ Hs2), (asteps_capacity _ _ _ Hs1), (asteps_capacity _ _ _ Hs) by done. done. }
  pose proof (watch_floor id after0 queue0 s s1 w1 0 Hw1) as Hf. rewrite Hm in Hf. specialize (Hf Hd). simpl in Hf.
  apply (calm_floor _ _ _ _ _ Hcalm) in Hf as (st&Hst&Hn&Hf); [|done..]. pose proof (dwf_stream s2 Hd2 id st Hst) as Hwf.
  rewrite (dwf_head s2 Hd2 id st h raw Hst Hn Hh) in *.
  unfold Store_Watch in Hw. destruct (str_empty id); [done|]. unfold mbind, M_bind in Hw. rewrite (ensure_cached _ _ _ Hst Hn) in Hw.
  apply watchLocked_spec in Hw as (w'&[= <-]&_&_&_&Hr); [|done..].
  unfold watch_response in Hr. pose proof (swf_head _ _ Hwf). pose proof (swf_len _ _ Hwf).
  destruct (swf_floor _ _ Hwf _ Hf) as [? ?]. rewrite <-Ecap in Hcap.
  rewrite Hf, (proj2 (Z.ltb_ge a (wr_HeadEventSeq (wt_Response w1)))), andb_false_r, (proj2 (Z.ltb_ge (sm_head st) a)) in Hr by lia.
  rewrite u64_incr_small in Hr by (unfold u64_modulus; lia).
  rewrite (proj2 (continuous_available _ (a + 1) (sm_head st) (swf_seqs _ _ Hwf) ltac:(lia) ltac:(lia))) in Hr by lia.
  simpl in Hr. by injection Hr as -> _.
Qed.

(** After a publication whose commit failed, for whatever reason, no cursor is
    ever resumed before a new RESET: an event that may or may not have become
    durable is never skipped silently. *)
Theorem failed_publish_resets p audited cap tr s now event view audit st s0 s1 e a queue s2 w :
  ep_inv p → asteps (NewStore p audited cap) tr s →
  ensure (ev_CodexId event) s = (s0, Ok st) →
  Publish now (Some event) (Some view) audit s = (s1, Err e) → ev_CodexId event ≠ EmptyString →
  Store_Watch (ev_CodexId event) (Some a) queue s1 = (s2, Ok w) →
  wr_Mode (wt_Response w) = WATCH_MODE_RESET ∧
  wr_ResetReason (wt_Response w) = WATCH_RESET_REASON_CURSOR_UNAVAILABLE.
Proof.
  intros Hp Hs He Hpub Hid Hw. destruct (NewStore_wf p audited cap Hp) as [Hd0 Hc0].
  destruct (asteps_wf _ _ _ Hs Hd0 Hc0) as [Hd Hc]. set (id := ev_CodexId event) in *.
  assert (data_wf s1 ∧ ∃ st1, as_codex s1 !! id = Some st1 ∧ sm_replayUnsafe st1 = true ∧
    sm_safeReplayFloor st1 = None) as (Hd1&st1&Hst1&Hu1&Hf1).
  { pose proof Hpub as Hpub'. apply Publish_spec in Hpub' as (?&_&_&_&_); [|done..]. split; [done|].
    exact (Publish_failed now event view audit s s0 st s1 e Hid Hd He Hpub). }
  unfold Store_Watch in Hw. destruct (str_empty id); [done|].
  apply M_bind_inv_ok in Hw as (s3&st3&He3&Hw).
  assert (sm_replayUnsafe st3 = true ∧ sm_safeReplayFloor st3 = None) as [Hu3 Hf3].
  { exact (ensure_unsafe id s1 s3 st1 st3 Hst1 Hu1 Hf1 He3). }
  pose proof (ensure_ok _ _ _ _ Hd1 He3) as (Hd3&_&_&_&Hc3&Hn3&_).
  apply watchLocked_spec in Hw as (w'&[= <-]&_&_&_&Hr); [|done..].
  unfold watch_response in Hr. rewrite Hu3, Hf3 in Hr. by injection Hr as -> _.
Qed.

Lemma asteps_delivery id c pub s tr s' :
  asteps s tr s' → data_wf s → chan_wf s → delivery id c pub s → delivery id c (pub ++ published id tr) s'.
Proof.
  intros Hs. revert pub. induction Hs as [s|s op s1 evs tr s2 Hop Hr _ IH|s p tr s2 He _ IH]; intros pub Hd Hc Hdel.
  - by rewrite app_nil_r.
  - destruct (arun_spec op s s1 evs) as (Hd1&Hc1&Heff); [done..|].
    rewrite published_app, app_assoc. apply IH; [done..|]. by eapply (effect_delivery _ _ _ s).
  - destruct (env_step_wf s p) as (Hd1&Hc1&Heff); [done..|].
    apply IH; [done..|]. pose proof (effect_delivery id c pub s [] (set_as_persist p s) Hc Hc1 Heff Hdel) as H.
    by rewrite app_nil_r in H.
Qed.

(** C2: a watch delivers live, in order, exactly what is published for its Codex
    after it was opened: while it is registered its channel has received every such
    event; once it is not it has received a prefix of them, followed at most by one
    terminal event.  At every moment (until 2^64 watches were opened) the only calls that
    end the watch are a publication for its Codex that finds its queue full, the forgetting
    of its Codex, and its own cancellation. *)
Theorem live_delivery p audited cap tr0 s id after queue s1 w tr s2 :
  ep_inv p → asteps (NewStore p audited cap) tr0 s →
  Store_Watch id after queue s = (s1, Ok w) → asteps s1 tr s2 →
  delivery id (wt_chan w) (published id tr) s2 ∧
  ((Z.of_nat (as_next_chan s2) < u64_modulus - 1)%Z → ∀ op s3 evs, op_ok op → arun op s2 = (s3, evs) →
     registered s2 id (wt_chan w) → ¬ registered s3 id (wt_chan w) → ends_watch op s2 id (wt_chan w)).
Proof.
  intros Hp Hs0 Hw Hs. destruct (NewStore_wf p audited cap Hp) as [Hd0 Hc0].
  destruct (asteps_wf _ _ _ Hs0 Hd0 Hc0) as [Hd Hc]. pose proof (asteps_ids _ _ _ Hs0 Hd0 Hc0 (NewStore_ids p audited cap)) as Hi.
  assert (arun (AWatch id after queue) s = (s1, [])) as Hrun by (simpl; by rewrite Hw).
  assert (ids_wf s1) as Hi1 by (by apply (arun_ids (AWatch id after queue) s s1 [])).
  apply Store_Watch_spec in Hw as (Hd1&Hc1&[q Hw]&_); [|done..].
  destruct (asteps_wf _ _ _ Hs Hd1 Hc1) as [Hd2 Hc2]. pose proof (asteps_ids _ _ _ Hs Hd1 Hc1 Hi1) as Hi2. split.
  - apply (asteps_delivery id (wt_chan w) []) in Hs; [done..|].
    destruct Hw as (_&_&_&Hch&[w0 Hw]&_). exists (new_chan q). split; [by rewrite Hch, lookup_insert_eq|].
    left. split; [|done]. exists w0. by rewrite Hw, lookup_insert_eq.
  - intros Hlt op s3 evs Hop Hr. by apply (arun_unregisters op s2 s3 evs).
Qed.

(** A successful [Forget] delivers the terminal event as the last event of every
    watcher of the Codex, whatever its queue held, closes them all, leaves no stream
    behind, and a later watch of that id fails. *)
Theorem forget_terminal p audited cap tr s now id req destroy audit s1 ev c ch after queue :
  ep_inv p → asteps (NewStore p audited cap) tr s → destroys destroy →
  Forget now id req (Some destroy) audit s = (s1, Ok ev) →
  registered s id c → as_chans s !! c = Some ch →
  ev_Payload ev = Some Event_CodexForgotten ∧ ev_CodexId ev = id ∧
  (∃ ch', as_chans s1 !! c = Some ch' ∧ ch_sent ch' = ch_sent ch ++ [ev] ∧ ch_closed ch' = true ∧
     (zlen (ch_buf ch') ≤ ch_cap ch)%Z) ∧
  (∀ d, ¬ registered s1 id d) ∧
  ∃ e, (Store_Watch id after queue s1).2 = Err e.
Proof.
  intros Hp Hs Hdes Hf Hreg Hch. destruct (NewStore_wf p audited cap Hp) as [Hd0 Hc0].
  destruct (asteps_wf _ _ _ Hs Hd0 Hc0) as [Hd Hc].
  apply Forget_spec in Hf as (Hd1&Hc1&_&[[_ [e ?]]|(seq&Hv&[([= ->]&Hno&Hgone)|[e ?]])]); try done.
  destruct (cwf_buf s Hc c ch Hch) as (_&Hcap&_).
  destruct (ended_facts (forgotten_event now id req seq) ch Hcap) as (Hsent&Hclosed&_&Hbuf).
  split_and!; [done|done| | |].
  - eexists. split; [by apply Hv|]. done.
  - intros d [w Hw]. unfold wmap in Hw. rewrite Hno in Hw. simpl in Hw. by rewrite lookup_empty in Hw.
  - destruct (Store_Watch id after queue s1) as [s2 [w|e]] eqn:Hw; [|eauto]. exfalso.
    unfold Store_Watch in Hw. destruct (str_empty id); [done|]. apply M_bind_inv_ok in Hw as (s3&st&He&_).
    apply ensure_spec in He as (_&_&Hep&_&[(_&_&_&Hne)|(Hsome&_)]); [|congruence|done].
    rewrite Hep in Hne. done.
Qed.

(** A published view survives a restart: a new store over the same database
    returns, for this Codex, the view that was published, stamped with its sequence
    number, and lets a client that saw it resume with nothing to replay. *)
Theorem publish_survives_restart p audited cap tr s now event view audit s1 ev audited' cap' s2 r s3 w queue :
  ProtoJSONLaws → ep_inv p → asteps (NewStore p audited cap) tr s →
  Publish now (Some event) (Some view) audit s = (s1, Ok ev) →
  Store_CurrentView (ev_CodexId event) (NewStore (as_persist s1) audited' cap') = (s2, Ok r) →
  Store_Watch (ev_CodexId event) (Some (ev_EventSeq ev)) queue (NewStore (as_persist s1) audited' cap') = (s3, Ok w) →
  r = set_cv_HeadEventSeq (ev_EventSeq ev) view ∧
  wr_Mode (wt_Response w) = WATCH_MODE_RESUMED ∧ wt_Replay w = [].
Proof.
  intros HJL Hp Hs Hpub Hview Hw. destruct (NewStore_wf p audited cap Hp) as [Hd0 Hc0].
  destruct (asteps_wf _ _ _ Hs Hd0 Hc0) as [Hd Hc].
  apply Publish_spec in Hpub as (Hd1&_&_&_&h&old&raw&st'&_&->&Hm&Hep&_); [|done..].
  set (seq := (h + 1)%Z) in *. set (id := ev_CodexId event) in *.
  pose proof (Marshal_nonempty _ _ Hm) as Hne. pose proof (UnmarshalView_Marshal _ _ Hm) as Hu.
  assert (∀ s' st, ensure id (NewStore (as_persist s1) audited' cap') = (s', Ok st) →
    sm_view st = Some (set_cv_HeadEventSeq seq view) ∧ sm_head st = seq ∧ sm_replayUnsafe st = false ∧
    sm_events st = [] ∧ sm_safeReplayFloor st = None) as Hens.
  { intros s' st. unfold ensure, gets, mbind, M_bind, attempt, persist, zoom. simpl. rewrite lookup_empty. simpl.
    destruct (ep_LoadEventState id (as_persist s1)) as [p' [[h' raw']|e]] eqn:El;
      [|destruct (errorsIs e ErrNoRows); unfold throw; intros; simplify_eq].
    apply ep_load in El as (_&_&El); [|apply Hd1]. rewrite Hep in El. injection El as <- <-.
    unfold open_stream, decode_boundary. destruct (str_empty raw) eqn:Er; [by apply str_empty_spec in Er|].
    simpl. rewrite Hu. intros [= _ <-]. simpl. split_and!; try done. by rewrite bool_decide_eq_false_2 by naive_solver. }
  change (ev_EventSeq (set_ev_EventSeq seq event)) with seq in *. split.
  - unfold Store_CurrentView in Hview. apply M_bind_inv_ok in Hview as (s'&st&He&Hv).
    apply Hens in He as (Hv'&_). rewrite Hv' in Hv. by injection Hv as _ <-.
  - unfold Store_Watch in Hw. destruct (str_empty id); [done|].
    apply M_bind_inv_ok in Hw as (s'&st&He&Hw). apply Hens in He as (_&Hh&Hus&Hev&_).
    revert Hw. unfold watchLocked, watch_response. simpl. rewrite Hus, Hh, Hev. simpl.
    rewrite Z.ltb_irrefl. pose proof (ep_range _ _ _ _ (dwf_inv _ Hd1) Hep).
    rewrite u64_incr_small by (unfold u64_modulus; lia). unfold continuousReplayAvailable.
    rewrite (proj2 (Z.ltb_lt seq (seq + 1))) by lia. by intros [= _ <-].
Qed.
End Theorems.
