(* ===== verification/HostEvents.v ===== *)
(** * Host events: the SQLite store behind the activity store

    [persistence.Store] implements [activity.Persistence]
    (cmd/codex-remote-host/main.go passes the one to the other): the laws the
    activity component relies on are theorems about the SQLite model, and
    [DeleteCodex] is an admissible [destroy] callback.  The file also evaluates the
    activity theorems on a concrete database. *)

From stdpp Require Import base tactics numbers list gmap strings pretty.
From S2P Require Import Prelude GoError GoStrings Remote Persistence Activity ActivityStreams ActivityTheorems.

#[export] Instance Store_EventPersistence : EventPersistence Store := {
  ep_LoadEventState := LoadEventState;
  ep_CommitEvent now id build := CommitEvent now id (Some build);
}.

(** Heads are SQLite integers that were only ever counted up from 0. *)
Definition heads_in_range (d : DB) : Prop :=
  ∀ id h, db_event_heads d !! id = Some h → (0 ≤ h < 2 ^ 63)%Z.

Lemma event_state_range d id h raw :
  heads_in_range d → event_state d id = Some (h, raw) → (0 ≤ h < 2 ^ 63)%Z.
Proof.
  intros Hr. unfold event_state. destruct (db_codexes d !! id); [|done]. intros [= <- _].
  destruct (db_event_heads d !! id) as [h'|] eqn:E; simpl; [by eapply Hr|lia].
Qed.

Lemma event_applied_state now id view seq d d' :
  event_applied now id view seq d d' →
  (∃ old, event_state d id = Some ((seq - 1)%Z, old)) ∧ event_state d' id = Some (seq, view) ∧
  (∀ j, j ≠ id → event_state d' j = event_state d j).
Proof.
  intros (r&Hr&_&Hs&_&->). unfold event_state. split_and!; simpl.
  - rewrite Hr. eexists. do 2 f_equal. rewrite Hs. lia.
  - by rewrite !lookup_insert_eq.
  - intros j Hj. by rewrite !lookup_insert_ne.
Qed.

Lemma db_step_heads_range op d d' : db_step op d d' → heads_in_range d → heads_in_range d'.
Proof.
  intros Hstep Hr. destruct Hstep as [| | |d j Hj| | | | | | |d d' now j b view seq _ (r&_&_&Hq&Hm&->)|d j Hm|]; try done.
  - intros i h. simpl. intros [_ ?]%lookup_delete_Some. by eapply Hr.
  - intros i h. simpl. rewrite lookup_insert. case_decide; intros; simplify_eq; [|by eapply Hr].
    destruct (db_event_heads d !! i) as [h0|] eqn:E; simpl in *; [apply Hr in E|]; lia.
  - intros i h. simpl. rewrite lookup_insert. case_decide; intros; simplify_eq; [|by eapply Hr].
    destruct (db_event_heads d !! i) as [h0|] eqn:E; simpl in *; [apply Hr in E|]; lia.
Qed.

Lemma fault_not_norows f : errorsIs (fault_err f) ErrNoRows = false.
Proof. by destruct f. Qed.

(** The SQLite store keeps every promise the activity store relies on. *)
#[export, refine] Instance Store_EventPersistenceLaws : EventPersistenceLaws Store := {
  ep_inv s := heads_in_range (st_db s);
  ep_state s id := event_state (st_db s) id;
}.
Proof.
  - intros p id h raw. apply event_state_range.
  - intros p id p' r Hi. simpl. unfold LoadEventState. intros [E Hr]%sql_query_inv. rewrite E.
    split_and!; [done|done|]. destruct Hr as [-> | [f ->]]; [|by rewrite fault_not_norows].
    by destruct (event_state (st_db p) id).
  - intros p now id build p' r Hi. simpl. intros H. pose proof H as H'. apply CommitEvent_inv in H'.
    assert (heads_in_range (st_db p')) as Hi'.
    { pose proof (run_op_step (OpCommitEvent now id (Some build)) p) as Hs. simpl in Hs. rewrite H in Hs.
      destruct Hs as [Hs|Hs]; simpl in Hs; [by rewrite Hs|by eapply db_step_heads_range]. }
    destruct r as [seq|e].
    + destruct H' as (view&Hb&Ha). apply event_applied_state in Ha as ([old Ho]&Hn&Hj).
      split_and!; [done..|]. exists (seq - 1)%Z, old, view. split_and!; [done|lia|done|done].
    + destruct H' as [->|(f&view&seq&_&Hb&Ha)]; [by split_and!; auto|].
      apply event_applied_state in Ha as ([old Ho]&Hn&Hj). split_and!; [done..|]. right.
      exists (seq - 1)%Z, old, view. replace (seq - 1 + 1)%Z with seq by lia. done.
Defined.

(** [DeleteCodex] erases one Codex and nothing else. *)
Lemma DeleteCodex_destroys : destroys DeleteCodex.
Proof.
  intros id p p' r Hi H. simpl in *. pose proof H as H'.
  assert (heads_in_range (st_db p')) as Hi'.
  { pose proof (run_op_step (OpDeleteCodex id) p) as Hs. simpl in Hs. rewrite H in Hs.
    destruct Hs as [Hs|Hs]; simpl in Hs; [by rewrite Hs|by eapply db_step_heads_range]. }
  apply DeleteCodex_inv in H' as [(_&E&Hr)|[E [e ->]]]; rewrite E in *.
  - assert (∀ j, j ≠ id → event_state (codex_erased id (st_db p)) j = event_state (st_db p) j) as Hj.
    { intros j Hj. unfold event_state. simpl. by rewrite !lookup_delete_ne. }
    assert (event_state (codex_erased id (st_db p)) id = None) as Hid.
    { unfold event_state. simpl. by rewrite lookup_delete_eq. }
    split_and!; [done..|]. destruct Hr as [-> | [f ->]]; auto.
  - split_and!; auto.
Qed.

(** ** A concrete Host

    A codec that knows a few views, a database with one Codex and a store with room
    for two events. *)
Module Demo.

Definition demo_heads : list Z := [1; 2; 3; 4]%Z.

Definition demo_Marshal (m : message) : res string :=
  match m with
  | MsgView v =>
      if bool_decide (v = empty_view (cv_HeadEventSeq v) ∧ cv_HeadEventSeq v ∈ demo_heads)
      then Ok (pretty (cv_HeadEventSeq v)) else Err (ErrText "not in the table")
  | _ => Err (ErrText "not a view")
  end.

Definition demo_UnmarshalView (raw : string) : option CurrentView :=
  empty_view <$> List.find (λ h, bool_decide (pretty h = raw)) demo_heads.

#[local] Instance demo_json : ProtoJSON := {| Marshal := demo_Marshal; UnmarshalView := demo_UnmarshalView |}.

Lemma demo_json_laws : ProtoJSONLaws.
Proof.
  assert (∀ v raw, demo_Marshal (MsgView v) = Ok raw →
    ∃ h, h ∈ demo_heads ∧ v = empty_view h ∧ raw = pretty h) as Hm.
  { intros v raw. unfold demo_Marshal. case_bool_decide as E; [|done]. destruct E as [E Hin]. intros [= <-]. eauto. }
  split.
  - intros [] raw E; try done. apply Hm in E as (h&Hh&_&->).
    repeat (apply elem_of_cons in Hh as [->|Hh]; [done|]). by apply elem_of_nil in Hh.
  - intros v raw E. apply Hm in E as (h&Hh&->&->).
    repeat (apply elem_of_cons in Hh as [->|Hh]; [done|]). by apply elem_of_nil in Hh.
Qed.

Definition demo_db : Store := run_ops example_ops (mkStore empty_db []).

Lemma demo_db_inv : ep_inv demo_db.
Proof.
  assert (db_event_heads (st_db demo_db) = ∅) as E by (vm_compute; reflexivity).
  intros id h. rewrite E, lookup_empty. done.
Qed.

Definition demo_event : Event := mkEvent "a" 0 7 "" None None.
Definition demo_view : CurrentView := empty_view 0.
Definition demo_store : AStore Store := NewStore demo_db false 2.

(** Publish once, open a watch, publish twice. *)
Definition demo_before : list (a_op Store) := [APublish 1 (Some demo_event) (Some demo_view) None].
Definition demo_after : list (a_op Store) :=
  [APublish 2 (Some demo_event) (Some demo_view) None; AReceive 0; APublish 3 (Some demo_event) (Some demo_view) None].

Lemma demo_run (ops : list (a_op Store)) s :
  Forall op_ok ops → asteps s (arun_list ops s).2 (arun_list ops s).1.
Proof. apply asteps_list. Qed.

Lemma demo_ok : Forall op_ok (demo_before ++ [AWatch "a" None 2] ++ demo_after).
Proof. by repeat constructor. Defined.

(** The watch opened after the first publication, and the states around it. *)
Definition demo_s1 : AStore Store := (arun_list demo_before demo_store).1.
Definition demo_dummy : Watch := mkWatch (mkWatchCodexResponse "" 0 WATCH_MODE_UNSPECIFIED WATCH_RESET_REASON_UNSPECIFIED None 0) [] 0 "" 0 0.
Definition watch_of (r : res Watch) : Watch := match r with Ok w => w | Err _ => demo_dummy end.
Definition demo_open : AStore Store * res Watch := Store_Watch "a" None 2 demo_s1.
Definition demo_end : AStore Store * list Event := arun_list demo_after demo_open.1.
Definition demo_s2 : AStore Store := (arun_list (demo_before ++ [AWatch "a" None 2] ++ demo_after) demo_store).1.

Lemma demo_reach1 : asteps demo_store (arun_list demo_before demo_store).2 demo_s1.
Proof. apply demo_run. by repeat constructor. Defined.

Lemma demo_reach2 :
  asteps demo_store (arun_list (demo_before ++ [AWatch "a" None 2] ++ demo_after) demo_store).2 demo_s2.
Proof. apply demo_run, demo_ok. Defined.

Lemma activity_invariant_witness : as_stuck demo_s2 = false.
Proof. exact (proj1 (activity_invariant demo_db false 2 _ demo_s2 demo_db_inv demo_reach2)). Defined.

(** Watching again at the end, from a given cursor. *)
Definition demo_rewatch (after : option Z) : AStore Store * res Watch := Store_Watch "a" after 1 demo_s2.

Lemma resumed_watch_exact_witness :
  ev_EventSeq <$> wt_Replay (watch_of (demo_rewatch (Some 1%Z)).2) = seqZ (1 + 1) (3 - 1).
Proof.
  pose (w := watch_of (demo_rewatch (Some 1%Z)).2).
  assert (Store_Watch "a" (Some 1%Z) 1 demo_s2 = ((demo_rewatch (Some 1%Z)).1, Ok w)) as Hw by (vm_compute; reflexivity).
  assert (wr_Mode (wt_Response w) = WATCH_MODE_RESUMED) as Hm by (vm_compute; reflexivity).
  assert (ep_state (as_persist demo_s2) "a" = Some (3%Z, "3")) as Hep by (vm_compute; reflexivity).
  assert (0 ≤ 1)%Z as H01 by lia.
  exact (proj1 (proj2 (proj2 (proj2 (resumed_watch_exact demo_db false 2 _ demo_s2 "a" 1 1 _ w 3 "3"
    demo_db_inv demo_reach2 H01 Hep Hw Hm))))).
Defined.

Lemma reset_watch_boundary_witness :
  wr_HeadEventSeq (wt_Response (watch_of (demo_rewatch (Some 0%Z)).2)) = 3%Z.
Proof.
  pose (w := watch_of (demo_rewatch (Some 0%Z)).2).
  assert (Store_Watch "a" (Some 0%Z) 1 demo_s2 = ((demo_rewatch (Some 0%Z)).1, Ok w)) as Hw by (vm_compute; reflexivity).
  assert (wr_Mode (wt_Response w) = WATCH_MODE_RESET) as Hm by (vm_compute; reflexivity).
  assert (wr_Mode (wt_Response w) ≠ WATCH_MODE_RESUMED) as Hm' by (rewrite Hm; discriminate).
  assert (ep_state (as_persist demo_s2) "a" = Some (3%Z, "3")) as Hep by (vm_compute; reflexivity).
  exact (proj1 (reset_watch_boundary demo_db false 2 _ demo_s2 "a" (Some 0%Z) 1 _ w 3 "3"
    demo_db_inv demo_reach2 Hep Hw Hm')).
Defined.

Definition demo_stream (s : AStore Store) : stream :=
  default (mkStream 0 0 [] None false None false 0 ∅) (as_codex s !! "a").

(** The calls after the watch was opened leave the boundary it exposed alone. *)
Lemma demo_calm : calm_steps "a" demo_open.1 demo_end.2 demo_end.1.
Proof.
  apply (calm_list "a" demo_after). split; [done|]. split; [intros _; vm_compute; reflexivity|]. split; [done|]. split; [done|].
  split; [done|]. split; [intros _; vm_compute; reflexivity|done].
Defined.

Definition demo_resumed : AStore Store * res Watch := Store_Watch "a" (Some 1%Z) 1 demo_end.1.

Lemma resume_after_reset_witness :
  wr_HeadEventSeq (wt_Response (watch_of demo_open.2)) = 1%Z ∧
  wr_Mode (wt_Response (watch_of demo_resumed.2)) = WATCH_MODE_RESUMED.
Proof.
  pose (w1 := watch_of demo_open.2). pose (w := watch_of demo_resumed.2).
  assert (Store_Watch "a" None 2 demo_s1 = (demo_open.1, Ok w1)) as Hw1 by (vm_compute; reflexivity).
  assert (wr_Mode (wt_Response w1) = WATCH_MODE_RESET) as Hm by (vm_compute; reflexivity).
  assert (wr_HeadEventSeq (wt_Response w1) = 1%Z) as H1 by (vm_compute; reflexivity).
  assert (Store_Watch "a" (Some 1%Z) 1 demo_end.1 = (demo_resumed.1, Ok w)) as Hw by (vm_compute; reflexivity).
  assert (ep_state (as_persist demo_end.1) "a" = Some (3%Z, "3")) as Hep by (vm_compute; reflexivity).
  assert (wr_HeadEventSeq (wt_Response w1) ≤ 1 ≤ 3)%Z as Ha by (rewrite H1; lia).
  assert (3 - (if 2 <=? 0 then 1024 else 2) ≤ 1)%Z as Hcap by (simpl; lia).
  split; [exact H1|].
  exact (resume_after_reset demo_db false 2 _ demo_s1 "a" None 2 demo_open.1 w1 demo_end.2 demo_end.1 3 "3" 1 1 demo_resumed.1 w
    demo_db_inv demo_reach1 Hw1 Hm demo_calm Hep Ha Hcap Hw).
Defined.

(** A store whose next commit is reported as failed although it took effect. *)
Definition demo_faulty_db : Store := mkStore (st_db demo_db) (replicate 6 Good ++ [Bad (FaultText "disk") true]).
Definition demo_faulty : AStore Store := NewStore demo_faulty_db false 2.

Lemma demo_faulty_inv : ep_inv demo_faulty_db.
Proof. exact demo_db_inv. Qed.

Definition demo_failed : AStore Store * res Event := Publish 1 (Some demo_event) (Some demo_view) None demo_faulty.
Definition demo_failed_err : goerr := match demo_failed.2 with Err e => e | Ok _ => ErrText "" end.
Definition demo_failed_watch : AStore Store * res Watch := Store_Watch "a" (Some 0%Z) 1 demo_failed.1.

Lemma failed_publish_resets_witness :
  wr_Mode (wt_Response (watch_of demo_failed_watch.2)) = WATCH_MODE_RESET ∧
  errorsIs demo_failed_err ErrEventCommitOutcomeUnknown = true.
Proof.
  pose (w := watch_of demo_failed_watch.2). pose (st := demo_stream (ensure "a" demo_faulty).1).
  assert (ensure (ev_CodexId demo_event) demo_faulty = ((ensure "a" demo_faulty).1, Ok st)) as He by (vm_compute; reflexivity).
  assert (Publish 1 (Some demo_event) (Some demo_view) None demo_faulty = (demo_failed.1, Err demo_failed_err))
    as Hp by (vm_compute; reflexivity).
  assert (Store_Watch (ev_CodexId demo_event) (Some 0%Z) 1 demo_failed.1 = (demo_failed_watch.1, Ok w))
    as Hw by (vm_compute; reflexivity).
  assert (ev_CodexId demo_event ≠ EmptyString) as Hid by done.
  split; [|vm_compute; reflexivity].
  exact (proj1 (failed_publish_resets demo_faulty_db false 2 [] demo_faulty 1 demo_event demo_view None
    st _ demo_failed.1 demo_failed_err 0 1 _ w demo_faulty_inv (asteps_refl _) He Hp Hid Hw)).
Defined.

Lemma live_delivery_witness :
  length (published "a" demo_end.2) = 2 ∧ delivery "a" (wt_chan (watch_of demo_open.2)) (published "a" demo_end.2) demo_end.1.
Proof.
  assert (Store_Watch "a" None 2 demo_s1 = (demo_open.1, Ok (watch_of demo_open.2))) as Hw by (vm_compute; reflexivity).
  assert (asteps demo_open.1 demo_end.2 demo_end.1) as Hs by (apply demo_run; by repeat constructor).
  split; [vm_compute; reflexivity|].
  exact (proj1 (live_delivery demo_db false 2 _ demo_s1 "a" None 2 demo_open.1 _ demo_end.2 demo_end.1
    demo_db_inv demo_reach1 Hw Hs)).
Defined.

Definition demo_forget : AStore Store * res Event := Forget 9 "a" "r" (Some DeleteCodex) None demo_s2.
Definition demo_terminal : Event := forgotten_event 9 "a" "r" 4.
Definition chan_of (s : AStore Store) : chan := default (new_chan 0) (as_chans s !! 0).

Lemma forget_terminal_witness : ∃ ch', as_chans demo_forget.1 !! 0 = Some ch' ∧
  ch_sent ch' = ch_sent (chan_of demo_s2) ++ [demo_terminal] ∧ ch_closed ch' = true ∧
  (zlen (ch_buf ch') ≤ ch_cap (chan_of demo_s2))%Z.
Proof.
  assert (Forget 9 "a" "r" (Some DeleteCodex) None demo_s2 = (demo_forget.1, Ok demo_terminal)) as Hf by (vm_compute; reflexivity).
  assert (wmap demo_s2 "a" !! 1%Z = Some 0) as Hr by (vm_compute; reflexivity).
  assert (as_chans demo_s2 !! 0 = Some (chan_of demo_s2)) as Hc by (vm_compute; reflexivity).
  exact (proj1 (proj2 (proj2 (forget_terminal demo_db false 2 _ demo_s2 9 "a" "r" DeleteCodex None demo_forget.1
    demo_terminal 0 (chan_of demo_s2) None 1 demo_db_inv demo_reach2 DeleteCodex_destroys Hf
    (ex_intro _ 1%Z Hr) Hc)))).
Defined.

Definition demo_pub : AStore Store * res Event := Publish 1 (Some demo_event) (Some demo_view) None demo_s1.
Definition demo_restarted : AStore Store := NewStore (as_persist demo_pub.1) true 5.
Definition demo_restarted_view : AStore Store * res CurrentView := Store_CurrentView "a" demo_restarted.
Definition demo_restarted_watch : AStore Store * res Watch := Store_Watch "a" (Some 2%Z) 1 demo_restarted.

Lemma publish_survives_restart_witness :
  empty_view 2 = set_cv_HeadEventSeq (ev_EventSeq (set_ev_EventSeq 2 demo_event)) demo_view ∧
  wr_Mode (wt_Response (watch_of demo_restarted_watch.2)) = WATCH_MODE_RESUMED ∧
  wt_Replay (watch_of demo_restarted_watch.2) = [].
Proof.
  assert (Publish 1 (Some demo_event) (Some demo_view) None demo_s1 = (demo_pub.1, Ok (set_ev_EventSeq 2 demo_event)))
    as Hp by (vm_compute; reflexivity).
  assert (Store_CurrentView (ev_CodexId demo_event) (NewStore (as_persist demo_pub.1) true 5)
    = (demo_restarted_view.1, Ok (empty_view 2))) as Hv by (vm_compute; reflexivity).
  assert (Store_Watch (ev_CodexId demo_event) (Some (ev_EventSeq (set_ev_EventSeq 2 demo_event))) 1
    (NewStore (as_persist demo_pub.1) true 5) = (demo_restarted_watch.1, Ok (watch_of demo_restarted_watch.2)))
    as Hw by (vm_compute; reflexivity).
  exact (publish_survives_restart demo_db false 2 _ demo_s1 1 demo_event demo_view None demo_pub.1 _ true 5 _ _ _ _ 1
    demo_json_laws demo_db_inv demo_reach1 Hp Hv Hw).
Defined.

End Demo.
