(* ===== verification/Dispatcher.v ===== *)
(** * Dispatcher: request execution with deduplication (internal/gateway/dispatcher.go)

    One RPC at a time: validate the envelope, reserve a side-effecting request id in
    the deduplication store, call the backend, store the response.  The backend (22
    methods) and the store are interfaces; the store's contract is the class
    [DedupLaws], which the SQLite model satisfies.  Concurrent requests and crashes
    interleave between the three phases of [Dispatch], which is the unit of the
    step system at the end. *)

From stdpp Require Import base tactics numbers list gmap strings.
From S2P Require Import Prelude GoError GoStrings Sha256 Persistence.

(** ** Requests and responses *)

(** The cases of [Request.request]; [Rpc_Unknown] is a case this Host does not know. *)
Inductive rpc :=
| Rpc_GetHost | Rpc_ListDirectories | Rpc_ListSessionCandidates | Rpc_ListCodexes
| Rpc_CreateCodex | Rpc_ImportSession | Rpc_WatchCodex | Rpc_UnwatchCodex | Rpc_ListHistory
| Rpc_StartTurn | Rpc_InterruptTurn | Rpc_RespondApproval | Rpc_RespondUserInput
| Rpc_UnmanageCodex | Rpc_RenameCodex | Rpc_ForgetCodex | Rpc_GetWorkspace
| Rpc_ListWorkspaceEntries | Rpc_ReadWorkspaceTextFile | Rpc_WriteWorkspaceTextFile
| Rpc_UploadWorkspaceEntry | Rpc_DownloadWorkspaceEntry | Rpc_UploadImageAttachment
| Rpc_DownloadImageAttachment | Rpc_Unknown.

#[export] Instance rpc_eq_dec : EqDecision rpc.
Proof. solve_decision. Defined.

Section Messages.
Context {B V : Type}.

(** [remotev1.Request]; [B] is the type of the generated request bodies. *)
Record Request := mkRequest {
  rq_RequestId : string;
  rq_SentAtUnixMs : Z;
  rq_DeadlineUnixMs : Z;
  rq_Request : option (rpc * B);
}.

(** [Response.result]: the value of an RPC with its [Deduplicated] flag, or an error;
    [V] is the type of the generated response bodies. *)
Inductive response_result :=
| Result_Value (k : rpc) (v : V) (deduplicated : bool)
| Result_Error (e : Error).

Record Response := mkResponse {
  rs_RequestId : string;
  rs_RespondedAtUnixMs : Z;
  rs_Result : option response_result;
}.
End Messages.
Arguments Request B : clear implicits.
Arguments Response V : clear implicits.
Arguments response_result V : clear implicits.

#[export] Instance response_result_eq_dec {V} `{EqDecision V} : EqDecision (response_result V).
Proof. solve_decision. Defined.

#[export] Instance Response_eq_dec {V} `{EqDecision V} : EqDecision (Response V).
Proof. solve_decision. Defined.

(** ** Interfaces *)

(** [gateway.Backend]: [backend_call k id body] is the method of case [k], run with
    the request id in its context. *)
Class Backend (S B V : Type) := { backend_call : rpc → string → B → M S V }.

(** [gateway.DedupStore]. *)
Class DedupStore (P : Type) := {
  ds_BeginRequest : Z → string → string → string → M P (DedupState * string);
  ds_CompleteRequest : Z → string → string → M P unit;
}.

(** protobuf: the deterministic wire encoding of a request and the JSON of a response. *)
Class ProtoRPC (B V : Type) := {
  MarshalDeterministic : Request B → res string;
  MarshalResponse : Response V → res string;
  UnmarshalResponse : string → res (Response V);
}.

Class ProtoRPCLaws (B V : Type) `{ProtoRPC B V} : Prop := {
  UnmarshalResponse_Marshal r raw : MarshalResponse r = Ok raw → UnmarshalResponse raw = Ok r;
}.

(** A deduplication row: operation, fingerprint and the completed response. *)
Definition dedup_row : Type := string * string * option string.

(** What the dispatcher relies on: a request id is reserved at most once, a
    reservation is never lost, and a completed response never changes. *)
Class DedupLaws (P : Type) `{DedupStore P} := {
  ds_row : P → string → option dedup_row;
  ds_begin p now id op fp p' r :
    ds_BeginRequest now id op fp p = (p', r) →
    (∀ j, j ≠ id → ds_row p' j = ds_row p j) ∧
    match r with
    | Ok (DedupStarted, _) => ds_row p id = None ∧ ds_row p' id = Some (op, fp, None)
    | Ok (DedupCompleted, resp) => ds_row p id = Some (op, fp, Some resp) ∧ ds_row p' id = ds_row p id
    | Ok (DedupInProgress, _) => False
    | Err e =>
        (ds_row p' id = ds_row p id ∨ (ds_row p id = None ∧ ds_row p' id = Some (op, fp, None))) ∧
        (errorsIs e ErrRequestConflict = true →
           ∃ op' fp' resp, ds_row p id = Some (op', fp', resp) ∧ (op' ≠ op ∨ fp' ≠ fp)) ∧
        (errorsIs e ErrRequestInProgress = true → ds_row p id = Some (op, fp, None))
    end;
  ds_complete p now id resp p' r :
    ds_CompleteRequest now id resp p = (p', r) →
    (∀ j, j ≠ id → ds_row p' j = ds_row p j) ∧
    match r with
    | Ok _ => ∃ op fp, ds_row p id = Some (op, fp, None) ∧ ds_row p' id = Some (op, fp, Some resp)
    | Err _ => ds_row p' id = ds_row p id ∨
        ∃ op fp, ds_row p id = Some (op, fp, None) ∧ ds_row p' id = Some (op, fp, Some resp)
    end;
}.

(** ** The operation table *)

(** The name of an RPC and whether it has side effects. *)
Definition operation (k : rpc) : string * bool :=
  match k with
  | Rpc_GetHost => ("get_host", false)
  | Rpc_ListDirectories => ("list_directories", false)
  | Rpc_ListSessionCandidates => ("list_session_candidates", false)
  | Rpc_ListCodexes => ("list_codexes", false)
  | Rpc_CreateCodex => ("create_codex", true)
  | Rpc_ImportSession => ("import_session", true)
  | Rpc_WatchCodex => ("watch_codex", false)
  | Rpc_UnwatchCodex => ("unwatch_codex", false)
  | Rpc_ListHistory => ("list_history", false)
  | Rpc_StartTurn => ("start_turn", true)
  | Rpc_InterruptTurn => ("interrupt_turn", true)
  | Rpc_RespondApproval => ("respond_approval", true)
  | Rpc_RespondUserInput => ("respond_user_input", true)
  | Rpc_UnmanageCodex => ("unmanage_codex", true)
  | Rpc_RenameCodex => ("rename_codex", true)
  | Rpc_ForgetCodex => ("forget_codex", true)
  | Rpc_GetWorkspace => ("get_workspace", false)
  | Rpc_ListWorkspaceEntries => ("list_workspace_entries", false)
  | Rpc_ReadWorkspaceTextFile => ("read_workspace_text_file", false)
  | Rpc_WriteWorkspaceTextFile => ("write_workspace_text_file", true)
  | Rpc_UploadWorkspaceEntry => ("upload_workspace_entry", true)
  | Rpc_DownloadWorkspaceEntry => ("download_workspace_entry", false)
  | Rpc_UploadImageAttachment => ("upload_image_attachment", true)
  | Rpc_DownloadImageAttachment => ("download_image_attachment", false)
  | Rpc_Unknown => ("unknown", false)
  end.

Definition side_effect (k : rpc) : bool := (operation k).2.

(** Whether [call] has a case for the RPC. *)
Definition dispatched (k : rpc) : bool :=
  match k with
  | Rpc_WatchCodex | Rpc_UnwatchCodex | Rpc_Unknown => false
  | _ => true
  end.

(** The responses that carry a [Deduplicated] field. *)
Definition has_deduplicated (k : rpc) : bool :=
  match k with
  | Rpc_CreateCodex | Rpc_ImportSession | Rpc_StartTurn | Rpc_InterruptTurn | Rpc_RespondApproval
  | Rpc_RespondUserInput | Rpc_UnmanageCodex | Rpc_RenameCodex | Rpc_ForgetCodex
  | Rpc_UploadImageAttachment | Rpc_WriteWorkspaceTextFile | Rpc_UploadWorkspaceEntry => true
  | _ => false
  end.

(** ** Dispatch *)

(** The clock readings of one dispatch. *)
Record clock := mkClock {
  ck_validate : Z;
  ck_begin : Z;
  ck_reply : Z;
  ck_complete : Z;
}.

(** The dispatcher's two collaborators; a [nil] one is absent. *)
Record wiring := mkWiring { w_Backend : bool; w_Dedup : bool }.

Record DState (P S : Type) := mkDState { d_dedup : P; d_backend : S }.
Arguments mkDState {P S} _ _.
Arguments d_dedup {P S} _.
Arguments d_backend {P S} _.

Section Dispatch.
Context {P S B V : Type} `{Backend S B V} `{DedupStore P} `{ProtoRPC B V}.

Definition errorResponse (now : Z) (id : string) (code : ErrorCode) (message : string) (retry : bool) : Response V :=
  mkResponse id now (Some (Result_Error (mkError code message retry ∅))).

Definition requestID (req : option (Request B)) : string :=
  match req with None => "" | Some req => rq_RequestId req end.

Definition validateRequest (now reply : Z) (req : option (Request B)) : option (Response V) :=
  match req with
  | None => Some (errorResponse reply (requestID req) ERROR_CODE_INVALID_REQUEST "request_id is required" false)
  | Some rq =>
      if str_empty (rq_RequestId rq) then
        Some (errorResponse reply (requestID req) ERROR_CODE_INVALID_REQUEST "request_id is required" false)
      else match rq_Request rq with
      | None => Some (errorResponse reply (rq_RequestId rq) ERROR_CODE_INVALID_REQUEST "request payload is required" false)
      | Some _ =>
          if (rq_DeadlineUnixMs rq <? 0)%Z || ((0 <? rq_DeadlineUnixMs rq)%Z && (rq_DeadlineUnixMs rq <=? now)%Z) then
            Some (errorResponse reply (rq_RequestId rq) ERROR_CODE_DEADLINE_EXCEEDED "request deadline has elapsed" true)
          else None
      end
  end.

(** The response of a finished backend call; [ctxErr] is [ctx.Err()]. *)
Definition call_result (now : Z) (id : string) (ctxErr : option goerr) (k : rpc) (r : res V) : Response V :=
  match r with
  | Ok v => mkResponse id now (Some (Result_Value k v false))
  | Err err =>
      if errorsIs err DeadlineExceeded ||
         match ctxErr with Some e => errorsIs e DeadlineExceeded | None => false end then
        mkResponse id now (Some (Result_Error
          (mkError ERROR_CODE_DEADLINE_EXCEEDED "request deadline has elapsed" true ∅)))
      else match errorsAsRPC err with
      | Some detail => mkResponse id now (Some (Result_Error detail))
      | None => mkResponse id now (Some (Result_Error (mkError ERROR_CODE_INTERNAL_ERROR (error_text err) true ∅)))
      end
  end.

Definition call (now : Z) (ctxErr : option goerr) (req : Request B) : M S (Response V) := λ s,
  match rq_Request req with
  | Some (k, body) =>
      if dispatched k then
        let '(s, r) := backend_call k (rq_RequestId req) body s in
        (s, Ok (call_result now (rq_RequestId req) ctxErr k r))
      else (s, Ok (errorResponse now (rq_RequestId req) ERROR_CODE_INVALID_REQUEST "unsupported request" false))
  | None => (s, Ok (errorResponse now (rq_RequestId req) ERROR_CODE_INVALID_REQUEST "unsupported request" false))
  end.

Definition markDeduplicated (r : Response V) : Response V :=
  match rs_Result r with
  | Some (Result_Value k v _) =>
      if has_deduplicated k
      then mkResponse (rs_RequestId r) (rs_RespondedAtUnixMs r) (Some (Result_Value k v true)) else r
  | _ => r
  end.

(** The request whose encoding is fingerprinted. *)
Definition fingerprintRequest (req : Request B) : Request B := mkRequest "" 0 0 (rq_Request req).

Definition fingerprint (req : Request B) : res string := Sum256 <$> MarshalDeterministic (fingerprintRequest req).

(** What [Dispatch] does up to the backend call: answer, or execute, with or
    without a reservation to complete afterwards. *)
Inductive decision :=
| Reply (r : Response V)
| Execute (reserved : bool).

Definition prepare (wi : wiring) (ck : clock) (req : Request B) : M P decision :=
  match validateRequest (ck_validate ck) (ck_reply ck) (Some req) with
  | Some invalid => mret (Reply invalid)
  | None =>
  let id := rq_RequestId req in
  if negb (w_Backend wi) then
    mret (Reply (errorResponse (ck_reply ck) id ERROR_CODE_HOST_NOT_READY "Host backend is not ready" true))
  else
  let '(op, sideEffect) := match rq_Request req with Some (k, _) => operation k | None => ("unknown", false) end in
  if bool_decide (op = "watch_codex") || bool_decide (op = "unwatch_codex") then
    fail_msg (op +:+ " is connection-scoped")
  else if negb sideEffect then mret (Execute false)
  else if negb (w_Dedup wi) then
    mret (Reply (errorResponse (ck_reply ck) id ERROR_CODE_HOST_NOT_READY "request deduplication is unavailable" true))
  else
    sum ← of_res (fingerprint req);
    begun ← attempt (ds_BeginRequest (ck_begin ck) id op sum);
    match begun with
    | Err err =>
        if errorsIs err ErrRequestConflict then
          mret (Reply (errorResponse (ck_reply ck) id ERROR_CODE_CONFLICT
            "request_id was already used with different payload" false))
        else if errorsIs err ErrRequestInProgress then
          mret (Reply (errorResponse (ck_reply ck) id ERROR_CODE_CONFLICT
            "request outcome is unknown; IN_PROGRESS operation will not be replayed" false))
        else mret (Reply (errorResponse (ck_reply ck) id ERROR_CODE_INTERNAL_ERROR (error_text err) true))
    | Ok (DedupCompleted, raw) =>
        resp ← of_res (UnmarshalResponse raw);
        mret (Reply (markDeduplicated resp))
    | Ok _ => mret (Execute true)
    end
  end.

(** After the backend call: store the response under the reservation. *)
Definition complete (ck : clock) (req : Request B) (resp : Response V) : M P (Response V) :=
  raw ← of_res (MarshalResponse resp);
  _ ← ds_CompleteRequest (ck_complete ck) (rq_RequestId req) raw;
  mret resp.

Definition set_d_dedup (p : P) (s : DState P S) : DState P S := mkDState p (d_backend s).
Definition set_d_backend (b : S) (s : DState P S) : DState P S := mkDState (d_dedup s) b.

Definition Dispatch (wi : wiring) (ck : clock) (ctxErr : option goerr) (req : option (Request B))
    : M (DState P S) (Response V) :=
  match req with
  | None => mret (errorResponse (ck_reply ck) "" ERROR_CODE_INVALID_REQUEST "request_id is required" false)
  | Some req =>
      d ← zoom d_dedup set_d_dedup (prepare wi ck req);
      match d with
      | Reply r => mret r
      | Execute reserved =>
          resp ← zoom d_backend set_d_backend (call (ck_reply ck) ctxErr req);
          if reserved : bool then zoom d_dedup set_d_dedup (complete ck req resp) else mret resp
      end
  end.
End Dispatch.
Arguments decision V : clear implicits.

(** ** Concurrent requests and crashes

    Requests are served concurrently: between its three phases a dispatch may be
    overtaken by others, and the Host may stop, which loses every request in flight
    and keeps the database. *)
Section System.
Context {P S B V : Type} {HB : Backend S B V} {HD : DedupStore P} {HR : ProtoRPC B V}.

(** A request in flight: prepared, or executed with its response not yet stored. *)
Inductive thread :=
| TExecute (req : Request B) (reserved : bool)
| TComplete (req : Request B) (resp : Response V).

(** The RPCs that change something for other clients or on the machine. *)
Definition mutates (k : rpc) : bool :=
  match k with
  | Rpc_CreateCodex | Rpc_ImportSession | Rpc_StartTurn | Rpc_InterruptTurn | Rpc_RespondApproval
  | Rpc_RespondUserInput | Rpc_UnmanageCodex | Rpc_RenameCodex | Rpc_ForgetCodex
  | Rpc_WriteWorkspaceTextFile | Rpc_UploadWorkspaceEntry | Rpc_UploadImageAttachment => true
  | _ => false
  end.

(** Every call of a backend method, newest first. *)
Notation call_log := (list (string * rpc)).

(** The backend with a note of each of its calls. *)
Definition counting : Backend (S * call_log) B V := {|
  backend_call k id body := λ w, let '(b, r) := backend_call k id body w.1 in ((b, (id, k) :: w.2), r)
|}.

Record system := mkSystem {
  y_dedup : P;
  y_backend : S;
  y_threads : list thread;
  y_log : call_log;
}.

Inductive sys_step : system → system → Prop :=
| sys_arrive y wi ck req p r :
    prepare wi ck req (y_dedup y) = (p, r) →
    sys_step y (mkSystem p (y_backend y)
      (match r with Ok (Execute b) => TExecute req b :: y_threads y | _ => y_threads y end) (y_log y))
| sys_execute y now ctxErr req reserved l1 l2 b log resp :
    y_threads y = l1 ++ TExecute req reserved :: l2 →
    call (H := counting) now ctxErr req (y_backend y, y_log y) = ((b, log), Ok resp) →
    sys_step y (mkSystem (y_dedup y) b
      (l1 ++ (if reserved : bool then [TComplete req resp] else []) ++ l2) log)
| sys_complete y ck req resp l1 l2 p r :
    y_threads y = l1 ++ TComplete req resp :: l2 →
    complete ck req resp (y_dedup y) = (p, r) →
    sys_step y (mkSystem p (y_backend y) (l1 ++ l2) (y_log y))
| sys_crash y b : sys_step y (mkSystem (y_dedup y) b [] (y_log y)).

(** How often the backend ran, or is about to run, a mutating request with this id. *)
Definition executions (id : string) (log : call_log) : nat := length (filter (λ e, e.1 = id ∧ mutates e.2 = true) log).
Definition planned (t : thread) : option (string * rpc) :=
  match t with TExecute req _ => (λ kb, (rq_RequestId req, kb.1)) <$> rq_Request req | _ => None end.
Definition about_to (id : string) (l : list thread) : nat := executions id (omap planned l).

Lemma mutates_side_effect k : mutates k = side_effect k.
Proof. by destruct k. Qed.

(** A call of the dispatcher calls the backend at most once, with the request's id. *)
Lemma call_noted now ctxErr req (b b' : S) (log log' : call_log) r :
  call (H := counting) now ctxErr req (b, log) = ((b', log'), r) →
  log' = log ∨ ∃ k body, rq_Request req = Some (k, body) ∧ log' = (rq_RequestId req, k) :: log.
Proof.
  unfold call. destruct (rq_Request req) as [[k body]|]; [|intros [= <- <- _]; by left].
  destruct (dispatched k); [|intros [= <- <- _]; by left]. cbn. destruct (backend_call k _ _ b) as [b1 r1].
  intros [= <- <- _]. right. by exists k, body.
Qed.

Context {HDL : DedupLaws P}.

(** What [prepare] decided, and what it did to the rows. *)
Lemma prepare_spec wi ck req p p' r :
  prepare wi ck req p = (p', r) →
  (∀ j, j ≠ rq_RequestId req → ds_row p' j = ds_row p j) ∧
  (ds_row p (rq_RequestId req) ≠ None → ds_row p' (rq_RequestId req) = ds_row p (rq_RequestId req)) ∧
  (r = Ok (Execute true) → ds_row p (rq_RequestId req) = None ∧ ds_row p' (rq_RequestId req) ≠ None) ∧
  (r = Ok (Execute false) → ∃ k body, rq_Request req = Some (k, body) ∧ side_effect k = false).
Proof.
  unfold prepare. destruct (validateRequest _ _ _) eqn:Ev; [by intros [= <- <-]|].
  destruct (w_Backend wi); simpl; [|by intros [= <- <-]].
  destruct (rq_Request req) as [[k body]|] eqn:Ek.
  2: { simpl in Ev. rewrite Ek in Ev. by destruct (str_empty (rq_RequestId req)). }
  unfold side_effect. destruct (operation k) as [op se] eqn:Eop. simpl.
  destruct (_ || _); [by intros [= <- <-]|].
  destruct se; simpl; [|intros [= <- <-]; split_and!; try done; intros _; exists k, body; by rewrite Eop].
  destruct (w_Dedup wi); simpl; [|by intros [= <- <-]].
  intros H. destruct (fingerprint req) as [fp|e]; [|by injection H as <- <-].
  unfold of_res, mbind, M_bind, attempt in H.
  destruct (ds_BeginRequest _ _ _ _ p) as [p1 rb] eqn:Eb. apply ds_begin in Eb as [Hj Hb].
  assert (p' = p1) as ->.
  { destruct rb as [[[] raw]|e]; [| |by injection H|].
    - by injection H.
    - destruct (UnmarshalResponse raw); by injection H.
    - repeat case_match; by injection H. }
  split; [done|]. destruct rb as [[[] raw]|e].
  - destruct Hb as [Hn Hs]. injection H as <-. split_and!; [done| |done].
    intros _. split; [done|congruence].
  - destruct Hb as [Hs He]. split; [done|]. destruct (UnmarshalResponse raw); by injection H as <-.
  - done.
  - destruct Hb as [Hr _]. split; [|repeat case_match; by injection H as <-].
    destruct Hr as [|[? _]]; done.
Qed.

Lemma complete_spec ck req resp p p' r :
  complete ck req resp p = (p', r) →
  ∀ j, ds_row p j ≠ None → ∃ op fp x y, ds_row p j = Some (op, fp, x) ∧ ds_row p' j = Some (op, fp, y).
Proof.
  unfold complete, of_res, mbind, M_bind. intros H j Hj. destruct (ds_row p j) as [[[op fp] x]|] eqn:E; [|done].
  destruct (MarshalResponse resp) as [raw|e]; [|injection H as <- <-; by eexists _, _, _, _].
  destruct (ds_CompleteRequest _ _ _ p) as [p1 rc] eqn:Ec. assert (p' = p1) as ->.
  { destruct rc; by injection H. }
  apply ds_complete in Ec as [Hne Hc]. destruct (decide (j = rq_RequestId req)) as [->|Hj'].
  - destruct rc as [[]|e].
    + destruct Hc as (op'&fp'&Ho&Hn). rewrite E in Ho. simplify_eq. by eexists _, _, _, _.
    + destruct Hc as [Hn|(op'&fp'&Ho&Hn)]; [rewrite E in Hn; by eexists _, _, _, _|].
      rewrite E in Ho. simplify_eq. by eexists _, _, _, _.
  - exists op, fp, x, x. split; [done|]. by rewrite Hne.
Qed.

(** ** At most once *)

(** Relative to the rows [p0] the run started with: a request id is executed at most
    once in total, never if it was reserved before, and only with a row behind it. *)
Definition once (p0 : P) (y : system) : Prop := ∀ id,
  let n := executions id (y_log y) + about_to id (y_threads y) in
  (ds_row (y_dedup y) id = None → n = 0 ∧ ds_row p0 id = None) ∧
  (ds_row p0 id = None → n ≤ 1) ∧ (ds_row p0 id ≠ None → n = 0).

Lemma executions_app id l1 l2 : executions id (l1 ++ l2) = executions id l1 + executions id l2.
Proof. unfold executions. by rewrite filter_app, length_app. Qed.

Lemma executions_cons id e l : executions id (e :: l) = (if decide (e.1 = id ∧ mutates e.2 = true) then 1 else 0) + executions id l.
Proof. unfold executions. rewrite filter_cons. by destruct (decide _). Qed.

Lemma about_to_app id l1 l2 : about_to id (l1 ++ l2) = about_to id l1 + about_to id l2.
Proof. unfold about_to. by rewrite omap_app, executions_app. Qed.

Lemma about_to_execute id req b l :
  about_to id (TExecute req b :: l) =
    match rq_Request req with
    | Some (k, _) => if decide (rq_RequestId req = id ∧ mutates k = true) then 1 else 0
    | None => 0
    end + about_to id l.
Proof. unfold about_to. simpl. destruct (rq_Request req) as [[k body]|]; [|done]. exact (executions_cons id (rq_RequestId req, k) _). Qed.

(** A request that [prepare] lets through counts only when it got the reservation. *)
Lemma prepare_counts wi ck req p p' r id l :
  prepare wi ck req p = (p', r) →
  let l' := match r with Ok (Execute b) => TExecute req b :: l | _ => l end in
  about_to id l' = about_to id l ∨
  (r = Ok (Execute true) ∧ rq_RequestId req = id ∧ about_to id l' = 1 + about_to id l).
Proof.
  intros (_&_&_&Hf)%prepare_spec. destruct r as [[|b]|]; [by left| |by left]. cbn zeta iota.
  rewrite about_to_execute. destruct (rq_Request req) as [[k body]|] eqn:Ek; [|by left].
  case_decide as Hd; [|by left]. destruct Hd as [Hid Hm]. destruct b; [by right|].
  destruct (Hf eq_refl) as (k'&body'&[= <- <-]&Hs). rewrite mutates_side_effect in Hm. congruence.
Qed.

Lemma sys_step_once p0 y y' : sys_step y y' → once p0 y → once p0 y'.
Proof.
  intros Hstep Ho id. specialize (Ho id) as (H1&H2&H3).
  destruct Hstep as [y wi ck req p r Hp|y now ctxErr req reserved l1 l2 b log resp Hl Hcall|y ck req resp l1 l2 p r Hl Hc|y b];
    simpl in *.
  - pose proof (prepare_counts wi ck req _ p r id (y_threads y) Hp) as Hab. apply prepare_spec in Hp as (Hj&Hk&Hx&_). cbv zeta in Hab.
    destruct (decide (id = rq_RequestId req)) as [->|Hne]; [|rewrite Hj by done; destruct Hab as [->|(_&<-&_)]; done].
    destruct Hab as [->|(Hr&_&->)].
    + split_and!; [|done|done]. intros Hn. apply H1. destruct (ds_row (y_dedup y) (rq_RequestId req)); [|done].
      by rewrite Hk in Hn.
    + destruct (Hx Hr) as [Hn Hs]. destruct (H1 Hn) as [Hz Hp0]. split_and!; [done|lia|done].
  - assert (executions id log + about_to id (l1 ++ (if reserved then [TComplete req resp] else []) ++ l2) ≤
      executions id (y_log y) + about_to id (y_threads y)) as Hle.
    { rewrite Hl, !about_to_app. replace (about_to id (if reserved then [TComplete req resp] else [])) with 0 by by destruct reserved.
      rewrite about_to_execute. apply call_noted in Hcall as [-> |(k&body&->&->)]; [lia|]. rewrite executions_cons. simpl. lia. }
    split_and!; intros Hn; [destruct (H1 Hn); split; [lia|done]|specialize (H2 Hn); lia|specialize (H3 Hn); lia].
  - rewrite Hl, about_to_app in *. unfold about_to in *. simpl in *. split_and!; [|done|done].
    intros Hn. apply H1. destruct (ds_row (y_dedup y) id) eqn:E; [|done].
    destruct (complete_spec _ _ _ _ _ _ Hc id) as (?&?&?&?&_&?); congruence.
  - split_and!.
    + intros Hn. destruct (H1 Hn). split; [|done]. change (about_to id []) with 0. lia.
    + intros Hn. specialize (H2 Hn). change (about_to id []) with 0. lia.
    + intros Hn. specialize (H3 Hn). change (about_to id []) with 0. lia.
Qed.

(** The state a Host starts in, over an existing database. *)
Definition sys_start (p : P) (b : S) : system := mkSystem p b [] [].

(** C1: however requests interleave, whatever fails in the database, and however
    often the Host stops and restarts in the middle, at most one call of a mutating
    backend method is made for a request id, and none for an id that was already
    reserved.  The calls are counted at the backend, whether or not the dispatcher made a
    reservation for them. *)
Theorem at_most_once p b y id :
  rtc sys_step (sys_start p b) y →
  executions id (y_log y) ≤ 1 ∧ (ds_row p id ≠ None → executions id (y_log y) = 0).
Proof.
  intros Hs. assert (once p y) as Ho.
  { assert (once p (sys_start p b)) as H0 by (intros i; split_and!; done || (intros _; unfold about_to, executions; simpl; lia)).
    revert H0. induction Hs as [|y1 y2 y3 H12 _ IH]; [done|]. intros H1. apply IH. by eapply sys_step_once. }
  destruct (Ho id) as (_&H2&H3). destruct (ds_row p id) eqn:E.
  - assert (Hz := H3 ltac:(done)). simpl in Hz. split; intros; lia.
  - specialize (H2 eq_refl). simpl in H2. split; [lia|done].
Qed.

(** ** Replays and conflicts *)

(** A request with side effects, well formed and in time, as the store sees it. *)
Definition effectful (ck : clock) (req : Request B) (op fp : string) : Prop :=
  validateRequest (V := V) (ck_validate ck) (ck_reply ck) (Some req) = None ∧
  (∃ k body, rq_Request req = Some (k, body) ∧ operation k = (op, true)) ∧
  fingerprint req = Ok fp.

Definition ready : wiring := mkWiring true true.

Lemma operation_not_watch k op : operation k = (op, true) →
  bool_decide (op = "watch_codex") || bool_decide (op = "unwatch_codex") = false.
Proof. destruct k; intros [= <-]; done. Qed.

(** [prepare] of an effectful request is decided by the store. *)
Lemma prepare_effectful ck req op fp p :
  effectful ck req op fp →
  prepare ready ck req p =
    let '(p', rb) := ds_BeginRequest (ck_begin ck) (rq_RequestId req) op fp p in
    (p', match rb with
         | Err err =>
             Ok (Reply (errorResponse (ck_reply ck) (rq_RequestId req)
               (if errorsIs err ErrRequestConflict || errorsIs err ErrRequestInProgress
                then ERROR_CODE_CONFLICT else ERROR_CODE_INTERNAL_ERROR)
               (if errorsIs err ErrRequestConflict then "request_id was already used with different payload"
                else if errorsIs err ErrRequestInProgress
                     then "request outcome is unknown; IN_PROGRESS operation will not be replayed"
                     else error_text err)
               (negb (errorsIs err ErrRequestConflict || errorsIs err ErrRequestInProgress))))
         | Ok (DedupCompleted, raw) => (λ resp, Reply (markDeduplicated resp)) <$> UnmarshalResponse raw
         | Ok _ => Ok (Execute true)
         end).
Proof.
  intros (Hv&(k&body&Hk&Hop)&Hf). unfold prepare. rewrite Hv, Hk, Hop, (operation_not_watch k op Hop), Hf. simpl.
  unfold of_res, mbind, M_bind, attempt.
  destruct (ds_BeginRequest _ _ _ _ p) as [p' [[[] raw]|err]]; try done.
  - by destruct (UnmarshalResponse raw).
  - by destruct (errorsIs err ErrRequestConflict), (errorsIs err ErrRequestInProgress).
Qed.

(** What a completed row holds is what the dispatch returned. *)
Lemma dispatch_stores ck ctxErr req op fp s s' resp raw :
  effectful ck req op fp → ds_row (d_dedup s) (rq_RequestId req) = None →
  Dispatch ready ck ctxErr (Some req) s = (s', Ok resp) →
  ds_row (d_dedup s') (rq_RequestId req) = Some (op, fp, Some raw) →
  MarshalResponse resp = Ok raw.
Proof.
  intros He Hnone. unfold Dispatch, zoom, mbind, M_bind. rewrite (prepare_effectful ck req op fp) by done.
  destruct (ds_BeginRequest _ _ _ _ (d_dedup s)) as [p rb] eqn:Eb. apply ds_begin in Eb as [Hj Hb].
  destruct rb as [[[] raw']|err].
  - destruct Hb as [_ Hs]. destruct (call _ _ _ _) as [b [resp'|e]]; simpl; [|done].
    unfold complete, of_res, mbind, M_bind. destruct (MarshalResponse resp') as [raw'' | e] eqn:Em; [|done].
    simpl. destruct (ds_CompleteRequest _ _ _ p) as [p' [[]|e]] eqn:Ec; [|done].
    apply ds_complete in Ec as [_ (op'&fp'&_&Hc)]. intros [= <- <-]. simpl. rewrite Hc. congruence.
  - destruct Hb as [Hb _]. congruence.
  - done.
  - destruct Hb as ([Hs|[_ Hs]]&_&_); intros [= <- <-]; simpl; rewrite Hs; congruence.
Qed.

(** The value in a response is that of a mutating method. *)
Definition mutating_value (resp : Response V) : Prop :=
  ∀ k v d, rs_Result resp = Some (Result_Value k v d) → mutates k = true.

Lemma call_kind now ctxErr req (b b' : S) resp k body :
  rq_Request req = Some (k, body) → mutates k = true → call now ctxErr req b = (b', Ok resp) → mutating_value resp.
Proof.
  intros Hk Hm. unfold call. rewrite Hk. destruct (dispatched k); [|intros [= _ <-]; by intros ???].
  destruct (backend_call k _ body b) as [b1 r]. intros [= _ <-] k' v d. unfold call_result.
  destruct r as [v0|e]; [intros [= <- _ _]; done|]. destruct (_ || _); [done|]. by destruct (errorsAsRPC e).
Qed.

Lemma dispatch_kind ck ctxErr req op fp s s' resp :
  effectful ck req op fp → Dispatch ready ck ctxErr (Some req) s = (s', Ok resp) →
  ds_row (d_dedup s) (rq_RequestId req) = None → mutating_value resp.
Proof.
  intros He H Hnone. pose proof He as (_&(k&body&Hk&Hop)&_).
  assert (mutates k = true) as Hm by (rewrite mutates_side_effect; unfold side_effect; by rewrite Hop).
  unfold Dispatch, zoom, mbind, M_bind in H. rewrite (prepare_effectful ck req op fp) in H by done.
  destruct (ds_BeginRequest _ _ _ _ (d_dedup s)) as [p rb] eqn:Eb. apply ds_begin in Eb as [_ Hb].
  destruct rb as [[[] raw']|err].
  - cbn in H. destruct (call _ _ req (d_backend s)) as [b [resp'|e]] eqn:Ec; [|done]. cbn in H. unfold complete, of_res, mbind, M_bind in H.
    destruct (MarshalResponse resp'); [|done]. cbn in H. destruct (ds_CompleteRequest _ _ _ p) as [p' [[]|e]]; [|done].
    injection H as _ <-. by eapply call_kind.
  - destruct Hb as [Hb _]. congruence.
  - done.
  - injection H as _ <-. by intros ???.
Qed.

Lemma markDeduplicated_mutating resp : mutating_value resp →
  markDeduplicated resp = mkResponse (rs_RequestId resp) (rs_RespondedAtUnixMs resp)
    (match rs_Result resp with Some (Result_Value k v _) => Some (Result_Value k v true) | result => result end).
Proof.
  intros Hm. destruct resp as [id at_ [[k v d|e]|]]; [|done..]. unfold markDeduplicated. cbn.
  replace (has_deduplicated k) with true; [done|]. specialize (Hm k v d eq_refl). by destruct k.
Qed.

(** A request whose id is already reserved never reaches the backend and changes
    no row: it is answered CONFLICT when the payload differs, CONFLICT when the first
    outcome is unknown, the stored response marked as deduplicated when the first is
    completed, or a retryable internal error when the store cannot be read. *)
Theorem reserved_never_executes ck ctxErr req op fp op0 fp0 st s s' r :
  effectful ck req op fp → ds_row (d_dedup s) (rq_RequestId req) = Some (op0, fp0, st) →
  Dispatch ready ck ctxErr (Some req) s = (s', r) →
  d_backend s' = d_backend s ∧ (∀ j, ds_row (d_dedup s') j = ds_row (d_dedup s) j) ∧
  ((∃ msg, r = Ok (errorResponse (ck_reply ck) (rq_RequestId req) ERROR_CODE_CONFLICT msg false) ∧
      (op0 ≠ op ∨ fp0 ≠ fp ∨ st = None)) ∨
   (∃ raw, op0 = op ∧ fp0 = fp ∧ st = Some raw ∧ r = markDeduplicated <$> UnmarshalResponse raw) ∨
   (∃ msg, r = Ok (errorResponse (ck_reply ck) (rq_RequestId req) ERROR_CODE_INTERNAL_ERROR msg true))).
Proof.
  intros He Hrow. unfold Dispatch, zoom, mbind, M_bind. rewrite (prepare_effectful ck req op fp) by done.
  destruct (ds_BeginRequest _ _ _ _ (d_dedup s)) as [p rb] eqn:Eb. apply ds_begin in Eb as [Hj Hb].
  assert (Hrow' : ds_row p (rq_RequestId req) = Some (op0, fp0, st) → ∀ j, ds_row p j = ds_row (d_dedup s) j).
  { intros Hp j. destruct (decide (j = rq_RequestId req)) as [->|]; [congruence|auto]. }
  destruct rb as [[[] raw]|err].
  - destruct Hb as [Hb _]. congruence.
  - destruct Hb as [Hb Hb']. rewrite Hrow in Hb. simplify_eq. rewrite Hrow in Hb'. specialize (Hrow' Hb').
    destruct (UnmarshalResponse raw) as [resp|e] eqn:Eu; simpl; intros [= <- <-]; simpl; split_and!; try done;
      right; left; exists raw; by rewrite Eu.
  - done.
  - destruct Hb as (Hs&Hc&Hi). assert (ds_row p (rq_RequestId req) = Some (op0, fp0, st)) as Hp.
    { destruct Hs as [->|[? _]]; congruence. }
    specialize (Hrow' Hp). intros [= <- <-]. simpl. split_and!; try done.
    destruct (errorsIs err ErrRequestConflict) eqn:E1; simpl.
    + left. eexists. split; [done|]. destruct Hc as (op'&fp'&resp'&Hr&Hd); [done|].
      rewrite Hrow in Hr. simplify_eq. tauto.
    + destruct (errorsIs err ErrRequestInProgress) eqn:E2; simpl.
      * left. eexists. split; [done|]. rewrite Hi in Hrow by done. simplify_eq. auto.
      * right. right. eauto.
Qed.

(** C22: the response a first execution returned is the response every repetition
    gets: if an unreserved request was dispatched with a response and its row is
    completed, then later, as long as the row stands, the same request is answered, without
    running the backend, with that response, its value marked as deduplicated.  Only when
    the store reports an error for this very lookup the answer is that error, as a
    retryable one. *)
Theorem dispatch_replay ck1 ctx1 req op fp s s1 resp raw ck2 ctx2 req2 s2 s3 r :
  ProtoRPCLaws B V →
  effectful ck1 req op fp → ds_row (d_dedup s) (rq_RequestId req) = None →
  Dispatch ready ck1 ctx1 (Some req) s = (s1, Ok resp) →
  ds_row (d_dedup s1) (rq_RequestId req) = Some (op, fp, Some raw) →
  ds_row (d_dedup s2) (rq_RequestId req) = Some (op, fp, Some raw) →
  effectful ck2 req2 op fp → rq_RequestId req2 = rq_RequestId req →
  Dispatch ready ck2 ctx2 (Some req2) s2 = (s3, r) →
  d_backend s3 = d_backend s2 ∧
  match (ds_BeginRequest (ck_begin ck2) (rq_RequestId req) op fp (d_dedup s2)).2 with
  | Ok _ => r = Ok (mkResponse (rs_RequestId resp) (rs_RespondedAtUnixMs resp)
                     (match rs_Result resp with Some (Result_Value k v _) => Some (Result_Value k v true) | result => result end))
  | Err e => r = Ok (errorResponse (ck_reply ck2) (rq_RequestId req) ERROR_CODE_INTERNAL_ERROR (error_text e) true)
  end.
Proof.
  intros HL He Hnone Hd Hrow Hrow2 He2 Hid Hd2.
  assert (MarshalResponse resp = Ok raw) as Hm
    by exact (dispatch_stores ck1 ctx1 req op fp s s1 resp raw He Hnone Hd Hrow).
  apply UnmarshalResponse_Marshal in Hm. pose proof (dispatch_kind ck1 ctx1 req op fp s s1 resp He Hd Hnone) as Hk. clear Hd.
  unfold Dispatch, zoom, mbind, M_bind in Hd2. rewrite (prepare_effectful ck2 req2 op fp), Hid in Hd2 by done.
  destruct (ds_BeginRequest _ _ _ _ (d_dedup s2)) as [p rb] eqn:Eb. apply ds_begin in Eb as [_ Hb].
  destruct rb as [[[] raw']|err]; [|..|].
  - destruct Hb as [Hb _]. congruence.
  - destruct Hb as [Hb _]. rewrite Hrow2 in Hb. injection Hb as <-. rewrite Hm in Hd2. simpl in Hd2.
    injection Hd2 as <- <-. split; [done|]. f_equal. by apply markDeduplicated_mutating.
  - done.
  - destruct Hb as (_&Hc&Hi).
    destruct (errorsIs err ErrRequestConflict) eqn:E1.
    { destruct Hc as (op'&fp'&x&Hr&Hx); [done|]. rewrite Hrow2 in Hr. injection Hr as <- <- _. by destruct Hx. }
    destruct (errorsIs err ErrRequestInProgress) eqn:E2; [specialize (Hi eq_refl); congruence|].
    injection Hd2 as <- <-. done.
Qed.
End System.
Arguments thread B V : clear implicits.
Arguments system P S B V : clear implicits.
