(* ===== verification/HostRequests.v ===== *)
(** * Host requests: the SQLite store behind the dispatcher

    [persistence.Store] implements [gateway.DedupStore]: the deduplication contract
    holds for the SQLite model under every pattern of failures.  The file also
    evaluates the dispatcher theorems on a concrete database. *)

From stdpp Require Import base tactics numbers list gmap strings.
From S2P Require Import Prelude GoError GoStrings Sha256 Persistence Dispatcher.

#[export] Instance Store_DedupStore : DedupStore Store := {
  ds_BeginRequest := BeginRequest;
  ds_CompleteRequest := CompleteRequest;
}.

(** The row of a request id as the dispatcher sees it. *)
Definition store_row (s : Store) (id : string) : option dedup_row :=
  (λ r, (dr_operation r, dr_fingerprint r,
         match dr_status r with COMPLETED => Some (dr_response_json r) | IN_PROGRESS => None end))
  <$> db_request_dedup (st_db s) !! id.

Lemma fault_not_dedup f :
  errorsIs (fault_err f) ErrRequestConflict = false ∧ errorsIs (fault_err f) ErrRequestInProgress = false.
Proof. by destruct f. Qed.

(** Why [BeginRequest] reports a conflict or a request in progress. *)
Lemma BeginRequest_errors now id op fp s s' e :
  BeginRequest now id op fp s = (s', Err e) →
  (errorsIs e ErrRequestConflict = true → ∃ r, db_request_dedup (st_db s) !! id = Some r ∧
     (dr_operation r ≠ op ∨ dr_fingerprint r ≠ fp)) ∧
  (errorsIs e ErrRequestInProgress = true → ∃ r, db_request_dedup (st_db s) !! id = Some r ∧
     dr_operation r = op ∧ dr_fingerprint r = fp ∧ dr_status r = IN_PROGRESS).
Proof.
  assert (∀ f, e = fault_err f → (errorsIs e ErrRequestConflict = true → False) ∧
    (errorsIs e ErrRequestInProgress = true → False)) as Hf.
  { intros f ->. by destruct (fault_not_dedup f) as [-> ->]. }
  unfold BeginRequest. destruct (_ || _); [by intros [= <- <-]|].
  intros [(s0&s1&a&_&_&[[_ [?|[f ?]]]|[_ [f ?]]])|(_&[[f ?]|(s0&s1&E0&[B|(e'&B&?)])])]%with_tx_inv; simplify_eq;
    try (destruct (Hf f); [done|]; split; intros; exfalso; auto; fail).
  - apply M_bind_inv_ok in B as (s2&old&Ho%attempt_inv&B). apply sql_query_inv in Ho as [_ Ho].
    destruct old as [r|e0]; cycle 1.
    { destruct (errorsIs e0 ErrNoRows); [|done]. apply M_bind_inv_ok in B as (?&?&?&?). done. }
    destruct Ho as [Ho|[f ?]]; [|done]. symmetry in Ho. apply row_inv in Ho. rewrite E0 in Ho.
    destruct (negb (bool_decide (dr_operation r = op)) || negb (equalBytes (dr_fingerprint r) fp)) eqn:Ec.
    + injection B as _ <-. split; [|done]. intros _. exists r. split; [done|].
      apply orb_prop in Ec as [Ec|Ec]; apply negb_true_iff in Ec; [left; by apply bool_decide_eq_false in Ec|right].
      intros Heq. apply equalBytes_spec in Heq. congruence.
    + destruct (dr_status r) eqn:Es; [|done]. injection B as _ <-. split; [done|]. intros _. exists r.
      to_prop. match goal with H : equalBytes _ _ = true |- _ => apply equalBytes_spec in H end. done.
  - apply M_bind_inv_err in B as [B|(s2&old&Ho%attempt_inv&B)].
    { unfold attempt in B. by destruct (sql_query _ s0). }
    apply sql_query_inv in Ho as [_ Ho]. destruct old as [r|e0]; cycle 1.
    { destruct (errorsIs e0 ErrNoRows) eqn:En.
      - apply M_bind_inv_err in B as [B|(?&?&_&?)]; [|done].
        unfold tx_exec in B. destruct (pop s2) as [[|f] ?]; [done|]. injection B as _ <-.
        destruct (Hf f); [done|]. split; intros; exfalso; auto.
      - injection B as _ <-. destruct Ho as [Ho|[f Ho]];
          [|destruct (Hf f); [by injection Ho|]; split; intros; exfalso; auto].
        destruct (db_request_dedup (st_db s0) !! id); by simplify_eq/=. }
    destruct (negb _ || negb _); [done|]. by destruct (dr_status r).
Qed.

(** The SQLite store keeps every promise the dispatcher relies on. *)
#[export, refine] Instance Store_DedupLaws : DedupLaws Store := { ds_row := store_row }.
Proof.
  - intros p now id op fp p' r. simpl. intros H. pose proof H as Hi. apply BeginRequest_inv in Hi as [[E Hr]|(En&_&E&Hr)].
    + unfold store_row. rewrite E. split; [done|]. destruct r as [[st resp]|e].
      * destruct (Hr st resp eq_refl) as (row&L&<-&<-&->&Hs&->). simpl. rewrite L. simpl. by rewrite Hs.
      * split; [by left|]. apply BeginRequest_errors in H as [Hc Hp]. split.
        -- intros (row&L&Hd)%Hc. rewrite L. simpl. eauto.
        -- intros (row&L&<-&<-&Hs)%Hp. rewrite L. simpl. by rewrite Hs.
    + unfold store_row. rewrite E. simpl. rewrite lookup_insert_eq, En. split.
      * intros j Hj. by rewrite lookup_insert_ne.
      * destruct Hr as [-> | [f ->]]; [done|]. destruct (fault_not_dedup f) as [-> ->]. split; [right|]; done.
  - intros p now id resp p' r. simpl. unfold CompleteRequest. destruct (str_empty resp) eqn:Er.
    { intros [= <- <-]. split; [done|by left]. }
    intros H. assert (∀ a d', (match db_request_dedup (st_db p) !! id with
        | Some (mkDedupRow op fp IN_PROGRESS _ created _) =>
            Ok (set_db_request_dedup (<[id := mkDedupRow op fp COMPLETED resp created now]> (db_request_dedup (st_db p))) (st_db p), 1%Z)
        | _ => Ok (st_db p, 0%Z) end) = Ok (d', a) →
      (∀ j, j ≠ id → db_request_dedup d' !! j = db_request_dedup (st_db p) !! j) ∧
      ((a = 0%Z ∧ d' = st_db p) ∨
       (a = 1%Z ∧ ∃ op fp, store_row p id = Some (op, fp, None) ∧
          store_row (mkStore d' []) id = Some (op, fp, Some resp)))) as Hw.
    { intros a d'. unfold store_row. destruct (db_request_dedup (st_db p) !! id) as [[op fp [] ? ? ?]|] eqn:L;
        intros [= <- <-]; simpl; try (split; [done|by left]).
      split; [intros j Hj; by rewrite lookup_insert_ne|]. right. split; [done|]. rewrite lookup_insert_eq. eauto. }
    apply M_bind_inv_any in H as (s1&rn&Hn&Hr). apply sql_exec_inv in Hn.
    assert (st_db p' = st_db s1 ∧ (is_ok r = true → rn = Ok 1%Z)) as [Ep Hok].
    { destruct rn as [a|e]; [|by destruct Hr as [-> ->]]. case_bool_decide as En; injection Hr as <- <-; [done|].
      split; [done|]. intros _. f_equal. lia. }
    unfold store_row in *. simpl in *. rewrite Ep.
    destruct Hn as [(a&->&Ha)|(e&->&[Hs|(a&Ha)])].
    + apply Hw in Ha as [Hj Ha]. split; [intros j Hj'; by rewrite Hj|].
      destruct Ha as [[-> Hs]|(->&op&fp&Ho&Hc)].
      * destruct r; [by specialize (Hok eq_refl)|]. left. by rewrite Hs.
      * destruct r; [|right]; eauto.
    + rewrite Hs. split; [done|]. destruct r; [by specialize (Hok eq_refl)|]. by left.
    + apply Hw in Ha as [Hj Ha]. split; [intros j Hj'; by rewrite Hj|].
      destruct r; [by specialize (Hok eq_refl)|]. destruct Ha as [[-> Hs]|(->&op&fp&Ho&Hc)]; [left; by rewrite Hs|right; eauto].
Defined.

(** ** A concrete Host: one backend method that counts its calls *)
Module DemoRequests.

#[local] Instance demo_backend : Backend nat string string :=
  {| backend_call k id body := λ n, (S n, Ok "done") |}.

Definition demo_request (id : string) (deadline : Z) : Request string :=
  mkRequest id 5 deadline (Some (Rpc_StartTurn, "hello")).

Definition demo_response : Response string := mkResponse "r1" 12 (Some (Result_Value Rpc_StartTurn "done" false)).

#[local] Instance demo_proto : ProtoRPC string string := {|
  MarshalDeterministic req := match rq_Request req with Some (_, body) => Ok body | None => Ok "" end;
  MarshalResponse r := if bool_decide (r = demo_response) then Ok "R" else Err (ErrText "not in the table");
  UnmarshalResponse raw := if bool_decide (raw = "R") then Ok demo_response else Err (ErrText "not in the table");
|}.

Lemma demo_proto_laws : ProtoRPCLaws string string.
Proof. split. intros r raw. simpl. case_bool_decide as E; [|done]. by intros [= <-]; subst. Qed.

Definition demo_clock : clock := mkClock 10 11 12 13.
Definition demo_start : DState Store nat := mkDState (mkStore empty_db []) 0.
Definition demo_fp : string := Sum256 "hello".

Definition demo_first : DState Store nat * res (Response string) :=
  Dispatch ready demo_clock None (Some (demo_request "r1" 0)) demo_start.
Definition demo_second : DState Store nat * res (Response string) :=
  Dispatch ready demo_clock None (Some (demo_request "r1" 99)) demo_first.1.

Lemma demo_effectful deadline :
  deadline = 0%Z ∨ deadline = 99%Z →
  effectful (V := string) demo_clock (demo_request "r1" deadline) "start_turn" demo_fp.
Proof.
  intros Hd. split_and!; [|by eexists _, _|]; destruct Hd as [-> | ->]; vm_compute; reflexivity.
Qed.

Lemma demo_row : ds_row (d_dedup demo_first.1) "r1" = Some ("start_turn", demo_fp, Some "R").
Proof. vm_compute. reflexivity. Qed.

(** The first request runs the backend once; the second, sent again with another
    deadline, is answered from the store. *)
Lemma dispatch_replay_witness :
  d_backend demo_second.1 = d_backend demo_first.1 ∧
  demo_second.2 = Ok (mkResponse "r1" 12 (Some (Result_Value Rpc_StartTurn "done" true))).
Proof.
  assert (Dispatch ready demo_clock None (Some (demo_request "r1" 0)) demo_start = (demo_first.1, Ok demo_response))
    as H1 by (vm_compute; reflexivity).
  assert (Dispatch ready demo_clock None (Some (demo_request "r1" 99)) demo_first.1 = (demo_second.1, demo_second.2))
    as H2 by (vm_compute; reflexivity).
  assert (ds_row (d_dedup demo_start) (rq_RequestId (demo_request "r1" 0)) = None) as H0 by (vm_compute; reflexivity).
  destruct (dispatch_replay demo_clock None (demo_request "r1" 0) "start_turn" demo_fp demo_start demo_first.1
    demo_response "R" demo_clock None (demo_request "r1" 99) demo_first.1 demo_second.1 _
    demo_proto_laws (demo_effectful 0 (or_introl eq_refl)) H0 H1 demo_row demo_row
    (demo_effectful 99 (or_intror eq_refl)) eq_refl H2) as [Hb Hr].
  split; [exact Hb|].
  assert (is_ok (ds_BeginRequest (ck_begin demo_clock) "r1" "start_turn" demo_fp (d_dedup demo_first.1)).2 = true) as Hok
    by (vm_compute; reflexivity).
  change (rq_RequestId (demo_request "r1" 0)) with "r1" in Hr.
  destruct (ds_BeginRequest _ _ _ _ _).2; [exact Hr|discriminate Hok].
Defined.

Lemma reserved_never_executes_witness : d_backend demo_second.1 = d_backend demo_first.1.
Proof.
  assert (Dispatch ready demo_clock None (Some (demo_request "r1" 99)) demo_first.1
    = (demo_second.1, Ok (markDeduplicated demo_response))) as H2 by (vm_compute; reflexivity).
  exact (proj1 (reserved_never_executes demo_clock None (demo_request "r1" 99) "start_turn" demo_fp
    "start_turn" demo_fp (Some "R") demo_first.1 demo_second.1 _ (demo_effectful 99 (or_intror eq_refl)) demo_row H2)).
Defined.

(** A request arrives, is executed, and the Host stops before storing the response;
    the client's repetition does not execute. *)
Definition demo_y0 : system Store nat string string := sys_start (mkStore empty_db []) 0.
Definition demo_y1 : system Store nat string string :=
  mkSystem (prepare (V := string) ready demo_clock (demo_request "r1" 0) (y_dedup demo_y0)).1 0
    [TExecute (demo_request "r1" 0) true] [].
Definition demo_y2 : system Store nat string string :=
  mkSystem (y_dedup demo_y1) 1 [TComplete (demo_request "r1" 0) demo_response] [("r1", Rpc_StartTurn)].
Definition demo_y3 : system Store nat string string := mkSystem (y_dedup demo_y1) 1 [] [("r1", Rpc_StartTurn)].

Lemma at_most_once_witness : y_log demo_y3 = [("r1", Rpc_StartTurn)] ∧ executions "r1" (y_log demo_y3) ≤ 1.
Proof.
  assert (rtc sys_step demo_y0 demo_y3) as Hs.
  { eapply rtc_l; [eapply (sys_arrive demo_y0 ready demo_clock (demo_request "r1" 0) (y_dedup demo_y1) (Ok (Execute true)));
      vm_compute; reflexivity|].
    eapply rtc_l; [eapply (sys_execute demo_y1 12 None (demo_request "r1" 0) true [] [] 1 [("r1", Rpc_StartTurn)] demo_response);
      vm_compute; reflexivity|].
    eapply rtc_l; [apply (sys_crash demo_y2 1)|]. apply rtc_refl. }
  split; [reflexivity|]. exact (proj1 (at_most_once (mkStore empty_db []) 0 demo_y3 "r1" Hs)).
Defined.

End DemoRequests.
