(* ===== verification/Workspace.v ===== *)
(** * Workspace: the access-state machine (internal/workspace/service.go)

    A workspace may be changed by a client only while no agent works in it.  The
    service keeps, per Codex, the access state it has published (generation, agent
    count, mutation status, quiescence token) and the set of active agents.  A
    transition changes the state, releases its locks while the new state is
    published through the sink, and undoes the change when publication failed; the
    two halves of a transition are separate steps here, so that other calls can run
    in between.  [workspaceState] objects are heap objects: a handler may still hold
    one that was unregistered meanwhile. *)

From stdpp Require Import base tactics numbers list sorting gmap strings pretty.
From S2P Require Import Prelude GoError GoStrings Remote.

(** ** State *)

(** [ws_pending] is the identity of the channel that is open while a published
    transition has not finished. *)
Record workspaceState := mkWs {
  ws_root : string;
  ws_displayRoot : string;
  ws_state : WorkspaceAccessState;
  ws_agentIDs : gset string;
  ws_pending : option nat;
  ws_removed : bool;
}.

Definition set_ws_state (st : WorkspaceAccessState) (w : workspaceState) : workspaceState :=
  mkWs (ws_root w) (ws_displayRoot w) st (ws_agentIDs w) (ws_pending w) (ws_removed w).
Definition set_ws_agentIDs (a : gset string) (w : workspaceState) : workspaceState :=
  mkWs (ws_root w) (ws_displayRoot w) (ws_state w) a (ws_pending w) (ws_removed w).
Definition set_ws_pending (p : option nat) (w : workspaceState) : workspaceState :=
  mkWs (ws_root w) (ws_displayRoot w) (ws_state w) (ws_agentIDs w) p (ws_removed w).
Definition set_ws_removed (b : bool) (w : workspaceState) : workspaceState :=
  mkWs (ws_root w) (ws_displayRoot w) (ws_state w) (ws_agentIDs w) (ws_pending w) b.

(** [workspace.Service]: the map of Codexes to workspace objects, and the heap. *)
Record Service := mkService {
  sv_states : gmap string nat;
  sv_heap : gmap nat workspaceState;
  sv_next : nat;
  sv_next_chan : nat;
}.

Definition workspaceErr {A} (code : ErrorCode) (message : string) : res A :=
  Err (ErrWorkspace code (ErrText message)).

(** [newToken] for what [crypto/rand] delivered and, if it failed, the clock. *)
Definition newToken (entropy : res string) (nanos : Z) : string :=
  match entropy with
  | Ok raw => EncodeToString raw
  | Err _ => "q-" +:+ pretty nanos
  end.

(** ** Registration *)

Definition ALLOWED : WorkspaceMutationStatus := WORKSPACE_MUTATION_STATUS_ALLOWED.
Definition BUSY : WorkspaceMutationStatus := WORKSPACE_MUTATION_STATUS_BUSY.

(** The state [Register] starts from. *)
Definition registered_state (persisted : option WorkspaceAccessState) (now : Z) (token : string)
    : WorkspaceAccessState :=
  match persisted with
  | None => mkWorkspaceAccessState 1 0 ALLOWED token now
  | Some st =>
      if bool_decide (was_Generation st = 0%Z) then mkWorkspaceAccessState 1 0 ALLOWED token now
      else if bool_decide (was_ActiveAgentCount st ≠ 0%Z) || bool_decide (was_MutationStatus st ≠ ALLOWED)
              || str_empty (was_QuiescenceToken st) then
        mkWorkspaceAccessState (u64_incr (was_Generation st)) 0 ALLOWED token now
      else st
  end.

(** A Codex seen for the first time. *)
Definition register_new (codexID resolved root : string) (st : WorkspaceAccessState) (sv : Service) : Service :=
  mkService (<[codexID := sv_next sv]> (sv_states sv))
    (<[sv_next sv := mkWs resolved root st ∅ None false]> (sv_heap sv)) (S (sv_next sv)) (sv_next_chan sv).

(** A workspace object that already exists: a newer in-memory generation is kept. *)
Definition register_existing (resolved root : string) (st : WorkspaceAccessState) (w : workspaceState) : workspaceState :=
  let w := mkWs resolved root (ws_state w) (ws_agentIDs w) (ws_pending w) false in
  if (was_Generation (ws_state w) <? was_Generation st)%Z
  then set_ws_agentIDs ∅ (set_ws_state st w) else w.

Definition put_ws (p : nat) (w : workspaceState) (sv : Service) : Service :=
  mkService (sv_states sv) (<[p := w]> (sv_heap sv)) (sv_next sv) (sv_next_chan sv).

(** [registered] is the result of [registerRoot]. *)
Definition Register (codexID root : string) (registered : res string) (persisted : option WorkspaceAccessState)
    (now : Z) (token : string) : M Service WorkspaceAccessState := λ sv,
  match registered with
  | Err e => (sv, Err e)
  | Ok resolved =>
      let st := registered_state persisted now token in
      match sv_states sv !! codexID with
      | None => (register_new codexID resolved root st sv, Ok st)
      | Some p =>
          match sv_heap sv !! p with
          | None => (sv, Ok st)
          | Some w =>
              let w := register_existing resolved root st w in
              (put_ws p w sv, Ok (ws_state w))
          end
      end
  end.

(** [Unregister] with the object it looked up. *)
Definition unregister_object (codexID : string) (p : nat) (sv : Service) : Service :=
  let states := if bool_decide (sv_states sv !! codexID = Some p) then delete codexID (sv_states sv) else sv_states sv in
  mkService states (alter (set_ws_removed true) p (sv_heap sv)) (sv_next sv) (sv_next_chan sv).

Definition Unregister (codexID : string) (sv : Service) : Service :=
  match sv_states sv !! codexID with
  | None => sv
  | Some p => unregister_object codexID p sv
  end.

(** ** Transitions *)

Definition known (id : string) : M Service nat := λ sv,
  match sv_states sv !! id with
  | None => (sv, workspaceErr ERROR_CODE_CODEX_NOT_FOUND "codex not found")
  | Some p => (sv, Ok p)
  end.

(** [lockMutationCoordinator]: refused, admitted, or [None] while it must wait for
    the pending transition. *)
Definition lockMutationCoordinator (ctxErr : option goerr) (w : workspaceState) : option (res unit) :=
  match ctxErr with
  | Some e => Some (Err e)
  | None =>
      if ws_removed w then Some (workspaceErr ERROR_CODE_CODEX_NOT_FOUND "codex not found")
      else match ws_pending w with
      | None => Some (Ok tt)
      | Some _ => None
      end
  end.

(** How a transition changed the set of agents, to be undone. *)
Inductive agent_change :=
| AgentAdded (id : string)
| AgentRemoved (id : string)
| AgentsUnchanged.

(** A transition whose state is being published. *)
Record flight := mkFlight {
  fl_previous : WorkspaceAccessState;
  fl_attempted : WorkspaceAccessState;
  fl_change : agent_change;
  fl_chan : nat;
}.

(** [uint32(len(ws.agentIDs))]. *)
Definition agent_count (agents : gset string) : Z := u32 (Z.of_nat (size agents)).

(** The state while agents [agents] work: BUSY without a token. *)
Definition busy_state (agents : gset string) (now : Z) (st : WorkspaceAccessState) : WorkspaceAccessState :=
  mkWorkspaceAccessState (u64_incr (was_Generation st)) (agent_count agents) BUSY "" now.

(** Up to [beginPendingLocked] of [AgentStarted]; [None]: the agent was known. *)
Definition begin_start (now : Z) (agentID : string) (chan : nat) (w : workspaceState)
    : workspaceState * option flight :=
  if bool_decide (agentID ∈ ws_agentIDs w) then (w, None)
  else
    let agents := {[agentID]} ∪ ws_agentIDs w in
    let st := busy_state agents now (ws_state w) in
    (set_ws_pending (Some chan) (set_ws_state st (set_ws_agentIDs agents w)),
     Some (mkFlight (ws_state w) st (AgentAdded agentID) chan)).

(** Up to [beginPendingLocked] of [AgentStopped]; [None]: the agent was unknown. *)
Definition begin_stop (now : Z) (agentID token : string) (chan : nat) (w : workspaceState)
    : workspaceState * option flight :=
  if bool_decide (agentID ∉ ws_agentIDs w) then (w, None)
  else
    let agents := ws_agentIDs w ∖ {[agentID]} in
    let st := if bool_decide (agents = ∅)
              then mkWorkspaceAccessState (u64_incr (was_Generation (ws_state w))) (agent_count agents) ALLOWED token now
              else busy_state agents now (ws_state w) in
    (set_ws_pending (Some chan) (set_ws_state st (set_ws_agentIDs agents w)),
     Some (mkFlight (ws_state w) st (AgentRemoved agentID) chan)).

(** [advanceMutationLocked] and [beginPendingLocked] of a file mutation. *)
Definition advanceMutationLocked (now : Z) (token : string) (st : WorkspaceAccessState) : WorkspaceAccessState :=
  mkWorkspaceAccessState (u64_incr (was_Generation st)) (was_ActiveAgentCount st) (was_MutationStatus st) token now.

Definition begin_mutation (now : Z) (token : string) (chan : nat) (w : workspaceState)
    : workspaceState * flight :=
  let st := advanceMutationLocked now token (ws_state w) in
  (set_ws_pending (Some chan) (set_ws_state st w), mkFlight (ws_state w) st AgentsUnchanged chan).

Definition validateMutationState (w : workspaceState) (token : string) : res unit :=
  if bool_decide (was_ActiveAgentCount (ws_state w) ≠ 0%Z)
     || bool_decide (was_MutationStatus (ws_state w) ≠ ALLOWED)
     || str_empty token || bool_decide (token ≠ was_QuiescenceToken (ws_state w))
  then workspaceErr ERROR_CODE_WORKSPACE_BUSY "workspace is busy or quiescence token is stale"
  else Ok tt.

(** Whether a failed publication is rolled back. *)
Definition rolls_back (outcome : res unit) : bool :=
  match outcome with
  | Ok _ => false
  | Err e => negb (errorsIs e ErrEventCommitOutcomeUnknown)
  end.

Definition undo_agents (c : agent_change) (agents : gset string) : gset string :=
  match c with
  | AgentAdded id => agents ∖ {[id]}
  | AgentRemoved id => {[id]} ∪ agents
  | AgentsUnchanged => agents
  end.

(** [rollbackState] and the rollback of the agent transitions: only when nothing
    else changed the state meanwhile. *)
Definition rollback_transition (fl : flight) (w : workspaceState) : workspaceState :=
  if bool_decide (ws_state w = fl_attempted fl)
  then set_ws_agentIDs (undo_agents (fl_change fl) (ws_agentIDs w)) (set_ws_state (fl_previous fl) w)
  else w.

Definition finishPending (chan : nat) (w : workspaceState) : workspaceState :=
  if bool_decide (ws_pending w = Some chan) then set_ws_pending None w else w.

(** What happens to the object after [emit] returned [outcome]. *)
Definition finish_transition (outcome : res unit) (fl : flight) (w : workspaceState) : workspaceState :=
  finishPending (fl_chan fl) (if rolls_back outcome then rollback_transition fl w else w).

(** [emit]: no sink publishes nothing. *)
Definition emit (sink : option (string → WorkspaceAccessState → res unit)) (id : string)
    (st : WorkspaceAccessState) : res unit :=
  match sink with None => Ok tt | Some sink => sink id st end.

Definition fresh_chan (sv : Service) : Service :=
  mkService (sv_states sv) (sv_heap sv) (sv_next sv) (S (sv_next_chan sv)).

(** The handlers run to the end with nothing in between; [None]: still waiting. *)
Definition agent_transition (ctxErr : option goerr) (sink : option (string → WorkspaceAccessState → res unit))
    (codexID : string) (begin : nat → workspaceState → workspaceState * option flight)
    (sv : Service) : option (Service * res unit) :=
  match known codexID sv with
  | (sv, Err e) => Some (sv, Err e)
  | (sv, Ok p) =>
      match sv_heap sv !! p with
      | None => None
      | Some w =>
          match lockMutationCoordinator ctxErr w with
          | None => None
          | Some (Err e) => Some (sv, Err e)
          | Some (Ok _) =>
              match begin (sv_next_chan sv) w with
              | (w, None) => Some (put_ws p w sv, Ok tt)
              | (w, Some fl) =>
                  let outcome := emit sink codexID (fl_attempted fl) in
                  Some (put_ws p (finish_transition outcome fl w) (fresh_chan sv), outcome)
              end
          end
      end
  end.

Definition AgentStarted (ctxErr : option goerr) (sink : option (string → WorkspaceAccessState → res unit))
    (now : Z) (codexID agentID : string) (sv : Service) : option (Service * res unit) :=
  if str_empty agentID then Some (sv, workspaceErr ERROR_CODE_INVALID_REQUEST "agent id is required")
  else agent_transition ctxErr sink codexID (begin_start now agentID) sv.

Definition AgentStopped (ctxErr : option goerr) (sink : option (string → WorkspaceAccessState → res unit))
    (now : Z) (token codexID agentID : string) (sv : Service) : option (Service * res unit) :=
  agent_transition ctxErr sink codexID (begin_stop now agentID token) sv.

(** [RestoreAgent] on the object: no publication, no waiting. *)
Definition restore_agent (now : Z) (agentID : string) (w : workspaceState) : workspaceState * res WorkspaceAccessState :=
  let agentID := if str_empty agentID then "restore-unknown" else agentID in
  if ws_removed w then (w, workspaceErr ERROR_CODE_CODEX_NOT_FOUND "codex not found")
  else if bool_decide (agentID ∈ ws_agentIDs w) then (w, Ok (ws_state w))
  else
    let agents := {[agentID]} ∪ ws_agentIDs w in
    let st := busy_state agents now (ws_state w) in
    (set_ws_state st (set_ws_agentIDs agents w), Ok st).

Definition RestoreAgent (now : Z) (codexID agentID : string) : M Service WorkspaceAccessState := λ sv,
  match known codexID sv with
  | (sv, Err e) => (sv, Err e)
  | (sv, Ok p) =>
      match sv_heap sv !! p with
      | None => (sv, workspaceErr ERROR_CODE_CODEX_NOT_FOUND "codex not found")
      | Some w => let '(w, r) := restore_agent now agentID w in (put_ws p w sv, r)
      end
  end.

(** [rootForAccess]; [canonical] is [canonicalRoot]. *)
Definition rootForAccess (canonical : string → res string) (w : workspaceState) : workspaceState * res string :=
  if ws_removed w then (w, workspaceErr ERROR_CODE_CODEX_NOT_FOUND "codex not found")
  else match canonical (ws_root w) with
  | Err e => (w, Err e)
  | Ok resolved =>
      (mkWs resolved (ws_displayRoot w) (ws_state w) (ws_agentIDs w) (ws_pending w) (ws_removed w), Ok resolved)
  end.

Definition Service_State (canonical : string → res string) (codexID : string)
    : M Service (WorkspaceAccessState * string) := λ sv,
  match known codexID sv with
  | (sv, Err e) => (sv, Err e)
  | (sv, Ok p) =>
      match sv_heap sv !! p with
      | None => (sv, workspaceErr ERROR_CODE_CODEX_NOT_FOUND "codex not found")
      | Some w =>
          match rootForAccess canonical w with
          | (w, Err e) => (put_ws p w sv, Err e)
          | (w, Ok _) => (put_ws p w sv, Ok (ws_state w, ws_displayRoot w))
          end
      end
  end.

(** ** All interleavings

    A workspace object with the transition it is publishing (and the token that
    admitted it, for a file mutation), the tokens whose mutation was kept, and the
    states that were published, or may have been; histories are newest first. *)
Record object := mkObject {
  ob_ws : workspaceState;
  ob_flight : option (flight * option string);
  ob_used : list string;
  ob_published : list WorkspaceAccessState;
}.

(** [y_issued]: the tokens drawn so far. *)
Record wsystem := mkWSystem {
  y_states : gmap string nat;
  y_objects : gmap nat object;
  y_chan : nat;
  y_issued : gset string;
}.

(** A token drawn from [crypto/rand]: not empty and never drawn before. *)
Definition fresh_token (issued : gset string) (t : string) : Prop := t ≠ EmptyString ∧ t ∉ issued.

(** A state read back from persistence: its token was not used up by this object and
    is not being used. *)
Definition persisted_ok (o : object) (persisted : option WorkspaceAccessState) : Prop :=
  match persisted with
  | None => True
  | Some st => (0 ≤ was_Generation st < u64_modulus - 1)%Z ∧ was_QuiescenceToken st ∉ ob_used o ∧
      ∀ fl, ob_flight o ≠ Some (fl, Some (was_QuiescenceToken st))
  end.

(** The generation counter has not reached the end of its 64 bits. *)
Definition below_max (w : workspaceState) : Prop := (was_Generation (ws_state w) < u64_modulus - 1)%Z.

Definition new_object (w : workspaceState) : object := mkObject w None [] [].
Definition with_ws (w : workspaceState) (o : object) : object :=
  mkObject w (ob_flight o) (ob_used o) (ob_published o).
Definition launched (w : workspaceState) (fl : flight) (admitted : option string) (o : object) : object :=
  mkObject w (Some (fl, admitted)) (ob_used o) (ob_published o).
Definition landed (outcome : res unit) (fl : flight) (admitted : option string) (o : object) : object :=
  let w := finish_transition outcome fl (ob_ws o) in
  if rolls_back outcome then mkObject w None (ob_used o) (ob_published o)
  else mkObject w None (match admitted with Some t => t :: ob_used o | None => ob_used o end)
         (fl_attempted fl :: ob_published o).

(** What one step may do to an object; [chan] is the next channel and [issued] the
    tokens drawn before; the last argument is the tokens the step draws. *)
Inductive ostep (chan : nat) (issued : gset string) (o : object) : object → gset string → Prop :=
| o_register resolved root persisted now t st :
    fresh_token issued t → persisted_ok o persisted → st = registered_state persisted now t →
    ostep chan issued o (with_ws (register_existing resolved root st (ob_ws o)) o) {[t; was_QuiescenceToken st]}
| o_unregister : ostep chan issued o (with_ws (set_ws_removed true (ob_ws o)) o) ∅
| o_start w' fl agentID now :
    lockMutationCoordinator None (ob_ws o) = Some (Ok tt) → below_max (ob_ws o) →
    begin_start now agentID chan (ob_ws o) = (w', Some fl) →
    ostep chan issued o (launched w' fl None o) ∅
| o_stop w' fl agentID now t :
    lockMutationCoordinator None (ob_ws o) = Some (Ok tt) → below_max (ob_ws o) → fresh_token issued t →
    begin_stop now agentID t chan (ob_ws o) = (w', Some fl) →
    ostep chan issued o (launched w' fl None o) {[t]}
| o_mutate w' fl now token t :
    lockMutationCoordinator None (ob_ws o) = Some (Ok tt) → below_max (ob_ws o) →
    validateMutationState (ob_ws o) token = Ok tt → fresh_token issued t →
    begin_mutation now t chan (ob_ws o) = (w', fl) →
    ostep chan issued o (launched w' fl (Some token) o) {[t]}
| o_restore w' r agentID now :
    below_max (ob_ws o) → restore_agent now agentID (ob_ws o) = (w', r) →
    ostep chan issued o (with_ws w' o) ∅
| o_access canonical w' r :
    rootForAccess canonical (ob_ws o) = (w', r) → ostep chan issued o (with_ws w' o) ∅
| o_finish fl admitted outcome :
    ob_flight o = Some (fl, admitted) → ostep chan issued o (landed outcome fl admitted o) ∅.

Inductive wstep : wsystem → wsystem → Prop :=
| w_register_new y codexID p resolved root persisted now t st :
    y_objects y !! p = None → y_states y !! codexID = None → fresh_token (y_issued y) t →
    persisted_ok (new_object (mkWs resolved root (registered_state None now t) ∅ None false)) persisted →
    st = registered_state persisted now t →
    wstep y (mkWSystem (<[codexID := p]> (y_states y))
      (<[p := new_object (mkWs resolved root st ∅ None false)]> (y_objects y)) (y_chan y)
      ({[t; was_QuiescenceToken st]} ∪ y_issued y))
| w_object y p o o' ts states :
    y_objects y !! p = Some o → ostep (y_chan y) (y_issued y) o o' ts →
    wstep y (mkWSystem states (<[p := o']> (y_objects y)) (S (y_chan y)) (ts ∪ y_issued y)).

Definition wstart : wsystem := mkWSystem ∅ ∅ 0 ∅.

(** ** Invariants *)

(** The published state tells the truth about the agents: the count is theirs, and
    mutations are allowed, with a token, exactly when there are none. *)
Record ws_wf (w : workspaceState) : Prop := {
  wwf_count : was_ActiveAgentCount (ws_state w) = agent_count (ws_agentIDs w);
  wwf_status :
    (was_MutationStatus (ws_state w) = ALLOWED ∧ ws_agentIDs w = ∅ ∧ was_QuiescenceToken (ws_state w) ≠ EmptyString) ∨
    (was_MutationStatus (ws_state w) = BUSY ∧ ws_agentIDs w ≠ ∅ ∧ was_QuiescenceToken (ws_state w) = EmptyString);
  wwf_gen : (0 ≤ was_Generation (ws_state w) < u64_modulus)%Z;
}.

Definition gen (w : workspaceState) : Z := was_Generation (ws_state w).
Definition token (w : workspaceState) : string := was_QuiescenceToken (ws_state w).

(** A transition in flight holds the pending channel; undoing it, if nothing else
    happened, restores a truthful state. *)
Record flight_wf (o : object) (fl : flight) (admitted : option string) : Prop := {
  fwf_pending : ws_pending (ob_ws o) = Some (fl_chan fl);
  fwf_gen : was_Generation (fl_attempted fl) = (was_Generation (fl_previous fl) + 1)%Z;
  fwf_undo : (was_Generation (fl_attempted fl) < gen (ob_ws o))%Z ∨
    (ws_state (ob_ws o) = fl_attempted fl ∧ ws_wf (rollback_transition fl (ob_ws o)));
  fwf_token : was_QuiescenceToken (fl_previous fl) ∉ ob_used o;
  fwf_admitted t : admitted = Some t →
    t = was_QuiescenceToken (fl_previous fl) ∧ t ≠ EmptyString ∧ t ≠ token (ob_ws o);
  fwf_published : Forall (λ st, (was_Generation st ≤ was_Generation (fl_previous fl))%Z) (ob_published o);
}.

Record object_wf (issued : gset string) (o : object) : Prop := {
  owf_ws : ws_wf (ob_ws o);
  owf_flight fl admitted : ob_flight o = Some (fl, admitted) → flight_wf o fl admitted;
  owf_idle : ob_flight o = None → ws_pending (ob_ws o) = None;
  owf_issued : token (ob_ws o) ≠ EmptyString → token (ob_ws o) ∈ issued;
  owf_issued_flight fl admitted : ob_flight o = Some (fl, admitted) →
    was_QuiescenceToken (fl_previous fl) ≠ EmptyString → was_QuiescenceToken (fl_previous fl) ∈ issued;
  owf_used : NoDup (ob_used o) ∧ token (ob_ws o) ∉ ob_used o ∧
    Forall (λ t, t ≠ EmptyString ∧ t ∈ issued) (ob_used o);
  owf_published : StronglySorted (λ a b, was_Generation b < was_Generation a)%Z (ob_published o) ∧
    Forall (λ st, (was_Generation st ≤ gen (ob_ws o))%Z) (ob_published o);
}.

Definition wsystem_wf (y : wsystem) : Prop :=
  map_Forall (λ _ o, object_wf (y_issued y) o) (y_objects y).

(** ** Every step preserves the invariants *)

Lemma ws_wf_ext w w' :
  ws_state w' = ws_state w → ws_agentIDs w' = ws_agentIDs w → ws_wf w → ws_wf w'.
Proof. intros Es Ea [H1 H2 H3]. split; by rewrite ?Es, ?Ea. Qed.

Lemma agent_count_empty : agent_count ∅ = 0%Z.
Proof. done. Qed.

Lemma gen_incr w : ws_wf w → below_max w → u64_incr (was_Generation (ws_state w)) = (gen w + 1)%Z.
Proof. intros Hw Hb. unfold gen, below_max in *. pose proof (wwf_gen w Hw). apply u64_incr_small. lia. Qed.

Lemma registered_state_wf persisted now t resolved root pending removed :
  t ≠ EmptyString →
  match persisted with Some st => (0 ≤ was_Generation st < u64_modulus - 1)%Z | None => True end →
  ws_wf (mkWs resolved root (registered_state persisted now t) ∅ pending removed).
Proof.
  intros Ht Hp. unfold registered_state. destruct persisted as [st|].
  - case_bool_decide; [by split; simpl; auto|].
    destruct (_ || _ || _) eqn:E.
    + split; simpl; [done|by left|]. rewrite u64_incr_small; lia.
    + apply orb_false_elim in E as [E E3]. apply orb_false_elim in E as [E1 E2]. to_prop. split; simpl.
      * rewrite agent_count_empty. by destruct (decide (was_ActiveAgentCount st = 0%Z)).
      * left. split_and!; [|done|].
        -- by destruct (decide (was_MutationStatus st = ALLOWED)).
        -- intros Hs. apply str_empty_spec in Hs. congruence.
      * lia.
  - by split; simpl; auto.
Qed.

(** The token after registration: freshly drawn, or the persisted one. *)
Lemma registered_token persisted now t :
  was_QuiescenceToken (registered_state persisted now t) = t ∨
  ∃ st, persisted = Some st ∧ registered_state persisted now t = st.
Proof. unfold registered_state. destruct persisted as [st|]; [|by left]. repeat case_match; eauto. Qed.

Lemma admitted_idle o issued :
  object_wf issued o → lockMutationCoordinator None (ob_ws o) = Some (Ok tt) → ob_flight o = None.
Proof.
  intros Hw Hl. unfold lockMutationCoordinator in Hl. destruct (ws_removed (ob_ws o)); [done|].
  destruct (ob_flight o) as [[fl adm]|] eqn:E; [|done].
  rewrite (fwf_pending _ _ _ (owf_flight _ _ Hw _ _ E)) in Hl. done.
Qed.

(** A transition begins: the common part of the three kinds. *)
Lemma launch_wf issued ts o w' fl admitted :
  object_wf issued o → lockMutationCoordinator None (ob_ws o) = Some (Ok tt) → below_max (ob_ws o) →
  ws_wf w' → ws_pending w' = Some (fl_chan fl) → fl_previous fl = ws_state (ob_ws o) →
  fl_attempted fl = ws_state w' → gen w' = (gen (ob_ws o) + 1)%Z →
  undo_agents (fl_change fl) (ws_agentIDs w') = ws_agentIDs (ob_ws o) →
  (token w' = EmptyString ∨ (token w' ∈ ts ∧ token w' ∉ issued ∧ token w' ≠ EmptyString)) →
  match admitted with Some t => t = token (ob_ws o) ∧ t ≠ EmptyString ∧ t ≠ token w' | None => True end →
  object_wf (ts ∪ issued) (launched w' fl admitted o).
Proof.
  intros Hw Hl Hb Hw' Hp Hprev Hatt Hgen Hundo Htok Hadm. pose proof (admitted_idle _ _ Hw Hl) as Hidle.
  destruct (owf_used _ _ Hw) as (Hnd&Hcur&Hused). destruct (owf_published _ _ Hw) as [Hsort Hpub].
  split; simpl.
  - done.
  - intros fl0 adm0 [= <- <-]. split; simpl; rewrite ?Hprev, ?Hatt; auto.
    + right. split; [done|]. unfold rollback_transition. rewrite bool_decide_eq_true_2 by done.
      rewrite Hundo, Hprev. by eapply ws_wf_ext; [..|apply (owf_ws _ _ Hw)].
    + intros t ->. destruct Hadm as (->&?&?). done.
  - done.
  - intros Hne. destruct Htok as [?|(?&_)]; [done|]. set_solver.
  - intros fl0 adm0 [= <- <-]. rewrite Hprev. intros Hne. pose proof (owf_issued _ _ Hw Hne). set_solver.
  - split_and!; [done| |].
    + intros Hin. rewrite Forall_forall in Hused. destruct (Hused _ Hin). destruct Htok as [?|(_&?&_)]; done.
    + eapply Forall_impl; [done|]. intros t [? ?]. split; [done|set_solver].
  - split; [done|]. eapply Forall_impl; [done|]. intros st. unfold gen in *. simpl. lia.
Qed.

Lemma size_union_nonempty (a : string) (A : gset string) : {[a]} ∪ A ≠ ∅.
Proof. set_solver. Qed.

Lemma busy_wf agents now w w' :
  ws_wf w → below_max w → agents ≠ ∅ → ws_agentIDs w' = agents →
  ws_state w' = busy_state agents now (ws_state w) → ws_wf w' ∧ gen w' = (gen w + 1)%Z ∧ token w' = EmptyString.
Proof.
  intros Hw Hb Ha Ea Es. pose proof (gen_incr w Hw Hb) as Hg. pose proof (wwf_gen w Hw) as Hr.
  unfold below_max, gen in *. split_and!.
  - split; rewrite Es, ?Ea; simpl; [done|by right|]. rewrite Hg. lia.
  - unfold gen. by rewrite Es.
  - unfold token. by rewrite Es.
Qed.

(** Changing the object without touching its flight or lowering its generation. *)
Lemma rewrite_wf issued ts o w' :
  object_wf issued o → ws_wf w' → ws_pending w' = ws_pending (ob_ws o) →
  (ws_state w' = ws_state (ob_ws o) ∧ ws_agentIDs w' = ws_agentIDs (ob_ws o)) ∨
  ((gen (ob_ws o) < gen w')%Z ∧
   (token w' ≠ EmptyString → token w' ∈ ts ∪ issued) ∧ token w' ∉ ob_used o ∧
   (∀ fl t, ob_flight o = Some (fl, Some t) → t ≠ token w')) →
  object_wf (ts ∪ issued) (with_ws w' o).
Proof.
  intros Hw Hw' Hp Hcase. destruct (owf_used _ _ Hw) as (Hnd&Hcur&Hused).
  destruct (owf_published _ _ Hw) as [Hsort Hpub].
  assert (gen (ob_ws o) ≤ gen w')%Z as Hg by (unfold gen; destruct Hcase as [[-> _]|[? _]]; unfold gen in *; lia).
  split; simpl; auto.
  - intros fl adm Hfl. pose proof (owf_flight _ _ Hw _ _ Hfl) as [F1 F2 F3 F4 F5 F6]. split; simpl; auto.
    + congruence.
    + destruct Hcase as [[Es Ea]|[Hlt _]].
      * unfold gen in *. rewrite Es. destruct F3 as [?|[Hs Hr]]; [by left|]. right. split; [done|].
        unfold rollback_transition in *. rewrite bool_decide_eq_true_2 in * by congruence.
        eapply ws_wf_ext; [| |exact Hr]; simpl; congruence.
      * left. destruct F3 as [?|[Hs _]]; [lia|]. rewrite <-Hs. done.
    + intros t ->. destruct (F5 t eq_refl) as (?&?&Ht). split_and!; [done|done|].
      destruct Hcase as [[Es _]|(_&_&_&Hne)]; [unfold token in *; congruence|by eapply Hne].
  - intros Hf. rewrite Hp. by apply (owf_idle _ _ Hw).
  - intros Hne. destruct Hcase as [[Es _]|(_&Hi&_)]; [|auto].
    unfold token in *. rewrite Es in *. pose proof (owf_issued _ _ Hw Hne). set_solver.
  - intros fl adm Hfl Hne. pose proof (owf_issued_flight _ _ Hw _ _ Hfl Hne). set_solver.
  - split_and!; [done| |].
    + destruct Hcase as [[Es _]|(_&_&?&_)]; [unfold token in *; congruence|done].
    + eapply Forall_impl; [done|]. intros t [? ?]. split; [done|set_solver].
  - split; [done|]. eapply Forall_impl; [done|]. intros st. simpl. lia.
Qed.

Lemma register_wf issued o resolved root persisted now t st :
  object_wf issued o → fresh_token issued t → persisted_ok o persisted → st = registered_state persisted now t →
  object_wf ({[t; was_QuiescenceToken st]} ∪ issued)
    (with_ws (register_existing resolved root st (ob_ws o)) o).
Proof.
  intros Hw [Ht Hti] Hp ->. set (st := registered_state persisted now t).
  apply rewrite_wf; [done| |by unfold register_existing; simpl; case_match|].
  - unfold register_existing. simpl. case_match.
    + apply registered_state_wf; [done|]. destruct persisted; [|done]. by destruct Hp.
    + by eapply ws_wf_ext; [..|apply (owf_ws _ _ Hw)].
  - unfold register_existing. simpl. destruct (Z.ltb_spec (was_Generation (ws_state (ob_ws o))) (was_Generation st)) as [Hlt|];
      [right|by left]. destruct (owf_used _ _ Hw) as (_&_&Hused). rewrite Forall_forall in Hused.
    unfold gen, token. simpl. split_and!; [done|set_solver| |].
    + destruct (registered_token persisted now t) as [E|(st0&->&E)]; unfold st; rewrite E.
      * intros Hin. destruct (Hused _ Hin). done.
      * by destruct Hp as (_&?&_).
    + intros fl t0 Hfl ->. destruct (registered_token persisted now t) as [E|(st0&->&E)]; unfold st in Hfl; rewrite E in Hfl.
      * pose proof (owf_flight _ _ Hw _ _ Hfl) as Hf. destruct (fwf_admitted _ _ _ Hf t eq_refl) as (Et&Hne&_).
        apply Hti. rewrite Et. eapply (owf_issued_flight _ _ Hw _ _ Hfl). by rewrite <-Et.
      * destruct Hp as (_&_&Hp). by destruct (Hp fl).
Qed.

Lemma start_wf chan issued o w' fl agentID now :
  object_wf issued o → lockMutationCoordinator None (ob_ws o) = Some (Ok tt) → below_max (ob_ws o) →
  begin_start now agentID chan (ob_ws o) = (w', Some fl) → object_wf (∅ ∪ issued) (launched w' fl None o).
Proof.
  intros Hw Hl Hb. unfold begin_start. case_bool_decide as Hin; [done|]. intros [= <- <-].
  set (w' := set_ws_pending _ _).
  destruct (busy_wf ({[agentID]} ∪ ws_agentIDs (ob_ws o)) now (ob_ws o) w') as (?&?&?);
    [apply Hw|done|apply size_union_nonempty|done|done|].
  apply launch_wf; simpl; auto. set_solver.
Qed.

Lemma stop_wf chan issued o w' fl agentID now t :
  object_wf issued o → lockMutationCoordinator None (ob_ws o) = Some (Ok tt) → below_max (ob_ws o) →
  fresh_token issued t → begin_stop now agentID t chan (ob_ws o) = (w', Some fl) →
  object_wf ({[t]} ∪ issued) (launched w' fl None o).
Proof.
  intros Hw Hl Hb [Ht Hti]. unfold begin_stop. case_bool_decide as Hin; [done|]. intros [= <- <-].
  set (agents := ws_agentIDs (ob_ws o) ∖ {[agentID]}).
  assert ({[agentID]} ∪ agents = ws_agentIDs (ob_ws o)) as Hback.
  { apply set_eq. intros x. destruct (decide (x = agentID)); set_solver. }
  pose proof (owf_ws _ _ Hw) as Hwf. pose proof (gen_incr _ Hwf Hb) as Hg. pose proof (wwf_gen _ Hwf).
  case_bool_decide as He; set (w' := set_ws_pending _ _).
  - assert (ws_wf w' ∧ gen w' = (gen (ob_ws o) + 1)%Z) as [Hwf' Hgen].
    { unfold below_max, gen in *. split; [|done]. split; simpl; [done|by left|rewrite Hg; lia]. }
    apply launch_wf; simpl; auto. right. unfold token. simpl. split_and!; [set_solver|done|done].
  - destruct (busy_wf agents now (ob_ws o) w') as (?&?&?); [done..|]. apply launch_wf; simpl; auto.
Qed.

Lemma validate_wf w t :
  ws_wf w → validateMutationState w t = Ok tt →
  ws_agentIDs w = ∅ ∧ was_MutationStatus (ws_state w) = ALLOWED ∧ t = token w ∧ t ≠ EmptyString.
Proof.
  intros Hw. unfold validateMutationState. destruct (_ || _) eqn:E; [done|]. intros _.
  apply orb_false_elim in E as [E E4]. apply orb_false_elim in E as [E E3]. apply orb_false_elim in E as [E1 E2].
  to_prop. assert (was_MutationStatus (ws_state w) = ALLOWED) as Hs
    by (by destruct (decide (was_MutationStatus (ws_state w) = ALLOWED))).
  destruct (wwf_status w Hw) as [(_&?&?)|(?&_)]; [|unfold ALLOWED, BUSY in *; congruence].
  split_and!; [done|done| |].
  - unfold token. by destruct (decide (t = was_QuiescenceToken (ws_state w))).
  - intros ->. done.
Qed.

Lemma mutate_wf chan issued o w' fl now tok t :
  object_wf issued o → lockMutationCoordinator None (ob_ws o) = Some (Ok tt) → below_max (ob_ws o) →
  validateMutationState (ob_ws o) tok = Ok tt → fresh_token issued t →
  begin_mutation now t chan (ob_ws o) = (w', fl) →
  object_wf ({[t]} ∪ issued) (launched w' fl (Some tok) o).
Proof.
  intros Hw Hl Hb Hv [Ht Hti] [= <- <-]. pose proof (owf_ws _ _ Hw) as Hwf.
  destruct (validate_wf _ _ Hwf Hv) as (Ha&Hs&->&Hne). pose proof (gen_incr _ Hwf Hb) as Hg.
  pose proof (wwf_gen _ Hwf) as Hr. set (w' := set_ws_pending _ _).
  assert (ws_wf w') as Hwf'.
  { unfold below_max, gen in *. split; simpl; [apply Hwf|left|rewrite Hg; lia]. done. }
  apply launch_wf; simpl; auto.
  - right. unfold token. simpl. split_and!; [set_solver|done|done].
  - split_and!; [done|done|]. unfold token at 2. simpl. intros E. apply Hti. rewrite <-E.
    by apply (owf_issued _ _ Hw).
Qed.

Lemma restore_wf issued o w' r agentID now :
  object_wf issued o → below_max (ob_ws o) → restore_agent now agentID (ob_ws o) = (w', r) →
  object_wf (∅ ∪ issued) (with_ws w' o).
Proof.
  intros Hw Hb. unfold restore_agent. set (a := if str_empty agentID then _ else _). pose proof (owf_ws _ _ Hw) as Hwf.
  destruct (ws_removed (ob_ws o)); [intros [= <- <-]; apply rewrite_wf; auto|].
  case_bool_decide; [intros [= <- <-]; apply rewrite_wf; auto|]. intros [= <- <-].
  set (w' := set_ws_state _ _).
  destruct (busy_wf ({[a]} ∪ ws_agentIDs (ob_ws o)) now (ob_ws o) w') as (?&?&Ht);
    [done|done|apply size_union_nonempty|done|done|].
  apply rewrite_wf; auto. right. rewrite Ht. destruct (owf_used _ _ Hw) as (_&_&Hu). rewrite Forall_forall in Hu.
  split_and!; [lia|done| |].
  - intros Hin. by destruct (Hu _ Hin).
  - intros fl t Hfl ->. by destruct (fwf_admitted _ _ _ (owf_flight _ _ Hw _ _ Hfl) _ eq_refl) as (_&?&_).
Qed.

Lemma access_wf issued o canonical w' r :
  object_wf issued o → rootForAccess canonical (ob_ws o) = (w', r) → object_wf (∅ ∪ issued) (with_ws w' o).
Proof.
  intros Hw. pose proof (owf_ws _ _ Hw) as Hwf. unfold rootForAccess.
  repeat case_match; intros [= <- <-]; (apply rewrite_wf; [done| |done|by left]); by eapply ws_wf_ext; [..|exact Hwf].
Qed.

Lemma finish_wf issued o fl admitted outcome :
  object_wf issued o → ob_flight o = Some (fl, admitted) → object_wf (∅ ∪ issued) (landed outcome fl admitted o).
Proof.
  intros Hw Hfl. pose proof (owf_flight _ _ Hw _ _ Hfl) as Hf.
  destruct (owf_used _ _ Hw) as (Hnd&Hcur&Hused). destruct (owf_published _ _ Hw) as [Hsort Hpub].
  assert (∅ ∪ issued = issued) as -> by set_solver.
  assert (∀ w, ws_pending w = Some (fl_chan fl) → finishPending (fl_chan fl) w = set_ws_pending None w) as Hfin.
  { intros w Hp. unfold finishPending. by rewrite bool_decide_eq_true_2. }
  unfold landed, finish_transition. destruct (rolls_back outcome) eqn:Er.
  - set (w := rollback_transition fl (ob_ws o)).
    assert (ws_pending w = Some (fl_chan fl)) as Hp.
    { unfold w, rollback_transition. case_bool_decide; simpl; apply Hf. }
    rewrite (Hfin w Hp).
    assert (ws_wf w ∧ (w = ob_ws o ∨ (ws_state w = fl_previous fl))) as [Hwf Hw'].
    { destruct (fwf_undo _ _ _ Hf) as [Hlt|[Hs Hr]].
      - assert (w = ob_ws o) as ->.
        { unfold w, rollback_transition. rewrite bool_decide_eq_false_2; [done|]. intros E. unfold gen in Hlt. rewrite E in Hlt. lia. }
        split; [apply Hw|by left].
      - split; [done|right]. unfold w, rollback_transition. by rewrite bool_decide_eq_true_2. }
    split; simpl; try done.
    + by eapply ws_wf_ext; [..|exact Hwf].
    + unfold token in *. simpl. destruct Hw' as [->|E]; [apply Hw|]. rewrite E. eapply (owf_issued_flight _ _ Hw _ _ Hfl).
    + split_and!; [done| |done]. unfold token. simpl. destruct Hw' as [->|E]; [done|]. rewrite E. apply Hf.
    + split; [done|]. unfold gen. simpl. destruct Hw' as [->|E]; [done|]. rewrite E. apply Hf.
  - rewrite (Hfin _ (fwf_pending _ _ _ Hf)).
    assert (was_Generation (fl_attempted fl) ≤ gen (ob_ws o))%Z as Hle.
    { destruct (fwf_undo _ _ _ Hf) as [?|[Hs _]]; [lia|]. unfold gen. rewrite Hs. lia. }
    split; simpl; try done.
    + by eapply ws_wf_ext; [..|apply Hw].
    + apply (owf_issued _ _ Hw).
    + destruct admitted as [t|]; [|done].
      destruct (fwf_admitted _ _ _ Hf t eq_refl) as (Et&Hne&Hnt). pose proof (fwf_token _ _ _ Hf) as Hnu.
      rewrite <-Et in Hnu. split_and!; [by constructor|intros [E|?]%elem_of_cons; [by apply Hnt; rewrite <-E|done]|].
      constructor; [|done]. split; [done|]. rewrite Et. eapply (owf_issued_flight _ _ Hw _ _ Hfl). by rewrite <-Et.
    + pose proof (fwf_gen _ _ _ Hf). split; [|by constructor].
      constructor; [done|]. eapply Forall_impl; [apply Hf|]. intros st Hst. simpl in *. lia.
Qed.

Lemma ostep_wf chan issued o o' ts : ostep chan issued o o' ts → object_wf issued o → object_wf (ts ∪ issued) o'.
Proof.
  intros Hs Hw. destruct Hs.
  - by eapply register_wf.
  - apply rewrite_wf; [done| |done|by left]. by eapply ws_wf_ext; [..|apply Hw].
  - by eapply start_wf.
  - by eapply stop_wf.
  - by eapply mutate_wf.
  - by eapply restore_wf.
  - by eapply access_wf.
  - by apply finish_wf.
Qed.

Lemma object_wf_issued issued ts o : object_wf issued o → object_wf (ts ∪ issued) o.
Proof.
  intros Hw. destruct (owf_used _ _ Hw) as (?&?&Hu). split; try apply Hw.
  - intros Hne. pose proof (owf_issued _ _ Hw Hne). set_solver.
  - intros fl adm Hfl Hne. pose proof (owf_issued_flight _ _ Hw _ _ Hfl Hne). set_solver.
  - split_and!; [done|done|]. eapply Forall_impl; [done|]. intros t [? ?]. split; [done|set_solver].
Qed.

Lemma wstep_wf y y' : wstep y y' → wsystem_wf y → wsystem_wf y'.
Proof.
  intros Hs Hw. destruct Hs as [y codexID p resolved root persisted now t st _ _ [Ht Hti] Hp ->|y p o o' ts states Ho Hs];
    intros q o0; simpl; rewrite lookup_insert; case_decide; try (intros Hq; apply object_wf_issued; by apply (Hw q)).
  - intros [= <-]. assert (ws_wf (mkWs resolved root (registered_state persisted now t) ∅ None false)) as Hwf.
    { apply registered_state_wf; [done|]. destruct persisted; [|done]. by destruct Hp. }
    split; simpl; try done.
    + unfold token. simpl. set_solver.
    + split_and!; [constructor|apply not_elem_of_nil|constructor].
    + split; constructor.
  - intros [= <-]. eapply ostep_wf; [done|]. by apply (Hw p).
Qed.

Lemma wreach_wf y : rtc wstep wstart y → wsystem_wf y.
Proof.
  intros Hs. assert (wsystem_wf wstart) as H0 by (intros p o; simpl; by rewrite lookup_empty).
  revert H0. induction Hs as [|y1 y2 y3 H12 _ IH]; [done|]. intros H1. apply IH. by eapply wstep_wf.
Qed.

(** ** Theorems *)

(** C20: however agent transitions, file mutations, registrations and failed
    publications interleave, the access state of a workspace is truthful: the agent
    count is the number of active agents, and mutations are allowed, with a token,
    exactly when there is none. *)
Theorem workspace_truthful y p o :
  rtc wstep wstart y → y_objects y !! p = Some o → ws_wf (ob_ws o).
Proof. intros Hs Ho. exact (owf_ws _ _ (wreach_wf y Hs p o Ho)). Qed.

(** C10: a file mutation is admitted only while no agent is active and only with the
    current token, one that no kept mutation has used; over the life of a workspace
    no token is used by two kept mutations. *)
Theorem mutation_token_single_use y p o t :
  rtc wstep wstart y → y_objects y !! p = Some o →
  NoDup (ob_used o) ∧
  (validateMutationState (ob_ws o) t = Ok tt →
   ws_agentIDs (ob_ws o) = ∅ ∧ t = was_QuiescenceToken (ws_state (ob_ws o)) ∧ t ∉ ob_used o).
Proof.
  intros Hs Ho. pose proof (wreach_wf y Hs p o Ho) as Hw. destruct (owf_used _ _ Hw) as (Hnd&Hcur&_).
  split; [done|]. intros Hv. destruct (validate_wf _ _ (owf_ws _ _ Hw) Hv) as (?&_&->&_). done.
Qed.

(** The access states a workspace publishes (or may have published) have
    strictly increasing generations, also when failed publications in between were
    rolled back, and none is newer than the state in memory. *)
Theorem published_generations_increase y p o :
  rtc wstep wstart y → y_objects y !! p = Some o →
  StronglySorted (λ newer older, was_Generation older < was_Generation newer)%Z (ob_published o) ∧
  Forall (λ st, was_Generation st ≤ was_Generation (ws_state (ob_ws o)))%Z (ob_published o).
Proof. intros Hs Ho. exact (owf_published _ _ (wreach_wf y Hs p o Ho)). Qed.

Lemma finish_rollback fl w outcome :
  rolls_back outcome = true → ws_pending w = Some (fl_chan fl) → ws_state w = fl_attempted fl →
  finish_transition outcome fl w =
    set_ws_pending None (set_ws_agentIDs (undo_agents (fl_change fl) (ws_agentIDs w)) (set_ws_state (fl_previous fl) w)).
Proof.
  intros Hr Hp Hs. unfold finish_transition. rewrite Hr. unfold rollback_transition, finishPending.
  rewrite (bool_decide_eq_true_2 (ws_state w = fl_attempted fl)) by done. simpl. by rewrite bool_decide_eq_true_2.
Qed.

(** The first half of an agent transition: nothing, or a change that the flight can
    undo. *)
Definition undoable (w : workspaceState) (c : nat) (b : workspaceState * option flight) : Prop :=
  match b with
  | (w1, None) => w1 = w
  | (w1, Some fl) => fl_chan fl = c ∧ fl_attempted fl = ws_state w1 ∧ fl_previous fl = ws_state w ∧
      undo_agents (fl_change fl) (ws_agentIDs w1) = ws_agentIDs w ∧
      w1 = set_ws_pending (Some c) (set_ws_state (ws_state w1) (set_ws_agentIDs (ws_agentIDs w1) w))
  end.

Lemma agent_transition_undo sink codexID begin agents sv sv' r p w :
  (∀ c, undoable w c (begin c w) ∧ ws_agentIDs (begin c w).1 = agents) →
  agent_transition None sink codexID begin sv = Some (sv', r) →
  sv_states sv !! codexID = Some p → sv_heap sv !! p = Some w → ws_removed w = false →
  ∃ w', sv_heap sv' !! p = Some w' ∧ (rolls_back r = true → w' = w) ∧
    (rolls_back r = false → ws_agentIDs w' = agents ∧ ws_pending w' = None).
Proof.
  intros Hb Hrun Hst Hw Hrem. unfold agent_transition, known in Hrun. rewrite Hst, Hw in Hrun.
  unfold lockMutationCoordinator in Hrun. rewrite Hrem in Hrun.
  destruct (ws_pending w) as [|] eqn:Hp; [done|].
  destruct (Hb (sv_next_chan sv)) as [Hu Ha]. destruct (begin (sv_next_chan sv) w) as [w1 [fl|]].
  - destruct Hu as (Hc&Hatt&Hprev&Hundo&Hw1). simpl in Ha. injection Hrun as <- <-. set (r := emit _ _ _).
    exists (finish_transition r fl w1). simpl. rewrite lookup_insert_eq.
    assert (ws_pending w1 = Some (fl_chan fl)) as Hp1 by (rewrite Hw1, Hc; done). split_and!; [done| |].
    + intros Hr. rewrite finish_rollback by congruence. rewrite Hundo, Hprev, Hw1. destruct w; simpl in *. by subst.
    + intros Hr. unfold finish_transition, finishPending. rewrite Hr, bool_decide_eq_true_2 by done. done.
  - simpl in *. subst w1. injection Hrun as <- <-. exists w. simpl. rewrite lookup_insert_eq. by rewrite Hp.
Qed.

Lemma begin_start_undoable now agentID w c :
  undoable w c (begin_start now agentID c w) ∧ ws_agentIDs (begin_start now agentID c w).1 = {[agentID]} ∪ ws_agentIDs w.
Proof. unfold begin_start. case_bool_decide; simpl; (split; [|set_solver]); [done|]. split_and!; (done || set_solver). Qed.

Lemma begin_stop_undoable now agentID token w c :
  undoable w c (begin_stop now agentID token c w) ∧ ws_agentIDs (begin_stop now agentID token c w).1 = ws_agentIDs w ∖ {[agentID]}.
Proof.
  unfold begin_stop. case_bool_decide; simpl; (split; [|set_solver]); [done|]. split_and!; try done.
  apply set_eq. intros x. destruct (decide (x = agentID)); set_solver.
Qed.

(** An agent transition is all or nothing: when its state is known not to be
    published, the workspace is left exactly as it was before the call; otherwise
    the agent is in the set after [AgentStarted] and not after [AgentStopped], and
    nothing is pending. *)
Theorem agent_transition_all_or_nothing sink now token codexID agentID sv p w :
  agentID ≠ EmptyString → sv_states sv !! codexID = Some p → sv_heap sv !! p = Some w → ws_removed w = false →
  (∀ sv' r, AgentStarted None sink now codexID agentID sv = Some (sv', r) →
     ∃ w', sv_heap sv' !! p = Some w' ∧ (rolls_back r = true → w' = w) ∧
       (rolls_back r = false → ws_agentIDs w' = {[agentID]} ∪ ws_agentIDs w ∧ ws_pending w' = None)) ∧
  (∀ sv' r, AgentStopped None sink now token codexID agentID sv = Some (sv', r) →
     ∃ w', sv_heap sv' !! p = Some w' ∧ (rolls_back r = true → w' = w) ∧
       (rolls_back r = false → ws_agentIDs w' = ws_agentIDs w ∖ {[agentID]} ∧ ws_pending w' = None)).
Proof.
  intros Hne Hst Hw Hrem. split; intros sv' r H.
  - unfold AgentStarted in H. destruct (str_empty agentID) eqn:E; [by apply str_empty_spec in E|].
    eapply agent_transition_undo; [|exact H|done..]. intros c. apply begin_start_undoable.
  - eapply agent_transition_undo; [|exact H|done..]. intros c. apply begin_stop_undoable.
Qed.

(** ** Witnesses *)

Definition demo_ws : workspaceState :=
  mkWs "/w" "/w" (registered_state None 1 "t1") ∅ None false.

(** A workspace is registered, a mutation is admitted and published, an agent starts. *)
Definition demo_w1 : workspaceState * flight := begin_mutation 2 "t2" 0 demo_ws.
Definition demo_o1 : object := launched demo_w1.1 demo_w1.2 (Some "t1") (new_object demo_ws).
Definition demo_o2 : object := landed (Ok tt) demo_w1.2 (Some "t1") demo_o1.
Definition demo_y : wsystem :=
  mkWSystem ∅ (<[0 := demo_o2]> (<[0 := demo_o1]> (<[0 := new_object demo_ws]> ∅))) 2
    (∅ ∪ ({[ "t2" ]} ∪ ({["t1"; "t1"]} ∪ ∅))).

Lemma demo_reach : rtc wstep wstart demo_y.
Proof.
  assert (fresh_token (∅ : gset string) "t1") as F1 by (split; [done|set_solver]).
  assert (fresh_token ({["t1"; "t1"]} ∪ ∅ : gset string) "t2") as F2 by (split; [done|set_solver]).
  eapply rtc_l; [eapply (w_register_new wstart "c" 0 "/w" "/w" None 1 "t1" _ eq_refl eq_refl F1 I eq_refl)|].
  eapply rtc_l.
  { eapply (w_object _ 0 (new_object demo_ws) demo_o1 {["t2"]} ∅); [vm_compute; reflexivity|].
    eapply (o_mutate _ _ _ demo_w1.1 demo_w1.2 2 "t1" "t2"); try (vm_compute; reflexivity). exact F2. }
  eapply rtc_l.
  { eapply (w_object _ 0 demo_o1 demo_o2 ∅ ∅); [vm_compute; reflexivity|].
    apply (o_finish _ _ demo_o1 demo_w1.2 (Some "t1") (Ok tt)). vm_compute. reflexivity. }
  apply rtc_refl.
Qed.

Lemma demo_lookup : y_objects demo_y !! 0 = Some demo_o2.
Proof. apply lookup_insert_eq. Qed.

Lemma workspace_truthful_witness : ws_wf (ob_ws demo_o2).
Proof. exact (workspace_truthful demo_y 0 demo_o2 demo_reach demo_lookup). Defined.

Lemma mutation_token_single_use_witness : NoDup (ob_used demo_o2) ∧ ob_used demo_o2 = ["t1"].
Proof.
  split; [|vm_compute; reflexivity].
  exact (proj1 (mutation_token_single_use demo_y 0 demo_o2 "t2" demo_reach demo_lookup)).
Defined.

Lemma published_generations_increase_witness :
  Forall (λ st, was_Generation st ≤ was_Generation (ws_state (ob_ws demo_o2)))%Z (ob_published demo_o2).
Proof. exact (proj2 (published_generations_increase demo_y 0 demo_o2 demo_reach demo_lookup)). Defined.

Definition demo_service : Service := register_new "c" "/w" "/w" (registered_state None 1 "t1") (mkService ∅ ∅ 0 0).
Definition demo_sink : string → WorkspaceAccessState → res unit := λ _ _, Err (ErrText "refused").

(** With a sink that always fails the agent does not start and nothing remains of the attempt. *)
Definition demo_started : option (Service * res unit) :=
  AgentStarted None (Some demo_sink) 3 "c" "agent" demo_service.
Definition demo_started_sv : Service := from_option fst demo_service demo_started.
Definition demo_started_r : res unit := from_option snd (Ok tt) demo_started.

Lemma agent_transition_all_or_nothing_witness :
  rolls_back demo_started_r = true ∧ sv_heap demo_started_sv !! 0 = Some demo_ws.
Proof.
  assert ("agent" ≠ EmptyString) as H1 by done.
  assert (sv_states demo_service !! "c" = Some 0) as H2 by (vm_compute; reflexivity).
  assert (sv_heap demo_service !! 0 = Some demo_ws) as H3 by (vm_compute; reflexivity).
  assert (demo_started = Some (demo_started_sv, demo_started_r)) as H4 by (vm_compute; reflexivity).
  assert (rolls_back demo_started_r = true) as H5 by (vm_compute; reflexivity).
  split; [exact H5|].
  destruct (proj1 (agent_transition_all_or_nothing (Some demo_sink) 3 "t" "c" "agent" demo_service 0 demo_ws H1 H2 H3 eq_refl)
    demo_started_sv demo_started_r H4) as (w' & Hw' & Hback & _).
  rewrite Hw'. f_equal. exact (Hback H5).
Defined.
