(* ===== verification/WorkspaceFiles.v ===== *)
(** * Workspace files (internal/workspace/service.go)

    Paths, entry metadata and revisions, preconditions of a mutation, staged
    replacement of a target with its rollback, and archive extraction, over the file
    system of [FileSystem].  [ctx.Err()] is a call that the environment may fail. *)

From Stdlib Require Import Ascii String.
From stdpp Require Import base tactics numbers list sorting gmap strings pretty.
From S2P Require Import Prelude GoError GoStrings Sha256 GoPath FileSystem Remote Workspace.
Local Open Scope string_scope.
Local Open Scope nat_scope.
Local Open Scope list_scope.

(** ** Protocol types *)

Inductive WorkspaceEntryKind :=
| ENTRY_KIND_REGULAR_FILE | ENTRY_KIND_DIRECTORY | ENTRY_KIND_SYMBOLIC_LINK | ENTRY_KIND_OTHER.
#[export] Instance WorkspaceEntryKind_eq_dec : EqDecision WorkspaceEntryKind.
Proof. solve_decision. Defined.

Inductive WorkspaceWriteCondition :=
| WRITE_CONDITION_UNSPECIFIED | CREATE_ONLY | REPLACE_ONLY | UPSERT.
#[export] Instance WorkspaceWriteCondition_eq_dec : EqDecision WorkspaceWriteCondition.
Proof. solve_decision. Defined.

Inductive WorkspaceUploadKind :=
| UPLOAD_KIND_UNSPECIFIED | UPLOAD_KIND_REGULAR_FILE | UPLOAD_KIND_ZIP_DIRECTORY.
#[export] Instance WorkspaceUploadKind_eq_dec : EqDecision WorkspaceUploadKind.
Proof. solve_decision. Defined.

Inductive WorkspaceDownloadKind := DOWNLOAD_KIND_REGULAR_FILE | DOWNLOAD_KIND_ZIP_DIRECTORY.

Record WorkspaceEntry := mkWorkspaceEntry {
  we_RelativePath : string;
  we_Name : string;
  we_Kind : WorkspaceEntryKind;
  we_SizeBytes : Z;
  we_ModifiedAtUnixMs : Z;
  we_Revision : string;
  we_TextViewable : bool;
  we_TextEditable : bool;
}.

(** [workspace.Config], its limits. *)
Record Config := mkConfig {
  MaxTextFileBytes : Z;
  MaxInlineUploadBytes : Z;
  MaxInlineDownloadBytes : Z;
  MaxArchiveExpandedBytes : Z;
  MaxArchiveEntryCount : Z;
}.

(** [New]: a limit of zero is replaced by its default. *)
Definition or_default (x d : Z) : Z := if bool_decide (x = 0%Z) then d else x.
Definition New_config (c : Config) : Config :=
  mkConfig (or_default (MaxTextFileBytes c) (Z.shiftl 1 20))
    (or_default (MaxInlineUploadBytes c) (Z.shiftl 2 20))
    (or_default (MaxInlineDownloadBytes c) (Z.shiftl 2 20))
    (or_default (MaxArchiveExpandedBytes c) (Z.shiftl 32 20))
    (or_default (MaxArchiveEntryCount c) 1000).

Definition werr {A} (code : ErrorCode) (message : string) : M FS A := of_res (workspaceErr code message).

(** [ctx.Err()]: cancelled whenever the environment says so. *)
Definition ctx_Err : M FS unit := sys (mret tt).

(** ** Paths *)

Definition canonicalRelative (relative : string) (allowRoot : bool) : res unit :=
  if str_empty relative then
    if allowRoot then Ok tt else workspaceErr ERROR_CODE_WORKSPACE_PATH_INVALID "empty path is not allowed"
  else if negb (ValidString relative) then
    workspaceErr ERROR_CODE_WORKSPACE_PATH_INVALID "workspace path is not UTF-8"
  else if Contains relative "\" || HasPrefix relative "/" || bool_decide (Clean relative ≠ relative)
          || bool_decide (relative = ".") then
    workspaceErr ERROR_CODE_WORKSPACE_PATH_INVALID "workspace path is not canonical"
  else if existsb (λ part, bool_decide (part = "") || bool_decide (part = ".") || bool_decide (part = ".."))
            (Split_slash relative) then
    workspaceErr ERROR_CODE_WORKSPACE_PATH_INVALID "workspace path is not canonical"
  else Ok tt.

Definition within (root candidate : string) : bool :=
  match Rel root candidate with
  | Err _ => false
  | Ok rel => bool_decide (rel ≠ "..") && negb (HasPrefix rel "../") && negb (IsAbs rel)
  end.

(** [root] is a rooted path, as [filepath.Abs] makes it. *)
Definition canonicalRoot (root : string) : M FS string :=
  let abs := Clean root in
  resolved ← attempt (EvalSymlinks abs);
  match resolved with
  | Err e =>
      if errorsIs e ErrNotExist
      then werr ERROR_CODE_WORKSPACE_ENTRY_NOT_FOUND "workspace root does not exist"
      else werr ERROR_CODE_WORKSPACE_ENTRY_NOT_FOUND "workspace root is not a directory"
  | Ok resolved =>
      info ← attempt (Stat resolved);
      match info with
      | Ok i => if fi_IsDir i then mret (Clean resolved)
                else werr ERROR_CODE_WORKSPACE_ENTRY_NOT_FOUND "workspace root is not a directory"
      | Err _ => werr ERROR_CODE_WORKSPACE_ENTRY_NOT_FOUND "workspace root is not a directory"
      end
  end.

(** The search for the nearest existing ancestor; [fuel] is the number of components,
    and [Dir] removes one each time. *)
Fixpoint nearest_ancestor (fuel : nat) (ancestor : string) (missing : list string) : M FS string :=
  resolved ← attempt (EvalSymlinks ancestor);
  match resolved with
  | Ok resolved =>
      info ← attempt (Stat resolved);
      match info with
      | Ok i => if fi_IsDir i then mret (Clean (Join (resolved :: missing)))
                else werr ERROR_CODE_WORKSPACE_ENTRY_NOT_FOUND "workspace root is not a directory"
      | Err _ => werr ERROR_CODE_WORKSPACE_ENTRY_NOT_FOUND "workspace root is not a directory"
      end
  | Err e =>
      if negb (errorsIs e ErrNotExist) then
        werr ERROR_CODE_WORKSPACE_ENTRY_NOT_FOUND "workspace root is not a directory"
      else
        let parent := Dir ancestor in
        if bool_decide (parent = ancestor) then
          werr ERROR_CODE_WORKSPACE_ENTRY_NOT_FOUND "workspace root does not exist"
        else match fuel with
        | O => werr ERROR_CODE_WORKSPACE_ENTRY_NOT_FOUND "workspace root does not exist"
        | S fuel => nearest_ancestor fuel parent (Base ancestor :: missing)
        end
  end.

Definition registerRoot (root : string) : M FS string :=
  let abs := Clean root in
  canonical ← attempt (canonicalRoot abs);
  match canonical with
  | Ok resolved => mret resolved
  | Err _ =>
      info ← attempt (Lstat abs);
      match info with
      | Ok _ => werr ERROR_CODE_WORKSPACE_ENTRY_NOT_FOUND "workspace root is not a directory"
      | Err e =>
          if negb (errorsIs e ErrNotExist) then
            werr ERROR_CODE_WORKSPACE_ENTRY_NOT_FOUND "workspace root is not a directory"
          else nearest_ancestor (length (pcomps abs)) (Dir abs) [Base abs]
      end
  end.

Definition resolve (root relative : string) (allowRoot mustExist : bool) : M FS string :=
  _ ← of_res (canonicalRelative relative allowRoot);
  let abs := Join [root; relative] in
  link ← (if mustExist then
            info ← attempt (Lstat abs);
            mret match info with Ok i => fi_IsSymlink i | Err _ => false end
          else mret false);
  if (link : bool) then
    werr ERROR_CODE_WORKSPACE_ENTRY_TYPE_UNSUPPORTED "symbolic links cannot be accessed directly"
  else
    let check := if mustExist then abs else Dir abs in
    r ← attempt (EvalSymlinks check);
    match r with
    | Err e =>
        if errorsIs e ErrNotExist
        then werr ERROR_CODE_WORKSPACE_ENTRY_NOT_FOUND "workspace parent does not exist"
        else throw e
    | Ok resolved =>
        if negb (within root resolved) then
          werr ERROR_CODE_WORKSPACE_PATH_OUTSIDE_ROOT "workspace path resolves outside root"
        else mret (if mustExist then resolved else abs)
    end.

(** ** Entries and revisions *)

Definition hashIdentity (i : inode) : string :=
  pretty (fi_Mode i) +:+ nul +:+ pretty (fi_Size i) +:+ nul +:+ pretty (in_mtime i) +:+ nul +:+ pretty (in_mtime i) +:+ nul
  +:+ pretty (in_dev i) +:+ nul +:+ pretty (in_ino i) +:+ nul
  +:+ pretty (in_ctime i / 1000000000)%Z +:+ nul +:+ pretty (in_ctime i mod 1000000000)%Z +:+ nul.

Definition metadataRevision (i : inode) : string :=
  let kind := if fi_IsRegular i then "file" else if fi_IsSymlink i then "symlink"
              else if fi_IsDir i then "dir" else "other" in
  "sha256:" +:+ EncodeToString (Sum256 (kind +:+ nul +:+ hashIdentity i)).

Definition entry_kind (i : inode) : WorkspaceEntryKind :=
  if fi_IsRegular i then ENTRY_KIND_REGULAR_FILE
  else if fi_IsDir i then ENTRY_KIND_DIRECTORY
  else if fi_IsSymlink i then ENTRY_KIND_SYMBOLIC_LINK
  else ENTRY_KIND_OTHER.

(** [info.ModTime().UnixMilli()]. *)
Definition mod_millis (i : inode) : Z := (in_mtime i / 1000000)%Z.

Definition entryMetadata (root relative : string) (textLimit : Z) (inspectText : bool) : M FS WorkspaceEntry :=
  _ ← of_res (canonicalRelative relative true);
  let abs := Join [root; relative] in
  info ← Lstat abs;
  let kind := entry_kind info in
  let regular := bool_decide (kind = ENTRY_KIND_REGULAR_FILE) in
  let revision := if regular then metadataRevision info else "" in
  let viewable := regular && (fi_Size info <=? textLimit)%Z in
  viewable ← (if inspectText && viewable then
                content ← attempt (ReadFile abs);
                mret match content with Ok c => ValidString c | Err _ => false end
              else mret viewable);
  mret (mkWorkspaceEntry relative (Base relative) kind (Z.max (fi_Size info) 0) (mod_millis info) revision viewable viewable).

Definition stableTextEntry (relative : string) (i : inode) (content : string) : WorkspaceEntry :=
  mkWorkspaceEntry relative (Base relative) ENTRY_KIND_REGULAR_FILE (slen content) (mod_millis i) (metadataRevision i) true true.

(** [readFileContext]: open, then read while the context allows it. *)
Definition readFileContext (p : string) : M FS string :=
  _ ← Stat p;
  _ ← ctx_Err;
  ReadFile p.

(** ** Preconditions of a mutation *)

Definition validateMutationTarget (target : string) (condition : WorkspaceWriteCondition) (expected : string)
    (want : WorkspaceEntryKind) : M FS unit :=
  r ← attempt (Lstat target);
  match r with
  | Err e => if negb (errorsIs e ErrNotExist) then throw e else mret tt
  | Ok _ => mret tt
  end ≫= λ _,
  let exists_ := match r with Ok _ => true | Err _ => false end in
  match condition with
  | WRITE_CONDITION_UNSPECIFIED => werr ERROR_CODE_INVALID_REQUEST "write condition is required"
  | CREATE_ONLY =>
      if negb (str_empty expected) then werr ERROR_CODE_INVALID_REQUEST "CREATE_ONLY revision must be empty"
      else if (exists_ : bool) then werr ERROR_CODE_CONFLICT "target already exists"
      else mret tt
  | REPLACE_ONLY =>
      if str_empty expected then werr ERROR_CODE_INVALID_REQUEST "REPLACE_ONLY revision is required"
      else if negb exists_ then werr ERROR_CODE_WORKSPACE_ENTRY_NOT_FOUND "target does not exist"
      else mret tt
  | UPSERT =>
      if str_empty expected && exists_ then werr ERROR_CODE_WORKSPACE_REVISION_CONFLICT "target unexpectedly exists"
      else if negb (str_empty expected) && negb exists_ then
        werr ERROR_CODE_WORKSPACE_REVISION_CONFLICT "target unexpectedly does not exist"
      else mret tt
  end ≫= λ _,
  match r with
  | Err _ => mret tt
  | Ok info =>
      let kind := if fi_IsDir info then ENTRY_KIND_DIRECTORY
                  else if fi_IsRegular info then ENTRY_KIND_REGULAR_FILE else ENTRY_KIND_OTHER in
      if bool_decide (kind ≠ want) then werr ERROR_CODE_CONFLICT "target kind conflicts with request"
      else if negb (str_empty expected) && bool_decide (metadataRevision info ≠ expected) then
        werr ERROR_CODE_WORKSPACE_REVISION_CONFLICT "workspace revision changed"
      else mret tt
  end.

Definition validateUploadTarget (target : string) : M FS unit :=
  r ← attempt (Lstat target);
  match r with
  | Err e => if errorsIs e ErrNotExist then mret tt else throw e
  | Ok info =>
      if negb (fi_IsRegular info) && negb (fi_IsDir info) then
        werr ERROR_CODE_WORKSPACE_ENTRY_TYPE_UNSUPPORTED "upload target is a symbolic link or unsupported entry"
      else mret tt
  end.

(** ** Staged replacement *)

(** [newToken] fed by the environment. *)
Definition next_token : M FS string := λ s,
  match fs_rand s with
  | Some raw :: rand => (set_fs_rand rand s, Ok (newToken (Ok raw) 0))
  | _ => (set_fs_rand (tail (fs_rand s)) s, Ok (newToken (Err (ErrText "entropy")) (fs_clock s)))
  end.

Definition atomicFile (target content : string) : M FS unit :=
  let parent := Dir target in
  name ← CreateTemp parent ".codex-remote-write-";
  r ← attempt (
    err ← attempt (_ ← Chmod name 420; FileWrite name content);
    err ← match err with Ok _ => attempt (FileSync name) | Err e => mret (Err e) end;
    closeErr ← attempt (FileClose name);
    match err with
    | Err e => throw e
    | Ok _ => match closeErr with Err e => throw e | Ok _ => Rename name target end
    end);
  _ ← attempt (Remove name);
  of_res r.

Record targetBackup := mkBackup {
  tb_target : string;
  tb_backup : string;
  tb_existed : bool;
}.

Definition stageTarget (target : string) : M FS targetBackup :=
  r ← attempt (Lstat target);
  match r with
  | Err e => if errorsIs e ErrNotExist then mret (mkBackup target "" false) else throw e
  | Ok _ =>
      token ← next_token;
      let backup := Join [Dir target; ".codex-remote-rollback-" +:+ token] in
      _ ← Rename target backup;
      mret (mkBackup target backup true)
  end.

Definition rollback (b : targetBackup) : M FS unit :=
  _ ← RemoveAll (tb_target b);
  if tb_existed b then Rename (tb_backup b) (tb_target b) else mret tt.

Definition discard (b : targetBackup) : M FS unit :=
  if tb_existed b then _ ← attempt (RemoveAll (tb_backup b)); mret tt else mret tt.

(** [return rollbackMutation(backup, cause)]: always an error. *)
Definition rollback_failed (cause e : goerr) : goerr :=
  ErrJoin cause (ErrWrapped "workspace filesystem rollback failed: " e "").

Definition rollbackMutation {A} (b : targetBackup) (cause : goerr) : M FS A :=
  r ← attempt (rollback b);
  match r with
  | Err e => throw (rollback_failed cause e)
  | Ok _ => throw cause
  end.

Definition replaceTree (target staging : string) : M FS unit :=
  token ← next_token;
  let backup := target +:+ ".codex-remote-backup-" +:+ token in
  r ← attempt (Lstat target);
  exists_ ← (match r with
             | Ok _ => _ ← Rename target backup; mret true
             | Err e => if errorsIs e ErrNotExist then mret false else throw e
             end : M FS bool);
  moved ← attempt (Rename staging target);
  match moved with
  | Err e => _ ← (if (exists_ : bool) then attempt (Rename backup target) else mret (Ok tt) : M FS (res unit)); throw e
  | Ok _ => _ ← (if (exists_ : bool) then attempt (RemoveAll backup) else mret (Ok tt) : M FS (res unit)); mret tt
  end.

(** ** Archives *)

(** An entry of a parsed archive: what opening and reading it delivers, data and
    possibly an error at the end. *)
Record zip_item := mkZipItem {
  zi_Name : string;
  zi_Dir : bool;
  zi_Regular : bool;
  zi_Symlink : bool;
  zi_UncompressedSize64 : Z;
  zi_Open : res (string * option goerr);
}.

Section Zip.
(** [archive/zip]: the reader, and the writer's buffer after some entries and after
    [Close]. *)
Context (zip_NewReader : string → res (list zip_item)).

(** One archive entry. *)
Definition extract_item (cfg : Config) (staging : string) (acc : gset string * Z) (item : zip_item)
    : M FS (gset string * Z) :=
  _ ← ctx_Err;
  let name := TrimSuffix (zi_Name item) "/" in
  match canonicalRelative name false with
  | Err _ => werr ERROR_CODE_WORKSPACE_ARCHIVE_INVALID "archive path is invalid"
  | Ok _ =>
      let '(seen, expanded) := acc in
      if bool_decide (name ∈ seen) then
        werr ERROR_CODE_WORKSPACE_ARCHIVE_INVALID "archive has duplicate paths"
      else if zi_Symlink item || (negb (zi_Regular item) && negb (zi_Dir item)) then
        werr ERROR_CODE_WORKSPACE_ARCHIVE_INVALID "archive contains unsupported entry"
      else
        let seen := {[name]} ∪ seen in
        let expanded := u64_add expanded (zi_UncompressedSize64 item) in
        if (MaxArchiveExpandedBytes cfg <? expanded)%Z then
          werr ERROR_CODE_WORKSPACE_ARCHIVE_EXPANDED_TOO_LARGE "archive expansion exceeds hard limit"
        else
          let dest := Join [staging; name] in
          if negb (within staging dest) then
            werr ERROR_CODE_WORKSPACE_ARCHIVE_INVALID "archive path escapes staging"
          else if zi_Dir item then
            _ ← MkdirAll dest 493; mret (seen, expanded)
          else
            _ ← MkdirAll (Dir dest) 493;
            data ← of_res (zi_Open item);
            _ ← OpenExclusive dest 420;
            _ ← FileWrite dest (str_take (Z.to_nat (MaxArchiveExpandedBytes cfg + 1)) data.1);
            _ ← match data.2 with
                | Some e => if (slen data.1 <=? MaxArchiveExpandedBytes cfg)%Z then throw e else mret tt
                | None => mret tt
                end;
            _ ← ctx_Err;
            mret (seen, expanded)
  end.

Fixpoint extract_items (cfg : Config) (staging : string) (acc : gset string * Z) (items : list zip_item)
    : M FS (gset string * Z) :=
  match items with
  | [] => mret acc
  | item :: items => acc ← extract_item cfg staging acc item; extract_items cfg staging acc items
  end.

Definition extractZIPAtomic (cfg : Config) (target content : string) : M FS unit :=
  match zip_NewReader content with
  | Err _ => werr ERROR_CODE_WORKSPACE_ARCHIVE_INVALID "invalid ZIP archive"
  | Ok items =>
      if (MaxArchiveEntryCount cfg <? u32 (zlen items))%Z then
        werr ERROR_CODE_WORKSPACE_ARCHIVE_TOO_MANY_ENTRIES "archive has too many entries"
      else
        staging ← MkdirTemp (Dir target) ".codex-remote-upload-";
        r ← attempt (_ ← extract_items cfg staging (∅, 0%Z) items; replaceTree target staging);
        _ ← attempt (RemoveAll staging);
        of_res r
  end.

End Zip.

(** ** Paths: theorems *)

(** A canonical relative path: names separated by single slashes. *)
Definition canonical_path (relative : string) : Prop :=
  ValidString relative = true ∧ Contains relative "\" = false ∧
  ∃ parts, parts ≠ [] ∧ Forall normal parts ∧ relative = join_slash parts.

Lemma existsb_Forall {A} (f : A → bool) l : existsb f l = false ↔ Forall (λ x, f x = false) l.
Proof.
  induction l as [|x l IH]; simpl; [done|]. by rewrite orb_false_iff, Forall_cons, IH.
Qed.

Lemma Clean_canonical parts : parts ≠ [] → Forall normal parts → Clean (join_slash parts) = join_slash parts.
Proof.
  intros Hne Hn. destruct parts as [|c parts]; [done|]. apply Forall_cons in Hn as Hc. destruct Hc as [Hc _].
  unfold Clean. rewrite IsAbs_join by apply Hc. unfold clean_comps.
  rewrite Split_join by (done || by apply normal_slash_free). rewrite foldl_clean_normal, app_nil_r, rev_involutive by done. done.
Qed.

(** [canonicalRelative] accepts exactly the paths that are a non-empty list of entry
    names (no empty component, ".", "..", backslash or invalid UTF-8) joined by single
    slashes, and the empty path where the root itself may be named. *)
Theorem canonicalRelative_spec relative allowRoot :
  canonicalRelative relative allowRoot = Ok tt ↔
  (relative = "" ∧ allowRoot = true) ∨ canonical_path relative.
Proof.
  unfold canonicalRelative, canonical_path. destruct (str_empty relative) eqn:E0.
  { apply str_empty_spec in E0 as ->. destruct allowRoot; split; intros H; try done; [by left|].
    destruct H as [[_ H] | (_ & _ & parts & Hne & Hn & H)]; [done|].
    destruct parts as [|c parts]; [done|]. apply Forall_cons in Hn as [(Hf & Hc & _) _].
    destruct (join_slash_head c parts) as (s & Hs & _). rewrite Hs in H. by destruct c. }
  assert (relative ≠ "") as Hne by (intros ->; done).
  destruct (ValidString relative); simpl; [|split; [done|naive_solver]].
  destruct (Contains relative "\"); simpl; [split; [done|naive_solver]|].
  split.
  - intros H. right. split_and!; [done..|]. exists (Split_slash relative).
    split_and!; [apply Split_slash_ne| |by rewrite join_split].
    destruct (HasPrefix relative "/" || _ || _) eqn:E1; [done|].
    destruct (existsb _ _) eqn:E2; [done|]. apply existsb_Forall in E2.
    apply Forall_forall. intros c Hc. pose proof (Split_slash_parts relative) as Hf.
    rewrite Forall_forall in E2, Hf. specialize (E2 c Hc). to_prop. by split; [apply Hf|].
  - intros [[? _] | (_ & _ & parts & Hp & Hn & ->)]; [done|].
    rewrite Clean_canonical, bool_decide_false by tauto.
    assert (HasPrefix (join_slash parts) "/" = false) as ->.
    { destruct parts as [|c parts]; [done|]. apply Forall_cons in Hn as [Hc _]. apply IsAbs_join; apply Hc. }
    rewrite (bool_decide_false (join_slash parts = ".")).
    + rewrite Split_join by (done || by apply normal_slash_free). simpl.
      replace (existsb _ parts) with false; [done|]. symmetry. apply existsb_Forall.
      eapply Forall_impl; [exact Hn|]. intros c (_ & ? & ? & ?). simpl. by rewrite !bool_decide_false.
    + intros E. apply (f_equal Split_slash) in E. rewrite Split_join in E by (done || by apply normal_slash_free).
      subst parts. apply Forall_cons in Hn as [(_ & _ & Hd & _) _]. done.
Qed.

(** Containment is the prefix order on components. *)
Lemma within_spec rs cs : Forall normal rs → Forall normal cs →
  within (apath rs) (apath cs) = true ↔ rs `prefix_of` cs.
Proof.
  intros Hr Hc. unfold within. rewrite Rel_apath by done. case_bool_decide as E; [by subst|].
  destruct (strip_common rs cs) as [bs ts] eqn:Es. destruct bs as [|b bs].
  - pose proof (strip_common_prefix rs cs) as Hp. rewrite Es in Hp. specialize (Hp eq_refl).
    split; [done|]. intros _. destruct Hp as [l ->]. rewrite strip_common_app in Es. injection Es as <-. simpl.
    destruct l as [|c l]; [by rewrite app_nil_r in E|].
    apply Forall_app in Hc as [_ [Hc _]%Forall_cons].
    destruct (join_not_up c l Hc) as [H1 H2]. rewrite H2, bool_decide_true by done.
    by rewrite IsAbs_join by apply Hc.
  - split; [|intros [l ->]; by rewrite strip_common_app in Es].
    rewrite fmap_cons, <- app_comm_cons. generalize (((λ _ : string, "..") <$> bs) ++ ts) as up.
    intros [|x l]; [done|].
    rewrite join_slash_cons by done. intros H. to_prop.
    assert (HasPrefix (".." +:+ String slash (join_slash (x :: l))) "../" = true) as Ht by done. congruence.
Qed.

Definition unchanged {A} (t0 : tree) (Q : A → Prop) (r : res A) (t : tree) : Prop :=
  t = t0 ∧ match r with Ok a => Q a | Err _ => True end.

(** Whatever the kernel finds under the path [p] lies inside the root [rs]. *)
Definition confined (t : tree) (rs : list string) (p : string) : Prop :=
  ∀ loc, locate t p = Ok loc → rs `prefix_of` loc.

Lemma join_canonical rs relative allowRoot :
  Forall normal rs → canonicalRelative relative allowRoot = Ok tt →
  ∃ parts, Forall normal parts ∧ Join [apath rs; relative] = apath (rs ++ parts) ∧ (allowRoot = false → parts ≠ []).
Proof.
  intros Hr [[-> ->] | (_ & _ & parts & Hne & Hp & ->)]%canonicalRelative_spec.
  - exists []. rewrite Join_root, app_nil_r by done. done.
  - exists parts. by rewrite Join_parts.
Qed.

Lemma confined_physical t rs cs : Forall normal cs → physical t cs → rs `prefix_of` cs → confined t rs (apath cs).
Proof.
  intros Hn Hp Hrs loc. destruct cs as [|c cs _] using rev_ind; [by intros [= <-]|].
  apply Forall_app in Hn as [Hn Hc]. apply Forall_cons in Hc as [Hc _]. rewrite locate_in; [by intros [= <-]|done| |done].
  intros k Hk Hne. destruct (Hp k) as (i & Hi & _ & Hd); [by etrans; [|apply prefix_app_r]|done|].
  exists i. split; [done|]. apply Hd. intros ->. apply prefix_length in Hk. rewrite length_app in Hk. simpl in Hk. lia.
Qed.

(** C19: Confinement.  A path that [resolve] returns for a canonical root, whatever
    symbolic links the tree contains, names nothing outside the root: where the entry
    must exist, the result is a physical path (every ancestor a real directory, no link
    on it) below the root; where only its parent must exist, whatever the kernel opens
    under the returned name is below the root. *)
Theorem resolve_confined rs relative allowRoot mustExist s s' p :
  Forall normal rs →
  resolve (apath rs) relative allowRoot mustExist s = (s', Ok p) →
  fs_tree s' = fs_tree s ∧ confined (fs_tree s) rs p ∧
  (mustExist = true → ∃ cs, p = apath cs ∧ Forall normal cs ∧ rs `prefix_of` cs ∧ physical (fs_tree s) cs).
Proof.
  intros Hr H.
  unfold resolve in H. apply M_bind_inv_ok in H as (s1 & [] & H1 & H). unfold of_res in H1. injection H1 as <- Hc.
  destruct (join_canonical rs relative allowRoot Hr Hc) as (parts & Hp & Hj & _). rewrite Hj in H.
  apply M_bind_inv_ok in H as (s1 & link & H1 & H).
  assert (fs_tree s1 = fs_tree s) as Ht1.
  { destruct mustExist; [|by injection H1 as <- _]. apply M_bind_inv_ok in H1 as (s2 & x & H1 & H2).
    unfold mret, M_ret in H2. simplify_eq. apply attempt_inv, Lstat_inv in H1. apply H1. }
  destruct link; [done|]. apply M_bind_inv_ok in H as (s2 & r & H2 & H).
  apply attempt_inv, EvalSymlinks_inv in H2 as [Ht2 Hr2].
  destruct r as [resolved|e]; [|by destruct (errorsIs e ErrNotExist)].
  destruct (Hr2 _ eq_refl) as (cs & -> & E). rewrite Ht1 in E, Ht2. clear Hr2.
  destruct (within (apath rs) (apath cs)) eqn:Hw; [|done]. unfold mret, M_ret in H. simpl in H. injection H as <- Hpq.
  split; [done|].
  destruct (walk_sound _ _ _ _ _ (real_dir_nil _) (Forall_nil_2 _) (Split_slash_parts _) E) as [Hphys Hn].
  rewrite within_spec in Hw by done.
  destruct mustExist; subst p.
  { split; [by apply confined_physical|]. intros _. by exists cs. }
  split; [|done]. destruct (rs ++ parts) as [|c q _] eqn:Eq using rev_ind.
  - intros loc [= <-]. apply app_nil in Eq as [-> _]. done.
  - assert (Forall normal (q ++ [c])) as [Hq [Hcn _]%Forall_cons]%Forall_app.
    { rewrite <- Eq. by apply Forall_app. }
    rewrite Dir_apath, walk_apath in E by (done || apply Hcn).
    intros loc Hloc. rewrite (locate_walk _ _ _ _ _ _ Hq Hcn E Hloc). by apply prefix_app_r.
Qed.
