(* ===== verification/WorkspaceStaging.v ===== *)
(** * Staged replacement of a workspace target: theorems

    What [stageTarget], [atomicFile], [extractZIPAtomic], [rollback] and [discard] do to
    the tree, whatever calls fail.  The Host's own files (backups, temporary files,
    staging directories) carry the marker [.codex-remote-] in their names; a path
    without such a component is visible to clients. *)

From Stdlib Require Import Ascii String.
From stdpp Require Import base tactics numbers list sorting gmap strings pretty.
From S2P Require Import Prelude GoError GoStrings Sha256 GoPath FileSystem FileCalls Remote Workspace WorkspaceFiles.
Local Open Scope string_scope.
Local Open Scope nat_scope.
Local Open Scope list_scope.

(** ** Names of the Host's own files *)

Definition marker : string := ".codex-remote-".
Definition host_name (x : string) : Prop := Contains x marker = true.
Definition visible (k : list string) : Prop := Forall (λ x, ¬ host_name x) k.

Lemma contains_here sub l k : contains_list sub (l ++ sub ++ k) = true.
Proof.
  induction l as [|a l IH]; simpl.
  - destruct sub as [|b sub]; [by destruct k|]. simpl. rewrite Ascii.eqb_refl. simpl.
    assert (is_prefix sub (sub ++ k) = true) as -> by (apply is_prefix_spec; eauto). done.
  - rewrite IH. apply orb_true_r.
Qed.

Lemma host_name_intro a b : host_name (a +:+ marker +:+ b).
Proof. unfold host_name, Contains. rewrite !chars_app. apply contains_here. Qed.

Lemma pretty_N_slash_free (x : N) : slash_free (pretty x).
Proof.
  assert (∀ s, slash_free s → slash_free (pretty_N_go x s)) as Hgo.
  { induction (N.lt_wf_0 x) as [x _ IH]; intros s Hs. assert (x = 0 ∨ 0 < x)%N as [-> | Hx] by lia; [by rewrite pretty_N_go_0|].
    rewrite pretty_N_go_step by done. apply IH; [by apply N.div_lt|].
    unfold slash_free. simpl. apply not_elem_of_cons. split; [|done].
    unfold pretty_N_char. by repeat case_match. }
  unfold pretty, pretty_N. case_decide; [|apply Hgo; apply not_elem_of_nil]. unfold slash_free. simpl. set_solver.
Qed.

Lemma pretty_Z_slash_free (x : Z) : slash_free (pretty x).
Proof.
  unfold pretty, pretty_Z. destruct x; try apply pretty_N_slash_free.
  - unfold slash_free. simpl. set_solver.
  - apply (slash_free_app "-"); [unfold slash_free; simpl; set_solver|apply pretty_N_slash_free].
Qed.

Lemma newToken_slash_free entropy nanos : slash_free (newToken entropy nanos).
Proof.
  destruct entropy; simpl; [apply EncodeToString_slash_free|].
  apply (slash_free_app "q-"); [unfold slash_free; simpl; set_solver|apply pretty_Z_slash_free].
Qed.

(** A name with the marker in it is an entry name. *)
Lemma host_name_normal x : host_name x → slash_free x → normal x.
Proof. intros H Hf. split_and!; [done|..]; intros ->; vm_compute in H; discriminate. Qed.

Lemma temp_name_normal pre raw : slash_free pre → host_name (pre +:+ EncodeToString raw) → normal (pre +:+ EncodeToString raw).
Proof. intros Hp H. apply host_name_normal; [done|]. by apply slash_free_app; [|apply EncodeToString_slash_free]. Qed.

Lemma rollback_name token : host_name (".codex-remote-rollback-" +:+ token).
Proof. apply (host_name_intro "" ("rollback-" +:+ token)). Qed.

Lemma visible_not_under d x k l : host_name x → visible k → ¬ (d ++ x :: l) `prefix_of` k.
Proof. intros Hx Hk [m ->]. unfold visible in Hk. rewrite !Forall_app, Forall_cons in Hk. naive_solver. Qed.

(** ** Temporary names of the Host *)

Lemma create_host_temp_in P I n perm pre : Forall normal P → at_dir P I → slash_free pre → (∀ s, host_name (pre +:+ s)) →
  triple I (create_temp n perm (apath P) pre) (λ r t',
    match r with
    | Ok p => ∃ t x i, I t ∧ p = apath (P ++ [x]) ∧ normal x ∧ host_name x ∧
        t !! (P ++ [x]) = None ∧ t' = <[P ++ [x] := i]> t ∧ in_node i = n
    | Err _ => I t'
    end).
Proof.
  intros HP HI Hpre Hhost. eapply triple_post; [apply (create_temp_in P HP); [done|intros raw; by apply temp_name_normal]|].
  intros [p|e] t'; [|done]. intros (t & x & i & Ht & Hp & Hn & [raw ->] & H). exists t, (pre +:+ EncodeToString raw), i. naive_solver.
Qed.

(** ** A target in a real directory *)

(** What clients see is the same, up to change times. *)
Definition same_visible (t0 t : tree) : Prop := ∀ k, visible k → elook t k = elook t0 k.

Section Staging.
Context (P : list string) (c : string) (t0 : tree).
Context (HP : Forall normal P) (Hc : normal c) (Hvc : ¬ host_name c).

Notation T := (P ++ [c]).

(** Nothing visible but the target has changed, nor the directories above it. *)
Definition outside (t : tree) : Prop :=
  ∀ k, visible k ∨ k `prefix_of` P → ¬ T `prefix_of` k → elook t k = elook t0 k.

(** The old target is kept under the host name [h], or there was none. *)
Definition saved (h : option string) (t : tree) : Prop :=
  match h with
  | Some h => normal h ∧ host_name h ∧ is_Some (t0 !! T) ∧ ∀ l, elook t (P ++ h :: l) = elook t0 (T ++ l)
  | None => ∀ l, t0 !! (T ++ l) = None
  end.

Definition working (h : option string) (t : tree) : Prop := real_dir t P ∧ outside t ∧ saved h t.
Definition absent (t : tree) : Prop := ∀ l, t !! (T ++ l) = None.

Definition backup_of (h : option string) : targetBackup :=
  match h with
  | Some h => mkBackup (apath T) (apath (P ++ [h])) true
  | None => mkBackup (apath T) "" false
  end.

Lemma working_at_dir h : at_dir P (working h).
Proof. by intros t []. Qed.

Lemma host_ne x : host_name x → x ≠ c.
Proof. by intros H ->. Qed.

Lemma off_host x k : host_name x → visible k ∨ k `prefix_of` P → ¬ P ++ [x] `prefix_of` k.
Proof. intros Hx [Hk|Hk]; [by apply visible_not_under|by apply not_below_child]. Qed.

(** Changes below the target and below another host name keep [working]. *)
Lemma working_frame h x t t' :
  working h t → host_name x → h ≠ Some x →
  (∀ k, ¬ P ++ [x] `prefix_of` k → ¬ T `prefix_of` k → t' !! k = t !! k) → working h t'.
Proof.
  intros (Hd & Ho & Hs) Hx Hhx Hf. split_and!.
  - eapply real_dir_frame; [exact Hd|]. intros k Hk. apply Hf; by apply not_below_child.
  - intros k Hk HT. rewrite <- Ho by done. apply elook_eq, Hf; [by eapply off_host|done].
  - destruct h as [h|]; [|done]. destruct Hs as (Hn & Hh & Hi & Hl). split_and!; [done..|].
    intros l. rewrite <- Hl. apply elook_eq, Hf; intros ->%child_prefix; [done|by apply Hvc].
Qed.

(** A host name that is free is not where the backup is. *)
Lemma working_fresh h x t : working h t → t !! (P ++ [x]) = None → h ≠ Some x.
Proof.
  intros (_ & _ & Hs) Hn ->. destruct Hs as (_ & _ & [i Hi] & Hl). specialize (Hl []).
  rewrite (proj2 (elook_None t (P ++ [x])) Hn), app_nil_r in Hl. symmetry in Hl. apply elook_None in Hl. congruence.
Qed.

Lemma absent_frame x t t' : absent t → x ≠ c → (∀ k, ¬ P ++ [x] `prefix_of` k → t' !! k = t !! k) → absent t'.
Proof.
  intros Ha Hx Hf l. rewrite Hf; [apply Ha|]. rewrite <- app_assoc. by intros ->%child_prefix.
Qed.

Lemma insert_off x i (t : tree) k : ¬ P ++ [x] `prefix_of` k → <[P ++ [x] := i]> t !! k = t !! k.
Proof. intros H. apply lookup_insert_ne. by intros <-. Qed.

(** [stageTarget]: the target moves aside, whole, or nothing visible changes. *)
Lemma stageTarget_spec :
  real_dir t0 P → closed t0 →
  triple (λ t, t = t0) (stageTarget (apath T)) (λ r t,
    match r with
    | Ok b => ∃ h, b = backup_of h ∧ working h t ∧ absent t ∧ closed t
    | Err _ => t = t0
    end).
Proof.
  intros Hd Hcl. assert (at_dir P (λ t, t = t0)) as Hat by by intros t ->.
  assert (T ≠ []) as HT by by destruct P.
  unfold stageTarget. fs_try (λ (r : res inode) t, t = t0 ∧ match r with Ok i => t0 !! T = Some i | Err e => errorsIs e ErrNotExist = true → t0 !! T = None end).
  { eapply triple_post; [by apply Lstat_in|]. intros [i|e] t [-> H]; done. }
  destruct a as [i|e].
  - fs_bind (λ (r : res string) t, t = t0 ∧ match r with Ok token => slash_free token | Err _ => True end); [| |by intros e t []].
    { intros s s' r [Ht _] H. unfold next_token in H.
      destruct (fs_rand s) as [|[raw|] rand]; simplify_eq; (split; [done|]); [apply newToken_slash_free..]. }
    apply (triple_pure (slash_free a)); [by intros t []|]. intros Htok.
    eapply (triple_conseq (λ t, t = t0)); [by intros t [-> _]| |by intros r t H; exact H].
    rewrite Dir_apath by (done || apply Hc). set (h := ".codex-remote-rollback-" +:+ a).
    assert (host_name h) as Hh by apply rollback_name.
    assert (normal h) as Hn by (apply host_name_normal; [done|by apply slash_free_app; [apply (bool_decide_unpack _); vm_compute|]]).
    rewrite Join_child by done. cbv zeta.
    apply (triple_bind (λ t, t = t0) _ (λ r t', match r with Ok _ => ∃ t, t = t0 ∧ renamed T (P ++ [h]) t t' | Err _ => t' = t0 end)).
    { apply Rename_in; try done. intros ->. by apply Hvc. }
    2: done.
    intros u. apply triple_ret. intros t (? & -> & Hrn). exists (Some h). split_and!; [done| | |].
    + split_and!.
      * eapply real_dir_frame; [exact Hd|]. intros k Hk. apply (rn_other _ _ _ _ Hrn); by apply not_below_child.
      * intros k Hk HTk. apply elook_eq, (rn_other _ _ _ _ Hrn); [done|by apply off_host].
      * split_and!; [done..|apply (rn_source _ _ _ _ Hrn)|]. intros l. rewrite <- (rn_moved _ _ _ _ Hrn), <- app_assoc. done.
    + intros l. apply (rn_gone _ _ _ _ Hrn).
    + eapply renamed_closed; [done|exact Hrn|]. intros HPne. destruct (Hd P) as (j & Hj & Hdj); [done..|].
      exists j. rewrite (rn_other _ _ _ _ Hrn) by by apply not_below_child. done.
  - destruct (errorsIs e ErrNotExist) eqn:E; [|apply triple_throw; by intros t []].
    apply triple_ret. intros t [-> Hn]. specialize (Hn eq_refl). exists None.
    assert (∀ l, t0 !! (T ++ l) = None) as Habs by by intros l; apply closed_missing.
    split_and!; [done| |done|done]. split_and!; [done|by intros k|done].
Qed.

(** [rollback] brings the old target back; [t0] is visible again. *)
Lemma rollback_spec h :
  triple (working h) (rollback (backup_of h)) (λ r t, match r with Ok _ => same_visible t0 t | Err _ => True end).
Proof.
  unfold rollback.
  assert (tb_target (backup_of h) = apath T) as -> by by destruct h.
  fs_bind (λ (r : res unit) t', ∃ t, working h t ∧ match r with Ok _ => t' = drop_tree T t | Err _ => True end); [| |done].
  { eapply triple_post; [apply (RemoveAll_in P HP (working h)); [apply working_at_dir|done]|].
    intros [u|e] t' (t & Ht & H); eauto. }
  destruct h as [h|]; simpl.
  - apply (triple_pure (normal h ∧ host_name h)); [by intros t' (t & (_ & _ & ? & ? & _) & _)|]. intros [Hn Hh].
    eapply triple_post; [apply (Rename_in P HP)|]; try done.
    + intros t' (t & (Hd & _) & ->). eapply real_dir_frame; [exact Hd|]. intros k Hk.
      apply lookup_drop_tree_other. by apply not_below_child.
    + by apply host_ne.
    + intros [u|e] t2; [|done]. intros (t1 & (t & (_ & Ho & _ & _ & _ & Hl) & ->) & Hrn) k Hk.
      destruct (decide (T `prefix_of` k)) as [[l ->]|HTk].
      * rewrite (rn_moved _ _ _ _ Hrn), <- Hl, <- app_assoc. apply elook_eq, lookup_drop_tree_other.
        intros ->%child_prefix. by apply Hvc.
      * rewrite <- Ho by auto. apply elook_eq. rewrite (rn_other _ _ _ _ Hrn) by (done || by apply visible_not_under).
        by apply lookup_drop_tree_other.
  - apply triple_ret. intros t' (t & (_ & Ho & Hs) & ->) k Hk.
    destruct (decide (T `prefix_of` k)) as [[l ->]|HTk].
    + rewrite (proj2 (elook_None _ _) (Hs l)). apply elook_None, lookup_drop_tree_under. by exists l.
    + rewrite <- Ho by auto. apply elook_eq, lookup_drop_tree_other. done.
Qed.

(** Changes below the target alone keep [working]. *)
Lemma working_target h t t' : working h t → (∀ k, ¬ T `prefix_of` k → t' !! k = t !! k) → working h t'.
Proof.
  intros (Hd & Ho & Hs) Hf. split_and!.
  - eapply real_dir_frame; [exact Hd|]. intros k Hk. apply Hf. by apply not_below_child.
  - intros k Hk HT. rewrite <- Ho by done. by apply elook_eq, Hf.
  - destruct h as [h|]; [|done]. destruct Hs as (Hn & Hh & Hi & Hl). split_and!; [done..|].
    intros l. rewrite <- Hl. apply elook_eq, Hf. intros ->%child_prefix. by apply Hvc.
Qed.

(** Moving the backup to the freed target fails only when the call is made to fail. *)
Lemma restore_fails h s s' e :
  working (Some h) (fs_tree s) → fs_tree s !! T = None →
  Rename (apath (P ++ [h])) (apath T) s = (s', Err e) →
  ∃ x n, fs_faults s = Some (x, n) :: fs_faults s' ∧ e = fault_err x ∧ fs_tree s' = fs_tree s.
Proof.
  intros (Hd & _ & Hn & Hh & [i0 Hi0] & Hl) Hfree. assert (h ≠ c) as Hne by by apply host_ne.
  assert (is_Some (fs_tree s !! (P ++ [h]))) as [i Hi].
  { specialize (Hl []). rewrite app_nil_r in Hl. destruct (fs_tree s !! (P ++ [h])) eqn:E; [eauto|].
    rewrite (proj2 (elook_None _ _) E) in Hl. symmetry in Hl. apply elook_None in Hl. congruence. }
  unfold Rename, sys. destruct (fs_faults s) as [|[[x n]|] l] eqn:Ef; simpl.
  2: { intros [= <- <-]. by exists x, n. }
  all: rewrite !locate_in by done; unfold rename_tree; rewrite Hi, Hfree.
  all: rewrite bool_decide_false by (intros [=]%app_inv_head; done).
  all: rewrite !bool_decide_false by (intros ?%child_prefix; done).
  all: done.
Qed.

(** [rollback] fails only when one of its calls is made to fail; the old target is then
    still kept, whole, under its host name. *)
Lemma rollback_fails h s s' e :
  working h (fs_tree s) → rollback (backup_of h) s = (s', Err e) →
  working h (fs_tree s') ∧ ∃ used x n, fs_faults s = used ++ Some (x, n) :: fs_faults s' ∧ e = fault_err x.
Proof.
  intros Hw. pose proof Hw as (Hd & _). unfold rollback. assert (tb_target (backup_of h) = apath T) as -> by by destruct h.
  intros [H|(s1 & [] & H1 & H)]%M_bind_inv_err.
  { unfold RemoveAll in H. destruct (fs_faults s) as [|[[x n]|] l]; simpl in H; rewrite locate_in in H by done; simplify_eq.
    split; [|by exists [], x, n]. eapply working_target; [exact Hw|]. intros k Hk. by apply partly_removed_other. }
  assert (fs_tree s1 = drop_tree T (fs_tree s)) as Ht.
  { unfold RemoveAll in H1. destruct (fs_faults s) as [|[[x n]|] l]; simpl in H1; rewrite locate_in in H1 by done; by simplify_eq. }
  assert (working h (fs_tree s1)) as Hw1.
  { eapply working_target; [exact Hw|]. rewrite Ht. intros k. apply lookup_drop_tree_other. }
  apply (spends_run fs_faults _ _ _ _ (spends_RemoveAll _)) in H1 as [used Hu].
  destruct h as [h|]; simpl in H; [|done].
  destruct (restore_fails h s1 s' e Hw1) as (x & n & Hx & -> & Ht'); [|done|].
  { rewrite Ht. by apply lookup_drop_tree_under. }
  rewrite Ht'. split; [done|]. exists used, x, n. by rewrite Hu, Hx.
Qed.

(** The target is a file with this content and mode 0644. *)
Definition is_file (content : string) (t : tree) : Prop :=
  ∃ i, t !! T = Some i ∧ in_node i = NFile content ∧ in_perm i = 420%Z.

(** While the temporary file [x] is being prepared. *)
Definition preparing (h : option string) (x : string) (t : tree) : Prop :=
  working h t ∧ absent t ∧ is_Some (t !! (P ++ [x])).

Lemma preparing_at_dir h x : at_dir P (preparing h x).
Proof. intros t [[] _]. done. Qed.

Lemma preparing_insert h x i t :
  preparing h x t → host_name x → h ≠ Some x → preparing h x (<[P ++ [x] := i]> t).
Proof.
  intros (Hw & Ha & _) Hx Hh. split_and!.
  - eapply working_frame; [exact Hw|done..|]. intros k Hk _. by apply insert_off.
  - eapply absent_frame; [exact Ha|by apply host_ne|]. intros k. apply insert_off.
  - rewrite lookup_insert_eq. done.
Qed.

(** Calls on the temporary file keep the state, whatever they write. *)
Lemma on_temp_spec h x f (W : inode → Prop) (W' : inode → Prop) :
  normal x → host_name x → h ≠ Some x → (∀ s i, W i → W' (f s i)) →
  triple (λ t, preparing h x t ∧ ∃ i, t !! (P ++ [x]) = Some i ∧ W i) (on_file (apath (P ++ [x])) f)
    (λ r t, preparing h x t ∧ match r with Ok _ => ∃ i, t !! (P ++ [x]) = Some i ∧ W' i | Err _ => True end).
Proof.
  intros Hn Hx Hh HW. eapply triple_post; [apply (on_file_in P HP); [|done]|].
  - by intros t [H%preparing_at_dir _].
  - intros [u|e] t'; [|by intros []]. intros (t & i & s & (Hp & i' & Hi' & Hi'W) & Hi & ->). rewrite Hi in Hi'. injection Hi' as <-.
    split; [by apply preparing_insert|]. exists (f s i). rewrite lookup_insert_eq. auto.
Qed.

(** The temporary file is complete. *)
Definition written (h : option string) (x content : string) (r : res unit) (t : tree) : Prop :=
  preparing h x t ∧
  match r with Ok _ => ∃ i, t !! (P ++ [x]) = Some i ∧ in_node i = NFile content ∧ in_perm i = 420%Z | Err _ => True end.

Lemma write_temp_spec h x content : normal x → host_name x → h ≠ Some x →
  triple (preparing h x) (_ ← Chmod (apath (P ++ [x])) 420; FileWrite (apath (P ++ [x])) content) (written h x content).
Proof.
  intros Hn Hx Hh. fs_bind (λ (r : res unit) t, preparing h x t ∧
    match r with Ok _ => ∃ i, t !! (P ++ [x]) = Some i ∧ in_perm i = 420%Z | Err _ => True end); [| |by intros e t []].
  - eapply (triple_conseq (λ t, preparing h x t ∧ ∃ i, t !! (P ++ [x]) = Some i ∧ True));
      [|by apply (on_temp_spec h x _ (λ _, True) (λ i, in_perm i = 420%Z))|done].
    intros t Ht. pose proof Ht as (_ & _ & [i Hi]). eauto.
  - by apply (on_temp_spec h x _ (λ i, in_perm i = 420%Z) (λ i, in_node i = NFile content ∧ in_perm i = 420%Z)).
Qed.

(** Moving the complete file into place. *)
Lemma install_temp_spec h x content : normal x → host_name x → h ≠ Some x →
  triple (written h x content (Ok tt)) (Rename (apath (P ++ [x])) (apath T))
    (λ r t, working h t ∧ match r with Ok _ => is_file content t | Err _ => True end).
Proof.
  intros Hn Hx Hh. eapply triple_post; [apply (Rename_in P HP); [|done|done|by apply host_ne]|].
  - by intros t [[[] _] _].
  - intros [u|e] t'; [|by intros [[]]]. intros (t & [(Hw & _ & _) (i & Hi & Hnode & Hperm)] & Hrn). split.
    + eapply working_frame; [exact Hw|done..|]. apply (rn_other _ _ _ _ Hrn).
    + pose proof (rn_moved _ _ _ _ Hrn []) as Hm. rewrite !app_nil_r in Hm. symmetry in Hm.
      destruct (elook_node _ _ _ _ i Hm Hi) as (i' & Hi' & Hn' & Hp'). exists i'. by rewrite Hn', Hp'.
Qed.

(** [atomicFile] on a free target: the target is complete or still absent from what
    clients see, and nothing else changes. *)
Lemma atomicFile_spec h content :
  triple (λ t, working h t ∧ absent t) (atomicFile (apath T) content)
    (λ r t, working h t ∧ match r with Ok _ => is_file content t | Err _ => True end).
Proof.
  unfold atomicFile. rewrite Dir_apath by (done || apply Hc). cbv zeta.
  fs_bind (λ (r : res string) t, match r with
    | Ok p => ∃ x, p = apath (P ++ [x]) ∧ normal x ∧ host_name x ∧ h ≠ Some x ∧ preparing h x t
    | Err _ => working h t end); [| |by intros e t ?].
  { eapply triple_post; [apply (create_host_temp_in P _ _ _ _ HP)|].
    - by intros t [[] _].
    - apply (bool_decide_unpack _). vm_compute. done.
    - intros s. apply (host_name_intro "" ("write-" +:+ s)).
    - intros [p|e] t'; [|by intros []]. intros (t & x & i & [Hw Ha] & -> & Hn & Hx & Hf & -> & _).
      exists x. assert (h ≠ Some x) as Hh by by eapply working_fresh. split_and!; [done..|].
      split_and!; [| |by rewrite lookup_insert_eq].
      + eapply working_frame; [exact Hw|done..|]. intros k Hk _. by apply insert_off.
      + eapply absent_frame; [exact Ha|by apply host_ne|]. intros k. apply insert_off. }
  apply (triple_pure (∃ x, a = apath (P ++ [x]) ∧ normal x ∧ host_name x ∧ h ≠ Some x)); [naive_solver|].
  intros (x & -> & Hn & Hx & Hh).
  eapply (triple_conseq (preparing h x)); [| |by intros r t H; exact H].
  { intros t (y & Hy & Hny & _ & _ & Hp). apply apath_eq in Hy as [_ [= ->]]%app_inj_2; try done.
    all: apply Forall_app; split; [done|by constructor]. }
  fs_try (λ (r : res unit) t, working h t ∧ match r with Ok _ => is_file content t | Err _ => True end).
  - fs_try (written h x content); [by apply write_temp_spec|].
    fs_bind (λ (r : res (res unit)) t, match r with Ok r => written h x content r t | Err _ => False end); [| |done].
    { destruct a as [[]|e]; [|by apply triple_ret]. by eapply triple_attempt; [apply triple_noop|intros [[]|] t []]. }
    destruct a0 as [[]|e].
    + fs_try (λ (_ : res unit), written h x content (Ok tt)); [apply triple_noop|].
      destruct a0; [by apply install_temp_spec|]. apply triple_throw. by intros t [[]].
    + fs_try (λ (_ : res unit), written h x content (Err e)); [apply triple_noop|].
      apply triple_throw. by intros t [[]].
  - fs_bind (λ (r : res (res unit)) t, working h t ∧ match a with Ok _ => is_file content t | Err _ => True end); [| |by intros e t []].
    + eapply triple_attempt; [apply (Remove_in P HP); [by intros t [[] _]|done]|].
      intros _ t' (t & [Hw Hf] & [-> | ->]); [done|]. split.
      * eapply working_frame; [exact Hw|done..|]. intros k Hk _. apply lookup_delete_ne. by intros <-.
      * destruct a; [|done]. destruct Hf as (i & Hi & Hf). exists i. rewrite lookup_delete_ne; [done|].
        intros E%app_inv_head. injection E as ->. by apply Hvc.
    + apply triple_of_res. by intros t [].
Qed.

(** ** Archive extraction, in the staging directory [x] *)

Section Extraction.
Context (h : option string) (x : string) (Hn : normal x) (Hx : host_name x) (Hh : h ≠ Some x).

Notation S := (P ++ [x]).

(** While entries are being extracted: the staging directory holds files and
    directories only. *)
Record extracting (t : tree) : Prop := mkExtracting {
  xt_working : working h t;
  xt_absent : absent t;
  xt_closed : closed t;
  xt_dir : real_dir t S;
  xt_nolink : ∀ l i, t !! (S ++ l) = Some i → fi_IsSymlink i = false;
}.

Lemma S_normal : Forall normal S.
Proof. apply Forall_app. split; [done|by constructor]. Qed.

(** A file or directory added below the staging directory. *)
Lemma extracting_insert t d y i :
  extracting t → S `prefix_of` d → real_dir t d → t !! (d ++ [y]) = None → fi_IsSymlink i = false →
  extracting (<[d ++ [y] := i]> t).
Proof.
  intros [Hw Ha Hcl Hd Hnl] HS Hdd Hf Hi.
  assert (∀ k, ¬ S `prefix_of` k → <[d ++ [y] := i]> t !! k = t !! k) as Hoff.
  { intros k Hk. apply lookup_insert_ne. intros <-. apply Hk. by apply prefix_app_r. }
  split.
  - eapply working_frame; [exact Hw|done..|]. intros k Hk _. by apply Hoff.
  - eapply absent_frame; [exact Ha|by apply host_ne|done].
  - by apply closed_insert.
  - eapply real_dir_grown; [|exact Hd]. by apply grown_insert.
  - intros l j. destruct (decide (d ++ [y] = S ++ l)) as [<-|E].
    + rewrite lookup_insert_eq. by intros [= <-].
    + rewrite lookup_insert_ne by done. apply Hnl.
Qed.

(** The content of an extracted file replaced. *)
Lemma extracting_update t l i j :
  extracting t → l ≠ [] → t !! (S ++ l) = Some i → in_node i ≠ NDir → fi_IsSymlink j = false →
  extracting (<[S ++ l := j]> t).
Proof.
  intros [Hw Ha Hcl Hd Hnl] Hl Hi Hf Hj.
  assert (∀ k, ¬ S `prefix_of` k → <[S ++ l := j]> t !! k = t !! k) as Hoff.
  { intros k Hk. apply lookup_insert_ne. intros <-. apply Hk. by exists l. }
  split.
  - eapply working_frame; [exact Hw|done..|]. intros k Hk _. by apply Hoff.
  - eapply absent_frame; [exact Ha|by apply host_ne|done].
  - by eapply closed_update.
  - eapply real_dir_frame; [exact Hd|]. intros k Hk. apply lookup_insert_ne. intros <-.
    apply prefix_length in Hk. rewrite length_app in Hk. destruct l; [done|]. simpl in Hk. lia.
  - intros l' i'. destruct (decide (S ++ l = S ++ l')) as [E|E].
    + rewrite <- E, lookup_insert_eq. by intros [= <-].
    + rewrite lookup_insert_ne by done. apply Hnl.
Qed.

(** A directory path from the root through the staging directory. *)
Definition through (k : list string) : Prop := k `prefix_of` S ∨ S `prefix_of` k.

Lemma through_nolink t k i : extracting t → k ≠ [] → through k → t !! k = Some i → fi_IsSymlink i = false.
Proof.
  intros Hx' Hk [Hp|[l ->]] Hi; [|by eapply xt_nolink].
  destruct (xt_dir t Hx' k Hp Hk) as (j & Hj & Hd). rewrite Hj in Hi. injection Hi as <-.
  unfold fi_IsSymlink. by rewrite Hd.
Qed.

Definition reached (t1 : tree) (d : list string) (t : tree) : Prop :=
  extracting t ∧ grown t1 t ∧ real_dir t d ∧
  (∀ k i, t !! k = Some i → t1 !! k = Some i ∨ (in_node i = NDir ∧ k `prefix_of` d)).

Lemma mkdir_missing_spec t1 perm d y :
  Forall normal d → normal y → through (d ++ [y]) →
  triple (reached t1 d) (mkdir_missing perm (apath (d ++ [y]))) (λ r t,
    match r with Ok _ => reached t1 (d ++ [y]) t | Err _ => extracting t end).
Proof.
  intros Hd Hy Hthr. assert (d ++ [y] ≠ []) as Hne by by destruct d.
  unfold mkdir_missing. fs_try (λ (r : res inode) t, reached t1 d t ∧
    match r with Ok i => t !! (d ++ [y]) = Some i | Err e => errorsIs e ErrNotExist = true → t !! (d ++ [y]) = None end).
  { apply (triple_read _ (λ t, follow t _)); [|by intros e t He Ht; split; [done|congruence]].
    intros t Ht. split; [done|]. destruct Ht as (Hxt & _ & Hdd & _).
    rewrite follow_in; [by destruct (t !! (d ++ [y]))|done..|]. intros i. by apply through_nolink. }
  destruct a as [i|e].
  - destruct (fi_IsDir i) eqn:E; [|apply triple_throw; by intros t [[] _]].
    apply triple_ret. intros t [(Hxt & Hg & Hdd & Hfrom) Hi]. split_and!; [done|done| |].
    + eapply real_dir_snoc; [done|exact Hi|]. unfold fi_IsDir in E. by destruct (in_node i).
    + intros k j Hj. destruct (Hfrom k j Hj) as [?|[? ?]]; [by left|right]. split; [done|]. by apply prefix_app_r.
  - destruct (errorsIs e ErrNotExist) eqn:E; [|apply triple_throw; by intros t [[] _]].
    apply triple_sys; [|by intros e' t _ [[] _]]. intros s s' r [(Hxt & Hg & Hdd & Hfrom) Hnone] H. specialize (Hnone eq_refl).
    rewrite locate_in, Hnone in H by done. injection H as <- <-. simpl.
    assert (S `prefix_of` d) as HSd.
    { destruct Hthr as [Hp|Hp].
      - destruct (xt_dir _ Hxt _ Hp Hne) as (j & Hj & _). congruence.
      - destruct (prefix_snoc_inv _ _ _ Hp) as [?|E']; [done|]. destruct (xt_dir _ Hxt S) as (j & Hj & _); [done|by destruct P|]. congruence. }
    split_and!.
    + by apply extracting_insert.
    + etrans; [exact Hg|]. by apply grown_insert.
    + eapply real_dir_snoc; [by eapply real_dir_grown; [apply grown_insert|]|apply lookup_insert_eq|done].
    + intros k j. destruct (decide (d ++ [y] = k)) as [<-|Hk].
      * rewrite lookup_insert_eq. intros [= <-]. by right.
      * rewrite lookup_insert_ne by done. intros Hj. destruct (Hfrom k j Hj) as [?|[? ?]]; [by left|right].
        split; [done|]. by apply prefix_app_r.
Qed.

Lemma mkdir_loop_spec t1 perm k m j :
  Forall normal k → S `prefix_of` k → m + j = length k →
  triple (reached t1 (take m k)) (mfor ((λ n, apath (take n k)) <$> seq (1 + m) j) (mkdir_missing perm))
    (λ r t, match r with Ok _ => reached t1 k t | Err _ => extracting t end).
Proof.
  intros Hk HS. revert m. induction j as [|j IH]; intros m Hm.
  { apply triple_ret. by rewrite take_ge by lia. }
  destruct (lookup_lt_is_Some_2 k m) as [y Hy]; [lia|].
  simpl. rewrite (take_S_r k m y Hy).
  assert (take m k ++ [y] `prefix_of` k) as Hpre by (rewrite <- (take_S_r k m y Hy); apply prefix_take).
  apply (triple_bind _ _ (λ (r : res unit) t, match r with Ok _ => reached t1 (take (Datatypes.S m) k) t | Err _ => extracting t end)).
  - rewrite (take_S_r k m y Hy). apply mkdir_missing_spec; [by apply Forall_take| |].
    + rewrite Forall_lookup in Hk. by eapply Hk.
    + by destruct (prefix_weak_total _ _ _ Hpre HS); [left|right].
  - intros _. apply (IH (1 + m)). simpl. lia.
  - done.
Qed.

Lemma MkdirAll_spec t1 perm k : Forall normal k → S `prefix_of` k →
  triple (λ t, t = t1 ∧ extracting t) (MkdirAll (apath k) perm)
    (λ r t, match r with Ok _ => reached t1 k t | Err _ => extracting t end).
Proof.
  intros Hk HS. unfold MkdirAll. rewrite pcomps_apath by done.
  eapply triple_conseq; [|apply (mkdir_loop_spec t1 perm k 0); [done..|lia]|done].
  intros t [-> Hxt]. split_and!; [done|done|apply real_dir_nil|by left].
Qed.

(** The entry [parts] of the staging directory is [n]; all else as in [t1]. *)
Record added (t1 : tree) (parts : list string) (n : node) (t : tree) : Prop := mkAdded {
  ad_extracting : extracting t;
  ad_grown : grown t1 t;
  ad_entry : ∃ i, t !! (S ++ parts) = Some i ∧ in_node i = n;
  ad_from : ∀ k i, t !! k = Some i → t1 !! k = Some i ∨ k `prefix_of` S ++ parts;
}.

Lemma reached_added t1 parts t : parts ≠ [] → reached t1 (S ++ parts) t → added t1 parts NDir t.
Proof.
  intros Hp (Hxt & Hg & Hd & Hfrom). split; [done|done| |].
  - apply Hd; [done|]. intros E%app_nil. naive_solver.
  - intros k i Hi. destruct (Hfrom k i Hi) as [?|[? ?]]; auto.
Qed.

(** [OpenFile] with O_EXCL, then the copy. *)
Lemma store_file_spec t1 q y content :
  Forall normal q → normal y →
  triple (reached t1 (S ++ q)) (_ ← OpenExclusive (apath ((S ++ q) ++ [y])) 420; FileWrite (apath ((S ++ q) ++ [y])) content)
    (λ r t, match r with Ok _ => added t1 (q ++ [y]) (NFile content) t | Err _ => extracting t end).
Proof.
  intros Hq Hy. assert (Forall normal (S ++ q)) as Hd by (apply Forall_app; split; [apply S_normal|done]).
  assert (q ++ [y] ≠ []) as Hne by by destruct q.
  set (opened := λ t, ∃ t2 i, reached t1 (S ++ q) t2 ∧ t2 !! ((S ++ q) ++ [y]) = None ∧ in_node i = NFile "" ∧
    t = <[(S ++ q) ++ [y] := i]> t2).
  assert (∀ t, opened t → extracting t ∧ real_dir t (S ++ q)) as Hop.
  { intros t (t2 & i & (Hxt & _ & Hdd & _) & Hf & Hi & ->). split.
    - apply extracting_insert; [done|by apply prefix_app_r|done..|]. unfold fi_IsSymlink. by rewrite Hi.
    - eapply real_dir_grown; [by apply grown_insert|done]. }
  fs_bind (λ (r : res unit) t, match r with Ok _ => opened t | Err _ => extracting t end); [| |done].
  { apply triple_sys; [|by intros e t _ []]. intros s s' r Ht H. pose proof Ht as (Hxt & _ & Hdd & _).
    rewrite locate_in in H by done. destruct (fs_tree s !! ((S ++ q) ++ [y])) eqn:E; injection H as <- <-; [done|].
    by exists (fs_tree s), (new_inode (NFile "") 420 s). }
  eapply triple_post; [apply (on_file_in (S ++ q) Hd opened); [|done]|]; [by intros t [_ ?]%Hop|].
  intros [u|e] t'; [|by intros [? _]%Hop]. intros (t & i & s & Ho & Hi & ->).
  destruct (Hop t Ho) as [Hxt Hdd]. destruct Ho as (t2 & j & (Hxt2 & Hg & _ & Hfrom) & Hf & Hj & ->).
  rewrite lookup_insert_eq in Hi. injection Hi as <-. rewrite insert_insert_eq.
  assert ((S ++ q) ++ [y] = S ++ (q ++ [y])) as E by by rewrite <- (app_assoc S). rewrite E in *. split.
  - rewrite <- (insert_insert_eq t2 (S ++ q ++ [y]) _ j).
    eapply (extracting_update _ _ j); [done|done|apply lookup_insert_eq|by rewrite Hj|done].
  - etrans; [exact Hg|]. by apply grown_insert.
  - rewrite lookup_insert_eq. eauto.
  - intros k i. destruct (decide (S ++ q ++ [y] = k)) as [<-|Hk]; [by right|].
    rewrite lookup_insert_ne by done. intros Hi. destruct (Hfrom k i Hi) as [?|[? Hp]]; [by left|right].
    etrans; [exact Hp|]. by exists [y].
Qed.

(** What an archive entry becomes, and where. *)
Definition item_node (cfg : Config) (item : zip_item) : node :=
  if zi_Dir item then NDir
  else match zi_Open item with
  | Ok data => NFile (str_take (Z.to_nat (MaxArchiveExpandedBytes cfg + 1)) data.1)
  | Err _ => NFile ""
  end.

Definition item_path (item : zip_item) (parts : list string) : Prop :=
  TrimSuffix (zi_Name item) "/" = join_slash parts ∧ Forall normal parts ∧ parts ≠ [].

Lemma triple_ctx (I : tree → Prop) : triple I ctx_Err (λ r t, I t).
Proof. apply triple_noop. Qed.

(** The part of an item after its checks. *)
Lemma extract_entry_spec t1 cfg item (acc : gset string * Z) parts : Forall normal parts → parts ≠ [] →
  triple (λ t, t = t1 ∧ extracting t)
    (if zi_Dir item then _ ← MkdirAll (apath (S ++ parts)) 493; mret acc
     else
       _ ← MkdirAll (Dir (apath (S ++ parts))) 493;
       data ← of_res (zi_Open item);
       _ ← OpenExclusive (apath (S ++ parts)) 420;
       _ ← FileWrite (apath (S ++ parts)) (str_take (Z.to_nat (MaxArchiveExpandedBytes cfg + 1)) data.1);
       _ ← match data.2 with
           | Some e => if (slen data.1 <=? MaxArchiveExpandedBytes cfg)%Z then throw e else mret tt
           | None => mret tt
           end;
       _ ← ctx_Err;
       mret acc)
    (λ r t, match r with Ok acc' => acc' = acc ∧ added t1 parts (item_node cfg item) t | Err _ => extracting t end).
Proof.
  intros Hp Hne. assert (Forall normal (S ++ parts)) as HSp by (apply Forall_app; split; [apply S_normal|done]).
  unfold item_node. destruct (zi_Dir item).
  { fs_bind (λ (r : res unit) t, match r with Ok _ => reached t1 (S ++ parts) t | Err _ => extracting t end); [| |done].
    - apply MkdirAll_spec; [done|by apply prefix_app_r].
    - apply triple_ret. intros t Ht. split; [done|]. by apply reached_added. }
  destruct parts as [|y q _] using rev_ind; [done|]. apply Forall_app in Hp as [Hq [Hy _]%Forall_cons].
  apply Forall_app in HSp as HSp'. destruct HSp' as [HS _].
  rewrite (app_assoc S), Dir_apath by (try apply Hy; apply Forall_app; done).
  fs_bind (λ (r : res unit) t, match r with Ok _ => reached t1 (S ++ q) t | Err _ => extracting t end); [| |done].
  { apply MkdirAll_spec; [by apply Forall_app|by apply prefix_app_r]. }
  fs_bind (λ (r : res (string * option goerr)) t, r = zi_Open item ∧ reached t1 (S ++ q) t); [by apply triple_of_res| |by intros e t [_ []]].
  destruct a0 as [data err].
  apply (triple_pure (zi_Open item = Ok (data, err))); [by intros t [-> _]|]. intros ->. simpl.
  eapply (triple_conseq (reached t1 (S ++ q))); [by intros t []| |by intros r t H; exact H].
  set (content := str_take _ data). apply triple_assoc.
  set (done_ := λ (A : Type) (r : res A) t, match r with Ok _ => added t1 (q ++ [y]) (NFile content) t | Err _ => extracting t end).
  fs_bind (done_ unit); [by apply store_file_spec| |done].
  fs_bind (done_ unit); [| |done].
  { destruct err as [e|]; [|by apply triple_ret]. destruct (_ <=? _)%Z; [|by apply triple_ret].
    apply triple_throw. by intros t []. }
  fs_bind (done_ unit); [| |done].
  { eapply triple_post; [apply triple_ctx|]. intros [u|e] t; [done|]. by intros []. }
  apply triple_ret. intros t Ht. done.
Qed.

Lemma extract_item_spec t1 cfg acc item :
  triple (λ t, t = t1 ∧ extracting t) (extract_item cfg (apath S) acc item) (λ r t,
    match r with
    | Ok acc' => (∃ parts, item_path item parts ∧ added t1 parts (item_node cfg item) t) ∧
        acc'.2 = u64_add acc.2 (zi_UncompressedSize64 item) ∧ (acc'.2 ≤ MaxArchiveExpandedBytes cfg)%Z
    | Err _ => extracting t
    end).
Proof.
  unfold extract_item. fs_bind (λ (_ : res unit) t, t = t1 ∧ extracting t); [apply triple_ctx| |by intros e t []].
  destruct (canonicalRelative (TrimSuffix (zi_Name item) "/") false) as [[]|e] eqn:Ec; [|apply triple_throw; by intros t []].
  apply canonicalRelative_spec in Ec as [[_ ?] | (_ & _ & parts & Hne & Hp & Ename)]; [done|].
  assert (item_path item parts) as Hip by done. rewrite Ename.
  destruct acc as [seen expanded]. case_bool_decide; [apply triple_throw; by intros t []|].
  destruct (zi_Symlink item || _); [apply triple_throw; by intros t []|].
  destruct (_ <? _)%Z eqn:Elim; [apply triple_throw; by intros t []|]. to_prop.
  rewrite Join_parts by (done || apply S_normal).
  assert (within (apath S) (apath (S ++ parts)) = true) as ->.
  { apply within_spec; [apply S_normal|apply Forall_app; split; [apply S_normal|done]|by apply prefix_app_r]. }
  simpl negb. cbv iota. eapply triple_post; [by apply extract_entry_spec|].
  intros [acc'|e] t; [|done]. intros [-> Had]. split_and!; [eauto|done|done].
Qed.

(** The sizes an archive declares. *)
Definition declared_size (items : list zip_item) : Z := foldr (λ item n, zi_UncompressedSize64 item + n)%Z 0%Z items.

(** All entries of the archive are there, and nothing else. *)
Record extracted (cfg : Config) (items : list zip_item) (t1 t : tree) : Prop := mkExtracted {
  xd_entries : Forall (λ item, ∃ parts i, item_path item parts ∧ t !! (S ++ parts) = Some i ∧ in_node i = item_node cfg item) items;
  xd_only : ∀ k i, t !! k = Some i → t1 !! k = Some i ∨ ∃ item parts, item ∈ items ∧ item_path item parts ∧ k `prefix_of` S ++ parts;
}.

Lemma extract_items_spec cfg items acc t1 :
  extracting t1 → (0 ≤ acc.2 < u64_modulus)%Z →
  triple (λ t, t = t1) (extract_items cfg (apath S) acc items) (λ r t,
    match r with
    | Ok acc' => extracting t ∧ grown t1 t ∧ extracted cfg items t1 t ∧
        acc'.2 = u64 (acc.2 + declared_size items) ∧ (acc.2 ≤ MaxArchiveExpandedBytes cfg → acc'.2 ≤ MaxArchiveExpandedBytes cfg)%Z
    | Err _ => extracting t
    end).
Proof.
  revert acc t1. induction items as [|item items IH]; intros acc t1 Hxt Hacc.
  { apply triple_ret. intros t ->. split_and!; [done|done| |simpl; by rewrite Z.add_0_r, u64_small|done].
    split; [constructor|by left]. }
  simpl. fs_bind (λ (r : res (gset string * Z)) t, match r with
    | Ok acc' => (∃ parts, item_path item parts ∧ added t1 parts (item_node cfg item) t) ∧
        acc'.2 = u64_add acc.2 (zi_UncompressedSize64 item) ∧ (acc'.2 ≤ MaxArchiveExpandedBytes cfg)%Z
    | Err _ => extracting t end); [| |done].
  { eapply (triple_conseq (λ t, t = t1 ∧ extracting t)); [by intros t ->|apply extract_item_spec|done]. }
  apply triple_fix. intros t2 ((parts & Hip & Had) & Ha & Hle). destruct Had as [Hxt2 Hg (i & Hi & Hnode) Hfrom].
  eapply triple_post; [apply IH; [done|rewrite Ha; apply u64_range]|].
  intros [acc'|e] t; [|done]. intros (Hxt' & Hg' & [Hall Honly] & Hsum & Hlim).
  split_and!; [done|by etrans| | |by intros; apply Hlim].
  - split; [constructor; [|done]|].
    + exists parts, i. split_and!; [done|by apply Hg'|done].
    + intros k j Hj. destruct (Honly k j Hj) as [Hk|(it & ps & Hin & ? & ?)].
      * destruct (Hfrom k j Hk) as [?|?]; [by left|]. right. exists item, parts. split_and!; [left|done|done].
      * right. exists it, ps. split_and!; [by right|done|done].
  - rewrite Hsum, Ha. unfold u64_add, u64. rewrite Zplus_mod_idemp_l. f_equal. simpl. lia.
Qed.

(** [replaceTree] with no target in the way is one rename. *)
Lemma replaceTree_spec t1 :
  extracting t1 →
  triple (λ t, t = t1) (replaceTree (apath T) (apath S)) (λ r t,
    working h t ∧ match r with Ok _ => renamed S T t1 t | Err _ => True end).
Proof.
  intros Hxt. assert (at_dir P (λ t, t = t1)) as Hat by (intros t ->; apply xt_working in Hxt as []; done).
  assert (∀ t, t = t1 → working h t) as Hw by (intros t ->; by apply xt_working in Hxt).
  unfold replaceTree. fs_bind (λ (_ : res string) t, t = t1); [| |by auto].
  { intros s s' r Ht H. unfold next_token in H. destruct (fs_rand s) as [|[raw|] rand]; simplify_eq; done. }
  fs_try (λ (r : res inode) t, t = t1 ∧ match r with Ok i => t !! T = Some i | Err _ => True end).
  { eapply triple_post; [by apply Lstat_in|]. intros [i|e] t []; done. }
  destruct a0 as [i|e].
  { apply (triple_pure False); [|done]. intros t [-> Hi]. pose proof (xt_absent _ Hxt []) as Ha. rewrite app_nil_r in Ha. congruence. }
  destruct (errorsIs e ErrNotExist).
  - fs_bind (λ (r : res bool) t, r = Ok false ∧ t = t1); [apply triple_ret; by intros t []| |by intros ? t []].
    apply (triple_pure (a0 = false)); [by intros t [[= ->] _]|]. intros ->.
    fs_try (λ (r : res unit) t, match r with Ok _ => renamed S T t1 t | Err _ => t = t1 end).
    { eapply (triple_conseq (λ t, t = t1)); [by intros t []| |by intros r t H; exact H].
      eapply triple_post; [apply (Rename_in P HP); [done|done|done|by apply host_ne]|].
      intros [u|e'] t; [|done]. by intros (? & -> & ?). }
    destruct a0 as [u|e'].
    + fs_bind (λ (_ : res (res unit)) t, renamed S T t1 t); [by apply triple_ret| |].
      * apply triple_ret. intros t Hrn. split; [|done]. eapply working_frame; [apply Hw; reflexivity|done..|].
        apply (rn_other _ _ _ _ Hrn).
      * intros e' t Hrn. split; [|done]. eapply working_frame; [apply Hw; reflexivity|done..|]. apply (rn_other _ _ _ _ Hrn).
    + fs_bind (λ (_ : res (res unit)) t, t = t1); [by apply triple_ret| |by auto]. apply triple_throw. by auto.
  - fs_bind (λ (r : res bool) t, match r with Ok _ => False | Err _ => t = t1 end); [apply triple_throw; by intros t []| |by auto].
    by apply (triple_pure False).
Qed.

End Extraction.

(** A directory unpacked from an archive. *)
Record unpacked (cfg : Config) (items : list zip_item) (t : tree) : Prop := mkUnpacked {
  up_dir : ∃ i, t !! T = Some i ∧ in_node i = NDir;
  up_entries : Forall (λ item, ∃ parts i, item_path item parts ∧ t !! (T ++ parts) = Some i ∧ in_node i = item_node cfg item) items;
  up_only : ∀ l i, t !! (T ++ l) = Some i → l = [] ∨ ∃ item parts, item ∈ items ∧ item_path item parts ∧ l `prefix_of` parts;
}.

Lemma renamed_unpacked x cfg items t1 t2 t :
  (∀ l i, t1 !! ((P ++ [x]) ++ l) = Some i → l = []) → real_dir t2 (P ++ [x]) →
  extracted x cfg items t1 t2 → renamed (P ++ [x]) T t2 t → unpacked cfg items t.
Proof.
  intros Hempty Hd [Hall Honly] Hrn. pose proof (rn_moved _ _ _ _ Hrn) as Hm. split.
  - destruct (Hd (P ++ [x])) as (i & Hi & Hn); [done|by destruct P|].
    specialize (Hm []). rewrite !app_nil_r in Hm. symmetry in Hm.
    destruct (elook_node _ _ _ _ i Hm Hi) as (i' & Hi' & Hn' & _). exists i'. by rewrite Hn'.
  - eapply Forall_impl; [exact Hall|]. intros item (parts & i & Hip & Hi & Hn). exists parts.
    specialize (Hm parts). symmetry in Hm. destruct (elook_node _ _ _ _ i Hm Hi) as (i' & Hi' & Hn' & _).
    exists i'. by rewrite Hn'.
  - intros l i Hi. specialize (Hm l). destruct (elook_node _ _ _ _ i Hm Hi) as (i' & Hi' & _).
    destruct (Honly _ _ Hi') as [H1|(item & parts & Hin & Hip & Hp)]; [left; by eapply Hempty|right].
    exists item, parts. split_and!; [done|done|by apply prefix_app_inv in Hp].
Qed.

(** A freshly created staging directory: extraction can start, it is empty. *)
Lemma extracting_start h x i t :
  working h t → absent t → closed t → normal x → host_name x → t !! (P ++ [x]) = None → in_node i = NDir →
  extracting h x (<[P ++ [x] := i]> t) ∧ ∀ l j, <[P ++ [x] := i]> t !! ((P ++ [x]) ++ l) = Some j → l = [].
Proof.
  intros Hw Ha Hcl Hn Hx Hf Hi. pose proof Hw as (Hd & _). assert (h ≠ Some x) as Hh by by eapply working_fresh.
  assert (∀ l j, <[P ++ [x] := i]> t !! ((P ++ [x]) ++ l) = Some j → l = []) as Hempty.
  { intros l j. destruct (decide (l = [])) as [->|Hl]; [done|].
    rewrite lookup_insert_ne, closed_missing; [done|done|by destruct P|done|].
    intros E. apply (f_equal length) in E. rewrite (length_app (P ++ [x])) in E. destruct l; [done|simpl in E; lia]. }
  split; [|done]. split.
  - eapply working_frame; [exact Hw|done..|]. intros k Hk _. by apply insert_off.
  - eapply absent_frame; [exact Ha|by apply host_ne|]. intros k. apply insert_off.
  - by apply closed_insert.
  - eapply real_dir_snoc; [by eapply real_dir_grown; [apply grown_insert|]|apply lookup_insert_eq|done].
  - intros l j Hj. pose proof (Hempty l j Hj) as ->. rewrite app_nil_r, lookup_insert_eq in Hj. injection Hj as <-.
    unfold fi_IsSymlink. by rewrite Hi.
Qed.

(** Changes below a host name do not touch the target. *)
Lemma unpacked_frame x cfg items t t' :
  host_name x → (∀ k, ¬ P ++ [x] `prefix_of` k → t' !! k = t !! k) → unpacked cfg items t → unpacked cfg items t'.
Proof.
  intros Hx Hoff [(i & Hi & Hdir) Hall Honly].
  assert (∀ l, t' !! (T ++ l) = t !! (T ++ l)) as HT.
  { intros l. apply Hoff. rewrite <- app_assoc. intros ->%child_prefix. by apply Hvc. }
  split.
  - exists i. specialize (HT []). rewrite !app_nil_r in HT. by rewrite HT.
  - eapply Forall_impl; [exact Hall|]. intros item (parts & j & ? & ? & ?). exists parts, j. by rewrite HT.
  - intros l j. rewrite HT. apply Honly.
Qed.

(** Removing a host entry, completely or not, changes nothing else. *)
Lemma RemoveAll_off (I : tree → Prop) x : at_dir P I → normal x →
  triple I (RemoveAll (apath (P ++ [x]))) (λ _ t', ∃ t, I t ∧ ∀ k, ¬ P ++ [x] `prefix_of` k → t' !! k = t !! k).
Proof.
  intros HI Hn. eapply triple_post; [by apply (RemoveAll_in P HP)|]. intros r t' (t & Ht & Ht').
  exists t. split; [done|]. intros k Hk. destruct r as [u|e]; [subst; by apply lookup_drop_tree_other|].
  destruct Ht' as [n ->]. by apply partly_removed_other.
Qed.

(** [extractZIPAtomic] on a free target: the whole archive or nothing that clients see. *)
Lemma extractZIPAtomic_spec NewReader cfg h content :
  (0 ≤ MaxArchiveExpandedBytes cfg)%Z →
  triple (λ t, working h t ∧ absent t ∧ closed t) (extractZIPAtomic NewReader cfg (apath T) content)
    (λ r t, working h t ∧
      match r with
      | Ok _ => ∃ items, NewReader content = Ok items ∧ unpacked cfg items t ∧
          (u32 (zlen items) ≤ MaxArchiveEntryCount cfg)%Z ∧ (u64 (declared_size items) ≤ MaxArchiveExpandedBytes cfg)%Z
      | Err _ => True
      end).
Proof.
  intros Hmax. unfold extractZIPAtomic. destruct (NewReader content) as [items|e]; [|apply triple_throw; by intros t []].
  destruct (_ <? _)%Z eqn:Ecount; [apply triple_throw; by intros t []|]. to_prop.
  rewrite Dir_apath by (done || apply Hc).
  fs_bind (λ (r : res string) t, match r with
    | Ok p => ∃ x, p = apath (P ++ [x]) ∧ normal x ∧ host_name x ∧ h ≠ Some x ∧ extracting h x t ∧ ∀ l i, t !! ((P ++ [x]) ++ l) = Some i → l = []
    | Err _ => working h t end); [| |by intros].
  { eapply triple_post; [apply (create_host_temp_in P _ _ _ _ HP)|].
    - by intros t [[] _].
    - apply (bool_decide_unpack _). vm_compute. done.
    - intros s. apply (host_name_intro "" ("upload-" +:+ s)).
    - intros [p|e] t'; [|by intros []]. intros (t & x & i & (Hw & Ha & Hcl) & -> & Hn & Hx & Hf & -> & Hi).
      exists x. split_and!; [done..|by eapply working_fresh|by apply extracting_start|by eapply extracting_start]. }
  apply triple_fix. intros t1 (x & -> & Hn & Hx & Hh & Hxt & Hempty).
  fs_try (λ (r : res unit) t, working h t ∧ match r with Ok _ => unpacked cfg items t ∧ (u64 (declared_size items) ≤ MaxArchiveExpandedBytes cfg)%Z | Err _ => True end).
  - fs_bind (λ (r : res (gset string * Z)) t, extracting h x t ∧ match r with
      | Ok acc' => extracted x cfg items t1 t ∧ (u64 (declared_size items) ≤ MaxArchiveExpandedBytes cfg)%Z | Err _ => True end); [| |by intros e t [[] _]].
    { eapply triple_post; [by apply extract_items_spec|]. intros [acc|e] t; [|done].
      intros (Hxt' & _ & Hex & Hsum & Hlim). simpl in Hsum. rewrite Hsum in Hlim. naive_solver. }
    apply triple_fix. intros t2 (Hxt2 & Hex & Hle). eapply triple_post; [by apply (replaceTree_spec h x)|].
    intros [u|e] t [Hw Hr]; (split; [done|]); [|done]. split; [|done]. eapply renamed_unpacked; [done|apply Hxt2|done|done].
  - fs_bind (λ (_ : res (res unit)) t, working h t ∧ match a with Ok _ => unpacked cfg items t ∧ (u64 (declared_size items) ≤ MaxArchiveExpandedBytes cfg)%Z | Err _ => True end); [| |by intros e t []].
    + eapply triple_attempt; [apply (RemoveAll_off (λ t, working h t ∧ match a with Ok _ => unpacked cfg items t ∧ (u64 (declared_size items) ≤ MaxArchiveExpandedBytes cfg)%Z | Err _ => True end)); [by intros t [[] _]|done]|].
      intros r t' (t & [Hw Hr] & Hoff). split; [eapply working_frame; [exact Hw|done..|]; auto|].
      destruct a as [u|]; [|done]. destruct Hr as [Hu Hle]. split; [|done]. by eapply unpacked_frame.
    + apply triple_of_res. intros t [Hw Hr]. split; [done|]. destruct a; [|done]. destruct Hr. eauto.
Qed.

End Staging.

(** ** The failures the steps of a mutation take *)

Lemma spends_next_token : spends fs_faults next_token.
Proof. apply spends_same. intros s. unfold next_token. by repeat case_match. Qed.
#[export] Hint Resolve spends_next_token : spends.

Lemma spends_stageTarget target : spends fs_faults (stageTarget target).
Proof. unfold stageTarget, Lstat. fs_spends. Qed.

Lemma spends_atomicFile target content : spends fs_faults (atomicFile target content).
Proof. unfold atomicFile, CreateTemp, Chmod, FileWrite, FileSync, FileClose. fs_spends. Qed.

Lemma spends_replaceTree target staging : spends fs_faults (replaceTree target staging).
Proof. unfold replaceTree, Lstat. fs_spends. Qed.
#[export] Hint Resolve spends_stageTarget spends_atomicFile spends_replaceTree : spends.

Lemma spends_extract_items cfg staging items acc : spends fs_faults (extract_items cfg staging acc items).
Proof.
  revert acc. induction items as [|item items IH]; intros [seen expanded]; simpl; [by apply spends_same|].
  apply spends_bind; [|intros; apply IH]. unfold extract_item, ctx_Err, FileWrite. fs_spends.
Qed.
#[export] Hint Resolve spends_extract_items : spends.

Lemma spends_extractZIPAtomic NewReader cfg target content : spends fs_faults (extractZIPAtomic NewReader cfg target content).
Proof. unfold extractZIPAtomic, MkdirTemp. fs_spends. Qed.

Lemma spends_entryMetadata root relative limit inspect : spends fs_faults (entryMetadata root relative limit inspect).
Proof. unfold entryMetadata, Lstat, ReadFile. fs_spends. Qed.

Lemma spends_resolve root relative allowRoot deref : spends fs_faults (resolve root relative allowRoot deref).
Proof. unfold resolve, Lstat, EvalSymlinks. fs_spends. Qed.

Lemma spends_validateMutationTarget target cond rev want : spends fs_faults (validateMutationTarget target cond rev want).
Proof. unfold validateMutationTarget, Lstat. fs_spends. Qed.

Lemma spends_validateUploadTarget target : spends fs_faults (validateUploadTarget target).
Proof. unfold validateUploadTarget, Lstat. fs_spends. Qed.

Lemma spends_canonicalRoot root : spends fs_faults (canonicalRoot root).
Proof. unfold canonicalRoot, EvalSymlinks, Stat. fs_spends. Qed.
#[export] Hint Resolve spends_extractZIPAtomic spends_entryMetadata spends_resolve spends_validateMutationTarget : spends.
#[export] Hint Resolve spends_validateUploadTarget spends_canonicalRoot : spends.
