(* ===== verification/WorkspaceService.v ===== *)
(** * Workspace handlers (internal/workspace/service.go)

    [List], [ReadText], [WriteText], [Upload] and [Download]: the access-state machine
    of [Workspace] composed with the file operations of [WorkspaceFiles].  A mutation
    changes the files under the coordinator lock, publishes the next access state and
    then keeps or undoes both. *)

From Stdlib Require Import Ascii String.
From stdpp Require Import base tactics numbers list sorting gmap strings pretty.
From S2P Require Import Prelude GoError GoStrings Sha256 GoPath FileSystem Remote Workspace WorkspaceFiles WorkspaceStaging.
Local Open Scope string_scope.
Local Open Scope nat_scope.
Local Open Scope list_scope.

(** The service and the disk. *)
Record WState := mkWState {
  wst_sv : Service;
  wst_fs : FS;
}.

Definition sink_fn : Type := option (string → WorkspaceAccessState → res unit).

(** [rootForAccess]: [canonicalRoot] runs only for a workspace that is not removed. *)
Definition access_root (w : workspaceState) : M FS (workspaceState * res string) := λ fs,
  if ws_removed w then (fs, Ok (rootForAccess (λ _, Ok "") w))
  else
    let '(fs, r) := canonicalRoot (ws_root w) fs in
    (fs, Ok (rootForAccess (λ _, r) w)).

(** [Register]: the root is resolved, or anchored below its nearest existing ancestor. *)
Definition register_workspace (codexID root : string) (persisted : option WorkspaceAccessState) (now : Z) (token : string)
    (st : WState) : WState * res WorkspaceAccessState :=
  let '(fs, resolved) := registerRoot root (wst_fs st) in
  let '(sv, r) := Register codexID root resolved persisted now token (wst_sv st) in
  (mkWState sv fs, r).

(** ** Reading *)

(** A read handler: [body] runs with the resolved root under the shared lock. *)
Definition read_access {A} (codexID : string) (body : string → M FS A) (st : WState) : WState * res A :=
  match known codexID (wst_sv st) with
  | (sv, Err e) => (mkWState sv (wst_fs st), Err e)
  | (sv, Ok p) =>
      match sv_heap sv !! p with
      | None => (mkWState sv (wst_fs st), workspaceErr ERROR_CODE_CODEX_NOT_FOUND "codex not found")
      | Some w =>
          match access_root w (wst_fs st) with
          | (fs, Err e) => (mkWState sv fs, Err e)
          | (fs, Ok (w, Err e)) => (mkWState (put_ws p w sv) fs, Err e)
          | (fs, Ok (w, Ok root)) =>
              let '(fs, r) := body root fs in
              (mkWState (put_ws p w sv) fs, r)
          end
      end
  end.

(** [if err := ctx.Err(); err != nil] before anything else. *)
Definition with_ctx {A} (h : WState → WState * res A) (st : WState) : WState * res A :=
  match ctx_Err (wst_fs st) with
  | (fs, Err e) => (mkWState (wst_sv st) fs, Err e)
  | (fs, Ok _) => h (mkWState (wst_sv st) fs)
  end.

Fixpoint list_entries (cfg : Config) (root relative : string) (names : list string) : M FS (list WorkspaceEntry) :=
  match names with
  | [] => mret []
  | name :: names =>
      _ ← ctx_Err;
      let child := if str_empty relative then name else relative +:+ "/" +:+ name in
      entry ← entryMetadata root child (MaxTextFileBytes cfg) false;
      rest ← list_entries cfg root relative names;
      mret (entry :: rest)
  end.

(** The page of a directory and the total number of entries. *)
Definition list_body (cfg : Config) (relative : string) (start size : Z) (root : string)
    : M FS (list WorkspaceEntry * Z) :=
  abs ← resolve root relative true true;
  info ← attempt (Stat abs);
  match info with
  | Err e => if errorsIs e ErrNotExist then werr ERROR_CODE_WORKSPACE_ENTRY_NOT_FOUND "directory not found" else throw e
  | Ok info =>
      if negb (fi_IsDir info) then
        werr ERROR_CODE_WORKSPACE_ENTRY_TYPE_UNSUPPORTED "entry is not a directory"
      else
        _ ← ctx_Err;
        dir ← ReadDir abs;
        let total := zlen dir in
        if (start <? 0)%Z || (total <? start)%Z || (size <? 0)%Z then
          werr ERROR_CODE_INVALID_REQUEST "page offset is out of range"
        else
          let end_ := Z.min (start + size) total in
          out ← list_entries cfg root relative
                  (take (Z.to_nat (end_ - start)) (drop (Z.to_nat start) dir));
          mret (out, total)
  end.

Definition Service_List (cfg : Config) (codexID relative : string) (start size : Z)
    : WState → WState * res (list WorkspaceEntry * Z) :=
  with_ctx (read_access codexID (list_body cfg relative start size)).

(** The double-checked read: the file must look the same before and after. *)
Definition same_file (before after : inode) : bool :=
  bool_decide (in_dev before = in_dev after) && bool_decide (in_ino before = in_ino after) &&
  bool_decide (fi_Size before = fi_Size after) && bool_decide (in_mtime before = in_mtime after).

Fixpoint read_attempts (cfg : Config) (attempts : nat) (relative abs : string) : M FS (WorkspaceEntry * string) :=
  match attempts with
  | O => werr ERROR_CODE_CONFLICT "file changed during read"
  | S attempts =>
      before ← attempt (Stat abs);
      match before with
      | Err e => if errorsIs e ErrNotExist then werr ERROR_CODE_WORKSPACE_ENTRY_NOT_FOUND "file not found" else throw e
      | Ok before =>
          if negb (fi_IsRegular before) then
            werr ERROR_CODE_WORKSPACE_ENTRY_TYPE_UNSUPPORTED "entry is not a regular file"
          else if (MaxTextFileBytes cfg <? fi_Size before)%Z then
            werr ERROR_CODE_WORKSPACE_TEXT_TOO_LARGE "text file exceeds hard limit"
          else
            content ← readFileContext abs;
            after ← attempt (Stat abs);
            match after with
            | Err _ => read_attempts cfg attempts relative abs
            | Ok after =>
                if same_file before after then
                  if negb (ValidString content) then werr ERROR_CODE_WORKSPACE_TEXT_NOT_UTF8 "file is not UTF-8"
                  else mret (stableTextEntry relative before content, content)
                else read_attempts cfg attempts relative abs
            end
      end
  end.

Definition read_body (cfg : Config) (relative root : string) : M FS (WorkspaceEntry * string) :=
  abs ← resolve root relative false true;
  read_attempts cfg 2 relative abs.

Definition ReadText (cfg : Config) (codexID relative : string) : WState → WState * res (WorkspaceEntry * string) :=
  with_ctx (read_access codexID (read_body cfg relative)).

(** ** Mutations *)

(** [WriteText] from [resolve] to the metadata of the new file. *)
Definition write_stage (cfg : Config) (relative text expectedRevision token : string) (condition : WorkspaceWriteCondition)
    (w : workspaceState) (root : string) : M FS (targetBackup * WorkspaceEntry) :=
  abs ← resolve root relative false false;
  _ ← of_res (validateMutationState w token);
  _ ← validateMutationTarget abs condition expectedRevision ENTRY_KIND_REGULAR_FILE;
  backup ← stageTarget abs;
  r ← attempt (atomicFile abs text);
  match r with
  | Err e => rollbackMutation backup e
  | Ok _ =>
      r ← attempt (entryMetadata root relative (MaxTextFileBytes cfg) true);
      match r with
      | Err e => rollbackMutation backup e
      | Ok entry => mret (backup, entry)
      end
  end.

(** After [emit] returned: keep the files or bring the old ones back. *)
Definition finish_files (outcome : res unit) (backup : targetBackup) (entry : WorkspaceEntry) : M FS WorkspaceEntry :=
  match outcome with
  | Ok _ => _ ← discard backup; mret entry
  | Err e =>
      if errorsIs e ErrEventCommitOutcomeUnknown then _ ← discard backup; throw e
      else rollbackMutation backup e
  end.

(** The frame of [WriteText] and [Upload]: admission, files, publication, completion.
    [None]: still waiting for a pending transition. *)
Definition mutate (ctxErr : option goerr) (sink : sink_fn) (now : Z) (token' codexID : string)
    (stage : workspaceState → string → M FS (targetBackup * WorkspaceEntry)) (st : WState)
    : option (WState * res WorkspaceEntry) :=
  match known codexID (wst_sv st) with
  | (sv, Err e) => Some (mkWState sv (wst_fs st), Err e)
  | (sv, Ok p) =>
      match sv_heap sv !! p with
      | None => None
      | Some w =>
          match lockMutationCoordinator ctxErr w with
          | None => None
          | Some (Err e) => Some (mkWState sv (wst_fs st), Err e)
          | Some (Ok _) =>
              match access_root w (wst_fs st) with
              | (fs, Err e) => Some (mkWState sv fs, Err e)
              | (fs, Ok (w, Err e)) => Some (mkWState (put_ws p w sv) fs, Err e)
              | (fs, Ok (w, Ok root)) =>
                  match stage w root fs with
                  | (fs, Err e) => Some (mkWState (put_ws p w sv) fs, Err e)
                  | (fs, Ok (backup, entry)) =>
                      let '(w, fl) := begin_mutation now token' (sv_next_chan sv) w in
                      let outcome := emit sink codexID (fl_attempted fl) in
                      let sv := put_ws p (finish_transition outcome fl w) (fresh_chan sv) in
                      let '(fs, r) := finish_files outcome backup entry fs in
                      Some (mkWState sv fs, r)
                  end
              end
          end
      end
  end.

Definition WriteText (cfg : Config) (ctxErr : option goerr) (sink : sink_fn) (now : Z) (token' : string)
    (codexID relative text expectedRevision token : string) (condition : WorkspaceWriteCondition) (st : WState)
    : option (WState * res WorkspaceEntry) :=
  if negb (ValidString text) then
    Some (st, workspaceErr ERROR_CODE_WORKSPACE_TEXT_NOT_UTF8 "text is not UTF-8")
  else if (MaxTextFileBytes cfg <? slen text)%Z then
    Some (st, workspaceErr ERROR_CODE_WORKSPACE_TEXT_TOO_LARGE "text exceeds hard limit")
  else mutate ctxErr sink now token' codexID (write_stage cfg relative text expectedRevision token condition) st.

Section Archives.
Context (zip_NewReader : string → res (list zip_item)).

Definition upload_stage (cfg : Config) (destination : string) (kind : WorkspaceUploadKind) (content token : string)
    (w : workspaceState) (root : string) : M FS (targetBackup * WorkspaceEntry) :=
  abs ← resolve root destination false false;
  if bool_decide (kind ≠ UPLOAD_KIND_REGULAR_FILE) && bool_decide (kind ≠ UPLOAD_KIND_ZIP_DIRECTORY) then
    werr ERROR_CODE_INVALID_REQUEST "upload kind is required"
  else
    _ ← of_res (validateMutationState w token);
    _ ← validateUploadTarget abs;
    backup ← stageTarget abs;
    r ← attempt (if bool_decide (kind = UPLOAD_KIND_REGULAR_FILE) then atomicFile abs content
                 else extractZIPAtomic zip_NewReader cfg abs content);
    match r with
    | Err e => rollbackMutation backup e
    | Ok _ =>
        r ← attempt (entryMetadata root destination (MaxTextFileBytes cfg) true);
        match r with
        | Err e => rollbackMutation backup e
        | Ok entry => mret (backup, entry)
        end
    end.

Definition Upload (cfg : Config) (ctxErr : option goerr) (sink : sink_fn) (now : Z) (token' : string)
    (codexID destination : string) (kind : WorkspaceUploadKind) (content token : string) (st : WState)
    : option (WState * res WorkspaceEntry) :=
  if (MaxInlineUploadBytes cfg <? slen content)%Z then
    Some (st, workspaceErr ERROR_CODE_WORKSPACE_UPLOAD_TOO_LARGE "upload exceeds hard limit")
  else mutate ctxErr sink now token' codexID (upload_stage cfg destination kind content token) st.

(** ** Download *)

(** An entry collected for an archive. *)
Record zip_node := mkZipNode {
  zn_abs : string;
  zn_rel : string;
  zn_info : inode;
}.

(** The writer's buffer after entries (name, content of a file), and after [Close]. *)
Context (zip_buffer zip_closed : list (string * option string) → string).

(** The walk function of [zipDirectory]. *)
Definition visit (cfg : Config) (root : string) (acc : list zip_node * Z) (p : string) (info : inode)
    : M FS (list zip_node * Z) :=
  _ ← ctx_Err;
  if bool_decide (p = root) then mret acc
  else if fi_IsSymlink info || (negb (fi_IsRegular info) && negb (fi_IsDir info)) then
    werr ERROR_CODE_WORKSPACE_ENTRY_TYPE_UNSUPPORTED "directory contains unsupported entry"
  else
    let rel := match Rel root p with Ok rel => rel | Err _ => "" end in
    let nodes := acc.1 ++ [mkZipNode p rel info] in
    if (MaxArchiveEntryCount cfg <? u32 (zlen nodes))%Z then
      werr ERROR_CODE_WORKSPACE_ARCHIVE_TOO_MANY_ENTRIES "directory has too many entries"
    else if fi_IsRegular info then
      let expanded := u64_add acc.2 (fi_Size info) in
      if (MaxArchiveExpandedBytes cfg <? expanded)%Z then
        werr ERROR_CODE_WORKSPACE_ARCHIVE_EXPANDED_TOO_LARGE "directory expansion exceeds hard limit"
      else mret (nodes, expanded)
    else mret (nodes, acc.2).

(** [filepath.Walk] below [p]; [fuel] bounds the depth of the tree. *)
Fixpoint walk_files (cfg : Config) (fuel : nat) (root p : string) (info : inode) (acc : list zip_node * Z)
    : M FS (list zip_node * Z) :=
  if negb (fi_IsDir info) then visit cfg root acc p info
  else match fuel with
  | O => fail_msg "file name too long"
  | S fuel =>
      names ← attempt (ReadDir p);
      match names with
      | Err e => _ ← ctx_Err; throw e
      | Ok names =>
          acc ← visit cfg root acc p info;
          (fix each (names : list string) (acc : list zip_node * Z) : M FS (list zip_node * Z) :=
             match names with
             | [] => mret acc
             | name :: names =>
                 let filename := Join [p; name] in
                 child ← attempt (Lstat filename);
                 match child with
                 | Err e => _ ← ctx_Err; throw e
                 | Ok child => acc ← walk_files cfg fuel root filename child acc; each names acc
                 end
             end) names acc
      end
  end.

Definition rel_le (a b : zip_node) : Prop := name_le (zn_rel a) (zn_rel b).
#[export] Instance rel_le_dec : RelDecision rel_le.
Proof. intros a b. unfold rel_le. apply _. Defined.

Definition download_too_large {A} : M FS A :=
  werr ERROR_CODE_WORKSPACE_DOWNLOAD_TOO_LARGE "ZIP download exceeds hard limit".

Fixpoint write_nodes (cfg : Config) (written : list (string * option string)) (nodes : list zip_node)
    : M FS (list (string * option string)) :=
  match nodes with
  | [] => mret written
  | n :: nodes =>
      _ ← ctx_Err;
      let name := if fi_IsDir (zn_info n) then zn_rel n +:+ "/" else zn_rel n in
      content ← (if fi_IsRegular (zn_info n) then c ← readFileContext (zn_abs n); mret (Some c) else mret None : M FS (option string));
      let written := written ++ [(name, content)] in
      if (MaxInlineDownloadBytes cfg <? slen (zip_buffer written))%Z then download_too_large
      else write_nodes cfg written nodes
  end.

Definition zipDirectory (cfg : Config) (root : string) : M FS string :=
  info ← attempt (Lstat root);
  fuel ← gets (λ s, S (size (fs_tree s)));
  collected ← match info with
              | Err e => _ ← ctx_Err; throw e
              | Ok info => walk_files cfg fuel root root info ([], 0%Z)
              end;
  written ← write_nodes cfg [] (merge_sort rel_le collected.1);
  if (MaxInlineDownloadBytes cfg <? slen (zip_closed written))%Z then download_too_large
  else mret (zip_closed written).

Definition download_body (cfg : Config) (relative root : string)
    : M FS (WorkspaceEntry * WorkspaceDownloadKind * string * string) :=
  abs ← resolve root relative false true;
  info ← attempt (Stat abs);
  match info with
  | Err e => if errorsIs e ErrNotExist then werr ERROR_CODE_WORKSPACE_ENTRY_NOT_FOUND "entry not found" else throw e
  | Ok info =>
      entry ← entryMetadata root relative (MaxTextFileBytes cfg) false;
      if fi_IsRegular info then
        if (MaxInlineDownloadBytes cfg <? fi_Size info)%Z then
          werr ERROR_CODE_WORKSPACE_DOWNLOAD_TOO_LARGE "download exceeds hard limit"
        else
          content ← readFileContext abs;
          mret (entry, DOWNLOAD_KIND_REGULAR_FILE, Base abs, content)
      else if negb (fi_IsDir info) then
        werr ERROR_CODE_WORKSPACE_ENTRY_TYPE_UNSUPPORTED "entry type cannot be downloaded"
      else
        content ← zipDirectory cfg abs;
        mret (entry, DOWNLOAD_KIND_ZIP_DIRECTORY, Base abs +:+ ".zip", content)
  end.

Definition Download (cfg : Config) (codexID relative : string)
    : WState → WState * res (WorkspaceEntry * WorkspaceDownloadKind * string * string) :=
  with_ctx (read_access codexID (download_body cfg relative)).

End Archives.
