(* ===== verification/WorkspaceTheorems.v ===== *)
(** * Workspace handlers: theorems

    Mutations are all-or-nothing for everything clients can see, written text is read
    back with its revision, and write conditions are enforced. *)

From Stdlib Require Import Ascii String.
From stdpp Require Import base tactics numbers list sorting gmap strings pretty.
From S2P Require Import Prelude GoError GoStrings Sha256 GoPath FileSystem FileCalls Remote Workspace WorkspaceFiles WorkspaceStaging WorkspaceService.
Local Open Scope string_scope.
Local Open Scope nat_scope.
Local Open Scope list_scope.

(** ** Calls that only read *)

Lemma resolve_new_spec root relative allowRoot t0 :
  triple (λ t, t = t0) (resolve root relative allowRoot false) (λ r t, t = t0 ∧
    match r with Ok p => p = Join [root; relative] | Err _ => True end).
Proof.
  unfold resolve. fs_bind (λ (_ : res unit) t, t = t0); [by apply triple_of_res| |done].
  fs_bind (λ (r : res bool) t, t = t0 ∧ r = Ok false); [by apply triple_ret| |by intros e t []].
  apply (triple_pure (a0 = false)); [by intros t [_ [= ->]]|]. intros ->.
  eapply (triple_conseq (λ t, t = t0)); [by intros t []| |by intros r t H; exact H].
  fs_try (λ (r : res string) t, t = t0).
  { by apply (triple_read _ (λ t, apath <$> walk 255 t [] _)). }
  destruct a0 as [resolved|e].
  - destruct (within root resolved); [by apply triple_ret|apply triple_throw; by intros t ->].
  - destruct (errorsIs e ErrNotExist); apply triple_throw; by intros t ->.
Qed.

(** The metadata a successful [entryMetadata] reports. *)
Definition describes (e : WorkspaceEntry) (relative : string) (i : inode) : Prop :=
  we_RelativePath e = relative ∧ we_Kind e = entry_kind i ∧
  we_Revision e = (if fi_IsRegular i then metadataRevision i else "") ∧
  we_SizeBytes e = Z.max (fi_Size i) 0 ∧ we_ModifiedAtUnixMs e = mod_millis i.

Lemma entryMetadata_spec root relative limit inspect t0 :
  triple (λ t, t = t0) (entryMetadata root relative limit inspect) (λ r t, t = t0 ∧
    match r with Ok e => ∃ i, lstat_tree t0 (Join [root; relative]) = Ok i ∧ describes e relative i | Err _ => True end).
Proof.
  unfold entryMetadata. fs_bind (λ (_ : res unit) t, t = t0); [by apply triple_of_res| |done].
  fs_bind (λ (r : res inode) t, t = t0 ∧ match r with Ok i => lstat_tree t0 (Join [root; relative]) = Ok i | Err _ => True end); [| |by intros e t []].
  { apply (triple_read _ (λ t, lstat_tree t _)); [|by intros]. intros t ->. by destruct (lstat_tree _ _). }
  apply (triple_pure (lstat_tree t0 (Join [root; relative]) = Ok a0)); [by intros t []|]. intros Hi.
  eapply (triple_conseq (λ t, t = t0)); [by intros t []| |by intros r t H; exact H].
  fs_bind (λ (_ : res bool) t, t = t0); [| |by intros e t ->].
  { destruct (inspect && _); [|by apply triple_ret]. fs_try (λ (_ : res string) t, t = t0); [|by apply triple_ret].
    by apply (triple_read _ (λ t, match follow t (Join [root; relative]) with
      | Ok i => match in_node i with NFile c => Ok c | NDir => Err (ErrText "is a directory") | _ => Err (ErrText "input/output error") end
      | Err e => Err e end)). }
  apply triple_ret. intros t ->. split; [done|]. exists a0. split; [done|]. split_and!; try done. simpl.
  unfold entry_kind. destruct (fi_IsRegular a0); [done|]. by destruct (fi_IsDir a0), (fi_IsSymlink a0).
Qed.

(** ** Mutations of a target in a real directory *)

Section Mutation.
Context (rs q : list string) (c : string) (t0 : tree).
Context (Hrs : Forall normal rs) (Hq : Forall normal q) (Hc : normal c) (Hvc : ¬ host_name c).
Context (Hdir : real_dir t0 (rs ++ q)) (Hcl : closed t0).

Notation P := (rs ++ q).
Notation T := (P ++ [c]).
Notation relative := (join_slash (q ++ [c])).

Lemma P_normal : Forall normal P.
Proof. by apply Forall_app. Qed.

Lemma target_path : Join [apath rs; relative] = apath T.
Proof. rewrite Join_parts; [by rewrite app_assoc|done| |apply snoc_ne]. apply Forall_app. split; [done|by constructor]. Qed.

(** What a failure leaves behind, where [faults] were the failures still to come when
    it started: every visible path as it was; or, when the environment made a call of the
    rollback fail and the error reports just that, everything outside the target as it was
    and the old target whole under a name of the Host's own. *)
Definition undone (faults : list (option (goerr * nat))) (e : goerr) (s : FS) : Prop :=
  same_visible t0 (fs_tree s) ∨
  ∃ h cause used x n, e = rollback_failed cause (fault_err x) ∧ faults = used ++ Some (x, n) :: fs_faults s ∧
    working P c t0 h (fs_tree s).

(** [undoes I m Q]: [m], from a tree with [I], ends with [Q] or leaves [undone]. *)
Definition undoes {A} (I : tree → Prop) (m : M FS A) (Q : A → FS → Prop) : Prop := ∀ s s' r,
  I (fs_tree s) → m s = (s', r) →
  match r with Ok a => Q a s' | Err e => undone (fs_faults s) e s' end.

Lemma undone_before faults faults' e s : faults `suffix_of` faults' → undone faults e s → undone faults' e s.
Proof.
  intros [l ->] [H|(h & cause & used & x & n & -> & -> & Hw)]; [by left|right].
  exists h, cause, (l ++ used), x, n. by rewrite <- app_assoc.
Qed.

Lemma undoes_bind {A B} (I : tree → Prop) (m : M FS A) (R : res A → tree → Prop) (k : A → M FS B) Q :
  triple I m R → spends fs_faults m → (∀ a, undoes (R (Ok a)) (k a) Q) → (∀ e t, R (Err e) t → same_visible t0 t) →
  undoes I (m ≫= k) Q.
Proof.
  intros Hm Hsp Hk He s s' r HI (s1 & r1 & H1 & H)%M_bind_inv_any. pose proof (Hm _ _ _ HI H1) as HR.
  apply (spends_run fs_faults _ _ _ _ Hsp) in H1. destruct r1 as [a|e].
  - specialize (Hk a _ _ _ HR H). destruct r; [done|]. by eapply undone_before.
  - destruct H as [-> ->]. left. by apply (He e).
Qed.

Lemma undoes_ret {A} (I : tree → Prop) (m : M FS A) (R : res A → tree → Prop) Q :
  triple I m R → (∀ a s, R (Ok a) (fs_tree s) → Q a s) → (∀ e t, R (Err e) t → same_visible t0 t) → undoes I m Q.
Proof.
  intros Hm HQ He s s' [a|e] HI H; [by apply HQ, (Hm _ _ _ HI H)|]. left. apply (He e), (Hm _ _ _ HI H).
Qed.

Lemma undoes_conseq {A} (I I' : tree → Prop) (m : M FS A) Q :
  (∀ t, I' t → I t) → undoes I m Q → undoes I' m Q.
Proof. intros HI Hm s s' r H. apply Hm. by apply HI. Qed.

Lemma undoes_pure {A} (φ : Prop) (I : tree → Prop) (m : M FS A) Q : (∀ t, I t → φ) → (φ → undoes I m Q) → undoes I m Q.
Proof. intros Hφ Hm s s' r H. apply Hm; [|done]. by eapply Hφ. Qed.

Lemma undoes_ex {A X} (I : X → tree → Prop) (m : M FS A) Q : (∀ x, undoes (I x) m Q) → undoes (λ t, ∃ x, I x t) m Q.
Proof. intros Hm s s' r [x HI]. by apply (Hm x). Qed.

Lemma rollbackMutation_spec {A} h cause Q : undoes (working P c t0 h) (rollbackMutation (A:=A) (backup_of P c h) cause) Q.
Proof.
  intros s s' r Hw (s1 & r1 & H1 & H)%M_bind_inv_any. destruct r1 as [r1|e1]; [|unfold attempt in H1; by destruct (rollback _ s)].
  apply attempt_inv in H1. destruct r1 as [u|e]; injection H as <- <-; [left|right].
  - apply (rollback_spec P c t0 P_normal Hc Hvc h _ _ _ Hw H1).
  - destruct (rollback_fails P c t0 P_normal Hc Hvc h _ _ _ Hw H1) as (Hw' & used & x & n & Hf & ->).
    by exists h, cause, used, x, n.
Qed.

(** Staging, installing by [act] and describing, as [WriteText] and [Upload] do it. *)
Definition staged_install (act : M FS unit) (limit : Z) : M FS (targetBackup * WorkspaceEntry) :=
  backup ← stageTarget (apath T);
  r ← attempt act;
  match r with
  | Err e => rollbackMutation backup e
  | Ok _ =>
      r ← attempt (entryMetadata (apath rs) relative limit true);
      match r with
      | Err e => rollbackMutation backup e
      | Ok entry => mret (backup, entry)
      end
  end.

(** The files are new, the old target is kept. *)
Definition installed (I : tree → Prop) (be : targetBackup * WorkspaceEntry) (t : tree) : Prop :=
  ∃ h i, be.1 = backup_of P c h ∧ working P c t0 h t ∧ I t ∧ t !! T = Some i ∧ describes be.2 relative i.

Lemma staged_install_spec act limit (I : tree → Prop) :
  spends fs_faults act →
  (∀ h, triple (λ t, working P c t0 h t ∧ absent P c t ∧ closed t) act
          (λ r t, working P c t0 h t ∧ match r with Ok _ => I t | Err _ => True end)) →
  undoes (λ t, t = t0) (staged_install act limit) (λ be s, installed I be (fs_tree s)).
Proof.
  intros Hsp Hact. unfold staged_install.
  apply (undoes_bind _ _ (λ (r : res targetBackup) t, match r with
    | Ok b => ∃ h, b = backup_of P c h ∧ working P c t0 h t ∧ absent P c t ∧ closed t | Err _ => t = t0 end));
    [by apply stageTarget_spec; [apply P_normal|..]|auto with spends| |by intros e t ->].
  intros b. apply undoes_ex. intros h. apply (undoes_pure (b = backup_of P c h)); [by intros t []|]. intros ->.
  apply (undoes_bind _ _
    (λ (r : res (res unit)) t, match r with Ok r => working P c t0 h t ∧ match r with Ok _ => I t | Err _ => True end | Err _ => False end));
    [|by apply spends_attempt| |done].
  { eapply triple_attempt; [|by intros r t H; exact H]. eapply triple_conseq; [|apply (Hact h)|done]. by intros t []. }
  intros [u|e].
  2: { apply (undoes_conseq (working P c t0 h)); [by intros t []|]. apply rollbackMutation_spec. }
  apply (undoes_bind _ _ (λ (r : res (res WorkspaceEntry)) t, match r with
    | Ok r => working P c t0 h t ∧ I t ∧ match r with Ok e => ∃ i, t !! T = Some i ∧ describes e relative i | Err _ => True end
    | Err _ => False end)); [|apply spends_attempt; auto with spends| |done].
  { eapply triple_attempt; [|by intros r t H; exact H]. apply triple_fix. intros t2 [Hw2 HI].
    eapply triple_post; [apply entryMetadata_spec|]. intros [e|e] t [-> H]; [|done]. split_and!; [done..|].
    destruct H as (i & Hi & Hd). exists i. split; [|done]. rewrite target_path in Hi. unfold lstat_tree in Hi.
    rewrite locate_in in Hi; [|apply P_normal|apply Hw2|done]. by destruct (t2 !! T); simplify_eq. }
  intros [entry|e].
  - eapply (undoes_ret _ _ (λ (r : res (targetBackup * WorkspaceEntry)) t, match r with Ok be => installed I be t | Err _ => False end));
      [|done|done]. apply triple_ret. intros t (Hw & HI & i & Hi & Hd). by exists h, i.
  - apply (undoes_conseq (working P c t0 h)); [by intros t []|]. apply rollbackMutation_spec.
Qed.

(** Discarding the backup changes no visible file. *)
Lemma discard_spec I h i :
  (∀ x t t', host_name x → (∀ k, ¬ P ++ [x] `prefix_of` k → t' !! k = t !! k) → I t → I t') →
  triple (λ t, working P c t0 h t ∧ I t ∧ t !! T = Some i) (discard (backup_of P c h))
    (λ r t, r = Ok tt ∧ outside P c t0 t ∧ I t ∧ t !! T = Some i).
Proof.
  intros HI. unfold discard. destruct h as [h|]; simpl; [|apply triple_ret; by intros t [[_ []] []]].
  apply (triple_pure (normal h ∧ host_name h)); [by intros t [(_ & _ & ? & ? & _) _]|]. intros [Hn Hh].
  fs_try (λ (_ : res unit) t, outside P c t0 t ∧ I t ∧ t !! T = Some i); [|by apply triple_ret].
  eapply triple_post; [apply (RemoveAll_off P P_normal); [by intros t [[] _]|done]|].
  intros r t' (t & ((_ & Ho & _) & HIt & Hi) & Hoff). split_and!; [|by eapply HI|].
  - intros k Hk HT. rewrite <- Ho by done. apply elook_eq, Hoff. by apply off_host.
  - rewrite Hoff; [done|]. intros ->%child_prefix. by apply Hvc.
Qed.

(** What a finished mutation leaves.  The error of a publication whose outcome is unknown
    is returned as it is, and the new files stay. *)
Definition mutation_result (sink : sink_fn) (I : tree → Prop) (faults : list (option (goerr * nat))) (r : res WorkspaceEntry) (s : FS) : Prop :=
  match r with
  | Ok entry => outside P c t0 (fs_tree s) ∧ I (fs_tree s) ∧ ∃ i, fs_tree s !! T = Some i ∧ describes entry relative i
  | Err e => undone faults e s ∨
      ((∃ publish id access, sink = Some publish ∧ publish id access = Err e) ∧
       errorsIs e ErrEventCommitOutcomeUnknown = true ∧ outside P c t0 (fs_tree s) ∧ I (fs_tree s))
  end.

Lemma mutation_result_before sink I faults faults' r s : faults `suffix_of` faults' →
  mutation_result sink I faults r s → mutation_result sink I faults' r s.
Proof. intros Hf. destruct r; [done|]. intros [H|H]; [left; by eapply undone_before|by right]. Qed.

Lemma finish_files_spec I sink id access b entry s s' r :
  (∀ x t t', host_name x → (∀ k, ¬ P ++ [x] `prefix_of` k → t' !! k = t !! k) → I t → I t') →
  installed I (b, entry) (fs_tree s) → finish_files (emit sink id access) b entry s = (s', r) →
  mutation_result sink I (fs_faults s) r s'.
Proof.
  intros HI (h & i & Hb & Hw & HIt & Hi & Hd) H. simpl in *. subst b.
  assert (∀ s1 r1, discard (backup_of P c h) s = (s1, r1) →
    r1 = Ok tt ∧ outside P c t0 (fs_tree s1) ∧ I (fs_tree s1) ∧ fs_tree s1 !! T = Some i) as Hdis.
  { intros s1 r1. by apply (discard_spec I h i HI). }
  unfold finish_files in H. destruct (emit sink id access) as [[]|e] eqn:Ee; [|destruct (errorsIs e _) eqn:Eu].
  - apply M_bind_inv_any in H as (s1 & r1 & [-> (Ho & HI' & Hi')]%Hdis & H). injection H as <- <-. split_and!; [done..|eauto].
  - apply M_bind_inv_any in H as (s1 & r1 & [-> (Ho & HI' & Hi')]%Hdis & H). injection H as <- <-. right.
    split_and!; [|done..]. destruct sink as [publish|]; [|done]. by exists publish, id, access.
  - pose proof (rollbackMutation_spec h e (λ _ _, False) _ _ _ Hw H) as Hu. destruct r; [done|by left].
Qed.

End Mutation.

(** ** The handlers *)

Definition root_of (t : tree) (w : workspaceState) (rs : list string) : Prop :=
  walk 255 t [] (Split_slash (Clean (ws_root w))) = Ok rs.

Lemma canonicalRoot_spec root t0 :
  triple (λ t, t = t0) (canonicalRoot root) (λ r t, t = t0 ∧
    match r with
    | Ok p => ∃ cs, p = apath cs ∧ Forall normal cs ∧ (∃ j, t0 !! cs = Some j ∧ in_node j = NDir) ∧ walk 255 t0 [] (Split_slash (Clean root)) = Ok cs
    | Err _ => True
    end).
Proof.
  unfold canonicalRoot. intros s s' r Ht H. apply M_bind_inv_any in H as (s1 & r1 & H1 & H).
  unfold attempt in H1. destruct (EvalSymlinks (Clean root) s) as [s1' r1'] eqn:E1. simplify_eq.
  apply EvalSymlinks_inv in E1 as [Ht1 Hr1].
  destruct r1' as [resolved|e]; [|by destruct (errorsIs e ErrNotExist); injection H as <- <-].
  destruct (Hr1 _ eq_refl) as (cs & -> & Hw). apply M_bind_inv_any in H as (s2 & r2 & H2 & H).
  unfold attempt in H2. destruct (Stat (apath cs) s1) as [s2' r2'] eqn:E2. simplify_eq.
  apply Stat_inv in E2 as [Ht2 Hr2]. rewrite Ht1 in *.
  destruct r2' as [i|e]; [|by injection H as <- <-]. destruct (fi_IsDir i) eqn:Ed; injection H as <- <-; [|done].
  split; [done|]. destruct (walk_sound _ _ _ _ _ (real_dir_nil _) (Forall_nil_2 _) (Split_slash_parts _) Hw) as [Hp Hn].
  exists cs. rewrite Clean_apath by done. split_and!; [done|done| |done].
  specialize (Hr2 _ eq_refl). unfold follow in Hr2. rewrite walk_apath, walk_physical in Hr2 by done.
  destruct (fs_tree s !! cs) as [j|]; [|done]. injection Hr2 as ->. exists i. split; [done|].
  unfold fi_IsDir in Ed. by destruct (in_node i).
Qed.

Lemma access_root_spec w fs fs' r :
  access_root w fs = (fs', r) → fs_tree fs' = fs_tree fs ∧
  match r with
  | Ok (w', Ok root) => ∃ rs, root = apath rs ∧ Forall normal rs ∧ (∃ j, fs_tree fs !! rs = Some j ∧ in_node j = NDir) ∧ root_of (fs_tree fs) w rs ∧
      w' = mkWs root (ws_displayRoot w) (ws_state w) (ws_agentIDs w) (ws_pending w) (ws_removed w) ∧ ws_removed w = false
  | Ok (w', Err _) => w' = w
  | Err _ => False
  end.
Proof.
  unfold access_root, rootForAccess. destruct (ws_removed w) eqn:Er; [by intros [= <- <-]|].
  destruct (canonicalRoot (ws_root w) fs) as [fs1 r1] eqn:E. intros [= <- <-].
  destruct (canonicalRoot_spec _ _ _ _ _ eq_refl E) as [Ht H]. split; [done|].
  destruct r1 as [root|e]; [|done]. destruct H as (cs & -> & Hn & Hd & Hw). by exists cs.
Qed.

Lemma access_root_spends w fs fs' r : access_root w fs = (fs', r) → fs_faults fs' `suffix_of` fs_faults fs.
Proof.
  unfold access_root, rootForAccess. destruct (ws_removed w); [by intros [= <- _]|].
  destruct (canonicalRoot (ws_root w) fs) as [fs1 r1] eqn:E. intros [= <- _].
  by apply (spends_run fs_faults _ _ _ _ (spends_canonicalRoot _)) in E.
Qed.

(** A mutation request. *)
Inductive mutation_request :=
| ReqWrite (text expectedRevision token : string) (condition : WorkspaceWriteCondition)
| ReqUpload (kind : WorkspaceUploadKind) (content token : string).

Section Handlers.
Context (zip_NewReader : string → res (list zip_item)).

Definition run_mutation (cfg : Config) (ctxErr : option goerr) (sink : sink_fn) (now : Z) (token' codexID dest : string)
    (m : mutation_request) (st : WState) : option (WState * res WorkspaceEntry) :=
  match m with
  | ReqWrite text rev token cond => WriteText cfg ctxErr sink now token' codexID dest text rev token cond st
  | ReqUpload kind content token => Upload zip_NewReader cfg ctxErr sink now token' codexID dest kind content token st
  end.

Definition stage_of (cfg : Config) (dest : string) (m : mutation_request) : workspaceState → string → M FS (targetBackup * WorkspaceEntry) :=
  match m with
  | ReqWrite text rev token cond => write_stage cfg dest text rev token cond
  | ReqUpload kind content token => upload_stage zip_NewReader cfg dest kind content token
  end.

Lemma spends_rollbackMutation {A} b cause : spends fs_faults (rollbackMutation (A:=A) b cause).
Proof. unfold rollbackMutation, rollback. fs_spends. Qed.
#[local] Hint Resolve spends_rollbackMutation : spends.

Lemma stage_spends cfg dest m w root : spends fs_faults (stage_of cfg dest m w root).
Proof. destruct m; unfold stage_of, write_stage, upload_stage; fs_spends. Qed.

(** What the request asks for at the target. *)
Definition requested (cfg : Config) (P : list string) (c : string) (m : mutation_request) (t : tree) : Prop :=
  match m with
  | ReqWrite text _ _ _ => is_file P c text t
  | ReqUpload UPLOAD_KIND_REGULAR_FILE content _ => is_file P c content t
  | ReqUpload UPLOAD_KIND_ZIP_DIRECTORY content _ =>
      ∃ items, zip_NewReader content = Ok items ∧ unpacked P c cfg items t ∧
        (u32 (zlen items) ≤ MaxArchiveEntryCount cfg)%Z ∧ (u64 (declared_size items) ≤ MaxArchiveExpandedBytes cfg)%Z
  | ReqUpload UPLOAD_KIND_UNSPECIFIED _ _ => False
  end.

Lemma is_file_frame P c content x t t' : ¬ host_name c → host_name x →
  (∀ k, ¬ P ++ [x] `prefix_of` k → t' !! k = t !! k) → is_file P c content t → is_file P c content t'.
Proof.
  intros Hvc Hx Hoff (i & Hi & H). exists i. rewrite Hoff; [done|]. intros ->%child_prefix. by apply Hvc.
Qed.

Lemma requested_frame cfg P c m x t t' : ¬ host_name c → host_name x →
  (∀ k, ¬ P ++ [x] `prefix_of` k → t' !! k = t !! k) → requested cfg P c m t → requested cfg P c m t'.
Proof.
  intros Hvc Hx Hoff. destruct m as [text rev token cond|[] content token]; simpl; [by eapply is_file_frame|done|by eapply is_file_frame|].
  intros (items & ? & Hu & ?). exists items. split_and!; try tauto. by eapply unpacked_frame.
Qed.

Lemma validateMutationTarget_unchanged target cond rev want t0 :
  triple (λ t, t = t0) (validateMutationTarget target cond rev want) (λ _ t, t = t0).
Proof.
  unfold validateMutationTarget. fs_try (λ (_ : res inode) t, t = t0).
  { by apply (triple_read _ (λ t, lstat_tree t _)). }
  fs_bind (λ (_ : res unit) t, t = t0); [| |done].
  { destruct a as [i|e]; [by apply triple_ret|]. destruct (negb _); [by apply triple_throw|by apply triple_ret]. }
  fs_bind (λ (_ : res unit) t, t = t0); [| |done].
  { destruct cond; repeat case_match; (by apply triple_throw) || (by apply triple_ret). }
  destruct a as [i|e]; [|by apply triple_ret]. repeat case_match; (by apply triple_throw) || (by apply triple_ret).
Qed.

Lemma validateUploadTarget_unchanged target t0 : triple (λ t, t = t0) (validateUploadTarget target) (λ _ t, t = t0).
Proof.
  unfold validateUploadTarget. fs_try (λ (_ : res inode) t, t = t0).
  { by apply (triple_read _ (λ t, lstat_tree t _)). }
  destruct a as [i|e]; repeat case_match; (by apply triple_throw) || (by apply triple_ret).
Qed.

Section AtTarget.
Context (cfg : Config) (Hmax : (0 ≤ MaxArchiveExpandedBytes cfg)%Z).
Context (rs q : list string) (c : string) (t0 : tree).
Context (Hrs : Forall normal rs) (Hq : Forall normal q) (Hc : normal c) (Hvc : ¬ host_name c).
Context (Hdir : real_dir t0 (rs ++ q)) (Hcl : closed t0).

Lemma install_file_spec content limit (I : tree → Prop) :
  (∀ t, is_file (rs ++ q) c content t → I t) →
  undoes rs q c t0 (λ t, t = t0) (staged_install rs q c (atomicFile (apath ((rs ++ q) ++ [c])) content) limit)
    (λ be s, installed rs q c t0 I be (fs_tree s)).
Proof.
  intros HI. apply staged_install_spec; [done..|auto with spends|]. intros h.
  eapply triple_conseq; [|apply (atomicFile_spec (rs ++ q) c t0); [by apply Forall_app|done|done]|].
  - intros t (? & ? & _). done.
  - intros [u|e] t []; auto.
Qed.

(** The checks that come before anything is touched. *)
Lemma checked_resolve {B} (k : string → M FS B) Q :
  undoes rs q c t0 (λ t, t = t0) (k (apath ((rs ++ q) ++ [c]))) Q →
  undoes rs q c t0 (λ t, t = t0) (resolve (apath rs) (join_slash (q ++ [c])) false false ≫= k) Q.
Proof.
  intros Hk. apply (undoes_bind _ _ _ _ _ _ (λ (r : res string) t, t = t0 ∧ match r with Ok p => p = apath ((rs ++ q) ++ [c]) | Err _ => True end)).
  - rewrite <- target_path by done. apply resolve_new_spec.
  - auto with spends.
  - intros p. apply (undoes_pure _ _ _ _ (p = apath ((rs ++ q) ++ [c]))); [by intros t []|]. intros ->.
    eapply undoes_conseq; [|exact Hk]. by intros t [].
  - by intros e t [-> _].
Qed.

Lemma checked {A B} (m : M FS A) (k : A → M FS B) Q :
  triple (λ t, t = t0) m (λ _ t, t = t0) → spends fs_faults m →
  (∀ a, undoes rs q c t0 (λ t, t = t0) (k a) Q) → undoes rs q c t0 (λ t, t = t0) (m ≫= k) Q.
Proof. intros Hm Hsp Hk. apply (undoes_bind _ _ _ _ _ _ (λ _ t, t = t0)); [done..|]. by intros e t ->. Qed.

Lemma stage_spec m w :
  undoes rs q c t0 (λ t, t = t0) (stage_of cfg (join_slash (q ++ [c])) m w (apath rs))
    (λ be s, installed rs q c t0 (requested cfg (rs ++ q) c m) be (fs_tree s)).
Proof.
  destruct m as [text rev token cond|kind content token]; unfold stage_of, write_stage, upload_stage; apply checked_resolve.
  - apply checked; [by apply triple_of_res|by apply spends_same|intros _].
    apply checked; [apply validateMutationTarget_unchanged|auto with spends|intros _].
    by apply (install_file_spec text).
  - destruct (_ && _) eqn:Ek; [by intros s s' r Ht [= <- <-]; left; rewrite Ht|].
    apply checked; [by apply triple_of_res|by apply spends_same|intros _].
    apply checked; [apply validateUploadTarget_unchanged|auto with spends|intros _].
    destruct kind; [done|by apply (install_file_spec content)|].
    apply (staged_install_spec rs q c t0 Hrs Hq Hc Hvc Hdir Hcl (extractZIPAtomic zip_NewReader cfg (apath ((rs ++ q) ++ [c])) content));
      [auto with spends|]. intros h. apply extractZIPAtomic_spec; [by apply Forall_app|done..].
Qed.

End AtTarget.

(** The frame shared by both handlers. *)
Lemma mutate_spec cfg ctxErr sink now token' codexID q c m st st' r p w rs :
  (0 ≤ MaxArchiveExpandedBytes cfg)%Z →
  sv_states (wst_sv st) !! codexID = Some p → sv_heap (wst_sv st) !! p = Some w →
  Forall normal q → normal c → ¬ host_name c →
  closed (fs_tree (wst_fs st)) → root_of (fs_tree (wst_fs st)) w rs → real_dir (fs_tree (wst_fs st)) (rs ++ q) →
  mutate ctxErr sink now token' codexID (stage_of cfg (join_slash (q ++ [c])) m) st = Some (st', r) →
  mutation_result rs q c (fs_tree (wst_fs st)) sink (requested cfg (rs ++ q) c m) (fs_faults (wst_fs st)) r (wst_fs st').
Proof.
  intros Hmax Hst Hw Hq Hc Hvc Hcl Hroot Hdir Hm. set (t0 := fs_tree (wst_fs st)) in *.
  assert (∀ e fs, fs_tree fs = t0 → mutation_result rs q c t0 sink (requested cfg (rs ++ q) c m) (fs_faults (wst_fs st)) (Err e) fs) as Hu.
  { intros e fs Hfs. left. left. by rewrite Hfs. }
  unfold mutate, known in Hm. rewrite Hst, Hw in Hm.
  destruct (lockMutationCoordinator ctxErr w) as [[[]|e]|]; [|injection Hm as <- <-; by apply Hu|done].
  destruct (access_root w (wst_fs st)) as [fs1 r1] eqn:E1. pose proof (access_root_spends _ _ _ _ E1) as Hsp1.
  apply access_root_spec in E1 as [Ht1 Hr1]. fold t0 in Ht1, Hr1.
  destruct r1 as [[w1 [root|e]]|e]; [|injection Hm as <- <-; by apply Hu|done].
  destruct Hr1 as (rs' & -> & Hrs & _ & Hroot' & _). assert (rs' = rs) as -> by (unfold root_of in *; congruence).
  eapply mutation_result_before; [exact Hsp1|]. destruct (stage_of _ _ m w1 (apath rs) fs1) as [fs2 r2] eqn:E2.
  pose proof (stage_spec cfg Hmax rs q c t0 Hrs Hq Hc Hvc Hdir Hcl m w1 _ _ _ Ht1 E2) as Hs.
  apply (spends_run fs_faults _ _ _ _ (stage_spends _ _ _ _ _)) in E2.
  destruct r2 as [[backup entry]|e]; [|simplify_eq; by left]. eapply mutation_result_before; [exact E2|].
  destruct (begin_mutation _ _ _ w1) as [w2 fl]. destruct (finish_files _ _ _ fs2) as [fs3 r3] eqn:E3. simplify_eq. simpl.
  eapply finish_files_spec; [done..| |exact Hs|exact E3]. intros x t t' Hx Hoff. by eapply requested_frame.
Qed.

(** The limits checked before anything else. *)
Lemma run_mutation_mutate cfg ctxErr sink now token' codexID dest m st st' r :
  run_mutation cfg ctxErr sink now token' codexID dest m st = Some (st', r) →
  mutate ctxErr sink now token' codexID (stage_of cfg dest m) st = Some (st', r) ∨ (∃ e, r = Err e ∧ st' = st).
Proof.
  intros H. destruct m; simpl in H; unfold WriteText, Upload in H; repeat case_match; (by left) || (right; naive_solver).
Qed.

(** C18: All or nothing.  For a canonical destination whose parent directory is real (no
    link on its path) and whose name is not one of the Host's own, whatever calls fail and
    whatever the publication of the next access state returns: a successful [WriteText] or
    [Upload] leaves exactly the requested file or unpacked archive at the target, described
    by the returned entry, and every other visible path as it was; a failed one leaves
    every visible path as it was, with two exceptions.  When the environment makes a call
    of the rollback itself fail, the error reports that failure, everything outside the
    target is as it was and the old target is kept whole under a name of the Host's own.
    When the error is the one the publication returned and says that its outcome is
    unknown, the new files are kept. *)
Theorem mutation_all_or_nothing cfg ctxErr sink now token' codexID q c m st st' r p w rs :
  (0 ≤ MaxArchiveExpandedBytes cfg)%Z →
  sv_states (wst_sv st) !! codexID = Some p → sv_heap (wst_sv st) !! p = Some w →
  Forall normal q → normal c → ¬ host_name c →
  closed (fs_tree (wst_fs st)) → root_of (fs_tree (wst_fs st)) w rs → real_dir (fs_tree (wst_fs st)) (rs ++ q) →
  run_mutation cfg ctxErr sink now token' codexID (join_slash (q ++ [c])) m st = Some (st', r) →
  mutation_result rs q c (fs_tree (wst_fs st)) sink (requested cfg (rs ++ q) c m) (fs_faults (wst_fs st)) r (wst_fs st').
Proof.
  intros Hmax Hst Hw Hq Hc Hvc Hcl Hroot Hdir [Hm|(e & -> & ->)]%run_mutation_mutate; [by eapply mutate_spec|].
  left. left. by intros k.
Qed.

End Handlers.

(** ** Reading back what was written *)

Section ReadBack.
Context (cfg : Config) (rs q : list string) (c : string) (t : tree) (i : inode) (text : string).
Context (Hrs : Forall normal rs) (Hq : Forall normal q) (Hc : normal c).
Context (Hdir : real_dir t (rs ++ q)) (Hroot : ∃ j, t !! rs = Some j ∧ in_node j = NDir).
Context (Hi : t !! ((rs ++ q) ++ [c]) = Some i) (Hfile : in_node i = NFile text).
Context (Hutf8 : ValidString text = true) (Hsize : (slen text ≤ MaxTextFileBytes cfg)%Z).

Notation T := ((rs ++ q) ++ [c]).

Lemma T_normal : Forall normal T.
Proof. apply Forall_app. split; [by apply Forall_app|by constructor]. Qed.

Lemma T_physical : physical t T.
Proof. eapply physical_snoc; [done|exact Hi|]. unfold fi_IsSymlink. by rewrite Hfile. Qed.

Lemma canonicalRoot_yields : yields t (canonicalRoot (apath rs)) (Ok (apath rs)).
Proof.
  destruct Hroot as (j & Hj & Hd). unfold canonicalRoot. rewrite Clean_apath by done.
  assert (physical t rs) as Hp by (apply real_dir_physical; eapply real_dir_prefix; [|exact Hdir]; by exists q).
  eapply yields_bind; [by apply yields_attempt, EvalSymlinks_yields|]. cbv beta iota.
  eapply yields_bind; [by eapply yields_attempt, Stat_yields|]. cbv beta iota. unfold fi_IsDir. rewrite Hd, Clean_apath by done.
  apply yields_ret.
Qed.

Lemma resolve_yields : canonicalRelative (join_slash (q ++ [c])) false = Ok tt →
  yields t (resolve (apath rs) (join_slash (q ++ [c])) false true) (Ok (apath T)).
Proof.
  intros Hcan. unfold resolve. rewrite target_path by done.
  eapply yields_bind; [rewrite Hcan; apply yields_ret|].
  eapply (yields_bind _ _ _ false).
  { eapply yields_bind; [apply yields_attempt, Lstat_yields; [by apply Forall_app|done|done|exact Hi]|].
    cbv beta iota. unfold fi_IsSymlink. rewrite Hfile. apply yields_ret. }
  cbv beta iota zeta. eapply yields_bind; [apply yields_attempt, EvalSymlinks_yields; [apply T_normal|apply T_physical]|].
  cbv beta iota. assert (within (apath rs) (apath T) = true) as ->; [|apply yields_ret].
  apply within_spec; [done|apply T_normal|]. rewrite <- app_assoc. by exists (q ++ [c]).
Qed.

Lemma read_attempts_yields relative n :
  yields t (read_attempts cfg (S n) relative (apath T)) (Ok (stableTextEntry relative i text, text)).
Proof.
  pose proof T_normal as HTn. pose proof T_physical as HTp.
  cbn [read_attempts]. eapply yields_bind; [by eapply yields_attempt, Stat_yields|]. cbv beta iota.
  unfold fi_IsRegular, fi_Size. rewrite Hfile. cbn [negb]. rewrite (proj2 (Z.ltb_ge _ _) Hsize).
  eapply yields_bind.
  { unfold readFileContext. eapply yields_bind; [by eapply Stat_yields|].
    eapply (yields_bind _ _ _ tt); [apply (yields_read t (λ _, Ok tt))|]. by eapply ReadFile_yields. }
  eapply yields_bind; [by eapply yields_attempt, Stat_yields|]. cbv beta iota.
  unfold same_file. rewrite !bool_decide_true by done. rewrite Hutf8. cbn [andb negb]. apply yields_ret.
Qed.

End ReadBack.

(** A read handler whose body is undisturbed. *)
Lemma read_handler_yields {A : Type} codexID (body : string → M FS A) st p w rs r :
  sv_states (wst_sv st) !! codexID = Some p → sv_heap (wst_sv st) !! p = Some w → ws_removed w = false →
  ws_root w = apath rs → fs_faults (wst_fs st) = [] →
  yields (fs_tree (wst_fs st)) (canonicalRoot (apath rs)) (Ok (apath rs)) →
  yields (fs_tree (wst_fs st)) (body (apath rs)) r →
  ∃ st', with_ctx (read_access codexID body) st = (st', r) ∧ fs_tree (wst_fs st') = fs_tree (wst_fs st).
Proof.
  intros Hst Hw Hrem Hroot Hf Hcan Hbody. unfold with_ctx.
  destruct (yields_read (fs_tree (wst_fs st)) (λ _, Ok tt) (wst_fs st) Hf eq_refl) as (s1 & E1 & Hf1 & Ht1).
  unfold ctx_Err, mret, M_ret. rewrite E1. unfold read_access, known. simpl. rewrite Hst, Hw.
  unfold access_root, rootForAccess. rewrite Hrem, Hroot. destruct (Hcan s1 Hf1 Ht1) as (s2 & -> & Hf2 & Ht2). simpl.
  destruct (Hbody s2 Hf2 Ht2) as (s3 & -> & _ & Ht3). eexists. by split.
Qed.

Lemma finish_transition_root outcome fl w : ws_root (finish_transition outcome fl w) = ws_root w.
Proof. unfold finish_transition, finishPending, rollback_transition. by repeat case_match. Qed.

Lemma finish_transition_removed outcome fl w : ws_removed (finish_transition outcome fl w) = ws_removed w.
Proof. unfold finish_transition, finishPending, rollback_transition. by repeat case_match. Qed.

(** The service after a mutation that did not fail: the workspace has its resolved root. *)
Lemma mutate_service ctxErr sink now token' codexID stage st st' entry p w :
  sv_states (wst_sv st) !! codexID = Some p → sv_heap (wst_sv st) !! p = Some w →
  mutate ctxErr sink now token' codexID stage st = Some (st', Ok entry) →
  ∃ w' rs, sv_states (wst_sv st') !! codexID = Some p ∧ sv_heap (wst_sv st') !! p = Some w' ∧
    ws_removed w' = false ∧ ws_root w' = apath rs ∧ Forall normal rs ∧ root_of (fs_tree (wst_fs st)) w rs ∧
    (∃ j, fs_tree (wst_fs st) !! rs = Some j ∧ in_node j = NDir) ∧
    ∃ w1 fs1 fs2 be, fs_tree fs1 = fs_tree (wst_fs st) ∧ ws_state w1 = ws_state w ∧ stage w1 (apath rs) fs1 = (fs2, Ok be).
Proof.
  intros Hst Hw H. unfold mutate, known in H. rewrite Hst, Hw in H.
  destruct (lockMutationCoordinator ctxErr w) as [[[]|e]|]; [|done|done].
  destruct (access_root w (wst_fs st)) as [fs1 r1] eqn:E1. apply access_root_spec in E1 as [Ht1 Hr1].
  destruct r1 as [[w1 [root|e]]|e]; [|done|done]. destruct Hr1 as (rs & -> & Hrs & Hd & Hroot & -> & Hrem).
  destruct (stage _ (apath rs) fs1) as [fs2 [[backup e2]|e]] eqn:Es; [|done].
  destruct (begin_mutation _ _ _ _) as [w2 fl] eqn:Eb. unfold begin_mutation in Eb. injection Eb as <- <-.
  destruct (finish_files _ _ _ fs2) as [fs3 r3]. simplify_eq. simpl.
  eexists _, rs. split_and!; [done|by rewrite lookup_insert_eq| | |done..|].
  - rewrite finish_transition_removed. done.
  - by rewrite finish_transition_root.
  - eexists _, fs1, fs2, _. split_and!; [done| |exact Es]. done.
Qed.

(** A staged write had a canonical path, the current token and an admissible target. *)
Lemma write_stage_inv cfg relative text rev token cond w root fs fs' be :
  write_stage cfg relative text rev token cond w root fs = (fs', Ok be) →
  canonicalRelative relative false = Ok tt ∧ validateMutationState w token = Ok tt ∧
  ∃ fs1 fs2, fs_tree fs1 = fs_tree fs ∧
    validateMutationTarget (Join [root; relative]) cond rev ENTRY_KIND_REGULAR_FILE fs1 = (fs2, Ok tt).
Proof.
  unfold write_stage. intros H. apply M_bind_inv_ok in H as (s1 & p & H1 & H).
  pose proof (resolve_new_spec root relative false (fs_tree fs) _ _ _ eq_refl H1) as [Ht1 ->].
  unfold resolve in H1. apply M_bind_inv_ok in H1 as (s0 & [] & H0 & _). unfold of_res in H0. injection H0 as <- Hcan.
  apply M_bind_inv_ok in H as (s2 & [] & H2 & H). unfold of_res in H2. injection H2 as <- Hval.
  apply M_bind_inv_ok in H as (s3 & [] & H3 & _). split_and!; [done|done|eauto].
Qed.

(** C21: Round trip.  Text that [WriteText] reported as written is returned unchanged by an
    undisturbed [ReadText] of the same path, with the revision that the write reported, so
    the entry of either call can guard the next conditional write. *)
Theorem write_read_roundtrip cfg ctxErr sink now token' codexID q c text rev token cond st st' entry p w rs :
  (0 ≤ MaxArchiveExpandedBytes cfg)%Z →
  sv_states (wst_sv st) !! codexID = Some p → sv_heap (wst_sv st) !! p = Some w →
  Forall normal q → normal c → ¬ host_name c →
  closed (fs_tree (wst_fs st)) → root_of (fs_tree (wst_fs st)) w rs → real_dir (fs_tree (wst_fs st)) (rs ++ q) →
  WriteText cfg ctxErr sink now token' codexID (join_slash (q ++ [c])) text rev token cond st = Some (st', Ok entry) →
  fs_faults (wst_fs st') = [] →
  ∃ st'' entry', ReadText cfg codexID (join_slash (q ++ [c])) st' = (st'', Ok (entry', text)) ∧
    we_Revision entry' = we_Revision entry ∧ fs_tree (wst_fs st'') = fs_tree (wst_fs st').
Proof.
  intros Hmax Hst Hw Hq Hc Hvc Hcl Hroot Hdir H Hf. unfold WriteText in H.
  destruct (ValidString text) eqn:Hutf8; [|done]. simpl in H. destruct (_ <? _)%Z eqn:Hsize; [done|]. to_prop.
  pose proof (mutate_spec (λ _, Ok []) cfg ctxErr sink now token' codexID q c (ReqWrite text rev token cond) _ _ _ _ _ _
    Hmax Hst Hw Hq Hc Hvc Hcl Hroot Hdir H) as (Ho & (i' & Hi' & Hfile & _) & i & Hi & Hd).
  rewrite Hi in Hi'. injection Hi' as <-.
  destruct (mutate_service _ _ _ _ _ _ _ _ _ _ _ Hst Hw H) as
    (w' & rs' & Hst' & Hw' & Hrem & Hroot' & Hrs & Hrs' & (j & Hj & Hjd) & w1 & fs1 & fs2 & be & _ & _ & Hstage).
  assert (rs' = rs) as -> by (unfold root_of in *; congruence).
  apply write_stage_inv in Hstage as (Hcan & _ & _).
  assert (∀ k j, k `prefix_of` rs ++ q → fs_tree (wst_fs st) !! k = Some j →
    ∃ j', fs_tree (wst_fs st') !! k = Some j' ∧ in_node j' = in_node j) as Habove.
  { intros k j0 Hk Hj0. specialize (Ho k (or_intror Hk) (not_below_child _ _ _ Hk)). symmetry in Ho.
    destruct (elook_node _ _ _ _ j0 Ho Hj0) as (j' & ? & ? & _). eauto. }
  assert (real_dir (fs_tree (wst_fs st')) (rs ++ q)) as Hdir'.
  { intros k Hk Hne. destruct (Hdir k Hk Hne) as (j0 & Hj0 & Hd0). destruct (Habove k j0 Hk Hj0) as (j' & ? & E). exists j'. by rewrite E. }
  destruct (Habove rs j) as (j' & Hj' & Ej); [by exists q|done|].
  destruct (read_handler_yields codexID (read_body cfg (join_slash (q ++ [c]))) st' p w' rs
    (Ok (stableTextEntry (join_slash (q ++ [c])) i text, text))) as (st'' & Hread & Ht); try done.
  - apply (canonicalRoot_yields rs q); try done. exists j'. by rewrite Ej.
  - unfold read_body. eapply yields_bind; [by eapply (resolve_yields rs q c)|].
    by apply (read_attempts_yields cfg rs q c _ i text).
  - eexists st'', _. split_and!; [exact Hread| |done]. destruct Hd as (_ & _ & -> & _).
    unfold fi_IsRegular. by rewrite Hfile.
Qed.

(** ** Conditional writes *)

(** Which targets a write condition with an expected revision admits. *)
Definition admissible (cond : WorkspaceWriteCondition) (expected : string) (target : option inode) : Prop :=
  match cond, target with
  | CREATE_ONLY, None => expected = ""
  | UPSERT, None => expected = ""
  | REPLACE_ONLY, Some i | UPSERT, Some i => fi_IsRegular i = true ∧ expected ≠ "" ∧ metadataRevision i = expected
  | _, _ => False
  end.

Lemma validateMutationTarget_sound P c cond rev t0 :
  Forall normal P → normal c → real_dir t0 P →
  triple (λ t, t = t0) (validateMutationTarget (apath (P ++ [c])) cond rev ENTRY_KIND_REGULAR_FILE) (λ r t,
    match r with Ok _ => admissible cond rev (t0 !! (P ++ [c])) | Err _ => True end).
Proof.
  intros HP Hc Hd. unfold validateMutationTarget.
  fs_try (λ (r : res inode) (_ : tree), match r with Ok i => t0 !! (P ++ [c]) = Some i | Err e => errorsIs e ErrNotExist = true → t0 !! (P ++ [c]) = None end).
  { eapply triple_post; [apply (Lstat_in P HP (λ t, t = t0)); [by intros t ->|done]|]. by intros [i|e] t [-> H]. }
  destruct a as [i|e].
  - apply triple_fix. intros t1 Hi. rewrite Hi.
    fs_bind (λ (_ : res unit) (_ : tree), True); [by apply triple_ret| |done].
    fs_bind (λ (r : res unit) (_ : tree), match r with Ok _ => match cond with REPLACE_ONLY | UPSERT => rev ≠ "" | _ => False end | Err _ => True end); [| |done].
    { destruct cond; simpl; [by apply triple_throw| | |]; destruct (str_empty rev) eqn:E; simpl;
        (by apply triple_throw) || (apply triple_ret; intros _ _ ->; vm_compute in E; discriminate E). }
    apply (triple_pure (match cond with REPLACE_ONLY | UPSERT => rev ≠ "" | _ => False end)); [done|]. intros Hrev.
    assert (str_empty rev = false) as -> by (destruct cond; try done; by apply bool_decide_eq_false).
    unfold fi_IsDir, fi_IsRegular. destruct (in_node i) eqn:En; simpl; try by apply triple_throw.
    case_bool_decide as Em; [by apply triple_throw|].
    apply triple_ret. intros _ _. destruct cond; try done; simpl; unfold fi_IsRegular; by rewrite En.
  - fs_bind (λ (r : res unit) (_ : tree), match r with Ok _ => t0 !! (P ++ [c]) = None | Err _ => True end); [| |done].
    { destruct (errorsIs e ErrNotExist); simpl; [apply triple_ret; auto|by apply triple_throw]. }
    apply triple_fix. intros t1 Hn. rewrite Hn.
    fs_bind (λ (r : res unit) (_ : tree), match r with Ok _ => admissible cond rev None | Err _ => True end); [| |done].
    { destruct cond; simpl; [by apply triple_throw| | |]; destruct (str_empty rev) eqn:E; simpl;
        (by apply triple_throw) || (apply triple_ret; intros _ _; by apply str_empty_spec in E). }
    by apply triple_ret.
Qed.

Lemma validateMutationState_ok w token : validateMutationState w token = Ok tt →
  was_ActiveAgentCount (ws_state w) = 0%Z ∧ was_MutationStatus (ws_state w) = ALLOWED ∧
  token ≠ "" ∧ token = was_QuiescenceToken (ws_state w).
Proof.
  unfold validateMutationState. destruct (_ || _) eqn:E; [done|]. intros _. to_prop.
  split_and!; try (by apply dec_stable). by intros ->.
Qed.

(** Guarded writes.  [WriteText] succeeds only with the current quiescence token while
    no agent is active, with valid text within the limit, and only on a target that the
    write condition admits: absent for CREATE_ONLY and an UPSERT without revision, a
    regular file whose current revision is the expected one for REPLACE_ONLY and an UPSERT
    with one.  A concurrent change of the file is therefore never overwritten unseen. *)
Theorem write_guarded cfg ctxErr sink now token' codexID q c text rev token cond st st' entry p w rs :
  sv_states (wst_sv st) !! codexID = Some p → sv_heap (wst_sv st) !! p = Some w →
  Forall normal q → normal c → root_of (fs_tree (wst_fs st)) w rs → real_dir (fs_tree (wst_fs st)) (rs ++ q) →
  WriteText cfg ctxErr sink now token' codexID (join_slash (q ++ [c])) text rev token cond st = Some (st', Ok entry) →
  admissible cond rev (fs_tree (wst_fs st) !! ((rs ++ q) ++ [c])) ∧
  was_ActiveAgentCount (ws_state w) = 0%Z ∧ was_MutationStatus (ws_state w) = ALLOWED ∧
  token ≠ "" ∧ token = was_QuiescenceToken (ws_state w) ∧
  ValidString text = true ∧ (slen text ≤ MaxTextFileBytes cfg)%Z.
Proof.
  intros Hst Hw Hq Hc Hroot Hdir H. unfold WriteText in H.
  destruct (ValidString text) eqn:Hutf8; [|done]. simpl in H. destruct (_ <? _)%Z eqn:Hsize; [done|]. to_prop.
  destruct (mutate_service _ _ _ _ _ _ _ _ _ _ _ Hst Hw H) as
    (w' & rs' & _ & _ & _ & _ & Hrs & Hrs' & _ & w1 & fs1 & fs2 & be & Ht1 & Hws & Hstage).
  assert (rs' = rs) as -> by (unfold root_of in *; congruence).
  apply write_stage_inv in Hstage as (_ & Hval & s1 & s2 & Hs1 & Hv). rewrite Ht1 in Hs1.
  rewrite target_path in Hv by done. apply validateMutationState_ok in Hval. rewrite Hws in Hval.
  split_and!; try tauto.
  by apply (validateMutationTarget_sound (rs ++ q) c cond rev (fs_tree (wst_fs st))) in Hv; [|by apply Forall_app|..].
Qed.

(** ** Revisions identify a file *)

Definition nul_free (s : string) : Prop := "000"%char ∉ chars s.

Lemma nul_split a b x y : nul_free a → nul_free b → a +:+ nul +:+ x = b +:+ nul +:+ y → a = b ∧ x = y.
Proof.
  unfold nul_free. intros Ha Hb E. apply (f_equal chars) in E. rewrite !chars_app in E. simpl in E.
  enough (chars a = chars b ∧ chars x = chars y) as [E1 E2] by (split; by apply (inj chars)).
  revert E Ha Hb. generalize (chars a) as la, (chars b) as lb, (chars x) as lx, (chars y) as ly.
  induction la as [|u la IH]; intros [|v lb] lx ly E Ha Hb; simpl in E.
  - by injection E.
  - injection E as <- _. set_solver.
  - injection E as -> _. set_solver.
  - injection E as <- E. apply not_elem_of_cons in Ha as [_ Ha]. apply not_elem_of_cons in Hb as [_ Hb].
    destruct (IH lb lx ly E Ha Hb) as [-> ->]. done.
Qed.

Lemma pretty_N_nul_free (x : N) : nul_free (pretty x).
Proof.
  assert (∀ s, nul_free s → nul_free (pretty_N_go x s)) as Hgo.
  { induction (N.lt_wf_0 x) as [x _ IH]; intros s Hs. assert (x = 0 ∨ 0 < x)%N as [-> | Hx] by lia; [by rewrite pretty_N_go_0|].
    rewrite pretty_N_go_step by done. apply IH; [by apply N.div_lt|].
    unfold nul_free. simpl. apply not_elem_of_cons. split; [|done]. unfold pretty_N_char. by repeat case_match. }
  unfold pretty, pretty_N. case_decide; [|apply Hgo; apply not_elem_of_nil]. unfold nul_free. simpl. set_solver.
Qed.

Lemma pretty_Z_nul_free (x : Z) : nul_free (pretty x).
Proof.
  unfold pretty, pretty_Z. destruct x; try apply pretty_N_nul_free.
  - unfold nul_free. simpl. set_solver.
  - unfold nul_free. rewrite chars_app. apply not_elem_of_app. split; [simpl; set_solver|apply pretty_N_nul_free].
Qed.

Lemma decimal_split (a b : Z) x y : pretty a +:+ nul +:+ x = pretty b +:+ nul +:+ y → a = b ∧ x = y.
Proof.
  intros E. apply nul_split in E as [E1 E2]; [|apply pretty_Z_nul_free..]. split; [by apply (inj pretty)|done].
Qed.

Lemma hex_digit_inj m n : (0 ≤ m < 16)%Z → (0 ≤ n < 16)%Z → hex_digit m = hex_digit n → m = n.
Proof.
  intros Hm Hn E. assert (N_of_ascii (hex_digit m) = N_of_ascii (hex_digit n)) as En by by rewrite E. revert En.
  unfold hex_digit. destruct (m <? 10)%Z eqn:E1, (n <? 10)%Z eqn:E2; to_prop; rewrite !N_ascii_embedding by lia; lia.
Qed.

#[export] Instance EncodeToString_inj : Inj (=) (=) EncodeToString.
Proof.
  intros s t E. apply (f_equal chars) in E. unfold EncodeToString in E. rewrite !chars_of_chars in E.
  apply (inj chars). revert E. generalize (chars s) as l, (chars t) as k.
  induction l as [|x l IH]; intros [|y k]; simpl; [done|done|done|]. intros [= E1 E2 E3].
  pose proof (bval_range x). pose proof (bval_range y).
  apply hex_digit_inj in E1; [|split; [apply Z.div_pos; lia|apply Z.div_lt_upper_bound; lia]..].
  apply hex_digit_inj in E2; [|by apply Z.mod_pos_bound..].
  assert (bval x = bval y) as Eb by (rewrite (Z.div_mod (bval x) 16), (Z.div_mod (bval y) 16) by lia; lia).
  f_equal; [|by apply IH]. unfold bval in Eb. rewrite <- (ascii_N_embedding x), <- (ascii_N_embedding y). f_equal. lia.
Qed.

(** What a revision is a digest of. *)
Definition identity (i : inode) : Z * Z * Z * Z * Z * Z :=
  (fi_Mode i, fi_Size i, in_mtime i, in_dev i, in_ino i, in_ctime i).

Lemma hashIdentity_inj i j : hashIdentity i = hashIdentity j → identity i = identity j.
Proof.
  unfold hashIdentity, identity. intros E.
  apply decimal_split in E as [-> E]. apply decimal_split in E as [-> E]. apply decimal_split in E as [-> E].
  apply decimal_split in E as [_ E]. apply decimal_split in E as [-> E]. apply decimal_split in E as [-> E].
  apply decimal_split in E as [E1 E]. assert (pretty (in_ctime i mod 1000000000)%Z = pretty (in_ctime j mod 1000000000)%Z) as E2.
  { apply (nul_split _ _ "" ""); [apply pretty_Z_nul_free..|exact E]. }
  apply (inj pretty) in E2. rewrite (Z.div_mod (in_ctime i) 1000000000), (Z.div_mod (in_ctime j) 1000000000) by lia.
  congruence.
Qed.

(** Two files with the same revision are the same version of the same file (mode, size,
    modification time, device, inode and change time all agree), or the two hashed
    identities are a collision of SHA-256. *)
Theorem revision_identifies i j :
  fi_IsRegular i = true → fi_IsRegular j = true → metadataRevision i = metadataRevision j →
  identity i = identity j ∨
  (hashIdentity i ≠ hashIdentity j ∧ Sum256 ("file" +:+ nul +:+ hashIdentity i) = Sum256 ("file" +:+ nul +:+ hashIdentity j)).
Proof.
  intros Hi Hj E. unfold metadataRevision in E. rewrite Hi, Hj in E. apply (inj (String.append "sha256:")) in E.
  apply (inj EncodeToString) in E. destruct (decide (hashIdentity i = hashIdentity j)) as [Eh|]; [left|by right].
  by apply hashIdentity_inj.
Qed.
