(* ===== verification/WorkspaceExamples.v ===== *)
(** * Workspace: concrete runs

    A workspace on a small disk: the witnesses of the workspace theorems, and two runs
    that show behaviour the handlers do not intend. *)

From Stdlib Require Import Ascii String.
From stdpp Require Import base tactics numbers list sorting gmap strings pretty.
From S2P Require Import Prelude GoError GoStrings Sha256 GoPath FileSystem FileCalls Remote Workspace WorkspaceFiles WorkspaceStaging WorkspaceService WorkspaceTheorems.
Local Open Scope string_scope.
Local Open Scope nat_scope.
Local Open Scope list_scope.

Module WorkspaceDemo.

Definition dir : inode := mkInode NDir 493 0 0 1 0.
Definition file (content : string) (ino : Z) : inode := mkInode (NFile content) 420 0 0 ino 0.

(** [/w/a.txt] holds "old"; [/w/out] links to [/etc]. *)
Definition disk : tree :=
  list_to_map [([], dir); (["w"], dir); (["w"; "a.txt"], file "old" 2);
               (["w"; "out"], mkInode (NLink "/etc") 511 0 0 3 0); (["etc"], dir)].
Definition fs : FS := mkFS disk [] ((λ n, Some (String (ascii_of_nat n) "")) <$> seq 1 20) 100.
Definition service : Service := register_new "c" "/w" "/w" (registered_state None 1 "t1") (mkService ∅ ∅ 0 0).
Definition st : WState := mkWState service fs.
Definition ws : workspaceState := mkWs "/w" "/w" (registered_state None 1 "t1") ∅ None false.
Definition cfg : Config := New_config (mkConfig 0 0 0 0 0).
Definition no_zip (_ : string) : res (list zip_item) := Err (ErrText "zip: not a valid zip file").

Lemma disk_closed : closed disk.
Proof. apply closed_check_sound. vm_compute. reflexivity. Qed.

Lemma w_real : real_dir disk ["w"].
Proof. apply real_dir_check_sound; vm_compute; reflexivity. Qed.

Lemma w_normal : normal "w".
Proof. apply (bool_decide_unpack _). vm_compute. done. Qed.

Lemma a_normal : normal "a.txt".
Proof. apply (bool_decide_unpack _). vm_compute. done. Qed.

Lemma a_visible : ¬ host_name "a.txt".
Proof. intros H. vm_compute in H. discriminate H. Qed.

Lemma root_w : root_of disk ws ["w"].
Proof. vm_compute. reflexivity. Qed.

Lemma state_c : sv_states service !! "c" = Some 0.
Proof. vm_compute. reflexivity. Qed.

Lemma heap_c : sv_heap service !! 0 = Some ws.
Proof. vm_compute. reflexivity. Qed.

(** A link that leads out of the workspace is refused; a file inside resolves. *)
Definition resolved : FS * res string := resolve "/w" "a.txt" false true fs.

Lemma resolve_confined_witness :
  resolved.2 = Ok (apath ["w"; "a.txt"]) ∧ confined disk ["w"] (apath ["w"; "a.txt"]) ∧
  (resolve "/w" "out/passwd" false false fs).2 = workspaceErr ERROR_CODE_WORKSPACE_PATH_OUTSIDE_ROOT "workspace path resolves outside root".
Proof.
  assert (resolve (apath ["w"]) "a.txt" false true fs = (resolved.1, Ok (apath ["w"; "a.txt"]))) as H by (vm_compute; reflexivity).
  assert (Forall normal ["w"]) as Hn by (constructor; [exact w_normal|constructor]).
  split; [vm_compute; reflexivity|]. split; [|vm_compute; reflexivity].
  exact (proj1 (proj2 (resolve_confined ["w"] "a.txt" false true fs _ _ Hn H))).
Defined.

(** A conditional write, published. *)
Definition rev_a : string := Eval vm_compute in metadataRevision (file "old" 2).
Definition run : option (WState * res WorkspaceEntry) :=
  WriteText cfg None None 2 "t2" "c" "a.txt" "new" rev_a "t1" REPLACE_ONLY st.
Definition run_st : WState := from_option fst st run.
Definition run_entry : option WorkspaceEntry := match run with Some (_, Ok e) => Some e | _ => None end.
Definition entry : WorkspaceEntry := default (mkWorkspaceEntry "" "" ENTRY_KIND_OTHER 0 0 "" false false) run_entry.

Lemma run_ok : WriteText cfg None None 2 "t2" "c" (join_slash ([] ++ ["a.txt"])) "new" rev_a "t1" REPLACE_ONLY st = Some (run_st, Ok entry).
Proof. vm_compute. reflexivity. Qed.

(** The same write when its publication is refused. *)
Definition refusing : sink_fn := Some (λ _ _, Err (ErrText "refused")).
Definition undone_run : option (WState * res WorkspaceEntry) :=
  WriteText cfg None refusing 2 "t2" "c" "a.txt" "new" rev_a "t1" REPLACE_ONLY st.
Definition undone_st : WState := from_option fst st undone_run.

Lemma undone_ok : WriteText cfg None refusing 2 "t2" "c" (join_slash ([] ++ ["a.txt"])) "new" rev_a "t1" REPLACE_ONLY st = Some (undone_st, Err (ErrText "refused")).
Proof. vm_compute. reflexivity. Qed.

Lemma mutation_all_or_nothing_witness :
  (is_file ["w"] "a.txt" "new" (fs_tree (wst_fs run_st)) ∧ outside ["w"] "a.txt" disk (fs_tree (wst_fs run_st))) ∧
  same_visible disk (fs_tree (wst_fs undone_st)).
Proof.
  assert (0 ≤ MaxArchiveExpandedBytes cfg)%Z as H0 by (vm_compute; discriminate).
  pose proof (mutation_all_or_nothing no_zip cfg None None 2 "t2" "c" [] "a.txt" (ReqWrite "new" rev_a "t1" REPLACE_ONLY)
    st run_st (Ok entry) 0 ws ["w"] H0 state_c heap_c (Forall_nil_2 _) a_normal a_visible disk_closed root_w w_real run_ok) as H.
  split; [exact (conj (proj1 (proj2 H)) (proj1 H))|].
  destruct (mutation_all_or_nothing no_zip cfg None refusing 2 "t2" "c" [] "a.txt" (ReqWrite "new" rev_a "t1" REPLACE_ONLY)
    st undone_st (Err (ErrText "refused")) 0 ws ["w"] H0 state_c heap_c (Forall_nil_2 _) a_normal a_visible disk_closed root_w w_real undone_ok)
    as [[Hs|(h & cause & used & x & n & He & _)]|(_ & Hu & _)]; [exact Hs|discriminate He|discriminate Hu].
Defined.

Lemma write_read_roundtrip_witness :
  ∃ st'' entry', ReadText cfg "c" "a.txt" run_st = (st'', Ok (entry', "new")) ∧ we_Revision entry' = we_Revision entry ∧
    fs_tree (wst_fs st'') = fs_tree (wst_fs run_st).
Proof.
  assert (0 ≤ MaxArchiveExpandedBytes cfg)%Z as H0 by (vm_compute; discriminate).
  assert (fs_faults (wst_fs run_st) = []) as Hf by (vm_compute; reflexivity).
  exact (write_read_roundtrip cfg None None 2 "t2" "c" [] "a.txt" "new" rev_a "t1" REPLACE_ONLY st run_st entry 0 ws ["w"]
    H0 state_c heap_c (Forall_nil_2 _) a_normal a_visible disk_closed root_w w_real run_ok Hf).
Defined.

Lemma write_guarded_witness : admissible REPLACE_ONLY rev_a (disk !! ["w"; "a.txt"]).
Proof.
  exact (proj1 (write_guarded cfg None None 2 "t2" "c" [] "a.txt" "new" rev_a "t1" REPLACE_ONLY st run_st entry 0 ws ["w"]
    state_c heap_c (Forall_nil_2 _) a_normal root_w w_real run_ok)).
Defined.

(** The content is not part of a revision: two versions with the same metadata. *)
Lemma revision_identifies_witness :
  identity (file "old" 2) = identity (file "new" 2) ∨
  (hashIdentity (file "old" 2) ≠ hashIdentity (file "new" 2) ∧
   Sum256 ("file" +:+ nul +:+ hashIdentity (file "old" 2)) = Sum256 ("file" +:+ nul +:+ hashIdentity (file "new" 2))).
Proof.
  exact (revision_identifies (file "old" 2) (file "new" 2) eq_refl eq_refl eq_refl).
Defined.

(** ** A rollback that undoes somebody else's upload *)

Definition refused : res unit := Err (ErrText "refused").

(** The first writer up to the refused publication. *)
Definition first : FS * res (targetBackup * WorkspaceEntry) :=
  write_stage cfg "a.txt" "one" rev_a "t1" REPLACE_ONLY ws "/w" fs.
Definition first_backup : targetBackup := match first.2 with Ok (b, _) => b | Err _ => mkBackup "" "" false end.
Definition first_flight : workspaceState * flight := begin_mutation 2 "t2" 0 ws.
Definition first_done : workspaceState := finish_transition refused first_flight.2 first_flight.1.

(** The upload of "two", with the token that is current again. *)
Definition second : option (WState * res WorkspaceEntry) :=
  Upload no_zip cfg None None 3 "t3" "c" "a.txt" UPLOAD_KIND_REGULAR_FILE "two" "t1" (mkWState (put_ws 0 first_done service) first.1).

(** The first writer's rollback comes last. *)
Definition third : option (FS * res WorkspaceEntry) :=
  match second with
  | Some (s, Ok _) => Some (finish_files refused first_backup entry (wst_fs s))
  | _ => None
  end.

Definition content_of (t : tree) (k : list string) : option string :=
  match t !! k with Some i => match in_node i with NFile c => Some c | _ => None end | None => None end.

(** When the first writer's publication fails, its access state is restored and the
    waiting mutations are released before its files are rolled back.  In this run an upload
    of "two" in between succeeds with the restored token, and the late rollback then
    replaces it by the content from before both. *)
Example late_rollback_loses_upload :
  match second with Some (s, Ok _) => content_of (fs_tree (wst_fs s)) ["w"; "a.txt"] = Some "two" | _ => False end ∧
  match third with Some (f, _) => content_of (fs_tree f) ["w"; "a.txt"] = Some "old" | None => False end.
Proof. vm_compute. split; reflexivity. Qed.

(** ** An archive larger than the limit *)

Definition bomb : list zip_item :=
  [mkZipItem "a" false true false 1 (Ok ("x", None));
   mkZipItem "b" false true false (u64_modulus - 1) (Ok ("xxxxxxxxxxxx", None))].

Definition tiny : Config := mkConfig 10 100 100 10 10.
Definition exploded : option (WState * res WorkspaceEntry) :=
  Upload (λ _, Ok bomb) tiny None None 2 "t2" "c" "d" UPLOAD_KIND_ZIP_DIRECTORY "zip" "t1" st.

(** The declared sizes of an archive are added without an overflow check: a size just
    below 2^64 brings the sum back to zero.  This archive declares, and unpacks to, more
    than the configured limit of 10 bytes, and its upload succeeds. *)
Example archive_limit_overflow :
  (MaxArchiveExpandedBytes tiny < declared_size bomb)%Z ∧
  match exploded with
  | Some (s, Ok _) => content_of (fs_tree (wst_fs s)) ["w"; "d"; "a"] = Some "x" ∧
      content_of (fs_tree (wst_fs s)) ["w"; "d"; "b"] = Some "xxxxxxxxxxx"
  | _ => False
  end.
Proof. vm_compute. split; [reflexivity|split; reflexivity]. Qed.

End WorkspaceDemo.
