(* ===== verification/Budget.v ===== *)
(** * Frame budgets (internal/codex/budget.go and the bounding half of manager.go)

    Views, events, turns and history pages are cut to fit a C/S frame.  Sizes are those
    of ProtoJSON, the interface [ProtoJSON]; a function of the code that changes its
    argument in place returns the changed value here. *)

From Stdlib Require Import Ascii String.
From stdpp Require Import base tactics numbers list gmap strings.
From S2P Require Import Prelude GoError GoStrings Remote.
Local Open Scope string_scope.
Local Open Scope Z_scope.

(** ** Strings *)

(** The longest valid prefix among those of at most [n] bytes. *)
Fixpoint valid_prefix (value : string) (n : nat) : string :=
  match n with
  | O => ""
  | S n' => if ValidString (str_take n value) then str_take n value else valid_prefix value n'
  end.

Definition validUTF8Prefix (value : string) (budget : Z) : string :=
  if slen value <=? budget then value
  else if budget <=? 0 then ""
  else valid_prefix value (Z.to_nat budget).

Definition boundString (value : string) (budget : Z) : string * option Completeness :=
  let budget := if budget <=? 0 then 1 else budget in
  if slen value <=? budget then (value, None)
  else (validUTF8Prefix value budget,
        Some (mkCompleteness true true (u64 (slen value)) "content exceeds C/S frame budget")).

(** [value, _ = boundString(value, budget)]. *)
Definition bounded (budget : Z) (value : string) : string := (boundString value budget).1.

(** ** Completeness *)

Definition mergeCompleteness (dst src : option Completeness) : option Completeness :=
  match src, dst with
  | None, _ => dst
  | Some s, None => Some s
  | Some s, Some d =>
      Some (mkCompleteness (comp_Truncated d || comp_Truncated s) (comp_Incomplete d || comp_Incomplete s)
        (if comp_OriginalSizeBytes d <? comp_OriginalSizeBytes s then comp_OriginalSizeBytes s else comp_OriginalSizeBytes d)
        (if str_empty (comp_Reason d) then comp_Reason s else comp_Reason d))
  end.

Definition budgetCompleteness (original : Z) (reason : string) : Completeness :=
  mkCompleteness true true (u64 original) reason.

(** [x.Completeness.Reason = reason]. *)
Definition with_reason (reason : string) (c : option Completeness) : option Completeness :=
  set_comp_Reason reason <$> c.

(** ** The largest fitting prefix *)

(** The binary search; [fuel] bounds its rounds, and [high - low] is enough since every
    round makes the interval smaller. *)
Fixpoint prefix_search {A} (fuel : nat) (values : list A) (fits : list A → bool) (low high : nat) : nat :=
  match fuel with
  | O => low
  | S fuel =>
      if (low <? high)%nat then
        let mid := (low + (high - low + 1) / 2)%nat in
        if fits (take mid values) then prefix_search fuel values fits mid high
        else prefix_search fuel values fits low (mid - 1)
      else low
  end.

Definition boundedProtoPrefix {A} (values : list A) (minimum : nat) (fits : list A → bool) : list A :=
  if (match values with [] => true | _ => false end) || fits values then values
  else
    let minimum := Nat.min minimum (length values) in
    if negb (fits (take minimum values)) then take minimum values
    else take (prefix_search (length values - minimum) values fits minimum (length values)) values.

Section Budget.
Context `{PJ : ProtoJSON}.

Definition protoJSONSize (m : message) : Z :=
  match Marshal m with Ok raw => slen raw | Err _ => 0 end.

(** [m.ContentBudget] of the manager. *)
Context (ContentBudget : Z).

Definition contentBudget : Z := if ContentBudget <=? 0 then Z.shiftl 256 10 else ContentBudget.

Definition collectionBudget : Z :=
  let budget := contentBudget * 2 in
  Z.max (budget - Z.max (Z.min (budget / 8) 1024) 128) 1.

Definition eventPayloadBudget : Z := collectionBudget.

(** ** Items *)

Definition bound_part (perField : Z) (p : UserMessagePart) : UserMessagePart :=
  match p with PartText text => PartText (bounded perField text) | _ => p end.

Definition bound_step (perField : Z) (st : PlanStep) : PlanStep :=
  mkPlanStep (bounded perField (step_Text st)) (bounded (Z.max (perField / 2) 1) (step_Status st)).

Definition bound_change (perField : Z) (ch : FileChange) : FileChange :=
  mkFileChange (bounded perField (fc_Path ch)) (bounded perField (fc_OldPath ch)) (bounded perField (fc_NewPath ch)) (fc_Kind ch).

(** The fields of the content, then its collection. *)
Definition bound_content (item : Item) (budget : Z) (content : ItemContent) : ItemContent :=
  let perField := Z.max (budget / 8) 1 in
  let fits (c : ItemContent) := protoJSONSize (MsgItem (set_item_Content (Some c) item)) <=? budget in
  match content with
  | Item_UserMessage parts =>
      Item_UserMessage (boundedProtoPrefix (bound_part perField <$> parts) 1 (λ values, fits (Item_UserMessage values)))
  | Item_AgentMessage text => Item_AgentMessage (bounded perField text)
  | Item_ReasoningSummary text => Item_ReasoningSummary (bounded perField text)
  | Item_Plan steps =>
      Item_Plan (boundedProtoPrefix (bound_step perField <$> steps) 1 (λ values, fits (Item_Plan values)))
  | Item_Command cmd =>
      let cmd := mkCommandItem (bounded perField <$> cmd_Argv cmd) (bounded perField (cmd_Cwd cmd))
                   (bounded perField (cmd_Output cmd)) (cmd_ExitCode cmd) (cmd_HasExitCode cmd) in
      Item_Command (set_cmd_Argv (boundedProtoPrefix (cmd_Argv cmd) 1 (λ values, fits (Item_Command (set_cmd_Argv values cmd)))) cmd)
  | Item_Tool t =>
      Item_Tool (mkToolItem (bounded perField (tool_ToolName t)) (bounded perField (tool_Summary t)) (bounded perField (tool_ResultSummary t)))
  | Item_FileChange f =>
      let f := mkFileChangeItem (bounded perField (fci_UnifiedDiff f)) (bound_change perField <$> fci_Changes f) in
      Item_FileChange (set_fci_Changes (boundedProtoPrefix (fci_Changes f) 1 (λ values, fits (Item_FileChange (set_fci_Changes values f)))) f)
  end.

Definition boundItem (item : Item) (budget : Z) : Item * option Completeness :=
  if protoJSONSize (MsgItem item) <=? budget then (item, None)
  else
    let complete := budgetCompleteness (protoJSONSize (MsgItem item)) "item fields or collection exceed C/S frame budget" in
    let item := set_item_Completeness (mergeCompleteness (item_Completeness item) (Some complete)) item in
    (set_item_Content (bound_content item budget <$> item_Content item) item, Some complete).

(** ** Pending requests *)

(** [validUTF8Prefix(s, min(len(s), 1))]. *)
Definition one_byte (s : string) : string := validUTF8Prefix s (Z.min (slen s) 1).

Definition shrink_head (l : list string) : list string :=
  match l with [] => [] | x :: l => one_byte x :: l end.

Definition bound_approval (a : Approval) (budget : Z) : Approval :=
  let perField := Z.max (budget / 16) 1 in
  let a := set_apr_Title (bounded perField (apr_Title a)) a in
  let a := set_apr_Explanation (bounded perField (apr_Explanation a)) a in
  let a := set_apr_Command (bounded perField <$> apr_Command a) a in
  let a := set_apr_Command (boundedProtoPrefix (apr_Command a) 1
             (λ values, protoJSONSize (MsgPending (Pending_Approval (set_apr_Command values a))) <=? budget)) a in
  if budget <? protoJSONSize (MsgPending (Pending_Approval a)) then
    set_apr_Command (shrink_head (apr_Command a))
      (set_apr_Explanation (one_byte (apr_Explanation a)) (set_apr_Title (one_byte (apr_Title a)) a))
  else a.

Definition bound_question (perField : Z) (q : UserInputQuestion) : UserInputQuestion :=
  set_qst_Options ((λ o, set_opt_Description (bounded perField (opt_Description o)) (set_opt_Label (bounded perField (opt_Label o)) o)) <$> qst_Options q)
    (set_qst_Prompt (bounded perField (qst_Prompt q)) (set_qst_Header (bounded perField (qst_Header q)) q)).

(** Header, prompt and descriptions are dropped. *)
Definition bare_question (q : UserInputQuestion) : UserInputQuestion :=
  set_qst_Options (set_opt_Description "" <$> qst_Options q) (set_qst_Prompt "" (set_qst_Header "" q)).

Definition bound_input (u : UserInputRequestState) (budget : Z) (complete : Completeness) : UserInputRequestState :=
  let perField := Z.max (budget / 16) 1 in
  let u := set_uir_Completeness (mergeCompleteness (uir_Completeness u) (Some complete)) u in
  let u := set_uir_Questions (bound_question perField <$> uir_Questions u) u in
  let u := set_uir_ResolvedAnswers ((λ a, set_ans_FreeFormText (bounded perField (ans_FreeFormText a)) a) <$> uir_ResolvedAnswers u) u in
  let u := if budget <? protoJSONSize (MsgPending (Pending_UserInput u))
           then set_uir_Questions (bare_question <$> uir_Questions u) u else u in
  if budget <? protoJSONSize (MsgPending (Pending_UserInput u))
  then set_uir_Completeness (with_reason "frame budget" (uir_Completeness u)) u else u.

Definition boundPendingRequest (pending : PendingRequest) (budget : Z) : PendingRequest * option Completeness :=
  if protoJSONSize (MsgPending pending) <=? budget then (pending, None)
  else
    let complete := budgetCompleteness (protoJSONSize (MsgPending pending)) "pending request presentation fields exceed C/S frame budget" in
    match pending with
    | Pending_Approval a => (Pending_Approval (bound_approval a budget), Some complete)
    | Pending_UserInput u => (Pending_UserInput (bound_input u budget complete), Some complete)
    | Pending_None => (pending, Some complete)
    end.

(** ** Warnings, failures and the Codex *)

Definition boundWarning (w : Warning) (budget : Z) : Warning * option Completeness :=
  if protoJSONSize (MsgWarning w) <=? budget then (w, None)
  else
    let original := protoJSONSize (MsgWarning w) in
    let w := set_warn_Message (bounded (Z.max (budget / 3) 1) (warn_Message w)) w in
    let w := set_warn_Metadata (bounded (Z.max (budget / 8) 1) <$> warn_Metadata w) w in
    let w := if budget <? protoJSONSize (MsgWarning w) then set_warn_Metadata ∅ w else w in
    (w, Some (budgetCompleteness original "warning exceeds C/S frame budget")).

Definition boundError (failure : option Error) (budget : Z) : option Error * option Completeness :=
  match failure with
  | None => (None, None)
  | Some f =>
      if protoJSONSize (MsgError f) <=? budget then (Some f, None)
      else
        (Some (mkError (err_Code f) (bounded (Z.max (budget / 3) 1) (err_Message f)) (err_Retryable f)
                 (bounded (Z.max (budget / 8) 1) <$> err_Metadata f)),
         Some (budgetCompleteness (protoJSONSize (MsgError f)) "turn failure exceeds C/S frame budget"))
  end.

Definition boundCodex (c : Codex) (budget : Z) : Codex * option Completeness :=
  if protoJSONSize (MsgCodex c) <=? budget then (c, None)
  else
    let original := protoJSONSize (MsgCodex c) in
    let c := set_cdx_Warnings ((λ w, (boundWarning w (Z.max (budget / 4) 1)).1) <$> cdx_Warnings c) c in
    let c := if budget <? protoJSONSize (MsgCodex c) then set_cdx_Warnings [] c else c in
    (set_cdx_Title (bounded (Z.max (budget / 8) 1) (cdx_Title c)) c,
     Some (budgetCompleteness original "codex presentation fields exceed C/S frame budget")).

(** ** Canonical events *)

Definition bound_delta (target : Z) (d : ItemDelta) : ItemDelta * option Completeness :=
  match dl_Delta d with
  | Delta_CommandOutput stream text =>
      let '(text, c) := boundString text (Z.max (target / 2) 1) in
      (set_dl_Delta (Delta_CommandOutput stream text) d, c)
  | Delta_Text text =>
      if str_empty text then (d, None)
      else let '(text, c) := boundString text (Z.max (target / 2) 1) in (set_dl_Delta (Delta_Text text) d, c)
  | Delta_None => (d, None)
  end.

(** The first pass over the payload. *)
Definition bound_payload (target : Z) (p : EventPayload) : EventPayload * option Completeness :=
  match p with
  | Event_ItemStarted item => let '(item, c) := boundItem item target in (Event_ItemStarted item, c)
  | Event_ItemUpdated item => let '(item, c) := boundItem item target in (Event_ItemUpdated item, c)
  | Event_ItemCompleted item => let '(item, c) := boundItem item target in (Event_ItemCompleted item, c)
  | Event_ItemDelta d => let '(d, c) := bound_delta target d in (Event_ItemDelta d, c)
  | Event_PendingRequestUpdated r => let '(r, c) := boundPendingRequest r target in (Event_PendingRequestUpdated r, c)
  | Event_WarningRaised w => let '(w, c) := boundWarning w target in (Event_WarningRaised w, c)
  | Event_TurnUpdated t => let '(f, c) := boundError (tu_Failure t) target in (Event_TurnUpdated (set_tu_Failure f t), c)
  | Event_CodexUpdated codex => let '(codex, c) := boundCodex codex target in (Event_CodexUpdated codex, c)
  | Event_CodexForgotten | Event_WorkspaceAccessStateUpdated _ => (p, None)
  end.

(** The stricter second pass covers fewer payloads. *)
Definition strict_payload (strict : Z) (p : EventPayload) : EventPayload * option Completeness :=
  match p with
  | Event_ItemStarted _ | Event_ItemUpdated _ | Event_ItemCompleted _
  | Event_PendingRequestUpdated _ | Event_WarningRaised _ => bound_payload strict p
  | _ => (p, None)
  end.

(** Apply a pass to the payload of an event. *)
Definition on_payload (f : EventPayload → EventPayload * option Completeness) (e : Event) : Event * option Completeness :=
  match ev_Payload e with
  | None => (e, None)
  | Some p => let '(p, c) := f p in (set_ev_Payload (Some p) e, c)
  end.

Definition boundCanonicalEvent (event : Event) : Event :=
  let budget := eventPayloadBudget in
  if protoJSONSize (MsgEvent event) <=? budget then event
  else
    let original := protoJSONSize (MsgEvent event) in
    let target := Z.max (budget - 512) (budget / 2) in
    let '(event, completeness) := on_payload (bound_payload target) event in
    let '(event, completeness) :=
      if budget <? protoJSONSize (MsgEvent event) then
        let '(event, c) := on_payload (strict_payload (Z.max (budget / 4) 1)) event in
        (event, mergeCompleteness completeness c)
      else (event, completeness) in
    let completeness := mergeCompleteness completeness (Some (budgetCompleteness original "canonical event exceeds C/S frame budget")) in
    let event := set_ev_Completeness (mergeCompleteness (ev_Completeness event) completeness) event in
    if budget <? protoJSONSize (MsgEvent event)
    then set_ev_Completeness (with_reason "frame budget" (ev_Completeness event)) event else event.

(** ** Turns and history *)

Definition boundTurnSnapshot (turn : TurnSnapshot) : TurnSnapshot :=
  let budget := collectionBudget in
  if protoJSONSize (MsgTurn turn) <=? budget then turn
  else
    let original := protoJSONSize (MsgTurn turn) in
    let turn := set_turn_Completeness (mergeCompleteness (turn_Completeness turn)
                  (Some (budgetCompleteness original "turn item collection exceeds C/S frame budget"))) turn in
    let turn := set_turn_Items (boundedProtoPrefix (turn_Items turn) 0
                  (λ values, protoJSONSize (MsgTurn (set_turn_Items values turn)) <=? budget)) turn in
    match turn_Failure turn with
    | Some f =>
        if budget <? protoJSONSize (MsgTurn turn) then
          set_turn_Failure (Some (mkError (err_Code f) (bounded (Z.max (budget / 4) 1) (err_Message f)) (err_Retryable f)
                                    (bounded (Z.max (budget / 8) 1) <$> err_Metadata f))) turn
        else turn
    | None => turn
    end.

Definition boundHistoryPage (history : HistoryPage) : HistoryPage :=
  let budget := collectionBudget in
  if protoJSONSize (MsgHistory history) <=? budget then history
  else
    let original := protoJSONSize (MsgHistory history) in
    let history := set_hp_HistoryComplete false history in
    let history := set_hp_Completeness (mergeCompleteness (hp_Completeness history)
                     (Some (budgetCompleteness original "history collection exceeds C/S frame budget"))) history in
    set_hp_Turns (boundedProtoPrefix (hp_Turns history) 0
      (λ values, protoJSONSize (MsgHistory (set_hp_Turns values history)) <=? budget)) history.

(** ** The current view *)

Definition budget_scope (w : Warning) : string := default "" (warn_Metadata w !! "codex_remote_budget_scope").

Definition addBudgetWarning (scope : string) (view : CurrentView) : CurrentView :=
  match cv_Codex view with
  | None => view
  | Some c =>
      if existsb (λ w, bool_decide (budget_scope w = scope)) (cdx_Warnings c) then view
      else
        set_cv_Codex (Some (set_cdx_Warnings (cdx_Warnings c ++
          [mkWarning WARNING_CODE_UNSPECIFIED "Some fields were truncated to fit the C/S frame budget." 0
             {[ "codex_remote_budget_scope" := scope ]}]) c)) view
  end.

Definition minimizePendingPresentation (pending : PendingRequest) : PendingRequest :=
  match pending with
  | Pending_Approval a =>
      let a := set_apr_Explanation (one_byte (apr_Explanation a)) (set_apr_Title (one_byte (apr_Title a)) a) in
      Pending_Approval (set_apr_Command (shrink_head (take 1 (apr_Command a))) a)
  | Pending_UserInput u => Pending_UserInput (set_uir_Questions (bare_question <$> uir_Questions u) u)
  | Pending_None => Pending_None
  end.

Definition minimize_content (content : ItemContent) : ItemContent :=
  match content with
  | Item_UserMessage parts =>
      Item_UserMessage (match take 1 parts with PartText _ :: l => PartText "" :: l | l => l end)
  | Item_AgentMessage _ => Item_AgentMessage ""
  | Item_ReasoningSummary _ => Item_ReasoningSummary ""
  | Item_Plan steps =>
      Item_Plan (match take 1 steps with st :: l => mkPlanStep "" (step_Status st) :: l | [] => [] end)
  | Item_Command c =>
      Item_Command (mkCommandItem (match take 1 (cmd_Argv c) with _ :: l => "" :: l | [] => [] end) "" "" (cmd_ExitCode c) (cmd_HasExitCode c))
  | Item_Tool t => Item_Tool (mkToolItem (tool_ToolName t) "" "")
  | Item_FileChange f =>
      Item_FileChange (mkFileChangeItem "" (match take 1 (fci_Changes f) with ch :: l => mkFileChange "" "" "" (fc_Kind ch) :: l | [] => [] end))
  end.

Definition minimizeItemPresentation (item : Item) : Item :=
  let item := set_item_Completeness (mergeCompleteness (item_Completeness item) (Some (mkCompleteness true true 0 "frame budget"))) item in
  set_item_Content (minimize_content <$> item_Content item) item.

Definition removeNonBudgetWarnings (c : Codex) : Codex :=
  set_cdx_Warnings (filter (λ w, budget_scope w ≠ "") (cdx_Warnings c)) c.

(** The last budget warning goes. *)
Fixpoint remove_first {A} (p : A → bool) (l : list A) : list A :=
  match l with [] => [] | x :: l => if p x then l else x :: remove_first p l end.

Definition removeBudgetWarning (c : Codex) : Codex :=
  set_cdx_Warnings (rev (remove_first (λ w, bool_decide (budget_scope w ≠ "")) (rev (cdx_Warnings c)))) c.

(** Bound every element, merging what was cut into one marker. *)
Fixpoint bound_each {A} (f : A → A * option Completeness) (l : list A) (acc : option Completeness) : list A * option Completeness :=
  match l with
  | [] => ([], acc)
  | x :: l =>
      let '(x, c) := f x in
      let '(l, acc) := bound_each f l (mergeCompleteness acc c) in
      (x :: l, acc)
  end.

Definition exceeds (budget : Z) (view : CurrentView) : bool := budget <? protoJSONSize (MsgView view).

(** [if protoJSONSize(view) > budget { f(view) }]. *)
Definition if_exceeds (budget : Z) (f : CurrentView → CurrentView) (view : CurrentView) : CurrentView :=
  if exceeds budget view then f view else view.

Definition bound_items (itemBudget : Z) (view : CurrentView) : CurrentView :=
  match cv_ActiveTurn view with
  | None => view
  | Some t =>
      let '(items, c) := bound_each (λ i, boundItem i itemBudget) (turn_Items t) (turn_Completeness t) in
      set_cv_ActiveTurn (Some (set_turn_Completeness c (set_turn_Items items t))) view
  end.

Definition bound_pending (f : PendingRequest → PendingRequest * option Completeness) (view : CurrentView) : CurrentView :=
  let '(pending, c) := bound_each f (cv_PendingRequests view) (cv_Completeness view) in
  set_cv_Completeness c (set_cv_PendingRequests pending view).

Definition on_codex (f : Codex → Codex) (view : CurrentView) : CurrentView := set_cv_Codex (f <$> cv_Codex view) view.

Definition minimize_items (original : Z) (view : CurrentView) : CurrentView :=
  match cv_ActiveTurn view with
  | None => view
  | Some t =>
      set_cv_ActiveTurn (Some (set_turn_Completeness (mergeCompleteness (turn_Completeness t) (Some (budgetCompleteness original "frame budget")))
        (set_turn_Items (minimizeItemPresentation <$> turn_Items t) t))) view
  end.

Definition minimize_pending (pendingBudget : Z) (p : PendingRequest) : PendingRequest * option Completeness :=
  let '(p, c) := boundPendingRequest p pendingBudget in (minimizePendingPresentation p, c).

Definition minimize_view (original pendingBudget : Z) (view : CurrentView) : CurrentView :=
  minimize_items original (bound_pending (minimize_pending pendingBudget) view).

Definition boundCurrentView (view : CurrentView) : CurrentView :=
  let budget := collectionBudget in
  if protoJSONSize (MsgView view) <=? budget then view
  else
    let original := protoJSONSize (MsgView view) in
    let view := set_cv_Completeness (mergeCompleteness (cv_Completeness view)
                  (Some (budgetCompleteness original "current view collection exceeds C/S frame budget"))) view in
    let view := addBudgetWarning "current_view" view in
    let items := match cv_ActiveTurn view with Some t => zlen (turn_Items t) | None => 0 end in
    let itemBudget := Z.max (budget / Z.max (items + zlen (cv_PendingRequests view)) 1 - 256) 1 in
    let view := bound_items itemBudget view in
    let pendingBudget := Z.max (budget / Z.max (zlen (cv_PendingRequests view)) 1 - 256) 1 in
    let view := bound_pending (λ p, boundPendingRequest p pendingBudget) view in
    let view := if_exceeds budget (on_codex removeNonBudgetWarnings) view in
    let view := if_exceeds budget (on_codex (λ c, set_cdx_Title (bounded (Z.max (budget / 8) 1) (cdx_Title c)) c)) view in
    let view := if_exceeds budget (minimize_view original (Z.max (pendingBudget / 2) 1)) view in
    let view := if_exceeds budget (on_codex removeBudgetWarning) view in
    if_exceeds budget (λ view, set_cv_Completeness (with_reason "frame budget" (cv_Completeness view)) view) view.

End Budget.
