(* ===== verification/BudgetTheorems.v ===== *)
(** * Properties of the frame budgets

    Cutting a string keeps it valid UTF-8 and loses at most three bytes more than the
    budget asks for; the collection search is exact; whatever is cut is marked; and no
    amount of cutting removes what a client needs to answer a request or to follow the
    turn. *)

From Stdlib Require Import Ascii String.
From stdpp Require Import base tactics numbers list gmap strings.
From S2P Require Import Prelude GoError GoStrings Remote Budget.
Local Open Scope string_scope.
Local Open Scope Z_scope.
Local Open Scope list_scope.

(** ** Cutting strings *)

Lemma valid_prefix_spec value n :
  ∃ k, (k ≤ n)%nat ∧ valid_prefix value n = str_take k value ∧ ValidString (str_take k value) = true ∧
    ∀ m, (k < m ≤ n)%nat → ValidString (str_take m value) = false.
Proof.
  induction n as [|n (k & Hk & Ek & Hv & Hmax)].
  - exists 0%nat. repeat split; [lia|]. intros m Hm. lia.
  - cbn [valid_prefix]. destruct (ValidString (str_take (S n) value)) eqn:E.
    + exists (S n). repeat split; [lia|done|]. intros m Hm. lia.
    + exists k. repeat split; [lia|done|done|]. intros m Hm.
      destruct (decide (m = S n)) as [->|]; [done|]. apply Hmax. lia.
Qed.

(** A valid text starts with one whole rune of one to four bytes. *)
Lemma valid_utf8_rune (l : list ascii) :
  valid_utf8 l = true → l ≠ [] →
  ∃ rune rest, l = rune ++ rest ∧ (1 ≤ length rune ≤ 4)%nat ∧ valid_utf8 rest = true ∧
    ∀ t, valid_utf8 (rune ++ t) = valid_utf8 t.
Proof.
  destruct l as [|a l1]; [done|]. intros Hv _. simpl in Hv.
  destruct (in_range 0 127 (bval a)) eqn:E1.
  { exists [a], l1. repeat split; simpl; [lia..|done|]. intros t. by rewrite E1. }
  destruct l1 as [|b l2]; [done|]. destruct (in_range 194 223 (bval a)) eqn:E2.
  { apply andb_prop in Hv as [Hb Hv]. exists [a; b], l2. repeat split; simpl; [lia..|done|].
    intros t. by rewrite E1, E2, Hb. }
  destruct l2 as [|c l3]; [done|].
  destruct (bval a =? 224) eqn:E3; [|destruct (in_range 225 236 (bval a)) eqn:E4;
    [|destruct (bval a =? 237) eqn:E5; [|destruct (in_range 238 239 (bval a)) eqn:E6]]].
  1-4: (apply andb_prop in Hv as [[Hb Hc]%andb_prop Hv]; exists [a; b; c], l3;
    repeat split; simpl; [lia..|done|]; intros t; by rewrite E1, E2, ?E3, ?E4, ?E5, ?E6, Hb, Hc).
  destruct l3 as [|d l4]; [done|].
  destruct (bval a =? 240) eqn:E7; [|destruct (in_range 241 243 (bval a)) eqn:E8;
    [|destruct (bval a =? 244) eqn:E9; [|done]]].
  all: apply andb_prop in Hv as [[[Hb Hc]%andb_prop Hd]%andb_prop Hv]; exists [a; b; c; d], l4;
    repeat split; simpl; [lia..|done|]; intros t;
    by rewrite E1, E2, E3, E4, E5, E6, ?E7, ?E8, ?E9, Hb, Hc, Hd.
Qed.

(** Within three bytes below any cut of a valid text there is a valid cut. *)
Lemma valid_utf8_cut_near (len : nat) (l : list ascii) (n : nat) :
  (length l ≤ len)%nat → valid_utf8 l = true →
  ∃ k, (k ≤ n ≤ k + 3)%nat ∧ valid_utf8 (take k l) = true.
Proof.
  revert l n. induction len as [|len IH]; intros l n Hlen Hv.
  { destruct l; [|simpl in Hlen; lia]. exists n. rewrite take_nil. split; [lia|done]. }
  destruct (decide (l = [])) as [->|Hl]; [exists n; rewrite take_nil; split; [lia|done]|].
  destruct (valid_utf8_rune l Hv Hl) as (rune & rest & -> & Hr & Hrest & Ht).
  destruct (decide (n < length rune)%nat) as [Hn|Hn]; [exists 0%nat; split; [lia|done]|].
  rewrite length_app in Hlen. destruct (IH rest (n - length rune)%nat) as (k & Hk & Hvk); [lia|done|].
  exists (length rune + k)%nat. split; [lia|]. by rewrite take_app_add, Ht.
Qed.

(** What [boundString] keeps of a text that is too long: its longest valid prefix within
    the budget, at most three bytes shorter than the budget when the text is valid. *)
Lemma validUTF8Prefix_cut value budget :
  0 < budget < slen value →
  ∃ k, validUTF8Prefix value budget = str_take k value ∧ Z.of_nat k ≤ budget ∧
    ValidString (str_take k value) = true ∧
    (∀ m, (k < m)%nat → Z.of_nat m ≤ budget → ValidString (str_take m value) = false) ∧
    (ValidString value = true → budget - 3 ≤ Z.of_nat k).
Proof.
  intros Hb. unfold validUTF8Prefix.
  replace (slen value <=? budget) with false by lia. replace (budget <=? 0) with false by lia.
  destruct (valid_prefix_spec value (Z.to_nat budget)) as (k & Hk & -> & Hv & Hmax).
  exists k. repeat split; [lia|done| |].
  - intros m Hm1 Hm2. apply Hmax. lia.
  - intros Hval. destruct (valid_utf8_cut_near (length (chars value)) (chars value) (Z.to_nat budget))
      as (j & Hj & Hvj); [done|done|]. destruct (decide (j ≤ k)%nat) as [|Hjk]; [lia|].
    specialize (Hmax j ltac:(lia)). unfold ValidString in Hmax. rewrite chars_str_take in Hmax. congruence.
Qed.

(** [boundString] returns a text within the budget (at least one byte) unchanged and
    without a marker.  Of a longer text it returns a prefix of at most [budget] bytes that
    is valid UTF-8, the longest such, and, when the text itself is valid, at most three
    bytes short of the budget; the marker carries the original length. *)
Theorem boundString_spec (value : string) (budget : Z) :
  let limit := Z.max budget 1 in
  (slen value ≤ limit ∧ boundString value budget = (value, None)) ∨
  (limit < slen value ∧
   ∃ k, boundString value budget =
          (str_take k value, Some (mkCompleteness true true (u64 (slen value)) "content exceeds C/S frame budget")) ∧
     Z.of_nat k ≤ limit ∧ ValidString (str_take k value) = true ∧
     (∀ m, (k < m)%nat → Z.of_nat m ≤ limit → ValidString (str_take m value) = false) ∧
     (ValidString value = true → limit - 3 ≤ Z.of_nat k)).
Proof.
  intros limit. unfold boundString.
  replace (if budget <=? 0 then 1 else budget) with limit by (unfold limit; destruct (Z.leb_spec budget 0); lia).
  destruct (Z.leb_spec (slen value) limit) as [H|H]; [by left|right]. split; [done|].
  destruct (validUTF8Prefix_cut value limit) as (k & -> & Hk); [unfold limit in *; lia|].
  by exists k.
Qed.

(** ** The collection search *)

Section Search.
Context {A : Type} (values : list A) (fits : list A → bool).

(** With [high - low] rounds the search ends at the boundary between a fitting prefix and
    one that does not fit. *)
Lemma prefix_search_spec fuel low high :
  (low ≤ high)%nat → (high - low ≤ fuel)%nat → fits (take low values) = true →
  (high = length values ∨ fits (take (S high) values) = false) →
  let n := prefix_search fuel values fits low high in
  (low ≤ n ≤ high)%nat ∧ fits (take n values) = true ∧ (n = length values ∨ fits (take (S n) values) = false).
Proof.
  cbn zeta. revert low high. induction fuel as [|fuel IH]; intros low high Hlh Hf Hlow Hhigh; cbn [prefix_search].
  { replace high with low in * by lia. split; [lia|auto]. }
  destruct (Nat.ltb_spec low high) as [Hlt|]; [|replace high with low in * by lia; split; [lia|auto]].
  pose proof (Nat.div_mod_eq (high - low + 1) 2). pose proof (Nat.mod_upper_bound (high - low + 1) 2).
  remember (low + (high - low + 1) / 2)%nat as mid. destruct (fits (take mid values)) eqn:E.
  - destruct (IH mid high) as (? & ? & ?); [lia|lia|done|done|]. split; [lia|auto].
  - destruct (IH low (mid - 1)%nat) as (? & ? & ?); [lia|lia|done| |split; [lia|auto]].
    right. by replace (S (mid - 1)) with mid by lia.
Qed.

(** When fewer elements fit whenever more do. *)
Definition downward_closed : Prop :=
  ∀ m n, (m ≤ n)%nat → fits (take n values) = true → fits (take m values) = true.

Lemma not_fits_above n :
  downward_closed → n = length values ∨ fits (take (S n) values) = false →
  ∀ m, (n < m ≤ length values)%nat → fits (take m values) = false.
Proof.
  intros Hd Hn m Hm. destruct Hn as [->|Hn]; [lia|].
  destruct (fits (take m values)) eqn:E; [|done]. rewrite (Hd (S n) m) in Hn; [done|lia|done].
Qed.

Lemma boundedProtoPrefix_cases minimum :
  ∃ n, boundedProtoPrefix values minimum fits = take n values ∧
    (minimum `min` length values ≤ n ≤ length values)%nat ∧
    (n = (minimum `min` length values)%nat ∨ fits (take n values) = true) ∧
    (n = length values ∨ fits (take (S n) values) = false ∨
     n = (minimum `min` length values)%nat ∧ fits (take n values) = false).
Proof.
  unfold boundedProtoPrefix. destruct (_ || fits values) eqn:E.
  { exists (length values). rewrite firstn_all. split; [done|]. split; [lia|]. split; [|by left].
    destruct values; [by left; rewrite Nat.min_0_r|right; by destruct (fits _)]. }
  set (low := (minimum `min` length values)%nat).
  destruct (fits (take low values)) eqn:Elow; simpl.
  - destruct (prefix_search_spec (length values - low) low (length values)) as (Hn & Hfit & Hmax);
      [unfold low; lia|lia|done|by left|].
    eexists. split; [done|]. split; [lia|]. split; [by right|]. destruct Hmax; auto.
  - exists low. split; [done|]. split; [unfold low; lia|]. split; [by left|]. auto.
Qed.

(** C40: For a size test that shorter prefixes pass whenever longer ones do,
    [boundedProtoPrefix] returns the longest fitting prefix of at least [minimum] elements;
    if not even the first [minimum] elements fit, it returns exactly these. *)
Theorem boundedProtoPrefix_largest (minimum : nat) (Hd : downward_closed) :
  ∃ n, boundedProtoPrefix values minimum fits = take n values ∧
    (minimum `min` length values ≤ n ≤ length values)%nat ∧
    (fits (take (minimum `min` length values) values) = true → fits (take n values) = true) ∧
    ∀ m, (n < m ≤ length values)%nat → fits (take m values) = false.
Proof.
  destruct (boundedProtoPrefix_cases minimum) as (n & E & Hn & Hfit & Hmax).
  exists n. split; [done|]. split; [done|]. split.
  - intros Hlow. destruct Hfit as [->|]; done.
  - destruct Hmax as [|[|[-> Hlow]]]; [apply not_fits_above; auto..|].
    intros m Hm. destruct (fits (take m values)) eqn:Em; [|done]. rewrite (Hd _ m) in Hlow; [done|lia|done].
Qed.
End Search.

(** Five items against a limit of three. *)
Lemma boundedProtoPrefix_largest_witness :
  boundedProtoPrefix [1; 2; 3; 4; 5] 1 (λ l, (length l <=? 3)%nat) = [1; 2; 3] ∧
  ∃ n, boundedProtoPrefix [1; 2; 3; 4; 5] 1 (λ l, (length l <=? 3)%nat) = take n [1; 2; 3; 4; 5] ∧ (1 ≤ n ≤ 5)%nat.
Proof.
  split; [vm_compute; reflexivity|].
  assert (downward_closed [1; 2; 3; 4; 5] (λ l, (length l <=? 3)%nat)) as Hd.
  { intros m n Hmn. rewrite !Nat.leb_le, !length_take. lia. }
  destruct (boundedProtoPrefix_largest [1; 2; 3; 4; 5] _ 1 Hd) as (n & E & Hn & _).
  exists n. split; [exact E|simpl in Hn; lia].
Defined.

(** ** What cutting keeps *)

(** The parts of a message that are not presentation: identities, kinds, states, times,
    decisions and the options one can select. *)
Module Core.

Definition approval (a : Approval) : Approval :=
  set_apr_Command [] (set_apr_Explanation "" (set_apr_Title "" a)).

Definition choice (o : UserInputOption) : UserInputOption := mkUserInputOption (opt_OptionId o) "" "".

Definition question (q : UserInputQuestion) : UserInputQuestion :=
  set_qst_Options (choice <$> qst_Options q) (set_qst_Prompt "" (set_qst_Header "" q)).

Definition answer (a : UserInputAnswer) : UserInputAnswer := set_ans_FreeFormText "" a.

Definition input (u : UserInputRequestState) : UserInputRequestState :=
  set_uir_Completeness None (set_uir_ResolvedAnswers (answer <$> uir_ResolvedAnswers u)
    (set_uir_Questions (question <$> uir_Questions u) u)).

Definition pending (p : PendingRequest) : PendingRequest :=
  match p with
  | Pending_Approval a => Pending_Approval (approval a)
  | Pending_UserInput u => Pending_UserInput (input u)
  | Pending_None => Pending_None
  end.

Definition content (c : ItemContent) : ItemContent :=
  match c with
  | Item_UserMessage _ => Item_UserMessage []
  | Item_AgentMessage _ => Item_AgentMessage ""
  | Item_ReasoningSummary _ => Item_ReasoningSummary ""
  | Item_Plan _ => Item_Plan []
  | Item_Command c => Item_Command (mkCommandItem [] "" "" (cmd_ExitCode c) (cmd_HasExitCode c))
  | Item_Tool _ => Item_Tool (mkToolItem "" "" "")
  | Item_FileChange _ => Item_FileChange (mkFileChangeItem "" [])
  end.

Definition item (i : Item) : Item := set_item_Completeness None (set_item_Content (content <$> item_Content i) i).

Definition turn (t : TurnSnapshot) : TurnSnapshot :=
  set_turn_Completeness None (set_turn_Items (item <$> turn_Items t) t).

Definition codex (c : Codex) : Codex := set_cdx_Warnings [] (set_cdx_Title "" c).

Definition view (v : CurrentView) : CurrentView :=
  mkCurrentView (codex <$> cv_Codex v) (turn <$> cv_ActiveTurn v) (pending <$> cv_PendingRequests v)
    (cv_WorkspaceAccessState v) None (cv_HeadEventSeq v) (cv_GeneratedAtUnixMs v).

Definition payload (p : EventPayload) : EventPayload :=
  match p with
  | Event_ItemStarted i => Event_ItemStarted (item i)
  | Event_ItemUpdated i => Event_ItemUpdated (item i)
  | Event_ItemCompleted i => Event_ItemCompleted (item i)
  | Event_ItemDelta d =>
      Event_ItemDelta (set_dl_Delta (match dl_Delta d with
        | Delta_Text _ => Delta_Text "" | Delta_CommandOutput s _ => Delta_CommandOutput s "" | Delta_None => Delta_None end) d)
  | Event_PendingRequestUpdated r => Event_PendingRequestUpdated (pending r)
  | Event_WarningRaised w => Event_WarningRaised (set_warn_Metadata ∅ (set_warn_Message "" w))
  | Event_TurnUpdated t =>
      Event_TurnUpdated (set_tu_Failure ((λ f, mkError (err_Code f) "" (err_Retryable f) ∅) <$> tu_Failure t) t)
  | Event_CodexUpdated c => Event_CodexUpdated (codex c)
  | Event_CodexForgotten | Event_WorkspaceAccessStateUpdated _ => p
  end.

Definition event (e : Event) : Event := set_ev_Completeness None (set_ev_Payload (payload <$> ev_Payload e) e).

End Core.

Lemma list_fmap_idem {A B} (f : A → B) (g : A → A) (l : list A) : (∀ x, f (g x) = f x) → f <$> (g <$> l) = f <$> l.
Proof. intros H. rewrite <- list_fmap_compose. by apply list_fmap_ext; intros; apply H. Qed.

Section Keeps.
Context `{PJ : ProtoJSON} (ContentBudget : Z).

Lemma bound_approval_core a b : Core.approval (bound_approval a b) = Core.approval a.
Proof. unfold bound_approval. by case_match. Qed.

Lemma bound_question_core f q : Core.question (bound_question f q) = Core.question q.
Proof. destruct q. unfold Core.question, bound_question. simpl. by rewrite list_fmap_idem. Qed.

Lemma bare_question_core q : Core.question (bare_question q) = Core.question q.
Proof. destruct q. unfold Core.question, bare_question. simpl. by rewrite list_fmap_idem. Qed.

Lemma bound_input_core u b c : Core.input (bound_input u b c) = Core.input u.
Proof.
  unfold bound_input, Core.input. destruct u. simpl.
  repeat case_match; simpl; rewrite !(list_fmap_idem Core.answer) by done;
    rewrite ?(list_fmap_idem Core.question bare_question) by apply bare_question_core;
    by rewrite (list_fmap_idem Core.question) by apply bound_question_core.
Qed.

Lemma boundPendingRequest_core p b : Core.pending (boundPendingRequest p b).1 = Core.pending p.
Proof.
  unfold boundPendingRequest. case_match; [done|]. destruct p; simpl; [|f_equal; apply bound_input_core|done].
  f_equal. apply bound_approval_core.
Qed.

Lemma minimizePendingPresentation_core p : Core.pending (minimizePendingPresentation p) = Core.pending p.
Proof.
  destruct p as [| u|]; [done| |done]. simpl. f_equal. destruct u. unfold Core.input. simpl.
  by rewrite (list_fmap_idem Core.question bare_question) by apply bare_question_core.
Qed.

Lemma boundItem_core i b : Core.item (boundItem i b).1 = Core.item i.
Proof.
  unfold boundItem. case_match; [done|]. destruct i as [? ? ? c ? ?]. unfold Core.item. simpl.
  destruct c as [c|]; [|done]. simpl. by destruct c.
Qed.

Lemma minimizeItemPresentation_core i : Core.item (minimizeItemPresentation i) = Core.item i.
Proof.
  destruct i as [? ? ? c ? ?]. unfold minimizeItemPresentation, Core.item. simpl.
  destruct c as [c|]; [|done]. by destruct c.
Qed.

Lemma bound_each_fmap {A B} (g : A → B) (f : A → A * option Completeness) l acc :
  (∀ x, g (f x).1 = g x) → g <$> (bound_each f l acc).1 = g <$> l.
Proof.
  intros Hf. revert acc. induction l as [|x l IH]; intros acc; [done|]. simpl.
  specialize (Hf x). destruct (f x) as [x' c]. specialize (IH (mergeCompleteness acc c)).
  destruct (bound_each f l _) as [l' acc']. simpl in *. by f_equal.
Qed.

(** Each stage of [boundCurrentView]. *)
Lemma bound_items_core b v : Core.view (bound_items b v) = Core.view v.
Proof.
  unfold bound_items. destruct v as [c [t|] ps w k h g]; [|done]. simpl.
  pose proof (bound_each_fmap Core.item (λ i, boundItem i b) (turn_Items t) (turn_Completeness t)
    (λ i, boundItem_core i b)) as E.
  destruct (bound_each _ _ _) as [items k']. unfold Core.view, Core.turn. simpl in *. by rewrite E.
Qed.

Lemma bound_pending_core f v : (∀ p, Core.pending (f p).1 = Core.pending p) → Core.view (bound_pending f v) = Core.view v.
Proof.
  intros Hf. unfold bound_pending.
  pose proof (bound_each_fmap Core.pending f (cv_PendingRequests v) (cv_Completeness v) Hf) as E.
  destruct (bound_each _ _ _) as [ps k']. unfold Core.view. simpl in *. by rewrite E.
Qed.

Lemma on_codex_core f v : (∀ c, Core.codex (f c) = Core.codex c) → Core.view (on_codex f v) = Core.view v.
Proof. intros Hf. unfold Core.view. simpl. destruct (cv_Codex v); simpl; by rewrite ?Hf. Qed.

Lemma minimize_items_core o v : Core.view (minimize_items o v) = Core.view v.
Proof.
  unfold minimize_items. destruct v as [c [t|] ps w k h g]; [|done]. unfold Core.view, Core.turn. simpl.
  by rewrite (list_fmap_idem Core.item minimizeItemPresentation) by apply minimizeItemPresentation_core.
Qed.

Lemma addBudgetWarning_core scope v : Core.view (addBudgetWarning scope v) = Core.view v.
Proof. unfold addBudgetWarning. destruct v as [[c|] ? ? ? ? ? ?]; [|done]. simpl. by case_match. Qed.

Lemma minimize_view_core o b v : Core.view (minimize_view o b v) = Core.view v.
Proof.
  unfold minimize_view. rewrite minimize_items_core. apply bound_pending_core. intros p. unfold minimize_pending.
  pose proof (boundPendingRequest_core p b) as E. destruct (boundPendingRequest p b) as [p' c]. simpl in *.
  by rewrite minimizePendingPresentation_core.
Qed.

Lemma if_exceeds_core b f v : (∀ v, Core.view (f v) = Core.view v) → Core.view (if_exceeds b f v) = Core.view v.
Proof. unfold if_exceeds. by case_match. Qed.

#[local] Hint Rewrite if_exceeds_core bound_pending_core
  using (intros; first [done | apply minimize_view_core | apply boundPendingRequest_core | by apply on_codex_core]) : budget.
#[local] Hint Rewrite bound_items_core addBudgetWarning_core : budget.

(** Events. *)
Lemma bound_payload_core t p : Core.payload (bound_payload t p).1 = Core.payload p.
Proof.
  destruct p as [c| |u|i|d|i|i|r|w|?]; simpl; try done.
  - unfold boundCodex. by repeat case_match; simplify_eq/=.
  - unfold boundError. destruct u as [? ? ? ? [f|]]; [|done]. simpl. by repeat case_match; simplify_eq/=.
  - pose proof (boundItem_core i t) as E. destruct (boundItem i t). simpl in *. by rewrite E.
  - unfold bound_delta. destruct d as [? ? ? [text|st text|]]; simpl; by repeat case_match; simplify_eq/=.
  - pose proof (boundItem_core i t) as E. destruct (boundItem i t). simpl in *. by rewrite E.
  - pose proof (boundItem_core i t) as E. destruct (boundItem i t). simpl in *. by rewrite E.
  - pose proof (boundPendingRequest_core r t) as E. destruct (boundPendingRequest r t). simpl in *. by rewrite E.
  - unfold boundWarning. by repeat case_match; simplify_eq/=.
Qed.

Lemma strict_payload_core t p : Core.payload (strict_payload t p).1 = Core.payload p.
Proof. destruct p; try done; exact (bound_payload_core t _). Qed.

Lemma on_payload_core f e : (∀ p, Core.payload (f p).1 = Core.payload p) → Core.event (on_payload f e).1 = Core.event e.
Proof.
  intros Hf. unfold on_payload. destruct e as [? ? ? ? ? [p|]]; [|done]. simpl. specialize (Hf p).
  destruct (f p). unfold Core.event. simpl in *. by rewrite Hf.
Qed.

Lemma boundCanonicalEvent_core e : Core.event (boundCanonicalEvent ContentBudget e) = Core.event e.
Proof.
  unfold boundCanonicalEvent. case_match; [done|]. cbn zeta.
  match goal with |- context [on_payload (bound_payload ?t) e] =>
    pose proof (on_payload_core _ e (bound_payload_core t)) as E1; destruct (on_payload (bound_payload t) e) as [e1 c1] end.
  match goal with |- context [on_payload (strict_payload ?t) e1] =>
    pose proof (on_payload_core _ e1 (strict_payload_core t)) as E2; destruct (on_payload (strict_payload t) e1) as [e2 c2] end.
  simpl in *. rewrite <- E1. destruct (_ <? protoJSONSize (MsgEvent e1)); [rewrite <- E2|]; by case_match.
Qed.

Lemma boundCurrentView_core v : Core.view (boundCurrentView ContentBudget v) = Core.view v.
Proof. unfold boundCurrentView. case_match; [done|]. cbn zeta. by autorewrite with budget. Qed.

(** C32: However tight the frame budget, [boundCurrentView] removes no pending request,
    question, option, item or identity: the Codex apart from its title and warnings, the
    turn with every item's identity, status and kind, every approval's identity and
    allowed decisions, every question with its option ids and flags, the workspace state
    and the head sequence are those of the given view.  The same holds of a single
    bounded request and of an event. *)
Theorem bounding_keeps_core (v : CurrentView) :
  Core.view (boundCurrentView ContentBudget v) = Core.view v ∧
  (∀ p b, Core.pending (boundPendingRequest p b).1 = Core.pending p) ∧
  (∀ e, Core.event (boundCanonicalEvent ContentBudget e) = Core.event e).
Proof.
  split; [apply boundCurrentView_core|]. split; [apply boundPendingRequest_core|apply boundCanonicalEvent_core].
Qed.
End Keeps.

(** ** Nothing is cut silently *)

(** A marker that says so, with at least the given size. *)
Definition marked (size : Z) (c : option Completeness) : Prop :=
  ∃ k, c = Some k ∧ comp_Truncated k = true ∧ comp_Incomplete k = true ∧ u64 size ≤ comp_OriginalSizeBytes k.

Lemma marked_budget size reason : marked size (Some (budgetCompleteness size reason)).
Proof. eexists. repeat split. simpl. lia. Qed.

Lemma marked_merge_r size dst src : marked size src → marked size (mergeCompleteness dst src).
Proof.
  intros (k & -> & Ht & Hi & Hs). destruct dst as [d|]; [|by exists k].
  eexists. split; [done|]. simpl. rewrite Ht, Hi, !orb_true_r. repeat split. case_match; to_prop; lia.
Qed.

Lemma marked_merge_l size dst src : marked size dst → marked size (mergeCompleteness dst src).
Proof.
  intros (k & -> & Ht & Hi & Hs). destruct src as [d|]; [|by exists k].
  eexists. split; [done|]. simpl. rewrite Ht, Hi. repeat split. case_match; to_prop; lia.
Qed.

Lemma marked_reason size reason c : marked size c → marked size (with_reason reason c).
Proof. intros (k & -> & H). by exists (set_comp_Reason reason k). Qed.

#[local] Arguments mergeCompleteness : simpl never.
#[local] Arguments budgetCompleteness : simpl never.
#[local] Hint Resolve marked_budget marked_merge_r marked_merge_l marked_reason : codex.

Lemma bound_each_marked {A} (f : A → A * option Completeness) l acc size :
  marked size acc → marked size (bound_each f l acc).2.
Proof.
  revert acc. induction l as [|x l IH]; intros acc Hacc; [done|]. simpl. destruct (f x) as [x' c].
  specialize (IH (mergeCompleteness acc c)). destruct (bound_each f l _). eauto with codex.
Qed.

Section Marks.
Context `{PJ : ProtoJSON} (ContentBudget : Z).

(** An item is unchanged or says that it was cut. *)
Definition item_told (i i' : Item) : Prop :=
  i' = i ∨ ∃ k, item_Completeness i' = Some k ∧ comp_Truncated k = true ∧ comp_Incomplete k = true.

Lemma marked_told size i i' : marked size (item_Completeness i') → item_told i i'.
Proof. intros (k & ? & ? & ? & _). right. eauto. Qed.

Lemma boundItem_told i b : item_told i (boundItem i b).1.
Proof.
  unfold boundItem. case_match; [by left|]. apply (marked_told (protoJSONSize (MsgItem i))).
  exact (marked_merge_r _ _ _ (marked_budget _ _)).
Qed.

Lemma minimize_told i i' : item_told i (minimizeItemPresentation i').
Proof. apply (marked_told 0). simpl. apply marked_merge_r. by exists (mkCompleteness true true 0 "frame budget"). Qed.

(** What holds of a view after every stage of the bounding of [v]. *)
Definition told (v v' : CurrentView) : Prop :=
  marked (protoJSONSize (MsgView v)) (cv_Completeness v') ∧
  Forall2 item_told (from_option turn_Items [] (cv_ActiveTurn v)) (from_option turn_Items [] (cv_ActiveTurn v')).

Lemma if_exceeds_told v b f v' : (told v v' → told v (f v')) → told v v' → told v (if_exceeds b f v').
Proof. unfold if_exceeds. by case_match. Qed.

Lemma bound_pending_told v f v' : told v v' → told v (bound_pending f v').
Proof.
  intros [Hm Hi]. unfold bound_pending. pose proof (bound_each_marked f (cv_PendingRequests v') _ _ Hm) as E.
  by destruct (bound_each _ _ _).
Qed.

Lemma minimize_items_told v o v' : told v v' → told v (minimize_items o v').
Proof.
  intros [Hm Hi]. unfold minimize_items. destruct v' as [c [t|] ps w k h g]; [|done]. split; [done|]. simpl in *.
  apply Forall2_fmap_r. eapply Forall2_impl; [done|]. intros. apply minimize_told.
Qed.

Lemma bound_items_told v b v' :
  from_option turn_Items [] (cv_ActiveTurn v') = from_option turn_Items [] (cv_ActiveTurn v) →
  marked (protoJSONSize (MsgView v)) (cv_Completeness v') → told v (bound_items b v').
Proof.
  intros E Hm. unfold bound_items, told. rewrite <- E. clear E. destruct v' as [c [t|] ps w k h g]; [|by split; [|constructor]].
  simpl. assert (∀ l acc, Forall2 item_told l (bound_each (λ i, boundItem i b) l acc).1) as Hl.
  { induction l as [|i l IH]; intros acc; [by constructor|]. simpl. pose proof (boundItem_told i b).
    destruct (boundItem i b) as [i' c']. specialize (IH (mergeCompleteness acc c')). destruct (bound_each _ l _). by constructor. }
  specialize (Hl (turn_Items t) (turn_Completeness t)). by destruct (bound_each _ _ _).
Qed.

Lemma boundCanonicalEvent_marked e :
  eventPayloadBudget ContentBudget < protoJSONSize (MsgEvent e) →
  marked (protoJSONSize (MsgEvent e)) (ev_Completeness (boundCanonicalEvent ContentBudget e)).
Proof.
  intros Hb. unfold boundCanonicalEvent. replace (_ <=? _) with false by lia. cbn zeta.
  destruct (on_payload _ e) as [e1 c1]. destruct (if _ <? _ then _ else _) as [e2 c2].
  case_match; simpl; auto 6 with codex.
Qed.

(** A view, event, turn or history page within the budget is passed on unchanged.
    Anything larger carries a completeness marker that says it is truncated and
    incomplete, with at least its original size; a cut history page also says it is not
    complete; and every item of the view's turn is unchanged or carries its own marker. *)
Theorem cuts_are_marked :
  let budget := collectionBudget ContentBudget in
  (∀ v, if protoJSONSize (MsgView v) <=? budget then boundCurrentView ContentBudget v = v
        else told v (boundCurrentView ContentBudget v)) ∧
  (∀ e, if protoJSONSize (MsgEvent e) <=? budget then boundCanonicalEvent ContentBudget e = e
        else marked (protoJSONSize (MsgEvent e)) (ev_Completeness (boundCanonicalEvent ContentBudget e))) ∧
  (∀ t, if protoJSONSize (MsgTurn t) <=? budget then boundTurnSnapshot ContentBudget t = t
        else marked (protoJSONSize (MsgTurn t)) (turn_Completeness (boundTurnSnapshot ContentBudget t))) ∧
  (∀ h, if protoJSONSize (MsgHistory h) <=? budget then boundHistoryPage ContentBudget h = h
        else marked (protoJSONSize (MsgHistory h)) (hp_Completeness (boundHistoryPage ContentBudget h)) ∧
             hp_HistoryComplete (boundHistoryPage ContentBudget h) = false).
Proof.
  cbn zeta. repeat split.
  - intros v. unfold boundCurrentView. case_match eqn:Hb; [done|].
    repeat (apply if_exceeds_told; [intros Ht; first
      [exact Ht | by apply minimize_items_told, bound_pending_told | destruct Ht; split; [by apply marked_reason|done]]|]).
    apply bound_pending_told, bound_items_told; unfold addBudgetWarning; repeat case_match; simpl; auto with codex.
  - intros e. case_match eqn:Hb; [by unfold boundCanonicalEvent, eventPayloadBudget; rewrite Hb|].
    apply boundCanonicalEvent_marked. unfold eventPayloadBudget. lia.
  - intros t. unfold boundTurnSnapshot. case_match; [done|]. cbn zeta. repeat case_match; simpl; auto with codex.
  - intros h. unfold boundHistoryPage. case_match; [done|]. split; [simpl; auto with codex|done].
Qed.
End Marks.
