(* ===== verification/Manager.v ===== *)
(** * The Codex manager: state, durable snapshots and the management lease
    (internal/codex/manager.go)

    The manager owns the in-memory view of every Codex, writes it through to the
    database and publishes every change as an event.  This file holds its state, the
    helpers all handlers use, and the lifecycle handlers: renewing and sweeping leases,
    unmanaging, renaming and forgetting a Codex.

    Every handler here runs under [commitMu], so it is one function on the state.  The
    database of the manager is the one the event store writes to ([as_persist]), with its
    pattern of failures.  [now] is the manager's clock ([m.now()], nanoseconds), [wall]
    the reading of [time.Now()] in milliseconds within one handler, and [audit] what the
    audit recorder answers for an event. *)

From Stdlib Require Import Ascii String.
From stdpp Require Import base tactics numbers list gmap strings pretty.
From S2P Require Import Prelude GoError GoStrings Remote Persistence Activity HostEvents Workspace Budget.
Local Open Scope string_scope.
Local Open Scope Z_scope.
Local Open Scope list_scope.

(** ** State *)

(** [workspaceChildObservation] of workspace.go. *)
Record workspaceChildObservation := mkChildObservation {
  co_ItemID : string;
  co_Terminal : bool;
}.

(** [codex.Manager]: its maps, with the event store and the workspace service it owns. *)
Record MState := mkMState {
  mg_events : AStore Store;
  mg_workspaces : Service;
  mg_byID : gmap string CurrentView;
  mg_byThread : gmap string string;
  mg_bySession : gmap string string;
  mg_sources : gmap string string;
  mg_logicalOwners : gmap string string;
  mg_manualTitle : gmap string bool;
  mg_warningDeadline : gmap string Z;
  mg_chunks : gmap string Z;
  mg_workspaceChildCodex : gmap string string;
  mg_workspaceChildState : gmap string workspaceChildObservation;
  mg_asyncError : string;
}.

Definition set_mg_events (x : AStore Store) (s : MState) : MState :=
  mkMState x (mg_workspaces s) (mg_byID s) (mg_byThread s) (mg_bySession s) (mg_sources s)
    (mg_logicalOwners s) (mg_manualTitle s) (mg_warningDeadline s) (mg_chunks s)
    (mg_workspaceChildCodex s) (mg_workspaceChildState s) (mg_asyncError s).

Definition set_mg_workspaces (x : Service) (s : MState) : MState :=
  mkMState (mg_events s) x (mg_byID s) (mg_byThread s) (mg_bySession s) (mg_sources s)
    (mg_logicalOwners s) (mg_manualTitle s) (mg_warningDeadline s) (mg_chunks s)
    (mg_workspaceChildCodex s) (mg_workspaceChildState s) (mg_asyncError s).

Definition set_mg_byID (x : gmap string CurrentView) (s : MState) : MState :=
  mkMState (mg_events s) (mg_workspaces s) x (mg_byThread s) (mg_bySession s) (mg_sources s)
    (mg_logicalOwners s) (mg_manualTitle s) (mg_warningDeadline s) (mg_chunks s)
    (mg_workspaceChildCodex s) (mg_workspaceChildState s) (mg_asyncError s).

Definition set_mg_byThread (x : gmap string string) (s : MState) : MState :=
  mkMState (mg_events s) (mg_workspaces s) (mg_byID s) x (mg_bySession s) (mg_sources s)
    (mg_logicalOwners s) (mg_manualTitle s) (mg_warningDeadline s) (mg_chunks s)
    (mg_workspaceChildCodex s) (mg_workspaceChildState s) (mg_asyncError s).

Definition set_mg_bySession (x : gmap string string) (s : MState) : MState :=
  mkMState (mg_events s) (mg_workspaces s) (mg_byID s) (mg_byThread s) x (mg_sources s)
    (mg_logicalOwners s) (mg_manualTitle s) (mg_warningDeadline s) (mg_chunks s)
    (mg_workspaceChildCodex s) (mg_workspaceChildState s) (mg_asyncError s).

Definition set_mg_sources (x : gmap string string) (s : MState) : MState :=
  mkMState (mg_events s) (mg_workspaces s) (mg_byID s) (mg_byThread s) (mg_bySession s) x
    (mg_logicalOwners s) (mg_manualTitle s) (mg_warningDeadline s) (mg_chunks s)
    (mg_workspaceChildCodex s) (mg_workspaceChildState s) (mg_asyncError s).

Definition set_mg_logicalOwners (x : gmap string string) (s : MState) : MState :=
  mkMState (mg_events s) (mg_workspaces s) (mg_byID s) (mg_byThread s) (mg_bySession s) (mg_sources
    s) x (mg_manualTitle s) (mg_warningDeadline s) (mg_chunks s) (mg_workspaceChildCodex s)
    (mg_workspaceChildState s) (mg_asyncError s).

Definition set_mg_manualTitle (x : gmap string bool) (s : MState) : MState :=
  mkMState (mg_events s) (mg_workspaces s) (mg_byID s) (mg_byThread s) (mg_bySession s) (mg_sources
    s) (mg_logicalOwners s) x (mg_warningDeadline s) (mg_chunks s) (mg_workspaceChildCodex s)
    (mg_workspaceChildState s) (mg_asyncError s).

Definition set_mg_warningDeadline (x : gmap string Z) (s : MState) : MState :=
  mkMState (mg_events s) (mg_workspaces s) (mg_byID s) (mg_byThread s) (mg_bySession s) (mg_sources
    s) (mg_logicalOwners s) (mg_manualTitle s) x (mg_chunks s) (mg_workspaceChildCodex s)
    (mg_workspaceChildState s) (mg_asyncError s).

Definition set_mg_chunks (x : gmap string Z) (s : MState) : MState :=
  mkMState (mg_events s) (mg_workspaces s) (mg_byID s) (mg_byThread s) (mg_bySession s) (mg_sources
    s) (mg_logicalOwners s) (mg_manualTitle s) (mg_warningDeadline s) x (mg_workspaceChildCodex s)
    (mg_workspaceChildState s) (mg_asyncError s).

Definition set_mg_workspaceChildCodex (x : gmap string string) (s : MState) : MState :=
  mkMState (mg_events s) (mg_workspaces s) (mg_byID s) (mg_byThread s) (mg_bySession s) (mg_sources
    s) (mg_logicalOwners s) (mg_manualTitle s) (mg_warningDeadline s) (mg_chunks s) x
    (mg_workspaceChildState s) (mg_asyncError s).

Definition set_mg_workspaceChildState (x : gmap string workspaceChildObservation) (s : MState) : MState :=
  mkMState (mg_events s) (mg_workspaces s) (mg_byID s) (mg_byThread s) (mg_bySession s) (mg_sources
    s) (mg_logicalOwners s) (mg_manualTitle s) (mg_warningDeadline s) (mg_chunks s)
    (mg_workspaceChildCodex s) x (mg_asyncError s).

Definition set_mg_asyncError (x : string) (s : MState) : MState :=
  mkMState (mg_events s) (mg_workspaces s) (mg_byID s) (mg_byThread s) (mg_bySession s) (mg_sources
    s) (mg_logicalOwners s) (mg_manualTitle s) (mg_warningDeadline s) (mg_chunks s)
    (mg_workspaceChildCodex s) (mg_workspaceChildState s) x.


Notation MM := (M MState).

(** The configurable fields. *)
Record ManagerConfig := mkManagerConfig {
  mc_LeaseDuration : Z;
  mc_LeaseWarningBefore : Z;
  mc_ContentBudget : Z;
}.

(** A Go map read: the zero value for an absent key. *)
Definition get_str (m : gmap string string) (k : string) : string := default "" (m !! k).
Definition get_int (m : gmap string Z) (k : string) : Z := default 0 (m !! k).
Definition get_bool (m : gmap string bool) (k : string) : bool := default false (m !! k).

(** ** Time *)

(** A [time.Time] is its nanoseconds since the epoch. *)
Definition UnixMilli (t : Z) : Z := t / 1000000.
Definition Milliseconds (d : Z) : Z := d / 1000000.

Definition leaseDuration (cfg : ManagerConfig) : Z :=
  if 0 <? mc_LeaseDuration cfg then mc_LeaseDuration cfg else 2 * 3600 * 1000000000.

Definition leaseWarningBefore (cfg : ManagerConfig) : Z :=
  if 0 <? mc_LeaseWarningBefore cfg then mc_LeaseWarningBefore cfg else 30 * 60 * 1000000000.

(** ** Names, keys and records *)

Definition rpcErr (code : ErrorCode) (message : string) : goerr := ErrRPC (mkError code message false ∅).

Definition normalizeSourceString (source : string) : string :=
  let source := TrimSpace source in if str_empty source then "unknown" else source.

Definition sessionKey (source sessionID : string) : string :=
  (normalizeSourceString source +:+ nul +:+ sessionID)%string.

(** [String()] of the protocol enums and the [_value] maps. *)
Definition CodexOrigin_String (o : CodexOrigin) : string :=
  match o with
  | CODEX_ORIGIN_UNSPECIFIED => "CODEX_ORIGIN_UNSPECIFIED"
  | CODEX_ORIGIN_REMOTE_CREATED => "CODEX_ORIGIN_REMOTE_CREATED"
  | CODEX_ORIGIN_LOCAL_EXISTING => "CODEX_ORIGIN_LOCAL_EXISTING"
  end.

Definition CodexStatus_String (s : CodexStatus) : string :=
  match s with
  | CODEX_STATUS_UNSPECIFIED => "CODEX_STATUS_UNSPECIFIED"
  | CODEX_STATUS_IDLE => "CODEX_STATUS_IDLE"
  | CODEX_STATUS_RUNNING => "CODEX_STATUS_RUNNING"
  | CODEX_STATUS_WAITING_FOR_APPROVAL => "CODEX_STATUS_WAITING_FOR_APPROVAL"
  | CODEX_STATUS_WAITING_FOR_USER_INPUT => "CODEX_STATUS_WAITING_FOR_USER_INPUT"
  | CODEX_STATUS_INTERRUPTING => "CODEX_STATUS_INTERRUPTING"
  | CODEX_STATUS_UNAVAILABLE => "CODEX_STATUS_UNAVAILABLE"
  | CODEX_STATUS_ERROR => "CODEX_STATUS_ERROR"
  end.

Definition ManagementState_String (s : ManagementState) : string :=
  match s with
  | MANAGEMENT_STATE_UNSPECIFIED => "MANAGEMENT_STATE_UNSPECIFIED"
  | MANAGEMENT_STATE_MANAGED => "MANAGEMENT_STATE_MANAGED"
  | MANAGEMENT_STATE_EXPIRING_SOON => "MANAGEMENT_STATE_EXPIRING_SOON"
  | MANAGEMENT_STATE_UNMANAGED => "MANAGEMENT_STATE_UNMANAGED"
  end.

Definition all_statuses : list CodexStatus :=
  [CODEX_STATUS_UNSPECIFIED; CODEX_STATUS_IDLE; CODEX_STATUS_RUNNING; CODEX_STATUS_WAITING_FOR_APPROVAL;
   CODEX_STATUS_WAITING_FOR_USER_INPUT; CODEX_STATUS_INTERRUPTING; CODEX_STATUS_UNAVAILABLE; CODEX_STATUS_ERROR].

Definition all_management : list ManagementState :=
  [MANAGEMENT_STATE_UNSPECIFIED; MANAGEMENT_STATE_MANAGED; MANAGEMENT_STATE_EXPIRING_SOON; MANAGEMENT_STATE_UNMANAGED].

Definition CodexStatus_value (name : string) : option CodexStatus :=
  List.find (λ s, bool_decide (CodexStatus_String s = name)) all_statuses.

Definition ManagementState_value (name : string) : option ManagementState :=
  List.find (λ s, bool_decide (ManagementState_String s = name)) all_management.

Definition recordFromCodex (c : Codex) (source : string) : CodexRecord :=
  mkCodexRecord (cdx_CodexId c) (cdx_ThreadId c) (normalizeSourceString source) "" (cdx_Cwd c) (cdx_Title c)
    (CodexOrigin_String (cdx_Origin c)) (CodexStatus_String (cdx_Status c)) (cdx_ActiveTurnId c) ""
    (ManagementState_String (cdx_ManagementState c)) (cdx_CreatedAtUnixMs c) (cdx_ImportedAtUnixMs c)
    (cdx_LastActivityAtUnixMs c) (cdx_ManagedUntilUnixMs c) 0 "" false.

Definition codexFromRecord (r : CodexRecord) : Codex :=
  let origin := if Contains (cr_Origin r) "LOCAL_EXISTING" then CODEX_ORIGIN_LOCAL_EXISTING else CODEX_ORIGIN_REMOTE_CREATED in
  let status := default CODEX_STATUS_IDLE (CodexStatus_value (cr_Status r)) in
  let management := default MANAGEMENT_STATE_UNSPECIFIED (ManagementState_value (cr_ManagementState r)) in
  mkCodex (cr_CodexID r) (cr_ThreadID r) (cr_CWD r) (cr_Title r) origin status (cr_ActiveTurnID r) management
    (cr_ManagedUntilUnixMS r) (cr_CreatedAtUnixMS r) (cr_ImportedAtUnixMS r) (cr_LastActivityAtUnixMS r) [].

(** ** State helpers *)

(** A call on the database and on the event store. *)
Definition store {A} (m : M Store A) : MM A :=
  zoom (λ s, as_persist (mg_events s)) (λ p s, set_mg_events (set_as_persist p (mg_events s)) s) m.

Definition events {A} (m : M (AStore Store) A) : MM A := zoom mg_events set_mg_events m.

Definition noteAsyncError (e : goerr) : MM unit := modify (set_mg_asyncError (error_text e)).

Definition put_view (id : string) (v : CurrentView) : MM unit :=
  modify (λ s, set_mg_byID (<[id := v]> (mg_byID s)) s).

Definition put_deadline (id : string) (d : Z) : MM unit :=
  modify (λ s, set_mg_warningDeadline (<[id := d]> (mg_warningDeadline s)) s).

Definition codex_not_found : goerr := rpcErr ERROR_CODE_CODEX_NOT_FOUND "codex not found".

(** [view := m.byID[id]; if view == nil || view.Codex == nil]. *)
Definition find_view (s : MState) (id : string) : option (CurrentView * Codex) :=
  v ← mg_byID s !! id; c ← cv_Codex v; Some (v, c).

Definition with_codex (f : Codex → Codex) (v : CurrentView) : CurrentView := set_cv_Codex (f <$> cv_Codex v) v.

Definition lookup_codex (id : string) : MM Codex := λ s,
  match find_view s id with
  | None => (s, Err codex_not_found)
  | Some (_, c) => (s, Ok c)
  end.

Section Manager.
Context `{PJ : ProtoJSON} (cfg : ManagerConfig) (audit : Event → option string).

Definition persistState (v : CurrentView) : MM unit :=
  match cv_Codex v with
  | None => fail_msg "current view missing codex"
  | Some c =>
      raw ← of_res (Marshal (MsgView v));
      r ← gets (λ s,
        set_cr_CurrentViewJSON raw (set_cr_WarningDeadlineUnixMS (get_int (mg_warningDeadline s) (cdx_CodexId c))
          (set_cr_ManualTitleOverride (get_bool (mg_manualTitle s) (cdx_CodexId c))
            (set_cr_LogicalOwnerID (get_str (mg_logicalOwners s) (cdx_CodexId c))
              (recordFromCodex c (get_str (mg_sources s) (cdx_CodexId c)))))));
      store (UpsertCodex r)
  end.

Definition persistView (wall : Z) (id : string) (v : CurrentView) : MM unit :=
  raw ← of_res (Marshal (MsgView v));
  store (SetCurrentView wall id raw).

Definition publishEvent (wall : Z) (event : Event) (view : CurrentView) : MM Event :=
  events (Publish wall (Some event) (Some view) (audit event)).

Definition publishCodex (wall : Z) (c : Codex) (requestID : string) : MM unit :=
  view ← gets (λ s, mg_byID s !! cdx_CodexId c);
  match view with
  | None => fail_msg "current view missing while publishing codex"
  | Some snapshot =>
      let event := mkEvent (cdx_CodexId c) 0 wall requestID None (Some (Event_CodexUpdated c)) in
      _ ← publishEvent wall (boundCanonicalEvent (mc_ContentBudget cfg) event) snapshot;
      mret tt
  end.

Definition rollbackLifecycleState (codexID : string) (original : CurrentView) (warningDeadline : Z) (publishErr : goerr) : MM unit :=
  _ ← put_deadline codexID warningDeadline;
  _ ← put_view codexID original;
  r ← attempt (persistState original);
  match r with
  | Err e =>
      let combined := ErrJoin publishErr (ErrWrapped "rollback lifecycle state: " e "") in
      _ ← noteAsyncError combined; throw combined
  | Ok _ =>
      r ← attempt (events (ReloadDurable codexID));
      match r with
      | Err e =>
          let combined := ErrJoin publishErr (ErrWrapped "reload rolled back lifecycle state: " e "") in
          _ ← noteAsyncError combined; throw combined
      | Ok _ => throw publishErr
      end
  end.

Definition preserveLifecycleState (codexID : string) (snapshot : CurrentView) (warningDeadline : Z) (persist : bool)
    (outcomeErr : goerr) : MM unit :=
  _ ← put_deadline codexID warningDeadline;
  _ ← put_view codexID snapshot;
  r ← attempt (if persist then persistState snapshot else mret tt);
  match r with
  | Err e =>
      let combined := ErrJoin outcomeErr (ErrWrapped "persist uncertain lifecycle state: " e "") in
      _ ← noteAsyncError combined; throw combined
  | Ok _ =>
      r ← attempt (events (ReloadDurable codexID));
      match r with
      | Err e =>
          let combined := ErrJoin outcomeErr (ErrWrapped "reload uncertain lifecycle state: " e "") in
          _ ← noteAsyncError combined; throw combined
      | Ok _ => _ ← noteAsyncError outcomeErr; throw outcomeErr
      end
  end.

(** ** Lifecycle transitions *)

Definition manualUnmanageBusy (view : CurrentView) : bool :=
  match cv_Codex view with
  | None => false
  | Some c =>
      match cdx_Status c with
      | CODEX_STATUS_RUNNING | CODEX_STATUS_WAITING_FOR_APPROVAL | CODEX_STATUS_WAITING_FOR_USER_INPUT
      | CODEX_STATUS_INTERRUPTING => true
      | _ => negb (str_empty (cdx_ActiveTurnId c)) || bool_decide (cv_ActiveTurn view ≠ None)
             || bool_decide (zlen (cv_PendingRequests view) ≠ 0)
      end
  end.

Definition automaticUnmanageSafe (view : CurrentView) : bool :=
  match cv_Codex view with
  | None => false
  | Some c => bool_decide (cdx_Status c = CODEX_STATUS_IDLE) && negb (manualUnmanageBusy view)
  end.

Definition hasManagementWarning (warnings : list Warning) (deadline : Z) : bool :=
  existsb (λ w, bool_decide (warn_Code w = WARNING_CODE_MANAGEMENT_EXPIRING_SOON) && (warn_ManagedUntilUnixMs w =? deadline)) warnings.

(** The common end of a lifecycle handler: set the marker, persist the snapshot, show it
    and publish it.  [marker] and [persist] say what is kept when the outcome of the
    publication is unknown. *)
Definition commit_lifecycle (wall : Z) (codexID : string) (original snapshot : CurrentView) (oldWarning newWarning : Z)
    (requestID : string) (marker : Z) (persist : bool) : MM unit :=
  _ ← put_deadline codexID newWarning;
  r ← attempt (persistState snapshot);
  match r with
  | Err e => _ ← put_deadline codexID oldWarning; throw e
  | Ok _ =>
      _ ← put_view codexID snapshot;
      r ← attempt (match cv_Codex snapshot with Some c => publishCodex wall c requestID | None => mret tt end);
      match r with
      | Ok _ => mret tt
      | Err e =>
          if errorsIs e ErrEventCommitOutcomeUnknown then preserveLifecycleState codexID snapshot marker persist e
          else rollbackLifecycleState codexID original oldWarning e
      end
  end.

Definition unmanaged (c : Codex) : Codex := set_cdx_ManagedUntilUnixMs 0 (set_cdx_ManagementState MANAGEMENT_STATE_UNMANAGED c).

Definition UnmanageCodex (now wall : Z) (codexID requestID : string) : MM Codex :=
  if str_empty codexID then throw (rpcErr ERROR_CODE_INVALID_REQUEST "codex id is required") else
  found ← gets (λ s, find_view s codexID);
  match found with
  | None => throw codex_not_found
  | Some (view, c) =>
      if bool_decide (cdx_ManagementState c = MANAGEMENT_STATE_UNMANAGED) then mret c
      else if manualUnmanageBusy view then throw (rpcErr ERROR_CODE_CODEX_BUSY "codex is busy")
      else
        oldWarning ← gets (λ s, get_int (mg_warningDeadline s) codexID);
        let snapshot := set_cv_GeneratedAtUnixMs (UnixMilli now) (with_codex unmanaged view) in
        _ ← commit_lifecycle wall codexID view snapshot oldWarning 0 requestID 0 false;
        mret (unmanaged c)
  end.

Definition renewed (now : Z) (c : Codex) : Codex :=
  set_cdx_LastActivityAtUnixMs (UnixMilli now)
    (set_cdx_ManagedUntilUnixMs (UnixMilli (now + leaseDuration cfg)) (set_cdx_ManagementState MANAGEMENT_STATE_MANAGED c)).

Definition renewLease (now wall : Z) (codexID : string) : MM unit :=
  found ← gets (λ s, find_view s codexID);
  match found with
  | None => throw codex_not_found
  | Some (view, c) =>
      if bool_decide (cdx_ManagementState c = MANAGEMENT_STATE_UNMANAGED) then mret tt
      else
        oldWarning ← gets (λ s, get_int (mg_warningDeadline s) codexID);
        let snapshot := set_cv_GeneratedAtUnixMs (UnixMilli now) (with_codex (renewed now) view) in
        commit_lifecycle wall codexID view snapshot oldWarning 0 "" 0 false
  end.

Definition renewable (s : MState) (id : string) : bool :=
  match find_view s id with
  | None => false
  | Some (_, c) => bool_decide (cdx_ManagementState c = MANAGEMENT_STATE_MANAGED)
                   || bool_decide (cdx_ManagementState c = MANAGEMENT_STATE_EXPIRING_SOON)
  end.

(** Every id once; between two ids other handlers may run. *)
Fixpoint renew_each (now wall : Z) (seen ids : list string) : MM unit :=
  match ids with
  | [] => mret tt
  | id :: ids =>
      if str_empty id || bool_decide (id ∈ seen) then renew_each now wall seen ids
      else
        eligible ← gets (λ s, renewable s id);
        _ ← (if (eligible : bool) then renewLease now wall id else mret tt);
        renew_each now wall (id :: seen) ids
  end.

Definition RenewForegroundCodexes (now wall : Z) (ids : list string) : MM unit := renew_each now wall [] ids.

(** ** The sweep *)

Definition expiry_warning (deadline : Z) : Warning :=
  mkWarning WARNING_CODE_MANAGEMENT_EXPIRING_SOON "Codex management lease is expiring soon" deadline
    {[ "managed_until_unix_ms" := pretty deadline ]}.

Definition warned (deadline : Z) (c : Codex) : Codex :=
  if hasManagementWarning (cdx_Warnings c) deadline then c
  else set_cdx_Warnings (cdx_Warnings c ++ [expiry_warning deadline]) c.

(** What a sweep at [nowms] does to a leased Codex with marker [oldWarning]: the changed
    view, the new marker and the warning to raise; [None] when there is nothing to do. *)
Definition lease_step (nowms oldWarning : Z) (view : CurrentView) (c : Codex) : option (CurrentView * Z * option Warning) :=
  let deadline := cdx_ManagedUntilUnixMs c in
  if (deadline <=? nowms) && automaticUnmanageSafe view then
    Some (with_codex unmanaged view, 0, None)
  else if deadline - Milliseconds (leaseWarningBefore cfg) <=? nowms then
    let expiring := with_codex (set_cdx_ManagementState MANAGEMENT_STATE_EXPIRING_SOON) view in
    if bool_decide (oldWarning ≠ deadline) then
      Some (with_codex (warned deadline) expiring, deadline, Some (expiry_warning deadline))
    else if bool_decide (cdx_ManagementState c ≠ MANAGEMENT_STATE_EXPIRING_SOON) then
      Some (expiring, oldWarning, None)
    else None
  else None.

Definition sweepLease (now wall : Z) (codexID : string) : MM unit :=
  found ← gets (λ s, find_view s codexID);
  match found with
  | None => mret tt
  | Some (view, c) =>
      if (bool_decide (cdx_ManagementState c ≠ MANAGEMENT_STATE_MANAGED)
          && bool_decide (cdx_ManagementState c ≠ MANAGEMENT_STATE_EXPIRING_SOON)) || (cdx_ManagedUntilUnixMs c <=? 0)
      then mret tt
      else
        oldWarning ← gets (λ s, get_int (mg_warningDeadline s) codexID);
        match lease_step (UnixMilli now) oldWarning view c with
        | None => mret tt
        | Some (changed, newWarning, warning) =>
            let snapshot := set_cv_GeneratedAtUnixMs (UnixMilli now) changed in
            let '(marker, persist) := match warning with Some _ => (0, true) | None => (newWarning, false) end in
            _ ← commit_lifecycle wall codexID view snapshot oldWarning newWarning "" marker persist;
            match warning with
            | None => mret tt
            | Some w =>
                r ← attempt (publishEvent wall (mkEvent codexID 0 (UnixMilli now) "" None (Some (Event_WarningRaised w))) snapshot);
                match r with
                | Ok _ => mret tt
                | Err e =>
                    if errorsIs e ErrEventCommitOutcomeUnknown then preserveLifecycleState codexID snapshot newWarning false e
                    else preserveLifecycleState codexID snapshot 0 true e
                end
            end
        end
  end.

(** [range_order] is the order in which Go ranges over the map. *)
Definition sweepLeases (range_order : list string → list string) (now wall : Z) : MM unit :=
  ids ← gets (λ s, range_order (map_to_list (mg_byID s)).*1);
  mfor ids (sweepLease now wall).

(** [RunLeaseSweeper]: a sweep at the start and one per tick; each tick gives the range
    order and the time it finds.  A sweep that fails is noted and the loop goes on. *)
Fixpoint RunLeaseSweeper (ticks : list ((list string → list string) * Z * Z)) : MM unit :=
  match ticks with
  | [] => mret tt
  | (range_order, now, wall) :: ticks =>
      r ← attempt (sweepLeases range_order now wall);
      _ ← (match r with Err e => noteAsyncError e | Ok _ => mret tt end);
      RunLeaseSweeper ticks
  end.

(** ** Renaming and forgetting *)

Definition RenameCodex (now wall : Z) (codexID title requestID : string) : MM Codex :=
  if str_empty codexID then throw (rpcErr ERROR_CODE_INVALID_REQUEST "codex id is required") else
  let title := TrimSpace title in
  if str_empty title then throw (rpcErr ERROR_CODE_INVALID_REQUEST "title is required") else
  found ← gets (λ s, find_view s codexID);
  match found with
  | None => throw codex_not_found
  | Some (view, c) =>
      let c := set_cdx_Title title c in
      let snapshot := set_cv_GeneratedAtUnixMs (UnixMilli now) (set_cv_Codex (Some c) view) in
      oldManualTitle ← gets (λ s, get_bool (mg_manualTitle s) codexID);
      _ ← modify (λ s, set_mg_manualTitle (<[codexID := true]> (mg_manualTitle s)) s);
      r ← attempt (persistState snapshot);
      match r with
      | Err e => _ ← modify (λ s, set_mg_manualTitle (<[codexID := oldManualTitle]> (mg_manualTitle s)) s); throw e
      | Ok _ =>
          _ ← put_view codexID snapshot;
          _ ← publishCodex wall c requestID;
          mret c
      end
  end.

(** [delete] when the entry is this Codex's. *)
Definition delete_own (key id : string) (m : gmap string string) : gmap string string :=
  if bool_decide (m !! key = Some id) then delete key m else m.

(** The in-memory half of forgetting. *)
Definition forget_maps (codexID source : string) (c : Codex) (s : MState) : MState :=
  mkMState (mg_events s) (mg_workspaces s) (delete codexID (mg_byID s))
    (delete_own (cdx_ThreadId c) codexID (mg_byThread s))
    (delete_own (sessionKey source (cdx_ThreadId c)) codexID (mg_bySession s))
    (delete codexID (mg_sources s)) (delete codexID (mg_logicalOwners s)) (delete codexID (mg_manualTitle s))
    (delete codexID (mg_warningDeadline s))
    (filter (λ '(key, _), HasPrefix key (codexID +:+ nul)%string = false) (mg_chunks s))
    (filter (λ '(_, id), id ≠ codexID) (mg_workspaceChildCodex s))
    (filter (λ '(child, _), mg_workspaceChildCodex s !! child ≠ Some codexID) (mg_workspaceChildState s)) (mg_asyncError s).

(** [materialized]: the app-server is there and reads the thread. *)
Definition ForgetCodex (wall : Z) (materialized : string → bool) (codexID requestID : string) : MM string :=
  if str_empty codexID then throw (rpcErr ERROR_CODE_INVALID_REQUEST "codex id is required") else
  found ← gets (λ s, find_view s codexID);
  match found with
  | None => throw codex_not_found
  | Some (_, c) =>
      source ← gets (λ s, get_str (mg_sources s) codexID);
      ownerID ← gets (λ s, get_str (mg_logicalOwners s) codexID);
      if bool_decide (cdx_ManagementState c ≠ MANAGEMENT_STATE_UNMANAGED)
      then throw (rpcErr ERROR_CODE_CONFLICT "codex must be unmanaged before it can be forgotten")
      else
        _ ← store (UpsertForgottenSession (mkForgottenSessionRecord source (cdx_ThreadId c) ownerID (cdx_Cwd c)
              (cdx_Title c) "" (CodexOrigin_String (cdx_Origin c)) (cdx_CreatedAtUnixMs c) (cdx_LastActivityAtUnixMs c)
              (materialized (cdx_ThreadId c))));
        _ ← events (Forget wall codexID requestID (Some DeleteCodex) (audit (forgotten_event wall codexID requestID 0)));
        _ ← modify (forget_maps codexID source c);
        _ ← modify (λ s, set_mg_workspaces (Unregister codexID (mg_workspaces s)) s);
        mret codexID
  end.

End Manager.
