(* ===== verification/ManagerTheorems.v ===== *)
(** * Properties of the Codex manager's lifecycle

    What every lifecycle handler leaves in memory and in the database, whatever
    statements, commits or publications fail. *)

From Stdlib Require Import Ascii String.
From stdpp Require Import base tactics numbers list gmap strings pretty.
From S2P Require Import Prelude GoError GoStrings Remote Persistence Activity HostEvents Workspace Budget Manager.
Local Open Scope string_scope.
Local Open Scope Z_scope.
Local Open Scope list_scope.

(** ** The database under the event store *)

Definition adb (a : AStore Store) : DB := st_db (as_persist a).

Section EventStore.
Context `{PJ : ProtoJSON}.

(** A computation that leaves the database alone. *)
Definition reads {A} (m : M (AStore Store) A) : Prop := ∀ a, adb (m a).1 = adb a.

Lemma reads_bind {A B} (m : M (AStore Store) A) (k : A → M (AStore Store) B) :
  reads m → (∀ x, reads (k x)) → reads (m ≫= k).
Proof.
  intros Hm Hk a. unfold mbind, M_bind. specialize (Hm a). destruct (m a) as [a1 [x|e]]; simpl in *; [|done].
  by rewrite Hk.
Qed.

Lemma reads_attempt {A} (m : M (AStore Store) A) : reads m → reads (attempt m).
Proof. intros Hm a. unfold attempt. specialize (Hm a). by destruct (m a). Qed.

Lemma reads_modify f : (∀ a, as_persist (f a) = as_persist a) → reads (modify f).
Proof. intros Hf a. unfold adb, modify. simpl. by rewrite Hf. Qed.

Lemma reads_load id : reads (persist (ep_LoadEventState id)).
Proof.
  intros a. unfold persist, zoom. simpl. destruct (LoadEventState id (as_persist a)) as [p r] eqn:E.
  unfold adb. simpl. unfold LoadEventState in E. by apply sql_query_step in E.
Qed.

Lemma reads_same {A} (m : M (AStore Store) A) : (∀ a, as_persist (m a).1 = as_persist a) → reads m.
Proof. intros H a. unfold adb. by rewrite H. Qed.

Ltac solve_reads :=
  repeat first
    [ apply reads_bind; [|intros]
    | apply reads_attempt | apply reads_load
    | apply reads_modify; intros; done
    | by apply reads_same
    | case_match ].

Lemma loadDurable_reads id st : reads (loadDurable id st).
Proof. unfold loadDurable. solve_reads. Qed.
#[local] Hint Resolve loadDurable_reads : core.

Lemma open_stream_reads id h raw : reads (open_stream id h raw).
Proof. apply reads_same. intros a. unfold open_stream. by destruct (decode_boundary h raw). Qed.
#[local] Hint Resolve open_stream_reads : core.

Lemma ensure_reads id : reads (ensure id).
Proof. unfold ensure. solve_reads; auto; by apply reads_same. Qed.

Lemma reloadUnsafe_reads id st : reads (reloadUnsafe id st).
Proof. unfold reloadUnsafe. solve_reads; auto. Qed.

Lemma reloadUnsafe_ok id st (a : AStore Store) : (reloadUnsafe id st a).2 = Ok tt.
Proof.
  unfold reloadUnsafe, mbind, M_bind, attempt. destruct (loadDurable id _ a) as [a1 [st'|e]]; done.
Qed.

Lemma ReloadDurable_reads id : reads (ReloadDurable id).
Proof.
  unfold ReloadDurable. case_match; [by apply reads_same|]. apply reads_bind.
  { apply reads_same. intros a. unfold cached_or_new. by case_match. }
  intros st. solve_reads; auto.
Qed.

Lemma foldl_persist (g : AStore Store * gmap Z nat → Z * nat → AStore Store * gmap Z nat) l acc :
  (∀ acc w, as_persist (g acc w).1 = as_persist acc.1) → as_persist (foldl g acc l).1 = as_persist acc.1.
Proof. intros Hg. revert acc. induction l as [|w l IH]; intros acc; simpl; [done|]. by rewrite IH, Hg. Qed.

Lemma deliver_persist id st ev view (a : AStore Store) : as_persist (deliver id st ev view a) = as_persist a.
Proof.
  unfold deliver. match goal with |- context [foldl ?g ?acc ?l] => pose proof (foldl_persist g l acc) as E; destruct (foldl g acc l) end.
  simpl in *. apply E. intros [a' ws] [w c]. unfold offer. by repeat case_match.
Qed.

Lemma deliver_last_persist id st ev (a : AStore Store) : as_persist (deliver_last id st ev a) = as_persist a.
Proof.
  unfold deliver_last. match goal with |- context [foldl ?g ?acc ?l] => pose proof (foldl_persist g l acc) as E; destruct (foldl g acc l) end.
  simpl in *. apply E. intros [a' ws] [w c]. unfold terminate. by repeat case_match.
Qed.

(** A publication writes one event with its view, or nothing; it is [unknown] when the
    commit may have happened although it failed. *)
Lemma Publish_db wall ev view audit a a' r :
  Publish wall (Some ev) (Some view) audit a = (a', r) →
  match r with
  | Ok _ => ∃ raw seq, Marshal (MsgView (set_cv_HeadEventSeq seq view)) = Ok raw ∧
              event_applied wall (ev_CodexId ev) raw seq (adb a) (adb a')
  | Err e => adb a' = adb a ∨ ∃ raw seq, errorsIs e ErrEventCommitOutcomeUnknown = true ∧
              Marshal (MsgView (set_cv_HeadEventSeq seq view)) = Ok raw ∧ event_applied wall (ev_CodexId ev) raw seq (adb a) (adb a')
  end.
Proof.
  unfold Publish. destruct (str_empty (ev_CodexId ev)); [intros [= <- <-]; by left|].
  unfold mbind at 1, M_bind at 1. pose proof (ensure_reads (ev_CodexId ev) a) as E1.
  destruct (ensure (ev_CodexId ev) a) as [a1 [st|e]]; simpl in E1; cycle 1.
  { intros [= <- <-]. by left. }
  rewrite <- E1. unfold mbind at 1, M_bind at 1, attempt, persist, zoom. cbn [ep_CommitEvent Store_EventPersistence].
  destruct (CommitEvent wall _ _ _) as [p rc] eqn:Ec. apply CommitEvent_inv in Ec.
  destruct rc as [seq|e].
  - destruct Ec as (raw & Hm & Ha). unfold mbind, M_bind, modify, mret, M_ret. simpl. intros [= <- <-].
    exists raw, seq. split; [done|]. unfold adb. rewrite deliver_persist. by repeat case_match.
  - unfold mbind, M_bind, throw. pose proof (reloadUnsafe_reads (ev_CodexId ev) st (set_as_persist p a1)) as E2.
    pose proof (reloadUnsafe_ok (ev_CodexId ev) st (set_as_persist p a1)) as Hok.
    destruct (reloadUnsafe _ _ _) as [a2 r2]. simpl in *. subst r2. intros [= <- <-]. rewrite E2. unfold adb. simpl.
    destruct Ec as [->|(f & raw & seq & -> & Hb & Ha)]; [by left|]. right. by exists raw, seq.
Qed.

(** Forgetting erases the Codex, or fails with the database as it was or already erased. *)
Lemma Forget_db wall id req audit a a' r :
  Forget wall id req (Some DeleteCodex) audit a = (a', r) →
  match r with
  | Ok _ => adb a' = codex_erased id (adb a) ∧ as_codex a' !! id = None
  | Err _ => adb a' = adb a ∨ adb a' = codex_erased id (adb a)
  end.
Proof.
  unfold Forget. destruct (str_empty id); [intros [= <- <-]; by left|].
  unfold mbind at 1, M_bind at 1. pose proof (ensure_reads id a) as E1.
  destruct (ensure id a) as [a1 [st|e]]; simpl in E1; [|intros [= <- <-]; by left]. rewrite <- E1.
  unfold mbind, M_bind, modify, mret, M_ret, persist, zoom. simpl.
  set (a2 := deliver_last _ _ _ _). assert (as_persist a2 = as_persist a1) as E2.
  { subst a2. rewrite deliver_last_persist. by repeat case_match. }
  destruct (DeleteCodex id (as_persist a2)) as [p rd] eqn:Ed. rewrite E2 in Ed. unfold adb at 1 3 5.
  apply DeleteCodex_inv in Ed as [(_ & Ed & Hr)|[Ed [e ->]]]; rewrite ?Ed.
  - destruct Hr as [-> | [f ->]]; intros [= <- <-]; simpl; [by rewrite Ed, lookup_delete_eq|by right].
  - intros [= <- <-]. left. by simpl.
Qed.
End EventStore.

(** ** Which outcomes a computation has used

    Every statement takes the next outcome of the database. *)

Definition events_left (a : AStore Store) : list outcome := st_oracle (as_persist a).

Lemma pop_left s : st_oracle (pop s).2 `suffix_of` st_oracle s.
Proof. unfold pop. destruct (st_oracle s) eqn:E; simpl; [by rewrite E|]. by apply suffix_cons_r. Qed.

Lemma spends_query {A} (q : DB → res A) : spends st_oracle (sql_query q).
Proof. intros s. unfold sql_query. pose proof (pop_left s). by destruct (pop s) as [[] ?]. Qed.

Lemma spends_exec {A} (w : DB → res (DB * A)) : spends st_oracle (sql_exec w).
Proof. intros s. unfold sql_exec. pose proof (pop_left s). destruct (pop s) as [[|f []] ?]; by repeat case_match. Qed.

Lemma spends_tx_exec {A} (w : DB → res (DB * A)) : spends st_oracle (tx_exec w).
Proof. intros s. unfold tx_exec. pose proof (pop_left s). destruct (pop s) as [[|f b] ?]; by repeat case_match. Qed.

Lemma spends_with_tx {A} wrap (body : M Store (txend A)) : spends st_oracle body → spends st_oracle (with_tx wrap body).
Proof.
  intros Hb s. unfold with_tx. pose proof (pop_left s) as H. destruct (pop s) as [[|f b] s0]; [|done]. simpl in H.
  specialize (Hb s0). destruct (body s0) as [s1 [[a|r]|e]]; simpl in *; [|by etrans..].
  pose proof (pop_left s1) as H1. destruct (pop s1) as [[|f []] s2]; simpl in *; (etrans; [exact H1|]; by etrans).
Qed.

Lemma spends_persist {A} (m : M Store A) : spends st_oracle m → spends events_left (persist m).
Proof. intros Hm a. unfold persist, zoom, events_left. specialize (Hm (as_persist a)). by destruct (m (as_persist a)). Qed.

Ltac solve_spends :=
  repeat first
    [ apply spends_bind; [|intros]
    | apply spends_attempt | apply spends_persist
    | apply spends_query | apply spends_tx_exec | apply spends_exec | apply spends_with_tx
    | by apply spends_same
    | case_match ].

Section Spending.
Context `{PJ : ProtoJSON}.

Lemma ensure_spends id : spends events_left (ensure (P := Store) id).
Proof.
  unfold ensure, loadDurable. solve_spends. apply spends_same. intros ?. unfold open_stream. by destruct (decode_boundary _ _).
Qed.

Lemma Publish_spends wall ev view audit : spends events_left (Publish (P := Store) wall ev view audit).
Proof.
  unfold Publish. case_match; [|by apply spends_same]. case_match; [by apply spends_same|]. case_match; [|by apply spends_same].
  apply spends_bind; [apply ensure_spends|intros st]. apply spends_bind.
  - apply spends_attempt, spends_persist. cbn [ep_CommitEvent Store_EventPersistence]. unfold CommitEvent. solve_spends.
  - intros r. unfold reloadUnsafe, loadDurable. solve_spends.
    + apply spends_same. intros ?. unfold record_audit, modify, events_left. simpl. by repeat case_match.
    + apply spends_same. intros ?. unfold events_left. simpl. by rewrite deliver_persist.
Qed.

Lemma ReloadDurable_spends id : spends events_left (ReloadDurable (P := Store) id).
Proof.
  unfold ReloadDurable, loadDurable. solve_spends. apply spends_same. intros ?. unfold cached_or_new. by case_match.
Qed.
End Spending.

(** ** What handlers change *)

Definition mdb (s : MState) : DB := adb (mg_events s).

(** Everything in memory but the views, the markers and the degradation note. *)
Definition rest (s : MState) :=
  (mg_workspaces s, mg_byThread s, mg_bySession s, mg_sources s, mg_logicalOwners s, mg_manualTitle s, mg_chunks s,
   mg_workspaceChildCodex s, mg_workspaceChildState s).

(** [s'] is [s] with Codex [id] shown as [v] and its warning marker [w]. *)
Definition shows (s s' : MState) (id : string) (v : CurrentView) (w : Z) : Prop :=
  mg_byID s' = <[id := v]> (mg_byID s) ∧
  (∀ k, get_int (mg_warningDeadline s') k = if decide (k = id) then w else get_int (mg_warningDeadline s) k) ∧
  rest s' = rest s.

(** Codex [id] is durable as [v] with marker [w]: its row carries the columns of [v], and
    its stored view is [v] stamped with its event head. *)
Definition durable `{PJ : ProtoJSON} (s : MState) (id : string) (v : CurrentView) (w : Z) : Prop :=
  ∃ c r seq, cv_Codex v = Some c ∧ db_codexes (mdb s) !! id = Some r ∧ db_event_heads (mdb s) !! id = Some seq ∧
    Marshal (MsgView (set_cv_HeadEventSeq seq v)) = Ok (cr_CurrentViewJSON r) ∧
    cr_ManagementState r = ManagementState_String (cdx_ManagementState c) ∧
    cr_ManagedUntilUnixMS r = cdx_ManagedUntilUnixMs c ∧ cr_Title r = cdx_Title c ∧
    cr_Status r = CodexStatus_String (cdx_Status c) ∧ cr_WarningDeadlineUnixMS r = w.

(** The row of Codex [id] carries the columns of [v]. *)
Definition row_shows (s : MState) (id : string) (v : CurrentView) : Prop :=
  ∃ c r, cv_Codex v = Some c ∧ db_codexes (mdb s) !! id = Some r ∧
    cr_ManagementState r = ManagementState_String (cdx_ManagementState c) ∧
    cr_ManagedUntilUnixMS r = cdx_ManagedUntilUnixMs c ∧ cr_Title r = cdx_Title c ∧
    cr_Status r = CodexStatus_String (cdx_Status c).

(** The outcomes of the database not used yet. *)
Definition mleft (s : MState) : list outcome := events_left (mg_events s).

Lemma str_empty_false x : x ≠ "" → str_empty x = false.
Proof. intros. by apply bool_decide_false. Qed.

Lemma get_int_insert m k d j : get_int (<[k := d]> m) j = if decide (j = k) then d else get_int m j.
Proof. unfold get_int. rewrite lookup_insert. repeat case_decide; simplify_eq; done. Qed.

Lemma find_view_Some s id v c : find_view s id = Some (v, c) ↔ mg_byID s !! id = Some v ∧ cv_Codex v = Some c.
Proof.
  unfold find_view. destruct (mg_byID s !! id) as [v'|]; simpl; [|naive_solver].
  destruct (cv_Codex v') eqn:E; simpl; split; intros; destruct_and?; simplify_eq; done.
Qed.

Section Lifecycle.
Context `{PJ : ProtoJSON} (cfg : ManagerConfig) (audit : Event → option string).

(** The row [persistState] writes. *)
Definition state_row (s : MState) (c : Codex) (raw : string) : CodexRecord :=
  set_cr_CurrentViewJSON raw (set_cr_WarningDeadlineUnixMS (get_int (mg_warningDeadline s) (cdx_CodexId c))
    (set_cr_ManualTitleOverride (get_bool (mg_manualTitle s) (cdx_CodexId c))
      (set_cr_LogicalOwnerID (get_str (mg_logicalOwners s) (cdx_CodexId c))
        (recordFromCodex c (get_str (mg_sources s) (cdx_CodexId c)))))).

(** The database of [s] after the row of [c] was written with view [raw] and marker [w]. *)
Definition written (s : MState) (c : Codex) (raw : string) (w : Z) : DB :=
  let row := set_cr_WarningDeadlineUnixMS w (state_row s c raw) in
  set_db_codexes (<[cdx_CodexId c := set_cr_CreatedAtUnixMS
      (match db_codexes (mdb s) !! cdx_CodexId c with Some old => cr_CreatedAtUnixMS old | None => cdx_CreatedAtUnixMs c end)
      (set_cr_SessionSource (normalizeSessionSource (cr_SessionSource row)) row)]> (db_codexes (mdb s))) (mdb s).

(** Whether another Codex has the session of [c]. *)
Definition taken (s : MState) (c : Codex) : bool :=
  session_taken (mdb s) (cdx_CodexId c) (normalizeSessionSource (normalizeSourceString (get_str (mg_sources s) (cdx_CodexId c))))
    (cdx_ThreadId c).

(** All that [persistState] can do: write the row; fail before or because of the one
    statement, with nothing written; or write it although the statement reports a fault. *)
Lemma persistState_out v c s s' r :
  cv_Codex v = Some c → persistState v s = (s', r) →
  ∃ p, s' = set_mg_events (set_as_persist p (mg_events s)) s ∧ st_oracle p `suffix_of` mleft s ∧
    let db := λ raw, written s c raw (get_int (mg_warningDeadline s) (cdx_CodexId c)) in
    match r with
    | Ok _ => ∃ raw, Marshal (MsgView v) = Ok raw ∧ st_db p = db raw ∧ taken s c = false
    | Err e =>
        st_db p = mdb s ∧ (Marshal (MsgView v) = Err e ∨ taken s c = true ∨ ∃ f b, e = fault_err f ∧ mleft s = Bad f b :: st_oracle p) ∨
        ∃ raw f, Marshal (MsgView v) = Ok raw ∧ e = fault_err f ∧ mleft s = Bad f true :: st_oracle p ∧ st_db p = db raw
    end.
Proof.
  intros Hc. unfold persistState. rewrite Hc. unfold mbind, M_bind, of_res. destruct (Marshal (MsgView v)) as [raw|e] eqn:Em; cycle 1.
  { intros [= <- <-]. exists (as_persist (mg_events s)). split; [by destruct s as [[] ]|]. split; [done|]. left. auto. }
  unfold gets, store, zoom. fold (state_row s c raw). cbv zeta.
  unfold UpsertCodex, sql_exec, pop. cbv beta zeta. unfold written, taken, mleft, events_left, mdb, adb.
  destruct (as_persist (mg_events s)) as [d o]. cbn [st_db st_oracle].
  change (cr_CodexID (set_cr_SessionSource _ _)) with (cdx_CodexId c). change (cr_ThreadID (set_cr_SessionSource _ _)) with (cdx_ThreadId c).
  change (cr_SessionSource (set_cr_SessionSource ?x _)) with x.
  change (cr_SessionSource (state_row s c raw)) with (normalizeSourceString (get_str (mg_sources s) (cdx_CodexId c))).
  destruct o as [|[|f b] o]; cbn [st_db st_oracle set_st_db]; destruct (session_taken _ _ _ _) eqn:Et.
  - intros [= <- <-]. eexists. split; [done|]. split; [done|]. left. auto.
  - intros [= <- <-]. eexists. split; [done|]. split; [done|]. exists raw. split; [done|]. split; [|done]. simpl. by case_match.
  - intros [= <- <-]. eexists. split; [done|]. split; [by apply suffix_cons_r|]. left. auto.
  - intros [= <- <-]. eexists. split; [done|]. split; [by apply suffix_cons_r|]. exists raw. split; [done|]. split; [|done]. simpl. by case_match.
  - assert (∀ x : goerr, (if b then x else x) = x) by by destruct b.
    intros H'. assert (s' = set_mg_events (set_as_persist (mkStore d o) (mg_events s)) s ∧ r = Err (fault_err f)) as [-> ->] by (by destruct b; injection H' as <- <-).
    eexists. split; [done|]. split; [by apply suffix_cons_r|]. left. auto.
  - destruct b; intros [= <- <-]; (eexists; split; [done|]; split; [by apply suffix_cons_r|]).
    + right. exists raw, f. split_and!; try done. simpl. by case_match.
    + left. split; [done|]. right. right. eauto.
Qed.

(** [persistState] only writes the row of the Codex. *)
Lemma persistState_full v s s' r :
  persistState v s = (s', r) →
  ∃ p, s' = set_mg_events (set_as_persist p (mg_events s)) s ∧
    match r with
    | Ok _ => ∃ c raw source created, cv_Codex v = Some c ∧ Marshal (MsgView v) = Ok raw ∧
        st_db p = set_db_codexes (<[cdx_CodexId c := set_cr_CreatedAtUnixMS created
                    (set_cr_SessionSource source (state_row s c raw))]> (db_codexes (mdb s))) (mdb s)
    | Err _ => True
    end.
Proof.
  unfold persistState. destruct (cv_Codex v) as [c|] eqn:Ec; cycle 1.
  { intros [= <- <-]. exists (as_persist (mg_events s)). split; [by destruct s as [[] ]|done]. }
  unfold mbind, M_bind, of_res. destruct (Marshal (MsgView v)) as [raw|e] eqn:Em; cycle 1.
  { intros [= <- <-]. exists (as_persist (mg_events s)). split; [by destruct s as [[] ]|done]. }
  unfold gets, store, zoom. fold (state_row s c raw).
  destruct (UpsertCodex (state_row s c raw) (as_persist (mg_events s))) as [p ru] eqn:Eu.
  intros [= <- <-]. exists p. split; [done|]. destruct ru as [[]|e]; [|done].
  apply sql_exec_inv in Eu as [([] & _ & Hw)|(e & [=] & _)].
  cbv beta zeta in Hw. case_match; [done|]. injection Hw as Hw. rewrite <- Hw.
  exists c, raw, (normalizeSessionSource (cr_SessionSource (state_row s c raw))).
  unfold mdb, adb. simpl. destruct (db_codexes (st_db (as_persist (mg_events s))) !! cdx_CodexId c) as [old|].
  - by exists (cr_CreatedAtUnixMS old).
  - by exists (cdx_CreatedAtUnixMs c).
Qed.

Lemma persistState_spec v s s' r :
  persistState v s = (s', r) →
  ∃ p, s' = set_mg_events (set_as_persist p (mg_events s)) s ∧
    match r with
    | Ok _ => ∃ c raw source created, cv_Codex v = Some c ∧
        st_db p = set_db_codexes (<[cdx_CodexId c := set_cr_CreatedAtUnixMS created
                    (set_cr_SessionSource source (state_row s c raw))]> (db_codexes (mdb s))) (mdb s)
    | Err _ => True
    end.
Proof.
  intros (p & Hs & H)%persistState_full. exists p. split; [done|]. destruct r; [|done].
  destruct H as (c & raw & source & created & Hc & _ & Hp). by exists c, raw, source, created.
Qed.

(** A published event appears in the row of its Codex, next to the unchanged columns. *)
Lemma publishEvent_spec wall ev view s s' r :
  publishEvent audit wall ev view s = (s', r) →
  ∃ a, s' = set_mg_events a s ∧
    match r with
    | Ok _ => ∃ raw seq, Marshal (MsgView (set_cv_HeadEventSeq seq view)) = Ok raw ∧
                event_applied wall (ev_CodexId ev) raw seq (mdb s) (adb a)
    | Err e => adb a = mdb s ∨ ∃ raw seq, errorsIs e ErrEventCommitOutcomeUnknown = true ∧
                Marshal (MsgView (set_cv_HeadEventSeq seq view)) = Ok raw ∧ event_applied wall (ev_CodexId ev) raw seq (mdb s) (adb a)
    end.
Proof.
  unfold publishEvent, events, zoom. destruct (Publish _ _ _ _ _) as [a rp] eqn:E. intros [= <- <-].
  apply Publish_db in E. exists a. split; [done|]. by destruct rp.
Qed.

Lemma boundCanonicalEvent_id b e : ev_CodexId (boundCanonicalEvent b e) = ev_CodexId e.
Proof.
  unfold boundCanonicalEvent, on_payload. repeat case_match; simplify_eq/=; done.
Qed.

Lemma publishCodex_spec wall c req v s s' r :
  mg_byID s !! cdx_CodexId c = Some v → publishCodex cfg audit wall c req s = (s', r) →
  ∃ a, s' = set_mg_events a s ∧
    match r with
    | Ok _ => ∃ raw seq, Marshal (MsgView (set_cv_HeadEventSeq seq v)) = Ok raw ∧
                event_applied wall (cdx_CodexId c) raw seq (mdb s) (adb a)
    | Err e => adb a = mdb s ∨ ∃ raw seq, errorsIs e ErrEventCommitOutcomeUnknown = true ∧
                event_applied wall (cdx_CodexId c) raw seq (mdb s) (adb a)
    end.
Proof.
  intros Hv. unfold publishCodex, mbind, M_bind, gets. rewrite Hv.
  destruct (publishEvent _ _ _ _ s) as [s1 rp] eqn:E. apply publishEvent_spec in E as (a & -> & H).
  rewrite boundCanonicalEvent_id in H. destruct rp as [ev|e]; intros [= <- <-]; exists a; [done|]. split; [done|].
  destruct H as [?|(raw&seq&?&_&?)]; [by left|right; eauto].
Qed.

Lemma publishCodex_spends wall c req : spends mleft (publishCodex cfg audit wall c req).
Proof.
  unfold publishCodex. apply spends_bind; [by apply spends_same|]. intros [v|]; [|by apply spends_same].
  apply spends_bind; [|by intros; apply spends_same]. unfold publishEvent, events, zoom, mleft. intros s.
  match goal with |- context [Publish ?w ?e ?x ?y ?st] => pose proof (Publish_spends w e x y st) as H; destruct (Publish w e x y st) end. done.
Qed.

(** [s] with Codex [id] shown as [v] and marker [w], and any event store and note. *)
Definition shown (s : MState) (id : string) (v : CurrentView) (w : Z) (a : AStore Store) (note : string) : MState :=
  set_mg_asyncError note (set_mg_events a (set_mg_byID (<[id := v]> (mg_byID s))
    (set_mg_warningDeadline (<[id := w]> (mg_warningDeadline s)) s))).

Lemma shown_shows s id v w a note : shows s (shown s id v w a note) id v w.
Proof. split; [done|]. split; [|done]. intros k. simpl. apply get_int_insert. Qed.

(** Compare states field by field. *)
Ltac same_state :=
  unfold shown; cbv [set_mg_asyncError set_mg_events set_mg_byID set_mg_warningDeadline set_mg_manualTitle set_mg_workspaces];
  cbn [mg_events mg_workspaces mg_byID mg_byThread mg_bySession mg_sources mg_logicalOwners mg_manualTitle
       mg_warningDeadline mg_chunks mg_workspaceChildCodex mg_workspaceChildState mg_asyncError]; reflexivity.

(** Both ways of ending a failed publication report an error that contains it. *)
Lemma events_frame {A} (m : M (AStore Store) A) s s' r : events m s = (s', r) → ∃ a, s' = set_mg_events a s.
Proof. unfold events, zoom. destruct (m (mg_events s)). intros [= <- <-]. eauto. Qed.

(** Rolling back writes the old row again; only when the database refuses that too, or
    the old view has no encoding, what is there stays, and the error says so. *)
Lemma rollbackLifecycle_spec id v c w e s s' r :
  cv_Codex v = Some c → cdx_CodexId c = id → taken s c = false → rollbackLifecycleState id v w e s = (s', r) →
  ∃ a note e', s' = shown s id v w a note ∧ r = Err e' ∧
    ((∃ raw, Marshal (MsgView v) = Ok raw ∧ adb a = written s c raw w) ∨
     adb a = mdb s ∧ ∃ e1, e' = ErrJoin e (ErrWrapped "rollback lifecycle state: " e1 "") ∧ note = error_text e' ∧
       (Marshal (MsgView v) = Err e1 ∨ ∃ f b, e1 = fault_err f ∧ mleft s = Bad f b :: events_left a)).
Proof.
  intros Hc Hid Ht. unfold rollbackLifecycleState, mbind, M_bind, attempt, put_deadline, put_view, modify, throw.
  set (s0 := set_mg_byID _ _). destruct (persistState v s0) as [s1 r1] eqn:E1.
  apply (persistState_out v c) in E1 as (p & -> & _ & H1); [|done].
  assert (∀ raw, written s0 c raw (get_int (mg_warningDeadline s0) (cdx_CodexId c)) = written s c raw w) as Hw.
  { intros raw. unfold s0. simpl. rewrite get_int_insert, decide_True by done. reflexivity. }
  change (taken s0 c) with (taken s c) in H1. change (mdb s0) with (mdb s) in H1. change (mleft s0) with (mleft s) in H1.
  cbv zeta in H1. destruct r1 as [[]|e1]; cycle 1.
  { intros [= <- <-]. eexists _, _, _. split; [same_state|]. split; [done|].
    destruct H1 as [[Hdb He]|(raw&f&Hm&->&Ho&Hdb)]; [right|left; rewrite Hw in Hdb; eauto].
    split; [done|]. exists e1. split; [done|]. split; [done|]. destruct He as [?|[?|?]]; [by left|congruence|by right]. }
  destruct H1 as (raw&Hm&Hdb&_). rewrite Hw in Hdb.
  destruct (events _ _) as [s2 r2] eqn:E2. unfold events, zoom in E2.
  match type of E2 with context [ReloadDurable id ?st] => pose proof (ReloadDurable_reads id st) as Hr; destruct (ReloadDurable id st) as [a r3] end.
  simpl in Hr. injection E2 as <- <-.
  destruct r3 as [[]|e2]; intros [= <- <-]; eexists _, _, _; (split; [same_state|]); (split; [done|]); left; exists raw; by rewrite Hr.
Qed.

Lemma written_shows s s' v c raw w : cv_Codex v = Some c → mdb s' = written s c raw w → row_shows s' (cdx_CodexId c) v.
Proof. intros Hc E. unfold row_shows. rewrite E. simpl. exists c. eexists. rewrite lookup_insert_eq. by split_and!. Qed.

Lemma event_keeps_row s s' id v wall raw seq : event_applied wall id raw seq (mdb s) (mdb s') → row_shows s id v → row_shows s' id v.
Proof.
  intros (r & Hr & _ & _ & _ & Ha) (c & r' & Hc & Hr' & H). simplify_eq. exists c. unfold row_shows. rewrite Ha. simpl.
  eexists. rewrite lookup_insert_eq. split; [done|]. split; [done|]. exact H.
Qed.

Lemma row_shows_db s s' id v : mdb s' = mdb s → row_shows s id v → row_shows s' id v.
Proof. unfold row_shows. by intros ->. Qed.

Lemma preserveLifecycle_spec id v w persist e s s' r :
  preserveLifecycleState id v w persist e s = (s', r) →
  ∃ a note e', s' = shown s id v w a note ∧ r = Err e' ∧ (∀ x, errorsIs e x = true → errorsIs e' x = true) ∧
    (∀ c, cv_Codex v = Some c → cdx_CodexId c = id → row_shows s id v → row_shows s' id v).
Proof.
  unfold preserveLifecycleState, mbind, M_bind, attempt, put_deadline, put_view, modify, throw. set (s0 := set_mg_byID _ _).
  match goal with |- context [(if persist then ?x else ?y) ?st] => destruct ((if persist then x else y) st) as [s1 r1] eqn:E1 end.
  assert (∃ a, s1 = set_mg_events a s0 ∧
    (∀ c, cv_Codex v = Some c → cdx_CodexId c = id → row_shows s id v → row_shows s1 id v)) as (a1 & -> & Hrow).
  { destruct persist; [|injection E1 as <- _; by exists (mg_events s)].
    pose proof (persistState_spec _ _ _ _ E1) as (p & -> & _). eexists. split; [done|]. intros c Hc <- Hs.
    apply (persistState_out v c) in E1 as (p' & Ep & _ & H); [|done]. injection Ep as <-. cbv zeta in H.
    destruct r1 as [u|e1]; [destruct H as (raw&_&Hdb&_)|destruct H as [[Hdb _]|(raw&f&_&_&_&Hdb)]].
    - by eapply (written_shows s0).
    - by apply (row_shows_db s).
    - by eapply (written_shows s0). }
  destruct r1 as [[]|e1]; cycle 1.
  { intros [= <- <-]. eexists _, _, _. split; [same_state|]. split; [done|]. split; [intros x Hx; simpl; by rewrite Hx|exact Hrow]. }
  destruct (events _ _) as [s2 r2] eqn:E2. unfold events, zoom in E2.
  match type of E2 with context [ReloadDurable id ?st] => pose proof (ReloadDurable_reads id st) as Hr; destruct (ReloadDurable id st) as [a r3] end.
  simpl in Hr. injection E2 as <- <-.
  destruct r3 as [[]|e2]; intros [= <- <-]; eexists _, _, _; (split; [same_state|]); (split; [done|]); (split; [intros x Hx; simpl; by rewrite ?Hx|]);
    intros c Hc Hid Hs; (eapply row_shows_db; [|by apply (Hrow c)]); exact Hr.
Qed.

(** Persisting a view and then publishing it makes it durable with its marker. *)
Lemma durable_published s id v c w wall created source raw0 p a raw seq :
  cv_Codex v = Some c → cdx_CodexId c = id → get_int (mg_warningDeadline s) id = w →
  st_db p = set_db_codexes (<[id := set_cr_CreatedAtUnixMS created
              (set_cr_SessionSource source (state_row s c raw0))]> (db_codexes (mdb s))) (mdb s) →
  Marshal (MsgView (set_cv_HeadEventSeq seq v)) = Ok raw →
  event_applied wall id raw seq (st_db p) (adb a) →
  ∀ s', mg_events s' = a → durable s' id v w.
Proof.
  intros Hc Hid Hw Hp Hm (r & Hr & _ & _ & _ & Ha) s' Hs'. rewrite Hp in Hr. simpl in Hr.
  rewrite lookup_insert_eq in Hr. injection Hr as <-. exists c. unfold durable, mdb. rewrite Hs', Ha. simpl.
  rewrite !lookup_insert_eq. eexists _, _. split_and!; try done. simpl. by rewrite Hid.
Qed.

(** The parts of a Codex no lifecycle handler touches. *)
Definition same_session (c c' : Codex) : Prop :=
  cdx_CodexId c' = cdx_CodexId c ∧ cdx_ThreadId c' = cdx_ThreadId c ∧ cdx_CreatedAtUnixMs c' = cdx_CreatedAtUnixMs c.

(** The database after a refused change from [v] with marker [w] to [snap] with marker
    [new]: as it was; or with the row of [v] written again; or with the row of [snap], but
    only when its statement was applied although the driver reported a fault, or when the
    rollback could not write the old row, because it has no encoding or because its
    statement, the last one, failed; then the error says so and is kept as a degradation. *)
Definition refused_db (s s' : MState) (v snap : CurrentView) (w new : Z) (e : goerr) : Prop :=
  mdb s' = mdb s ∨
  (∃ c raw, cv_Codex v = Some c ∧ Marshal (MsgView v) = Ok raw ∧ mdb s' = written s c raw w) ∨
  ∃ c raw, cv_Codex snap = Some c ∧ Marshal (MsgView snap) = Ok raw ∧ mdb s' = written s c raw new ∧
    ((∃ f, e = fault_err f ∧ mleft s = Bad f true :: mleft s') ∨
     ∃ e0 e1, e = ErrJoin e0 (ErrWrapped "rollback lifecycle state: " e1 "") ∧ mg_asyncError s' = error_text e ∧
       (Marshal (MsgView v) = Err e1 ∨ ∃ used f b, e1 = fault_err f ∧ mleft s = used ++ Bad f b :: mleft s')).

Lemma session_taken_own d id row source thread :
  session_taken (set_db_codexes (<[id := row]> (db_codexes d)) d) id source thread = session_taken d id source thread.
Proof.
  unfold session_taken. apply bool_decide_ext. simpl. split; intros (k&r&Hk&Hne&H); exists k, r; (split; [|done]).
  - by rewrite lookup_insert_ne in Hk.
  - by rewrite lookup_insert_ne.
Qed.

(** Writing the row of the same Codex twice is writing it once. *)
Lemma written_again s s1 c c' raw raw' w w' :
  same_session c c' → mdb s1 = written s c' raw w → rest s1 = rest s → written s1 c raw' w' = written s c raw' w'.
Proof.
  intros (E1&E2&E3) Hdb Hr. unfold written. rewrite Hdb.
  unfold rest in Hr. injection Hr as R1 R2 R3 R4 R5 R6 R7 R8 R9. unfold state_row. rewrite R4, R5, R6. unfold written. simpl. rewrite E1.
  rewrite lookup_insert_eq, insert_insert_eq, E3. simpl. by destruct (db_codexes (mdb s) !! cdx_CodexId c).
Qed.

Lemma commit_lifecycle_spec wall id v snap c0 c old new req marker persist s s' r :
  mg_byID s !! id = Some v → cv_Codex v = Some c0 → cv_Codex snap = Some c → same_session c0 c → cdx_CodexId c0 = id →
  get_int (mg_warningDeadline s) id = old →
  commit_lifecycle cfg audit wall id v snap old new req marker persist s = (s', r) →
  match r with
  | Ok _ => ∃ a, s' = shown s id snap new a (mg_asyncError s) ∧ durable s' id snap new
  | Err e => shows s s' id v old ∧ refused_db s s' v snap old new e ∨
             errorsIs e ErrEventCommitOutcomeUnknown = true ∧ shows s s' id snap marker ∧ row_shows s' id snap
  end.
Proof.
  intros Hv Hc0 Hc Hsame Hid0 Hold. pose proof Hsame as (Hid&Hth&_). rewrite Hid0 in Hid.
  unfold commit_lifecycle, mbind, M_bind, attempt, put_deadline, put_view, modify, throw.
  set (s1 := set_mg_warningDeadline _ s). destruct (persistState snap s1) as [s2 r1] eqn:E1.
  pose proof (persistState_spec _ _ _ _ E1) as (p0 & Ep0 & H1).
  apply (persistState_out snap c) in E1 as (p & -> & Hleft & H2); [|done]. injection Ep0 as <-. cbv zeta in H2.
  assert (∀ raw, written s1 c raw (get_int (mg_warningDeadline s1) (cdx_CodexId c)) = written s c raw new) as Hwr.
  { intros raw. unfold s1. simpl. rewrite get_int_insert, decide_True by done. reflexivity. }
  destruct r1 as [[]|e]; cycle 1.
  { intros [= <- <-]. left. split.
    - split; [simpl; by rewrite insert_id|]. split; [|done]. intros k. simpl. rewrite insert_insert_eq. apply get_int_insert.
    - destruct H2 as [[Hdb _]|(raw&f&Hm&->&Ho&Hdb)]; [by left|]. right. right. exists c, raw. rewrite Hwr in Hdb. split_and!; try done.
      left. by exists f. }
  destruct H1 as (c' & raw0 & source & created & Hc' & Hp). simplify_eq. rewrite Hc. destruct H2 as (raw1&Hm1&Hdb1&Ht). rewrite Hwr in Hdb1.
  set (s3 := set_mg_byID _ _). destruct (publishCodex _ _ _ _ _ s3) as [s4 r2] eqn:E2.
  pose proof (publishCodex_spends wall c req s3) as Hsp. rewrite E2 in Hsp. simpl in Hsp.
  apply (publishCodex_spec _ _ _ snap) in E2 as (a & -> & H2); [|subst s3; simpl; by rewrite Hid, lookup_insert_eq].
  assert (row_shows s3 (cdx_CodexId c) snap) as Hrow3 by by eapply (written_shows s s3 snap c raw1 new).
  rewrite Hid in H2, Hrow3. destruct r2 as [[]|e].
  - intros [= <- <-]. exists a. split; [unfold shown; subst s3 s1; by destruct s|].
    destruct H2 as (raw & seq & Hm & Ha).
    eapply (durable_published s1 _ snap c new wall created source raw0 p a raw seq); try done; [|by rewrite <-Hid].
    subst s1. simpl. rewrite get_int_insert. by case_decide.
  - destruct (errorsIs e ErrEventCommitOutcomeUnknown) eqn:Eu.
    + intros (a' & note & e' & -> & -> & He & Hrow)%preserveLifecycle_spec. right. split; [auto|]. split.
      * subst s3 s1. split; [simpl; by rewrite insert_insert_eq|]. split; [|done].
        intros k. simpl. rewrite insert_insert_eq. apply get_int_insert.
      * apply (Hrow c); [done|done|]. destruct H2 as [H2|(raw&seq&_&Ha)]; [by apply (row_shows_db s3)|by eapply (event_keeps_row s3)].
    + destruct H2 as [H2|(raw&seq&?&_)]; [|congruence]. intros H3.
      assert (mdb (set_mg_events a s3) = written s c raw1 new) as Hdb3 by (transitivity (st_db p); [exact H2|exact Hdb1]).
      apply (rollbackLifecycle_spec _ _ c0) in H3 as (a' & note & e' & -> & -> & Hrb); [|done|done|].
      2: { unfold taken. rewrite Hdb3. unfold written. cbv zeta. rewrite Hid, session_taken_own.
           unfold taken in Ht. rewrite Hid in Ht. rewrite <-Hth. exact Ht. }
      left. split.
      * subst s3 s1. split; [simpl; by rewrite insert_insert_eq|]. split; [|done].
        intros k. simpl. rewrite insert_insert_eq. apply get_int_insert.
      * destruct Hrb as [(raw&Hm&Hdb)|[Hdb (e1&->&Hn&He1)]].
        -- right. left. exists c0, raw. split; [done|]. split; [done|]. erewrite written_again in Hdb; [exact Hdb|exact Hsame|exact Hdb3|done].
        -- right. right. exists c, raw1. split; [done|]. split; [done|]. split; [by rewrite <-Hdb3, <-Hdb|]. right.
           exists e, e1. split; [done|]. split; [exact Hn|]. destruct He1 as [?|(f&b&->&Hl)]; [by left|right].
           assert (mleft (set_mg_events a s3) `suffix_of` mleft s) as [used Hu] by (etrans; [exact Hsp|exact Hleft]).
           exists used, f, b. split; [done|]. rewrite Hu, Hl. done.
Qed.

(** What a lifecycle transition from [v] to [snap] may leave: on success the new view in
    memory and in the database; after an error the old one, or the new one if the error
    says that the outcome is unknown. *)
Definition transition (s s' : MState) (id : string) (v snap : CurrentView) (new marker : Z) {A} (r : res A) : Prop :=
  match r with
  | Ok _ => shows s s' id snap new ∧ durable s' id snap new
  | Err e => let old := get_int (mg_warningDeadline s) id in
             shows s s' id v old ∧ refused_db s s' v snap old new e ∨
             errorsIs e ErrEventCommitOutcomeUnknown = true ∧ shows s s' id snap marker ∧ row_shows s' id snap
  end.

Lemma commit_transition wall id v snap c0 c new req marker persist s s' r :
  mg_byID s !! id = Some v → cv_Codex v = Some c0 → cv_Codex snap = Some c → same_session c0 c → cdx_CodexId c0 = id →
  commit_lifecycle cfg audit wall id v snap (get_int (mg_warningDeadline s) id) new req marker persist s = (s', r) →
  transition s s' id v snap new marker r.
Proof.
  intros Hv Hc0 Hc Hs Hid H. apply (commit_lifecycle_spec wall id v snap c0 c) in H; try done.
  destruct r as [[]|e]; [|done]. destruct H as (a & -> & Hd). split; [apply shown_shows|done].
Qed.

(** The view a handler commits. *)
Definition stamped (now : Z) (f : Codex → Codex) (v : CurrentView) : CurrentView :=
  set_cv_GeneratedAtUnixMs (UnixMilli now) (with_codex f v).

(** Something is going on in the Codex [c] shown by [v]. *)
Definition working (v : CurrentView) (c : Codex) : Prop :=
  cdx_Status c ∈ [CODEX_STATUS_RUNNING; CODEX_STATUS_WAITING_FOR_APPROVAL; CODEX_STATUS_WAITING_FOR_USER_INPUT;
                  CODEX_STATUS_INTERRUPTING] ∨
  cdx_ActiveTurnId c ≠ "" ∨ cv_ActiveTurn v ≠ None ∨ cv_PendingRequests v ≠ [].

Lemma busy_working v c : cv_Codex v = Some c → manualUnmanageBusy v = true ↔ working v c.
Proof.
  intros Hc. unfold manualUnmanageBusy, working. rewrite Hc.
  assert (∀ b, b = negb (str_empty (cdx_ActiveTurnId c)) || bool_decide (cv_ActiveTurn v ≠ None)
             || bool_decide (zlen (cv_PendingRequests v) ≠ 0) →
          b = true ↔ cdx_ActiveTurnId c ≠ "" ∨ cv_ActiveTurn v ≠ None ∨ cv_PendingRequests v ≠ []) as Hb.
  { intros b ->. rewrite !orb_true_iff, negb_true_iff, !bool_decide_eq_true. unfold str_empty. rewrite bool_decide_eq_false.
    assert (zlen (cv_PendingRequests v) ≠ 0 ↔ cv_PendingRequests v ≠ []) as -> by (destruct (cv_PendingRequests v); unfold zlen; simpl; naive_solver lia).
    tauto. }
  destruct (cdx_Status c); rewrite ?(Hb _ eq_refl); set_solver.
Qed.

(** Nothing is going on, and the Codex is idle. *)
Definition quiescent (v : CurrentView) (c : Codex) : Prop :=
  cdx_Status c = CODEX_STATUS_IDLE ∧ cdx_ActiveTurnId c = "" ∧ cv_ActiveTurn v = None ∧ cv_PendingRequests v = [].

#[export] Instance quiescent_dec v c : Decision (quiescent v c).
Proof.
  unfold quiescent. apply and_dec; [apply _|]. apply and_dec; [apply _|].
  apply and_dec; [destruct (cv_ActiveTurn v); [by right|by left]|destruct (cv_PendingRequests v); [by left|by right]].
Defined.

Lemma safe_quiescent v c : cv_Codex v = Some c → automaticUnmanageSafe v = true ↔ quiescent v c.
Proof.
  intros Hc. unfold automaticUnmanageSafe, quiescent. rewrite Hc, andb_true_iff, bool_decide_eq_true, negb_true_iff, <-not_true_iff_false.
  rewrite (busy_working v c Hc). unfold working. split.
  - intros [Hs Hn]. split; [done|]. split_and!.
    + destruct (decide (cdx_ActiveTurnId c = "")); [done|]. destruct Hn. by right; left.
    + destruct (cv_ActiveTurn v); [|done]. destruct Hn. by right; right; left.
    + destruct (cv_PendingRequests v); [done|]. destruct Hn. by right; right; right.
  - intros (Hs&H1&H2&H3). split; [done|]. rewrite Hs, H1, H2, H3. intros [H|[H|[H|H]]]; [set_solver|done..].
Qed.

(** C12: Unmanaging is refused without any change exactly while the Codex is running,
    waiting or interrupting, has an active turn or a pending request; otherwise it and a
    lease renewal are all or nothing.  Success leaves the new view in memory and in the
    database, stamped with its event head, and clears the warning marker.  After an error
    memory is exactly as before, views, markers and every other map, and so is the row of
    the Codex: untouched or written back; only a statement that was applied although it
    reported a fault, or a failing statement (or encoding) in the rollback itself, which
    the error then names, leaves the new row.  When the error says that the outcome of the
    commit is unknown, the new view is kept in memory and in the row. *)
Theorem lifecycle_all_or_nothing (now wall : Z) (id req : string) (s : MState) (v : CurrentView) (c : Codex)
    (Hv : find_view s id = Some (v, c)) (Hid : cdx_CodexId c = id) (Hne : id ≠ "")
    (Hm : cdx_ManagementState c ≠ MANAGEMENT_STATE_UNMANAGED) :
  (let '(s', r) := UnmanageCodex cfg audit now wall id req s in
   let f c := set_cdx_ManagedUntilUnixMs 0 (set_cdx_ManagementState MANAGEMENT_STATE_UNMANAGED c) in
   (working v c → s' = s ∧ r = Err (rpcErr ERROR_CODE_CODEX_BUSY "codex is busy")) ∧
   (¬ working v c → transition s s' id v (stamped now f v) 0 0 r ∧ (∀ c', r = Ok c' → c' = f c))) ∧
  (let '(s', r) := renewLease cfg audit now wall id s in
   transition s s' id v (stamped now (λ c, set_cdx_LastActivityAtUnixMs (UnixMilli now) (set_cdx_ManagedUntilUnixMs
     (UnixMilli (now + leaseDuration cfg)) (set_cdx_ManagementState MANAGEMENT_STATE_MANAGED c))) v) 0 0 r).
Proof.
  pose proof Hv as [Hv' Hc]%find_view_Some. split.
  - unfold UnmanageCodex. rewrite str_empty_false by done. unfold mbind, M_bind, gets. rewrite Hv.
    rewrite bool_decide_false by done. pose proof (busy_working v c Hc) as Hb. destruct (manualUnmanageBusy v).
    { split; [done|]. intros Hn. by destruct Hn; apply Hb. }
    assert (¬ working v c) as Hw by (by intros ?%Hb).
    destruct (commit_lifecycle _ _ _ _ _ _ _ _ _ _ _ s) as [s' r] eqn:E.
    apply (commit_transition wall id v _ c (unmanaged c)) in E; [|done|done|simpl; by rewrite Hc|done|done].
    destruct r as [[]|e]; (split; [done|]); intros _; split; [exact E|by intros c' [= <-]|exact E|done].
  - unfold renewLease, mbind, M_bind, gets. rewrite Hv, bool_decide_false by done.
    destruct (commit_lifecycle _ _ _ _ _ _ _ _ _ _ _ s) as [s' r] eqn:E.
    apply (commit_transition wall id v _ c (renewed cfg now c)) in E; [exact E|done|done|simpl; by rewrite Hc|done|done].
Qed.

(** ** Sweeping leases *)

(** A lease that a sweep looks at. *)
Definition leased (c : Codex) : Prop :=
  (cdx_ManagementState c = MANAGEMENT_STATE_MANAGED ∨ cdx_ManagementState c = MANAGEMENT_STATE_EXPIRING_SOON) ∧
  0 < cdx_ManagedUntilUnixMs c.

(** The warning window has begun. *)
Definition in_window (nowms : Z) (c : Codex) : Prop :=
  cdx_ManagedUntilUnixMs c - Milliseconds (leaseWarningBefore cfg) ≤ nowms.

(** The lease has run out and nothing is going on. *)
Definition expired (nowms : Z) (v : CurrentView) (c : Codex) : Prop :=
  cdx_ManagedUntilUnixMs c ≤ nowms ∧ quiescent v c.

(** The codex of an announced expiry. *)
Definition expiring (deadline old : Z) (c : Codex) : Codex :=
  let c := set_cdx_ManagementState MANAGEMENT_STATE_EXPIRING_SOON c in
  if decide (old = deadline) then c else warned deadline c.

Lemma with_codex_compose f g v : with_codex f (with_codex g v) = with_codex (λ c, f (g c)) v.
Proof. destruct v as [[c|] ? ? ? ? ? ?]; done. Qed.

Lemma with_codex_ext f g v c : cv_Codex v = Some c → f c = g c → with_codex f v = with_codex g v.
Proof. intros Hc E. unfold with_codex. rewrite Hc. simpl. by rewrite E. Qed.

(** The three things a sweep can do. *)
Lemma lease_step_cases nowms old v c :
  cv_Codex v = Some c →
  match lease_step cfg nowms old v c with
  | Some (v', new, w) =>
      (expired nowms v c ∧ v' = with_codex unmanaged v ∧ new = 0 ∧ w = None) ∨
      (¬ expired nowms v c ∧ in_window nowms c ∧ v' = with_codex (expiring (cdx_ManagedUntilUnixMs c) old) v ∧
       new = cdx_ManagedUntilUnixMs c ∧
       w = if decide (old = cdx_ManagedUntilUnixMs c) then None else Some (expiry_warning (cdx_ManagedUntilUnixMs c)))
  | None => ¬ expired nowms v c ∧
      (in_window nowms c → old = cdx_ManagedUntilUnixMs c ∧ cdx_ManagementState c = MANAGEMENT_STATE_EXPIRING_SOON)
  end.
Proof.
  intros Hc. assert (expired nowms v c ↔ cdx_ManagedUntilUnixMs c ≤ nowms ∧ automaticUnmanageSafe v = true) as Hex
    by (unfold expired; by rewrite (safe_quiescent v c Hc)).
  unfold lease_step, in_window.
  destruct (Z.leb_spec (cdx_ManagedUntilUnixMs c) nowms) as [Hd|Hd], (automaticUnmanageSafe v) eqn:Hs;
    simpl; try (by left; split; [by apply Hex; split|]).
  all: destruct (Z.leb_spec (cdx_ManagedUntilUnixMs c - Milliseconds (leaseWarningBefore cfg)) nowms) as [Hw|Hw];
    [|split; [|intros ?; lia]; intros [? ?]%Hex; try lia; congruence].
  all: destruct (bool_decide_reflect (old ≠ cdx_ManagedUntilUnixMs c)) as [Ho|Ho].
  all: try (right; split; [intros [? ?]%Hex; try lia; congruence|]; split; [done|];
    rewrite decide_False by done; split; [|done]; rewrite with_codex_compose;
    apply (with_codex_ext _ _ v c); [done|]; unfold expiring; by rewrite decide_False).
  all: apply dec_stable in Ho; subst old.
  all: destruct (bool_decide_reflect (cdx_ManagementState c ≠ MANAGEMENT_STATE_EXPIRING_SOON)) as [Hx|Hx].
  all: try (right; split; [intros [? ?]%Hex; try lia; congruence|]; split; [done|];
    rewrite decide_True by done; split; [|done];
    apply (with_codex_ext _ _ v c); [done|]; unfold expiring; by rewrite decide_True).
  all: split; [intros [? ?]%Hex; try lia; congruence|]; intros _; split; [done|]; by apply dec_stable in Hx.
Qed.

Lemma shows_trans s s1 s2 id v w v' w' : shows s s1 id v w → shows s1 s2 id v' w' → shows s s2 id v' w'.
Proof.
  intros (H1 & H2 & H3) (H4 & H5 & H6). split; [by rewrite H4, H1, insert_insert_eq|]. split; [|congruence].
  intros k. rewrite H5, H2. by case_decide.
Qed.

Lemma shows_events s s1 a id v w : shows s s1 id v w → shows s (set_mg_events a s1) id v w.
Proof. done. Qed.

(** A further event for the same view keeps it durable. *)
Lemma durable_again s a id v w wall raw seq :
  durable s id v w → Marshal (MsgView (set_cv_HeadEventSeq seq v)) = Ok raw →
  event_applied wall id raw seq (mdb s) (adb a) → durable (set_mg_events a s) id v w.
Proof.
  intros (c & r & seq0 & Hc & Hr & _ & _ & H) Hm (r' & Hr' & _ & _ & _ & Ha). simplify_eq.
  exists c, (with_view wall raw r), seq. unfold mdb. simpl. rewrite Ha. simpl. rewrite !lookup_insert_eq.
  destruct_and!. by split_and!.
Qed.

Lemma durable_row s id v w : durable s id v w → row_shows s id v.
Proof. intros (c&r&seq&Hc&Hr&_&_&H1&H2&H3&H4&_). by exists c, r. Qed.

(** What a sweep in the warning window may leave; the marker 0 makes the next sweep raise
    the warning again. *)
Definition announced (s s' : MState) (id : string) (v snap : CurrentView) (deadline : Z) (r : res unit) : Prop :=
  match r with
  | Ok _ => shows s s' id snap deadline ∧ durable s' id snap deadline
  | Err e => let old := get_int (mg_warningDeadline s) id in
             shows s s' id v old ∧ refused_db s s' v snap old deadline e ∨
             (shows s s' id snap 0 ∨ errorsIs e ErrEventCommitOutcomeUnknown = true ∧ shows s s' id snap deadline) ∧ row_shows s' id snap
  end.

Lemma raise_spec now wall id w snap deadline s s' r :
  durable s id snap deadline → shows s s id snap deadline → (∀ c, cv_Codex snap = Some c → cdx_CodexId c = id) →
  (r0 ← attempt (publishEvent audit wall (mkEvent id 0 (UnixMilli now) "" None (Some (Event_WarningRaised w))) snap);
   match r0 with
   | Ok _ => mret tt
   | Err e =>
       if errorsIs e ErrEventCommitOutcomeUnknown then preserveLifecycleState id snap deadline false e
       else preserveLifecycleState id snap 0 true e
   end) s = (s', r) →
  match r with
  | Ok _ => shows s s' id snap deadline ∧ durable s' id snap deadline
  | Err e => (shows s s' id snap 0 ∨ errorsIs e ErrEventCommitOutcomeUnknown = true ∧ shows s s' id snap deadline) ∧
             row_shows s' id snap
  end.
Proof.
  intros Hd Hs Hkid. unfold mbind, M_bind, attempt.
  destruct (publishEvent _ _ _ _ s) as [s1 r1] eqn:E. apply publishEvent_spec in E as (a & -> & H).
  destruct r1 as [ev|e].
  - intros [= <- <-]. destruct H as (raw & seq & Hm & Ha). split; [by apply shows_events|].
    by eapply durable_again.
  - assert (row_shows (set_mg_events a s) id snap) as Hrow.
    { assert (row_shows s id snap) as H0 by by apply durable_row with deadline.
      destruct H as [H|(raw&seq&_&_&Ha)]; [by apply (row_shows_db s)|by eapply (event_keeps_row s)]. }
    pose proof Hrow as (c & _ & Hc & _).
    destruct (errorsIs e ErrEventCommitOutcomeUnknown) eqn:Eu;
      intros (a' & note & e' & -> & -> & He & Hk)%preserveLifecycle_spec; (split; [|by apply (Hk c); auto]);
      [right; split; [auto|]|left]; (eapply shows_trans; [by apply shows_events|apply shown_shows]).
Qed.

(** A sweep of one Codex, case by case. *)
Lemma sweepLease_spec (now wall : Z) (id : string) (s : MState) (v : CurrentView) (c : Codex)
    (Hv : find_view s id = Some (v, c)) (Hid : cdx_CodexId c = id) (Hl : leased c) :
  let '(s', r) := sweepLease cfg audit now wall id s in
  let deadline := cdx_ManagedUntilUnixMs c in
  let old := get_int (mg_warningDeadline s) id in
  (expired (UnixMilli now) v c → transition s s' id v (stamped now unmanaged v) 0 0 r) ∧
  (¬ expired (UnixMilli now) v c → ¬ in_window (UnixMilli now) c → s' = s ∧ r = Ok tt) ∧
  (¬ expired (UnixMilli now) v c → in_window (UnixMilli now) c →
   (old = deadline ∧ cdx_ManagementState c = MANAGEMENT_STATE_EXPIRING_SOON ∧ s' = s ∧ r = Ok tt) ∨
   announced s s' id v (stamped now (expiring deadline old) v) deadline r).
Proof.
  pose proof Hv as [Hv' Hc]%find_view_Some. unfold sweepLease, mbind, M_bind, gets. rewrite Hv.
  replace (_ || _) with false.
  2: { destruct Hl as [Hl Hl']. symmetry. apply orb_false_intro; [|lia].
       destruct Hl as [-> | ->]; done. }
  set (old := get_int (mg_warningDeadline s) id). pose proof (lease_step_cases (UnixMilli now) old v c Hc) as Hstep.
  destruct (lease_step cfg (UnixMilli now) old v c) as [[[v' new] w]|]; cycle 1.
  { destruct Hstep as [Hne Hw]. split; [done|]. split; [done|]. intros _ Hin. left. by destruct (Hw Hin). }
  destruct Hstep as [(Hexp & -> & -> & ->)|(Hne & Hin & -> & -> & Hw)].
  - destruct (commit_lifecycle _ _ _ _ _ _ _ _ _ _ _ s) as [s' r] eqn:E.
    apply (commit_transition wall id v _ c (unmanaged c)) in E; [|done|done|simpl; by rewrite Hc|done|done].
    destruct r as [[]|e]; (split; [done|by split; intros]).
  - assert (∃ k, cv_Codex (stamped now (expiring (cdx_ManagedUntilUnixMs c) old) v) = Some k ∧ same_session c k) as (k & Hk & Hks).
    { simpl. rewrite Hc. eexists. split; [done|]. unfold expiring, warned. by repeat case_match. }
    case_decide as Hod; subst w; destruct (commit_lifecycle _ _ _ _ _ _ _ _ _ _ _ s) as [s1 r1] eqn:E;
      apply (commit_transition wall id v _ c k) in E; try done.
    + destruct r1 as [[]|e]; (split; [done|]); (split; [done|]); intros _ _; right; [exact E|].
      destruct E as [E|(?&?&?)]; [by left|right; split; [right|]; done].
    + destruct r1 as [[]|e]; cycle 1.
      { split; [done|]. split; [done|]. intros _ _. right. destruct E as [E|(_&?&?)]; [by left|right; split; [left|]; done]. }
      destruct E as [E1 E2]. match goal with |- let '(_, _) := ?m in _ => destruct m as [s2 r2] eqn:E end.
      apply raise_spec in E; [|done|by destruct E1 as (H1 & H2 & H3); split; [rewrite H1, insert_insert_eq|split; [intros x; rewrite H2; by case_decide|]]|intros k' Hk';
        change (cv_Codex (stamped now (expiring (cdx_ManagedUntilUnixMs c) old) v) = Some k') in Hk'; rewrite Hk in Hk'; injection Hk' as <-;
        destruct Hks as [-> _]; exact Hid].
      split; [done|]. split; [done|]. intros _ _. right. destruct r2 as [[]|e].
      * destruct E as [E3 E4]. split; [by eapply shows_trans|done].
      * destruct E as [[E|[Eu E]] Hrow]; right; (split; [|done]); [left|right; split; [done|]]; by eapply shows_trans.
Qed.

(** C13: A sweep never unmanages a Codex before its deadline, nor one that is not idle
    (status IDLE, no active turn and no pending request), and never touches anything but
    this Codex's lease.  Outside the warning window it does
    nothing.  An idle Codex past its deadline becomes unmanaged, all or nothing as above.
    In the window the Codex becomes EXPIRING_SOON with one warning for this deadline; when
    that has been announced already, nothing changes; when only the warning event fails,
    the announcement is kept and marked to be raised again. *)
Theorem sweep_outcome (now wall : Z) (id : string) (s : MState) (v : CurrentView) (c : Codex)
    (Hv : find_view s id = Some (v, c)) (Hid : cdx_CodexId c = id) (Hl : leased c) :
  let '(s', r) := sweepLease cfg audit now wall id s in
  let deadline := cdx_ManagedUntilUnixMs c in
  let old := get_int (mg_warningDeadline s) id in
  (expired (UnixMilli now) v c → transition s s' id v (stamped now unmanaged v) 0 0 r) ∧
  (¬ expired (UnixMilli now) v c → ¬ in_window (UnixMilli now) c → s' = s ∧ r = Ok tt) ∧
  (¬ expired (UnixMilli now) v c → in_window (UnixMilli now) c →
   (old = deadline ∧ cdx_ManagementState c = MANAGEMENT_STATE_EXPIRING_SOON ∧ s' = s ∧ r = Ok tt) ∨
   announced s s' id v (stamped now (expiring deadline old) v) deadline r).
Proof. exact (sweepLease_spec now wall id s v c Hv Hid Hl). Qed.

(** A sweep with nothing to do. *)
Lemma sweepLease_idle now wall id s v c :
  find_view s id = Some (v, c) →
  (¬ leased c ∨ cdx_ManagementState c = MANAGEMENT_STATE_EXPIRING_SOON ∧
     get_int (mg_warningDeadline s) id = cdx_ManagedUntilUnixMs c ∧ ¬ expired (UnixMilli now) v c) →
  sweepLease cfg audit now wall id s = (s, Ok tt).
Proof.
  intros Hv H. unfold sweepLease, mbind, M_bind, gets. rewrite Hv. destruct (_ || _) eqn:E; [done|].
  destruct H as [H|(Hm & Ho & Hne)].
  { to_prop. destruct H. split; [|lia]. apply andb_false_iff in H0. destruct H0 as [H0|H0];
      apply bool_decide_eq_false in H0; apply dec_stable in H0; auto. }
  rewrite Ho. unfold lease_step, expired in *. pose proof Hv as [_ Hc]%find_view_Some. rewrite <-(safe_quiescent v c Hc) in Hne.
  destruct (Z.leb_spec (cdx_ManagedUntilUnixMs c) (UnixMilli now)), (automaticUnmanageSafe v); simpl; [naive_solver|..];
    rewrite (bool_decide_false (_ ≠ _)) by (intros Hn; by apply Hn);
    rewrite (bool_decide_false (_ ≠ MANAGEMENT_STATE_EXPIRING_SOON)) by (rewrite Hm; intros Hn; by apply Hn);
    by destruct (_ - _ <=? _).
Qed.

Lemma expiring_fields d old c :
  cdx_Status (expiring d old c) = cdx_Status c ∧ cdx_ActiveTurnId (expiring d old c) = cdx_ActiveTurnId c ∧
  cdx_ManagedUntilUnixMs (expiring d old c) = cdx_ManagedUntilUnixMs c ∧
  cdx_ManagementState (expiring d old c) = MANAGEMENT_STATE_EXPIRING_SOON.
Proof. unfold expiring, warned. by repeat case_match. Qed.

Lemma shows_find s s' id v w c f now : shows s s' id (stamped now f v) w → cv_Codex v = Some c →
  find_view s' id = Some (stamped now f v, f c) ∧ get_int (mg_warningDeadline s') id = w.
Proof.
  intros (H1 & H2 & _) Hc. split; [apply find_view_Some; rewrite H1, lookup_insert_eq; split; [done|simpl; by rewrite Hc]|].
  rewrite H2. by rewrite decide_True.
Qed.

(** One successful sweep in the warning window settles the lease: until the Codex is
    idle past its deadline, or is renewed, every further sweep changes nothing at all, so
    the warning for one deadline is raised once. *)
Theorem sweep_settles (now now' wall wall' : Z) (id : string) (s s' : MState) (v : CurrentView) (c : Codex)
    (Hv : find_view s id = Some (v, c)) (Hid : cdx_CodexId c = id) (Hl : leased c)
    (Hin : in_window (UnixMilli now) c) (Hq : ¬ expired (UnixMilli now') v c)
    (Hs : sweepLease cfg audit now wall id s = (s', Ok tt)) :
  sweepLease cfg audit now' wall' id s' = (s', Ok tt).
Proof.
  pose proof Hv as [_ Hc]%find_view_Some. pose proof (sweepLease_spec now wall id s v c Hv Hid Hl) as H. rewrite Hs in H.
  destruct H as (He & _ & Hw). destruct (decide (cdx_ManagedUntilUnixMs c ≤ UnixMilli now ∧ quiescent v c)) as [Hx|Hx].
  - destruct (He Hx) as [(Hf & _)%(shows_find _ _ _ _ _ c) _]; [|done].
    eapply sweepLease_idle; [done|]. left. by intros [[|] _].
  - destruct (Hw Hx Hin) as [(Ho & Hm & -> & _)|[(Hf & Ho)%(shows_find _ _ _ _ _ c) _]]; [|..|done].
    + eapply sweepLease_idle; [done|]. by right.
    + destruct (expiring_fields (cdx_ManagedUntilUnixMs c) (get_int (mg_warningDeadline s) id) c) as (Hst & Hat & Hu & Hm).
      eapply sweepLease_idle; [done|]. right. rewrite Hm, Hu. split_and!; [done|done|].
      intros [H1 (H2&H3&H4)]. apply Hq. split; [by rewrite Hu in H1|]. rewrite Hst in H2. rewrite Hat in H3. split; [exact H2|]. split; [exact H3|]. exact H4.
Qed.

(** ** Forgetting *)

Lemma store_frame {A} (m : M Store A) s s' r :
  store m s = (s', r) → ∃ p, s' = set_mg_events (set_as_persist p (mg_events s)) s ∧ m (as_persist (mg_events s)) = (p, r).
Proof. unfold store, zoom. destruct (m _) as [p r']. intros [= <- <-]. eauto. Qed.

Lemma delete_own_lookup key id m k :
  delete_own key id m !! k = if decide (k = key ∧ m !! key = Some id) then None else m !! k.
Proof.
  unfold delete_own. case_bool_decide as H; [|rewrite decide_False by naive_solver; done].
  rewrite lookup_delete. destruct (decide (key = k)) as [->|]; [by rewrite decide_True|].
  rewrite decide_False by naive_solver. done.
Qed.

(** Nothing in the manager's memory is about [id], whose session was [thread] of [source];
    everything else is as before. *)
Record forgotten (s s' : MState) (id source thread : string) : Prop := {
  fg_views : mg_byID s' = delete id (mg_byID s);
  fg_thread k : mg_byThread s' !! k = if decide (k = thread ∧ mg_byThread s !! thread = Some id) then None else mg_byThread s !! k;
  fg_session k : mg_bySession s' !! k =
    if decide (k = sessionKey source thread ∧ mg_bySession s !! sessionKey source thread = Some id) then None else mg_bySession s !! k;
  fg_sources : mg_sources s' = delete id (mg_sources s);
  fg_owners : mg_logicalOwners s' = delete id (mg_logicalOwners s);
  fg_titles : mg_manualTitle s' = delete id (mg_manualTitle s);
  fg_markers : mg_warningDeadline s' = delete id (mg_warningDeadline s);
  fg_chunks k : mg_chunks s' !! k = if HasPrefix k (id +:+ nul)%string then None else mg_chunks s !! k;
  fg_children child : mg_workspaceChildCodex s' !! child ≠ Some id;
  fg_workspace : sv_states (mg_workspaces s') = delete id (sv_states (mg_workspaces s));
}.

Lemma forget_maps_spec id source c a s :
  forgotten s (set_mg_workspaces (Unregister id (mg_workspaces s)) (forget_maps id source c (set_mg_events a s))) id source (cdx_ThreadId c).
Proof.
  split; try done.
  - intros k. apply delete_own_lookup.
  - intros k. apply delete_own_lookup.
  - intros k. simpl. destruct (HasPrefix k _) eqn:E.
    + apply map_lookup_filter_None. right. intros x _ H. congruence.
    + destruct (mg_chunks s !! k) as [x|] eqn:Ek; [by apply map_lookup_filter_Some_2|].
      apply map_lookup_filter_None. by left.
  - intros child. simpl. by intros [_ H]%map_lookup_filter_Some.
  - simpl. unfold Unregister. destruct (sv_states (mg_workspaces s) !! id) as [p|] eqn:E.
    + unfold unregister_object. simpl. by rewrite bool_decide_true.
    + by rewrite delete_id.
Qed.

(** Forgetting is refused for a Codex that is still managed.  When it succeeds, every
    map of the manager, the event streams, the workspace table and the database have lost
    the Codex and nothing else, and the session is remembered with its logical owner, so
    that importing it again finds the same owner.  When it fails, the manager's memory is
    as it was. *)
Theorem forget_removes (wall : Z) (materialized : string → bool) (id req : string) (s s' : MState) (v : CurrentView)
    (c : Codex) (r : res string) (Hv : find_view s id = Some (v, c))
    (Hf : ForgetCodex audit wall materialized id req s = (s', r)) :
  match r with
  | Ok _ =>
      let source := get_str (mg_sources s) id in
      cdx_ManagementState c = MANAGEMENT_STATE_UNMANAGED ∧ forgotten s s' id source (cdx_ThreadId c) ∧
      as_codex (mg_events s') !! id = None ∧ db_codexes (mdb s') = delete id (db_codexes (mdb s)) ∧
      db_event_heads (mdb s') = delete id (db_event_heads (mdb s)) ∧
      ∃ f, db_forgotten_sessions (mdb s') !! (normalizeSessionSource source, cdx_ThreadId c) = Some f ∧
        fs_LogicalOwnerID f = get_str (mg_logicalOwners s) id ∧ fs_CWD f = cdx_Cwd c ∧ fs_Title f = cdx_Title c
  | Err _ => ∃ a, s' = set_mg_events a s
  end.
Proof.
  revert Hf. unfold ForgetCodex. destruct (str_empty id); [intros [= <- <-]; exists (mg_events s); by destruct s|].
  unfold mbind at 1, M_bind at 1, gets at 1. rewrite Hv. unfold mbind at 1 2, M_bind at 1 2, gets.
  case_bool_decide as Hm; [intros [= <- <-]; exists (mg_events s); by destruct s|].
  unfold mbind at 1, M_bind at 1. destruct (store _ s) as [s1 r1] eqn:E1. apply store_frame in E1 as (p & -> & E1).
  destruct r1 as [[]|e]; [|intros [= <- <-]; eauto].
  unfold mbind at 1, M_bind at 1. unfold events at 1, zoom at 1.
  destruct (Forget _ _ _ _ _ _) as [a r2] eqn:E2. apply Forget_db in E2.
  destruct r2 as [ev|e]; [|intros [= <- <-]; by exists a].
  unfold mbind, M_bind, modify, mret, M_ret. intros [= <- <-]. destruct E2 as [E2 E3].
  split; [done|]. split; [exact (forget_maps_spec id _ c a s)|].
  unfold mdb. simpl. split; [done|]. rewrite E2.
  unfold UpsertForgottenSession in E1. case_match; [done|].
  apply sql_exec_inv in E1 as [([] & _ & Hw)|(e & [=] & _)]. injection Hw as Hw.
  unfold adb. simpl. rewrite <- Hw. simpl. split; [done|]. split; [done|].
  rewrite lookup_insert_eq. by eexists.
Qed.
End Lifecycle.

(** ** Records *)

(** The row written for a Codex gives back the same Codex after a restart, except for
    its warnings, which live in the stored view. *)
Theorem record_roundtrip (c : Codex) (source : string) (Ho : cdx_Origin c ≠ CODEX_ORIGIN_UNSPECIFIED) :
  codexFromRecord (recordFromCodex c source) = set_cdx_Warnings [] c.
Proof.
  destruct c as [? ? ? ? o st ? m]. simpl in Ho. unfold codexFromRecord. simpl.
  destruct o; [done|..]; destruct st, m; reflexivity.
Qed.
