(* ===== verification/ManagerExamples.v ===== *)
(** * A concrete manager

    One Codex with a lease until millisecond 1000, a codec that encodes everything alike,
    and an empty database. *)

From stdpp Require Import base tactics numbers list gmap strings pretty.
From S2P Require Import Prelude GoError GoStrings Remote Persistence Activity HostEvents Workspace Budget Manager ManagerTheorems.
Local Open Scope string_scope.
Local Open Scope Z_scope.
Local Open Scope list_scope.

Module ManagerDemo.

#[local] Instance plain_json : ProtoJSON := { Marshal _ := Ok "{}"; UnmarshalView _ := None }.

Definition cfg : ManagerConfig := mkManagerConfig 0 0 0.
Definition quiet_audit (e : Event) : option string := None.

Definition codex (state : ManagementState) (until : Z) : Codex :=
  mkCodex "c1" "t1" "/w" "title" CODEX_ORIGIN_REMOTE_CREATED CODEX_STATUS_IDLE "" state until 1 0 1 [].

Definition view (state : ManagementState) (until : Z) : CurrentView :=
  mkCurrentView (Some (codex state until)) None [] None None 0 0.

Definition manager (oracle : list outcome) (v : CurrentView) : MState :=
  mkMState (NewStore (mkStore empty_db oracle) false 8) (mkService ∅ ∅ 0 0) {[ "c1" := v ]} {[ "t1" := "c1" ]}
    {[ sessionKey "cli" "t1" := "c1" ]} {[ "c1" := "cli" ]} {[ "c1" := "owner" ]} ∅ ∅ ∅ ∅ ∅ "".

Definition managed : MState := manager [] (view MANAGEMENT_STATE_MANAGED 1000).
Definition released : MState := manager [] (view MANAGEMENT_STATE_UNMANAGED 0).

(** At 900 ms the lease is in its window, at 5000 ms it has run out. *)
Definition at_window : Z := 900000000.
Definition at_end : Z := 5000000000.

(** The event cannot be published: the row is written back. *)
Definition unlucky : MState := manager [Good; Bad (FaultText "disk") false] (view MANAGEMENT_STATE_MANAGED 1000).
Definition unlucky' : MState := (UnmanageCodex cfg quiet_audit at_window 1 "c1" "r" unlucky).1.

Lemma lifecycle_all_or_nothing_witness :
  let '(s', r) := UnmanageCodex cfg quiet_audit at_window 1 "c1" "r" unlucky in
  r = Err (fault_err (FaultText "disk")) ∧
  cr_ManagementState <$> db_codexes (mdb s') !! "c1" = Some "MANAGEMENT_STATE_MANAGED" ∧
  transition unlucky s' "c1" (view MANAGEMENT_STATE_MANAGED 1000)
    (stamped at_window unmanaged (view MANAGEMENT_STATE_MANAGED 1000)) 0 0 r.
Proof.
  assert (find_view unlucky "c1" = Some (view MANAGEMENT_STATE_MANAGED 1000, codex MANAGEMENT_STATE_MANAGED 1000)) as Hv
    by (vm_compute; reflexivity).
  assert ("c1" ≠ "") as Hne by discriminate.
  assert (cdx_ManagementState (codex MANAGEMENT_STATE_MANAGED 1000) ≠ MANAGEMENT_STATE_UNMANAGED) as Hm by discriminate.
  assert (¬ working (view MANAGEMENT_STATE_MANAGED 1000) (codex MANAGEMENT_STATE_MANAGED 1000)) as Hw.
  { unfold working. simpl. intros [H|[H|[H|H]]]; [set_solver|by apply H..]. }
  pose proof (lifecycle_all_or_nothing cfg quiet_audit at_window 1 "c1" "r" unlucky _ _ Hv eq_refl Hne Hm) as H.
  destruct H as [H _].
  assert ((UnmanageCodex cfg quiet_audit at_window 1 "c1" "r" unlucky).2 = Err (fault_err (FaultText "disk"))) as Hr by (vm_compute; reflexivity).
  assert (cr_ManagementState <$> db_codexes (mdb unlucky') !! "c1" = Some "MANAGEMENT_STATE_MANAGED") as Hd by (vm_compute; reflexivity).
  unfold unlucky' in Hd. destruct (UnmanageCodex cfg quiet_audit at_window 1 "c1" "r" unlucky) as [s' r].
  split; [exact Hr|]. split; [exact Hd|]. exact (proj1 (proj2 H Hw)).
Defined.

(** The sweep at the end of the lease unmanages the Codex. *)
Lemma sweep_outcome_witness :
  let '(s', r) := sweepLease cfg quiet_audit at_end 1 "c1" managed in
  r = Ok tt ∧ transition managed s' "c1" (view MANAGEMENT_STATE_MANAGED 1000)
    (stamped at_end unmanaged (view MANAGEMENT_STATE_MANAGED 1000)) 0 0 r.
Proof.
  assert (find_view managed "c1" = Some (view MANAGEMENT_STATE_MANAGED 1000, codex MANAGEMENT_STATE_MANAGED 1000)) as Hv
    by (vm_compute; reflexivity).
  assert (leased (codex MANAGEMENT_STATE_MANAGED 1000)) as Hl by (split; [by left|simpl; lia]).
  pose proof (sweep_outcome cfg quiet_audit at_end 1 "c1" managed _ _ Hv eq_refl Hl) as H.
  assert ((sweepLease cfg quiet_audit at_end 1 "c1" managed).2 = Ok tt) as Hr by (vm_compute; reflexivity).
  destruct (sweepLease cfg quiet_audit at_end 1 "c1" managed) as [s' r]. split; [exact Hr|].
  apply (proj1 H). split; [vm_compute; discriminate|]. repeat split.
Defined.

Definition announced_once : MState := (sweepLease cfg quiet_audit at_window 1 "c1" managed).1.

Lemma sweep_settles_witness :
  sweepLease cfg quiet_audit 950000000 2 "c1" announced_once = (announced_once, Ok tt).
Proof.
  assert (find_view managed "c1" = Some (view MANAGEMENT_STATE_MANAGED 1000, codex MANAGEMENT_STATE_MANAGED 1000)) as Hv
    by (vm_compute; reflexivity).
  assert (leased (codex MANAGEMENT_STATE_MANAGED 1000)) as Hl by (split; [by left|simpl; lia]).
  assert (in_window cfg (UnixMilli at_window) (codex MANAGEMENT_STATE_MANAGED 1000)) as Hin by (vm_compute; discriminate).
  assert (¬ expired (UnixMilli 950000000) (view MANAGEMENT_STATE_MANAGED 1000) (codex MANAGEMENT_STATE_MANAGED 1000)) as Hq.
  { intros [H _]. vm_compute in H. congruence. }
  assert (sweepLease cfg quiet_audit at_window 1 "c1" managed = (announced_once, Ok tt)) as Hs by (vm_compute; reflexivity).
  exact (sweep_settles cfg quiet_audit at_window 950000000 1 2 "c1" managed announced_once _ _ Hv eq_refl Hl Hin Hq Hs).
Defined.

(** The released Codex with a row in the database. *)
Definition stored : MState := (persistState (view MANAGEMENT_STATE_UNMANAGED 0) released).1.

Lemma forget_removes_witness :
  mg_byID (ForgetCodex quiet_audit 5 (λ _, true) "c1" "r" stored).1 = ∅ ∧
  forgotten stored (ForgetCodex quiet_audit 5 (λ _, true) "c1" "r" stored).1 "c1" "cli" "t1".
Proof.
  assert (find_view stored "c1" = Some (view MANAGEMENT_STATE_UNMANAGED 0, codex MANAGEMENT_STATE_UNMANAGED 0)) as Hv
    by (vm_compute; reflexivity).
  assert ((ForgetCodex quiet_audit 5 (λ _, true) "c1" "r" stored).2 = Ok "c1") as Hr by (vm_compute; reflexivity).
  split; [vm_compute; reflexivity|].
  destruct (ForgetCodex quiet_audit 5 (λ _, true) "c1" "r" stored) as [s' r] eqn:E. cbn in Hr. subst r.
  exact (proj1 (proj2 (forget_removes quiet_audit 5 (λ _, true) "c1" "r" stored s' _ _ (Ok "c1") Hv E))).
Defined.

Lemma record_roundtrip_witness :
  codexFromRecord (recordFromCodex (codex MANAGEMENT_STATE_MANAGED 1000) "cli") = codex MANAGEMENT_STATE_MANAGED 1000.
Proof. exact (record_roundtrip (codex MANAGEMENT_STATE_MANAGED 1000) "cli" ltac:(discriminate)). Defined.

End ManagerDemo.
