(* ===== verification/Server.v ===== *)
(** * Gateway server: one WebSocket connection (internal/gateway/server.go)

    A connection is a set of goroutines over shared state: the reader, the writer, the
    heartbeat, one goroutine per request and one per live watch.  They share the bounded
    channel [send], the channel [control] of capacity one, the map of watches under
    [watchesMu], two [sync.Once] values and the connection's context.

    [goroutine] lists the points at which a goroutine can be interrupted, and [advance]
    what it does from such a point to the next: at most one operation on an object that
    is shared without [watchesMu] (the event store, a channel, a [sync.Once], the socket,
    the request database).  Where Go blocks or chooses, [advance] is partial or consults
    an [oracle] (clock, ready case of a select, outcome of a read or write).  The step
    relation [gw_step] interleaves the goroutines with everything else that uses the
    event store and the request database.

    The WebSocket library is a parameter in the form of the oracle: a read or write may
    fail at any time, and neither succeeds once the context is cancelled or, for a
    write, once the closing handshake was started. *)

From Stdlib Require Import Ascii String.
From stdpp Require Import base tactics numbers list gmap strings.
From S2P Require Import Prelude GoError GoStrings Remote Activity Dispatcher.
Local Open Scope string_scope.
Local Open Scope Z_scope.
Local Open Scope list_scope.

(** ** Frames *)

Inductive MessageType := MessageText | MessageBinary.

(** The close codes of the protocol that the server sends. *)
Inductive CloseCode :=
| CLOSE_CODE_FRAME_TOO_LARGE
| CLOSE_CODE_INVALID_FRAME
| CLOSE_CODE_HELLO_REQUIRED
| CLOSE_CODE_PROTOCOL_VERSION_UNSUPPORTED
| CLOSE_CODE_SLOW_CONSUMER
| CLOSE_CODE_INTERNAL_PROTOCOL_ERROR
| CLOSE_CODE_CONNECTION_TIMEOUT
| CLOSE_CODE_OTHER.

#[export] Instance CloseCode_eq_dec : EqDecision CloseCode.
Proof. solve_decision. Defined.

(** WebSocket status codes. *)
Definition StatusNormalClosure : Z := 1000.
Definition StatusProtocolError : Z := 1002.
Definition StatusUnsupportedData : Z := 1003.
Definition StatusMessageTooBig : Z := 1009.
Definition StatusInternalError : Z := 1011.

Definition Subprotocol : string := "codex-remote.v1.protojson".

Record ProtocolVersion := mkProtocolVersion { pv_Major : Z; pv_Minor : Z; pv_Patch : Z }.

Record ClientHello := mkClientHello {
  ch_ClientId : string;
  ch_ClientRunId : string;
  ch_ProtocolVersion : option ProtocolVersion;
}.

(** [remotev1.WatchCodexRequest]. *)
Record WatchCodexRequest := mkWatchCodexRequest {
  wq_CodexId : string;
  wq_AfterEventSeq : option Z;
  wq_AfterHostRunId : string;
}.

Record Ping := mkPing { ping_Nonce : Z; ping_SentAtUnixMs : Z }.

Record Pong := mkPong {
  pong_Nonce : Z;
  pong_PingSentAtUnixMs : Z;
  pong_PongSentAtUnixMs : Z;
  pong_ForegroundCodexIds : list string;
}.

Record Close := mkClose { close_Code : CloseCode; close_Message : string; close_ReconnectAllowed : bool }.

Inductive AuditOutcome := AUDIT_OUTCOME_STARTED | AUDIT_OUTCOME_SUCCEEDED | AUDIT_OUTCOME_FAILED.

Section Frames.
Context {B V : Type}.

(** [remotev1.ServerHello]; its runtime and capability messages are of the generated
    body type [V]. *)
Record ServerHello := mkServerHello {
  sh_ConnectionId : string;
  sh_HostId : string;
  sh_HostRunId : string;
  sh_ProtocolVersion : ProtocolVersion;
  sh_HostVersion : string;
  sh_HeartbeatIntervalMs : Z;
  sh_ConnectionTimeoutMs : Z;
  sh_MaxFrameBytes : Z;
  sh_Runtime : option V;
  sh_Capabilities : option V;
}.

(** [remotev1.Frame.Payload]. *)
Inductive payload :=
| Frame_ClientHello (h : ClientHello)
| Frame_ServerHello (h : ServerHello)
| Frame_Request (r : Request B)
| Frame_Response (r : Response V)
| Frame_Event (e : Event)
| Frame_Ping (p : Ping)
| Frame_Pong (p : Pong)
| Frame_Close (c : Close).

(** The fields of an [AuditRecord] that the gateway sets. *)
Record AuditRecord := mkAuditRecord {
  ar_Connection : bool;
  ar_Outcome : AuditOutcome;
  ar_Operation : string;
  ar_Message : string;
  ar_RequestId : string;
  ar_ConnectionId : string;
  ar_ClientId : string;
  ar_ClientRunId : string;
  ar_ParentRecordId : string;
  ar_Error : option Error;
}.

(** The two methods of [gateway.WireAuditor]. *)
Inductive audit_call :=
| RecordWire (inbound : bool) (connectionID clientID clientRunID raw : string)
    (frame : option payload) (outcome : AuditOutcome)
| Record_ (r : AuditRecord).
End Frames.
Arguments ServerHello V : clear implicits.
Arguments payload B V : clear implicits.
Arguments audit_call B V : clear implicits.

(** protojson on frames: [UnmarshalFrame] is the strict decoder, [None] its error; a
    decoded frame may have no payload. *)
Class FrameJSON (B V : Type) := {
  UnmarshalFrame : string → option (option (payload B V));
  MarshalFrame : payload B V → res string;
}.

(** The generated wrappers of the two connection-scoped RPCs: the message inside a
    request body ([None] when the wrapper holds a nil pointer) and the response bodies. *)
Class WatchBodies (B V : Type) := {
  body_watch : B → option WatchCodexRequest;
  body_unwatch : B → option string;
  value_watch : WatchCodexResponse → V;
  value_unwatch : string → V;
}.

(** ** Configuration *)

(** [gateway.ServerConfig] and whether the collaborators of [gateway.Server] are present:
    [sv_events] the event store, [sv_hello] and [sv_renew] the two callbacks,
    [sv_auditError] the error callback. *)
Record ServerConfig := mkServerConfig {
  sc_MaxFrameBytes : Z;
  sc_SendQueueSize : Z;
  sc_WatchQueueSize : Z;
  sc_HeartbeatInterval : Z;
  sc_ConnectionTimeout : Z;
  sc_MaxWatches : Z;
  sc_HostID : string;
  sc_HostRunID : string;
  sc_HostVersion : string;
  sc_hasEvents : bool;
  sc_hasHello : bool;
  sc_hasRenew : bool;
  sc_hasAuditError : bool;
  sc_dispatcher : wiring;
}.

Definition positive_or (x d : Z) : Z := if x <=? 0 then d else x.

(** [NewServer]: non-positive settings get their defaults; durations are nanoseconds. *)
Definition NewServer (cfg : ServerConfig) : ServerConfig :=
  mkServerConfig
    (positive_or (sc_MaxFrameBytes cfg) (Z.shiftl 4 20))
    (positive_or (sc_SendQueueSize cfg) 256)
    (positive_or (sc_WatchQueueSize cfg) 128)
    (positive_or (sc_HeartbeatInterval cfg) (15 * 1000000000))
    (positive_or (sc_ConnectionTimeout cfg) (45 * 1000000000))
    (positive_or (sc_MaxWatches cfg) 64)
    (sc_HostID cfg) (sc_HostRunID cfg) (sc_HostVersion cfg)
    (sc_hasEvents cfg) (sc_hasHello cfg) (sc_hasRenew cfg) (sc_hasAuditError cfg) (sc_dispatcher cfg).

Definition hasSubprotocol (values : list string) (want : string) : bool :=
  existsb (λ v, existsb (λ part, bool_decide (TrimSpace part = want)) (Split v ","%char)) values.

(** [watchError]. *)
Definition watchError (err : goerr) : ErrorCode * bool :=
  if errorsIs err ErrCodexNotFound then (ERROR_CODE_CODEX_NOT_FOUND, false)
  else if errorsIs err DeadlineExceeded || errorsIs err Canceled then (ERROR_CODE_DEADLINE_EXCEEDED, true)
  else (ERROR_CODE_INTERNAL_ERROR, true).

(** ** The upgrade request *)

(** What [handleConnect] answers: an HTTP error, nothing (the library already
    answered), or a connection with its goroutines. *)
Inductive upgrade := HTTPError (status : Z) (text : string) | UpgradeFailed | Upgraded.

(** The guards of [handleConnect]: [identity] is [None] when there is no provider, and
    otherwise the result of [WhoIs]; [accept] is the result of [websocket.Accept]. *)
Definition handleConnect (isGet : bool) (protocols : list string) (identity : option (res string))
    (accept : bool) : upgrade :=
  if negb isGet then HTTPError 405 "method not allowed"
  else if negb (hasSubprotocol protocols Subprotocol) then HTTPError 400 "required WebSocket subprotocol missing"
  else match identity with
  | None => HTTPError 503 "Tailnet identity unavailable"
  | Some (Err _) => HTTPError 403 "Tailnet identity required"
  | Some (Ok _) => if accept then Upgraded else UpgradeFailed
  end.

(** ** State of a connection *)

Section Connection.
Context {B V : Type}.

(** Which code path queued a frame; a history variable that no code reads. *)
Inductive label :=
| LWatch (w : Watch)               (* the response of [handleWatch] *)
| LUnwatch (codexID : string)      (* the response of [handleUnwatch] *)
| LEvent (codexID : string) (ev : Event) (* an event of the watch of [codexID] *)
| LHello
| LOther.

(** [gateway.outbound], with its label. *)
Record outbound := mkOutbound {
  ob_frame : option (payload B V);
  ob_closeStatus : Z;
  ob_closeReason : string;
  ob_label : label;
}.

(** What the peer sees: a text message, or the closing handshake. *)
Inductive wire :=
| WText (raw : string) (frame : payload B V)
| WClose (status : Z) (reason : string).

Notation audit_call := (audit_call B V).

(** [gateway.connection].  [c_sent] lists everything ever accepted by the channel
    [send] and [c_taken] how much of it the writer has taken; [c_cancelled] is the state
    of the connection's context; [c_watchesMu] says whether the mutex is held.
    [c_wire] and [c_closed] are the WebSocket as the peer sees it, [c_audit],
    [c_auditErrors] and [c_renewals] the calls made on the auditor, on
    [cfg.AuditError] and on [cfg.RenewForegroundCodexes]. *)
Record connection := mkConnection {
  c_id : string;
  c_nodeName : string;
  c_sent : list outbound;
  c_taken : nat;
  c_control : option outbound;
  c_lastValid : Z;
  c_clientID : string;
  c_clientRunID : string;
  c_watchesMu : bool;
  c_watches : gmap string Watch;
  c_closeOnce : bool;
  c_lifecycleCloseOnce : bool;
  c_cancelled : bool;
  c_wire : list wire;
  c_closed : bool;
  c_audit : list audit_call;
  c_auditErrors : list goerr;
  c_renewals : list (list string);
}.

Definition set_c_sent (x : list outbound) (c : connection) : connection :=
  mkConnection (c_id c) (c_nodeName c) x (c_taken c) (c_control c) (c_lastValid c) (c_clientID c)
    (c_clientRunID c) (c_watchesMu c) (c_watches c) (c_closeOnce c) (c_lifecycleCloseOnce c)
    (c_cancelled c) (c_wire c) (c_closed c) (c_audit c) (c_auditErrors c) (c_renewals c).

Definition set_c_taken (x : nat) (c : connection) : connection :=
  mkConnection (c_id c) (c_nodeName c) (c_sent c) x (c_control c) (c_lastValid c) (c_clientID c)
    (c_clientRunID c) (c_watchesMu c) (c_watches c) (c_closeOnce c) (c_lifecycleCloseOnce c)
    (c_cancelled c) (c_wire c) (c_closed c) (c_audit c) (c_auditErrors c) (c_renewals c).

Definition set_c_control (x : option outbound) (c : connection) : connection :=
  mkConnection (c_id c) (c_nodeName c) (c_sent c) (c_taken c) x (c_lastValid c) (c_clientID c)
    (c_clientRunID c) (c_watchesMu c) (c_watches c) (c_closeOnce c) (c_lifecycleCloseOnce c)
    (c_cancelled c) (c_wire c) (c_closed c) (c_audit c) (c_auditErrors c) (c_renewals c).

Definition set_c_lastValid (x : Z) (c : connection) : connection :=
  mkConnection (c_id c) (c_nodeName c) (c_sent c) (c_taken c) (c_control c) x (c_clientID c)
    (c_clientRunID c) (c_watchesMu c) (c_watches c) (c_closeOnce c) (c_lifecycleCloseOnce c)
    (c_cancelled c) (c_wire c) (c_closed c) (c_audit c) (c_auditErrors c) (c_renewals c).

Definition set_c_watchesMu (x : bool) (c : connection) : connection :=
  mkConnection (c_id c) (c_nodeName c) (c_sent c) (c_taken c) (c_control c) (c_lastValid c)
    (c_clientID c) (c_clientRunID c) x (c_watches c) (c_closeOnce c) (c_lifecycleCloseOnce c)
    (c_cancelled c) (c_wire c) (c_closed c) (c_audit c) (c_auditErrors c) (c_renewals c).

Definition set_c_watches (x : gmap string Watch) (c : connection) : connection :=
  mkConnection (c_id c) (c_nodeName c) (c_sent c) (c_taken c) (c_control c) (c_lastValid c)
    (c_clientID c) (c_clientRunID c) (c_watchesMu c) x (c_closeOnce c) (c_lifecycleCloseOnce c)
    (c_cancelled c) (c_wire c) (c_closed c) (c_audit c) (c_auditErrors c) (c_renewals c).

Definition set_c_closeOnce (x : bool) (c : connection) : connection :=
  mkConnection (c_id c) (c_nodeName c) (c_sent c) (c_taken c) (c_control c) (c_lastValid c)
    (c_clientID c) (c_clientRunID c) (c_watchesMu c) (c_watches c) x (c_lifecycleCloseOnce c)
    (c_cancelled c) (c_wire c) (c_closed c) (c_audit c) (c_auditErrors c) (c_renewals c).

Definition set_c_lifecycleCloseOnce (x : bool) (c : connection) : connection :=
  mkConnection (c_id c) (c_nodeName c) (c_sent c) (c_taken c) (c_control c) (c_lastValid c)
    (c_clientID c) (c_clientRunID c) (c_watchesMu c) (c_watches c) (c_closeOnce c) x (c_cancelled c)
    (c_wire c) (c_closed c) (c_audit c) (c_auditErrors c) (c_renewals c).

Definition set_c_cancelled (x : bool) (c : connection) : connection :=
  mkConnection (c_id c) (c_nodeName c) (c_sent c) (c_taken c) (c_control c) (c_lastValid c)
    (c_clientID c) (c_clientRunID c) (c_watchesMu c) (c_watches c) (c_closeOnce c)
    (c_lifecycleCloseOnce c) x (c_wire c) (c_closed c) (c_audit c) (c_auditErrors c) (c_renewals c).

Definition set_c_wire (x : list wire) (c : connection) : connection :=
  mkConnection (c_id c) (c_nodeName c) (c_sent c) (c_taken c) (c_control c) (c_lastValid c)
    (c_clientID c) (c_clientRunID c) (c_watchesMu c) (c_watches c) (c_closeOnce c)
    (c_lifecycleCloseOnce c) (c_cancelled c) x (c_closed c) (c_audit c) (c_auditErrors c)
    (c_renewals c).

Definition set_c_closed (x : bool) (c : connection) : connection :=
  mkConnection (c_id c) (c_nodeName c) (c_sent c) (c_taken c) (c_control c) (c_lastValid c)
    (c_clientID c) (c_clientRunID c) (c_watchesMu c) (c_watches c) (c_closeOnce c)
    (c_lifecycleCloseOnce c) (c_cancelled c) (c_wire c) x (c_audit c) (c_auditErrors c)
    (c_renewals c).

Definition set_c_audit (x : list audit_call) (c : connection) : connection :=
  mkConnection (c_id c) (c_nodeName c) (c_sent c) (c_taken c) (c_control c) (c_lastValid c)
    (c_clientID c) (c_clientRunID c) (c_watchesMu c) (c_watches c) (c_closeOnce c)
    (c_lifecycleCloseOnce c) (c_cancelled c) (c_wire c) (c_closed c) x (c_auditErrors c)
    (c_renewals c).

Definition set_c_auditErrors (x : list goerr) (c : connection) : connection :=
  mkConnection (c_id c) (c_nodeName c) (c_sent c) (c_taken c) (c_control c) (c_lastValid c)
    (c_clientID c) (c_clientRunID c) (c_watchesMu c) (c_watches c) (c_closeOnce c)
    (c_lifecycleCloseOnce c) (c_cancelled c) (c_wire c) (c_closed c) (c_audit c) x (c_renewals c).

Definition set_c_renewals (x : list (list string)) (c : connection) : connection :=
  mkConnection (c_id c) (c_nodeName c) (c_sent c) (c_taken c) (c_control c) (c_lastValid c)
    (c_clientID c) (c_clientRunID c) (c_watchesMu c) (c_watches c) (c_closeOnce c)
    (c_lifecycleCloseOnce c) (c_cancelled c) (c_wire c) (c_closed c) (c_audit c) (c_auditErrors c)
    x.

(** The state [handleConnect] creates. *)
Definition new_connection (id nodeName : string) (now : Z) : connection :=
  mkConnection id nodeName [] 0 None now "" "" false ∅ false false false [] false [] [] [].

(** The frames waiting in [send]. *)
Definition send_buf (c : connection) : list outbound := drop (c_taken c) (c_sent c).

(** ** The points of the goroutines *)

Inductive goroutine :=
(* readLoop *)
| GRead (helloDeadline : Z)
(* shutdown, in its four parts *)
| GShutdown (status : Z) (reason : string)
| GLifecycle (reason : string)
| GShutdownLock
| GShutdownWatches
(* writeLoop, writeOutbound, writeFormalClose *)
| GWriter
| GWriterSelect
| GWriteOut (out : outbound) (control : bool)
| GWriting (out : outbound) (frame : payload B V) (raw : string) (control : bool)
| GWriteStatus (out : outbound) (control : bool)
| GFormalClose (code : CloseCode) (message : string) (status : Z)
| GFormalWriting (frame : payload B V) (raw : string) (message : string) (status : Z)
| GFormalEnd (message : string) (status : Z)
(* heartbeat *)
| GHeartbeat (nonce : Z)
(* handleRequest and Dispatcher.Dispatch *)
| GRequest (req : Request B) (parent : string)
| GPrepare (req : Request B) (parent : string)
| GExecute (req : Request B) (parent : string) (reserved : bool)
| GComplete (req : Request B) (parent : string) (resp : Response V)
| GReply (req : Request B) (resp : Response V) (parent : string)
(* handleWatch; the last four hold watchesMu *)
| GWatch (req : Request B) (wq : WatchCodexRequest) (parent : string)
| GWatchOpen (req : Request B) (wq : WatchCodexRequest) (parent : string)
| GWatchReply (req : Request B) (codexID : string) (w : Watch) (parent : string)
| GWatchReplay (codexID : string) (w : Watch) (replay : list Event)
| GWatchUndo (codexID : string) (w : Watch)
(* forwardWatch *)
| GForward (codexID : string) (w : Watch)
| GForwardEvent (codexID : string) (w : Watch) (ev : Event)
| GForwardClosed (codexID : string) (w : Watch)
| GForwardSlow (codexID : string) (w : Watch)
(* handleUnwatch; the second holds watchesMu *)
| GUnwatch (req : Request B) (codexID : string) (parent : string)
| GUnwatchReply (req : Request B) (codexID : string) (parent : string)
(* releasing watchesMu, protocolClose followed by the rest of the goroutine, the end *)
| GUnlock
| GClose (code : CloseCode) (message : string) (status : Z) (next : goroutine)
| GDone.
End Connection.
Arguments outbound B V : clear implicits.
Arguments wire B V : clear implicits.
Arguments connection B V : clear implicits.
Arguments goroutine B V : clear implicits.

(** Everything a goroutine can reach. *)
Record world (P D S B V : Type) := mkWorld {
  gw_conn : connection B V;
  gw_events : AStore P;
  gw_dedup : D;
  gw_backend : S;
}.
Arguments mkWorld {P D S B V} _ _ _ _.
Arguments gw_conn {P D S B V} _.
Arguments gw_events {P D S B V} _.
Arguments gw_dedup {P D S B V} _.
Arguments gw_backend {P D S B V} _.

(** What the outside decides in one step: the clock (nanoseconds), the error of the
    request's context, the message read ([None] is an error), whether a write succeeds,
    which ready case a select takes, the watch the range of [shutdown] visits next, and
    the results of the two callbacks. *)
Record oracle (V : Type) := mkOracle {
  or_now : Z;
  or_ctxErr : option goerr;
  or_read : option (MessageType * string);
  or_write : bool;
  or_case : nat;
  or_visit : string;
  or_hello : option (ServerHello V);
  or_renew : option goerr;
}.
Arguments mkOracle {V} _ _ _ _ _ _ _ _.
Arguments or_now {V} _.
Arguments or_ctxErr {V} _.
Arguments or_read {V} _.
Arguments or_write {V} _.
Arguments or_case {V} _.
Arguments or_visit {V} _.
Arguments or_hello {V} _.
Arguments or_renew {V} _.

(** ** Operations *)

Section Server.
Context {P D S B V : Type}.
Context {EP : EventPersistence P} {PJ : ProtoJSON} {BK : Backend S B V} {DD : DedupStore D}
  {PR : ProtoRPC B V} {FJ : FrameJSON B V} {WB : WatchBodies B V}.
Variable cfg : ServerConfig.

(** The auditor, [None] when [server.audit] is nil: the record id and error of a call,
    given the calls before it. *)
Variable auditor : option (list (audit_call B V) → audit_call B V → string * option goerr).

Notation connection := (connection B V).
Notation goroutine := (goroutine B V).
Notation world := (world P D S B V).
Notation oracle := (oracle V).

Definition on_conn (f : connection → connection) (y : world) : world :=
  mkWorld (f (gw_conn y)) (gw_events y) (gw_dedup y) (gw_backend y).
Definition set_events (a : AStore P) (y : world) : world :=
  mkWorld (gw_conn y) a (gw_dedup y) (gw_backend y).
Definition set_dedup (d : D) (y : world) : world :=
  mkWorld (gw_conn y) (gw_events y) d (gw_backend y).
Definition set_backend (b : S) (y : world) : world :=
  mkWorld (gw_conn y) (gw_events y) (gw_dedup y) b.

(** Milliseconds of a clock reading and of a duration. *)
Definition ms (t : Z) : Z := t / 1000000.

(** *** Audit *)

Definition reportAudit (err : option goerr) (c : connection) : connection :=
  match err with
  | Some e => if sc_hasAuditError cfg then set_c_auditErrors (c_auditErrors c ++ [e]) c else c
  | None => c
  end.

(** A call on the auditor; the caller reports its error. *)
Definition audit (call : audit_call B V) (c : connection) : connection * string :=
  match auditor with
  | None => (c, "")
  | Some f =>
      let '(id, err) := f (c_audit c) call in
      (reportAudit err (set_c_audit (c_audit c ++ [call]) c), id)
  end.

Definition auditWire (inbound : bool) (raw : string) (frame : option (payload B V)) (out : AuditOutcome)
    (c : connection) : connection * string :=
  audit (RecordWire inbound (c_id c) (c_clientID c) (c_clientRunID c) raw frame out) c.

Definition response_error (r : Response V) : option Error :=
  match rs_Result r with Some (Result_Error e) => Some e | _ => None end.

Definition rpc_operation (req : Request B) : string :=
  match rq_Request req with Some (k, _) => (operation k).1 | None => "unknown" end.

Definition auditRPC (req : Request B) (resp : Response V) (parent : string) (c : connection) : connection :=
  let out := match response_error resp with Some _ => AUDIT_OUTCOME_FAILED | None => AUDIT_OUTCOME_SUCCEEDED end in
  (audit (Record_ (mkAuditRecord false out ("rpc." +:+ rpc_operation req) "" (requestID (Some req))
     (c_id c) "" "" parent (response_error resp))) c).1.

Definition auditAction (op : string) (out : AuditOutcome) (message : string) (c : connection) : connection :=
  (audit (Record_ (mkAuditRecord true out op message "" (c_id c) (c_clientID c) (c_clientRunID c) "" None)) c).1.

(** *** Queues and the socket *)

Definition send_room (c : connection) : bool := zlen (send_buf c) <? sc_SendQueueSize cfg.

(** [c.enqueue(frame)]: continue with [yes] when the frame was queued; a full queue
    closes the connection and continues with [no]. *)
Definition enqueue (l : label) (frame : payload B V) (yes no : goroutine) (c : connection)
    : connection * goroutine :=
  if send_room c then (set_c_sent (c_sent c ++ [mkOutbound (Some frame) 0 "" l]) c, yes)
  else (c, GClose CLOSE_CODE_SLOW_CONSUMER "bounded send queue is full" 4001 no).

(** [c.enqueueRPC(req, resp, parent)]. *)
Definition enqueueRPC (l : label) (req : Request B) (resp : Response V) (parent : string) (yes no : goroutine)
    (c : connection) : connection * goroutine :=
  enqueue l (Frame_Response resp) yes no (auditRPC req resp parent c).

Definition reconnectAllowed (code : CloseCode) : bool :=
  bool_decide (code = CLOSE_CODE_CONNECTION_TIMEOUT) || bool_decide (code = CLOSE_CODE_SLOW_CONSUMER).

Definition close_frame (code : CloseCode) (message : string) : payload B V :=
  Frame_Close (mkClose code message (reconnectAllowed code)).

(** [c.protocolClose]: [control] has capacity one; [None] when the send would block. *)
Definition protocolClose (code : CloseCode) (message : string) (status : Z) (c : connection) : option connection :=
  if c_closeOnce c then Some c
  else match c_control c with
  | Some _ => None
  | None => Some (set_c_closeOnce true
      (set_c_control (Some (mkOutbound (Some (close_frame code message)) status message LOther)) c))
  end.

(** [c.ws.Close]: only the first call has an effect. *)
Definition ws_Close (status : Z) (reason : string) (c : connection) : connection :=
  if c_closed c then c
  else set_c_closed true (set_c_wire (c_wire c ++ [WClose status reason]) c).

(** [c.ws.Write]: the outcome the oracle asks for, which cannot be success after the
    context was cancelled or the closing handshake was started. *)
Definition ws_Write (o : oracle) (raw : string) (frame : payload B V) (c : connection) : connection * bool :=
  if or_write o && negb (c_cancelled c) && negb (c_closed c)
  then (set_c_wire (c_wire c ++ [WText raw frame]) c, true)
  else (c, false).

Definition cancel (c : connection) : connection := set_c_cancelled true c.

Definition write_outcome (ok : bool) : AuditOutcome := if ok then AUDIT_OUTCOME_SUCCEEDED else AUDIT_OUTCOME_FAILED.

(** *** The reader *)

(** The end of [readLoop]. *)
Definition read_end : goroutine := GShutdown StatusNormalClosure "connection closed".

(** [c.sendHello()]; [provided] is the result of [cfg.Hello]. *)
Definition server_hello (provided : option (ServerHello V)) (c : connection) : ServerHello V :=
  let v := mkProtocolVersion 1 2 0 in
  let hb := u64 (ms (sc_HeartbeatInterval cfg)) in
  let ct := u64 (ms (sc_ConnectionTimeout cfg)) in
  let mf := u64 (sc_MaxFrameBytes cfg) in
  match (if sc_hasHello cfg then provided else None) with
  | Some h => mkServerHello (c_id c) (sc_HostID cfg) (sc_HostRunID cfg) v (sh_HostVersion h) hb ct mf
                (sh_Runtime h) (sh_Capabilities h)
  | None => mkServerHello (c_id c) (sc_HostID cfg) (sc_HostRunID cfg) v (sc_HostVersion cfg) hb ct mf None None
  end.

(** Whether the hello names the client and the one supported version. *)
Definition hello_valid (h : ClientHello) : bool :=
  negb (str_empty (ch_ClientId h)) && negb (str_empty (ch_ClientRunId h)) &&
  match ch_ProtocolVersion h with
  | Some v => (pv_Major v =? 1) && (pv_Minor v =? 2) && (pv_Patch v =? 0)
  | None => false
  end.

Definition set_client (h : ClientHello) (c : connection) : connection :=
  mkConnection (c_id c) (c_nodeName c) (c_sent c) (c_taken c) (c_control c) (c_lastValid c)
    (ch_ClientId h) (ch_ClientRunId h) (c_watchesMu c) (c_watches c) (c_closeOnce c) (c_lifecycleCloseOnce c)
    (c_cancelled c) (c_wire c) (c_closed c) (c_audit c) (c_auditErrors c) (c_renewals c).

(** The first frame. *)
Definition handle_hello (o : oracle) (again : goroutine) (p : payload B V) (c : connection)
    : connection * list goroutine :=
  match p with
  | Frame_ClientHello h =>
      if hello_valid h then
        let c := set_client h c in
        let '(c, g) := enqueue LHello (Frame_ServerHello (server_hello (or_hello o) c)) again again c in (c, [g])
      else (c, [GClose CLOSE_CODE_PROTOCOL_VERSION_UNSUPPORTED "protocol 1.2.0 and client identity are required"
                  StatusProtocolError read_end])
  | _ => (c, [GClose CLOSE_CODE_HELLO_REQUIRED "ClientHello must be the first frame" StatusProtocolError read_end])
  end.

(** Every later frame; a request is handled by a goroutine of its own. *)
Definition handle_frame (o : oracle) (again : goroutine) (parent : string) (p : payload B V) (c : connection)
    : connection * list goroutine :=
  match p with
  | Frame_ClientHello _ =>
      (c, [GClose CLOSE_CODE_INVALID_FRAME "duplicate ClientHello" StatusProtocolError read_end])
  | Frame_Request r => (c, [again; GRequest r parent])
  | Frame_Ping p =>
      let '(c, g) := enqueue LOther (Frame_Pong (mkPong (ping_Nonce p) (ping_SentAtUnixMs p) (ms (or_now o)) []))
                       again again c in (c, [g])
  | Frame_Pong p =>
      if negb (bool_decide (pong_ForegroundCodexIds p = [])) && sc_hasRenew cfg
      then (reportAudit (or_renew o) (set_c_renewals (c_renewals c ++ [pong_ForegroundCodexIds p]) c), [again])
      else (c, [again])
  | Frame_Close _ => (c, [read_end])
  | _ => (c, [GClose CLOSE_CODE_INVALID_FRAME "client frame type is not allowed" StatusProtocolError read_end])
  end.

Definition handleRaw (o : oracle) (typ : MessageType) (raw : string) (helloOnly : bool) (again : goroutine)
    (c : connection) : connection * list goroutine :=
  if sc_MaxFrameBytes cfg <? slen raw then
    ((auditWire true raw None AUDIT_OUTCOME_FAILED c).1,
     [GClose CLOSE_CODE_FRAME_TOO_LARGE "inbound frame exceeds limit" StatusMessageTooBig read_end])
  else match typ with
  | MessageBinary =>
      (c, [GClose CLOSE_CODE_INVALID_FRAME "binary WebSocket messages are unsupported" StatusUnsupportedData read_end])
  | MessageText =>
      match UnmarshalFrame raw with
      | None | Some None =>
          ((auditWire true raw None AUDIT_OUTCOME_FAILED c).1,
           [GClose CLOSE_CODE_INVALID_FRAME "invalid ProtoJSON Frame" StatusProtocolError read_end])
      | Some (Some p) =>
          let '(c, parent) := auditWire true raw (Some p) AUDIT_OUTCOME_SUCCEEDED c in
          let c := set_c_lastValid (or_now o) c in
          if helloOnly then handle_hello o again p c else handle_frame o again parent p c
      end
  end.

(** One turn of [readLoop]; before the hello the read has a deadline. *)
Definition readLoop (o : oracle) (helloDeadline : Z) (c : connection) : option (connection * list goroutine) :=
  let helloOnly := str_empty (c_clientID c) in
  match or_read o with
  | None => Some (c, [read_end])
  | Some (typ, raw) =>
      if c_cancelled c || (helloOnly && (helloDeadline <? or_now o)) then None
      else Some (handleRaw o typ raw helloOnly (GRead helloDeadline) c)
  end.

(** *** The writer *)

(** The second select of [writeLoop]: case 0 is [control], 1 is [send], 2 is [ctx.Done]. *)
Definition writer_select (o : oracle) (c : connection) : option (connection * goroutine) :=
  match or_case o with
  | 0%nat => out ← c_control c; Some (set_c_control None c, GWriteOut out true)
  | 1%nat => match send_buf c with
             | out :: _ => Some (set_c_taken (Datatypes.S (c_taken c)) c, GWriteOut out false)
             | [] => None
             end
  | _ => if c_cancelled c then Some (c, GDone) else None
  end.

(** [writeOutbound] up to the write. *)
Definition write_start (out : outbound B V) (control : bool) (c : connection) : connection * goroutine :=
  match ob_frame out with
  | None => (c, GWriteStatus out control)
  | Some f =>
      match MarshalFrame f with
      | Err _ => (c, GFormalClose CLOSE_CODE_INTERNAL_PROTOCOL_ERROR "outbound frame encoding failed" StatusInternalError)
      | Ok raw =>
          if sc_MaxFrameBytes cfg <? slen raw then
            (c, GFormalClose CLOSE_CODE_FRAME_TOO_LARGE "outbound frame exceeds limit" StatusMessageTooBig)
          else ((auditWire false raw (Some f) AUDIT_OUTCOME_STARTED c).1, GWriting out f raw control)
      end
  end.

(** The write itself and its audit record. *)
Definition write_frame (o : oracle) (raw : string) (f : payload B V) (c : connection) : connection * bool :=
  let '(c, ok) := ws_Write o raw f c in
  ((auditWire false raw (Some f) (write_outcome ok) c).1, ok).

(** The end of [writeOutbound]: start the closing handshake or go on. *)
Definition write_status (out : outbound B V) (control : bool) (c : connection) : connection * goroutine :=
  if ob_closeStatus out =? 0 then (c, if control then GDone else GWriter)
  else (cancel (ws_Close (ob_closeStatus out) (ob_closeReason out) c), GDone).

(** [writeFormalClose] up to the write. *)
Definition formal_start (code : CloseCode) (message : string) (status : Z) (c : connection) : connection * goroutine :=
  let f := close_frame code message in
  match MarshalFrame f with
  | Err _ => (c, GFormalEnd message status)
  | Ok raw => ((auditWire false raw (Some f) AUDIT_OUTCOME_STARTED c).1, GFormalWriting f raw message status)
  end.

(** *** Heartbeat *)

(** One tick (case 0) or the end of the context. *)
Definition heartbeat (o : oracle) (nonce : Z) (c : connection) : option (connection * goroutine) :=
  match or_case o with
  | 0%nat =>
      if sc_ConnectionTimeout cfg <=? or_now o - c_lastValid c then
        Some (c, GClose CLOSE_CODE_CONNECTION_TIMEOUT "connection timed out" 4000 GDone)
      else
        let nonce := u64_incr nonce in
        Some (enqueue LOther (Frame_Ping (mkPing nonce (ms (or_now o)))) (GHeartbeat nonce) (GHeartbeat nonce) c)
  | _ => if c_cancelled c then Some (c, GDone) else None
  end.

(** *** Requests *)

Notation reject now req code msg retry parent :=
  (GReply req (errorResponse (ms now) (rq_RequestId req) code msg retry) parent).

(** The checks of [handleWatch] before it takes the lock. *)
Definition watch_checks (now : Z) (ctxErr : option goerr) (req : Request B) (wq : option WatchCodexRequest)
    (parent : string) : goroutine :=
  match wq with
  | None => reject now req ERROR_CODE_INVALID_REQUEST "codex_id is required" false parent
  | Some wq =>
      if str_empty (wq_CodexId wq) then reject now req ERROR_CODE_INVALID_REQUEST "codex_id is required" false parent
      else match ctxErr with
      | Some _ => reject now req ERROR_CODE_DEADLINE_EXCEEDED "request deadline has elapsed" true parent
      | None =>
          if negb (sc_hasEvents cfg) then reject now req ERROR_CODE_HOST_NOT_READY "event store unavailable" true parent
          else match wq_AfterEventSeq wq with
          | Some _ =>
              if str_empty (wq_AfterHostRunId wq) then
                reject now req ERROR_CODE_INVALID_REQUEST "after_host_run_id is required with after_event_seq" false parent
              else GWatch req wq parent
          | None =>
              if negb (str_empty (wq_AfterHostRunId wq)) then
                reject now req ERROR_CODE_INVALID_REQUEST "after_host_run_id requires after_event_seq" false parent
              else GWatch req wq parent
          end
      end
  end.

Definition unwatch_checks (now : Z) (ctxErr : option goerr) (req : Request B) (id : option string) (parent : string)
    : goroutine :=
  match ctxErr with
  | Some _ => reject now req ERROR_CODE_DEADLINE_EXCEEDED "request deadline has elapsed" true parent
  | None =>
      match id with
      | None => reject now req ERROR_CODE_INVALID_REQUEST "codex_id is required" false parent
      | Some id =>
          if str_empty id then reject now req ERROR_CODE_INVALID_REQUEST "codex_id is required" false parent
          else GUnwatch req id parent
      end
  end.

(** [ctx.Err()] of a request: the oracle's, and [Canceled] at the latest when the
    connection's context is. *)
Definition request_ctxErr (o : oracle) (c : connection) : option goerr :=
  match or_ctxErr o with
  | Some e => Some e
  | None => if c_cancelled c then Some (ErrSentinel Canceled) else None
  end.

(** [handleRequest] up to its first call. *)
Definition handleRequest (o : oracle) (req : Request B) (parent : string) (c : connection) : goroutine :=
  match validateRequest (ms (or_now o)) (ms (or_now o)) (Some req) with
  | Some invalid => GReply req invalid parent
  | None =>
      match rq_Request req with
      | Some (Rpc_WatchCodex, b) => watch_checks (or_now o) (request_ctxErr o c) req (body_watch b) parent
      | Some (Rpc_UnwatchCodex, b) => unwatch_checks (or_now o) (request_ctxErr o c) req (body_unwatch b) parent
      | _ => GPrepare req parent
      end
  end.

(** The clock readings of a dispatch that happens at [now]. *)
Definition clock_at (now : Z) : clock := mkClock (ms now) now (ms now) now.

(** The response to a dispatch error. *)
Definition dispatch_failed (now : Z) (req : Request B) (e : goerr) : Response V :=
  errorResponse (ms now) (rq_RequestId req) ERROR_CODE_INTERNAL_ERROR (error_text e) true.

Definition dispatch_prepare (o : oracle) (req : Request B) (parent : string) (y : world) : world * goroutine :=
  let '(d, r) := prepare (sc_dispatcher cfg) (clock_at (or_now o)) req (gw_dedup y) in
  (set_dedup d y,
   match r with
   | Ok (Reply resp) => GReply req resp parent
   | Ok (Execute reserved) => GExecute req parent reserved
   | Err e => GReply req (dispatch_failed (or_now o) req e) parent
   end).

Definition dispatch_execute (o : oracle) (req : Request B) (parent : string) (reserved : bool) (y : world)
    : world * goroutine :=
  let '(b, r) := call (ms (or_now o)) (request_ctxErr o (gw_conn y)) req (gw_backend y) in
  (set_backend b y,
   match r with
   | Ok resp => if reserved then GComplete req parent resp else GReply req resp parent
   | Err e => GReply req (dispatch_failed (or_now o) req e) parent
   end).

Definition dispatch_complete (o : oracle) (req : Request B) (parent : string) (resp : Response V) (y : world)
    : world * goroutine :=
  let '(d, r) := complete (clock_at (or_now o)) req resp (gw_dedup y) in
  (set_dedup d y,
   match r with
   | Ok resp => GReply req resp parent
   | Err e => GReply req (dispatch_failed (or_now o) req e) parent
   end).

(** *** Watches *)

(** [watch.Cancel(); delete(c.watches, id)]. *)
Definition drop_watch (id : string) (w : Watch) (y : world) : world :=
  on_conn (λ c, set_c_watches (delete id (c_watches c)) c) (set_events (Cancel w (gw_events y)) y).

(** The first part of [handleWatch]: take the lock and drop a previous watch. *)
Definition watch_lock (req : Request B) (wq : WatchCodexRequest) (parent : string) (y : world)
    : option (world * goroutine) :=
  let c := gw_conn y in
  if c_watchesMu c then None
  else
    let y := on_conn (set_c_watchesMu true) y in
    Some (match c_watches c !! wq_CodexId wq with
          | Some old => drop_watch (wq_CodexId wq) old y
          | None => y
          end, GWatchOpen req wq parent).

(** Whether the cursor comes from another run of the Host. *)
Definition other_run (wq : WatchCodexRequest) : bool :=
  match wq_AfterEventSeq wq with
  | Some _ => negb (bool_decide (wq_AfterHostRunId wq = sc_HostRunID cfg))
  | None => false
  end.

(** The call on the event store. *)
Definition open_watch (wq : WatchCodexRequest) : M (AStore P) Watch :=
  if other_run wq then ForceReset (wq_CodexId wq) WATCH_RESET_REASON_HOST_RESTARTED (sc_WatchQueueSize cfg)
  else Store_Watch (wq_CodexId wq) (wq_AfterEventSeq wq) (sc_WatchQueueSize cfg).

(** The limit, and the registration in the event store and in [c.watches]. *)
Definition watch_open (o : oracle) (req : Request B) (wq : WatchCodexRequest) (parent : string) (y : world)
    : world * goroutine :=
  if sc_MaxWatches cfg <=? Z.of_nat (size (c_watches (gw_conn y))) then
    (on_conn (set_c_watchesMu false) y,
     reject (or_now o) req ERROR_CODE_CONFLICT "maximum watches reached" false parent)
  else
    let '(a, r) := open_watch wq (gw_events y) in
    let y := set_events a y in
    match r with
    | Err e =>
        let '(code, retry) := watchError e in
        (on_conn (set_c_watchesMu false) y, reject (or_now o) req code (error_text e) retry parent)
    | Ok w =>
        (on_conn (λ c, set_c_watches (<[wq_CodexId wq := w]> (c_watches c)) c) y,
         GWatchReply req (wq_CodexId wq) w parent)
    end.

Definition watch_reply (o : oracle) (req : Request B) (id : string) (w : Watch) (parent : string) (c : connection)
    : connection * goroutine :=
  let resp := mkResponse (rq_RequestId req) (ms (or_now o))
                (Some (Result_Value Rpc_WatchCodex (value_watch (wt_Response w)) false)) in
  enqueueRPC (LWatch w) req resp parent (GWatchReplay id w (wt_Replay w)) (GWatchUndo id w) c.

(** One iteration of the replay loop, or the end of [handleWatch]. *)
Definition watch_replay (id : string) (w : Watch) (replay : list Event) (c : connection) : connection * goroutine :=
  match replay with
  | ev :: replay => enqueue (LEvent id ev) (Frame_Event ev) (GWatchReplay id w replay) (GWatchUndo id w) c
  | [] => (set_c_watchesMu false c, GForward id w)
  end.

Definition unwatch_lock (req : Request B) (id : string) (parent : string) (y : world) : option (world * goroutine) :=
  let c := gw_conn y in
  if c_watchesMu c then None
  else
    let y := on_conn (set_c_watchesMu true) y in
    Some (match c_watches c !! id with Some w => drop_watch id w y | None => y end, GUnwatchReply req id parent).

Definition unwatch_reply (o : oracle) (req : Request B) (id : string) (parent : string) (c : connection)
    : connection * goroutine :=
  let resp := mkResponse (rq_RequestId req) (ms (or_now o))
                (Some (Result_Value Rpc_UnwatchCodex (value_unwatch id) false)) in
  enqueueRPC (LUnwatch id) req resp parent GUnlock GUnlock c.

(** [c.watches[id] == watch]: two watches are the same object when they own the same
    channel. *)
Definition is_current (id : string) (w : Watch) (c : connection) : bool :=
  match c_watches c !! id with Some w' => bool_decide (wt_chan w' = wt_chan w) | None => false end.

(** The select of [forwardWatch]: case 0 is [Events], 1 is [Slow], 2 is [ctx.Done]. *)
Definition forward_select (o : oracle) (id : string) (w : Watch) (y : world) : option (world * goroutine) :=
  ch ← as_chans (gw_events y) !! wt_chan w;
  match or_case o with
  | 0%nat =>
      match ch_buf ch with
      | ev :: _ => Some (set_events (Receive (wt_chan w) (gw_events y)) y, GForwardEvent id w ev)
      | [] => if ch_closed ch then Some (y, GForwardClosed id w) else None
      end
  | 1%nat => if ch_slow ch then Some (y, GForwardSlow id w) else None
  | _ => if c_cancelled (gw_conn y) then Some (y, GDone) else None
  end.

(** Under the lock: queue the event if the watch is still the current one. *)
Definition forward_event (id : string) (w : Watch) (ev : Event) (c : connection) : option (connection * goroutine) :=
  if c_watchesMu c then None
  else if is_current id w c then
    if send_room c then Some (enqueue (LEvent id ev) (Frame_Event ev) (GForward id w) GUnlock c)
    else Some (enqueue (LEvent id ev) (Frame_Event ev) (GForward id w) GUnlock (set_c_watchesMu true c))
  else Some (c, GDone).

Definition forward_closed (id : string) (w : Watch) (c : connection) : option connection :=
  if c_watchesMu c then None
  else Some (if is_current id w c then set_c_watches (delete id (c_watches c)) c else c).

Definition forward_slow (id : string) (w : Watch) (c : connection) : option goroutine :=
  if c_watchesMu c then None
  else Some (if is_current id w c
             then GClose CLOSE_CODE_SLOW_CONSUMER "bounded watch queue is full" 4001 GDone else GDone).

(** *** Shutdown *)

Definition shutdown_once (status : Z) (reason : string) (c : connection) : connection :=
  if c_closeOnce c then c else ws_Close status reason (cancel (set_c_closeOnce true c)).

Definition shutdown_lifecycle (reason : string) (c : connection) : connection :=
  if c_lifecycleCloseOnce c then c
  else auditAction "connection.close" AUDIT_OUTCOME_SUCCEEDED reason (set_c_lifecycleCloseOnce true c).

(** One iteration of the loop over the watches, or the end of [shutdown]. *)
Definition shutdown_watches (o : oracle) (y : world) : option (world * goroutine) :=
  if bool_decide (c_watches (gw_conn y) = ∅) then Some (on_conn (set_c_watchesMu false) y, GDone)
  else w ← c_watches (gw_conn y) !! or_visit o;
       Some (drop_watch (or_visit o) w y, GShutdownWatches).

(** *** One step of a goroutine *)

Definition one (c : connection * goroutine) (y : world) : world * list goroutine := (on_conn (λ _, c.1) y, [c.2]).
Definition all (c : world * goroutine) : world * list goroutine := (c.1, [c.2]).

(** From the point [g]: the world it leaves and the goroutines that take its place;
    [None] when it is blocked. *)
Definition advance (o : oracle) (g : goroutine) (y : world) : option (world * list goroutine) :=
  let c := gw_conn y in
  match g with
  | GRead dl => '(c, gs) ← readLoop o dl c; Some (on_conn (λ _, c) y, gs)
  | GShutdown status reason => Some (one (shutdown_once status reason c, GLifecycle reason) y)
  | GLifecycle reason => Some (one (shutdown_lifecycle reason c, GShutdownLock) y)
  | GShutdownLock => if c_watchesMu c then None else Some (one (set_c_watchesMu true c, GShutdownWatches) y)
  | GShutdownWatches => all <$> shutdown_watches o y
  | GWriter => Some (match c_control c with
                     | Some out => one (set_c_control None c, GWriteOut out true) y
                     | None => one (c, GWriterSelect) y
                     end)
  | GWriterSelect => (λ r, one r y) <$> writer_select o c
  | GWriteOut out control => Some (one (write_start out control c) y)
  | GWriting out f raw control =>
      let '(c, ok) := write_frame o raw f c in
      Some (one (c, if ok then GWriteStatus out control else GShutdown StatusInternalError "write failed") y)
  | GWriteStatus out control => Some (one (write_status out control c) y)
  | GFormalClose code message status => Some (one (formal_start code message status c) y)
  | GFormalWriting f raw message status => Some (one ((write_frame o raw f c).1, GFormalEnd message status) y)
  | GFormalEnd message status => Some (one (cancel (ws_Close status message c), GDone) y)
  | GHeartbeat nonce => (λ r, one r y) <$> heartbeat o nonce c
  | GRequest req parent => Some (one (c, handleRequest o req parent c) y)
  | GPrepare req parent => Some (all (dispatch_prepare o req parent y))
  | GExecute req parent reserved => Some (all (dispatch_execute o req parent reserved y))
  | GComplete req parent resp => Some (all (dispatch_complete o req parent resp y))
  | GReply req resp parent => Some (one (enqueueRPC LOther req resp parent GDone GDone c) y)
  | GWatch req wq parent => all <$> watch_lock req wq parent y
  | GWatchOpen req wq parent => Some (all (watch_open o req wq parent y))
  | GWatchReply req id w parent => Some (one (watch_reply o req id w parent c) y)
  | GWatchReplay id w replay => Some (one (watch_replay id w replay c) y)
  | GWatchUndo id w => Some (on_conn (set_c_watchesMu false) (drop_watch id w y), [])
  | GForward id w => all <$> forward_select o id w y
  | GForwardEvent id w ev => (λ r, one r y) <$> forward_event id w ev c
  | GForwardClosed id w => (λ c, (on_conn (λ _, c) y, [])) <$> forward_closed id w c
  | GForwardSlow id w => (λ g, (y, [g])) <$> forward_slow id w c
  | GUnwatch req id parent => all <$> unwatch_lock req id parent y
  | GUnwatchReply req id parent => Some (one (unwatch_reply o req id parent c) y)
  | GUnlock => Some (on_conn (set_c_watchesMu false) y, [])
  | GClose code message status next => (λ c, one (c, next) y) <$> protocolClose code message status c
  | GDone => Some (y, [])
  end.

(** The goroutines [handleConnect] starts, and the connection they share. *)
Definition connect (o : oracle) (id nodeName : string) : connection * list goroutine :=
  (auditAction "connection.open" AUDIT_OUTCOME_SUCCEEDED nodeName (new_connection id nodeName (or_now o)),
   [GWriter; GHeartbeat 0; GRead (or_now o + sc_ConnectionTimeout cfg)]).
End Server.
