(* ===== verification/ServerSystem.v ===== *)
(** * Gateway server: the interleaved connection and its basic guarantees

    [gw_step] lets any goroutine of a connection move, and the rest of the Host use the
    event store and the request database in between.  This file proves what does not
    depend on the watches: bounds of the queues, the hello gate, the discipline of what
    is written on the socket, and what happens when a closing frame cannot be written. *)

From Stdlib Require Import Ascii String.
From stdpp Require Import base tactics numbers list gmap strings.
From S2P Require Import Prelude GoError GoStrings Remote Activity Dispatcher Server.
Local Open Scope string_scope.
Local Open Scope Z_scope.
Local Open Scope list_scope.

(** ** The step system *)

(** A connection with its goroutines; [g_trace] lists the events published so far on the
    whole Host. *)
Record gateway (P D S B V : Type) := mkGateway {
  g_world : world P D S B V;
  g_routines : list (goroutine B V);
  g_trace : list Event;
}.
Arguments mkGateway {P D S B V} _ _ _.
Arguments g_world {P D S B V} _.
Arguments g_routines {P D S B V} _.
Arguments g_trace {P D S B V} _.

(** The channel a goroutine reads or is about to read. *)
Fixpoint own_chan {B V} (g : goroutine B V) : option nat :=
  match g with
  | GWatchReply _ _ w _ | GWatchReplay _ w _ | GWatchUndo _ w
  | GForward _ w | GForwardEvent _ w _ | GForwardClosed _ w | GForwardSlow _ w => Some (wt_chan w)
  | GClose _ _ _ next => own_chan next
  | _ => None
  end.

Section System.
Context {P D S B V : Type}.
Context {EP : EventPersistence P} {EL : EventPersistenceLaws P} {PJ : ProtoJSON} {BK : Backend S B V}
  {DD : DedupStore D} {PR : ProtoRPC B V} {FJ : FrameJSON B V} {WB : WatchBodies B V}.
Variable cfg : ServerConfig.
Variable auditor : option (list (audit_call B V) → audit_call B V → string * option goerr).

Notation connection := (connection B V).
Notation goroutine := (goroutine B V).
Notation world := (world P D S B V).
Notation gateway := (gateway P D S B V).
Notation oracle := (oracle V).
Notation advance := (advance cfg auditor).
Implicit Types (c : connection) (g : goroutine) (y : world) (o : oracle).

(** Others do not receive from the channels of this connection. *)
Definition foreign (op : a_op P) (gs : list goroutine) : Prop :=
  ∀ k, op = AReceive k → Forall (λ g, own_chan g ≠ Some k) gs.

Inductive gw_step : gateway → gateway → Prop :=
| gw_run o y y' t1 g t2 gs tr :
    advance o g y = Some (y', gs) →
    gw_step (mkGateway y (t1 ++ g :: t2) tr) (mkGateway y' (t1 ++ gs ++ t2) tr)
| gw_store op y gs tr a evs :
    op_ok op → foreign op gs → arun op (gw_events y) = (a, evs) →
    gw_step (mkGateway y gs tr) (mkGateway (set_events a y) gs (tr ++ evs))
| gw_database p y gs tr :
    env_step (gw_events y) p →
    gw_step (mkGateway y gs tr) (mkGateway (set_events (set_as_persist p (gw_events y)) y) gs tr)
| gw_requests d b y gs tr :
    gw_step (mkGateway y gs tr) (mkGateway (set_backend b (set_dedup d y)) gs tr).

(** A connection that has just been accepted, on a Host in any state it can reach. *)
Inductive gw_start : gateway → Prop :=
| gw_accept o id nodeName p audited cap tr a d b :
    ep_inv p → asteps (NewStore p audited cap) tr a →
    gw_start (mkGateway (mkWorld (connect cfg auditor o id nodeName).1 a d b)
                (connect cfg auditor o id nodeName).2 tr).

Definition gw_reach (z : gateway) : Prop := ∃ z0, gw_start z0 ∧ rtc gw_step z0 z.

(** Invariants of reachable states, by induction on the run. *)
Lemma gw_reach_inv (I : gateway → Prop) :
  (∀ z, gw_start z → I z) → (∀ z z', I z → gw_step z z' → I z') → ∀ z, gw_reach z → I z.
Proof.
  intros H0 Hs z (z0&Hz0&Hr). apply H0 in Hz0. clear H0. induction Hr; eauto.
Qed.

(** A relation between consecutive connections lifts to invariants of the connection. *)
Lemma conn_inv (I : connection → Prop) :
  (∀ o id n, I (connect cfg auditor o id n).1) →
  (∀ o g y y' gs, advance o g y = Some (y', gs) → I (gw_conn y) → I (gw_conn y')) →
  ∀ z, gw_reach z → I (gw_conn (g_world z)).
Proof.
  intros H0 Hs. apply gw_reach_inv.
  - intros z Hz. destruct Hz. apply H0.
  - intros z z' Hz Hstep. destruct Hstep; simpl in *; eauto.
Qed.

(** ** What audit records leave alone *)

(** Everything but the audit log and the time of the last frame. *)
Definition core (c : connection) :=
  (c_sent c, c_taken c, c_control c, (c_watchesMu c, c_watches c), (c_closeOnce c, c_cancelled c),
   (c_wire c, c_closed c, c_clientID c)).

Lemma reportAudit_core e (c : connection) : core (reportAudit cfg e c) = core c.
Proof. unfold reportAudit. by repeat case_match. Qed.

Lemma audit_core call c : core (audit cfg auditor call c).1 = core c.
Proof. unfold audit. repeat case_match; simplify_eq/=; [|done]. by rewrite reportAudit_core. Qed.

Lemma audit_client call c : c_clientID (audit cfg auditor call c).1 = c_clientID c.
Proof. pose proof (audit_core call c) as H. by injection H. Qed.

(** The result of [audit] as a connection with the same core. *)
Lemma audit_split call c :
  ∃ c' id, audit cfg auditor call c = (c', id) ∧ core c' = core c.
Proof.
  destruct (audit cfg auditor call c) as [c' id] eqn:E. exists c', id. split; [done|].
  replace c' with (audit cfg auditor call c).1 by (by rewrite E). apply audit_core.
Qed.

(** ** The input and output side of a step

    [io_other c c'] is what a goroutine other than the writer can do: queue one frame
    when there is room, and win [closeOnce], either with a closing frame for the writer
    or by closing the socket itself. *)

Definition is_writer (g : goroutine) : bool :=
  match g with
  | GWriter | GWriterSelect | GWriteOut _ _ | GWriting _ _ _ _ | GWriteStatus _ _
  | GFormalClose _ _ _ | GFormalWriting _ _ _ _ | GFormalEnd _ _ => true
  | _ => false
  end.

(** The writer among the goroutines, if it still runs. *)
Definition writers (gs : list goroutine) : list goroutine := filter (λ g, is_writer g = true) gs.

(** No goroutine turns into a writer after a protocol close. *)
Fixpoint never_writes (g : goroutine) : bool :=
  match g with GClose _ _ _ next => never_writes next | _ => negb (is_writer g) end.

(** Who has won [closeOnce]: nobody yet or earlier, a protocol close, a shutdown. *)
Inductive io_close (c c' : connection) : Prop :=
| io_same : c_control c' = c_control c → c_closeOnce c' = c_closeOnce c → c_cancelled c' = c_cancelled c →
    c_wire c' = c_wire c → c_closed c' = c_closed c → io_close c c'
| io_protocol code message status : c_closeOnce c = false → c_closeOnce c' = true →
    c_control c' = Some (mkOutbound (Some (close_frame code message)) status message LOther) →
    c_cancelled c' = c_cancelled c → c_wire c' = c_wire c → c_closed c' = c_closed c → io_close c c'
| io_shutdown status reason : c_closeOnce c = false → c_closeOnce c' = true → c_control c' = c_control c →
    c_cancelled c' = true → c_closed c' = true →
    c_wire c' = (if c_closed c then c_wire c else c_wire c ++ [WClose status reason]) → io_close c c'.

Record io_other (c c' : connection) : Prop := {
  io_taken : c_taken c' = c_taken c;
  io_client : c_clientID c' = c_clientID c ∨ str_empty (c_clientID c) = true ∧ str_empty (c_clientID c') = false;
  io_sent : c_sent c' = c_sent c ∨
    send_room cfg c = true ∧ ∃ f l, c_sent c' = c_sent c ++ [mkOutbound (Some f) 0 "" l];
  io_closing : io_close c c';
}.

Lemma io_other_core c c' : core c' = core c → io_other c c'.
Proof. intros [=]. split; [done|by left|by left|by apply io_same]. Qed.

(** The fields of [io_other], from connections that agree on [core]. *)
Lemma io_other_from c0 c c' : core c0 = core c → io_other c0 c' → io_other c c'.
Proof.
  intros [= E1 E2 E3 E4 E5 E6 E7 E8 E9 E10] [Ht Hcl Hs Hc]. split; [congruence|by rewrite <-E10| |].
  - rewrite <-E1. destruct Hs as [?|[Hr ?]]; [by left|right]. split; [|done].
    revert Hr. unfold send_room, send_buf. by rewrite E1, E2.
  - destruct Hc as [?????|??????????|???????].
    + apply io_same; congruence.
    + eapply io_protocol; try done; congruence.
    + eapply io_shutdown; try done; try congruence. by rewrite <-E8, <-E9.
Qed.

Lemma enqueue_io l f yes no c c' g :
  enqueue cfg l f yes no c = (c', g) → io_other c c' ∧
  ((g = yes ∧ c_sent c' = c_sent c ++ [mkOutbound (Some f) 0 "" l]) ∨
   (c' = c ∧ g = GClose CLOSE_CODE_SLOW_CONSUMER "bounded send queue is full" 4001 no)).
Proof.
  unfold enqueue. destruct (send_room cfg c) eqn:Er; intros [= <- <-].
  - split; [|by left]. split; [done|by left| |by apply io_same]. right. eauto.
  - split; [|by right]. by apply io_other_core.
Qed.

Lemma enqueueRPC_io l req resp parent yes no c c' g :
  enqueueRPC cfg auditor l req resp parent yes no c = (c', g) → io_other c c' ∧
  (g = yes ∨ g = GClose CLOSE_CODE_SLOW_CONSUMER "bounded send queue is full" 4001 no).
Proof.
  unfold enqueueRPC, auditRPC. set (call := Record_ _).
  pose proof (audit_core call c) as Hcore. set (c1 := (audit cfg auditor call c).1) in *.
  intros [Hio Hg]%enqueue_io. split; [by eapply io_other_from|]. destruct Hg as [[? _]|[_ ?]]; auto.
Qed.

Lemma protocolClose_io code message status c c' :
  protocolClose code message status c = Some c' → io_other c c'.
Proof.
  unfold protocolClose. destruct (c_closeOnce c) eqn:Eo; [intros [= <-]; by apply io_other_core|].
  destruct (c_control c); [done|]. intros [= <-]. split; [done|by left|by left|]. by eapply io_protocol.
Qed.

Lemma shutdown_once_io status reason c : io_other c (shutdown_once status reason c).
Proof.
  unfold shutdown_once. destruct (c_closeOnce c) eqn:Eo; [by apply io_other_core|].
  unfold ws_Close. simpl. destruct (c_closed c) eqn:Ec.
  - split; [done|by left|by left|]. apply io_shutdown with status reason; simpl; rewrite ?Ec; done.
  - split; [done|by left|by left|]. apply io_shutdown with status reason; simpl; rewrite ?Ec; done.
Qed.

(** A step that touches neither queues nor socket. *)
Ltac io_idle := split; [reflexivity|left; reflexivity|left; reflexivity|apply io_same; reflexivity].

Lemma drop_watch_io id w (y : world) : io_other (gw_conn y) (gw_conn (drop_watch id w y)).
Proof. io_idle. Qed.

(** A valid hello names the client. *)
Lemma set_client_io h c c' :
  hello_valid h = true → str_empty (c_clientID c) = true → io_other (set_client h c) c' → io_other c c'.
Proof.
  intros Hh Hc [Ht Hid Hs Hcl]. assert (str_empty (ch_ClientId h) = false) as He by (unfold hello_valid in Hh; by to_prop).
  split; [done| |done|].
  - right. split; [done|]. simpl in Hid. destruct Hid as [-> |[? _]]; [done|congruence].
  - destruct Hcl as [?????|??????????|???????]; [by apply io_same|by eapply io_protocol|by eapply io_shutdown].
Qed.

Lemma handle_hello_other o dl p c c' gs :
  handle_hello cfg o (GRead dl) p c = (c', gs) → str_empty (c_clientID c) = true →
  io_other c c' ∧ Forall (λ g, never_writes g = true) gs.
Proof.
  unfold handle_hello. destruct p as [h|h|r|r|e|p|p|cl];
    try (intros [= <- <-] _; split; [by apply io_other_core|by repeat constructor]).
  intros E Hc. revert E. destruct (hello_valid h) eqn:Eh;
    [|intros [= <- <-]; split; [by apply io_other_core|by repeat constructor]].
  set (f := Frame_ServerHello _). destruct (enqueue _ _ _ _ _ _) as [c1 g] eqn:E.
  apply enqueue_io in E as [Hio Hg]. intros [= <- <-].
  split; [by apply set_client_io with h|].
  destruct Hg as [[-> _]|[_ ->]]; by repeat constructor.
Qed.

Lemma handle_frame_other o dl parent p c c' gs :
  handle_frame cfg o (GRead dl) parent p c = (c', gs) → io_other c c' ∧ Forall (λ g, never_writes g = true) gs.
Proof.
  unfold handle_frame. destruct p as [h|h|r|r|e|p|p|cl];
    try (intros [= <- <-]; split; [by apply io_other_core|by repeat constructor]).
  - destruct (enqueue _ _ _ _ _ _) as [c1 g] eqn:E. apply enqueue_io in E as [Hio Hg].
    intros [= <- <-]. split; [done|]. destruct Hg as [[-> _]|[_ ->]]; by repeat constructor.
  - case_match; intros [= <- <-]; (split; [|by repeat constructor]); apply io_other_core; [|done].
    by rewrite reportAudit_core.
Qed.

Lemma readLoop_other o dl c c' gs :
  readLoop cfg auditor o dl c = Some (c', gs) → io_other c c' ∧ Forall (λ g, never_writes g = true) gs.
Proof.
  unfold readLoop. destruct (or_read o) as [[typ raw]|]; cycle 1.
  { intros [= <- <-]. split; [by apply io_other_core|by repeat constructor]. }
  case_match; [done|]. unfold handleRaw, auditWire. intros [= E]. revert E.
  case_match; [intros [= <- <-]; split; [by apply io_other_core, audit_core|by repeat constructor]|].
  destruct typ; [|intros [= <- <-]; split; [by apply io_other_core|by repeat constructor]].
  destruct (UnmarshalFrame raw) as [[p|]|];
    try (intros [= <- <-]; split; [by apply io_other_core, audit_core|by repeat constructor]).
  set (call := RecordWire _ _ _ _ _ _ _). destruct (audit_split call c) as (c1&id&->&Hcore).
  destruct (str_empty (c_clientID c)) eqn:Ee.
  - intros [Hio Hg]%handle_hello_other; [|simpl; by injection Hcore as _ _ _ _ _ _ _ _ _ ->].
    split; [by apply (io_other_from (set_c_lastValid (or_now o) c1))|done].
  - intros [Hio Hg]%handle_frame_other. split; [by apply (io_other_from (set_c_lastValid (or_now o) c1))|done].
Qed.

(** Goroutines that reply, with what they queued. *)
Lemma one_enqueueRPC l req resp parent yes no (y : world) :
  never_writes yes = true → never_writes no = true →
  let r := one (enqueueRPC cfg auditor l req resp parent yes no (gw_conn y)) y in
  io_other (gw_conn y) (gw_conn r.1) ∧ Forall (λ g, never_writes g = true) r.2.
Proof.
  intros Hy Hn. unfold one. destruct (enqueueRPC _ _ _ _ _ _ _ _ _) as [c g] eqn:E.
  apply enqueueRPC_io in E as [Hio Hg]. simpl. split; [done|].
  constructor; [|done]. destruct Hg as [-> | ->]; done.
Qed.

Lemma one_enqueue l f yes no (y : world) :
  never_writes yes = true → never_writes no = true →
  let r := one (enqueue cfg l f yes no (gw_conn y)) y in
  io_other (gw_conn y) (gw_conn r.1) ∧ Forall (λ g, never_writes g = true) r.2.
Proof.
  intros Hy Hn. unfold one. destruct (enqueue _ _ _ _ _ _) as [c g] eqn:E.
  apply enqueue_io in E as [Hio Hg]. simpl. split; [done|].
  constructor; [|done]. destruct Hg as [[-> _]|[_ ->]]; done.
Qed.

Lemma handleRequest_never o req parent c : never_writes (handleRequest cfg o req parent c) = true.
Proof. unfold handleRequest, watch_checks, unwatch_checks. by repeat case_match. Qed.

(** Every goroutine but the writer keeps to [io_other] and never becomes a writer. *)
Lemma advance_other o g y y' gs :
  never_writes g = true → advance o g y = Some (y', gs) →
  io_other (gw_conn y) (gw_conn y') ∧ Forall (λ g, never_writes g = true) gs.
Proof.
  intros Hn. destruct g; try done; simpl.
  - destruct (readLoop _ _ _ _ _) as [[c1 gs1]|] eqn:E; [|done]. intros [= <- <-]. by apply readLoop_other in E.
  - intros [= <- <-]. split; [apply shutdown_once_io|by repeat constructor].
  - intros [= <- <-]. split; [|by repeat constructor]. apply io_other_core. simpl.
    unfold shutdown_lifecycle, auditAction. case_match; [done|]. by rewrite audit_core.
  - case_match; [done|]. intros [= <- <-]. split; [io_idle|by repeat constructor].
  - unfold shutdown_watches. case_bool_decide; simpl.
    + intros [= <- <-]. split; [io_idle|by repeat constructor].
    + destruct (c_watches _ !! _); [|done]. intros [= <- <-]. split; [apply drop_watch_io|by repeat constructor].
  - unfold heartbeat. destruct (or_case o); [|case_match; [|done]; intros [= <- <-]; split; [io_idle|by repeat constructor]].
    case_match; intros [= <- <-]; [split; [io_idle|by repeat constructor]|by apply one_enqueue].
  - intros [= <- <-]. split; [io_idle|]. constructor; [apply handleRequest_never|done].
  - unfold dispatch_prepare. destruct (prepare _ _ _ _) as [d r]. intros [= <- <-].
    split; [io_idle|]. constructor; [|done]. by repeat case_match.
  - unfold dispatch_execute. destruct (call _ _ _ _) as [d r]. intros [= <- <-].
    split; [io_idle|]. constructor; [|done]. by repeat case_match.
  - unfold dispatch_complete. destruct (complete _ _ _ _) as [d r]. intros [= <- <-].
    split; [io_idle|]. constructor; [|done]. by repeat case_match.
  - intros [= <- <-]. by apply one_enqueueRPC.
  - unfold watch_lock. case_match; [done|]. intros [= <- <-]. split; [|by repeat constructor].
    case_match; io_idle.
  - unfold watch_open. case_match; [intros [= <- <-]; split; [io_idle|by repeat constructor]|].
    destruct (open_watch _ _ _) as [a [w|e]]; [intros [= <- <-]; split; [io_idle|by repeat constructor]|].
    destruct (watchError e). intros [= <- <-]. split; [io_idle|by repeat constructor].
  - intros [= <- <-]. unfold watch_reply. by apply one_enqueueRPC.
  - unfold watch_replay. case_match; intros [= <- <-]; [split; [io_idle|by repeat constructor]|by apply one_enqueue].
  - intros [= <- <-]. split; [io_idle|by repeat constructor].
  - unfold forward_select. destruct (as_chans _ !! _); [|done]. simpl.
    repeat case_match; intros [=]; subst; (split; [io_idle|by repeat constructor]).
  - unfold forward_event. case_match; [done|]. case_match; simpl;
      [|intros [= <- <-]; split; [io_idle|by repeat constructor]].
    case_match; intros [= <- <-]; [by apply one_enqueue|].
    unfold one, enqueue, send_room, send_buf in *. simpl. case_match; [congruence|].
    split; [io_idle|by repeat constructor].
  - unfold forward_closed. case_match; [done|]. intros [= <- <-]. split; [case_match; io_idle|by repeat constructor].
  - unfold forward_slow. case_match; [done|]. intros [= <- <-]. split; [io_idle|]. case_match; by repeat constructor.
  - unfold unwatch_lock. case_match; [done|]. intros [= <- <-]. split; [|by repeat constructor].
    case_match; io_idle.
  - intros [= <- <-]. unfold unwatch_reply. by apply one_enqueueRPC.
  - intros [= <- <-]. split; [io_idle|by repeat constructor].
  - destruct (protocolClose _ _ _ _) as [c1|] eqn:E; [|done]. intros [= <- <-].
    split; [by eapply protocolClose_io|by repeat constructor].
  - intros [= <- <-]. split; [io_idle|by repeat constructor].
Qed.

(** ** The writer *)

(** What one step of the writer leaves alone. *)
Record io_writer (c c' : connection) : Prop := {
  iw_sent : c_sent c' = c_sent c;
  iw_watches : c_watches c' = c_watches c;
  iw_mu : c_watchesMu c' = c_watchesMu c;
  iw_once : c_closeOnce c' = c_closeOnce c;
  iw_client : c_clientID c' = c_clientID c;
  iw_control : c_control c' = c_control c ∨ c_control c' = None;
  iw_taken : c_taken c' = c_taken c ∨ (c_taken c' = Datatypes.S (c_taken c) ∧ (c_taken c < length (c_sent c))%nat);
}.

Lemma io_writer_core c c' : core c' = core c → c_clientID c' = c_clientID c → io_writer c c'.
Proof. intros [=] ?. split; auto. Qed.

Lemma ws_Write_fields o raw f c c' ok :
  ws_Write o raw f c = (c', ok) →
  c' = (if ok then set_c_wire (c_wire c ++ [WText raw f]) c else c) ∧
  (ok = true → c_cancelled c = false ∧ c_closed c = false).
Proof.
  unfold ws_Write. destruct (_ && _) eqn:E; intros [= <- <-]; (split; [done|]); [|done].
  intros _. apply andb_true_iff in E as [[_ E1]%andb_true_iff E2]. by destruct (c_cancelled c), (c_closed c).
Qed.

(** A write and its audit record: a frame on the wire exactly when it succeeded. *)
Lemma write_frame_spec o raw f c c' ok :
  write_frame cfg auditor o raw f c = (c', ok) →
  core c' = core (if ok then set_c_wire (c_wire c ++ [WText raw f]) c else c) ∧ c_clientID c' = c_clientID c ∧
  (ok = true → c_cancelled c = false ∧ c_closed c = false).
Proof.
  unfold write_frame, auditWire. destruct (ws_Write o raw f c) as [c1 ok1] eqn:E.
  apply ws_Write_fields in E as [-> Hok].
  set (call := RecordWire _ _ _ _ _ _ _). intros [= <- <-]. rewrite audit_core, audit_client.
  split_and!; [done|by destruct ok1|done].
Qed.

Lemma send_buf_head c out rest : send_buf c = out :: rest →
  (c_taken c < length (c_sent c))%nat ∧ c_sent c !! c_taken c = Some out.
Proof.
  unfold send_buf. intros E. split.
  - apply (f_equal length) in E. rewrite length_drop in E. simpl in E. lia.
  - rewrite <-(Nat.add_0_r (c_taken c)), <-lookup_drop, E. done.
Qed.

Lemma advance_writer o g y y' gs :
  is_writer g = true → advance o g y = Some (y', gs) → io_writer (gw_conn y) (gw_conn y').
Proof.
  intros Hw. destruct g; try done; simpl.
  - destruct (c_control _) eqn:E; intros [= <- <-]; simpl; [|by apply io_writer_core]. split; simpl; auto.
  - unfold writer_select. destruct (or_case o) as [|[|n]]; simpl.
    + destruct (c_control _) eqn:E; intros [= <- <-]; simpl. split; simpl; auto.
    + destruct (send_buf _) as [|out rest] eqn:E; intros [= <- <-]; simpl.
      apply send_buf_head in E as [? _]. split; simpl; auto.
    + case_match; intros [= <- <-]. by apply io_writer_core.
  - intros [= <- <-]. unfold write_start, auditWire. repeat case_match; simpl; try (by apply io_writer_core).
    apply io_writer_core; [apply audit_core|apply audit_client].
  - destruct (write_frame _ _ _ _ _ _) as [c1 ok] eqn:E. apply write_frame_spec in E as (Hcore&Hcl&_).
    intros [= <- <-]. simpl. destruct ok; [|by apply io_writer_core].
    injection Hcore as H1 H2 H3 H4 H5 H6 H7 H8 H9 H10. split; auto.
  - intros [= <- <-]. unfold write_status, ws_Close. simpl. repeat case_match; simpl; try (by apply io_writer_core); split; auto.
  - intros [= <- <-]. unfold formal_start, auditWire. repeat case_match; simpl; try (by apply io_writer_core).
    apply io_writer_core; [apply audit_core|apply audit_client].
  - destruct (write_frame _ _ _ _ _ _) as [c1 ok] eqn:E. apply write_frame_spec in E as (Hcore&Hcl&_).
    intros [= <- <-]. simpl. destruct ok; [|by apply io_writer_core].
    injection Hcore as H1 H2 H3 H4 H5 H6 H7 H8 H9 H10. split; auto.
  - intros [= <- <-]. unfold ws_Close. simpl. repeat case_match; simpl; split; auto.
Qed.

(** ** Bounds *)

Record conn_bounds (c : connection) : Prop := {
  bd_taken : (c_taken c ≤ length (c_sent c))%nat;
  bd_queue : zlen (send_buf c) ≤ sc_SendQueueSize cfg;
  bd_control : is_Some (c_control c) → c_closeOnce c = true;
}.

Lemma bounded_other c c' : io_other c c' → conn_bounds c → conn_bounds c'.
Proof.
  intros [Ht _ Hs Hc] [H1 H2 H3]. split.
  - rewrite Ht. destruct Hs as [-> |[_ (f&l&->)]]; [done|]. rewrite length_app. lia.
  - unfold send_buf in *. rewrite Ht. destruct Hs as [-> |[Hr (f&l&->)]]; [done|].
    unfold send_room, send_buf in Hr. to_prop. unfold zlen in *. rewrite length_drop, length_app in *. simpl. lia.
  - destruct Hc as [E1 E2 _ _ _| | ]; [rewrite E1, E2; done|done|congruence].
Qed.

Lemma bounded_writer c c' : io_writer c c' → conn_bounds c → conn_bounds c'.
Proof.
  intros [Hs _ _ Ho _ Hc Ht] [H1 H2 H3]. split.
  - rewrite Hs. destruct Ht as [-> |[-> ?]]; lia.
  - unfold send_buf in *. rewrite Hs. destruct Ht as [-> |[-> ?]]; [done|].
    unfold zlen in *. rewrite length_drop in *. lia.
  - rewrite Ho. destruct Hc as [-> | ->]; [done|]. by intros [? ?].
Qed.

(** Every goroutine is the writer at some point of its loop, or never writes. *)
Definition sound (g : goroutine) : Prop := is_writer g = true ∨ never_writes g = true.

(** The goroutines of a connection that has not been greeted: none serves a request. *)
Fixpoint early (g : goroutine) : bool :=
  match g with
  | GRead _ | GShutdown _ _ | GLifecycle _ | GShutdownLock | GShutdownWatches | GHeartbeat _ | GDone => true
  | GClose _ _ _ next => early next
  | _ => is_writer g
  end.

Lemma writer_next o g y y' gs :
  is_writer g = true → advance o g y = Some (y', gs) → ∃ g', gs = [g'] ∧ sound g' ∧ early g' = true.
Proof.
  unfold sound. intros Hw. destruct g; try done; simpl.
  - case_match; intros [= <- <-]; simpl; eauto.
  - unfold writer_select. destruct (or_case o) as [|[|n]]; simpl; [destruct (c_control _)|case_match|case_match];
      try done; intros [= <- <-]; simpl; eauto.
  - intros [= <- <-]. unfold write_start. repeat case_match; simpl; eauto.
  - destruct (write_frame _ _ _ _ _ _) as [c1 ok]. intros [= <- <-]. destruct ok; simpl; eauto.
  - intros [= <- <-]. unfold write_status. repeat case_match; simpl; eauto.
  - intros [= <- <-]. unfold formal_start. repeat case_match; simpl; eauto.
  - intros [= <- <-]. simpl. eauto.
  - intros [= <- <-]. simpl. eauto.
Qed.

(** Invariants of a connection that follow the two kinds of steps. *)
Lemma step_conn (I : connection → Prop) o g y y' gs :
  (∀ c c', io_other c c' → I c → I c') → (∀ c c', io_writer c c' → I c → I c') →
  sound g → advance o g y = Some (y', gs) → I (gw_conn y) → I (gw_conn y').
Proof.
  intros Ho Hw [Hg|Hg] Hadv; [eapply Hw|eapply Ho]; [by eapply advance_writer|by eapply advance_other].
Qed.

Lemma advance_sound o g y y' gs : sound g → advance o g y = Some (y', gs) → Forall sound gs.
Proof.
  intros [Hg|Hg] Hadv.
  - apply (writer_next o g y y') in Hadv as (g'&->&Hs&_); [|done]. by apply Forall_singleton.
  - apply advance_other in Hadv as [_ Hf]; [|done]. eapply Forall_impl; [exact Hf|]. by right.
Qed.

Lemma connect_core o id n : core (connect cfg auditor o id n).1 = core (new_connection id n (or_now o)).
Proof. unfold connect, auditAction. simpl. by rewrite audit_core. Qed.

(** Soundness of all goroutines and the bounds of the connection, together. *)
Lemma gw_bounded z : 0 ≤ sc_SendQueueSize cfg → gw_reach z →
  Forall sound (g_routines z) ∧ conn_bounds (gw_conn (g_world z)).
Proof.
  intros Hq. apply (gw_reach_inv (λ z, Forall sound (g_routines z) ∧ conn_bounds (gw_conn (g_world z)))).
  - intros z0 [o id n p audited cap tr a d b _ _]. simpl. split; [rewrite !Forall_cons; split_and!; try done; by (left + right)|].
    pose proof (connect_core o id n) as Hc. injection Hc as H1 H2 H3 H4 H5 H6 H7 H8 H9 H10.
    split; [rewrite H2; lia| |rewrite H3; by intros [? ?]]. unfold send_buf. rewrite H1, H2. done.
  - intros z0 z1 [Hs Hb] Hstep. destruct Hstep as [o y y' t1 g t2 gs tr Hadv| | |]; simpl in *; [|done..].
    apply Forall_app in Hs as [Hs1 [Hg Hs2]%Forall_cons]. split.
    + rewrite !Forall_app. split_and!; [done| |done]. by eapply advance_sound.
    + eapply (step_conn conn_bounds); [apply bounded_other|apply bounded_writer|done..].
Qed.

(** ** What is written on the socket *)

(** The message [w] is the encoding of the queued frame [ob], within the limit. *)
Definition wire_of (ob : outbound B V) (w : wire B V) : Prop :=
  ∃ f raw, ob_frame ob = Some f ∧ MarshalFrame f = Ok raw ∧ slen raw ≤ sc_MaxFrameBytes cfg ∧ w = WText raw f.

Definition is_close_frame (f : payload B V) : Prop := ∃ code message, f = close_frame code message.

(** At most one application Close. *)
Definition close_text (text : list (wire B V)) : Prop :=
  text = [] ∨ ∃ raw f, is_close_frame f ∧ text = [WText raw f].

(** At most one closing handshake, which [closed] records. *)
Definition close_status (closed : bool) (fin : list (wire B V)) : Prop :=
  (closed = false ∧ fin = []) ∨ ∃ status reason, closed = true ∧ fin = [WClose status reason].

(** Where the writer is when [n] queued frames were written, followed by [text]. *)
Definition writer_at (n taken : nat) (sent : list (outbound B V)) (text : list (wire B V)) (g : goroutine) : Prop :=
  match g with
  | GWriter | GWriterSelect => n = taken ∧ text = []
  | GWriteOut out false => taken = Datatypes.S n ∧ sent !! n = Some out ∧ text = []
  | GWriteOut out true => n = taken ∧ text = [] ∧ ∃ f, ob_frame out = Some f ∧ is_close_frame f
  | GWriting out f raw false => taken = Datatypes.S n ∧ sent !! n = Some out ∧ ob_frame out = Some f ∧
      MarshalFrame f = Ok raw ∧ slen raw ≤ sc_MaxFrameBytes cfg ∧ text = []
  | GWriting out f raw true => text = [] ∧ is_close_frame f
  | GWriteStatus out false => n = taken ∧ text = []
  | GWriteStatus out true => True
  | GFormalClose _ _ _ => text = []
  | GFormalWriting f _ _ _ => text = [] ∧ is_close_frame f
  | _ => True
  end.

(** [n] frames written, then [text], then [fin]. *)
Record wire_at (c : connection) (gs : list goroutine) (n : nat) (data text fin : list (wire B V)) : Prop := {
  wa_wire : c_wire c = data ++ text ++ fin;
  wa_n : (n ≤ c_taken c ≤ length (c_sent c))%nat;
  wa_frames : Forall (λ ob, is_Some (ob_frame ob)) (c_sent c);
  wa_data : Forall2 wire_of (take n (c_sent c)) data;
  wa_text : close_text text;
  wa_fin : close_status (c_closed c) fin;
  wa_control out : c_control c = Some out → ∃ f, ob_frame out = Some f ∧ is_close_frame f;
  wa_writer : ∃ ws, writers gs = ws ∧ (length ws ≤ 1)%nat ∧
    Forall (writer_at n (c_taken c) (c_sent c) text) ws;
}.

(** The writers among the goroutines after one of them moved. *)
Lemma writers_step t1 g t2 gs :
  writers (t1 ++ gs ++ t2) =
  writers t1 ++ writers gs ++ writers t2 ∧
  writers (t1 ++ g :: t2) =
  writers t1 ++ writers [g] ++ writers t2.
Proof. unfold writers. split; [by rewrite !filter_app|]. change (g :: t2) with ([g] ++ t2). by rewrite !filter_app. Qed.

Lemma never_writes_no_writer gs :
  Forall (λ g, never_writes g = true) gs → writers gs = [].
Proof.
  intros Hf. apply filter_none. eapply Forall_impl; [exact Hf|]. intros g Hg Hw.
  destruct g; simpl in *; congruence.
Qed.

(** A step of another goroutine. *)
Lemma wire_other c c' gs gs' n data text fin :
  io_other c c' → writers gs' = writers gs →
  wire_at c gs n data text fin → ∃ fin', wire_at c' gs' n data text fin'.
Proof.
  intros [Ht _ Hs Hc] Hg [H1 H2 H3 H4 H5 H6 H7 (ws&H8&H9&H10)].
  assert (∃ more, c_sent c' = c_sent c ++ more ∧ Forall (λ ob, is_Some (ob_frame ob)) more) as (more&Es&Hm).
  { destruct Hs as [-> |[_ (f&l&->)]]; [exists []; by rewrite app_nil_r|]. eexists; split; [done|]. by repeat constructor. }
  assert (∃ fin', c_wire c' = data ++ text ++ fin' ∧ close_status (c_closed c') fin') as (fin'&Ew&Hf).
  { destruct Hc as [_ _ _ E1 E2|? ? ? _ _ _ _ E1 E2|st re _ _ _ _ E1 E2];
      [rewrite E1, E2; eauto..|]. rewrite E1, E2. destruct H6 as [[-> ->]|(st'&re'&->&->)].
    - exists [WClose st re]. split; [by rewrite H1, app_nil_r, <-app_assoc|]. right. eauto.
    - exists [WClose st' re']. split; [done|]. right. eauto. }
  exists fin'. split; try done.
  - rewrite Ht, Es, length_app. lia.
  - rewrite Es. by apply Forall_app.
  - rewrite Es, take_app_le by lia. done.
  - destruct Hc as [E1 _ _ _ _|code m st _ _ E1 _ _ _|? ? _ _ E1 _ _ _]; rewrite E1; [by apply H7| |by apply H7].
    intros out [= <-]. simpl. eexists; split; [done|]. by exists code, m.
  - exists ws. split; [congruence|]. split; [done|]. eapply Forall_impl; [exact H10|].
    intros g. rewrite Ht, Es. destruct g; simpl; try done; case_match; try done.
    + intros (?&?&?). split_and!; [done|by apply lookup_app_l_Some|done].
    + intros (?&?&?). split; [done|]. split; [by apply lookup_app_l_Some|done].
Qed.

(** What the writer's next point must satisfy, given the wire it leaves. *)
Lemma wire_writer c c' g gs0 gs n n' data data' text text' fin fin' :
  io_writer c c' → c_wire c' = data' ++ text' ++ fin' → (n' ≤ c_taken c')%nat →
  Forall2 wire_of (take n' (c_sent c)) data' → close_text text' → close_status (c_closed c') fin' →
  (is_writer g = true → writer_at n' (c_taken c') (c_sent c) text' g) →
  writers gs = writers [g] →
  wire_at c gs0 n data text fin → wire_at c' gs n' data' text' fin'.
Proof.
  intros [Es _ _ _ _ Hc Ht] Ew Hn Hd Htx Hf Hat Hg [H1 H2 H3 H4 H5 H6 H7 _]. split; try done.
  - rewrite Es. split; [done|]. destruct Ht as [-> |[-> ?]]; lia.
  - by rewrite Es.
  - by rewrite Es.
  - intros out. destruct Hc as [-> | ->]; [apply H7|done].
  - exists (writers [g]). split; [done|]. rewrite Es. unfold writers. rewrite filter_cons, filter_nil.
    case_decide as Hw; simpl; [|split; [lia|done]]. split; [lia|]. apply Forall_singleton. auto.
Qed.

Lemma close_text_frame raw f : is_close_frame f → close_text [WText raw f].
Proof. right. eauto. Qed.

Lemma close_status_open closed fin : close_status closed fin → closed = false → fin = [].
Proof. intros [[_ ->]|(?&?&?&_)]; congruence. Qed.

(** The wire after [ws_Close]. *)
Lemma ws_Close_wire status reason c data text fin :
  c_wire c = data ++ text ++ fin → close_status (c_closed c) fin →
  ∃ fin', c_wire (ws_Close status reason c) = data ++ text ++ fin' ∧
    close_status (c_closed (ws_Close status reason c)) fin'.
Proof.
  intros Hw Hf. unfold ws_Close. destruct Hf as [[E ->]|(s0&r0&E&->)]; rewrite E.
  - exists [WClose status reason]. simpl. split; [by rewrite Hw, app_nil_r, <-app_assoc|]. right. eauto.
  - exists [WClose s0 r0]. split; [done|]. right. eauto.
Qed.

(** The writer in place of which the others stand still. *)
Lemma writers_alone t1 g t2 gs c n data text fin :
  is_writer g = true → wire_at c (t1 ++ g :: t2) n data text fin →
  writers (t1 ++ gs ++ t2) = writers gs ∧ writer_at n (c_taken c) (c_sent c) text g.
Proof.
  intros Hw [_ _ _ _ _ _ _ (ws&H8&H9&H10)]. destruct (writers_step t1 g t2 gs) as [E1 E2].
  assert (writers [g] = [g]) as Eg by (unfold writers; by rewrite filter_cons_True).
  rewrite E2, Eg in H8. subst ws. rewrite !length_app in H9. simpl in H9.
  assert (writers t1 = [] ∧ writers t2 = []) as [N1 N2].
  { split; apply nil_length_inv; lia. }
  rewrite N1, N2 in H10, E1. split; [by rewrite E1; simpl; rewrite app_nil_r|].
  by apply (Forall_singleton (writer_at n (c_taken c) (c_sent c) text)).
Qed.

(** One more queued frame was written. *)
Lemma written_snoc n sent data ob raw f :
  sent !! n = Some ob → ob_frame ob = Some f → MarshalFrame f = Ok raw → slen raw ≤ sc_MaxFrameBytes cfg →
  Forall2 wire_of (take n sent) data → Forall2 wire_of (take (Datatypes.S n) sent) (data ++ [WText raw f]).
Proof.
  intros Hl Hf Hm Hlen Hd. rewrite (take_S_r _ _ _ Hl). apply Forall2_app; [done|].
  constructor; [|done]. by exists f, raw.
Qed.

(** The writer moves without writing. *)
Lemma wire_keep c c' gs0 gs g n data text fin :
  io_writer c c' → core c' = core c → writers gs = writers [g] → wire_at c gs0 n data text fin →
  (is_writer g = true → writer_at n (c_taken c) (c_sent c) text g) → wire_at c' gs n data text fin.
Proof.
  intros Hio [= E1 E2 E3 E4 E5 E6 E7 E8 E9 E10] Hgs Hwa Hg. pose proof Hwa as [H1 H2 _ H4 H5 H6 _ _].
  apply (wire_writer c c' g gs0 gs n n data data text text fin fin); rewrite ?E2, ?E8, ?E9; try done. lia.
Qed.

(** The writer writes an application Close. *)
Lemma wire_closing c c' gs0 gs g raw f n data fin :
  io_writer c c' → core c' = core (set_c_wire (c_wire c ++ [WText raw f]) c) → c_closed c = false →
  is_close_frame f → writers gs = writers [g] → wire_at c gs0 n data [] fin →
  (is_writer g = true → writer_at n (c_taken c) (c_sent c) [WText raw f] g) →
  wire_at c' gs n data [WText raw f] [].
Proof.
  intros Hio [= E1 E2 E3 E4 E5 E6 E7 E8 E9 E10] Ho Hf Hgs Hwa Hg. pose proof Hwa as [H1 H2 _ H4 H5 H6 _ _].
  pose proof (close_status_open _ _ H6 Ho) as ->.
  apply (wire_writer c c' g gs0 gs n n data data [] [WText raw f] [] []); rewrite ?E2, ?E8, ?E9; try done.
  - by rewrite H1, app_nil_r.
  - lia.
  - by apply close_text_frame.
Qed.

(** The writer starts the closing handshake and ends. *)
Lemma wire_handshake c gs0 gs status reason n data text fin :
  writers gs = [] → wire_at c gs0 n data text fin →
  ∃ fin', wire_at (cancel (ws_Close status reason c)) gs n data text fin'.
Proof.
  intros Hgs Hwa. pose proof Hwa as [H1 H2 _ H4 H5 H6 _ _].
  destruct (ws_Close_wire status reason c data text fin H1 H6) as (fin'&Hw&Hf).
  exists fin'. apply (wire_writer c _ GDone gs0 gs n n data data text text fin fin'); try done.
  - unfold ws_Close. case_match; split; auto.
  - unfold ws_Close. case_match; simpl; lia.
Qed.

(** The wire of a connection has this form for some split. *)
Definition wired (c : connection) (gs : list goroutine) : Prop := ∃ n data text fin, wire_at c gs n data text fin.

Lemma wired_keep c c' l0 l g n data text fin :
  io_writer c c' → core c' = core c → writers l = writers [g] → wire_at c l0 n data text fin →
  (is_writer g = true → writer_at n (c_taken c) (c_sent c) text g) → wired c' l.
Proof. intros. exists n, data, text, fin. by eapply wire_keep. Qed.

(** The selects of [writeLoop]. *)
Lemma wire_take_control c out l0 l n data text fin :
  c_control c = Some out → writer_at n (c_taken c) (c_sent c) text GWriter → wire_at c l0 n data text fin →
  writers l = [GWriteOut out true] → wired (set_c_control None c) l.
Proof.
  intros Ec [-> ->] Hwa Hl. pose proof Hwa as [H1 H2 H3 H4 H5 H6 H7 _]. exists (c_taken c), data, [], fin.
  eapply (wire_writer c _ (GWriteOut out true) l0 l); try done; simpl; try lia; [split; simpl; auto|auto].
Qed.

Lemma wire_take_send c out rest l0 l n data text fin :
  send_buf c = out :: rest → writer_at n (c_taken c) (c_sent c) text GWriter → wire_at c l0 n data text fin →
  writers l = [GWriteOut out false] → wired (set_c_taken (Datatypes.S (c_taken c)) c) l.
Proof.
  intros [? ?]%send_buf_head [-> ->] Hwa Hl. pose proof Hwa as [H1 H2 H3 H4 H5 H6 H7 _].
  exists (c_taken c), data, [], fin.
  eapply (wire_writer c _ (GWriteOut out false) l0 l); try done; simpl; try lia. split; simpl; auto.
Qed.

(** [writeOutbound] before the write. *)
Lemma wire_write_start c out control l0 l n data text fin :
  io_writer c (write_start cfg auditor out control c).1 →
  writer_at n (c_taken c) (c_sent c) text (GWriteOut out control) → wire_at c l0 n data text fin →
  writers l = writers [(write_start cfg auditor out control c).2] →
  wired (write_start cfg auditor out control c).1 l.
Proof.
  unfold write_start. intros Hio Hat Hwa. pose proof (wa_frames _ _ _ _ _ _ Hwa) as H3.
  assert (text = [] ∧ ∃ f, ob_frame out = Some f ∧ (control = true → is_close_frame f)) as [-> (f&Ef&Hf)].
  { destruct control.
    - destruct Hat as (_&->&f&?&?). split; [done|]. by exists f.
    - destruct Hat as (_&Hl&->). split; [done|]. destruct (Forall_lookup_1 _ _ _ _ H3 Hl) as [f Ef]. by exists f. }
  rewrite Ef in *. destruct (MarshalFrame f) as [raw|e] eqn:Em; [|by intros; eapply wired_keep].
  destruct (_ <? _) eqn:El; [by intros; eapply wired_keep|]. intros Hl.
  eapply wired_keep; [done|apply audit_core|done..|]. intros _. simpl.
  to_prop. destruct control; [by auto|]. destruct Hat as (?&?&_). by split_and!.
Qed.

(** The write of a queued frame. *)
Lemma wire_write_data c c' out raw f l0 l n data text fin :
  io_writer c c' → core c' = core (set_c_wire (c_wire c ++ [WText raw f]) c) → c_closed c = false →
  writer_at n (c_taken c) (c_sent c) text (GWriting out f raw false) → wire_at c l0 n data text fin →
  writers l = [GWriteStatus out false] → wired c' l.
Proof.
  intros Hio [= E1 E2 E3 E4 E5 E6 E7 E8 E9 E10] Ho (Ht&Hl&Hf&Hm&Hlen&->) Hwa Hg.
  pose proof Hwa as [H1 H2 H3 H4 H5 H6 H7 _]. pose proof (close_status_open _ _ H6 Ho) as ->.
  exists (Datatypes.S n), (data ++ [WText raw f]), [], [].
  eapply (wire_writer c _ (GWriteStatus out false) l0 l); try done; simpl.
  - by rewrite E8, H1, !app_nil_r.
  - rewrite E2. lia.
  - by eapply written_snoc.
  - left. by rewrite E9.
  - intros _. rewrite E2. by split; [lia|].
Qed.

(** The writer's own steps. *)
Lemma wire_step_writer o g y y' gs t1 t2 :
  is_writer g = true → advance o g y = Some (y', gs) →
  wired (gw_conn y) (t1 ++ g :: t2) → wired (gw_conn y') (t1 ++ gs ++ t2).
Proof.
  intros Hw Hadv (n&data&text&fin&Hwa). pose proof (advance_writer _ _ _ _ _ Hw Hadv) as Hio.
  destruct (writers_alone _ _ _ gs _ _ _ _ _ Hw Hwa) as [Hgs Hat].
  set (l := t1 ++ gs ++ t2) in *. set (l0 := t1 ++ g :: t2) in *. clearbody l l0.
  destruct g; try done; simpl in Hadv.
  - destruct (c_control _) as [out|] eqn:Ec; injection Hadv as <- <-;
      [by eapply wire_take_control|by eapply wired_keep].
  - unfold writer_select in Hadv. destruct (or_case o) as [|[|k]]; simpl in Hadv.
    + destruct (c_control _) as [out|] eqn:Ec; [|done]. injection Hadv as <- <-. by eapply wire_take_control.
    + destruct (send_buf _) as [|out rest] eqn:Eb; [done|]. injection Hadv as <- <-. by eapply wire_take_send.
    + destruct (c_cancelled _); [|done]. injection Hadv as <- <-. by eapply wired_keep.
  - injection Hadv as <- <-. by eapply wire_write_start.
  - destruct (write_frame _ _ _ _ _ _) as [c1 ok] eqn:E. apply write_frame_spec in E as (Hcore&_&Hok).
    injection Hadv as <- <-. destruct ok; [|by eapply wired_keep]. destruct Hok as [_ Ho]; [done|].
    destruct control; [|by eapply wire_write_data]. destruct Hat as [-> Hf].
    exists n, data, [WText raw frame], []. by eapply (wire_closing (gw_conn y) _ l0 l (GWriteStatus out true)).
  - injection Hadv as <- <-. unfold write_status in *. destruct (_ =? 0).
    + destruct control; by eapply wired_keep.
    + destruct (wire_handshake (gw_conn y) l0 l (ob_closeStatus out) (ob_closeReason out) n data text fin)
        as [fin' ?]; [done..|]. by exists n, data, text, fin'.
  - injection Hadv as <- <-. unfold formal_start in *. destruct (MarshalFrame _) as [raw|e]; [|by eapply wired_keep].
    eapply wired_keep; [done|apply audit_core|done..|]. intros _. split; [done|]. by eexists _, _.
  - destruct (write_frame _ _ _ _ _ _) as [c1 ok] eqn:E. apply write_frame_spec in E as (Hcore&_&Hok).
    injection Hadv as <- <-. destruct ok; [|by eapply wired_keep]. destruct Hok as [_ Ho]; [done|].
    destruct Hat as [-> Hf]. exists n, data, [WText raw frame], [].
    by eapply (wire_closing (gw_conn y) _ l0 l (GFormalEnd message status)).
  - injection Hadv as <- <-.
    destruct (wire_handshake (gw_conn y) l0 l status message n data text fin)
      as [fin' ?]; [done..|]. by exists n, data, text, fin'.
Qed.

Lemma wire_step_other o g y y' gs t1 t2 :
  never_writes g = true → advance o g y = Some (y', gs) →
  wired (gw_conn y) (t1 ++ g :: t2) → wired (gw_conn y') (t1 ++ gs ++ t2).
Proof.
  intros Hn Hadv (n&data&text&fin&Hwa). apply advance_other in Hadv as [Hio Hgs]; [|done].
  assert (writers (t1 ++ gs ++ t2) = writers (t1 ++ g :: t2)) as E.
  { destruct (writers_step t1 g t2 gs) as [-> ->].
    rewrite (never_writes_no_writer gs), (never_writes_no_writer [g]); [done|by apply Forall_singleton|done]. }
  destruct (wire_other _ _ _ _ _ _ _ _ Hio E Hwa) as [fin' ?]. by exists n, data, text, fin'.
Qed.

Lemma gw_wired z : gw_reach z → Forall sound (g_routines z) ∧ wired (gw_conn (g_world z)) (g_routines z).
Proof.
  apply (gw_reach_inv (λ z, Forall sound (g_routines z) ∧ wired (gw_conn (g_world z)) (g_routines z))).
  - intros z0 [o id n p audited cap tr a d b _ _]. simpl.
    split; [rewrite !Forall_cons; split_and!; try done; by (left + right)|].
    pose proof (connect_core o id n) as Hc. injection Hc as H1 H2 H3 H4 H5 H6 H7 H8 H9 H10.
    exists 0%nat, [], [], []. split; rewrite ?H1, ?H2, ?H3, ?H8, ?H9; simpl; try done; [by left|by left|].
    exists [GWriter]. split_and!; [done|done|]. by apply Forall_singleton.
  - intros z0 z1 [Hs Hb] Hstep. destruct Hstep as [o y y' t1 g t2 gs tr Hadv| | |]; simpl in *; [|done..].
    pose proof Hs as [Hs1 [Hg Hs2]%Forall_cons]%Forall_app. split.
    + rewrite !Forall_app. split_and!; [done| |done]. by eapply advance_sound.
    + destruct Hg as [Hg|Hg]; [by eapply wire_step_writer|by eapply wire_step_other].
Qed.

(** C27: what a client sees on the socket is, in any reachable state, the encodings of
    the first queued frames in the order in which they were queued, each within the
    frame limit; then at most one application Close; then at most one closing
    handshake; and nothing after them. *)
Theorem wire_discipline z : gw_reach z →
  ∃ n data text fin, c_wire (gw_conn (g_world z)) = data ++ text ++ fin ∧
    (n ≤ c_taken (gw_conn (g_world z)))%nat ∧
    Forall2 wire_of (take n (c_sent (gw_conn (g_world z)))) data ∧ close_text text ∧
    close_status (c_closed (gw_conn (g_world z))) fin.
Proof. intros [_ (n&data&text&fin&[H1 [H2 _] _ H4 H5 H6 _ _])]%gw_wired. by exists n, data, text, fin. Qed.

(** ** The hello gate *)

(** Before the hello: no request, no watch, nothing queued but pings. *)
Record ungreeted (c : connection) (gs : list goroutine) : Prop := {
  ug_routines : Forall (λ g, early g = true) gs;
  ug_watches : c_watches c = ∅;
  ug_sent : Forall (λ ob, ∃ p, ob_frame ob = Some (Frame_Ping p)) (c_sent c);
}.

(** Connections that agree on what the gate is about. *)
Definition gate_same c c' : Prop :=
  c_watches c' = c_watches c ∧ c_sent c' = c_sent c.

Lemma audit_gate call c : gate_same c (audit cfg auditor call c).1.
Proof. unfold gate_same. pose proof (audit_core call c) as H. by injection H. Qed.

Lemma ungreeted_same t1 g t2 gs c c' :
  gate_same c c' → Forall (λ g, early g = true) gs → ungreeted c (t1 ++ g :: t2) → ungreeted c' (t1 ++ gs ++ t2).
Proof.
  intros (E1&E2) Hgs [[H1 [_ H2]%Forall_cons]%Forall_app ? ?]. split; try congruence.
  by rewrite !Forall_app.
Qed.

(** A first frame either greets the connection or closes it. *)
Lemma readLoop_ungreeted o dl c c' gs :
  readLoop cfg auditor o dl c = Some (c', gs) → str_empty (c_clientID c) = true → str_empty (c_clientID c') = true →
  gate_same c c' ∧ Forall (λ g, early g = true) gs.
Proof.
  unfold readLoop. intros H Hc Hc'. revert H. rewrite Hc.
  destruct (or_read o) as [[typ raw]|]; [|intros [= <- <-]; by split; [|repeat constructor]].
  case_match; [done|]. unfold handleRaw, auditWire. intros [= E]. revert E.
  case_match; [intros [= <- <-]; split; [apply audit_gate|by repeat constructor]|].
  destruct typ; [|intros [= <- <-]; split; [done|by repeat constructor]].
  destruct (UnmarshalFrame raw) as [[p|]|];
    try (intros [= <- <-]; split; [apply audit_gate|by repeat constructor]).
  set (call := RecordWire _ _ _ _ _ _ _). pose proof (audit_gate call c) as Hg.
  destruct (audit cfg auditor call c) as [c1 id]. simpl in Hg. unfold handle_hello.
  destruct p as [h|h|r|r|e|p|p|cl]; try (intros [= <- <-]; split; [done|by repeat constructor]).
  destruct (hello_valid h) eqn:Eh; [|intros [= <- <-]; split; [done|by repeat constructor]].
  destruct (enqueue _ _ _ _ _ _) as [c2 g] eqn:E. intros [= <- <-]. apply enqueue_io in E as [[_ Hid _ _] _].
  assert (str_empty (ch_ClientId h) = false) as He by (unfold hello_valid in Eh; by to_prop).
  simpl in Hid. exfalso. destruct Hid as [Hid|[? _]]; [rewrite Hid in Hc'|]; congruence.
Qed.

Lemma advance_ungreeted o g y y' gs t1 t2 :
  early g = true → advance o g y = Some (y', gs) →
  str_empty (c_clientID (gw_conn y)) = true → str_empty (c_clientID (gw_conn y')) = true →
  ungreeted (gw_conn y) (t1 ++ g :: t2) → ungreeted (gw_conn y') (t1 ++ gs ++ t2).
Proof.
  intros He Hadv Hc Hc' Hu. destruct (is_writer g) eqn:Ew.
  { destruct (writer_next _ _ _ _ _ Ew Hadv) as (g'&->&_&He'). apply advance_writer in Hadv as [E1 E2 _ _ _ _ _]; [|done].
    eapply (ungreeted_same _ _ _ _ (gw_conn y)); [done| |done]. by apply Forall_singleton. }
  destruct g; try done; simpl in Hadv.
  - destruct (readLoop _ _ _ _ _) as [[c1 gs1]|] eqn:E; [|done]. injection Hadv as <- <-.
    apply readLoop_ungreeted in E as [? ?]; [|done..]. by eapply (ungreeted_same _ _ _ _ (gw_conn y)).
  - injection Hadv as <- <-. eapply (ungreeted_same _ _ _ _ (gw_conn y)); [|by apply Forall_singleton|done].
    unfold shutdown_once, ws_Close. simpl. by repeat case_match.
  - injection Hadv as <- <-. eapply (ungreeted_same _ _ _ _ (gw_conn y)); [|by apply Forall_singleton|done].
    unfold shutdown_lifecycle, auditAction. simpl. case_match; [done|].
    apply (audit_gate _ (set_c_lifecycleCloseOnce true (gw_conn y))).
  - case_match; [done|]. injection Hadv as <- <-. eapply (ungreeted_same _ _ _ _ (gw_conn y)); [done|by apply Forall_singleton|done].
  - unfold shutdown_watches in Hadv. rewrite (ug_watches _ _ Hu), bool_decide_eq_true_2 in Hadv by done.
    injection Hadv as <- <-. eapply (ungreeted_same _ _ _ _ (gw_conn y)); [done|by apply Forall_singleton|done].
  - unfold heartbeat in Hadv. destruct (or_case o);
      [|case_match; [|done]; injection Hadv as <- <-; eapply (ungreeted_same _ _ _ _ (gw_conn y)); [done|by apply Forall_singleton|done]].
    case_match; [injection Hadv as <- <-; eapply (ungreeted_same _ _ _ _ (gw_conn y)); [done|by apply Forall_singleton|done]|].
    injection Hadv as <- <-. unfold enqueue. destruct (send_room _ _); cbn [fst snd];
      [|eapply (ungreeted_same _ _ _ _ (gw_conn y)); [done|by apply Forall_singleton|done]].
    destruct Hu as [[H1 [_ H2]%Forall_cons]%Forall_app ? ?]. split; simpl; [|done|].
    + rewrite Forall_app, Forall_cons. done.
    + apply Forall_app. split; [done|]. apply Forall_singleton. by eexists.
  - destruct (protocolClose _ _ _ _) as [c1|] eqn:E; [|done]. injection Hadv as <- <-.
    eapply (ungreeted_same _ _ _ _ (gw_conn y)); [|by apply Forall_singleton|done]. unfold protocolClose in E. repeat case_match; by simplify_eq/=.
  - injection Hadv as <- <-. by eapply (ungreeted_same _ _ _ _ (gw_conn y)).
Qed.

(** What a hello must say to be accepted: who the client is, which run of it, and the one
    protocol version. *)
Definition supported (h : ClientHello) : Prop :=
  ch_ClientId h ≠ "" ∧ ch_ClientRunId h ≠ "" ∧ ch_ProtocolVersion h = Some (mkProtocolVersion 1 2 0).

Lemma hello_supported h : hello_valid h = true ↔ supported h.
Proof.
  unfold hello_valid, supported. destruct (ch_ProtocolVersion h) as [[x y z]|]; simpl; [|split; [by rewrite andb_false_r|by intros (_&_&?)]].
  rewrite !andb_true_iff, !negb_true_iff, !Z.eqb_eq. unfold str_empty. rewrite !bool_decide_eq_false.
  split; [intros [[? ?] [[-> ->] ->]]; done|intros (?&?&[= -> -> ->]); done].
Qed.

(** The reader gets the hello [h]: a text message in time and within the frame limit. *)
Definition hello_read (o : oracle) (deadline : Z) (c : connection) (h : ClientHello) : Prop :=
  c_cancelled c = false ∧ or_now o ≤ deadline ∧
  ∃ raw, or_read o = Some (MessageText, raw) ∧ slen raw ≤ sc_MaxFrameBytes cfg ∧
    UnmarshalFrame raw = Some (Some (Frame_ClientHello h)).

(** The reader greets the client exactly on a supported hello. *)
Lemma readLoop_greets o dl c c' gs :
  readLoop cfg auditor o dl c = Some (c', gs) → str_empty (c_clientID c) = true → str_empty (c_clientID c') = false →
  ∃ h, hello_read o dl c h ∧ supported h ∧ c_clientID c' = ch_ClientId h ∧ c_clientRunID c' = ch_ClientRunId h.
Proof.
  unfold readLoop. intros H Hc Hc'. revert H. rewrite Hc.
  destruct (or_read o) as [[typ raw]|] eqn:Er; [|intros [= <- <-]; congruence].
  case_match eqn:Ed; [done|]. unfold handleRaw, auditWire. intros [= E]. revert E.
  case_match eqn:El; [intros [= <- <-]; rewrite audit_client in Hc'; congruence|].
  destruct typ; [|intros [= <- <-]; congruence].
  destruct (UnmarshalFrame raw) as [[p|]|] eqn:Eu; try (intros [= <- <-]; rewrite audit_client in Hc'; congruence).
  set (call := RecordWire _ _ _ _ _ _ _). pose proof (audit_client call c) as Hg.
  destruct (audit cfg auditor call c) as [c1 id]. simpl in Hg. unfold handle_hello.
  destruct p as [h|h|r|r|e|p|p|cl]; try (intros [= <- <-]; simpl in Hc'; congruence).
  destruct (hello_valid h) eqn:Eh; [|intros [= <- <-]; simpl in Hc'; congruence]. intros E. exists h.
  apply orb_false_iff in Ed as [? Ed]. simpl in Ed. to_prop.
  split; [split_and!; [done|lia|exists raw; split_and!; [done|lia|done]]|]. split; [by apply hello_supported|].
  unfold enqueue in E. destruct (send_room _ _); injection E as <- <-; done.
Qed.

(** Nobody but the reader names the client. *)
Lemma early_client o g y y' gs :
  early g = true → advance o g y = Some (y', gs) → (∃ dl, g = GRead dl) ∨ c_clientID (gw_conn y') = c_clientID (gw_conn y).
Proof.
  intros He Hadv. destruct (is_writer g) eqn:Ew; [right; by apply advance_writer in Hadv as [_ _ _ _ E _ _]|].
  destruct g; try done; simpl in Hadv; [by left; eexists|right..].
  - injection Hadv as <- <-. simpl. unfold shutdown_once, ws_Close. by repeat case_match.
  - injection Hadv as <- <-. simpl. unfold shutdown_lifecycle, auditAction. case_match; [done|]. by rewrite audit_client.
  - case_match; [done|]. by injection Hadv as <- <-.
  - unfold shutdown_watches in Hadv. case_bool_decide; simpl in Hadv; [by injection Hadv as <- <-|].
    destruct (c_watches _ !! _); [|done]. by injection Hadv as <- <-.
  - unfold heartbeat in Hadv. destruct (or_case o); [|case_match; [|done]; by injection Hadv as <- <-].
    case_match; injection Hadv as <- <-; [done|]. unfold enqueue. by case_match.
  - destruct (protocolClose _ _ _ _) as [c1|] eqn:E; [|done]. injection Hadv as <- <-. simpl.
    unfold protocolClose in E. by repeat case_match; simplify_eq/=.
  - by injection Hadv as <- <-.
Qed.

(** In the run from [z0] to [z] the client was greeted by one step: the reader of an
    ungreeted connection got the supported hello [h], and the client has its name. *)
Definition greeted (z0 z : gateway) (h : ClientHello) : Prop :=
  ∃ z1 z2 o deadline t1 t2 gs, rtc gw_step z0 z1 ∧ rtc gw_step z2 z ∧
    c_clientID (gw_conn (g_world z1)) = "" ∧ ungreeted (gw_conn (g_world z1)) (g_routines z1) ∧
    g_routines z1 = t1 ++ GRead deadline :: t2 ∧ g_routines z2 = t1 ++ gs ++ t2 ∧
    advance o (GRead deadline) (g_world z1) = Some (g_world z2, gs) ∧
    hello_read o deadline (gw_conn (g_world z1)) h ∧ supported h ∧
    c_clientID (gw_conn (g_world z2)) = ch_ClientId h ∧ c_clientRunID (gw_conn (g_world z2)) = ch_ClientRunId h ∧
    c_clientID (gw_conn (g_world z)) = ch_ClientId h.

(** One step of the run keeps the gate: the connection stays ungreeted, is greeted by this
    step, or was greeted earlier and keeps its client. *)
Definition gated (z0 z : gateway) : Prop :=
  Forall sound (g_routines z) ∧
  (c_clientID (gw_conn (g_world z)) = "" ∧ ungreeted (gw_conn (g_world z)) (g_routines z) ∨
   c_clientID (gw_conn (g_world z)) ≠ "" ∧ ∃ h, greeted z0 z h).

Lemma client_kept o g y y' gs :
  sound g → advance o g y = Some (y', gs) → c_clientID (gw_conn y) ≠ "" → c_clientID (gw_conn y') = c_clientID (gw_conn y).
Proof.
  intros [Hg|Hg] Hadv He.
  - by apply advance_writer in Hadv as [_ _ _ _ E _ _].
  - apply advance_other in Hadv as [[_ Hid _ _] _]; [|done]. destruct Hid as [?|[Hn _]]; [done|].
    unfold str_empty in Hn. by to_prop.
Qed.

Lemma gated_run z0 o y y' t1 g t2 gs tr :
  rtc gw_step z0 (mkGateway y (t1 ++ g :: t2) tr) → advance o g y = Some (y', gs) →
  gated z0 (mkGateway y (t1 ++ g :: t2) tr) → gated z0 (mkGateway y' (t1 ++ gs ++ t2) tr).
Proof.
  intros Hr Hadv [Hs Hz]. simpl in Hs. pose proof Hs as [Hs1 [Hg Hs2]%Forall_cons]%Forall_app. split; simpl.
  { rewrite !Forall_app. split_and!; [done| |done]. by eapply advance_sound. }
  assert (gw_step (mkGateway y (t1 ++ g :: t2) tr) (mkGateway y' (t1 ++ gs ++ t2) tr)) as Hstep by by apply gw_run with o.
  destruct Hz as [[He Hu]|[He (h&Hh)]]; simpl in *.
  - pose proof (ug_routines _ _ Hu) as [_ [Hea _]%Forall_cons]%Forall_app.
    destruct (decide (c_clientID (gw_conn y') = "")) as [Hn|Hn].
    { left. split; [done|]. eapply advance_ungreeted; [exact Hea|exact Hadv|by rewrite He|by rewrite Hn|exact Hu]. }
    right. split; [done|]. destruct (early_client _ _ _ _ _ Hea Hadv) as [(dl&->)|E]; [|congruence].
    pose proof Hadv as Hrd. simpl in Hrd. destruct (readLoop _ _ _ _ _) as [[c1 gs1]|] eqn:E; [|done]. injection Hrd as Hy ->. subst y'. simpl in Hn.
    apply readLoop_greets in E as (h&Hh&Hsup&E1&E2); [|by rewrite He|by unfold str_empty; apply bool_decide_eq_false].
    exists h, (mkGateway y (t1 ++ GRead dl :: t2) tr), (mkGateway (on_conn (λ _, c1) y) (t1 ++ gs ++ t2) tr), o, dl, t1, t2, gs.
    split_and!; done || apply rtc_refl || apply Hh || apply Hsup || idtac.
  - right. pose proof (client_kept _ _ _ _ _ Hg Hadv He) as E. split; [by rewrite E|].
    destruct Hh as (z1&z2&o'&dl&u1&u2&gs'&H1&H2&H3&H4&H5&H6&H7&H8&H9&H10&H11&H12). exists h, z1, z2, o', dl, u1, u2, gs'.
    split_and!; try done; [by eapply rtc_r|]; simpl in *; congruence.
Qed.

Lemma gated_step z0 z z' : rtc gw_step z0 z → gw_step z z' → gated z0 z → gated z0 z'.
Proof.
  intros Hr Hstep. pose proof Hstep as Hst. destruct Hst as [o y y' t1 g t2 gs tr Hadv| | |]; [by apply (gated_run z0 o)|..];
    (intros [Hs [Hu|[He (h&z1&z2&o'&dl&u1&u2&gs'&Hr1&Hr2&Hh)]]]; (split; [done|]); [by left|right; split; [done|];
       exists h, z1, z2, o', dl, u1, u2, gs'; split; [done|]; split; [by eapply rtc_r|exact Hh]]).
Qed.

(** C28: the connection runs no request, holds no watch and has queued nothing but
    heartbeat pings, until one step of its reader has got, in time and within the frame
    limit, a text frame with a ClientHello that names the client, its run and exactly
    protocol version 1.2.0; from then on the connection keeps that client.  Conversely
    such a hello, read on a connection not greeted yet, is accepted. *)
Theorem hello_gate z0 z :
  gw_start z0 → rtc gw_step z0 z →
  ((c_clientID (gw_conn (g_world z)) = "" ∧ ungreeted (gw_conn (g_world z)) (g_routines z)) ∨ ∃ h, greeted z0 z h) ∧
  ∀ o deadline h y gs, c_clientID (gw_conn (g_world z)) = "" → hello_read o deadline (gw_conn (g_world z)) h → supported h →
    advance o (GRead deadline) (g_world z) = Some (y, gs) → c_clientID (gw_conn y) = ch_ClientId h.
Proof.
  intros H0 Hr. split.
  - assert (gated z0 z) as [_ [?|[_ ?]]]; [|by left|by right].
    revert z Hr. apply (rtc_ind_r (gated z0)); [|intros; by eapply gated_step].
    destruct H0 as [o id n p audited cap tr a d b _ _]. unfold gated. simpl.
    split; [rewrite !Forall_cons; split_and!; try done; by (left + right)|].
    left. pose proof (connect_core o id n) as Hc. injection Hc as H1 H2 H3 H4 H5 H6 H7 H8 H9 H10.
    split; [by rewrite H10|]. split; [by rewrite !Forall_cons|by rewrite H5|by rewrite H1].
  - intros o dl h y gs He (Hcc&Hdl&raw&Er&Hl&Eu) Hsup. apply hello_supported in Hsup. simpl.
    unfold readLoop, handleRaw, auditWire. rewrite Er, Hcc, He. simpl. unfold handle_hello.
    rewrite (proj2 (Z.ltb_ge _ _) Hdl), (proj2 (Z.ltb_ge _ _) Hl), Eu. simpl.
    destruct (audit _ _ _ _) as [c1 id]. rewrite Hsup. unfold enqueue.
    destruct (send_room _ _); intros [= <- <-]; done.
Qed.

(** ** A closing frame that cannot be written *)

(** After [closeOnce] is gone and the writer has ended, nothing can cancel the
    connection's context or start the closing handshake any more. *)
Definition stranded (z : gateway) : Prop :=
  Forall sound (g_routines z) ∧ writers (g_routines z) = [] ∧
  c_closeOnce (gw_conn (g_world z)) = true ∧ c_cancelled (gw_conn (g_world z)) = false.

Lemma stranded_step z z' : stranded z → gw_step z z' →
  stranded z' ∧ c_closed (gw_conn (g_world z')) = c_closed (gw_conn (g_world z)) ∧
  c_wire (gw_conn (g_world z')) = c_wire (gw_conn (g_world z)).
Proof.
  intros (Hs&Hw&Ho&Hc) Hstep. destruct Hstep as [o y y' t1 g t2 gs tr Hadv| | |]; simpl in *; [|done..].
  pose proof Hs as [Hs1 [Hg Hs2]%Forall_cons]%Forall_app.
  destruct (writers_step t1 g t2 gs) as [E1 E2]. rewrite E2 in Hw.
  apply app_eq_nil in Hw as [W1 [Wg W2]%app_eq_nil].
  assert (never_writes g = true) as Hn.
  { destruct Hg as [Hg|]; [|done]. unfold writers in Wg. by rewrite filter_cons_True in Wg. }
  pose proof (advance_other _ _ _ _ _ Hn Hadv) as [[_ _ _ Hcl] Hgs].
  destruct Hcl as [F1 F2 F3 F4 F5|? ? ? F _ _ _ _ _|? ? F _ _ _ _ _]; [|congruence..].
  split; [|done]. split_and!; simpl; [|by rewrite E1, W1, W2, never_writes_no_writer|congruence..].
  rewrite !Forall_app. split_and!; [done| |done]. by eapply advance_sound.
Qed.

(** Once a protocol close has won [closeOnce], a write that fails (of the closing
    frame itself, or of a frame before it) ends the writer while [shutdown] has become a
    no-op: the connection's context is never cancelled, nothing more is written and the
    closing handshake is never started. *)
Theorem failed_write_strands z o t1 t2 out f raw control :
  gw_reach z → g_routines z = t1 ++ GWriting out f raw control :: t2 → or_write o = false →
  c_closeOnce (gw_conn (g_world z)) = true → c_cancelled (gw_conn (g_world z)) = false →
  ∃ z1, gw_step z z1 ∧ ∀ z2, rtc gw_step z1 z2 →
    c_cancelled (gw_conn (g_world z2)) = false ∧ writers (g_routines z2) = [] ∧
    c_closed (gw_conn (g_world z2)) = c_closed (gw_conn (g_world z)) ∧
    c_wire (gw_conn (g_world z2)) = c_wire (gw_conn (g_world z)).
Proof.
  intros Hr Hgs Hwr Ho Hc. destruct (gw_wired z Hr) as [Hs (n&data&text&fin&Hwa)].
  destruct z as [y l tr]. simpl in *. subst l.
  set (gs := [GShutdown StatusInternalError "write failed"] : list goroutine).
  destruct (write_frame cfg auditor o raw f (gw_conn y)) as [c1 ok] eqn:E.
  assert (ok = false) as -> by (revert E; unfold write_frame, ws_Write; rewrite Hwr; simpl; by intros [= _ <-]).
  pose proof (write_frame_spec _ _ _ _ _ _ E) as ([= E1 E2 E3 E4 E5 E6 E7 E8 E9 E10]&_&_).
  destruct (writers_alone t1 (GWriting out f raw control) t2 gs _ _ _ _ _ eq_refl Hwa) as [Hws _].
  set (z1 := mkGateway (on_conn (λ _, c1) y) (t1 ++ gs ++ t2) tr).
  exists z1. split; [apply gw_run with o; simpl; by rewrite E|].
  assert (stranded z1) as Hst.
  { split_and!; simpl; [|done|congruence..].
    apply Forall_app in Hs as [? [_ ?]%Forall_cons]. rewrite Forall_app, Forall_cons.
    split_and!; [done|by right|done]. }
  assert (c_closed (gw_conn (g_world z1)) = c_closed (gw_conn y) ∧ c_wire (gw_conn (g_world z1)) = c_wire (gw_conn y))
    as [F1 F2] by done.
  clearbody z1. intros z2 Hz2. rewrite <-F1, <-F2. clear -Hst Hz2.
  induction Hz2 as [z|z z' z'' Hstep _ IH]; [by destruct Hst as (_&?&_&?)|].
  destruct (stranded_step _ _ Hst Hstep) as (Hst'&<-&<-). by apply IH.
Qed.
End System.
