(* ===== verification/ServerWatch.v ===== *)
(** * Gateway server: what a client watching a Codex receives

    The composition of the gateway with the event store.  For every Codex the frames the
    connection queues form sessions: a watch response, the replayed events, the live
    events, until a new watch response or an unwatch response.  The theorems say that no
    event falls outside a session and that the events of a session are the replay
    followed by what was published since, in order and without gaps, although the events
    pass through a channel, a goroutine and a mutex. *)

From Stdlib Require Import Ascii String.
From stdpp Require Import base tactics numbers list gmap strings.
From S2P Require Import Prelude GoError GoStrings Remote Activity ActivityTheorems Dispatcher Server ServerSystem.
Local Open Scope string_scope.
Local Open Scope Z_scope.
Local Open Scope list_scope.

(** ** The life of one channel *)

(** The channel was closed by [Forget] after the terminal event. *)
Definition terminated (ch : chan) : Prop :=
  ch_closed ch = true ∧ ∃ ev, last (ch_sent ch) = Some ev ∧ ev_Payload ev = Some Event_CodexForgotten.

(** What a call of the event store other than a receive does to a channel. *)
Inductive chan_grown (ch ch' : chan) : Prop :=
| grown_idle : ch_sent ch' = ch_sent ch → ch_taken ch' = ch_taken ch →
    (ch_closed ch = true → ch_closed ch' = true) → chan_grown ch ch'
| grown_push ev : ch_closed ch = false → ch_sent ch' = ch_sent ch ++ [ev] → ch_taken ch' = ch_taken ch → chan_grown ch ch'
| grown_end ev : ch_closed ch = false → ev_Payload ev = Some Event_CodexForgotten →
    ch_sent ch' = ch_sent ch ++ [ev] → ch_closed ch' = true → (ch_taken ch ≤ ch_taken ch')%nat → chan_grown ch ch'.

(** The reader of a channel has taken [got]; the rest is still queued, except that the
    terminal event of a forgotten Codex may have displaced queued events. *)
Definition flow (got : list Event) (ch : chan) : Prop :=
  ((ch_taken ch ≤ length (ch_sent ch))%nat ∧ got ++ ch_buf ch = ch_sent ch) ∨
  (terminated ch ∧ got ++ ch_buf ch `sublist_of` ch_sent ch).

(** The events taken so far are a prefix of what was sent. *)
Definition delivered (got : list Event) (ch : chan) : Prop :=
  got `prefix_of` ch_sent ch ∨ (terminated ch ∧ got `sublist_of` ch_sent ch).

Lemma sublist_drop_r {A} (k : nat) (l : list A) : drop k l `sublist_of` l.
Proof. revert k. induction l as [|x l IH]; intros [|k]; simpl; [done..|]. by apply sublist_cons. Qed.

Lemma flow_delivered got more ch : flow (got ++ more) ch → delivered got ch.
Proof.
  intros [[_ E]|[Ht Hs]]; [left|right].
  - exists (more ++ ch_buf ch). by rewrite <-E, app_assoc.
  - split; [done|]. etrans; [|exact Hs]. rewrite <-!app_assoc. by apply sublist_inserts_r.
Qed.

Lemma terminated_grown ch ch' : terminated ch → chan_grown ch ch' → terminated ch' ∧ ch_sent ch' = ch_sent ch ∧ ch_taken ch' = ch_taken ch.
Proof.
  intros [Hc Hl] Hg. destruct Hg as [E1 E2 E3| |]; [|congruence..]. split_and!; [|done..].
  split; [auto|]. by rewrite E1.
Qed.

Lemma flow_grown got ch ch' : flow got ch → chan_grown ch ch' → flow got ch'.
Proof.
  intros [[Hlen Hf]|[Ht Hf]] Hg.
  - destruct Hg as [E1 E2 _|ev _ E1 E2|ev Ho Hpl E1 Ec Hle]; unfold flow, ch_buf in *.
    + left. by rewrite E1, E2.
    + left. rewrite E1, E2, length_app. split; [lia|]. rewrite drop_app_le by done. rewrite app_assoc. by f_equal.
    + right. split; [split; [done|]; exists ev; by rewrite E1, last_snoc|].
      assert (got = take (ch_taken ch) (ch_sent ch)) as ->.
      { rewrite <-(take_drop (ch_taken ch) (ch_sent ch)) in Hf at 2. by apply app_inv_tail in Hf. }
      rewrite E1. rewrite <-(take_drop (ch_taken ch) (ch_sent ch ++ [ev])) at 2. rewrite take_app_le by done.
      apply sublist_app; [done|].
      replace (ch_taken ch') with (ch_taken ch + (ch_taken ch' - ch_taken ch))%nat by lia.
      rewrite <-drop_drop. apply sublist_drop_r.
  - destruct (terminated_grown _ _ Ht Hg) as (Ht'&E1&E2). right. split; [done|]. unfold ch_buf. by rewrite E1, E2.
Qed.

Lemma flow_receive got ev rest ch :
  flow got ch → ch_buf ch = ev :: rest → flow (got ++ [ev]) (ch_pop ch) ∧ chan_grown (ch_pop ch) (ch_pop ch).
Proof.
  intros Hf Eb. split; [|by apply grown_idle]. unfold ch_pop. rewrite Eb.
  assert (drop (S (ch_taken ch)) (ch_sent ch) = rest) as Er.
  { unfold ch_buf in Eb. rewrite <-Nat.add_1_r, <-drop_drop, Eb. done. }
  assert (ch_taken ch < length (ch_sent ch))%nat as Hlt.
  { apply (f_equal length) in Eb. unfold ch_buf in Eb. rewrite length_drop in Eb. simpl in Eb. lia. }
  unfold flow, ch_buf in *. simpl. rewrite Er. rewrite Eb in Hf. rewrite <-app_assoc. simpl.
  destruct Hf as [[_ Hf]|[Ht Hf]]; [left|right]; done.
Qed.

Lemma delivered_grown got ch ch' : delivered got ch → chan_grown ch ch' → delivered got ch'.
Proof.
  intros [Hp|[Ht Hs]] Hg.
  - left. destruct Hg as [-> _ _|ev _ -> _|ev _ _ -> _ _]; [done|by apply prefix_app_r..].
  - destruct (terminated_grown _ _ Ht Hg) as (Ht'&E1&_). right. by rewrite E1.
Qed.

Lemma delivered_pop got ch : delivered got ch → delivered got (ch_pop ch).
Proof. unfold ch_pop. by destruct (ch_buf ch). Qed.

Section Store.
Context {P : Type} {EP : EventPersistence P} {EL : EventPersistenceLaws P} {PJ : ProtoJSON}.
Implicit Types s : AStore P.

Lemma grown_refl ch : chan_grown ch ch.
Proof. by apply grown_idle. Qed.
Hint Resolve grown_refl : codex.

Lemma grown_offered ev ch : open_chan ch → chan_grown ch (offered ev ch).
Proof.
  intros [Ho _]. unfold offered. case_match; [by eapply grown_push|]. by apply grown_idle.
Qed.

Lemma grown_ended ev ch :
  open_chan ch → (0 < ch_cap ch)%Z → ev_Payload ev = Some Event_CodexForgotten → chan_grown ch (ended ev ch).
Proof.
  intros [Ho _] Hcap Hpl. unfold ended.
  destruct (force_send_some (S (length (ch_buf ch))) ev ch) as (c'&->&E1&E2&_&E3&_); [done|lia|].
  by eapply grown_end.
Qed.

Lemma visited_grown f keep id s s' c ch :
  chan_wf s → visited f keep id s s' → (∀ ch, open_chan ch → (0 < ch_cap ch)%Z → chan_grown ch (f ch)) →
  as_chans s !! c = Some ch → ∃ ch', as_chans s' !! c = Some ch' ∧ chan_grown ch ch'.
Proof.
  intros Hc (H1&H2&_) Hf Hch. destruct (decide (registered s id c)) as [Hr|Hr].
  - exists (f ch). split; [by apply H1|]. destruct Hr as [w Hw].
    destruct (cwf_open s Hc _ _ _ Hw) as (ch0&?&?). simplify_eq. apply Hf; [done|]. by apply (cwf_buf s Hc c).
  - exists ch. rewrite H2 by done. auto with codex.
Qed.

Lemma Cancel_grown w s c ch :
  as_chans s !! c = Some ch → ∃ ch', as_chans (Cancel w s) !! c = Some ch' ∧ chan_grown ch ch'.
Proof.
  intros Hch. unfold Cancel. destruct (as_codex s !! wt_codex w) as [st|]; [|eauto with codex].
  case_bool_decide; [|eauto with codex]. destruct (sm_watchers st !! wt_id w) as [d|]; [|eauto with codex].
  cbn [as_chans put_stream set_as_codex]. destruct (as_chans s !! d) as [chd|] eqn:Ed; [|eauto with codex].
  assert (∃ ch', <[d := ch_close chd]> (as_chans s) !! c = Some ch' ∧ chan_grown ch ch') as Hgo.
  { rewrite lookup_insert. case_decide; [|eauto with codex]. simplify_eq. eexists; split; [done|]. by apply grown_idle. }
  by destruct (ch_closed chd).
Qed.

(** A channel existing before a call exists after it, chan_grown, unless the call receives
    from it. *)
Lemma arun_grown op s s' evs c ch :
  data_wf s → chan_wf s → op_ok op → arun op s = (s', evs) → op ≠ AReceive c →
  as_chans s !! c = Some ch → ∃ ch', as_chans s' !! c = Some ch' ∧ chan_grown ch ch'.
Proof.
  intros Hd Hc Hop Hr Hne Hch.
  assert (∀ s1, quiet s s1 → ∃ ch', as_chans s1 !! c = Some ch' ∧ chan_grown ch ch') as Hquiet.
  { intros s1 (->&_). eauto with codex. }
  assert (∀ id k q s1, watched id k q s s1 → ∃ ch', as_chans s1 !! c = Some ch' ∧ chan_grown ch ch') as Hwatch.
  { intros id k q s1 (->&_&_&->&_). exists ch. rewrite lookup_insert_ne; [auto with codex|].
    apply (cwf_buf s Hc) in Hch. lia. }
  destruct op as [now event view audit|now id req destroy audit|id|id after q|id reason q|w|k|id]; simpl in Hr.
  - destruct (Publish now event view audit s) as [s1 r] eqn:E. injection Hr as <- _.
    destruct event as [event|]; [|injection E as <- <-; by apply Hquiet].
    destruct view as [view|]; [|unfold Publish in E; destruct (str_empty _); injection E as <- <-; by apply Hquiet].
    apply Publish_spec in E as (_&_&_&Hr); [|done..]. destruct r as [ev|e]; [|by apply Hquiet; destruct Hr].
    destruct Hr as [Hv _]. eapply visited_grown; [done|exact Hv| |done]. intros. by apply grown_offered.
  - destruct (Forget now id req destroy audit s) as [s1 r] eqn:E. injection Hr as <- _.
    destruct destroy as [destroy|]; [|injection E as <- <-; by apply Hquiet].
    apply Forget_spec in E as (_&_&_&[[Hq _]|(seq&Hv&_)]); [by apply Hquiet| |done..].
    eapply visited_grown; [done|exact Hv| |done]. intros. by apply grown_ended.
  - destruct (ReloadDurable id s) as [s1 r] eqn:E. injection Hr as <- _. apply Hquiet. by eapply ReloadDurable_spec.
  - destruct (Store_Watch id after q s) as [s1 r] eqn:E. injection Hr as <- _.
    apply Store_Watch_spec in E as (_&_&Hr); [|done..]. destruct r as [w|e]; [|by apply Hquiet].
    destruct Hr as [[q' Hw] _]. by eapply Hwatch.
  - destruct (ForceReset id reason q s) as [s1 r] eqn:E. injection Hr as <- _.
    apply ForceReset_spec in E as (_&_&Hr); [|done..]. destruct r as [w|e]; [|by apply Hquiet].
    destruct Hr as [q' Hw]. by eapply Hwatch.
  - injection Hr as <- _. by apply Cancel_grown.
  - injection Hr as <- _. unfold Receive. destruct (as_chans s !! k); [|eauto with codex]. simpl.
    rewrite lookup_insert_ne by congruence. eauto with codex.
  - destruct (Store_CurrentView id s) as [s1 r] eqn:E. injection Hr as <- _. apply Hquiet.
    by eapply Store_CurrentView_spec.
Qed.
End Store.

(** ** Sessions *)

(** The state of one Codex in the log of queued frames; [Stray] is an event outside any
    watch. *)
Inductive session :=
| Idle
| Watching (w : Watch) (evs : list Event)
| Stray.

Section Watches.
Context {P D S B V : Type}.
Context {EP : EventPersistence P} {EL : EventPersistenceLaws P} {PJ : ProtoJSON} {BK : Backend S B V}
  {DD : DedupStore D} {PR : ProtoRPC B V} {FJ : FrameJSON B V} {WB : WatchBodies B V}.
Variable cfg : ServerConfig.
Variable auditor : option (list (audit_call B V) → audit_call B V → string * option goerr).

Notation connection := (connection B V).
Notation goroutine := (goroutine B V).
Notation world := (world P D S B V).
Notation gateway := (gateway P D S B V).
Notation oracle := (oracle V).
Notation advance := (advance cfg auditor).
Notation gw_step := (gw_step cfg auditor).
Notation gw_reach := (gw_reach cfg auditor).

Definition log_step (id : string) (s : session) (ob : outbound B V) : session :=
  match ob_label ob with
  | LWatch w => if bool_decide (wt_codex w = id) then Watching w [] else s
  | LUnwatch id' => if bool_decide (id' = id) then Idle else s
  | LEvent id' ev =>
      if bool_decide (id' = id) then match s with Watching w evs => Watching w (evs ++ [ev]) | _ => Stray end else s
  | LHello | LOther => s
  end.

(** The session of a Codex after the frames [sent]. *)
Definition session_of (id : string) (sent : list (outbound B V)) : session := foldl (log_step id) Idle sent.

Lemma session_of_snoc id sent ob : session_of id (sent ++ [ob]) = log_step id (session_of id sent) ob.
Proof. unfold session_of. by rewrite foldl_snoc. Qed.

(** *** Who holds the lock, who reads a channel *)

Fixpoint holds (g : goroutine) : bool :=
  match g with
  | GShutdownWatches | GWatchOpen _ _ _ | GWatchReply _ _ _ _ | GWatchReplay _ _ _ | GWatchUndo _ _
  | GUnwatchReply _ _ _ | GUnlock => true
  | GClose _ _ _ next => holds next
  | _ => false
  end.

(** The watch a goroutine is opening, and the one it is about to undo. *)
Fixpoint undoes (g : goroutine) : option (string * Watch) :=
  match g with
  | GWatchUndo id w => Some (id, w)
  | GClose _ _ _ next => undoes next
  | _ => None
  end.

Definition opens (g : goroutine) : option (string * Watch) :=
  match g with
  | GWatchReply _ id w _ | GWatchReplay id w _ => Some (id, w)
  | _ => undoes g
  end.

(** The watch a goroutine forwards, with the event it has received and not yet queued. *)
Definition forwards (g : goroutine) : option (string * Watch * list Event) :=
  match g with
  | GForward id w | GForwardClosed id w | GForwardSlow id w => Some (id, w, [])
  | GForwardEvent id w ev => Some (id, w, [ev])
  | _ => None
  end.

Definition holders (gs : list goroutine) : list goroutine := filter (λ g, holds g = true) gs.
Definition readers (gs : list goroutine) (k : nat) : list (string * Watch * list Event) :=
  filter (λ t, wt_chan t.1.2 = k) (omap forwards gs).

Lemma holders_app l1 l2 : holders (l1 ++ l2) = holders l1 ++ holders l2.
Proof. apply filter_app. Qed.

Lemma readers_app l1 l2 k : readers (l1 ++ l2) k = readers l1 k ++ readers l2 k.
Proof. unfold readers. by rewrite omap_app, filter_app. Qed.

(** *** The invariant

    It is stated on what it depends on: the map of watches, the mutex, the sessions, the
    event store, the published events, the lock holders and the readers. *)

Section Invariant.

(** [opened id w tr]: the watch [w] of [id] was opened when [tr] had been published. *)
Variable opened : string → Watch → list Event → Prop.

(** The channel of [w] has received what was published for [id] since it was opened. *)
Definition since (id : string) (w : Watch) (a : AStore P) (tr : list Event) : Prop :=
  ∃ tr0 tr1, tr = tr0 ++ tr1 ∧ opened id w tr0 ∧ delivery id (wt_chan w) (published id tr1) a.

(** The events of a session: part of the replay, or the replay and live events. *)
Definition streamed (a : AStore P) (tr : list Event) (id : string) (w : Watch) (evs : list Event) : Prop :=
  wt_codex w = id ∧ since id w a tr ∧
  ∃ ch, as_chans a !! wt_chan w = Some ch ∧
    (evs `prefix_of` wt_Replay w ∨ ∃ got, evs = wt_Replay w ++ got ∧ delivered got ch).

(** Where a watch that is in the map is in its life. *)
Inductive phase (sess : session) (hs : list goroutine) (rd : list (string * Watch * list Event))
    (id : string) (w : Watch) (ch : chan) : Prop :=
| ph_opening req parent : hs = [GWatchReply req id w parent] → rd = [] → flow [] ch → phase sess hs rd id w ch
| ph_replaying rest evs : hs = [GWatchReplay id w rest] → rd = [] → flow [] ch →
    sess = Watching w evs → evs ++ rest = wt_Replay w → phase sess hs rd id w ch
| ph_undo g : hs = [g] → undoes g = Some (id, w) → rd = [] → phase sess hs rd id w ch
| ph_live got : Forall (λ g, ∀ w', opens g ≠ Some (id, w')) hs → sess = Watching w (wt_Replay w ++ got) →
    Forall (λ t, flow (got ++ t.2) ch) rd → phase sess hs rd id w ch.

Record watch_inv (watches : gmap string Watch) (mu : bool) (sess : string → session) (a : AStore P)
    (tr : list Event) (hs : list goroutine) (rd : nat → list (string * Watch * list Event)) : Prop := {
  wi_data : data_wf a;
  wi_chan : chan_wf a;
  wi_lock : length hs = (if mu then 1 else 0)%nat;
  wi_single k : (length (rd k) ≤ 1)%nat;
  wi_reader k id w hand : (id, w, hand) ∈ rd k → wt_chan w = k ∧ is_Some (as_chans a !! k) ∧
    ∀ id' w', watches !! id' = Some w' → wt_chan w' = k → id' = id ∧ w' = w;
  wi_opener g id w : g ∈ hs → opens g = Some (id, w) → watches !! id = Some w;
  wi_unwatch req id parent : GUnwatchReply req id parent ∈ hs → watches !! id = None;
  wi_inj i1 w1 i2 w2 : watches !! i1 = Some w1 → watches !! i2 = Some w2 → wt_chan w1 = wt_chan w2 → i1 = i2;
  wi_watch id w : watches !! id = Some w → wt_codex w = id ∧ since id w a tr ∧
    ∃ ch, as_chans a !! wt_chan w = Some ch ∧ phase (sess id) hs (rd (wt_chan w)) id w ch;
  wi_session id : match sess id with
    | Idle => True | Stray => False | Watching w evs => streamed a tr id w evs end;
}.

Lemma watch_inv_ext watches mu sess sess' a tr hs rd rd' :
  (∀ id, sess' id = sess id) → (∀ k, rd' k = rd k) →
  watch_inv watches mu sess a tr hs rd → watch_inv watches mu sess' a tr hs rd'.
Proof.
  intros Hs Hr [H1 H2 H3 H4 H5 H6 H7 H8 H9 H10]. split; try done.
  - intros k. by rewrite Hr.
  - intros k id w hand. rewrite Hr. apply H5.
  - intros id w Hw. rewrite Hs, Hr. by apply H9.
  - intros id. rewrite Hs. apply H10.
Qed.

(** Only goroutines that open no watch hold the lock before and after: every watch is
    live. *)
Lemma phase_live sess hs rd id w ch :
  Forall (λ g, opens g = None) hs → phase sess hs rd id w ch →
  ∃ got, sess = Watching w (wt_Replay w ++ got) ∧ Forall (λ t, flow (got ++ t.2) ch) rd.
Proof.
  intros Ho [req parent Eh|rest evs Eh|g Eh Hu|got _]; [..|by exists got];
    subst hs; apply Forall_cons in Ho as [Ho _]; try done.
  exfalso. destruct g; simpl in *; congruence.
Qed.

Lemma opens_none_other hs id : Forall (λ g, opens g = None) hs → Forall (λ g, ∀ w', opens g ≠ Some (id, w')) hs.
Proof. intros Ho. eapply Forall_impl; [exact Ho|]. intros g Hg w'. by rewrite Hg. Qed.
Hint Resolve opens_none_other : codex.

Lemma watch_inv_swap watches (mu mu' : bool) sess a tr hs hs' rd :
  Forall (λ g, opens g = None) hs → Forall (λ g, opens g = None) hs' → length hs' = (if mu' then 1 else 0)%nat →
  (∀ req id parent, GUnwatchReply req id parent ∈ hs' → watches !! id = None) →
  watch_inv watches mu sess a tr hs rd → watch_inv watches mu' sess a tr hs' rd.
Proof.
  intros Ho Ho' Hl Hu [H1 H2 H3 H4 H5 H6 H7 H8 H9 H10]. split; try done.
  - intros g id w Hg He. rewrite Forall_forall in Ho'. specialize (Ho' g Hg). congruence.
  - intros id w Hw. destruct (H9 id w Hw) as (?&?&ch&?&Hp). split_and!; [done..|].
    exists ch. split; [done|]. destruct (phase_live _ _ _ _ _ _ Ho Hp) as (got&?&?).
    eapply ph_live; eauto with codex.
Qed.

(** Removing a watch, by its opener or by a holder that opens none. *)
Lemma watch_inv_delete watches (mu mu' : bool) sess a tr hs hs' rd id :
  (∀ g id' w, g ∈ hs → opens g = Some (id', w) → id' = id) → Forall (λ g, opens g = None) hs' →
  length hs' = (if mu' then 1 else 0)%nat →
  (∀ req id' parent, GUnwatchReply req id' parent ∈ hs' → id' = id ∨ watches !! id' = None) →
  watch_inv watches mu sess a tr hs rd → watch_inv (delete id watches) mu' sess a tr hs' rd.
Proof.
  intros Ho Ho' Hl Hu [H1 H2 H3 H4 H5 H6 H7 H8 H9 H10]. split; try done.
  - intros k i w hand Hin. destruct (H5 _ _ _ _ Hin) as (?&?&Hu'). split_and!; [done..|].
    intros i' w' [_ Hw']%lookup_delete_Some. by apply Hu'.
  - intros g i w Hg He. rewrite Forall_forall in Ho'. specialize (Ho' g Hg). congruence.
  - intros req i parent Hin. destruct (Hu _ _ _ Hin) as [-> |Hn]; [by apply lookup_delete_eq|].
    rewrite lookup_delete. case_decide; done.
  - intros i1 w1 i2 w2 [_ Hw1]%lookup_delete_Some [_ Hw2]%lookup_delete_Some. by apply (H8 i1 w1 i2 w2).
  - intros i w [Hne Hw]%lookup_delete_Some. destruct (H9 i w Hw) as (?&?&ch&?&Hp). split_and!; [done..|].
    exists ch. split; [done|]. destruct Hp as [req parent Eh|rest evs Eh|g Eh Hg|got Hop Hs Hr].
    + exfalso. apply Hne. symmetry. by apply (Ho (GWatchReply req i w parent) i w); [rewrite Eh; left|].
    + exfalso. apply Hne. symmetry. by apply (Ho (GWatchReplay i w rest) i w); [rewrite Eh; left|].
    + exfalso. apply Hne. symmetry. apply (Ho g i w); [rewrite Eh; left|]. by destruct g.
    + eapply ph_live; eauto with codex.
Qed.

(** *** Steps of the event store *)

Lemma since_effect id w a a' tr evs :
  chan_wf a → chan_wf a' → effect a evs a' → since id w a tr → since id w a' (tr ++ evs).
Proof.
  intros Hc Hc' He (tr0&tr1&->&Ho&Hd). exists tr0, (tr1 ++ evs). split; [by rewrite app_assoc|]. split; [done|].
  rewrite published_app. by apply (effect_delivery id (wt_chan w) _ a).
Qed.

(** A channel after a step of the store: taken from by its reader, or chan_grown. *)
Definition moved (ch ch' : chan) : Prop := chan_grown ch ch' ∨ ch' = ch_pop ch.

Lemma streamed_effect id w evs a a' tr new :
  chan_wf a → chan_wf a' → effect a new a' →
  (∀ ch, as_chans a !! wt_chan w = Some ch → ∃ ch', as_chans a' !! wt_chan w = Some ch' ∧ moved ch ch') →
  streamed a tr id w evs → streamed a' (tr ++ new) id w evs.
Proof.
  intros Hc Hc' He Hm (Hw&Hs&ch&Hch&Hd). split_and!; [done|by apply (since_effect id w a)|].
  destruct (Hm ch Hch) as (ch'&Hch'&Hmv). exists ch'. split; [done|].
  destruct Hd as [?|(got&->&Hd)]; [by left|right]. exists got. split; [done|].
  destruct Hmv as [Hg| ->]; [by eapply delivered_grown|by apply delivered_pop].
Qed.

Lemma phase_grown sess hs rd id w ch ch' : chan_grown ch ch' → phase sess hs rd id w ch → phase sess hs rd id w ch'.
Proof.
  intros Hg [req parent Eh Er Hf|rest evs Eh Er Hf Hs He|g Eh Hu Er|got Ho Hs Hf].
  - eapply ph_opening; [done..|]. by eapply flow_grown.
  - eapply ph_replaying; [done|done|by eapply flow_grown|done|done].
  - by eapply ph_undo.
  - apply ph_live with got; [done..|]. eapply Forall_impl; [exact Hf|]. intros t Ht. by apply (flow_grown _ ch).
Qed.

(** The step does not receive from a channel that has a reader or is being opened. *)
Definition keeps_off (op : a_op P) (hs : list goroutine) (rd : nat → list (string * Watch * list Event)) : Prop :=
  ∀ k, op = AReceive k → rd k = [] ∧ Forall (λ g, own_chan g ≠ Some k) hs.

Lemma arun_moved op a a' evs k ch :
  data_wf a → chan_wf a → op_ok op → arun op a = (a', evs) →
  as_chans a !! k = Some ch → ∃ ch', as_chans a' !! k = Some ch' ∧ (moved ch ch' ∧ (op ≠ AReceive k → chan_grown ch ch')).
Proof.
  intros Hd Hc Hop Hr Hch.
  assert ((∃ j, op = AReceive j ∧ j = k) ∨ op ≠ AReceive k) as [(j&->&->)|Hne].
  { destruct op as [| | | | | |j|]; try (by right). destruct (decide (j = k)); [left; eauto|right; congruence]. }
  - simpl in Hr. injection Hr as <- _. unfold Receive. rewrite Hch. simpl. rewrite lookup_insert_eq.
    exists (ch_pop ch). split; [done|]. split; [by right|done].
  - destruct (arun_grown op a a' evs k ch) as (ch'&?&?); [done..|]. exists ch'. split; [done|]. split; [by left|done].
Qed.

Lemma watch_inv_store watches mu sess a a' tr evs hs rd op :
  op_ok op → keeps_off op hs rd → arun op a = (a', evs) →
  watch_inv watches mu sess a tr hs rd → watch_inv watches mu sess a' (tr ++ evs) hs rd.
Proof.
  intros Hop Hk Hr [H1 H2 H3 H4 H5 H6 H7 H8 H9 H10].
  destruct (arun_spec op a a' evs) as (Hd'&Hc'&He); [done..|].
  assert (∀ k ch, as_chans a !! k = Some ch → ∃ ch', as_chans a' !! k = Some ch' ∧
    (moved ch ch' ∧ (op ≠ AReceive k → chan_grown ch ch'))) as Hm by (intros; by apply (arun_moved op a a' evs)).
  split; try done.
  - intros k id w hand Hin. destruct (H5 _ _ _ _ Hin) as (?&[ch Hch]&?). split_and!; [done| |done].
    destruct (Hm _ _ Hch) as (ch'&?&_). by exists ch'.
  - intros id w Hw. destruct (H9 id w Hw) as (?&?&ch&Hch&Hp). split_and!; [done|by apply (since_effect id w a)|].
    destruct (Hm _ _ Hch) as (ch'&?&_&Hg). exists ch'. split; [done|].
    destruct Hp as [req parent Eh Er Hf|rest evs0 Eh Er Hf Hs Hev|g Eh Hu Er|got Ho Hs Hf].
    + eapply ph_opening; [done..|]. eapply flow_grown; [done|]. apply Hg. intros E. destruct (Hk _ E) as [_ Hown].
      rewrite Eh in Hown. by apply Forall_cons in Hown as [Hown _].
    + eapply ph_replaying; [done|done| |done|done]. eapply flow_grown; [done|]. apply Hg. intros E. destruct (Hk _ E) as [_ Hown].
      rewrite Eh in Hown. by apply Forall_cons in Hown as [Hown _].
    + by eapply ph_undo.
    + destruct (rd (wt_chan w)) as [|t l] eqn:Er; [by eapply ph_live|].
      assert (chan_grown ch ch') as Hgr. { apply Hg. intros E. destruct (Hk _ E) as [Er' _]. congruence. }
      eapply phase_grown; [done|]. by eapply ph_live.
  - intros id. specialize (H10 id). destruct (sess id) as [|w evs0|]; [done| |done].
    apply (streamed_effect id w evs0 a); [done..| |done]. intros ch Hch. destruct (Hm _ _ Hch) as (ch'&?&?&_). eauto.
Qed.

Lemma watch_inv_env watches mu sess a p tr hs rd :
  env_step a p → watch_inv watches mu sess a tr hs rd → watch_inv watches mu sess (set_as_persist p a) tr hs rd.
Proof.
  intros He [H1 H2 H3 H4 H5 H6 H7 H8 H9 H10].
  destruct (env_step_wf a p) as (Hd'&Hc'&_); done.
Qed.

(** *** Opening a watch *)

Lemma open_watch_spec wq a a' r :
  data_wf a → chan_wf a → open_watch cfg wq a = (a', r) →
  match r with
  | Ok w => wt_codex w = wq_CodexId wq ∧ ∃ q, watched (wq_CodexId wq) (wt_chan w) q a a'
  | Err _ => True
  end ∧ ∃ op, op_ok op ∧ (∀ k, op ≠ AReceive k) ∧ arun op a = (a', []).
Proof.
  intros Hd Hc. unfold open_watch. set (id := wq_CodexId wq). set (q := sc_WatchQueueSize cfg).
  assert (∀ after s s' w, Store_Watch id after q s = (s', Ok w) → wt_codex w = id) as Hcodex.
  { intros after s s' w. unfold Store_Watch. destruct (str_empty id); [done|].
    intros (s1&st&_&Hw)%M_bind_inv_ok. unfold watchLocked in Hw. simpl in Hw.
    destruct (watch_response _ _ _) as [resp replay]. by injection Hw as _ <-. }
  assert (∀ reason s s' w, ForceReset id reason q s = (s', Ok w) → wt_codex w = id) as Hcodex'.
  { intros reason s s' w. unfold ForceReset. destruct (str_empty id); [done|].
    intros (s1&st&_&(s2&w0&Hw&[= _ <-])%M_bind_inv_ok)%M_bind_inv_ok. unfold watchLocked in Hw. simpl in *.
    by injection Hw as _ <-. }
  destruct (other_run cfg wq); intros E.
  - split; [|exists (AForceReset id WATCH_RESET_REASON_HOST_RESTARTED q); simpl; by rewrite E].
    destruct r as [w|e]; [|done]. split; [by eapply Hcodex'|].
    by destruct (ForceReset_spec _ _ _ _ _ _ Hd Hc E) as (_&_&?).
  - split; [|exists (AWatch id (wq_AfterEventSeq wq) q); simpl; by rewrite E].
    destruct r as [w|e]; [|done]. split; [by eapply Hcodex|].
    destruct (Store_Watch_spec _ _ _ _ _ _ Hd Hc E) as (_&_&[q' ?]&_). by exists q'.
Qed.

(** A channel that did not exist has no reader and belongs to no watch. *)
Lemma fresh_channel watches mu sess a tr hs rd id k q a' :
  watch_inv watches mu sess a tr hs rd → watched id k q a a' →
  rd k = [] ∧ ∀ i w, watches !! i = Some w → wt_chan w ≠ k.
Proof.
  intros [_ H2 _ _ H5 _ _ _ H9 _] (->&_).
  assert (as_chans a !! as_next_chan a = None) as Hn.
  { destruct (as_chans a !! as_next_chan a) as [ch|] eqn:E; [|done]. apply (cwf_buf a H2) in E. lia. }
  split.
  - destruct (rd (as_next_chan a)) as [|[[i w] hand] l] eqn:E; [done|].
    destruct (H5 (as_next_chan a) i w hand) as (_&[ch ?]&_); [rewrite E; left|]. congruence.
  - intros i w Hw Heq. destruct (H9 i w Hw) as (_&_&ch&Hch&_). congruence.
Qed.

Lemma watch_inv_open watches mu sess a a' tr hs rd wq w req parent :
  open_watch cfg wq a = (a', Ok w) → opened (wq_CodexId wq) w tr → Forall (λ g, opens g = None) hs →
  watch_inv watches mu sess a tr hs rd →
  watch_inv (<[wq_CodexId wq := w]> watches) true sess a' tr [GWatchReply req (wq_CodexId wq) w parent] rd.
Proof.
  intros Ho Hopened Hhs Hi. destruct (open_watch_spec _ _ _ _ (wi_data _ _ _ _ _ _ _ Hi) (wi_chan _ _ _ _ _ _ _ Hi) Ho)
    as ((Hcodex&q&Hw)&op&Hop&Hne&Hr). set (id := wq_CodexId wq) in *.
  destruct (fresh_channel _ _ _ _ _ _ _ _ _ _ _ Hi Hw) as [Hrd Hfr].
  assert (watch_inv watches mu sess a' tr hs rd) as Hi'.
  { rewrite <-(app_nil_r tr). eapply watch_inv_store; [done| |done..]. intros k ->. by destruct (Hne k). }
  pose proof Hw as (_&_&_&Hchs&[wid Hwm]&_). destruct Hi' as [H1 H2 H3 H4 H5 H6 H7 H8 H9 H10]. split; try done.
  - intros k i w0 hand Hin. destruct (H5 _ _ _ _ Hin) as (?&?&Hu). split_and!; [done..|].
    intros i' w'. rewrite lookup_insert. case_decide as Ei; [intros [= <-] Hk|by apply Hu].
    exfalso. rewrite Hk in Hrd. rewrite Hrd in Hin. by apply elem_of_nil in Hin.
  - intros g i w0 ->%list_elem_of_singleton [= <- <-]. by rewrite lookup_insert_eq.
  - intros req0 i parent0 ?%list_elem_of_singleton. done.
  - intros i1 w1 i2 w2. rewrite !lookup_insert. do 2 case_decide; subst; intros E1 E2 Hk; simplify_eq; try done.
    + by destruct (Hfr _ _ E2).
    + by destruct (Hfr _ _ E1).
    + by eapply (H8 i1 w1 i2 w2).
  - intros i w0. rewrite lookup_insert. case_decide as Ei.
    + intros [= <-]. subst i. split; [done|]. split.
      * exists tr, []. rewrite app_nil_r. split; [done|]. split; [done|]. exists (new_chan q).
        rewrite Hchs, lookup_insert_eq. split; [done|]. left. split; [|done]. exists wid. by rewrite Hwm, lookup_insert_eq.
      * exists (new_chan q). rewrite Hchs, lookup_insert_eq. split; [done|].
        eapply ph_opening; [done|done|]. left. split; [simpl; lia|done].
    + intros Hw0. destruct (H9 _ _ Hw0) as (?&?&ch&?&Hp). split_and!; [done..|]. exists ch. split; [done|].
      destruct (phase_live _ _ _ _ _ _ Hhs Hp) as (got&?&?). eapply ph_live; [|done..].
      apply Forall_singleton. simpl. congruence.
Qed.

(** The goroutine opening [w] moves on, still holding the lock. *)
Lemma watch_inv_holder watches sess sess' a tr g g' rd id w :
  opens g = Some (id, w) → opens g' = Some (id, w) → (∀ i, i ≠ id → sess' i = sess i) →
  (∀ ch, phase (sess id) [g] (rd (wt_chan w)) id w ch → phase (sess' id) [g'] (rd (wt_chan w)) id w ch) →
  (∀ ch, as_chans a !! wt_chan w = Some ch → phase (sess id) [g] (rd (wt_chan w)) id w ch →
     sess' id = sess id ∨ ∃ evs, sess' id = Watching w evs ∧ evs `prefix_of` wt_Replay w) →
  watch_inv watches true sess a tr [g] rd → watch_inv watches true sess' a tr [g'] rd.
Proof.
  intros Hg Hg' Hs Hp Hss [H1 H2 H3 H4 H5 H6 H7 H8 H9 H10].
  assert (watches !! id = Some w) as Hw by (by apply (H6 g id w); [left|]).
  destruct (H9 id w Hw) as (Hcx&Hsi&ch0&Hch0&Hp0). split; try done.
  - intros g0 i w0 ->%list_elem_of_singleton. rewrite Hg'. by intros [= <- <-].
  - intros req i parent <-%list_elem_of_singleton. done.
  - intros i w0 Hw0. destruct (decide (i = id)) as [-> |Hne].
    + rewrite Hw in Hw0. injection Hw0 as <-. split_and!; [done..|]. exists ch0. auto.
    + destruct (H9 i w0 Hw0) as (?&?&ch&?&Hpi). split_and!; [done..|]. exists ch. split; [done|]. rewrite Hs by done.
      destruct Hpi as [req parent [= ->] _|rest evs [= ->] _|g0 [= ->] Hu|got _ ? ?].
      * simpl in Hg. congruence.
      * simpl in Hg. congruence.
      * exfalso. assert (opens g0 = Some (i, w0)) by (by destruct g0). congruence.
      * eapply ph_live; [|done..]. apply Forall_singleton. intros w'. congruence.
  - intros i. destruct (decide (i = id)) as [-> |Hne]; [|rewrite Hs by done; apply H10].
    destruct (Hss ch0 Hch0 Hp0) as [-> |(evs&->&Hpre)]; [apply H10|]. split_and!; [done..|]. exists ch0. auto.
Qed.

Lemma undoes_opens g p : undoes g = Some p → opens g = Some p.
Proof. by destruct g. Qed.

(** The response was not queued, or an event of the replay was not. *)
Lemma watch_inv_undo watches sess a tr g g' rd id w :
  opens g = Some (id, w) → undoes g' = Some (id, w) →
  watch_inv watches true sess a tr [g] rd → watch_inv watches true sess a tr [g'] rd.
Proof.
  intros Hg Hg' Hi. eapply (watch_inv_holder _ sess sess); eauto using undoes_opens. intros ch Hp.
  assert (rd (wt_chan w) = []) as Hrd.
  { destruct Hp as [| | |got Ho]; try done. apply Forall_cons in Ho as [Ho _]. by destruct (Ho w). }
  by eapply ph_undo.
Qed.

Lemma watch_inv_reply watches sess sess' a tr rd id w req parent :
  (∀ i, i ≠ id → sess' i = sess i) → sess' id = Watching w [] →
  watch_inv watches true sess a tr [GWatchReply req id w parent] rd →
  watch_inv watches true sess' a tr [GWatchReplay id w (wt_Replay w)] rd.
Proof.
  intros Hs Hid Hi. apply (watch_inv_holder watches sess sess' a tr (GWatchReply req id w parent) _ rd id w); try done.
  - intros ch [req' parent' _ Hr Hf|rest evs [=]|g [= <-] Hu|got Ho].
    + by apply ph_replaying with (wt_Replay w) [].
    + done.
    + apply Forall_cons in Ho as [Ho _]. by destruct (Ho w).
  - intros ch _ _. right. exists []. split; [done|apply prefix_nil].
Qed.

Lemma watch_inv_replay watches sess sess' a tr rd id w ev rest :
  (∀ i, i ≠ id → sess' i = sess i) →
  (∀ w evs, sess id = Watching w evs → sess' id = Watching w (evs ++ [ev])) →
  watch_inv watches true sess a tr [GWatchReplay id w (ev :: rest)] rd →
  watch_inv watches true sess' a tr [GWatchReplay id w rest] rd.
Proof.
  intros Hs Hid Hi.
  assert (∀ ch, phase (sess id) [GWatchReplay id w (ev :: rest)] (rd (wt_chan w)) id w ch →
    ∃ evs, sess id = Watching w evs ∧ evs ++ ev :: rest = wt_Replay w ∧ flow [] ch ∧ rd (wt_chan w) = []) as Hph.
  { intros ch [req' parent' [=]|rest' evs [= <-] Hr Hf Hse He|g [= <-] Hu|got Ho]; [by exists evs|done|].
    apply Forall_cons in Ho as [Ho _]. by destruct (Ho w). }
  apply (watch_inv_holder watches sess sess' a tr (GWatchReplay id w (ev :: rest)) _ rd id w); try done.
  - intros ch (evs&Hse&He&Hf&Hr)%Hph. eapply ph_replaying; [done..|by apply Hid|]. by rewrite <-app_assoc.
  - intros ch _ (evs&Hse&He&Hf&Hr)%Hph. right. exists (evs ++ [ev]). split; [by apply Hid|].
    exists rest. by rewrite <-app_assoc.
Qed.

(** The replay is queued: the lock is released and the forwarder starts. *)
Lemma watch_inv_live watches sess a tr rd rd' id w :
  (∀ k, k ≠ wt_chan w → rd' k = rd k) →
  (rd (wt_chan w) = [] → rd' (wt_chan w) = [(id, w, [])]) →
  watch_inv watches true sess a tr [GWatchReplay id w []] rd → watch_inv watches false sess a tr [] rd'.
Proof.
  intros Hne Heq [H1 H2 H3 H4 H5 H6 H7 H8 H9 H10].
  assert (watches !! id = Some w) as Hw by (by apply (H6 (GWatchReplay id w []) id w); [left|]).
  destruct (H9 id w Hw) as (Hcx&Hsi&ch0&Hch0&Hp0).
  assert (rd (wt_chan w) = [] ∧ sess id = Watching w (wt_Replay w) ∧ flow [] ch0) as (Hr&Hse&Hf).
  { destruct Hp0 as [? ? [=]|rest evs [= <-] ? ? -> He|g [= <-] Hu|got Ho]; [|done|].
    - rewrite app_nil_r in He. by subst evs.
    - apply Forall_cons in Ho as [Ho _]. by destruct (Ho w). }
  specialize (Heq Hr). split; try done.
  - intros k. destruct (decide (k = wt_chan w)) as [-> |]; [rewrite Heq; simpl; lia|by rewrite Hne].
  - intros k i w0 hand. destruct (decide (k = wt_chan w)) as [-> |Hk]; [|rewrite Hne by done; apply H5].
    rewrite Heq. intros [= -> -> ->]%list_elem_of_singleton. split_and!; [done|by exists ch0|].
    intros i' w' Hw' Hk'. assert (i' = id) as -> by (by apply (H8 i' w' id w)). split; congruence.
  - intros g i w0 ?%elem_of_nil. done.
  - intros req i parent ?%elem_of_nil. done.
  - intros i w0 Hw0. destruct (decide (i = id)) as [-> |Hi].
    + rewrite Hw in Hw0. injection Hw0 as <-. split_and!; [done..|]. exists ch0. split; [done|]. rewrite Heq.
      apply ph_live with []; [constructor|by rewrite app_nil_r|by apply Forall_singleton].
    + destruct (H9 i w0 Hw0) as (?&?&ch&?&Hp). split_and!; [done..|]. exists ch. split; [done|].
      rewrite Hne by (intros Hk; by apply Hi, (H8 i w0 id w)).
      destruct Hp as [? ? [=]|rest evs [=]|g [= <-] Hu|got Ho ? ?]; [congruence|done|]. by apply ph_live with got.
Qed.

(** The forwarder takes an event out of its channel. *)
Lemma watch_inv_receive watches mu sess a tr hs rd rd' id w ev ch rest :
  as_chans a !! wt_chan w = Some ch → ch_buf ch = ev :: rest → rd (wt_chan w) = [(id, w, [])] →
  (∀ k, k ≠ wt_chan w → rd' k = rd k) → rd' (wt_chan w) = [(id, w, [ev])] →
  watch_inv watches mu sess a tr hs rd → watch_inv watches mu sess (Receive (wt_chan w) a) tr hs rd'.
Proof.
  intros Hch Hb Hrd Hne Heq Hi. pose proof Hi as [H1 H2 H3 H4 H5 H6 H7 H8 H9 H10].
  destruct (Receive_spec (wt_chan w) a H1 H2) as (Hd'&Hc'&Hm).
  assert (∀ k, as_chans (Receive (wt_chan w) a) !! k = if decide (wt_chan w = k) then Some (ch_pop ch) else as_chans a !! k) as Hl.
  { intros k. unfold Receive. rewrite Hch. simpl. by rewrite lookup_insert. }
  assert (∀ i w0, since i w0 a tr → since i w0 (Receive (wt_chan w) a) tr) as Hsi.
  { intros i w0 Hs. rewrite <-(app_nil_r tr). apply (since_effect i w0 a); [done..|by apply effect_muted|done]. }
  destruct (H5 (wt_chan w) id w []) as (_&_&Huniq); [rewrite Hrd; left|].
  split; try done.
  - intros k. destruct (decide (k = wt_chan w)) as [-> |]; [rewrite Heq; simpl; lia|by rewrite Hne].
  - intros k i w0 hand. rewrite Hl. destruct (decide (k = wt_chan w)) as [-> |Hk].
    + rewrite Heq, decide_True by done. intros [= -> -> ->]%list_elem_of_singleton. by split_and!.
    + rewrite Hne, decide_False by done. apply H5.
  - intros i w0 Hw0. destruct (H9 i w0 Hw0) as (?&?&ch0&Hch0&Hp). split_and!; [done|auto|]. rewrite Hl.
    case_decide as Hk.
    + destruct (Huniq i w0 Hw0 (eq_sym Hk)) as [-> ->]. exists (ch_pop ch). split; [done|]. simplify_eq. rewrite Heq.
      rewrite Hrd in Hp. destruct Hp as [? ? _ [=]|? ? _ [=]|? _ _ [=]|got Ho Hse Hf].
      apply ph_live with got; [done..|]. apply Forall_cons in Hf as [Hf _]. apply Forall_singleton. simpl in *.
      rewrite app_nil_r in Hf. by apply (flow_receive got ev rest).
    + exists ch0. split; [done|]. by rewrite Hne by congruence.
  - intros i. specialize (H10 i). destruct (sess i) as [|w0 evs|]; [done| |done].
    destruct H10 as (?&?&ch0&Hch0&Hd). split_and!; [done|auto|]. rewrite Hl. case_decide as Hk; [|by exists ch0].
    exists (ch_pop ch). split; [done|]. rewrite Hk in Hch. simplify_eq.
    destruct Hd as [?|(got&?&?)]; [by left|right]. exists got. split; [done|]. by apply delivered_pop.
Qed.

(** The forwarder queues its event. *)
Lemma watch_inv_forward watches mu sess sess' a tr hs rd rd' id w ev :
  watches !! id = Some w → Forall (λ g, opens g = None) hs → rd (wt_chan w) = [(id, w, [ev])] →
  (∀ k, k ≠ wt_chan w → rd' k = rd k) → rd' (wt_chan w) = [(id, w, [])] →
  (∀ i, i ≠ id → sess' i = sess i) →
  (∀ w evs, sess id = Watching w evs → sess' id = Watching w (evs ++ [ev])) →
  watch_inv watches mu sess a tr hs rd → watch_inv watches mu sess' a tr hs rd'.
Proof.
  intros Hw Ho Hrd Hne Heq Hs Hid [H1 H2 H3 H4 H5 H6 H7 H8 H9 H10].
  destruct (H9 id w Hw) as (Hcx&Hsi&ch0&Hch0&Hp0).
  destruct (phase_live _ _ _ _ _ _ Ho Hp0) as (got&Hse&Hf). apply Hid in Hse. rewrite Hrd in Hf.
  apply Forall_cons in Hf as [Hf _]. simpl in Hf. split; try done.
  - intros k. destruct (decide (k = wt_chan w)) as [-> |]; [rewrite Heq; simpl; lia|by rewrite Hne].
  - intros k i w0 hand. destruct (decide (k = wt_chan w)) as [-> |Hk]; [|rewrite Hne by done; apply H5].
    rewrite Heq. intros [= -> -> ->]%list_elem_of_singleton. apply (H5 _ _ _ [ev]). rewrite Hrd. left.
  - intros i w0 Hw0. destruct (decide (i = id)) as [-> |Hi].
    + rewrite Hw in Hw0. injection Hw0 as <-. split_and!; [done..|]. exists ch0. split; [done|]. rewrite Heq.
      apply ph_live with (got ++ [ev]); [auto with codex|by rewrite Hse, app_assoc|].
      apply Forall_singleton. simpl. by rewrite app_nil_r.
    + destruct (H9 i w0 Hw0) as (?&?&ch&?&Hp). split_and!; [done..|]. exists ch. split; [done|].
      rewrite Hs by done. by rewrite Hne by (intros Hk; by apply Hi, (H8 i w0 id w)).
  - intros i. destruct (decide (i = id)) as [-> |Hi]; [|rewrite Hs by done; apply H10].
    rewrite Hse. split_and!; [done..|]. exists ch0. split; [done|]. right. exists (got ++ [ev]).
    split; [by rewrite app_assoc|]. apply flow_delivered with []. by rewrite app_nil_r.
Qed.

(** A forwarder ends. *)
Lemma watch_inv_end watches mu sess a tr hs rd rd' :
  (∀ k, rd' k = rd k ∨ rd' k = []) → watch_inv watches mu sess a tr hs rd → watch_inv watches mu sess a tr hs rd'.
Proof.
  intros Hr [H1 H2 H3 H4 H5 H6 H7 H8 H9 H10]. split; try done.
  - intros k. destruct (Hr k) as [-> | ->]; [done|simpl; lia].
  - intros k i w hand. destruct (Hr k) as [-> | ->]; [apply H5|by intros ?%elem_of_nil].
  - intros i w Hw. destruct (H9 i w Hw) as (?&?&ch&?&Hp). split_and!; [done..|]. exists ch. split; [done|].
    destruct (Hr (wt_chan w)) as [-> | ->]; [done|].
    destruct Hp as [req parent ? ? ?|rest evs ? ? ? ? ?|g ? ? ?|got ? ? ?].
    + by eapply ph_opening.
    + by eapply ph_replaying.
    + by eapply ph_undo.
    + eapply ph_live; [done..|constructor].
Qed.

(** The unwatch response is queued. *)
Lemma watch_inv_unwatch watches mu sess sess' a tr hs rd id :
  watches !! id = None → (∀ i, i ≠ id → sess' i = sess i) → sess' id = Idle →
  watch_inv watches mu sess a tr hs rd → watch_inv watches mu sess' a tr hs rd.
Proof.
  intros Hn Hs Hid [H1 H2 H3 H4 H5 H6 H7 H8 H9 H10]. split; try done.
  - intros i w Hw. rewrite Hs by congruence. by apply H9.
  - intros i. destruct (decide (i = id)) as [-> |Hi]; [by rewrite Hid|rewrite Hs by done; apply H10].
Qed.

(** *** Steps that do not concern watches *)

Definition quiet_conn (c c' : connection) : Prop :=
  c_watches c' = c_watches c ∧ c_watchesMu c' = c_watchesMu c ∧
  ∀ id, session_of id (c_sent c') = session_of id (c_sent c).

Lemma quiet_core c c' : core c' = core c → quiet_conn c c'.
Proof. intros [= E1 E2 E3 E4 E5 E6 E7 E8 E9 E10]. split_and!; [done..|]. intros id. by rewrite E1. Qed.

Lemma quiet_same c c' :
  c_watches c' = c_watches c → c_watchesMu c' = c_watchesMu c → c_sent c' = c_sent c → quiet_conn c c'.
Proof. intros ? ? E. split_and!; [done..|]. intros id. by rewrite E. Qed.

Lemma quiet_conn_trans c1 c2 c3 : quiet_conn c1 c2 → quiet_conn c2 c3 → quiet_conn c1 c3.
Proof. intros (?&?&H1) (?&?&H2). split_and!; [congruence..|]. intros id. by rewrite H2. Qed.

(** A label that no session looks at. *)
Definition neutral (l : label) : Prop := l = LHello ∨ l = LOther.

Lemma enqueue_quiet l f yes no (c c' : connection) g :
  neutral l → enqueue cfg l f yes no c = (c', g) →
  quiet_conn c c' ∧ (g = yes ∨ ∃ code m st, g = GClose code m st no).
Proof.
  intros Hl. unfold enqueue. destruct (send_room cfg c); intros [= <- <-]; (split; [|eauto 6]).
  - split_and!; [done..|]. intros id. simpl. rewrite session_of_snoc. by destruct Hl as [-> | ->].
  - by apply quiet_core.
Qed.

Lemma enqueueRPC_quiet l req resp parent yes no (c c' : connection) g :
  neutral l → enqueueRPC cfg auditor l req resp parent yes no c = (c', g) →
  quiet_conn c c' ∧ (g = yes ∨ ∃ code m st, g = GClose code m st no).
Proof.
  intros Hl E. unfold enqueueRPC in E. apply enqueue_quiet in E as [Hq Hg]; [|done]. split; [|done].
  eapply quiet_conn_trans; [|exact Hq]. apply quiet_core. unfold auditRPC. apply audit_core.
Qed.

(** Goroutines that do not try to take the lock, hold it or read a channel. *)
Fixpoint plain (g : goroutine) : bool :=
  match g with
  | GShutdownLock | GWatch _ _ _ | GUnwatch _ _ _ => false
  | GClose _ _ _ next => plain next
  | _ => negb (holds g) && match forwards g with Some _ => false | None => true end
  end.

(** What can follow a protocol close. *)
Definition tidy (g : goroutine) : bool :=
  match g with
  | GClose _ _ _ next => plain next || match next with GUnlock | GWatchUndo _ _ => true | _ => false end
  | _ => true
  end.

(** Goroutines that neither hold the lock nor read a channel. *)
Definition inert (g : goroutine) : Prop := holds g = false ∧ forwards g = None ∧ tidy g = true.

Lemma plain_inert g : plain g = true → inert g.
Proof.
  induction g; simpl; try done. intros Hp. destruct IHg as (?&_&_); [done|]. split_and!; [done..|].
  simpl. by rewrite Hp.
Qed.

Ltac inert_list := repeat (apply Forall_cons; split; [done|]); apply Forall_nil; done.

Lemma readLoop_quiet o dl (c c' : connection) gs :
  readLoop cfg auditor o dl c = Some (c', gs) → quiet_conn c c' ∧ Forall inert gs.
Proof.
  unfold readLoop. destruct (or_read o) as [[typ raw]|]; cycle 1.
  { intros [= <- <-]. split; [by apply quiet_core|inert_list]. }
  case_match; [done|]. unfold handleRaw, auditWire. intros [= E]. revert E.
  case_match; [intros [= <- <-]; split; [apply quiet_core, audit_core|inert_list]|].
  destruct typ; [|intros [= <- <-]; split; [by apply quiet_core|inert_list]].
  destruct (UnmarshalFrame raw) as [[p|]|];
    try (intros [= <- <-]; split; [apply quiet_core, audit_core|inert_list]).
  set (call := RecordWire _ _ _ _ _ _ _). destruct (audit_split cfg auditor call c) as (c1&id&->&Hcore).
  assert (quiet_conn c (set_c_lastValid (or_now o) c1)) as Hq0 by (by apply quiet_core).
  set (c2 := set_c_lastValid (or_now o) c1) in *.
  case_match; [unfold handle_hello|unfold handle_frame]; destruct p as [h|h|r|r|e|p|p|cl];
    try (intros [= <- <-]; split; [done|inert_list]).
  - destruct (hello_valid h); [|intros [= <- <-]; split; [done|inert_list]].
    destruct (enqueue _ _ _ _ _ _) as [c3 g] eqn:E. apply enqueue_quiet in E as [Hq Hg]; [|by left].
    intros [= <- <-]. split; [by eapply quiet_conn_trans|].
    apply Forall_singleton. by destruct Hg as [-> |(?&?&?&->)].
  - destruct (enqueue _ _ _ _ _ _) as [c3 g] eqn:E. apply enqueue_quiet in E as [Hq Hg]; [|by right].
    intros [= <- <-]. split; [by eapply quiet_conn_trans|].
    apply Forall_singleton. by destruct Hg as [-> |(?&?&?&->)].
  - case_match; intros [= <- <-]; (split; [|inert_list]); [|done].
    eapply quiet_conn_trans; [exact Hq0|]. apply quiet_core. by rewrite reportAudit_core.
Qed.

Lemma handleRequest_inert o req parent (c : connection) : inert (handleRequest cfg o req parent c).
Proof. unfold handleRequest, watch_checks, unwatch_checks. by repeat case_match. Qed.

Lemma writer_quiet o g (y y' : world) gs :
  is_writer g = true → advance o g y = Some (y', gs) →
  quiet_conn (gw_conn y) (gw_conn y') ∧ gw_events y' = gw_events y ∧ Forall inert gs.
Proof.
  intros Hw Hadv. pose proof (advance_writer _ _ _ _ _ _ _ Hw Hadv) as [E1 E2 E3 _ _ _ _].
  split; [by apply quiet_same|]. clear E1 E2 E3. destruct g; try done; simpl in Hadv.
  - case_match; injection Hadv as <- <-; (split; [done|inert_list]).
  - unfold writer_select in Hadv. destruct (or_case o) as [|[|n]]; simpl in Hadv;
      [destruct (c_control _)|case_match|case_match]; try done; injection Hadv as <- <-; (split; [done|inert_list]).
  - injection Hadv as <- <-. split; [done|]. apply Forall_singleton. unfold write_start. by repeat case_match.
  - destruct (write_frame _ _ _ _ _ _) as [c1 ok]. injection Hadv as <- <-. split; [done|].
    apply Forall_singleton. by destruct ok.
  - injection Hadv as <- <-. split; [done|]. apply Forall_singleton. unfold write_status. by repeat case_match.
  - injection Hadv as <- <-. split; [done|]. apply Forall_singleton. unfold formal_start. by repeat case_match.
  - injection Hadv as <- <-. split; [done|inert_list].
  - injection Hadv as <- <-. split; [done|inert_list].
Qed.

Lemma advance_plain o g (y y' : world) gs :
  plain g = true → advance o g y = Some (y', gs) →
  quiet_conn (gw_conn y) (gw_conn y') ∧ gw_events y' = gw_events y ∧ Forall inert gs.
Proof.
  intros Hp Hadv. destruct (is_writer g) eqn:Ew; [by eapply writer_quiet|].
  destruct g; try done; simpl in Hadv.
  - destruct (readLoop _ _ _ _ _) as [[c1 gs1]|] eqn:E; [|done]. injection Hadv as <- <-.
    apply readLoop_quiet in E as [? ?]. done.
  - injection Hadv as <- <-. split_and!; [|done|inert_list]. apply quiet_same; unfold shutdown_once, ws_Close; by repeat case_match.
  - injection Hadv as <- <-. split_and!; [|done|inert_list]. simpl. unfold shutdown_lifecycle, auditAction.
    case_match; [by apply quiet_core|]. apply quiet_core. by rewrite audit_core.
  - unfold heartbeat in Hadv. destruct (or_case o);
      [|case_match; [|done]; injection Hadv as <- <-; split_and!; [by apply quiet_core|done|inert_list]].
    case_match; [injection Hadv as <- <-; split_and!; [by apply quiet_core|done|inert_list]|].
    destruct (enqueue _ _ _ _ _ _) as [c1 g] eqn:E. injection Hadv as <- <-.
    apply enqueue_quiet in E as [? Hg]; [|by right]. split_and!; [done..|]. apply Forall_singleton.
    by destruct Hg as [-> |(?&?&?&->)].
  - injection Hadv as <- <-. split_and!; [by apply quiet_core|done|]. apply Forall_singleton, handleRequest_inert.
  - unfold dispatch_prepare in Hadv. destruct (prepare _ _ _ _) as [d r]. injection Hadv as <- <-.
    split_and!; [by apply quiet_core|done|]. apply Forall_singleton. simpl. by repeat case_match.
  - unfold dispatch_execute in Hadv. destruct (call _ _ _ _) as [d r]. injection Hadv as <- <-.
    split_and!; [by apply quiet_core|done|]. apply Forall_singleton. simpl. by repeat case_match.
  - unfold dispatch_complete in Hadv. destruct (complete _ _ _ _) as [d r]. injection Hadv as <- <-.
    split_and!; [by apply quiet_core|done|]. apply Forall_singleton. simpl. by repeat case_match.
  - destruct (enqueueRPC _ _ _ _ _ _ _ _ _) as [c1 g] eqn:E. injection Hadv as <- <-.
    apply enqueueRPC_quiet in E as [? Hg]; [|by right]. split_and!; [done..|]. apply Forall_singleton.
    by destruct Hg as [-> |(?&?&?&->)].
  - destruct (protocolClose _ _ _ _) as [c1|] eqn:E; [|done]. injection Hadv as <- <-.
    split_and!; [|done|apply Forall_singleton; by apply plain_inert].
    unfold protocolClose in E. repeat case_match; simplify_eq/=; by apply quiet_same.
  - injection Hadv as <- <-. split_and!; [by apply quiet_core|done|inert_list].
Qed.

(** *** The invariant of the system *)

Definition watch_ok (z : gateway) : Prop :=
  let c := gw_conn (g_world z) in
  Forall (λ g, tidy g = true) (g_routines z) ∧
  watch_inv (c_watches c) (c_watchesMu c) (λ id, session_of id (c_sent c)) (gw_events (g_world z)) (g_trace z)
    (holders (g_routines z)) (readers (g_routines z)).

Lemma inert_lists gs : Forall inert gs → holders gs = [] ∧ ∀ k, readers gs k = [].
Proof.
  intros Hf. split.
  - apply filter_none. eapply Forall_impl; [exact Hf|]. intros g (Hh&_). congruence.
  - intros k. unfold readers. assert (omap forwards gs = []) as ->; [|done].
    induction Hf as [|g gs (_&Hg&_) _ IH]; [done|]. simpl. by rewrite Hg.
Qed.

Lemma holders_cons t1 g t2 :
  holders (t1 ++ g :: t2) = holders t1 ++ (if holds g then [g] else []) ++ holders t2.
Proof.
  rewrite holders_app. f_equal. change (g :: t2) with ([g] ++ t2). rewrite holders_app. f_equal.
  unfold holders. rewrite filter_cons, filter_nil. by destruct (holds g).
Qed.

Lemma readers_cons t1 g t2 k :
  readers (t1 ++ g :: t2) k = readers t1 k ++ readers [g] k ++ readers t2 k.
Proof. by rewrite readers_app, <-(readers_app [g] t2). Qed.

(** The lists after a goroutine moved. *)
Lemma holder_alone t1 g t2 gs :
  holds g = true → (length (holders (t1 ++ g :: t2)) ≤ 1)%nat →
  holders (t1 ++ g :: t2) = [g] ∧ holders (t1 ++ gs ++ t2) = holders gs.
Proof.
  intros Hg. rewrite holders_cons, Hg, !holders_app, !length_app. simpl. intros Hl.
  assert (holders t1 = [] ∧ holders t2 = []) as [-> ->] by (split; apply nil_length_inv; lia).
  by rewrite app_nil_r.
Qed.

Lemma holder_free t1 g t2 gs : holders (t1 ++ g :: t2) = [] → holders (t1 ++ gs ++ t2) = holders gs.
Proof.
  rewrite holders_cons, !holders_app. intros [-> [_ ->]%app_eq_nil]%app_eq_nil. by rewrite app_nil_r.
Qed.

Lemma holders_idle t1 g t2 gs :
  holds g = false → holders gs = [] → holders (t1 ++ gs ++ t2) = holders (t1 ++ g :: t2).
Proof. intros Hg Hgs. by rewrite holders_cons, Hg, !holders_app, Hgs. Qed.

Lemma readers_one g k : readers [g] k =
  match forwards g with Some t => if decide (wt_chan t.1.2 = k) then [t] else [] | None => [] end.
Proof. unfold readers. simpl. destruct (forwards g); [|done]. by rewrite filter_cons, filter_nil. Qed.

Lemma readers_idle t1 g t2 gs k :
  readers [g] k = [] → readers gs k = [] → readers (t1 ++ gs ++ t2) k = readers (t1 ++ g :: t2) k.
Proof. intros Hg Hgs. by rewrite readers_cons, !readers_app, Hg, Hgs. Qed.

Lemma reader_alone t1 g t2 gs id w hand :
  forwards g = Some (id, w, hand) → (length (readers (t1 ++ g :: t2) (wt_chan w)) ≤ 1)%nat →
  readers (t1 ++ g :: t2) (wt_chan w) = [(id, w, hand)] ∧
  readers (t1 ++ gs ++ t2) (wt_chan w) = readers gs (wt_chan w).
Proof.
  intros Hg. rewrite readers_cons, !readers_app, readers_one, Hg, !length_app. simpl. rewrite decide_True by done.
  simpl. intros Hl. assert (readers t1 (wt_chan w) = [] ∧ readers t2 (wt_chan w) = []) as [-> ->]
    by (split; apply nil_length_inv; lia). by rewrite app_nil_r.
Qed.

(** A goroutine that reads nothing leaves the readers alone. *)
Lemma readers_none t1 g t2 gs :
  forwards g = None → omap forwards gs = [] → ∀ k, readers (t1 ++ gs ++ t2) k = readers (t1 ++ g :: t2) k.
Proof.
  intros Hg Hgs k. apply readers_idle; [by rewrite readers_one, Hg|]. unfold readers. by rewrite Hgs.
Qed.

Lemma watch_step_plain o g (y y' : world) t1 t2 gs tr :
  plain g = true → advance o g y = Some (y', gs) →
  watch_ok (mkGateway y (t1 ++ g :: t2) tr) → watch_ok (mkGateway y' (t1 ++ gs ++ t2) tr).
Proof.
  intros Hp Hadv [Ht Hi]. destruct (advance_plain _ _ _ _ _ Hp Hadv) as ((E1&E2&E3)&E4&Hgs).
  destruct (plain_inert _ Hp) as (Hh&Hf&_). destruct (inert_lists _ Hgs) as [Hhs Hrs]. split; simpl in *.
  - apply Forall_app in Ht as [? [_ ?]%Forall_cons]. rewrite !Forall_app. split_and!; [done| |done].
    eapply Forall_impl; [exact Hgs|]. by intros g0 (_&_&?).
  - rewrite E1, E2, E4, (holders_idle _ _ _ _ Hh Hhs). eapply watch_inv_ext; [exact E3| |exact Hi].
    intros k. apply readers_idle; [by rewrite readers_one, Hf|done].
Qed.

(** *** Steps that concern watches *)

Definition inv_of (y : world) (tr : list Event) (gs : list goroutine) : Prop :=
  watch_inv (c_watches (gw_conn y)) (c_watchesMu (gw_conn y)) (λ id, session_of id (c_sent (gw_conn y)))
    (gw_events y) tr (holders gs) (readers gs).

Section Steps.

(** What has been published when the step is made. *)
Variable trc : list Event.

(** A step of a goroutine that reads no channel, stated on the lists it leaves. *)
Definition moves (y : world) (g : goroutine) (y' : world) (gs : list goroutine) : Prop :=
  ∀ t1 t2, inv_of y trc (t1 ++ g :: t2) → inv_of y' trc (t1 ++ gs ++ t2).

(** The lock is free: nobody holds it. *)
Lemma inv_free y tr gs : c_watchesMu (gw_conn y) = false → inv_of y tr gs → holders gs = [].
Proof. intros Hm [_ _ Hl _ _ _ _ _ _ _]. rewrite Hm in Hl. by apply nil_length_inv. Qed.

Lemma inv_held y tr t1 g t2 gs :
  holds g = true → inv_of y tr (t1 ++ g :: t2) →
  c_watchesMu (gw_conn y) = true ∧ holders (t1 ++ g :: t2) = [g] ∧ holders (t1 ++ gs ++ t2) = holders gs.
Proof.
  intros Hg [_ _ Hl _ _ _ _ _ _ _].
  destruct (holder_alone t1 g t2 gs Hg) as [E1 E2]; [rewrite Hl; destruct (c_watchesMu _); lia|].
  rewrite E1 in Hl. by destruct (c_watchesMu (gw_conn y)).
Qed.

(** Cancelling a watch in the event store. *)
Lemma watch_inv_cancel watches mu sess a tr hs rd w :
  watch_inv watches mu sess a tr hs rd → watch_inv watches mu sess (Cancel w a) tr hs rd.
Proof.
  intros Hi. rewrite <-(app_nil_r tr). by eapply (watch_inv_store _ _ _ _ _ _ _ _ _ (ACancel w)).
Qed.

Ltac one_elem := apply Forall_cons_2; [done|by apply Forall_nil_2].

(** Taking the lock, dropping a watch of [id] if there is one. *)
Lemma lock_moves y g id g' (drops : bool) :
  holds g = false → forwards g = None → c_watchesMu (gw_conn y) = false →
  holds g' = true → opens g' = None → forwards g' = None →
  (∀ req i parent, g' = GUnwatchReply req i parent → drops = true ∧ i = id) →
  moves y g
    (let y1 := on_conn (set_c_watchesMu true) y in
     if drops then match c_watches (gw_conn y) !! id with Some w => drop_watch id w y1 | None => y1 end else y1) [g'].
Proof.
  intros Hg Hf Hm Hg' Ho' Hf' Hu t1 t2 Hi. pose proof (inv_free _ _ _ Hm Hi) as Hhs.
  pose proof (holder_free t1 g t2 [g'] Hhs) as Hhs'.
  assert (holders [g'] = [g']) as Eg by (unfold holders; by rewrite filter_cons_True, filter_nil).
  rewrite Eg in Hhs'. assert (omap forwards [g'] = []) as Hr by (simpl; by rewrite Hf').
  pose proof (readers_none t1 g t2 [g'] Hf Hr) as Hrd. unfold inv_of in *. rewrite Hhs' in *. rewrite Hhs in Hi.
  assert ((∀ req j parent, g' = GUnwatchReply req j parent → c_watches (gw_conn y) !! j = None) →
    watch_inv (c_watches (gw_conn y)) true (λ id, session_of id (c_sent (gw_conn y))) (gw_events y) trc [g']
      (readers (t1 ++ [g'] ++ t2))) as Hlock.
  { intros Hn. eapply watch_inv_ext; [done|exact Hrd|].
    eapply watch_inv_swap; [| | | |exact Hi]; [done|one_elem|done|].
    intros req i parent <-%list_elem_of_singleton. by eapply Hn. }
  destruct drops; simpl; cycle 1.
  { apply Hlock. intros req i parent E. by destruct (Hu _ _ _ E). }
  destruct (c_watches (gw_conn y) !! id) as [w|] eqn:Ew; cycle 1.
  { apply Hlock. intros req i parent E. by destruct (Hu _ _ _ E) as [_ ->]. }
  simpl. apply watch_inv_cancel. eapply watch_inv_ext; [done|exact Hrd|].
  eapply watch_inv_delete; [| | | |exact Hi]; [by intros ? ? ? ?%elem_of_nil|one_elem|done|].
  intros req i parent <-%list_elem_of_singleton. left. by destruct (Hu _ _ _ eq_refl).
Qed.

(** Releasing the lock. *)
Lemma unlock_moves y g gs :
  holds g = true → opens g = None → forwards g = None → holders gs = [] → omap forwards gs = [] →
  moves y g (on_conn (set_c_watchesMu false) y) gs.
Proof.
  intros Hg Ho Hf Hgs Hr t1 t2 Hi. destruct (inv_held _ _ _ _ _ gs Hg Hi) as (Hm&E1&E2).
  unfold inv_of in *. rewrite E2, Hgs. rewrite E1 in Hi. simpl.
  eapply watch_inv_ext; [done|exact (readers_none t1 g t2 gs Hf Hr)|].
  eapply watch_inv_swap; [| | | |exact Hi]; [one_elem|done|done|].
  by intros ? ? ? ?%elem_of_nil.
Qed.

(** A holder that opens no watch becomes another one. *)
Lemma holder_moves y g g' :
  holds g = true → opens g = None → forwards g = None → holds g' = true → opens g' = None → forwards g' = None →
  (∀ req i parent, g' ≠ GUnwatchReply req i parent) → moves y g y [g'].
Proof.
  intros Hg Ho Hf Hg' Ho' Hf' Hu t1 t2 Hi. destruct (inv_held _ _ _ _ _ [g'] Hg Hi) as (Hm&E1&E2).
  assert (omap forwards [g'] = []) as Hr by (simpl; by rewrite Hf').
  unfold inv_of in *. rewrite E2, Hm in *. rewrite E1 in Hi.
  assert (holders [g'] = [g']) as -> by (unfold holders; by rewrite filter_cons_True, filter_nil).
  eapply watch_inv_ext; [done|exact (readers_none t1 g t2 [g'] Hf Hr)|].
  eapply watch_inv_swap; [| | | |exact Hi]; [one_elem|one_elem|done|].
  intros ? ? ? <-%list_elem_of_singleton. by destruct (Hu req id parent).
Qed.

Lemma readers_replace t1 g t2 g' :
  forwards g = None → forwards g' = None → ∀ k, readers (t1 ++ g' :: t2) k = readers (t1 ++ g :: t2) k.
Proof. intros Hg Hg'. apply (readers_none t1 g t2 [g']); [done|]. simpl. by rewrite Hg'. Qed.

Lemma holders_one g : holders [g] = if holds g then [g] else [].
Proof. unfold holders. rewrite filter_cons, filter_nil. by destruct (holds g). Qed.

Lemma inv_store y tr gs a op :
  op_ok op → (∀ k, op ≠ AReceive k) → arun op (gw_events y) = (a, []) → inv_of y tr gs → inv_of (set_events a y) tr gs.
Proof.
  intros Hop Hk Hr Hi. unfold inv_of in *. simpl. rewrite <-(app_nil_r tr).
  eapply (watch_inv_store _ _ _ (gw_events y)); [done| |done|done]. intros k E. by destruct (Hk k).
Qed.

(** A holder that opens nothing drops a watch and goes on holding the lock. *)
Lemma drop_moves y g id w :
  holds g = true → opens g = None → forwards g = None →
  (∀ req i parent, g ≠ GUnwatchReply req i parent) → moves y g (drop_watch id w y) [g].
Proof.
  intros Hg Ho Hf Hu t1 t2 Hi. destruct (inv_held _ _ _ _ _ [g] Hg Hi) as (Hm&E1&E2).
  unfold inv_of in *. simpl. rewrite E1 in *. rewrite Hm in *. apply watch_inv_cancel.
  eapply watch_inv_delete; [| | | |exact Hi]; [|one_elem|done|].
  - intros g0 i w0 ->%list_elem_of_singleton. congruence.
  - intros req i parent <-%list_elem_of_singleton. by destruct (Hu req i parent).
Qed.

(** The goroutine that opened a watch gives it up. *)
Lemma undo_moves y id w :
  moves y (GWatchUndo id w) (on_conn (set_c_watchesMu false) (drop_watch id w y)) [].
Proof.
  intros t1 t2 Hi. destruct (inv_held y trc t1 (GWatchUndo id w) t2 [] eq_refl Hi) as (Hm&E1&E2).
  unfold inv_of in *. simpl. simpl in E2. rewrite E2. rewrite E1 in Hi. apply watch_inv_cancel.
  eapply watch_inv_ext; [done|exact (readers_none t1 (GWatchUndo id w) t2 [] eq_refl eq_refl)|].
  eapply watch_inv_delete; [| | | |exact Hi]; [|by apply Forall_nil_2|done|by intros ? ? ? ?%elem_of_nil].
  intros g i w0 ->%list_elem_of_singleton. by intros [= -> _].
Qed.

(** Opening a watch in the event store. *)
Lemma open_moves o y y' g' req wq parent :
  (∀ w, open_watch cfg wq (gw_events y) = (gw_events y', Ok w) → c_watches (gw_conn y') !! wq_CodexId wq = Some w →
    opened (wq_CodexId wq) w trc) →
  watch_open cfg o req wq parent y = (y', g') → moves y (GWatchOpen req wq parent) y' [g'] ∧ tidy g' = true.
Proof.
  intros Hopened. unfold watch_open. case_match.
  { intros [= <- <-]. split; [|done]. by apply unlock_moves. }
  destruct (open_watch cfg wq (gw_events y)) as [a r] eqn:Ho.
  destruct r as [w|e]; [|destruct (watchError e)]; intros [= <- <-]; (split; [|done]); intros t1 t2 Hi;
    destruct (open_watch_spec _ _ _ _ (wi_data _ _ _ _ _ _ _ Hi) (wi_chan _ _ _ _ _ _ _ Hi) Ho) as (_&op&Hop&Hne&Hr).
  - destruct (inv_held y trc t1 (GWatchOpen req wq parent) t2 [GWatchReply req (wq_CodexId wq) w parent] eq_refl Hi)
      as (Hm&E1&E2). unfold inv_of in *. rewrite E2. rewrite E1 in Hi. simpl. rewrite Hm in *.
    eapply watch_inv_ext; [done|by apply (readers_replace t1 (GWatchOpen req wq parent) t2)|].
    eapply watch_inv_open; [done| | |done]; [|one_elem]. apply Hopened; [done|]. simpl. apply lookup_insert_eq.
  - eapply (unlock_moves (set_events a y) (GWatchOpen req wq parent)); [done..|]. by eapply inv_store.
Qed.

(** The audit record of a response does not matter. *)
Lemma auditRPC_core req resp parent (c : connection) : core (auditRPC cfg auditor req resp parent c) = core c.
Proof. apply audit_core. Qed.

Lemma inv_of_conn y c' tr gs :
  core c' = core (gw_conn y) → inv_of y tr gs → inv_of (on_conn (λ _, c') y) tr gs.
Proof. intros [= E1 E2 E3 E4 E5 E6 E7 E8 E9 E10]. unfold inv_of. simpl. by rewrite E1, E4, E5. Qed.

Lemma reply_moves o y c' g' req id w parent :
  watch_reply cfg auditor o req id w parent (gw_conn y) = (c', g') →
  moves y (GWatchReply req id w parent) (on_conn (λ _, c') y) [g'] ∧ tidy g' = true.
Proof.
  unfold watch_reply, enqueueRPC. set (resp := mkResponse _ _ _).
  pose proof (auditRPC_core req resp parent (gw_conn y)) as Hcore.
  set (c1 := auditRPC cfg auditor req resp parent (gw_conn y)) in *.
  set (g := GWatchReply req id w parent : goroutine).
  unfold enqueue. destruct (send_room cfg c1); intros [= <- <-]; (split; [|done]); intros t1 t2 Hi.
  - apply (inv_of_conn y c1) in Hi; [|done].
    destruct (inv_held _ trc t1 g t2 [GWatchReplay id w (wt_Replay w)] eq_refl Hi) as (Hm&E1&E2).
    unfold inv_of in *. simpl in *. rewrite E2. rewrite E1, Hm in *.
    eapply watch_inv_ext; [done|by apply (readers_replace t1 g t2)|].
    assert (wt_codex w = id) as Hid.
    { destruct (wi_watch _ _ _ _ _ _ _ Hi id w) as [? _]; [|done].
      by apply (wi_opener _ _ _ _ _ _ _ Hi g); [left|]. }
    eapply watch_inv_reply; [| |exact Hi]; simpl.
    + intros i Hne. rewrite session_of_snoc. unfold log_step. simpl. by rewrite bool_decide_eq_false_2 by congruence.
    + rewrite session_of_snoc. unfold log_step. simpl. by rewrite bool_decide_eq_true_2.
  - apply (inv_of_conn y c1) in Hi; [|done].
    destruct (inv_held _ trc t1 g t2 [GClose CLOSE_CODE_SLOW_CONSUMER "bounded send queue is full" 4001 (GWatchUndo id w)]
      eq_refl Hi) as (Hm&E1&E2).
    unfold inv_of in *. simpl in *. rewrite E2. rewrite E1, Hm in *.
    eapply watch_inv_ext; [done|by apply (readers_replace t1 g t2)|].
    by eapply (watch_inv_undo _ _ _ _ g).
Qed.

Lemma session_event id i sent ev :
  i ≠ id → session_of i (sent ++ [mkOutbound (Some (Frame_Event ev)) 0 "" (LEvent id ev)]) = session_of i sent.
Proof. intros Hne. rewrite session_of_snoc. unfold log_step. simpl. by rewrite bool_decide_eq_false_2 by congruence. Qed.

Lemma session_watching id sent ev w evs :
  session_of id sent = Watching w evs →
  session_of id (sent ++ [mkOutbound (Some (Frame_Event ev)) 0 "" (LEvent id ev)]) = Watching w (evs ++ [ev]).
Proof. intros E. rewrite session_of_snoc, E. unfold log_step. simpl. by rewrite bool_decide_eq_true_2. Qed.

Lemma replay_moves y c' g' id w evs :
  watch_replay cfg id w evs (gw_conn y) = (c', g') →
  moves y (GWatchReplay id w evs) (on_conn (λ _, c') y) [g'] ∧ tidy g' = true.
Proof.
  unfold watch_replay. set (g := GWatchReplay id w evs : goroutine). destruct evs as [|ev evs].
  { intros [= <- <-]. split; [|done]. intros t1 t2 Hi.
    destruct (inv_held _ trc t1 g t2 [GForward id w] eq_refl Hi) as (Hm&E1&E2).
    unfold inv_of in *. simpl in *. rewrite E2. rewrite E1, Hm in *.
    eapply (watch_inv_live _ _ _ _ (readers (t1 ++ g :: t2))); [| |exact Hi].
    - intros k Hk. apply (readers_idle t1 g t2 [GForward id w]); [done|]. rewrite readers_one. simpl.
      by rewrite decide_False by congruence.
    - rewrite readers_cons, (readers_cons t1 (GForward id w)), !readers_one. simpl.
      intros [-> ->]%app_eq_nil. by rewrite decide_True. }
  unfold enqueue. destruct (send_room cfg _); intros [= <- <-]; (split; [|done]); intros t1 t2 Hi.
  - destruct (inv_held _ trc t1 g t2 [GWatchReplay id w evs] eq_refl Hi) as (Hm&E1&E2).
    unfold inv_of in *. simpl in *. rewrite E2. rewrite E1, Hm in *.
    eapply watch_inv_ext; [done|by apply (readers_replace t1 g t2)|].
    eapply watch_inv_replay; [| |exact Hi]; simpl; [intros; by apply session_event|intros; by apply session_watching].
  - destruct (inv_held _ trc t1 g t2 [GClose CLOSE_CODE_SLOW_CONSUMER "bounded send queue is full" 4001 (GWatchUndo id w)]
      eq_refl Hi) as (Hm&E1&E2).
    unfold inv_of in *. simpl in *. rewrite E2. rewrite E1, Hm in *.
    eapply watch_inv_ext; [done|by apply (readers_replace t1 g t2)|].
    by eapply (watch_inv_undo _ _ _ _ g).
Qed.

Lemma unwatch_moves o y c' g' req id parent :
  unwatch_reply cfg auditor o req id parent (gw_conn y) = (c', g') →
  moves y (GUnwatchReply req id parent) (on_conn (λ _, c') y) [g'] ∧ tidy g' = true.
Proof.
  unfold unwatch_reply, enqueueRPC. set (resp := mkResponse _ _ _).
  pose proof (auditRPC_core req resp parent (gw_conn y)) as Hcore.
  set (c1 := auditRPC cfg auditor req resp parent (gw_conn y)) in *.
  set (g := GUnwatchReply req id parent : goroutine).
  unfold enqueue. destruct (send_room cfg c1); intros [= <- <-]; (split; [|done]); intros t1 t2 Hi;
    apply (inv_of_conn y c1) in Hi; try done.
  - eapply (holder_moves (on_conn (λ _, _) y) g GUnlock); try done.
    destruct (inv_held _ trc t1 g t2 [GUnlock] eq_refl Hi) as (Hm&E1&E2). unfold inv_of in *. simpl in *.
    rewrite E1, Hm in *. eapply watch_inv_unwatch; [| | |exact Hi]; simpl.
    + eapply (wi_unwatch _ _ _ _ _ _ _ Hi). left.
    + intros i Hne. rewrite session_of_snoc. unfold log_step. simpl. by rewrite bool_decide_eq_false_2 by congruence.
    + rewrite session_of_snoc. unfold log_step. simpl. by rewrite bool_decide_eq_true_2.
  - by eapply (holder_moves (on_conn (λ _, c1) y) g).
Qed.

(** *** Forwarders *)

Lemma inv_reader y tr t1 g t2 gs id w hand :
  forwards g = Some (id, w, hand) → inv_of y tr (t1 ++ g :: t2) →
  readers (t1 ++ g :: t2) (wt_chan w) = [(id, w, hand)] ∧
  readers (t1 ++ gs ++ t2) (wt_chan w) = readers gs (wt_chan w) ∧
  ∀ k, k ≠ wt_chan w → readers gs k = [] → readers (t1 ++ gs ++ t2) k = readers (t1 ++ g :: t2) k.
Proof.
  intros Hg [_ _ _ Hl _ _ _ _ _ _]. destruct (reader_alone t1 g t2 gs id w hand Hg (Hl _)) as [E1 E2].
  split_and!; [done..|]. intros k Hk Hr. apply readers_idle; [|done].
  rewrite readers_one, Hg. simpl. by rewrite decide_False by congruence.
Qed.

Lemma forwards_holds g t : forwards g = Some t → holds g = false.
Proof. by destruct g. Qed.

(** A forwarder goes on without having received or queued anything. *)
Lemma forward_keeps y g g' id w hand :
  forwards g = Some (id, w, hand) → forwards g' = Some (id, w, hand) → moves y g y [g'].
Proof.
  intros Hg Hg' t1 t2 Hi. unfold inv_of in *.
  rewrite (holders_idle t1 g t2 [g']) by (rewrite ?holders_one; by erewrite !forwards_holds).
  eapply watch_inv_ext; [done| |exact Hi]. intros k.
  by rewrite readers_app, (readers_app [g']), readers_cons, !readers_one, Hg, Hg'.
Qed.

(** A forwarder ends; what replaces it holds no lock and reads nothing. *)
Lemma forward_ends y g gs id w hand :
  forwards g = Some (id, w, hand) → holders gs = [] → omap forwards gs = [] → moves y g y gs.
Proof.
  intros Hg Hh Hr t1 t2 Hi.
  assert (∀ k, readers gs k = []) as Hrk by (intros k; unfold readers; by rewrite Hr).
  destruct (inv_reader _ _ _ _ _ gs _ _ _ Hg Hi) as (E1&E2&E3). unfold inv_of in *.
  rewrite (holders_idle t1 g t2 gs) by (done || by eapply forwards_holds).
  eapply watch_inv_end; [|exact Hi]. intros k. destruct (decide (k = wt_chan w)) as [-> |Hk].
  - right. by rewrite E2.
  - left. by apply E3.
Qed.

Lemma forward_select_moves o y y' g' id w :
  forward_select o id w y = Some (y', g') → moves y (GForward id w) y' [g'] ∧ tidy g' = true.
Proof.
  unfold forward_select. destruct (as_chans (gw_events y) !! wt_chan w) as [ch|] eqn:Ech; [|done]. simpl.
  set (g := GForward id w : goroutine). destruct (or_case o) as [|[|n]].
  - destruct (ch_buf ch) as [|ev rest] eqn:Eb; [case_match; [|done]; intros [= <- <-]|intros [= <- <-]];
      (split; [|done]); [by eapply forward_keeps|].
    intros t1 t2 Hi. destruct (inv_reader _ _ _ _ _ [GForwardEvent id w ev] _ _ _ (eq_refl : forwards g = _) Hi) as (E1&E2&E3).
    unfold inv_of in *. rewrite (holders_idle t1 g t2 [GForwardEvent id w ev]) by done.
    eapply (watch_inv_receive _ _ _ (gw_events y)); [done|done|exact E1| |rewrite E2, readers_one; simpl; by rewrite decide_True|exact Hi].
    intros k Hk. apply E3; [done|]. rewrite readers_one. simpl. by rewrite decide_False by congruence.
  - case_match; [|done]. intros [= <- <-]. split; [|done]. by eapply forward_keeps.
  - case_match; [|done]. intros [= <- <-]. split; [|done]. by eapply forward_ends.
Qed.

(** [is_current] finds the very watch of the forwarder. *)
Lemma current_watch y tr t1 g t2 id w hand :
  forwards g = Some (id, w, hand) → inv_of y tr (t1 ++ g :: t2) → is_current id w (gw_conn y) = true →
  c_watches (gw_conn y) !! id = Some w.
Proof.
  intros Hg Hi. destruct (inv_reader _ _ _ _ _ [] _ _ _ Hg Hi) as (E1&_&_).
  unfold is_current. destruct (c_watches (gw_conn y) !! id) as [w'|] eqn:Ew; [|done]. intros Hk. to_prop.
  destruct (wi_reader _ _ _ _ _ _ _ Hi (wt_chan w) id w hand) as (_&_&Hu); [rewrite E1; left|].
  by destruct (Hu id w' Ew Hk) as [_ ->].
Qed.

Lemma on_conn_id (y : world) : on_conn (λ _, gw_conn y) y = y.
Proof. by destruct y. Qed.

Lemma forward_event_moves y c' g' id w ev :
  forward_event cfg id w ev (gw_conn y) = Some (c', g') →
  moves y (GForwardEvent id w ev) (on_conn (λ _, c') y) [g'] ∧ tidy g' = true.
Proof.
  unfold forward_event. destruct (c_watchesMu (gw_conn y)) eqn:Hm; [done|].
  set (g := GForwardEvent id w ev : goroutine).
  destruct (is_current id w (gw_conn y)) eqn:Ec; [|intros [= <- <-]; split; [|done]; rewrite on_conn_id; by eapply forward_ends].
  destruct (send_room cfg (gw_conn y)) eqn:Er; unfold enqueue.
  - rewrite Er. intros [= <- <-]. split; [|done]. intros t1 t2 Hi.
    pose proof (inv_free _ _ _ Hm Hi) as Hhs. pose proof (current_watch _ _ _ _ _ _ _ _ (eq_refl : forwards g = _) Hi Ec) as Hw.
    destruct (inv_reader _ _ _ _ _ [GForward id w] _ _ _ (eq_refl : forwards g = _) Hi) as (E1&E2&E3).
    unfold inv_of in *. rewrite (holder_free t1 g t2 [GForward id w] Hhs). rewrite Hhs in Hi.
    eapply (watch_inv_forward _ _ (λ id, session_of id (c_sent (gw_conn y)))); [exact Hw|by apply Forall_nil_2|exact E1| | | | |exact Hi].
    + intros k Hk. apply E3; [done|]. rewrite readers_one. simpl. by rewrite decide_False by congruence.
    + rewrite E2, readers_one. simpl. by rewrite decide_True.
    + intros i Hne. by apply session_event.
    + intros w0 evs. apply session_watching.
  - assert (send_room cfg (set_c_watchesMu true (gw_conn y)) = false) as -> by exact Er.
    intros [= <- <-]. split; [|done]. set (g' := GClose _ _ _ _). intros t1 t2 Hi.
    pose proof (inv_free _ _ _ Hm Hi) as Hhs.
    assert (inv_of y trc (t1 ++ [] ++ t2)) as Hi' by (eapply (forward_ends y g []); try done).
    unfold inv_of in *. rewrite (holder_free t1 g t2 [g'] Hhs). pose proof (holder_free t1 g t2 [] Hhs) as Hhs'.
    simpl in Hi', Hhs'. rewrite Hhs' in Hi'.
    eapply (watch_inv_ext _ _ (λ id, session_of id (c_sent (gw_conn y)))); [done| |]; cycle 1.
    { eapply watch_inv_swap; [| | | |exact Hi']; [by apply Forall_nil_2|one_elem|done|].
      by intros req i parent [=]%list_elem_of_singleton. }
    intros k. by rewrite !readers_app.
Qed.

Lemma forward_closed_moves y c' id w :
  forward_closed id w (gw_conn y) = Some c' → moves y (GForwardClosed id w) (on_conn (λ _, c') y) [].
Proof.
  unfold forward_closed. destruct (c_watchesMu (gw_conn y)) eqn:Hm; [done|].
  set (g := GForwardClosed id w : goroutine). intros [= <-] t1 t2 Hi.
  pose proof (inv_free _ _ _ Hm Hi) as Hhs.
  assert (inv_of y trc (t1 ++ [] ++ t2)) as Hi' by (eapply (forward_ends y g []); try done).
  destruct (is_current id w (gw_conn y)); [|done].
  unfold inv_of in *. rewrite (holder_free t1 g t2 [] Hhs) in *. simpl in *.
  eapply watch_inv_delete; [| | | |exact Hi']; [|by apply Forall_nil_2|by rewrite Hm|].
  - by intros ? ? ? ?%elem_of_nil.
  - by intros ? ? ? ?%elem_of_nil.
Qed.

(** A protocol close inside a critical section. *)
Lemma close_moves y c' code message status next :
  protocolClose code message status (gw_conn y) = Some c' → plain next = false →
  tidy (GClose code message status next) = true →
  moves y (GClose code message status next) (on_conn (λ _, c') y) [next] ∧ tidy next = true.
Proof.
  intros Hc Hp Ht. simpl in Ht. rewrite Hp in Ht. simpl in Ht. set (g := GClose code message status next).
  assert (∀ tr l, inv_of y tr l → inv_of (on_conn (λ _, c') y) tr l) as Hconn.
  { intros tr l. unfold inv_of, protocolClose in *. simpl. repeat case_match; by simplify_eq/=. }
  destruct next; try done; (split; [|done]); intros t1 t2 Hi%Hconn.
  - destruct (inv_held _ trc t1 g t2 [GWatchUndo codexID w] eq_refl Hi) as (Hm&E1&E2).
    unfold inv_of in *. simpl in *. rewrite E2. rewrite E1, Hm in *.
    eapply watch_inv_ext; [done|by apply (readers_replace t1 g t2)|].
    by eapply (watch_inv_undo _ _ _ _ g).
  - by eapply (holder_moves _ g GUnlock).
Qed.

(** Every other goroutine. *)
Lemma advance_moves o g (y y' : world) gs :
  plain g = false → tidy g = true → advance o g y = Some (y', gs) →
  (∀ wq w, open_watch cfg wq (gw_events y) = (gw_events y', Ok w) → c_watches (gw_conn y') !! wq_CodexId wq = Some w →
    opened (wq_CodexId wq) w trc) →
  moves y g y' gs ∧ Forall (λ g, tidy g = true) gs.
Proof.
  intros Hp Ht Hadv Hopened. destruct g; try done; simpl in Hadv.
  - destruct (c_watchesMu (gw_conn y)) eqn:Hm; [done|]. injection Hadv as <- <-. split; [|one_elem].
    by apply (lock_moves y GShutdownLock "" GShutdownWatches false).
  - unfold shutdown_watches in Hadv. case_bool_decide; simpl in Hadv.
    + injection Hadv as <- <-. split; [|one_elem]. by apply unlock_moves.
    + destruct (c_watches _ !! _) as [w|]; [|done]. injection Hadv as <- <-. split; [|one_elem]. by apply drop_moves.
  - unfold watch_lock in Hadv. destruct (c_watchesMu (gw_conn y)) eqn:Hm; [done|]. injection Hadv as <- <-.
    split; [|one_elem]. by apply (lock_moves y (GWatch req wq parent) (wq_CodexId wq) (GWatchOpen req wq parent) true).
  - destruct (watch_open _ _ _ _ _ _) as [y1 g1] eqn:E. injection Hadv as <- <-.
    apply open_moves in E as [? ?]; [|apply Hopened]. split; [done|one_elem].
  - destruct (watch_reply _ _ _ _ _ _ _ _) as [c1 g1] eqn:E. injection Hadv as <- <-.
    apply reply_moves in E as [? ?]. split; [done|one_elem].
  - destruct (watch_replay _ _ _ _ _) as [c1 g1] eqn:E. injection Hadv as <- <-.
    apply replay_moves in E as [? ?]. split; [done|one_elem].
  - injection Hadv as <- <-. split; [|by apply Forall_nil_2]. apply undo_moves.
  - destruct (forward_select _ _ _ _) as [[y1 g1]|] eqn:E; [|done]. injection Hadv as <- <-.
    apply forward_select_moves in E as [? ?]. split; [done|one_elem].
  - destruct (forward_event _ _ _ _ _) as [[c1 g1]|] eqn:E; [|done]. injection Hadv as <- <-.
    apply forward_event_moves in E as [? ?]. split; [done|one_elem].
  - destruct (forward_closed _ _ _) as [c1|] eqn:E; [|done]. injection Hadv as <- <-.
    apply forward_closed_moves in E. split; [done|by apply Forall_nil_2].
  - unfold forward_slow in Hadv. destruct (c_watchesMu (gw_conn y)); [done|]. injection Hadv as <- <-.
    split; [eapply (forward_ends y (GForwardSlow codexID w)); [done|by case_match..]|case_match; one_elem].
  - unfold unwatch_lock in Hadv. destruct (c_watchesMu (gw_conn y)) eqn:Hm; [done|]. injection Hadv as <- <-.
    split; [|one_elem]. apply (lock_moves y (GUnwatch req codexID parent) codexID (GUnwatchReply req codexID parent) true); try done.
    by intros ? ? ? [= _ -> _].
  - destruct (unwatch_reply _ _ _ _ _ _ _) as [c1 g1] eqn:E. injection Hadv as <- <-.
    apply unwatch_moves in E as [? ?]. split; [done|one_elem].
  - injection Hadv as <- <-. split; [|by apply Forall_nil_2]. by apply unlock_moves.
  - destruct (protocolClose _ _ _ _) as [c1|] eqn:E; [|done]. injection Hadv as <- <-.
    destruct (close_moves y c1 code message status g E Hp Ht) as [? ?]. split; [done|one_elem].
Qed.

End Steps.

Lemma foreign_keeps_off op gs : foreign op gs → keeps_off op (holders gs) (readers gs).
Proof.
  intros Hf k Hk. specialize (Hf k Hk). split.
  - unfold readers. apply filter_none, Forall_forall. intros [[id w] hand] (g&Hg&Hfw)%list_elem_of_omap.
    rewrite Forall_forall in Hf. specialize (Hf g Hg). simpl. destruct g; simpl in *; simplify_eq; congruence.
  - apply Forall_forall. intros g [_ Hg]%list_elem_of_filter. rewrite Forall_forall in Hf. auto.
Qed.

Lemma watch_ok_step z z' :
  watch_ok z → gw_step z z' →
  (∀ wq w, open_watch cfg wq (gw_events (g_world z)) = (gw_events (g_world z'), Ok w) →
     c_watches (gw_conn (g_world z')) !! wq_CodexId wq = Some w → opened (wq_CodexId wq) w (g_trace z')) →
  watch_ok z'.
Proof.
  intros Hz Hstep Hopened. destruct Hstep as [o y y' t1 g t2 gs tr Hadv|op y gs tr a evs Hop Hf Hr|p y gs tr He|].
  - destruct (plain g) eqn:Hp; [by eapply watch_step_plain|]. destruct Hz as [Ht Hi]. simpl in *.
    apply Forall_app in Ht as [Ht1 [Htg Ht2]%Forall_cons].
    destruct (advance_moves _ _ _ _ _ _ Hp Htg Hadv Hopened) as [Hm Ht]. split; simpl; [|by apply Hm].
    rewrite !Forall_app. done.
  - destruct Hz as [Ht Hi]. split; simpl in *; [done|].
    eapply watch_inv_store; [done|by apply foreign_keeps_off|done..].
  - destruct Hz as [Ht Hi]. split; simpl in *; [done|]. by apply watch_inv_env.
  - done.
Qed.

Lemma watch_ok_start z : gw_start cfg auditor z → watch_ok z.
Proof.
  intros [o id n p audited cap tr a d b Hp Ha]. split; simpl; [by repeat constructor|].
  pose proof (connect_core cfg auditor o id n) as Hc. injection Hc as H1 H2 H3 H4 H5 H6 H7 H8 H9 H10.
  rewrite H1, H4, H5. destruct (NewStore_wf p audited cap Hp) as [Hd0 Hc0].
  destruct (asteps_wf _ _ _ Ha Hd0 Hc0) as [Hd Hcw]. split; simpl; try done.
  - intros k. lia.
  - by intros k i w hand ?%elem_of_nil.
  - by intros g i w ?%elem_of_nil.
Qed.

End Invariant.

Lemma watch_inv_mono (O O' : string → Watch → list Event → Prop) watches mu sess a tr hs rd :
  (∀ id w tr, O id w tr → O' id w tr) → watch_inv O watches mu sess a tr hs rd → watch_inv O' watches mu sess a tr hs rd.
Proof.
  intros HO [H1 H2 H3 H4 H5 H6 H7 H8 H9 H10].
  assert (∀ id w, since O id w a tr → since O' id w a tr) as Hs by (intros id w (tr0&tr1&?&?&?); exists tr0, tr1; auto).
  split; try done.
  - intros id w Hw. destruct (H9 id w Hw) as (?&?&?). auto.
  - intros id. specialize (H10 id). destruct (sess id) as [|w evs|]; try done. destruct H10 as (?&?&?). split_and!; auto.
Qed.

(** In the run from [z0] to [z] the watch [w] of [id] was opened by one step, which called
    the event store, got [w] and put it into the map; [tr] had been published then. *)
Definition opened_in (z0 z : gateway) (id : string) (w : Watch) (tr : list Event) : Prop :=
  ∃ z1 z2 wq, rtc gw_step z0 z1 ∧ gw_step z1 z2 ∧ rtc gw_step z2 z ∧ wq_CodexId wq = id ∧
    open_watch cfg wq (gw_events (g_world z1)) = (gw_events (g_world z2), Ok w) ∧
    c_watches (gw_conn (g_world z2)) !! id = Some w ∧ g_trace z2 = tr.

Lemma gw_watch_ok z0 z : gw_start cfg auditor z0 → rtc gw_step z0 z → watch_ok (opened_in z0 z) z.
Proof.
  intros H0. apply (rtc_ind_r (λ z, watch_ok (opened_in z0 z) z)); [by apply watch_ok_start|].
  intros z1 z2 Hr Hstep [Ht Hi]. eapply watch_ok_step; [split; [exact Ht|]|exact Hstep|].
  - eapply watch_inv_mono; [|exact Hi]. intros id w tr (x1&x2&wq&?&?&?&?). exists x1, x2, wq. split; [done|]. split; [done|]. split; [by eapply rtc_r|done].
  - intros wq w Ho Hw. by exists z1, z2, wq.
Qed.

(** ** What a client can rely on *)

(** The events of a session: a prefix of the replay, or the whole replay followed by a
    prefix of [after], the events published since the watch was opened.  Only when the last
    event the store put into the channel says that the Codex was forgotten, that event may
    have displaced others. *)
Definition watch_stream (a : AStore P) (after : list Event) (id : string) (w : Watch) (evs : list Event) : Prop :=
  evs `prefix_of` wt_Replay w ∨
  ∃ got, evs = wt_Replay w ++ got ∧
    (got `prefix_of` published id after ∨
     ∃ ch fin, as_chans a !! wt_chan w = Some ch ∧ last (ch_sent ch) = Some fin ∧
       ev_Payload fin = Some Event_CodexForgotten ∧ got `sublist_of` published id after ++ [fin]).

Lemma streamed_stream O a tr id w evs : streamed O a tr id w evs →
  ∃ tr0 tr1, tr = tr0 ++ tr1 ∧ O id w tr0 ∧ watch_stream a tr1 id w evs.
Proof.
  intros (_&(tr0&tr1&->&HO&ch&Hch&Hd)&ch'&Hch'&Hs). simplify_eq. exists tr0, tr1. split; [done|]. split; [done|].
  destruct Hs as [?|(got&->&Hg)]; [by left|right]. exists got. split; [done|].
  destruct Hd as [[_ Hp]|[_ (k&fin&Hk&Hsent&Hl)]].
  - destruct Hg as [?|[[_ (ev&Hlast&Hev)] Hg]]; [left; by rewrite <-Hp|right]. exists ch, ev. split_and!; [done..|].
    rewrite Hp in Hg. by apply sublist_inserts_r.
  - destruct Hl as [-> |(ev&->&Hev)].
    + rewrite app_nil_r in Hsent. destruct Hg as [Hg|[[_ (ev&Hlast&Hev)] Hg]].
      * left. rewrite Hsent in Hg. etrans; [exact Hg|]. apply prefix_take.
      * right. exists ch, ev. split_and!; [done..|]. rewrite Hsent in Hg. apply sublist_inserts_r. etrans; [exact Hg|]. apply sublist_take.
    + right. exists ch, ev. split; [done|]. split; [by rewrite Hsent, last_snoc|]. split; [done|].
      assert (got `sublist_of` ch_sent ch) as Hsub.
      { destruct Hg as [[rest ->]|[_ ?]]; [by apply sublist_inserts_r|done]. }
      rewrite Hsent in Hsub. etrans; [exact Hsub|]. apply sublist_app; [apply sublist_take|done].
Qed.

(** C6: for every Codex, whatever the interleaving of watch, unwatch and other requests,
    publications by the Host, slow consumers and shutdown: the connection never queues an
    event outside a watch; and the watch of its last watch response was opened by one step
    of the run, and the events queued since that response are the replay of that watch
    followed by the events published for this Codex since that step, in order, without
    gaps or repetitions unless the Codex was forgotten.  In particular nothing of a
    replaced or cancelled watch appears after the response that ended it. *)
Theorem watch_sessions z0 z id :
  gw_start cfg auditor z0 → rtc gw_step z0 z →
  match session_of id (c_sent (gw_conn (g_world z))) with
  | Idle => True
  | Watching w evs => wt_codex w = id ∧ ∃ before after, g_trace z = before ++ after ∧ opened_in z0 z id w before ∧
      watch_stream (gw_events (g_world z)) after id w evs
  | Stray => False
  end.
Proof.
  intros H0 Hr. destruct (gw_watch_ok z0 z H0 Hr) as [_ Hi]. pose proof (wi_session _ _ _ _ _ _ _ _ Hi id) as Hs. simpl in Hs.
  destruct (session_of id _) as [|w evs|]; [done| |done]. split; [apply Hs|by apply streamed_stream].
Qed.

(** C26: a live watch loses nothing: when its forwarder waits on an empty channel that is
    still registered, everything published for the Codex since the step that opened the
    watch has been queued, right after the replay. *)
Theorem watch_complete z0 z id w ch :
  gw_start cfg auditor z0 → rtc gw_step z0 z →
  c_watches (gw_conn (g_world z)) !! id = Some w → c_watchesMu (gw_conn (g_world z)) = false →
  GForward id w ∈ g_routines z →
  as_chans (gw_events (g_world z)) !! wt_chan w = Some ch → ch_buf ch = [] →
  registered (gw_events (g_world z)) id (wt_chan w) →
  ∃ before after, g_trace z = before ++ after ∧ opened_in z0 z id w before ∧
    session_of id (c_sent (gw_conn (g_world z))) = Watching w (wt_Replay w ++ published id after).
Proof.
  intros H0 Hrun Hw Hm Hg Hch Hb Hreg. destruct (gw_watch_ok z0 z H0 Hrun) as [_ Hi]. simpl in Hi.
  pose proof (inv_free _ (g_world z) (g_trace z) (g_routines z) Hm Hi) as Hhs.
  destruct (wi_watch _ _ _ _ _ _ _ _ Hi id w Hw) as (_&(tr0&tr1&Etr&HO&ch1&Hch1&Hd)&ch2&Hch2&Hp). simplify_eq.
  rewrite Hhs in Hp. apply phase_live in Hp as (got&Hs&Hf); [|by apply Forall_nil_2].
  assert (flow got ch) as Hfl.
  { rewrite Forall_forall in Hf. specialize (Hf (id, w, [])). simpl in Hf. rewrite app_nil_r in Hf. apply Hf.
    apply list_elem_of_filter. split; [done|]. apply list_elem_of_omap. by exists (GForward id w). }
  destruct Hd as [[_ Hsent]|[Hn _]]; [|by destruct (Hn id)].
  exists tr0, tr1. split; [done|]. split; [done|]. rewrite Hs. do 2 f_equal. rewrite <-Hsent.
  destruct Hfl as [[_ Hfl]|[[Hcl _] _]]; [by rewrite Hb, app_nil_r in Hfl|].
  destruct Hreg as [wid Hreg]. destruct (cwf_open _ (wi_chan _ _ _ _ _ _ _ _ Hi) _ _ _ Hreg) as (ch'&?&Ho&_). congruence.
Qed.

(** ** Bounds *)

Definition few_watches (c : connection) : Prop := Z.of_nat (size (c_watches c)) ≤ sc_MaxWatches cfg.

Lemma few_watches_same c c' : c_watches c' = c_watches c → few_watches c → few_watches c'.
Proof. unfold few_watches. by intros ->. Qed.

Lemma few_watches_drop id w (y : world) : few_watches (gw_conn y) → few_watches (gw_conn (drop_watch id w y)).
Proof.
  unfold few_watches. simpl. intros Hs. etrans; [|exact Hs]. apply inj_le.
  apply map_subseteq_size, delete_subseteq.
Qed.

Lemma few_watches_delete id (c : connection) :
  few_watches c → few_watches (set_c_watches (delete id (c_watches c)) c).
Proof. unfold few_watches. simpl. intros Hs. etrans; [|exact Hs]. apply inj_le, map_subseteq_size, delete_subseteq. Qed.

Lemma enqueue_watches l f yes no (c : connection) : c_watches (enqueue cfg l f yes no c).1 = c_watches c.
Proof. unfold enqueue. by case_match. Qed.

Lemma enqueueRPC_watches l req resp parent yes no (c : connection) :
  c_watches (enqueueRPC cfg auditor l req resp parent yes no c).1 = c_watches c.
Proof.
  unfold enqueueRPC. rewrite enqueue_watches.
  pose proof (auditRPC_core req resp parent c) as H. by injection H.
Qed.

Lemma watch_open_few o req wq parent (y : world) :
  few_watches (gw_conn y) → few_watches (gw_conn (watch_open cfg o req wq parent y).1).
Proof.
  unfold watch_open. case_match; [done|]. to_prop. intros Hs.
  destruct (open_watch _ _ _) as [a [w|e]]; [|by destruct (watchError e)].
  unfold few_watches in *. simpl. rewrite map_size_insert. destruct (_ !! _); simpl; lia.
Qed.

Lemma advance_few o g (y y' : world) gs :
  tidy g = true → advance o g y = Some (y', gs) → few_watches (gw_conn y) → few_watches (gw_conn y').
Proof.
  intros Ht Hadv Hs. destruct (plain g) eqn:Hp.
  { apply advance_plain in Hadv as ((E&_)&_); [|done]. by apply (few_watches_same (gw_conn y)). }
  destruct g; try done; simpl in Hadv.
  - case_match; [done|]. by injection Hadv as <- <-.
  - unfold shutdown_watches in Hadv. case_bool_decide; simpl in Hadv; [by injection Hadv as <- <-|].
    destruct (c_watches _ !! _) as [w|]; [|done]. injection Hadv as <- <-. by apply few_watches_drop.
  - unfold watch_lock in Hadv. case_match; [done|]. injection Hadv as <- <-. simpl.
    case_match; [|done]. by apply (few_watches_drop _ _ (on_conn (set_c_watchesMu true) y)).
  - injection Hadv as <- <-. by apply watch_open_few.
  - injection Hadv as <- <-. eapply few_watches_same; [apply enqueueRPC_watches|done].
  - injection Hadv as <- <-. unfold watch_replay. destruct replay; [done|].
    eapply few_watches_same; [apply enqueue_watches|done].
  - injection Hadv as <- <-. by apply (few_watches_drop codexID w).
  - unfold forward_select in Hadv. destruct (as_chans _ !! _); [|done]. simpl in Hadv.
    repeat case_match; try done; by injection Hadv as <- <-.
  - unfold forward_event in Hadv. case_match; [done|]. case_match; simpl in Hadv; [|by injection Hadv as <- <-].
    case_match; injection Hadv as <- <-; (eapply few_watches_same; [apply enqueue_watches|done]).
  - unfold forward_closed in Hadv. case_match; [done|]. injection Hadv as <- <-. simpl.
    case_match; [by apply few_watches_delete|done].
  - unfold forward_slow in Hadv. case_match; [done|]. by injection Hadv as <- <-.
  - unfold unwatch_lock in Hadv. case_match; [done|]. injection Hadv as <- <-. simpl.
    case_match; [|done]. by apply (few_watches_drop _ _ (on_conn (set_c_watchesMu true) y)).
  - injection Hadv as <- <-. eapply few_watches_same; [apply enqueueRPC_watches|done].
  - by injection Hadv as <- <-.
  - destruct (protocolClose _ _ _ _) as [c1|] eqn:E; [|done]. injection Hadv as <- <-. simpl.
    unfold protocolClose in E. repeat case_match; by simplify_eq/=.
Qed.

Lemma gw_few z : 0 ≤ sc_MaxWatches cfg → gw_reach z → few_watches (gw_conn (g_world z)).
Proof.
  intros Hm Hr. destruct Hr as (z0&H0&Hr).
  assert (few_watches (gw_conn (g_world z0)) ∧ watch_ok (λ _ _ _, True) z0) as Hz0.
  { split; [|by apply watch_ok_start]. destruct H0 as [o id n p audited cap tr a d b _ _]. simpl.
    pose proof (connect_core cfg auditor o id n) as Hc. injection Hc as H1 H2 H3 H4 H5 H6 H7 H8 H9 H10.
    unfold few_watches. by rewrite H5. }
  clear H0. induction Hr as [z|z1 z2 z3 Hstep _ IH]; [apply Hz0|]. apply IH. destruct Hz0 as [Hf Hok].
  split; [|by eapply watch_ok_step]. destruct Hstep as [o y y' t1 g t2 gs tr Hadv| | |]; simpl in *; [|done..].
  eapply advance_few; [|done..]. destruct Hok as [Ht _]. simpl in Ht. by apply Forall_app in Ht as [_ [? _]%Forall_cons].
Qed.

(** C30: the resources of a connection are bounded in every reachable state: the send
    queue and the number of watches respect their limits, at most one goroutine holds
    [watchesMu], and a goroutine that closes the connection never blocks on [control]. *)
Theorem connection_bounds cfg0 z :
  cfg = NewServer cfg0 → gw_reach z →
  zlen (send_buf (gw_conn (g_world z))) ≤ sc_SendQueueSize cfg ∧
  Z.of_nat (size (c_watches (gw_conn (g_world z)))) ≤ sc_MaxWatches cfg ∧
  (length (holders (g_routines z)) ≤ 1)%nat ∧
  ∀ o code message status next, is_Some (advance o (GClose code message status next) (g_world z)).
Proof.
  intros Hcfg Hr.
  assert (0 ≤ sc_SendQueueSize cfg ∧ 0 ≤ sc_MaxWatches cfg) as [Hq Hmw].
  { rewrite Hcfg. unfold NewServer, positive_or. simpl. split; case_match; to_prop; lia. }
  destruct (gw_bounded cfg auditor z Hq Hr) as [_ Hb]. split_and!; [apply Hb|by apply gw_few| |].
  - destruct Hr as (z0&H0&Hr). destruct (gw_watch_ok z0 z H0 Hr) as [_ Hi]. rewrite (wi_lock _ _ _ _ _ _ _ _ Hi). case_match; lia.
  - intros o code message status next. simpl. unfold protocolClose. destruct (c_closeOnce _) eqn:E; [by eexists|].
    destruct (c_control _) eqn:Ec; [|by eexists]. destruct Hb as [_ _ Hc]. rewrite Ec in Hc.
    rewrite Hc in E by eauto. done.
Qed.
End Watches.
