(* ===== verification/ServerExamples.v ===== *)
(** * Gateway server: a concrete connection

    A Host with one Codex, a client that greets, watches the Codex, receives an event and
    stops watching; and one whose closing frame cannot be written.  The runs are executed
    step by step by [exec], and witness the theorems of ServerSystem and ServerWatch. *)

From Stdlib Require Import Ascii String.
From stdpp Require Import base tactics numbers list gmap strings.
From S2P Require Import Prelude GoError GoStrings Remote Persistence Activity ActivityTheorems HostEvents Dispatcher HostRequests Server ServerSystem ServerWatch.
Local Open Scope string_scope.
Local Open Scope Z_scope.
Local Open Scope list_scope.

(** ** Schedules *)

Section Schedules.
Context {P D S B V : Type}.
Context {EP : EventPersistence P} {EL : EventPersistenceLaws P} {PJ : ProtoJSON} {BK : Backend S B V}
  {DD : DedupStore D} {PR : ProtoRPC B V} {FJ : FrameJSON B V} {WB : WatchBodies B V}.
Variable cfg : ServerConfig.
Variable auditor : option (list (audit_call B V) → audit_call B V → string * option goerr).

(** One step: the goroutine at a position moves, or the Host publishes an event. *)
Inductive act :=
| Run (i : nat) (o : oracle V)
| Announce (ev : Event) (view : CurrentView).

Definition exec (a : act) (z : gateway P D S B V) : option (gateway P D S B V) :=
  match a with
  | Run i o =>
      g ← g_routines z !! i;
      '(y, gs) ← advance cfg auditor o g (g_world z);
      Some (mkGateway y (take i (g_routines z) ++ gs ++ drop (Datatypes.S i) (g_routines z)) (g_trace z))
  | Announce ev view =>
      let '(s, evs) := arun (APublish 1 (Some ev) (Some view) None) (gw_events (g_world z)) in
      Some (mkGateway (set_events s (g_world z)) (g_routines z) (g_trace z ++ evs))
  end.

Fixpoint exec_all (l : list act) (z : gateway P D S B V) : option (gateway P D S B V) :=
  match l with [] => Some z | a :: l => z ← exec a z; exec_all l z end.

Lemma schedule_step a z z' : exec a z = Some z' → gw_step cfg auditor z z'.
Proof.
  destruct z as [y l tr]. destruct a as [i o|ev view]; cbn [exec g_routines g_world g_trace].
  - destruct (l !! i) as [g|] eqn:Eg; [|done]. cbn [mbind option_bind].
    destruct (advance cfg auditor o g y) as [[y' gs]|] eqn:E; [|done]. intros [= <-].
    rewrite <-(take_drop_middle _ _ _ Eg) at 1. by apply gw_run with o.
  - destruct (arun _ (gw_events y)) as [s evs] eqn:E. intros [= <-].
    by apply (gw_store cfg auditor (APublish 1 (Some ev) (Some view) None)).
Qed.

Lemma exec_run l z0 z : exec_all l z0 = Some z → rtc (gw_step cfg auditor) z0 z.
Proof.
  revert z0. induction l as [|a l IH]; intros z0; simpl.
  - intros [= ->]. apply rtc_refl.
  - destruct (exec a z0) as [z1|] eqn:Ea; [|done]. intros E. eapply rtc_l; [by eapply schedule_step|by apply IH].
Qed.

Lemma exec_reach l z0 z : gw_start cfg auditor z0 → exec_all l z0 = Some z → gw_reach cfg auditor z.
Proof. intros H0 E. exists z0. split; [done|]. by eapply exec_run. Qed.
End Schedules.

(** ** The Host and its client *)

Module DemoServer.

#[local] Existing Instance Demo.demo_json.

(** Bodies and frames of the example, and an encoding that names them. *)
Inductive body := BWatch (wq : WatchCodexRequest) | BUnwatch (id : string).
Inductive value := VWatch (r : WatchCodexResponse) | VUnwatch (id : string).

#[local] Instance demo_bodies : WatchBodies body value := {|
  body_watch b := match b with BWatch wq => Some wq | _ => None end;
  body_unwatch b := match b with BUnwatch id => Some id | _ => None end;
  value_watch := VWatch;
  value_unwatch := VUnwatch;
|}.

Definition request (id : string) (k : rpc) (b : body) : payload body value :=
  Frame_Request (mkRequest id 0 0 (Some (k, b))).

(** What the client can send. *)
Definition client_frames : list (string * payload body value) :=
  [("old", Frame_ClientHello (mkClientHello "phone" "run" (Some (mkProtocolVersion 1 1 0))));
   ("hello", Frame_ClientHello (mkClientHello "phone" "run" (Some (mkProtocolVersion 1 2 0))));
   ("watch", request "r1" Rpc_WatchCodex (BWatch (mkWatchCodexRequest "a" None "")));
   ("again", request "r2" Rpc_WatchCodex (BWatch (mkWatchCodexRequest "a" (Some 1) "host-run")));
   ("unwatch", request "r3" Rpc_UnwatchCodex (BUnwatch "a"));
   ("close", Frame_Close (mkClose CLOSE_CODE_OTHER "bye" false))].

Definition frame_name (f : payload body value) : string :=
  match f with
  | Frame_ClientHello _ => "client-hello" | Frame_ServerHello _ => "server-hello" | Frame_Request _ => "request"
  | Frame_Response _ => "response" | Frame_Event _ => "event" | Frame_Ping _ => "ping" | Frame_Pong _ => "pong"
  | Frame_Close _ => "close"
  end.

#[local] Instance demo_frames : FrameJSON body value := {|
  UnmarshalFrame raw := (λ p : string * payload body value, Some p.2) <$> List.find (λ p, bool_decide (p.1 = raw)) client_frames;
  MarshalFrame f := Ok (frame_name f);
|}.

#[local] Instance demo_backend : Backend unit body value := {| backend_call _ _ _ := fail_msg "no backend" |}.

#[local] Instance demo_proto : ProtoRPC body value := {|
  MarshalDeterministic _ := Ok "";
  MarshalResponse _ := Ok "";
  UnmarshalResponse _ := Err (ErrText "not in the table");
|}.

Definition cfg : ServerConfig :=
  NewServer (mkServerConfig 0 3 2 0 0 1 "host" "host-run" "1.2.0" true false false false (mkWiring true true)).

Definition auditor : option (list (audit_call body value) → audit_call body value → string * option goerr) :=
  Some (λ log _, ("record", None)).

(** An oracle that reads [raw], and one that lets a write succeed or fail. *)
Definition at_case (k : nat) : oracle value := mkOracle 1000 None None true k "a" None None.
Definition reading (raw : string) : oracle value := mkOracle 1000 None (Some (MessageText, raw)) true 0 "a" None None.
Definition failing : oracle value := mkOracle 1000 None None false 0 "a" None None.

(** Position 0 is the writer, 1 the heartbeat, 2 the reader; later goroutines follow. *)
Definition z0 : gateway Store Store unit body value :=
  mkGateway (mkWorld (connect cfg auditor (at_case 0) "conn" "node").1 Demo.demo_s1 (mkStore empty_db []) tt)
    (connect cfg auditor (at_case 0) "conn" "node").2 (arun_list Demo.demo_before Demo.demo_store).2.

Lemma z0_start : gw_start cfg auditor z0.
Proof. exact (gw_accept cfg auditor (at_case 0) "conn" "node" Demo.demo_db false 2 _ _ _ _ Demo.demo_db_inv Demo.demo_reach1). Qed.

(** Greet, write the hello, watch (lock, open, respond), start forwarding; then the Host
    publishes and the forwarder queues the event. *)
Definition greet : list act := [Run 2 (reading "hello"); Run 0 (at_case 0); Run 0 (at_case 1); Run 0 (at_case 0); Run 0 (at_case 0); Run 0 (at_case 0)].
Definition watch : list act :=
  [Run 2 (reading "watch"); Run 3 (at_case 0); Run 3 (at_case 0); Run 3 (at_case 0); Run 3 (at_case 0); Run 3 (at_case 0)].
Definition live : list act := [Announce Demo.demo_event Demo.demo_view; Run 3 (at_case 0); Run 3 (at_case 0)].

Definition after_run (l : list act) : gateway Store Store unit body value := default z0 (exec_all cfg auditor l z0).

Lemma reach (l : list act) z : exec_all cfg auditor l z0 = Some z → gw_reach cfg auditor z.
Proof. apply exec_reach, z0_start. Qed.

(** After the live event. *)
Definition z_live : gateway Store Store unit body value := after_run (greet ++ watch ++ live).

Lemma z_live_reach : gw_reach cfg auditor z_live.
Proof. apply (reach (greet ++ watch ++ live)). vm_compute. reflexivity. Defined.

Lemma z_live_run : rtc (gw_step cfg auditor) z0 z_live.
Proof. apply (exec_run cfg auditor (greet ++ watch ++ live)). vm_compute. reflexivity. Qed.

(** A client of an older version is refused: the closing frame is queued for the writer. *)
Definition refuse : list act := [Run 1 (at_case 0); Run 2 (reading "old"); Run 2 (at_case 0)].
Definition z_refused : gateway Store Store unit body value := after_run refuse.

Lemma z_refused_run : rtc (gw_step cfg auditor) z0 z_refused.
Proof. apply (exec_run cfg auditor refuse). vm_compute. reflexivity. Qed.

Definition w_live : Watch := default Demo.demo_dummy (c_watches (gw_conn (g_world z_live)) !! "a").
Definition ch_live : chan := default (new_chan 0) (as_chans (gw_events (g_world z_live)) !! wt_chan w_live).

Lemma wire_discipline_witness :
  ∃ n data text fin, c_wire (gw_conn (g_world z_live)) = data ++ text ++ fin ∧
    (n ≤ c_taken (gw_conn (g_world z_live)))%nat ∧
    Forall2 (wire_of cfg) (take n (c_sent (gw_conn (g_world z_live)))) data ∧ close_text text ∧
    close_status (c_closed (gw_conn (g_world z_live))) fin.
Proof. exact (wire_discipline cfg auditor z_live z_live_reach). Defined.

Lemma hello_gate_witness :
  (∃ h, greeted cfg auditor z0 z_live h ∧ ch_ClientId h = "phone") ∧
  is_Some (c_control (gw_conn (g_world z_refused))) ∧ ungreeted (gw_conn (g_world z_refused)) (g_routines z_refused).
Proof.
  assert (c_clientID (gw_conn (g_world z_live)) = "phone") as Hl by (vm_compute; reflexivity).
  assert (c_clientID (gw_conn (g_world z_refused)) = "") as Hf by (vm_compute; reflexivity).
  split; [|split; [vm_compute; by eexists|]].
  - destruct (hello_gate cfg auditor z0 z_live z0_start z_live_run) as [[[He _]|(h&Hh)] _]; [by rewrite Hl in He|].
    exists h. split; [exact Hh|]. destruct Hh as (?&?&?&?&?&?&?&_&_&_&_&_&_&_&_&_&_&_&E). by rewrite <-E, Hl.
  - destruct (hello_gate cfg auditor z0 z_refused z0_start z_refused_run) as [[[_ Hu]|(h&Hh)] _]; [exact Hu|].
    destruct Hh as (?&?&?&?&?&?&?&_&_&_&_&_&_&_&_&(Hn&_)&_&_&E). exfalso. apply Hn. rewrite <-E. exact Hf.
Defined.

Lemma watch_sessions_witness :
  ∃ w evs before after, session_of "a" (c_sent (gw_conn (g_world z_live))) = Watching w evs ∧ length evs = 1%nat ∧
    g_trace z_live = before ++ after ∧ opened_in cfg auditor z0 z_live "a" w before ∧
    watch_stream (gw_events (g_world z_live)) after "a" w evs.
Proof.
  pose proof (watch_sessions cfg auditor z0 z_live "a" z0_start z_live_run) as H.
  assert (match session_of "a" (c_sent (gw_conn (g_world z_live))) with
          | Watching _ evs => length evs = 1%nat | _ => False end) as H' by (vm_compute; reflexivity).
  destruct (session_of "a" (c_sent (gw_conn (g_world z_live)))) as [|w evs|]; [done| |done].
  destruct H as [_ (before&after&H)]. exists w, evs, before, after. split; [reflexivity|]. split; [exact H'|exact H].
Defined.

Lemma watch_complete_witness :
  ∃ before after, g_trace z_live = before ++ after ∧ opened_in cfg auditor z0 z_live "a" w_live before ∧
    session_of "a" (c_sent (gw_conn (g_world z_live))) = Watching w_live (wt_Replay w_live ++ published "a" after) ∧
    length (published "a" after) = 1%nat.
Proof.
  assert (c_watches (gw_conn (g_world z_live)) !! "a" = Some w_live) as Hw by (vm_compute; reflexivity).
  assert (c_watchesMu (gw_conn (g_world z_live)) = false) as Hm by (vm_compute; reflexivity).
  assert (g_routines z_live !! 3%nat = Some (GForward "a" w_live)) as Hg by (vm_compute; reflexivity).
  apply list_elem_of_lookup_2 in Hg.
  assert (as_chans (gw_events (g_world z_live)) !! wt_chan w_live = Some ch_live) as Hc by (vm_compute; reflexivity).
  assert (ch_buf ch_live = []) as Hb by (vm_compute; reflexivity).
  assert (wmap (gw_events (g_world z_live)) "a" !! 1 = Some (wt_chan w_live)) as Hr by (vm_compute; reflexivity).
  destruct (watch_complete cfg auditor z0 z_live "a" w_live ch_live z0_start z_live_run Hw Hm Hg Hc Hb (ex_intro _ 1 Hr))
    as (before&after&H1&H2&H3).
  exists before, after. split; [exact H1|]. split; [exact H2|]. split; [exact H3|].
  assert (match session_of "a" (c_sent (gw_conn (g_world z_live))) with
          | Watching _ evs => length evs = 1%nat | _ => False end) as Hl by (vm_compute; reflexivity).
  rewrite H3 in Hl. assert (wt_Replay w_live = []) as Hn by (vm_compute; reflexivity). by rewrite Hn in Hl.
Defined.

Lemma connection_bounds_witness :
  zlen (send_buf (gw_conn (g_world z_live))) ≤ sc_SendQueueSize cfg ∧
  Z.of_nat (size (c_watches (gw_conn (g_world z_live)))) ≤ sc_MaxWatches cfg.
Proof.
  destruct (connection_bounds cfg auditor _ z_live eq_refl z_live_reach) as (H1&H2&_). exact (conj H1 H2).
Defined.

(** A second hello closes the connection; the closing frame is being written. *)
Definition closing : list act := [Run 2 (reading "hello"); Run 2 (at_case 0); Run 0 (at_case 0); Run 0 (at_case 0)].
Definition z_closing : gateway Store Store unit body value := after_run (greet ++ closing).

Lemma failed_write_strands_witness :
  ∃ z1, gw_step cfg auditor z_closing z1 ∧ ∀ z2, rtc (gw_step cfg auditor) z1 z2 →
    c_cancelled (gw_conn (g_world z2)) = false ∧ writers (g_routines z2) = [] ∧
    c_closed (gw_conn (g_world z2)) = c_closed (gw_conn (g_world z_closing)) ∧
    c_wire (gw_conn (g_world z2)) = c_wire (gw_conn (g_world z_closing)).
Proof.
  assert (gw_reach cfg auditor z_closing) as Hr by (apply (reach (greet ++ closing)); vm_compute; reflexivity).
  assert (∃ out f raw t2, g_routines z_closing = [] ++ GWriting out f raw true :: t2) as (out&f&raw&t2&Hg)
    by (vm_compute; do 4 eexists; reflexivity).
  assert (c_closeOnce (gw_conn (g_world z_closing)) = true) as Ho by (vm_compute; reflexivity).
  assert (c_cancelled (gw_conn (g_world z_closing)) = false) as Hc by (vm_compute; reflexivity).
  exact (failed_write_strands cfg auditor z_closing failing [] t2 out f raw true Hr Hg eq_refl Ho Hc).
Defined.
End DemoServer.
