(* ===== verification/Attachments.v ===== *)
(** * The attachment store (internal/attachment/store.go)

    Images are kept as files named by random identifiers in one directory, with a row
    of metadata each in a store behind an interface; the model keeps both, and runs
    every call in the order of the code, under an environment that may make any of them
    fail.  The image decoder of the standard library is a parameter: nothing is assumed
    of it. *)

From Stdlib Require Import Ascii String.
From stdpp Require Import base tactics numbers list sorting gmap strings pretty.
From S2P Require Import Prelude GoError GoStrings Sha256 GoPath FileSystem FileCalls Persistence.
Local Open Scope string_scope.
Local Open Scope Z_scope.
Local Open Scope list_scope.

(** ** Interfaces *)

(** [image.DecodeConfig] with the GIF, JPEG and PNG decoders registered: width, height
    and the name of the format. *)
Class ImageDecoder := DecodeConfig : string → res (Z * Z * string).

(** [attachment.MetadataStore]. *)
Class MetadataStore (D : Type) := {
  md_SaveAttachment : AttachmentRecord → M D unit;
  md_GetAttachment : string → string → M D AttachmentRecord;
}.

(** What the attachment store relies on: the rows are a table keyed by the identifier, a
    failed insertion may or may not have been applied, a row is returned to its owner. *)
Class MetadataLaws (D : Type) `{MetadataStore D} := {
  md_rows : D → gmap string AttachmentRecord;
  md_healthy : D → Prop;
  md_save_ok r d d' : md_SaveAttachment r d = (d', Ok tt) →
    md_rows d !! at_AttachmentID r = None ∧ md_rows d' = <[at_AttachmentID r := r]> (md_rows d);
  md_save_err r d d' e : md_SaveAttachment r d = (d', Err e) →
    md_rows d' = md_rows d ∨
    md_rows d !! at_AttachmentID r = None ∧ md_rows d' = <[at_AttachmentID r := r]> (md_rows d);
  md_get owner id d d' r : md_GetAttachment owner id d = (d', r) →
    md_rows d' = md_rows d ∧
    match r with Ok x => md_rows d !! id = Some x ∧ at_LogicalOwnerID x = owner | Err _ => True end;
  md_get_healthy owner id d : md_healthy d → (∀ x, md_rows d !! id = Some x → 0 ≤ at_SizeBytes x) →
    (md_GetAttachment owner id d).2 =
      match md_rows d !! id with
      | Some x => if bool_decide (at_LogicalOwnerID x = owner) then Ok x else Err (ErrSentinel ErrNoRows)
      | None => Err (ErrSentinel ErrNoRows)
      end;
}.

(** ** Configuration and data *)

Definition DefaultMaxUploadBytes : Z := Z.shiftl 8 20.
Definition MaxFilenameBytes : Z := 1024.
Definition DefaultSupportedMIMETypes : list string := ["image/gif"; "image/jpeg"; "image/png"].

Record Config := mkAttachmentConfig {
  ac_MaxUploadBytes : Z;
  ac_SupportedMIMETypes : list string;
}.

Definition DefaultConfig : Config := mkAttachmentConfig DefaultMaxUploadBytes DefaultSupportedMIMETypes.

Record Descriptor := mkDescriptor {
  de_AttachmentID : string;
  de_Filename : string;
  de_MIMEType : string;
  de_SizeBytes : Z;
  de_SHA256 : string;
  de_WidthPixels : Z;
  de_HeightPixels : Z;
}.

#[export] Instance Descriptor_eq_dec : EqDecision Descriptor.
Proof. solve_decision. Defined.

(** [attachment.Store]; the metadata store is part of the state. *)
Record Attachments := mkAttachments {
  as_root : string;
  as_blobsDir : string;
  as_maxUploadBytes : Z;
  as_supportedMIMEs : list string;
}.

(** ** Helpers *)

Definition canonicalMIMEFormat (mimeType : string) : string :=
  if bool_decide (mimeType = "image/png") then "png"
  else if bool_decide (mimeType = "image/jpeg") then "jpeg"
  else if bool_decide (mimeType = "image/gif") then "gif"
  else "".

(** [^[0-9a-f]{n}$]. *)
Definition lower_hex (c : ascii) : bool := in_range 48 57 (bval c) || in_range 97 102 (bval c).
Definition hex_string (n : nat) (s : string) : bool := (String.length s =? n)%nat && forallb lower_hex (chars s).
Definition validSHA256 (s : string) : bool := hex_string 64 s.
Definition validAttachmentID (s : string) : bool := hex_string 32 s.

(** The 16 bytes [rand.Read] fills in. *)
Definition sixteen (raw : string) : string := of_chars (take 16 (chars raw ++ replicate 16 "000"%char)).

Definition opaqueID : M FS string := λ s,
  match fs_rand s with
  | Some raw :: rand => (set_fs_rand rand s, Ok (EncodeToString (sixteen raw)))
  | _ => (set_fs_rand (tail (fs_rand s)) s, Err (ErrText "entropy source failed"))
  end.

(** [os.Open] of a directory. *)
Definition OpenDir (p : string) : M FS unit :=
  sys (λ s, (s, match follow (fs_tree s) p with Ok _ => Ok tt | Err e => Err e end)).

(** The body of [writeAtomic] once the temporary file exists; its deferred cleanup follows. *)
Definition fill_and_install (dir tmpName path content : string) : M FS unit :=
  _ ← Chmod tmpName 384;
  _ ← FileWrite tmpName content;
  _ ← FileSync tmpName;
  _ ← FileClose tmpName;
  r ← attempt (Lstat path);
  _ ← match r with
      | Ok _ => fail_msg "attachment id collision"
      | Err e => if errorsIs e ErrNotExist then mret tt else throw e
      end;
  _ ← Rename tmpName path;
  _ ← OpenDir dir;
  err ← attempt (FileSync dir);
  closeErr ← attempt (FileClose dir);
  match err with Ok _ => of_res closeErr | Err e => throw e end.

Definition writeAtomic (path content : string) : M FS unit :=
  let dir := Dir path in
  tmpName ← CreateTemp dir ".attachment-";
  r ← attempt (fill_and_install dir tmpName path content);
  _ ← attempt (FileClose tmpName);
  match r with
  | Ok _ => mret tt
  | Err e => _ ← attempt (Remove tmpName); throw e
  end.

Definition descriptorFromRecord (r : AttachmentRecord) : Descriptor :=
  mkDescriptor (at_AttachmentID r) (at_Filename r) (at_MIMEType r) (at_SizeBytes r) (at_SHA256 r)
    (at_WidthPixels r) (at_HeightPixels r).

Definition validatePersisted (d : Descriptor) (content : string) : res unit :=
  if negb (slen content =? de_SizeBytes d) then Err (ErrSentinel ErrHashMismatch)
  else if negb (bool_decide (EncodeToString (Sum256 content) = de_SHA256 d)) then Err (ErrSentinel ErrHashMismatch)
  else Ok tt.

Definition blobPath (st : Attachments) (attachmentID : string) : string := Join [as_blobsDir st; attachmentID].

(** ** Operations *)

Section Operations.
Context {D : Type} `{ID : ImageDecoder} `{MS : MetadataStore D}.

(** The file system and the metadata store. *)
Definition in_fs {A} (m : M FS A) : M (FS * D) A := zoom fst (λ f w, (f, w.2)) m.
Definition in_md {A} (m : M D A) : M (FS * D) A := zoom snd (λ d w, (w.1, d)) m.

(** The configured types are known and distinct. *)
Fixpoint check_mimes (seen : list string) (l : list string) : res unit :=
  match l with
  | [] => Ok tt
  | m :: l =>
      if str_empty (canonicalMIMEFormat m) || bool_decide (m ∈ seen)
      then Err (ErrText ("unsupported configured image MIME type " +:+ Quote m))
      else check_mimes (m :: seen) l
  end.

Definition New (wd : res string) (root : string) (metadata : bool) (cfg : Config) : M FS Attachments :=
  if str_empty (TrimSpace root) || negb metadata then
    fail_msg "attachment root and metadata store are required"
  else if (ac_MaxUploadBytes cfg =? 0) || (zlen (ac_SupportedMIMETypes cfg) =? 0) then
    fail_msg "positive max upload bytes and supported MIME types are required"
  else
    _ ← of_res (check_mimes [] (ac_SupportedMIMETypes cfg));
    root ← of_res (Abs wd root);
    let blobsDir := Join [root; "blobs"] in
    _ ← MkdirAll blobsDir 448;
    mret (mkAttachments root blobsDir (ac_MaxUploadBytes cfg) (ac_SupportedMIMETypes cfg)).

Definition content_invalid (what : string) : goerr := ErrWrapped "" (ErrSentinel ErrContentInvalid) (": " +:+ what).

(** The checks of [Upload] before the image is looked at. *)
Definition upload_checks (st : Attachments) (ownerID filename mimeType wantSHA content : string) : res unit :=
  if str_empty (TrimSpace ownerID) || str_empty filename || (MaxFilenameBytes <? slen filename) ||
     negb (ValidString filename) || Contains filename nul
  then Err (content_invalid "owner and display filename are required")
  else if negb (bool_decide (mimeType ∈ as_supportedMIMEs st))
  then Err (ErrWrapped "" (ErrSentinel ErrMIMEUnsupported) (": " +:+ Quote mimeType))
  else if negb (validSHA256 wantSHA) then Err (content_invalid "sha256 must be 64 lowercase hexadecimal digits")
  else if slen content =? 0 then Err (content_invalid "empty image")
  else if as_maxUploadBytes st <? slen content then Err (ErrSentinel ErrTooLarge)
  else if negb (bool_decide (EncodeToString (Sum256 content) = wantSHA)) then Err (ErrSentinel ErrHashMismatch)
  else Ok tt.

(** The decoded size, when the content is what the MIME type says. *)
Definition image_size (mimeType content : string) : res (Z * Z) :=
  match DecodeConfig content with
  | Ok (w, h, format) =>
      if (w <=? 0) || (h <=? 0) || negb (bool_decide (format = canonicalMIMEFormat mimeType)) ||
         (u32_modulus - 1 <? u64 w) || (u32_modulus - 1 <? u64 h)
      then Err (content_invalid "declared MIME and decoded image disagree")
      else Ok (u32 w, u32 h)
  | Err _ => Err (content_invalid "declared MIME and decoded image disagree")
  end.

Definition record_of (ownerID : string) (now : Z) (d : Descriptor) : AttachmentRecord :=
  mkAttachmentRecord (de_AttachmentID d) ownerID (de_Filename d) (de_MIMEType d) (de_SHA256 d) (de_SizeBytes d)
    (de_WidthPixels d) (de_HeightPixels d) now.

Definition Upload (st : Attachments) (now : Z) (ownerID filename mimeType wantSHA content : string)
    : M (FS * D) Descriptor :=
  _ ← of_res (upload_checks st ownerID filename mimeType wantSHA content);
  '(w, h) ← of_res (image_size mimeType content);
  attachmentID ← in_fs opaqueID;
  let d := mkDescriptor attachmentID filename mimeType (slen content) wantSHA w h in
  let path := blobPath st attachmentID in
  _ ← in_fs (writeAtomic path content);
  r ← attempt (in_md (md_SaveAttachment (record_of ownerID now d)));
  match r with
  | Ok _ => mret d
  | Err e => _ ← attempt (in_fs (Remove path)); throw e
  end.

Definition resolve (st : Attachments) (ownerID attachmentID : string) : M (FS * D) (Descriptor * string) :=
  if str_empty (TrimSpace ownerID) || negb (validAttachmentID attachmentID) then throw (ErrSentinel ErrAttachmentNotFound)
  else
    r ← attempt (in_md (md_GetAttachment ownerID attachmentID));
    match r with
    | Err e => throw (if errorsIs e ErrNoRows then ErrSentinel ErrAttachmentNotFound else e)
    | Ok r => mret (descriptorFromRecord r, blobPath st attachmentID)
    end.

Definition Download (st : Attachments) (ownerID attachmentID : string) : M (FS * D) (Descriptor * string) :=
  '(d, path) ← resolve st ownerID attachmentID;
  r ← attempt (in_fs (ReadFile path));
  match r with
  | Err e => throw (if errorsIs e ErrNotExist then ErrSentinel ErrAttachmentNotFound else e)
  | Ok content => _ ← of_res (validatePersisted d content); mret (d, content)
  end.

Definition Resolve (st : Attachments) (ownerID attachmentID : string) : M (FS * D) (Descriptor * string) :=
  '(d, _) ← Download st ownerID attachmentID;
  mret (d, blobPath st attachmentID).

Definition DescribePath (st : Attachments) (wd : res string) (ownerID path : string) : M (FS * D) Descriptor :=
  match Abs wd path with
  | Err _ => throw (ErrSentinel ErrAttachmentNotFound)
  | Ok abs =>
      if negb (bool_decide (Dir abs = as_blobsDir st)) then throw (ErrSentinel ErrAttachmentNotFound)
      else if negb (validAttachmentID (Base abs)) then throw (ErrSentinel ErrAttachmentNotFound)
      else '(d, _) ← Resolve st ownerID (Base abs); mret d
  end.

End Operations.
