(* ===== verification/AttachmentTheorems.v ===== *)
(** * The attachment store: theorems

    What an upload leaves on disk and in the table whatever call fails, that a stored
    image is served unchanged to its owner and to nobody else after any further
    operations, and that every image served has the size and the digest of its row. *)

From Stdlib Require Import Ascii String.
From stdpp Require Import base tactics numbers list sorting gmap strings pretty.
From S2P Require Import Prelude GoError GoStrings Sha256 GoPath FileSystem FileCalls Persistence Attachments.
Local Open Scope string_scope.
Local Open Scope Z_scope.
Local Open Scope list_scope.

(** ** Identifiers *)

Lemma hex_digit_lower n : 0 ≤ n < 16 → lower_hex (hex_digit n) = true.
Proof.
  intros Hn. assert (n ∈ seqZ 0 16) as H by (apply elem_of_seqZ; lia).
  assert (Forall (λ n, lower_hex (hex_digit n) = true) (seqZ 0 16)) as HF by repeat constructor.
  by apply (proj1 (Forall_forall _ _) HF).
Qed.

Lemma EncodeToString_hex raw : forallb lower_hex (chars (EncodeToString raw)) = true.
Proof.
  unfold EncodeToString. rewrite chars_of_chars. induction (chars raw) as [|x l IH]; [done|].
  rewrite bind_cons. pose proof (bval_range x). unfold hex_byte. simpl. rewrite !hex_digit_lower; [done|..].
  - by apply Z.mod_pos_bound.
  - split; [apply Z.div_pos; lia|apply Z.div_lt_upper_bound; lia].
Qed.

Lemma EncodeToString_length raw : String.length (EncodeToString raw) = (2 * String.length raw)%nat.
Proof.
  unfold EncodeToString. rewrite length_of_chars, <- (length_chars raw). induction (chars raw) as [|x l IH]; [done|].
  rewrite bind_cons, length_app, IH. simpl. lia.
Qed.

Lemma sixteen_length raw : String.length (sixteen raw) = 16%nat.
Proof. unfold sixteen. rewrite length_of_chars, length_take, length_app, length_replicate. lia. Qed.

Lemma opaqueID_valid raw : validAttachmentID (EncodeToString (sixteen raw)) = true.
Proof.
  unfold validAttachmentID, hex_string. by rewrite EncodeToString_length, sixteen_length, EncodeToString_hex.
Qed.

(** A string of digits is an entry name, and not one of the temporary names. *)
Lemma hex_chars n s x : hex_string n s = true → x ∈ chars s → lower_hex x = true.
Proof.
  unfold hex_string. intros [_ Hh]%andb_prop Hx. rewrite forallb_forall in Hh. by apply Hh, list_elem_of_In.
Qed.

Lemma valid_head s : validAttachmentID s = true → ∃ x l, chars s = x :: l ∧ lower_hex x = true.
Proof.
  intros H. destruct (chars s) as [|x l] eqn:E.
  - unfold validAttachmentID, hex_string in H. rewrite <- length_chars, E in H. done.
  - exists x, l. split; [done|]. eapply hex_chars; [exact H|]. rewrite E. by left.
Qed.

Lemma valid_normal s : validAttachmentID s = true → normal s.
Proof.
  intros H. destruct (valid_head s H) as (x & l & E & Hx). split.
  - intros Hs. pose proof (hex_chars _ _ _ H Hs). done.
  - split_and!; intros ->; vm_compute in E; simplify_eq.
Qed.

Definition temp_prefix : string := ".attachment-".

Lemma temp_normal raw : normal (temp_prefix +:+ EncodeToString raw).
Proof.
  split; [apply slash_free_app; [|apply EncodeToString_slash_free]|].
  - apply (bool_decide_unpack _). vm_compute. done.
  - split_and!; intros E%(f_equal chars); rewrite chars_app in E; discriminate.
Qed.

Lemma temp_not_valid raw id : validAttachmentID id = true → temp_prefix +:+ EncodeToString raw ≠ id.
Proof.
  intros (x & l & E & Hx)%valid_head <-. rewrite chars_app in E. injection E as <- _. done.
Qed.

(** ** The blob directory *)

Section Blobs.
Context (P : list string) (HP : Forall normal P) (t0 : tree) (Hcl : closed t0) (Hdir : real_dir t0 P).

(** One new entry of the directory. *)
Definition added (x : string) (W : inode → Prop) (t : tree) : Prop :=
  t0 !! (P ++ [x]) = None ∧ ∃ i, W i ∧ t = <[P ++ [x] := i]> t0.

Definition blob_file (content : string) (i : inode) : Prop := in_node i = NFile content ∧ in_perm i = 384.

Lemma added_at_dir x W : at_dir P (added x W).
Proof. intros t (Hn & i & _ & ->). eapply real_dir_grown; [by apply grown_insert|done]. Qed.

Lemma added_grown x W t : added x W t → grown t0 t.
Proof. intros (Hn & i & _ & ->). by apply grown_insert. Qed.

Lemma added_closed x W t : added x W t → closed t.
Proof. intros (Hn & i & _ & ->). by apply closed_insert. Qed.

(** Removing the new entry restores the directory. *)
Lemma added_delete x W t : added x W t → delete (P ++ [x]) t = t0.
Proof. intros (Hn & i & _ & ->). by rewrite delete_insert_id. Qed.

(** A write to the new file. *)
Lemma on_added x f W W' : normal x → (∀ s i, W i → W' (f s i)) →
  triple (added x W) (on_file (apath (P ++ [x])) f) (λ r t, match r with Ok _ => added x W' t | Err _ => added x W t end).
Proof.
  intros Hx HW. eapply triple_post; [apply (on_file_in P HP); [apply added_at_dir|done]|].
  intros [u|e] t'; [|done]. intros (t & i & s & (Hn & j & Hj & ->) & Hi & ->). rewrite lookup_insert_eq in Hi. injection Hi as <-.
  split; [done|]. exists (f s j). split; [by apply HW|]. by rewrite insert_insert_eq.
Qed.

(** Renaming the new file to a free name. *)
Lemma rename_added x y W t t' : x ≠ y → t0 !! (P ++ [y]) = None → added x W t →
  renamed (P ++ [x]) (P ++ [y]) t t' → (∀ i i', W i → in_node i' = in_node i → in_perm i' = in_perm i → W i') → added y W t'.
Proof.
  intros Hne Hy (Hx & i & Hi & ->) Hrn HW. split; [done|].
  pose proof (rn_moved _ _ _ _ Hrn []) as Hm. rewrite !app_nil_r in Hm. symmetry in Hm.
  destruct (elook_node _ _ _ _ i Hm) as (i' & Hi' & Hn' & Hp'); [apply lookup_insert_eq|].
  exists i'. split; [by eapply HW|]. apply map_eq. intros k.
  assert (∀ z l, t0 !! (P ++ [z]) = None → t0 !! ((P ++ [z]) ++ l) = None) as Hfree by (intros; apply closed_missing; [done|by destruct P|done]).
  destruct (decide (P ++ [y] `prefix_of` k)) as [[l ->]|Hky].
  - destruct l as [|z l]; [by rewrite app_nil_r, lookup_insert_eq|].
    rewrite lookup_insert_ne, Hfree; [|done|intros E%(f_equal length); rewrite !length_app in E; simpl in E; lia].
    apply elook_None. rewrite (rn_moved _ _ _ _ Hrn). apply elook_None.
    rewrite lookup_insert_ne, Hfree; [done|done|intros E%(f_equal length); rewrite !length_app in E; simpl in E; lia].
  - rewrite lookup_insert_ne by (intros <-; by apply Hky).
    destruct (decide (P ++ [x] `prefix_of` k)) as [[l ->]|Hkx].
    + by rewrite (rn_gone _ _ _ _ Hrn), Hfree.
    + rewrite (rn_other _ _ _ _ Hrn) by done. rewrite lookup_insert_ne; [done|]. intros <-. by apply Hkx.
Qed.

(** ** [writeAtomic] *)

Section Write.
Context (id content : string) (Hid : validAttachmentID id = true).

Definition installed (t : tree) : Prop := added id (blob_file content) t.

(** What the failed write of a blob leaves: nothing, the temporary file, or the blob. *)
Definition half_written (t : tree) : Prop :=
  t = t0 ∨ (∃ raw, added (temp_prefix +:+ EncodeToString raw) (λ _, True) t) ∨ installed t.

Lemma fill_and_install_spec raw : let x := temp_prefix +:+ EncodeToString raw in
  triple (added x (λ _, True)) (fill_and_install (apath P) (apath (P ++ [x])) (apath (P ++ [id])) content)
    (λ r t, match r with Ok _ => installed t | Err _ => added x (λ _, True) t ∨ installed t end).
Proof.
  intros x. assert (Hx : normal x) by apply temp_normal. assert (Hne : x ≠ id) by by apply temp_not_valid.
  assert (∀ W t, added x W t → added x (λ _, True) t) as Hweak by (intros W t (H & i & _ & ->); split; eauto).
  unfold fill_and_install.
  fs_bind (λ (r : res unit) t, match r with Ok _ => added x (λ i, in_perm i = 384) t | Err _ => added x (λ _, True) t end); [by apply on_added| |by left].
  fs_bind (λ (r : res unit) t, match r with Ok _ => added x (blob_file content) t | Err _ => added x (λ _, True) t end); [| |by left].
  { eapply triple_post; [apply (on_added x _ _ (blob_file content)); [done|by intros s i Hi]|]. intros [|]; eauto. }
  do 2 (fs_bind (λ (r : res unit) t, added x (blob_file content) t); [apply triple_noop| |left; eauto]).
  fs_try (λ (r : res inode) t, added x (blob_file content) t ∧
    match r with Ok i => True | Err e => errorsIs e ErrNotExist = true → t !! (P ++ [id]) = None end).
  { eapply triple_post; [apply (Lstat_in P HP); [apply added_at_dir|by apply valid_normal]|]. intros [i|e] t []; eauto. }
  fs_bind (λ (r : res unit) t, added x (blob_file content) t ∧ match r with Ok _ => t0 !! (P ++ [id]) = None | Err _ => True end);
    [| |intros e t []; left; eauto].
  { destruct a3 as [i|e]; [apply triple_throw; by intros t []|]. destruct (errorsIs e ErrNotExist) eqn:Ee.
    - apply triple_ret. intros t [Ha Hn]. split; [done|]. pose proof (Hn eq_refl) as H. destruct Ha as (_ & i & _ & ->).
      rewrite lookup_insert_ne in H; [done|]. intros E%app_inv_head. congruence.
    - apply triple_throw. by intros t []. }
  fs_bind (λ (r : res unit) t, match r with Ok _ => installed t | Err _ => added x (λ _, True) t end); [| |by left].
  { eapply triple_post; [apply (Rename_in P HP); [by intros t [Ha _]; apply added_at_dir in Ha|done|by apply valid_normal|done]|].
    intros [u|e] t'; [|intros []; eauto]. intros (t & [Ha Hn] & Hrn). eapply rename_added; [done..|].
    intros i i' [H1 H2] E1 E2. split; congruence. }
  fs_bind (λ (r : res unit) t, installed t); [by apply (triple_read _ (λ t, match follow t _ with Ok _ => Ok tt | Err e => Err e end))| |by right].
  do 2 (fs_try (λ (r : res unit) t, installed t); [apply triple_noop|]).
  case_match; [apply triple_of_res|apply triple_throw]; intros t Ht; try case_match; auto.
Qed.

Lemma writeAtomic_spec :
  triple (λ t, t = t0) (writeAtomic (apath (P ++ [id])) content)
    (λ r t, match r with Ok _ => installed t | Err _ => half_written t end).
Proof.
  unfold writeAtomic. rewrite Dir_apath by (done || apply valid_normal, Hid). cbv zeta.
  fs_bind (λ (r : res string) t, match r with
    | Ok p => ∃ raw, p = apath (P ++ [temp_prefix +:+ EncodeToString raw]) ∧ added (temp_prefix +:+ EncodeToString raw) (λ _, True) t
    | Err _ => t = t0 end); [| |by left].
  { eapply triple_post; [apply (create_temp_in P HP); [by intros t ->|apply temp_normal]|].
    intros [p|e] t'; [|done]. intros (t & x & i & -> & -> & Hn & [raw ->] & Hfree & -> & _).
    exists raw. split; [done|]. split; [done|]. by exists i. }
  apply (triple_pure (∃ raw, a = apath (P ++ [temp_prefix +:+ EncodeToString raw]) ∧ t0 !! (P ++ [temp_prefix +:+ EncodeToString raw]) = None));
    [by intros t (raw & -> & ? & _); eauto|]. intros (raw & -> & Hfree).
  eapply (triple_conseq (added (temp_prefix +:+ EncodeToString raw) (λ _, True))); [| |by intros r t H; exact H].
  { intros t (raw' & E & Ha). apply apath_eq, app_inv_head in E;
      [|apply Forall_app; split; [done|by constructor; [apply temp_normal|]]..].
    assert (temp_prefix +:+ EncodeToString raw = temp_prefix +:+ EncodeToString raw') as -> by congruence. done. }
  fs_try (λ (r : res unit) t, match r with Ok _ => installed t | Err _ => added (temp_prefix +:+ EncodeToString raw) (λ _, True) t ∨ installed t end);
    [by apply fill_and_install_spec|].
  fs_try (λ (r : res unit) t, match a with Ok _ => installed t | Err _ => added (temp_prefix +:+ EncodeToString raw) (λ _, True) t ∨ installed t end);
    [apply triple_noop|].
  destruct a as [[]|e]; [by apply triple_ret|].
  fs_try (λ (_ : res unit) t, half_written t); [|by apply triple_throw].
  eapply triple_post; [apply (Remove_in P HP); [|apply temp_normal]|].
  - by intros t [H|H]; eapply added_at_dir.
  - intros _ t' (t & [Ha|Ha] & [-> | ->]).
    + right. left. eauto.
    + left. by eapply added_delete.
    + by right; right.
    + right. right. rewrite delete_id; [done|]. destruct Ha as (_ & i & _ & ->).
      rewrite lookup_insert_ne; [done|]. intros E%app_inv_head.
      apply (temp_not_valid raw id Hid). congruence.
Qed.

End Write.
End Blobs.

(** ** Operations *)

Section Store.
Context {D : Type} {ID : ImageDecoder} {MS : MetadataStore D} {ML : MetadataLaws D}.
Implicit Types (st : Attachments) (w : FS * D).

Lemma in_fs_inv {A} (m : M FS A) w w' r : in_fs m w = (w', r) → m w.1 = (w'.1, r) ∧ w'.2 = w.2.
Proof. unfold in_fs, zoom. destruct (m w.1) as [f x] eqn:E. intros [= <- <-]. done. Qed.

Lemma in_md_inv {A} (m : M D A) w w' r : in_md m w = (w', r) → m w.2 = (w'.2, r) ∧ w'.1 = w.1.
Proof. unfold in_md, zoom. destruct (m w.2) as [f x] eqn:E. intros [= <- <-]. done. Qed.

(** The blob directory, reached without links in a well-formed tree. *)
Definition ready_at (P : list string) st w : Prop :=
  Forall normal P ∧ as_blobsDir st = apath P ∧ closed (fs_tree w.1) ∧ real_dir (fs_tree w.1) P.

Definition blobs_ready st w : Prop := ∃ P, ready_at P st w.

Lemma blobPath_at P st w id : ready_at P st w → validAttachmentID id = true → blobPath st id = apath (P ++ [id]).
Proof. intros (HP & E & _) Hid. unfold blobPath. rewrite E. apply Join_child; [done|by apply valid_normal]. Qed.

(** What a failed upload can leave behind. *)
Definition upload_residue (P : list string) w w' : Prop :=
  (fs_tree w'.1 = fs_tree w.1 ∨ ∃ x, added P (fs_tree w.1) x (λ _, True) (fs_tree w'.1)) ∧
  (md_rows w'.2 = md_rows w.2 ∨ ∃ id r, md_rows w.2 !! id = None ∧ md_rows w'.2 = <[id := r]> (md_rows w.2)).

(** What a completed upload has stored. *)
Definition upload_stored (P : list string) st now owner filename mime sha content (d : Descriptor) w w' : Prop :=
  ∃ id width height,
    d = mkDescriptor id filename mime (slen content) sha width height ∧ validAttachmentID id = true ∧
    upload_checks st owner filename mime sha content = Ok tt ∧ image_size mime content = Ok (width, height) ∧
    installed P (fs_tree w.1) id content (fs_tree w'.1) ∧
    md_rows w.2 !! id = None ∧ md_rows w'.2 = <[id := record_of owner now d]> (md_rows w.2).

Lemma opaqueID_inv f f' r : opaqueID f = (f', r) →
  fs_tree f' = fs_tree f ∧ match r with Ok id => validAttachmentID id = true | Err _ => True end.
Proof.
  unfold opaqueID. destruct (fs_rand f) as [|[raw|] rand]; intros [= <- <-]; simpl; [done|split; [done|apply opaqueID_valid]|done].
Qed.

Lemma Upload_spec P st now owner filename mime sha content w w' r :
  ready_at P st w → Upload st now owner filename mime sha content w = (w', r) →
  match r with
  | Ok d => upload_stored P st now owner filename mime sha content d w w'
  | Err _ => upload_residue P w w'
  end.
Proof.
  intros HR H. pose proof HR as (HP & HE & Hcl & Hd).
  assert (upload_residue P w w) as Hsame by (split; by left).
  unfold Upload in H. apply M_bind_inv_any in H as (w1 & r1 & H1 & H). injection H1 as <- <-.
  destruct (upload_checks _ _ _ _ _ _) as [[]|e] eqn:Hc; [|destruct H as [-> ->]; done].
  apply M_bind_inv_any in H as (w1 & r1 & H1 & H). injection H1 as <- <-.
  destruct (image_size mime content) as [[width height]|e] eqn:Hi; [|destruct H as [-> ->]; done].
  apply M_bind_inv_any in H as (w1 & r1 & H1 & H). apply in_fs_inv in H1 as [H1 E1].
  apply opaqueID_inv in H1 as [Ht1 Hid].
  assert (upload_residue P w w1) as Hsame1 by (split; left; [done|by rewrite E1]).
  destruct r1 as [id|e]; [|destruct H as [-> ->]; done]. cbv zeta in H.
  rewrite (blobPath_at P st w id HR Hid) in H.
  apply M_bind_inv_any in H as (w2 & r2 & H2 & H). apply in_fs_inv in H2 as [H2 E2].
  pose proof (writeAtomic_spec P HP (fs_tree w.1) Hcl Hd id content Hid _ _ _ Ht1 H2) as Hw. simpl in Hw.
  destruct r2 as [[]|e].
  2:{ destruct H as [-> ->]. split; [|left; by rewrite E2, E1]. destruct Hw as [Hw|[[raw Hw]|Hw]]; [by left|eauto..].
      right. destruct Hw as (? & i & _ & ?). exists id. split; eauto. }
  apply M_bind_inv_any in H as (w3 & r3 & H3 & H).
  unfold attempt in H3. destruct (in_md _ w2) as [w3' rs] eqn:Hs. injection H3 as <- <-. apply in_md_inv in Hs as [Hs E3].
  destruct rs as [[]|e].
  - injection H as <- <-. apply md_save_ok in Hs as [Hn Hr]. simpl in Hn, Hr. rewrite E2, E1 in Hn, Hr.
    exists id, width, height. split_and!; try done. by rewrite E3.
  - apply M_bind_inv_any in H as (w4 & r4 & H4 & H). unfold attempt in H4.
    destruct (in_fs _ w3') as [w4' r4'] eqn:Hr. injection H4 as <- <-. injection H as <- <-. apply in_fs_inv in Hr as [Hr E4]. split.
    + rewrite E3 in Hr. destruct (Remove_in P HP (installed P (fs_tree w.1) id content) id (added_at_dir P _ Hd _ _) (valid_normal _ Hid) _ _ _ Hw Hr)
        as (t & Hin & [-> | ->]).
      * right. destruct Hin as (? & i & _ & ?). exists id. split; eauto.
      * left. by eapply added_delete.
    + rewrite E4. apply md_save_err in Hs. simpl in Hs. rewrite E2, E1 in Hs. destruct Hs as [Hs|[? ?]]; [by left|eauto].
Qed.

(** Nothing stored is touched: entries and rows are only added. *)
Definition extends w w' : Prop := grown (fs_tree w.1) (fs_tree w'.1) ∧ md_rows w.2 ⊆ md_rows w'.2.

#[export] Instance extends_preorder : PreOrder extends.
Proof.
  split; [by intros w|]. intros w1 w2 w3 [H1 H2] [H3 H4]. split; [by etrans|by etrans].
Qed.

Lemma added_sound P t x W t' : closed t → real_dir t P → added P t x W t' → grown t t' ∧ closed t' ∧ real_dir t' P.
Proof.
  intros Hcl Hd Ha. split_and!; [by eapply added_grown|by eapply added_closed|by eapply added_at_dir].
Qed.

Lemma Upload_extends P st now owner filename mime sha content w w' r :
  ready_at P st w → Upload st now owner filename mime sha content w = (w', r) → extends w w' ∧ ready_at P st w'.
Proof.
  intros HR H. pose proof HR as (HP & HE & Hcl & Hd). apply (Upload_spec P) in H; [|done].
  assert ((fs_tree w'.1 = fs_tree w.1 ∨ ∃ x W, added P (fs_tree w.1) x W (fs_tree w'.1)) ∧ md_rows w.2 ⊆ md_rows w'.2) as [Ht Hrows].
  { destruct r as [d|e].
    - destruct H as (id & wd & ht & _ & _ & _ & _ & Hi & Hn & ->). split; [right; by exists id, (blob_file content)|by apply insert_subseteq].
    - destruct H as [Ht Hr]. split; [destruct Ht as [->|[x Hx]]; eauto|].
      destruct Hr as [->|(id & rc & Hn & ->)]; [done|by apply insert_subseteq]. }
  unfold extends, ready_at. destruct Ht as [->|(x & W & Ha)]; [done|].
  by apply added_sound in Ha as (Hg & Hc' & Hd').
Qed.

(** ** Reading *)

Lemma resolve_inv st owner id w w' r : resolve st owner id w = (w', r) →
  w'.1 = w.1 ∧ md_rows w'.2 = md_rows w.2 ∧
  match r with
  | Ok (d, path) => path = blobPath st id ∧ validAttachmentID id = true ∧
      ∃ x, md_rows w.2 !! id = Some x ∧ at_LogicalOwnerID x = owner ∧ d = descriptorFromRecord x
  | Err _ => True
  end.
Proof.
  unfold resolve. destruct (_ || _) eqn:Eg; [by intros [= <- <-]|]. apply orb_false_elim in Eg as [_ Hid%negb_false_iff].
  intros (w1 & r1 & H1 & H)%M_bind_inv_any. unfold attempt in H1. destruct (in_md _ w) as [w2 x] eqn:Hm. injection H1 as <- <-.
  apply in_md_inv in Hm as [Hm E]. apply md_get in Hm as [Hrows Hx]. destruct x as [x|e]; injection H as <- <-; [|done].
  destruct Hx as [Hx Ho]. split_and!; eauto.
Qed.

Lemma ReadFile_inv p f f' r : ReadFile p f = (f', r) → fs_tree f' = fs_tree f.
Proof.
  unfold ReadFile, sys. destruct (fs_faults f) as [|[[e n]|] l]; intros [= <- _]; done.
Qed.

(** The size and the digest of the content are those of the descriptor. *)
Definition verified (d : Descriptor) (content : string) : Prop :=
  slen content = de_SizeBytes d ∧ EncodeToString (Sum256 content) = de_SHA256 d.

Lemma validatePersisted_spec d content : validatePersisted d content = Ok tt ↔ verified d content.
Proof.
  unfold validatePersisted, verified. destruct (_ =? _) eqn:E; simpl; to_prop; [|naive_solver].
  case_bool_decide; naive_solver.
Qed.

(** A row of the owner [owner] described by [d]. *)
Definition described (owner id : string) (d : Descriptor) w : Prop :=
  ∃ x, md_rows w.2 !! id = Some x ∧ at_LogicalOwnerID x = owner ∧ d = descriptorFromRecord x.

Lemma Download_inv st owner id w w' r : Download st owner id w = (w', r) →
  fs_tree w'.1 = fs_tree w.1 ∧ md_rows w'.2 = md_rows w.2 ∧
  match r with
  | Ok (d, content) => validAttachmentID id = true ∧ described owner id d w ∧ verified d content
  | Err _ => True
  end.
Proof.
  unfold Download. intros (w1 & r1 & H1 & H)%M_bind_inv_any. apply resolve_inv in H1 as (E1 & Er1 & Hr).
  destruct r1 as [[d path]|e]; [|destruct H as [-> ->]; by rewrite E1].
  destruct Hr as (-> & Hid & Hx). apply M_bind_inv_any in H as (w2 & r2 & H2 & H). unfold attempt in H2.
  destruct (in_fs _ w1) as [w3 x] eqn:Hm. injection H2 as <- <-. apply in_fs_inv in Hm as [Hm E2]. apply ReadFile_inv in Hm.
  assert (fs_tree w3.1 = fs_tree w.1 ∧ md_rows w3.2 = md_rows w.2) as [Et Er] by (split; congruence).
  destruct x as [content|e]; [|by injection H as <- <-].
  apply M_bind_inv_any in H as (w4 & r4 & H4 & H). injection H4 as <- <-.
  destruct (validatePersisted d content) as [[]|e] eqn:Ev; [|destruct H as [-> ->]; done].
  injection H as <- <-. split_and!; [done..|]. by apply validatePersisted_spec.
Qed.

Lemma Resolve_inv st owner id w w' r : Resolve st owner id w = (w', r) →
  fs_tree w'.1 = fs_tree w.1 ∧ md_rows w'.2 = md_rows w.2 ∧
  match r with
  | Ok (d, path) => path = blobPath st id ∧ ∃ content, Download st owner id w = (w', Ok (d, content))
  | Err _ => True
  end.
Proof.
  unfold Resolve. intros (w1 & r1 & H1 & H)%M_bind_inv_any. pose proof H1 as (Et & Er & _)%Download_inv.
  destruct r1 as [[d content]|e]; [injection H as <- <-|destruct H as [-> ->]]; split_and!; eauto.
Qed.

Lemma DescribePath_inv st wd owner path w w' r : DescribePath st wd owner path w = (w', r) →
  fs_tree w'.1 = fs_tree w.1 ∧ md_rows w'.2 = md_rows w.2 ∧
  match r with
  | Ok d => ∃ abs content, Abs wd path = Ok abs ∧ Dir abs = as_blobsDir st ∧ Download st owner (Base abs) w = (w', Ok (d, content))
  | Err _ => True
  end.
Proof.
  unfold DescribePath. destruct (Abs wd path) as [abs|e]; [|by intros [= <- <-]].
  case_bool_decide as Hd; simpl; [|by intros [= <- <-]]. destruct (validAttachmentID (Base abs)); simpl; [|by intros [= <- <-]].
  intros (w1 & r1 & H1 & H)%M_bind_inv_any. pose proof H1 as (Et & Er & Hr)%Resolve_inv.
  destruct r1 as [[d p]|e]; [injection H as <- <-|destruct H as [-> ->]]; split_and!; try done.
  destruct Hr as [_ [content Hc]]. eauto.
Qed.

(** ** Sequences of operations *)

Inductive attachment_op :=
| OpUpload (now : Z) (owner filename mime sha content : string)
| OpDownload (owner id : string)
| OpResolve (owner id : string)
| OpDescribePath (wd : res string) (owner path : string).

Definition run_attachment st (op : attachment_op) w : FS * D :=
  match op with
  | OpUpload now owner filename mime sha content => (Upload st now owner filename mime sha content w).1
  | OpDownload owner id => (Download st owner id w).1
  | OpResolve owner id => (Resolve st owner id w).1
  | OpDescribePath wd owner path => (DescribePath st wd owner path w).1
  end.

Definition run_attachments st (ops : list attachment_op) w : FS * D := foldl (λ w op, run_attachment st op w) w ops.

Lemma same_extends P st w w' : fs_tree w'.1 = fs_tree w.1 → md_rows w'.2 = md_rows w.2 → ready_at P st w →
  extends w w' ∧ ready_at P st w'.
Proof. intros Et Er. unfold extends, ready_at. by rewrite Et, Er. Qed.

Lemma run_attachment_extends P st op w : ready_at P st w →
  extends w (run_attachment st op w) ∧ ready_at P st (run_attachment st op w).
Proof.
  intros HR. destruct op; simpl.
  - destruct (Upload _ _ _ _ _ _ _ w) as [w' r] eqn:E. by eapply Upload_extends.
  - destruct (Download _ _ _ w) as [w' r] eqn:E. apply Download_inv in E as (?&?&_). by apply same_extends.
  - destruct (Resolve _ _ _ w) as [w' r] eqn:E. apply Resolve_inv in E as (?&?&_). by apply same_extends.
  - destruct (DescribePath _ _ _ _ w) as [w' r] eqn:E. apply DescribePath_inv in E as (?&?&_). by apply same_extends.
Qed.

Lemma run_attachments_extends P st ops w : ready_at P st w →
  extends w (run_attachments st ops w) ∧ ready_at P st (run_attachments st ops w).
Proof.
  revert w. induction ops as [|op ops IH]; intros w HR; [done|]. simpl.
  destruct (run_attachment_extends P st op w HR) as [H1 H2]. destruct (IH _ H2) as [H3 H4]. split; [by etrans|done].
Qed.

(** An environment without failures. *)
Definition healthy w : Prop := fs_faults w.1 = [] ∧ md_healthy w.2.

(** [id] is stored for [owner]: its row and its blob. *)
Definition stored (P : list string) (owner id : string) (d : Descriptor) (content : string) w : Prop :=
  described owner id d w ∧ ∃ i, fs_tree w.1 !! (P ++ [id]) = Some i ∧ in_node i = NFile content.

Lemma stored_extends P owner id d content w w' : extends w w' → stored P owner id d content w → stored P owner id d content w'.
Proof.
  intros [Hg Hr] [(x & Hx & ?) (i & Hi & ?)]. split.
  - exists x. split; [by eapply lookup_weaken|done].
  - exists i. split; [by apply Hg|done].
Qed.

Lemma get_run owner id w x : healthy w → md_rows w.2 !! id = Some x → 0 ≤ at_SizeBytes x →
  ∃ w', in_md (md_GetAttachment owner id) w =
    (w', if bool_decide (at_LogicalOwnerID x = owner) then Ok x else Err (ErrSentinel ErrNoRows)) ∧ w'.1 = w.1.
Proof.
  intros [_ Hh] Hx Hs. unfold in_md, zoom. destruct (md_GetAttachment owner id w.2) as [d r] eqn:E.
  exists (w.1, d). split; [|done]. f_equal. pose proof (md_get_healthy owner id w.2 Hh) as H.
  rewrite Hx, E in H. apply H. intros y [= <-]. done.
Qed.

Lemma Download_stored P st owner id d content w : ready_at P st w → stored P owner id d content w →
  validAttachmentID id = true → verified d content → str_empty (TrimSpace owner) = false → healthy w →
  (Download st owner id w).2 = Ok (d, content) ∧
  ∀ other, other ≠ owner → (Download st other id w).2 = Err (ErrSentinel ErrAttachmentNotFound).
Proof.
  intros HR [(x & Hx & <- & ->) (i & Hi & Hc)] Hid Hv Ho Hh.
  assert (0 ≤ at_SizeBytes x) as Hs by (destruct Hv as [Hv _]; simpl in Hv; rewrite <- Hv; apply slen_nonneg). split.
  - destruct (get_run (at_LogicalOwnerID x) id w x Hh Hx Hs) as (w1 & Hg & E1). rewrite bool_decide_true in Hg by done.
    assert (resolve st (at_LogicalOwnerID x) id w = (w1, Ok (descriptorFromRecord x, blobPath st id))) as Hr.
    { unfold resolve. rewrite Ho, Hid. simpl. unfold mbind, M_bind, attempt. by rewrite Hg. }
    unfold Download. rewrite (M_bind_ok _ _ _ _ _ Hr). rewrite (blobPath_at P st w id HR Hid).
    destruct HR as (HP & _ & _ & Hd). destruct Hh as [Hf _].
    destruct (ReadFile_yields (fs_tree w.1) (P ++ [id]) i content) with (s := w1.1) as (f & Hrf & _); [..|by rewrite E1|by rewrite E1|].
    + apply Forall_app. split; [done|]. constructor; [by apply valid_normal|done].
    + eapply physical_snoc; [done|exact Hi|]. unfold fi_IsSymlink. by rewrite Hc.
    + done.
    + done.
    + unfold mbind, M_bind, attempt, in_fs, zoom. rewrite Hrf. unfold of_res.
      assert (validatePersisted (descriptorFromRecord x) content = Ok tt) as -> by by apply validatePersisted_spec. done.
  - intros other Hne. unfold Download, mbind, M_bind, resolve. destruct (_ || _); [done|].
    destruct (get_run other id w x Hh Hx Hs) as (w1 & Hg & E1). rewrite bool_decide_false in Hg by done.
    unfold mbind, M_bind, attempt. by rewrite Hg.
Qed.

(** C36: an image that was uploaded is served for good.  When [Upload] succeeds, the
    descriptor it returns carries the declared name and type, the size and the digest of
    the bytes; and after any sequence of further uploads, downloads and lookups, whatever
    calls of theirs failed, [Download] gives the same descriptor and the same bytes to the
    owner of the upload, and nothing to anybody else. *)
Theorem image_roundtrip st now owner filename mime sha content d w w1 ops w2 :
  blobs_ready st w → Upload st now owner filename mime sha content w = (w1, Ok d) →
  fs_tree w2.1 = fs_tree (run_attachments st ops w1).1 → md_rows w2.2 = md_rows (run_attachments st ops w1).2 →
  healthy w2 →
  verified d content ∧ de_Filename d = filename ∧ de_MIMEType d = mime ∧ de_SHA256 d = sha ∧
  (Download st owner (de_AttachmentID d) w2).2 = Ok (d, content) ∧
  ∀ other, other ≠ owner → (Download st other (de_AttachmentID d) w2).2 = Err (ErrSentinel ErrAttachmentNotFound).
Proof.
  intros [P HR] H Et Er Hh. pose proof (Upload_extends P _ _ _ _ _ _ _ _ _ _ HR H) as [_ HR1].
  apply (Upload_spec P) in H as (id & wd & ht & -> & Hid & Hc & _ & (_ & i & [Hi _] & Hti) & _ & Hrow); [|done]. simpl.
  assert (EncodeToString (Sum256 content) = sha ∧ str_empty (TrimSpace owner) = false) as [Hsha Ho].
  { unfold upload_checks in Hc. repeat (case_match; [done|]). to_prop. done. }
  assert (verified (mkDescriptor id filename mime (slen content) sha wd ht) content) as Hv by done.
  do 4 (split; [done|]). destruct (run_attachments_extends P st ops w1 HR1) as [He HR2].
  apply (Download_stored P); try done.
  - unfold ready_at. by rewrite Et.
  - apply (stored_extends _ _ _ _ _ w1).
    + unfold extends. by rewrite Et, Er.
    + split; [|exists i; by rewrite Hti, lookup_insert_eq]. eexists. rewrite Hrow. split; [apply lookup_insert_eq|done].
Qed.

(** A failed upload does no harm: whatever call failed, everything that was on disk
    and in the table is still there unchanged, and at most one new entry of the blob
    directory and one new row are left behind. *)
Theorem failed_upload_residue st now owner filename mime sha content e w w' :
  blobs_ready st w → Upload st now owner filename mime sha content w = (w', Err e) →
  extends w w' ∧ blobs_ready st w' ∧ ∃ P, as_blobsDir st = apath P ∧ upload_residue P w w'.
Proof.
  intros [P HR] H. pose proof (Upload_extends P _ _ _ _ _ _ _ _ _ _ HR H) as [He HR1].
  split_and!; [done|by exists P|]. exists P. split; [apply HR|]. by apply (Upload_spec P) in H.
Qed.

(** No image is served that is not the owner's and intact.  Whatever the files and
    the rows have become, when [Download] returns a descriptor and bytes, the descriptor
    is the row of that identifier, the row belongs to the caller, and the bytes have the
    size and the SHA-256 digest of the row; [DescribePath] answers only for a path
    directly in the blob directory, and only when such a download succeeds; neither
    changes anything. *)
Theorem served_images_verified st w :
  (∀ owner id w' r, Download st owner id w = (w', r) → fs_tree w'.1 = fs_tree w.1 ∧ md_rows w'.2 = md_rows w.2 ∧
     match r with
     | Ok (d, content) => validAttachmentID id = true ∧ described owner id d w ∧ verified d content
     | Err _ => True
     end) ∧
  (∀ wd owner path w' d, DescribePath st wd owner path w = (w', Ok d) → ∃ abs content,
     Abs wd path = Ok abs ∧ Dir abs = as_blobsDir st ∧ described owner (Base abs) d w ∧ verified d content ∧
     Download st owner (Base abs) w = (w', Ok (d, content))).
Proof.
  split; [by intros; eapply Download_inv|]. intros wd owner path w' d (_ & _ & abs & content & Ha & Hd & H)%DescribePath_inv.
  exists abs, content. pose proof H as (_ & _ & _ & ? & ?)%Download_inv. done.
Qed.

End Store.

(** ** The database is a metadata store *)

#[export] Instance persistence_metadata : MetadataStore Persistence.Store := {
  md_SaveAttachment := SaveAttachment;
  md_GetAttachment := GetAttachment;
}.

Lemma SaveAttachment_inv r s s' x : SaveAttachment r s = (s', x) →
  db_image_attachments (st_db s') = db_image_attachments (st_db s) ∧ x ≠ Ok tt ∨
  db_image_attachments (st_db s) !! at_AttachmentID r = None ∧
  db_image_attachments (st_db s') = <[at_AttachmentID r := r]> (db_image_attachments (st_db s)).
Proof.
  unfold SaveAttachment. destruct (_ || _); [intros [= <- <-]; by left|]. case_match; [intros [= <- <-]; by left|].
  intros [(a & -> & Hw)|(e & -> & [->|[a Hw]])]%sql_exec_inv; [|by left|]; right; case_match; simplify_eq; by rewrite <- Hw.
Qed.

#[export] Program Instance persistence_metadata_laws : MetadataLaws Persistence.Store := {
  md_rows s := db_image_attachments (st_db s);
  md_healthy s := st_oracle s = [];
}.
Next Obligation. intros r d d' [[_ ?]|?]%SaveAttachment_inv; done. Qed.
Next Obligation. intros r d d' e [[? _]|?]%SaveAttachment_inv; auto. Qed.
Next Obligation.
  intros owner id d d' r. simpl. unfold GetAttachment. intros (s & q & Hq & H)%M_bind_inv_any.
  apply sql_query_inv in Hq as [Es Hq]. destruct q as [x|e]; [|destruct H as [-> ->]; by rewrite Es].
  assert (db_image_attachments (st_db d) !! id = Some x ∧ at_LogicalOwnerID x = owner) as Hx.
  { destruct Hq as [Hq|[f Hf]]; [|done]. symmetry in Hq. apply row_inv in Hq. repeat case_match; to_prop; by simplify_eq. }
  case_match; injection H as <- <-; by rewrite Es.
Qed.
Next Obligation.
  intros owner id d Ho Hs. simpl in *. unfold GetAttachment, mbind, M_bind, sql_query, pop. rewrite Ho. simpl.
  destruct (db_image_attachments (st_db d) !! id) as [x|] eqn:E; [|done]. case_bool_decide; [|done]. simpl.
  specialize (Hs x eq_refl). case_match; to_prop; [lia|done].
Qed.
