(* ===== verification/AttachmentExamples.v ===== *)
(** * The attachment store: concrete runs

    An upload followed by other traffic, the witnesses of the theorems, and an upload that
    fails after its blob is in place. *)

From Stdlib Require Import Ascii String.
From stdpp Require Import base tactics numbers list sorting gmap strings pretty.
From S2P Require Import Prelude GoError GoStrings Sha256 GoPath FileSystem FileCalls Persistence Attachments AttachmentTheorems.
Local Open Scope string_scope.
Local Open Scope Z_scope.
Local Open Scope list_scope.

Module AttachmentDemo.

(** A decoder that knows one tiny image. *)
#[local] Instance decoder : ImageDecoder := λ content,
  if bool_decide (content = "tiny") then Ok (2, 3, "png") else Err (ErrText "image: unknown format").

Definition dir : inode := mkInode NDir 448 0 0 1 0.
Definition disk : tree := list_to_map [(["a"], dir); (["a"; "blobs"], dir)].
Definition entropy : list (option string) := (λ n, Some (String (ascii_of_nat n) "")) <$> seq 1 9.
Definition fs (faults : list (option (goerr * nat))) : FS := mkFS disk faults entropy 100.
Definition store : Attachments := mkAttachments "/a" "/a/blobs" 64 DefaultSupportedMIMETypes.
Definition sha : string := Eval vm_compute in EncodeToString (Sum256 "tiny").

Definition start (faults : list (option (goerr * nat))) : FS * Persistence.Store := (fs faults, mkStore empty_db []).

Definition uploaded := Upload store 7 "owner" "cat.png" "image/png" sha "tiny" (start []).
Definition descriptor : Descriptor :=
  mkDescriptor (EncodeToString (sixteen (String (ascii_of_nat 1) ""))) "cat.png" "image/png" 4 sha 2 3.

(** A second upload, and a lookup by another owner. *)
Definition traffic : list attachment_op :=
  [OpUpload 8 "owner" "dog.png" "image/png" sha "tiny"; OpDownload "other" (de_AttachmentID descriptor)].
Definition later : FS * Persistence.Store := run_attachments store traffic uploaded.1.

Lemma disk_ready faults : blobs_ready store (start faults).
Proof.
  exists ["a"; "blobs"]. split_and!; [| |apply closed_check_sound|apply real_dir_check_sound]; try (vm_compute; reflexivity).
  apply (bool_decide_unpack _). vm_compute. done.
Qed.

Lemma upload_ok : Upload store 7 "owner" "cat.png" "image/png" sha "tiny" (start []) = (uploaded.1, Ok descriptor).
Proof. vm_compute. reflexivity. Qed.

(** The same files and rows in an environment without failures. *)
Definition calm (w : FS * Persistence.Store) : FS * Persistence.Store := (set_fs_faults [] w.1, mkStore (st_db w.2) []).

Lemma calm_healthy w : healthy (calm w).
Proof. done. Qed.

Lemma calm_tree w : fs_tree (calm w).1 = fs_tree w.1.
Proof. done. Qed.

Lemma calm_rows w : md_rows (calm w).2 = md_rows w.2.
Proof. done. Qed.

Lemma image_roundtrip_witness :
  uploaded.2 = Ok descriptor ∧
  (Download store "owner" (de_AttachmentID descriptor) (calm later)).2 = Ok (descriptor, "tiny") ∧
  (Download store "other" (de_AttachmentID descriptor) (calm later)).2 = Err (ErrSentinel ErrAttachmentNotFound).
Proof.
  split; [vm_compute; reflexivity|].
  destruct (image_roundtrip store 7 "owner" "cat.png" "image/png" sha "tiny" descriptor (start []) uploaded.1 traffic
    (calm later) (disk_ready []) upload_ok (calm_tree later) (calm_rows later) (calm_healthy later)) as (_ & _ & _ & _ & H & Hother).
  split; [exact H|apply Hother; discriminate].
Defined.

(** The synchronisation of the directory fails after the rename. *)
Definition sync_fails : list (option (goerr * nat)) := replicate 8 None ++ [Some (ErrText "input/output error", 0%nat)].
Definition failed := Upload store 7 "owner" "cat.png" "image/png" sha "tiny" (start sync_fails).

Lemma upload_failed :
  Upload store 7 "owner" "cat.png" "image/png" sha "tiny" (start sync_fails) = (failed.1, Err (ErrText "input/output error")).
Proof. vm_compute. reflexivity. Qed.

Lemma failed_upload_residue_witness :
  failed.2 = Err (ErrText "input/output error") ∧ extends (start sync_fails) failed.1.
Proof.
  split; [vm_compute; reflexivity|].
  exact (proj1 (failed_upload_residue store 7 "owner" "cat.png" "image/png" sha "tiny" _ (start sync_fails) failed.1
    (disk_ready sync_fails) upload_failed)).
Defined.

(** An upload that is reported as failed leaves its blob: no row names it, so nothing
    will ever serve or remove it. *)
Lemma failed_upload_keeps_blob :
  failed.2 = Err (ErrText "input/output error") ∧ md_rows failed.1.2 = ∅ ∧
  in_node <$> fs_tree failed.1.1 !! ["a"; "blobs"; de_AttachmentID descriptor] = Some (NFile "tiny").
Proof. split_and!; vm_compute; reflexivity. Qed.

End AttachmentDemo.
