(* ===== verification/Capability.v ===== *)
(** * Capabilities (internal/capability/service.go, cmd/codex-remote-host/main.go)

    The limits the Host advertises to clients, how they are derived from the size of a
    frame, and how the Host wires them to the services that enforce them. *)

From Stdlib Require Import Ascii String.
From stdpp Require Import base tactics numbers list sorting gmap strings pretty.
From S2P Require Import Prelude GoError GoStrings Sha256 GoPath FileSystem Remote Workspace WorkspaceFiles Attachments.
Local Open Scope string_scope.
Local Open Scope Z_scope.
Local Open Scope list_scope.

(** ** Messages *)

Record WorkspaceCapabilities := mkWorkspaceCapabilities {
  wc_MaxTextFileBytes : Z;
  wc_MaxInlineUploadBytes : Z;
  wc_MaxInlineDownloadBytes : Z;
  wc_MaxArchiveExpandedBytes : Z;
  wc_MaxArchiveEntryCount : Z;
}.

Record ImageAttachmentCapabilities := mkImageCapabilities {
  ic_Supported : bool;
  ic_MaxUploadBytes : Z;
  ic_SupportedMimeTypes : list string;
  ic_UnreferencedRetentionMs : Z;
}.

Record Capabilities := mkCapabilities {
  cap_FeatureIds : list string;
  cap_SessionSourceKinds : list string;
  cap_MaxWatchesPerConnection : Z;
  cap_MaxPageSize : Z;
  cap_Workspace : option WorkspaceCapabilities;
  cap_ImageAttachments : option ImageAttachmentCapabilities;
}.

Definition set_cap_Workspace (x : option WorkspaceCapabilities) (c : Capabilities) : Capabilities :=
  mkCapabilities (cap_FeatureIds c) (cap_SessionSourceKinds c) (cap_MaxWatchesPerConnection c) (cap_MaxPageSize c)
    x (cap_ImageAttachments c).
Definition set_cap_ImageAttachments (x : option ImageAttachmentCapabilities) (c : Capabilities) : Capabilities :=
  mkCapabilities (cap_FeatureIds c) (cap_SessionSourceKinds c) (cap_MaxWatchesPerConnection c) (cap_MaxPageSize c)
    (cap_Workspace c) x.
Definition set_cap_SessionSourceKinds (x : list string) (c : Capabilities) : Capabilities :=
  mkCapabilities (cap_FeatureIds c) x (cap_MaxWatchesPerConnection c) (cap_MaxPageSize c)
    (cap_Workspace c) (cap_ImageAttachments c).

(** ** Defaults and limits for a frame *)

Definition DefaultMaxTextFileBytes : Z := Z.shiftl 512 10.
Definition DefaultMaxInlineUploadBytes : Z := Z.shiftl 2 20.
Definition DefaultMaxInlineDownloadBytes : Z := Z.shiftl 2 20.
Definition DefaultMaxArchiveExpandedBytes : Z := Z.shiftl 32 20.
Definition DefaultMaxArchiveEntryCount : Z := 1000.
Definition DefaultMaxImageUploadBytes : Z := Z.shiftl 2 20.
Definition DefaultImageRetention_ms : Z := 24 * 60 * 60 * 1000.
Definition DefaultImageMIMETypes : list string := ["image/png"; "image/jpeg"; "image/gif"].

Definition DefaultWorkspaceCapabilities : WorkspaceCapabilities :=
  mkWorkspaceCapabilities DefaultMaxTextFileBytes DefaultMaxInlineUploadBytes DefaultMaxInlineDownloadBytes
    DefaultMaxArchiveExpandedBytes DefaultMaxArchiveEntryCount.

Definition WorkspaceCapabilitiesForFrame (maxFrameBytes : Z) : res WorkspaceCapabilities :=
  if maxFrameBytes <? 8 then Err (ErrText "max frame bytes must allow a positive workspace payload")
  else
    let caps := DefaultWorkspaceCapabilities in
    let textLimit := maxFrameBytes / 8 in
    let binaryLimit := maxFrameBytes / 2 in
    Ok (mkWorkspaceCapabilities (wc_MaxTextFileBytes caps `min` textLimit)
          (wc_MaxInlineUploadBytes caps `min` binaryLimit) (wc_MaxInlineDownloadBytes caps `min` binaryLimit)
          (wc_MaxArchiveExpandedBytes caps) (wc_MaxArchiveEntryCount caps)).

Definition ImageAttachmentCapabilitiesForFrame (maxFrameBytes : Z) : res ImageAttachmentCapabilities :=
  if maxFrameBytes <? 2 then Err (ErrText "max frame bytes must allow a positive image payload")
  else Ok (mkImageCapabilities true (DefaultMaxImageUploadBytes `min` (maxFrameBytes / 2)) DefaultImageMIMETypes
             DefaultImageRetention_ms).

(** ** The service *)

(** [capability.New]. *)
Definition New (maxWatches maxPage : Z) : Capabilities :=
  mkCapabilities
    ["directories"; "sessions"; "history"; "watch_replay"; "approvals"; "user_input"; "interrupt"; "diagnostic_audit";
     "management_lease"; "unmanage_codex"; "rename_codex"; "forget_codex"; "workspace"]
    ["cli"; "vscode"; "exec"; "appServer"; "unknown"] maxWatches maxPage (Some DefaultWorkspaceCapabilities) None.

Definition SetWorkspaceCapabilities (v : option WorkspaceCapabilities) : M Capabilities unit :=
  match v with
  | Some v =>
      if (wc_MaxTextFileBytes v =? 0) || (wc_MaxInlineUploadBytes v =? 0) || (wc_MaxInlineDownloadBytes v =? 0) ||
         (wc_MaxArchiveExpandedBytes v =? 0) || (wc_MaxArchiveEntryCount v =? 0)
      then fail_msg "all workspace capability limits must be positive"
      else modify (set_cap_Workspace (Some v))
  | None => fail_msg "all workspace capability limits must be positive"
  end.

Definition image_mime (m : string) : bool :=
  negb (str_empty m) && bool_decide (m = ToLower m) && HasPrefix m "image/" && negb (Contains m ";").

Definition SetImageAttachmentCapabilities (v : option ImageAttachmentCapabilities) : M Capabilities unit :=
  match v with
  | Some v =>
      if negb (ic_Supported v) || (ic_MaxUploadBytes v =? 0) || (ic_UnreferencedRetentionMs v =? 0) ||
         (zlen (ic_SupportedMimeTypes v) =? 0)
      then fail_msg "supported image attachment capabilities require positive limits and MIME types"
      else if negb (forallb image_mime (ic_SupportedMimeTypes v))
      then fail_msg "image attachment MIME types must be lowercase image media types without parameters"
      else modify (set_cap_ImageAttachments (Some v))
  | None => fail_msg "supported image attachment capabilities require positive limits and MIME types"
  end.

(** The keys of the map [seen]. *)
Definition seen_sources (kinds sources : list string) : gset string :=
  list_to_set kinds ∪ list_to_set (filter (λ x, x ≠ "") (TrimSpace <$> sources)).

(** The keys come out in any order and are then sorted. *)
Definition ObserveSessionSources (sources : list string) (c : Capabilities) : Capabilities :=
  set_cap_SessionSourceKinds (merge_sort name_le (elements (seen_sources (cap_SessionSourceKinds c) sources))) c.

Definition Update (v : option Capabilities) (c : Capabilities) : Capabilities :=
  match v with Some v => v | None => c end.

(** ** The wiring of the Host *)

(** [workspaceServiceForFrame]: the limits the workspace service enforces. *)
Definition workspaceServiceForFrame (maxFrameBytes : Z) : res WorkspaceFiles.Config :=
  if maxFrameBytes <? 0 then Err (ErrText "max frame bytes must be positive")
  else match WorkspaceCapabilitiesForFrame maxFrameBytes with
       | Ok limits =>
           Ok (New_config (mkConfig (wc_MaxTextFileBytes limits) (wc_MaxInlineUploadBytes limits)
                 (wc_MaxInlineDownloadBytes limits) (wc_MaxArchiveExpandedBytes limits) (wc_MaxArchiveEntryCount limits)))
       | Err e => Err e
       end.

(** [workspace.Service.Capabilities]. *)
Definition workspace_Capabilities (cfg : WorkspaceFiles.Config) : WorkspaceCapabilities :=
  mkWorkspaceCapabilities (MaxTextFileBytes cfg) (MaxInlineUploadBytes cfg) (MaxInlineDownloadBytes cfg)
    (MaxArchiveExpandedBytes cfg) (MaxArchiveEntryCount cfg).

(** The part of [run] that configures and advertises the workspace and image services. *)
Definition host_limits (maxFrame maxPage : Z) (wd : res string) (attachmentsDir : string)
    : M FS (WorkspaceFiles.Config * Attachments * Capabilities) :=
  let caps := New 64 (u32 maxPage) in
  cfg ← of_res (match workspaceServiceForFrame maxFrame with
                | Err e => Err (ErrWrapped "configure workspace: " e "") | r => r end);
  let '(caps, r) := SetWorkspaceCapabilities (Some (workspace_Capabilities cfg)) caps in
  _ ← of_res (match r with Err e => Err (ErrWrapped "advertise workspace: " e "") | r => r end);
  images ← of_res (match ImageAttachmentCapabilitiesForFrame (u64 maxFrame) with
                   | Err e => Err (ErrWrapped "configure image attachments: " e "") | r => r end);
  r ← attempt (Attachments.New wd attachmentsDir true
                 (mkAttachmentConfig (ic_MaxUploadBytes images) (ic_SupportedMimeTypes images)));
  store ← of_res (match r with Err e => Err (ErrWrapped "open image attachment store: " e "") | r => r end);
  let '(caps, r) := SetImageAttachmentCapabilities (Some images) caps in
  _ ← of_res (match r with Err e => Err (ErrWrapped "advertise image attachments: " e "") | r => r end);
  mret (cfg, store, caps).

(** ** Properties *)

(** Length of the base64 text of [n] bytes, as ProtoJSON carries them. *)
Definition base64_length (n : Z) : Z := 4 * ((n + 2) / 3).

(** An image type in lower case without parameters. *)
Definition image_type (m : string) : Prop :=
  ∃ sub, chars m = chars "image/" ++ sub ∧ Forall (λ x, x ≠ ";"%char ∧ ¬ (65 ≤ nat_of_ascii x ≤ 90)%nat) sub.

Definition workspace_limits (v : WorkspaceCapabilities) : Prop :=
  wc_MaxTextFileBytes v ≠ 0 ∧ wc_MaxInlineUploadBytes v ≠ 0 ∧ wc_MaxInlineDownloadBytes v ≠ 0 ∧
  wc_MaxArchiveExpandedBytes v ≠ 0 ∧ wc_MaxArchiveEntryCount v ≠ 0.

Definition image_limits (v : ImageAttachmentCapabilities) : Prop :=
  ic_Supported v = true ∧ ic_MaxUploadBytes v ≠ 0 ∧ ic_UnreferencedRetentionMs v ≠ 0 ∧ ic_SupportedMimeTypes v ≠ [] ∧
  Forall image_type (ic_SupportedMimeTypes v).

(** A well-formed advertisement. *)
Record well_formed (c : Capabilities) : Prop := mkWellFormed {
  wf_watches : cap_MaxWatchesPerConnection c ≠ 0;
  wf_page : cap_MaxPageSize c ≠ 0;
  wf_sources : NoDup (cap_SessionSourceKinds c) ∧ "" ∉ cap_SessionSourceKinds c ∧
    ["cli"; "vscode"; "exec"; "appServer"; "unknown"] ⊆ cap_SessionSourceKinds c;
  wf_workspace : ∃ v, cap_Workspace c = Some v ∧ workspace_limits v;
  wf_images : ∀ v, cap_ImageAttachments c = Some v → image_limits v;
}.

(** The operations of the running service. *)
Inductive cap_op :=
| OpSetWorkspace (v : option WorkspaceCapabilities)
| OpSetImages (v : option ImageAttachmentCapabilities)
| OpObserve (sources : list string)
| OpUpdate (v : option Capabilities).

Definition run_cap (op : cap_op) (c : Capabilities) : Capabilities :=
  match op with
  | OpSetWorkspace v => (SetWorkspaceCapabilities v c).1
  | OpSetImages v => (SetImageAttachmentCapabilities v c).1
  | OpObserve sources => ObserveSessionSources sources c
  | OpUpdate v => Update v c
  end.

(** [Update] adopts a whole snapshot unchecked: its caller must bring a good one. *)
Definition good_update (op : cap_op) : Prop :=
  match op with OpUpdate (Some v) => well_formed v | _ => True end.

Definition run_caps (ops : list cap_op) (c : Capabilities) : Capabilities := foldl (λ c op, run_cap op c) c ops.

Lemma elem_of_seen kinds sources x :
  x ∈ seen_sources kinds sources ↔ x ∈ kinds ∨ x ≠ "" ∧ ∃ y, y ∈ sources ∧ x = TrimSpace y.
Proof.
  unfold seen_sources. rewrite elem_of_union, !elem_of_list_to_set, list_elem_of_filter, list_elem_of_fmap. naive_solver.
Qed.

Lemma elem_of_observed sources c x :
  x ∈ cap_SessionSourceKinds (ObserveSessionSources sources c) ↔
  x ∈ cap_SessionSourceKinds c ∨ x ≠ "" ∧ ∃ y, y ∈ sources ∧ x = TrimSpace y.
Proof. simpl. rewrite merge_sort_Permutation, elem_of_elements. apply elem_of_seen. Qed.

#[export] Instance name_le_total : Total name_le.
Proof. intros a b. unfold name_le. apply String.leb_total. Qed.

Lemma contains_char x l : contains_list [x] l = true ↔ x ∈ l.
Proof.
  induction l as [|y l IH]; simpl; [split; [done|by intros ?%not_elem_of_nil]|].
  rewrite orb_true_iff, andb_true_iff, Ascii.eqb_eq, IH, elem_of_cons. naive_solver.
Qed.

Lemma lower_char_same x : lower_char x = x ↔ ¬ (65 ≤ nat_of_ascii x ≤ 90)%nat.
Proof.
  unfold lower_char. destruct (_ && _) eqn:E.
  - apply andb_true_iff in E as [E1%Nat.leb_le E2%Nat.leb_le]. split; [|lia].
    intros Hx. apply (f_equal nat_of_ascii) in Hx. rewrite nat_ascii_embedding in Hx; lia.
  - split; [|done]. intros _. apply andb_false_iff in E as [E%Nat.leb_gt|E%Nat.leb_gt]; lia.
Qed.

Lemma ToLower_same m : m = ToLower m ↔ Forall (λ x, ¬ (65 ≤ nat_of_ascii x ≤ 90)%nat) (chars m).
Proof.
  unfold ToLower. rewrite <-(of_chars_chars m) at 1. split.
  - intros E. apply (f_equal chars) in E. rewrite !chars_of_chars in E. revert E.
    induction (chars m) as [|x l IH]; [done|]. simpl. intros [= E1 E2]. constructor; [by apply lower_char_same|by apply IH].
  - intros H. f_equal. induction H as [|x l Hx _ IH]; [done|]. rewrite fmap_cons, <-IH. by rewrite (proj2 (lower_char_same x) Hx).
Qed.

Lemma image_mime_type m : image_mime m = true ↔ image_type m.
Proof.
  unfold image_mime, image_type, HasPrefix, Contains.
  rewrite !andb_true_iff, !negb_true_iff, bool_decide_eq_true, is_prefix_spec, ToLower_same.
  change (chars ";") with [";"%char]. split.
  - intros [[[_ Hl] (sub&E)] Hc]. exists sub. split; [done|]. rewrite E in *. apply Forall_app in Hl as [_ Hl].
    apply Forall_forall. intros x Hx. split; [|by eapply Forall_forall in Hl].
    intros ->. apply not_true_iff_false in Hc. apply Hc, contains_char, elem_of_app. by right.
  - intros (sub&E&H). rewrite E. split_and!.
    + unfold str_empty. apply bool_decide_eq_false. by intros ->.
    + apply Forall_app. split; [repeat constructor; vm_compute; lia|]. eapply Forall_impl; [done|]. by intros x [_ ?].
    + by exists sub.
    + apply not_true_iff_false. rewrite contains_char, elem_of_app. intros [Hx|Hx].
      * revert Hx. apply (bool_decide_unpack _). by vm_compute.
      * by eapply Forall_forall in H as [? _].
Qed.

(** An offer is taken exactly when it is complete, and otherwise changes nothing. *)
Lemma SetWorkspace_exact v c :
  workspace_limits v ∧ SetWorkspaceCapabilities (Some v) c = (set_cap_Workspace (Some v) c, Ok ()) ∨
  ¬ workspace_limits v ∧ ∃ e, SetWorkspaceCapabilities (Some v) c = (c, Err e).
Proof.
  unfold SetWorkspaceCapabilities, workspace_limits. destruct (_ || _) eqn:E.
  - right. split; [|by eexists]. intros (?&?&?&?&?). rewrite !orb_true_iff, !Z.eqb_eq in E. naive_solver.
  - left. by to_prop.
Qed.

Lemma SetImages_exact v c :
  image_limits v ∧ SetImageAttachmentCapabilities (Some v) c = (set_cap_ImageAttachments (Some v) c, Ok ()) ∨
  ¬ image_limits v ∧ ∃ e, SetImageAttachmentCapabilities (Some v) c = (c, Err e).
Proof.
  unfold SetImageAttachmentCapabilities, image_limits. destruct (_ || _) eqn:E.
  { right. split; [|by eexists]. intros (E1&?&?&Hn&_). rewrite E1, !orb_true_iff, !Z.eqb_eq in E.
    destruct (ic_SupportedMimeTypes v); [done|]. unfold zlen in E. simpl in E. naive_solver lia. }
  assert (Forall image_type (ic_SupportedMimeTypes v) ↔ forallb image_mime (ic_SupportedMimeTypes v) = true) as Hm.
  { rewrite forallb_forall, Forall_forall. setoid_rewrite <-list_elem_of_In. by setoid_rewrite image_mime_type. }
  destruct (forallb _ _); simpl.
  - left. to_prop. split; [|done]. split_and!; try done; [by intros E'; rewrite E' in *|by apply Hm].
  - right. split; [|by eexists]. rewrite Hm. naive_solver.
Qed.

Lemma New_well_formed maxWatches maxPage : maxWatches ≠ 0 → maxPage ≠ 0 → well_formed (New maxWatches maxPage).
Proof.
  split; [done|done| |by eexists|done]. split_and!; [..|done]; simpl.
  - apply (bool_decide_unpack _). vm_compute. done.
  - apply (bool_decide_unpack _). vm_compute. done.
Qed.

Lemma run_cap_well_formed op c : good_update op → well_formed c → well_formed (run_cap op c).
Proof.
  intros Hop Hwf. pose proof Hwf as [H1 H2 (Hnd & Hne & Hbase) Hw Hi]. destruct op as [[v|]|[v|]|sources|[v|]]; cbn [run_cap]; try done.
  - destruct (SetWorkspace_exact v c) as [[? ->]|[_ [? ->]]]; [|done]. split; try done. by exists v.
  - destruct (SetImages_exact v c) as [[? ->]|[_ [? ->]]]; [|done]. split; try done. by intros v' [= <-].
  - split; try done. split_and!.
    + simpl. rewrite merge_sort_Permutation. apply NoDup_elements.
    + rewrite elem_of_observed. naive_solver.
    + intros x Hx. apply elem_of_observed. left. by apply Hbase.
Qed.


(** ** The limits fit a frame and are the ones that are enforced *)

Lemma base64_half n : 8 ≤ n → base64_length (n / 2) ≤ n.
Proof.
  intros Hn. unfold base64_length.
  pose proof (Z.div_mod n 2 ltac:(lia)). pose proof (Z.mod_pos_bound n 2 ltac:(lia)).
  pose proof (Z.div_mod (n / 2 + 2) 3 ltac:(lia)). pose proof (Z.mod_pos_bound (n / 2 + 2) 3 ltac:(lia)). lia.
Qed.

Lemma base64_mono a b : a ≤ b → base64_length a ≤ base64_length b.
Proof. intros H. unfold base64_length. pose proof (Z.div_le_mono (a + 2) (b + 2) 3 ltac:(lia) ltac:(lia)). lia. Qed.

Lemma WorkspaceCapabilitiesForFrame_spec n v : WorkspaceCapabilitiesForFrame n = Ok v →
  8 ≤ n ∧ 0 < wc_MaxTextFileBytes v ∧ 6 * wc_MaxTextFileBytes v < n ∧
  0 < wc_MaxInlineUploadBytes v ∧ base64_length (wc_MaxInlineUploadBytes v) ≤ n ∧
  0 < wc_MaxInlineDownloadBytes v ∧ base64_length (wc_MaxInlineDownloadBytes v) ≤ n ∧
  wc_MaxArchiveExpandedBytes v = DefaultMaxArchiveExpandedBytes ∧ wc_MaxArchiveEntryCount v = DefaultMaxArchiveEntryCount.
Proof.
  unfold WorkspaceCapabilitiesForFrame. destruct (n <? 8) eqn:E; [done|]. to_prop. intros [= <-]. simpl.
  pose proof (base64_half n E). pose proof (Z.div_mod n 8 ltac:(lia)). pose proof (Z.mod_pos_bound n 8 ltac:(lia)).
  pose proof (Z.div_le_lower_bound n 2 1 ltac:(lia) ltac:(lia)).
  change DefaultMaxTextFileBytes with 524288. change DefaultMaxInlineUploadBytes with 2097152.
  change DefaultMaxInlineDownloadBytes with 2097152.
  assert (base64_length (2097152 `min` (n / 2)) ≤ n) by (etrans; [apply base64_mono, Z.le_min_r|done]).
  split_and!; try done; lia.
Qed.

Lemma New_config_positive c :
  MaxTextFileBytes c ≠ 0 → MaxInlineUploadBytes c ≠ 0 → MaxInlineDownloadBytes c ≠ 0 → MaxArchiveExpandedBytes c ≠ 0 →
  MaxArchiveEntryCount c ≠ 0 → New_config c = c.
Proof. destruct c; simpl. intros. unfold New_config, or_default; simpl. by rewrite !bool_decide_false. Qed.

Lemma New_store wd root cfg s s' st : Attachments.New wd root true cfg s = (s', Ok st) →
  as_maxUploadBytes st = ac_MaxUploadBytes cfg ∧ as_supportedMIMEs st = ac_SupportedMIMETypes cfg.
Proof.
  unfold Attachments.New. destruct (_ || _); [done|]. destruct (_ || _); [done|].
  intros (s1 & u & _ & H)%M_bind_inv_ok. apply M_bind_inv_ok in H as (s2 & r & _ & H).
  apply M_bind_inv_ok in H as (s3 & u' & _ & H). by injection H as <- <-.
Qed.

(** The Host advertises exactly the limits it enforces, and they fit a frame.  When
    the wiring of the services for frames of [maxFrame] bytes succeeds, the advertised
    workspace limits are those of the workspace service and the advertised image limits
    those of the attachment store; all are positive; a text of the advertised size fits a
    frame even when each byte takes six in JSON, an upload or a download of the
    advertised size fits in base64, and an image takes at most half of the frame. *)
Theorem limits_advertised_and_enforced maxFrame maxPage wd dir s s' cfg store caps :
  maxFrame < 2 ^ 63 → host_limits maxFrame maxPage wd dir s = (s', Ok (cfg, store, caps)) →
  cap_Workspace caps = Some (workspace_Capabilities cfg) ∧
  0 < MaxTextFileBytes cfg ∧ 6 * MaxTextFileBytes cfg < maxFrame ∧
  0 < MaxInlineUploadBytes cfg ∧ base64_length (MaxInlineUploadBytes cfg) ≤ maxFrame ∧
  0 < MaxInlineDownloadBytes cfg ∧ base64_length (MaxInlineDownloadBytes cfg) ≤ maxFrame ∧
  ∃ v, cap_ImageAttachments caps = Some v ∧ ic_MaxUploadBytes v = as_maxUploadBytes store ∧
    ic_SupportedMimeTypes v = as_supportedMIMEs store ∧ 0 < as_maxUploadBytes store ∧ 2 * as_maxUploadBytes store ≤ maxFrame.
Proof.
  intros Hmax H. unfold host_limits in H. cbv zeta in H.
  apply M_bind_inv_ok in H as (s1 & c & H1 & H). injection H1 as <- H1.
  unfold workspaceServiceForFrame in H1. destruct (maxFrame <? 0) eqn:E0; [done|].
  destruct (WorkspaceCapabilitiesForFrame maxFrame) as [v|e] eqn:Ew; [|done]. injection H1 as <-.
  apply WorkspaceCapabilitiesForFrame_spec in Ew as (H8 & T1 & T2 & U1 & U2 & D1 & D2 & X & Y).
  rewrite New_config_positive in H by (simpl; rewrite ?X, ?Y; done || lia).
  unfold SetWorkspaceCapabilities, workspace_Capabilities in H. simpl in H.
  destruct (_ || _); [by apply M_bind_inv_ok in H as (? & ? & [=] & _)|].
  apply M_bind_inv_ok in H as (s2 & u & H2 & H). injection H2 as <- <-.
  apply M_bind_inv_ok in H as (s3 & im & H3 & H). injection H3 as <- H3.
  unfold ImageAttachmentCapabilitiesForFrame in H3. rewrite u64_small in H3 by (unfold u64_modulus; lia).
  destruct (maxFrame <? 2); [done|]. injection H3 as <-.
  apply M_bind_inv_ok in H as (s4 & r & H4 & H). unfold attempt in H4.
  destruct (Attachments.New _ _ _ _ _) as [s5 r'] eqn:En. injection H4 as <- <-.
  apply M_bind_inv_ok in H as (s6 & st & H6 & H). injection H6 as <- H6. destruct r' as [st'|e]; [|done]. injection H6 as ->.
  apply New_store in En as [Em Es]. simpl in Em, Es.
  destruct (_ || _); [by apply M_bind_inv_ok in H as (? & ? & [=] & _)|].
  destruct (negb _); [by apply M_bind_inv_ok in H as (? & ? & [=] & _)|]. unfold modify in H.
  apply M_bind_inv_ok in H as (s7 & u' & H7 & H). injection H7 as <- <-. injection H as <- <- <- <-. simpl.
  do 7 (split; [done|]). eexists. split; [done|]. simpl. rewrite Em, Es.
  pose proof (Z.mul_div_le maxFrame 2 ltac:(lia)). pose proof (Z.div_le_lower_bound maxFrame 2 1 ltac:(lia) ltac:(lia)).
  change DefaultMaxImageUploadBytes with 2097152. split_and!; [done|done|lia|lia].
Qed.

(** ** The default configuration of the Host *)

Module CapabilityDemo.

Definition fs : FS := mkFS (list_to_map [(["s"], mkInode NDir 448 0 0 1 0)]) [] [] 5.
Definition wired := host_limits (Z.shiftl 4 20) 100 (Ok "/") "/s/attachments" fs.
Definition limits : WorkspaceFiles.Config := mkConfig 524288 2097152 2097152 33554432 1000.
Definition store : Attachments := mkAttachments "/s/attachments" "/s/attachments/blobs" 2097152 DefaultImageMIMETypes.
Definition advertised : Capabilities := Eval vm_compute in match wired.2 with Ok (_, _, c) => c | Err _ => New 0 0 end.

Lemma wired_ok : host_limits (Z.shiftl 4 20) 100 (Ok "/") "/s/attachments" fs = (wired.1, Ok (limits, store, advertised)).
Proof. vm_compute. reflexivity. Qed.

Lemma limits_advertised_and_enforced_witness :
  wired.2 = Ok (limits, store, advertised) ∧ cap_Workspace advertised = Some (workspace_Capabilities limits).
Proof.
  split; [vm_compute; reflexivity|].
  destruct (limits_advertised_and_enforced (Z.shiftl 4 20) 100 (Ok "/") "/s/attachments" fs wired.1 limits store advertised)
    as [H _]; [reflexivity|exact wired_ok|exact H].
Defined.

(** The service is offered limits, a bad image type, a session source, and a snapshot. *)
Definition snapshot : Capabilities :=
  mkCapabilities ["directories"] ["cli"; "vscode"; "exec"; "appServer"; "unknown"; "web"] 8 50
    (Some DefaultWorkspaceCapabilities) None.
Definition offers : list cap_op :=
  [OpObserve [" web "; ""]; OpUpdate (Some snapshot); OpSetImages (Some (mkImageCapabilities true 10 ["image/PNG"] 5));
   OpSetImages (Some (mkImageCapabilities true 10 ["image/png"] 5)); OpSetWorkspace None].

Lemma snapshot_wf : well_formed snapshot.
Proof.
  split; [done|done| |by eexists|done]. split_and!; [apply (bool_decide_unpack _); by vm_compute..|].
  change (cap_SessionSourceKinds snapshot) with (["cli"; "vscode"; "exec"; "appServer"; "unknown"] ++ ["web"]).
  intros x Hx. apply elem_of_app. by left.
Qed.


End CapabilityDemo.
