(* ===== verification/Directory.v ===== *)
(** * The directory service (internal/directory/service.go)

    Normalisation of the directory a client names and its preparation on disk. *)

From Stdlib Require Import Ascii String.
From stdpp Require Import base tactics numbers list sorting gmap strings pretty.
From S2P Require Import Prelude GoError GoStrings Sha256 GoPath FileSystem FileCalls.
Local Open Scope string_scope.
Local Open Scope nat_scope.
Local Open Scope list_scope.

(** What [os.UserHomeDir] and [os.Getwd] return. *)
Record process_env := mkEnv {
  env_home : res string;
  env_wd : res string;
}.

(** [directory.Service]. *)
Record Service := mkDirectories { ds_Base : string }.

Record Prepared := mkPrepared {
  pr_Path : string;
  pr_Created : bool;
}.

(** A leading tilde. *)
Definition expand_home (env : process_env) (path : string) : res string :=
  if bool_decide (path = "~") || HasPrefix path "~/" then
    match env_home env with
    | Ok home => Ok (Join [home; TrimPrefix path "~/"])
    | Err e => Err e
    end
  else Ok path.

(** A relative path is taken from the base directory. *)
Definition from_base (env : process_env) (sv : Service) (path : string) : res string :=
  if IsAbs path then Ok path
  else match (if str_empty (ds_Base sv) then env_wd env else Ok (ds_Base sv)) with
       | Ok base => Ok (Join [base; path])
       | Err e => Err e
       end.

Definition Normalize (env : process_env) (sv : Service) (path : string) : res string :=
  let path := TrimSpace path in
  if str_empty path then Err (ErrText "directory path is empty")
  else match expand_home env path with
       | Err e => Err e
       | Ok path =>
           match from_base env sv path with
           | Err e => Err e
           | Ok path => Abs (env_wd env) (Clean path)
           end
       end.

Definition Prepare (env : process_env) (sv : Service) (path : string) (create : bool) : M FS Prepared :=
  normalized ← of_res (Normalize env sv path);
  r ← attempt (Stat normalized);
  match r with
  | Ok info => if negb (fi_IsDir info) then fail_msg (normalized +:+ " is not a directory") else mret (mkPrepared normalized false)
  | Err e =>
      if negb (errorsIs e ErrNotExist) then throw e
      else if negb create then fail_msg ("directory does not exist: " +:+ normalized)
      else
        r ← attempt (MkdirAll normalized 493);
        match r with
        | Err e => throw (ErrWrapped ("create directory " +:+ normalized +:+ ": ") e "")
        | Ok _ => mret (mkPrepared normalized true)
        end
  end.

(** ** Creating the missing directories *)

Lemma walk_grown n t t' d todo r : grown t t' → walk n t d todo = Ok r → walk n t' d todo = Ok r.
Proof.
  intros Hg. revert d todo. induction n as [n IHn] using lt_wf_ind. intros d todo.
  revert d. induction todo as [|c rest IH]; intros d; [by rewrite !walk_nil|].
  rewrite !walk_cons. unfold walk_comp. destruct (_ || _); [apply IH|]. case_bool_decide; [apply IH|].
  destruct (t !! (d ++ [c])) as [i|] eqn:Hi; [|done]. rewrite (Hg _ _ Hi).
  destruct (in_node i); [done|apply IH| |done]. destruct n as [|n]; [done|]. apply IHn. lia.
Qed.

(** One more component in a directory reached. *)
Lemma walk_snoc n t d xs e c i : walk n t d xs = Ok e → is_dir_at t e = true → normal c →
  t !! (e ++ [c]) = Some i → in_node i = NDir → walk n t d (xs ++ [c]) = Ok (e ++ [c]).
Proof.
  intros Hw He Hc Hi Hd. revert d xs Hw. induction n as [n IHn] using lt_wf_ind. intros d xs.
  revert d. induction xs as [|x rest IH]; intros d.
  { rewrite walk_nil. intros [= ->]. simpl. rewrite walk_cons. unfold walk_comp. destruct Hc as (_ & H1 & H2 & H3).
    rewrite !bool_decide_false by done. simpl. by rewrite Hi, Hd, walk_nil. }
  rewrite <- app_comm_cons, !walk_cons. unfold walk_comp. destruct (_ || _); [apply IH|]. case_bool_decide; [apply IH|].
  destruct (t !! (d ++ [x])) as [j|] eqn:Hj; [|done].
  destruct (in_node j) eqn:Ej; [|apply IH| |].
  - destruct rest; [|done]. intros [= <-]. exfalso. unfold is_dir_at in He. rewrite Hj in He.
    unfold fi_IsDir in He. rewrite Ej in He. by destruct (d ++ [x]) eqn:E; [apply snoc_ne in E|].
  - destruct n as [|n]; [done|]. rewrite app_assoc. apply IHn. lia.
  - destruct rest; [|done]. intros [= <-]. exfalso. unfold is_dir_at in He. rewrite Hj in He.
    unfold fi_IsDir in He. rewrite Ej in He. by destruct (d ++ [x]) eqn:E; [apply snoc_ne in E|].
Qed.

(** [q] names a directory. *)
Definition names_dir (t : tree) (q : string) : Prop := ∃ i, follow t q = Ok i ∧ in_node i = NDir.

Lemma names_dir_grown t t' q : grown t t' → names_dir t q → names_dir t' q.
Proof.
  intros Hg (i & Hf & Hd). exists i. split; [|done]. unfold follow in *.
  destruct (walk _ t _ _) as [r|] eqn:E; [|done]. rewrite (walk_grown _ _ _ _ _ _ Hg E).
  destruct (t !! r) as [j|] eqn:Hj; [|done]. by rewrite (Hg _ _ Hj).
Qed.

Lemma locate_snoc t cs c : Forall normal (cs ++ [c]) →
  locate t (apath (cs ++ [c])) =
  match walk max_links t [] cs with
  | Ok d => if is_dir_at t d then Ok (d ++ [c])%list else Err ENOTDIR
  | Err e => Err e
  end.
Proof. intros Hn. unfold locate. rewrite pcomps_apath by done. rewrite rev_app_distr. simpl. by rewrite rev_involutive. Qed.

Lemma mkdir_missing_names_dir t0 perm cs c : Forall normal (cs ++ [c]) →
  triple (λ t, grown t0 t) (mkdir_missing perm (apath (cs ++ [c]))) (λ r t, grown t0 t ∧
    match r with Ok _ => names_dir t (apath (cs ++ [c])) | Err _ => True end).
Proof.
  intros Hn. unfold mkdir_missing.
  fs_try (λ (r : res inode) t, grown t0 t ∧ match r with Ok i => follow t (apath (cs ++ [c])) = Ok i | Err _ => True end).
  { apply (triple_read _ (λ t, follow t _)); [|auto]. intros t Ht. split; [done|]. by destruct (follow t _). }
  destruct a as [i|e].
  - destruct (fi_IsDir i) eqn:Hi; [apply triple_ret|apply triple_throw; by intros t []]. intros t [Ht Hf]. split; [done|].
    exists i. split; [done|]. unfold fi_IsDir in Hi. by destruct (in_node i).
  - destruct (errorsIs e ErrNotExist); [|apply triple_throw; by intros t []].
    apply triple_sys; [|by intros e' t _ []]. intros s s' r [Ht _] H. rewrite locate_snoc in H by done.
    destruct (walk max_links (fs_tree s) [] cs) as [d|] eqn:Hw; [|by simplify_eq].
    destruct (is_dir_at (fs_tree s) d) eqn:Hd; [|by simplify_eq].
    destruct (fs_tree s !! (d ++ [c])) as [j|] eqn:Hj; simplify_eq; [done|]. simpl.
    assert (grown (fs_tree s) (<[d ++ [c] := new_inode NDir perm s]> (fs_tree s))) as Hg by by apply grown_insert.
    split; [by etrans|]. exists (new_inode NDir perm s). split; [|done]. unfold follow. rewrite walk_apath by done.
    apply Forall_app in Hn as [_ Hc]. apply Forall_cons in Hc as [Hc _].
    rewrite (walk_snoc _ _ _ _ d c (new_inode NDir perm s)); [by rewrite lookup_insert_eq| | |done|apply lookup_insert_eq|done].
    + by eapply walk_grown.
    + unfold is_dir_at in *. destruct d as [|x d]; [done|]. destruct (fs_tree s !! (x :: d)) as [k|] eqn:Hk; [|done].
      by rewrite (Hg _ _ Hk).
Qed.

Lemma mfor_snoc {S A} (l : list A) x (body : A → M S unit) s :
  mfor (l ++ [x]) body s = (mfor l body ≫= λ _, body x) s.
Proof.
  revert s. induction l as [|y l IH]; intros s; simpl.
  - unfold mbind, M_bind, mret, M_ret. by destruct (body x s) as [s' [[]|e]].
  - unfold mbind, M_bind in *. destruct (body y s) as [s' [u|e]]; [apply IH|done].
Qed.

Lemma MkdirAll_names_dir t0 perm cs : Forall normal cs →
  triple (λ t, grown t0 t) (MkdirAll (apath cs) perm) (λ r t, grown t0 t ∧
    match r with Ok _ => cs = [] ∨ names_dir t (apath cs) | Err _ => True end).
Proof.
  intros Hn. unfold MkdirAll. rewrite pcomps_apath by done.
  assert (∀ n, n ≤ length cs → triple (λ t, grown t0 t)
    (mfor ((λ n, apath (take n cs)) <$> seq 1 n) (mkdir_missing perm)) (λ r t, grown t0 t ∧
      match r with Ok _ => n = 0 ∨ names_dir t (apath (take n cs)) | Err _ => True end)) as Hall.
  { induction n as [|n IH]; intros Hle.
    - apply triple_ret. auto.
    - rewrite seq_S, fmap_app. intros s s' r Ht H. simpl in H. rewrite mfor_snoc in H.
      apply M_bind_inv_any in H as (s1 & r1 & H1 & H). apply IH in H1 as [H1 _]; [|lia|done].
      destruct r1 as [u|e]; [|destruct H as [-> ->]; done].
      destruct (lookup_lt_is_Some_2 cs n) as [c Hc]; [lia|]. rewrite (take_S_r _ _ _ Hc) in *.
      apply (mkdir_missing_names_dir t0) in H as [? ?]; [|by rewrite <- (take_S_r _ _ _ Hc); apply Forall_take|done].
      split; [done|]. destruct r; auto. }
  eapply triple_post; [by apply (Hall (length cs))|]. intros [u|e] t [Hg H]; [|done]. split; [done|].
  rewrite take_ge in H by done. destruct H as [H|H]; [left; by apply nil_length_inv|by right].
Qed.

(** ** Properties *)

(** The working directory is a rooted path. *)
Definition rooted_env (env : process_env) : Prop := ∀ wd, env_wd env = Ok wd → IsAbs wd = true.

Lemma Abs_rooted wd p q : (∀ d, wd = Ok d → IsAbs d = true) → Abs wd p = Ok q → ∃ cs, Forall normal cs ∧ q = apath cs.
Proof.
  intros Hwd. unfold Abs. destruct (IsAbs p) eqn:E; [intros [= <-]; by apply Clean_rooted|].
  destruct wd as [d|e]; [|done]. intros [= <-]. simpl. specialize (Hwd d eq_refl).
  destruct (str_empty d) eqn:Ed; [apply str_empty_spec in Ed; by subst|]. apply Clean_rooted.
  unfold IsAbs, HasPrefix in *. rewrite chars_app. apply is_prefix_spec in Hwd as [k ->].
  apply is_prefix_spec. simpl. eauto.
Qed.

Lemma Normalize_rooted env sv path p : rooted_env env → Normalize env sv path = Ok p → ∃ cs, Forall normal cs ∧ p = apath cs.
Proof.
  intros He. unfold Normalize. destruct (str_empty _); [done|]. destruct (expand_home _ _) as [q|]; [|done].
  destruct (from_base _ _ _) as [q'|]; [|done]. by apply Abs_rooted.
Qed.

Lemma Prepare_spec env sv path create s s' r :
  rooted_env env → (∃ i, fs_tree s !! [] = Some i ∧ in_node i = NDir) → Prepare env sv path create s = (s', r) →
  grown (fs_tree s) (fs_tree s') ∧ (create = false → fs_tree s' = fs_tree s) ∧
  match r with
  | Ok p => Normalize env sv path = Ok (pr_Path p) ∧ (∃ cs, Forall normal cs ∧ pr_Path p = apath cs) ∧
      names_dir (fs_tree s') (pr_Path p) ∧
      if pr_Created p then create = true ∧ ¬ ∃ i, follow (fs_tree s) (pr_Path p) = Ok i else fs_tree s' = fs_tree s
  | Err _ => True
  end.
Proof.
  intros He (root & Hr & Hrd) H. unfold Prepare in H. apply M_bind_inv_any in H as (s1 & r1 & H1 & H). injection H1 as <- <-.
  destruct (Normalize env sv path) as [p|e] eqn:En; [|destruct H as [-> ->]; done].
  destruct (Normalize_rooted _ _ _ _ He En) as (cs & Hcs & ->).
  apply M_bind_inv_any in H as (s2 & r2 & H2 & H). unfold attempt in H2.
  destruct (Stat (apath cs) s) as [s2' r2'] eqn:Es. injection H2 as <- <-. pose proof (Stat_inv _ _ _ _ Es) as [Et Hok].
  destruct r2' as [i|e].
  - destruct (fi_IsDir i) eqn:Ei; injection H as <- <-; rewrite Et; [|done]. split_and!; [done..|by exists cs| |done].
    exists i. split; [by apply Hok|]. unfold fi_IsDir in Ei. by destruct (in_node i).
  - destruct (errorsIs e ErrNotExist) eqn:Ee; simpl in H; [|by injection H as <- <-; rewrite Et].
    destruct create; simpl in H; [|by injection H as <- <-; rewrite Et].
    apply M_bind_inv_any in H as (s3 & r3 & H3 & H). unfold attempt in H3.
    destruct (MkdirAll _ _ s2') as [s3' r3'] eqn:Em. injection H3 as <- <-.
    apply (MkdirAll_names_dir (fs_tree s) 493 cs Hcs) in Em as [Hg Hdir]; [|by rewrite Et].
    destruct r3' as [u|e']; injection H as <- <-; split_and!; try done; [by exists cs| |]; simpl.
    + destruct Hdir as [->|?]; [|done]. exists root. split; [|done]. unfold follow. simpl. by rewrite (Hg _ _ Hr).
    + split; [done|]. intros [i Hi]. unfold Stat, sys in Es.
      assert (errorsIs e ErrNotExist = false) as He'; [|congruence].
      destruct (fs_faults s) as [|[[e' n]|] l]; injection Es as <- Ef; [by rewrite Hi in Ef| |by rewrite Hi in Ef].
      subst e. apply fault_err_exists.
Qed.

(** What preparing a directory does.  When [Prepare] succeeds, the path it returns is
    the normalised one, rooted and clean, and names a directory; nothing was created
    unless it says so, it says so only when creation was asked for and the path named
    nothing before.  Whatever happens, no entry of the disk is changed or removed, and
    without leave to create nothing is added either. *)
Theorem prepared_directory env sv path create s s' r :
  rooted_env env → (∃ i, fs_tree s !! [] = Some i ∧ in_node i = NDir) → Prepare env sv path create s = (s', r) →
  grown (fs_tree s) (fs_tree s') ∧ (create = false → fs_tree s' = fs_tree s) ∧
  match r with
  | Ok p => Normalize env sv path = Ok (pr_Path p) ∧ (∃ cs, Forall normal cs ∧ pr_Path p = apath cs) ∧
      names_dir (fs_tree s') (pr_Path p) ∧
      if pr_Created p then create = true ∧ ¬ ∃ i, follow (fs_tree s) (pr_Path p) = Ok i else fs_tree s' = fs_tree s
  | Err _ => True
  end.
Proof. apply Prepare_spec. Qed.

(** ** Concrete directories *)

Module DirectoryDemo.

Definition env : process_env := mkEnv (Ok "/home/u") (Ok "/srv").
Definition dir : inode := mkInode NDir 493 0 0 1 0.
Definition disk : FS := mkFS (list_to_map [([], dir); (["srv"], dir)]) [] [] 10.

Lemma env_rooted : rooted_env env.
Proof. intros wd [= <-]. reflexivity. Qed.

Lemma disk_root : ∃ i, fs_tree disk !! [] = Some i ∧ in_node i = NDir.
Proof. exists dir. split; vm_compute; reflexivity. Qed.

Definition made := Prepare env (mkDirectories "") " a/../b/c " true disk.

Lemma prepared_directory_witness :
  made.2 = Ok (mkPrepared "/srv/b/c" true) ∧ names_dir (fs_tree made.1) "/srv/b/c".
Proof.
  assert (Prepare env (mkDirectories "") " a/../b/c " true disk = (made.1, Ok (mkPrepared "/srv/b/c" true))) as Hm
    by (vm_compute; reflexivity).
  split; [vm_compute; reflexivity|].
  exact (proj1 (proj2 (proj2 (proj2 (proj2 (prepared_directory env (mkDirectories "") " a/../b/c " true disk made.1 _ env_rooted disk_root Hm)))))).
Defined.

(** The tilde alone is taken for the home directory by the test, but it is not removed by
    [strings.TrimPrefix(path, "~/")]: the path that results is a child of it. *)
Lemma tilde_names_a_child : Normalize env (mkDirectories "") "~" = Ok "/home/u/~" ∧ Normalize env (mkDirectories "") "~/" = Ok "/home/u".
Proof. split; vm_compute; reflexivity. Qed.

End DirectoryDemo.
