(* ===== verification/Runtime.v ===== *)
(** * The runtime supervisor (internal/runtime/manager.go)

    [runtime.Manager] keeps one app-server process running and one connection to it: it
    starts the process, reconnects when the connection is lost, restarts the process when
    it exits or when a restart is asked for, and gives up after a bounded number of
    failures.  The model is a transition system.  [Start] and then [supervise] run on one
    thread, whose position is a [point]; every branch of a [select] is a [choice], enabled
    when its channel is ready.  Forwarders, the goroutines of deferred restarts, callers of
    the methods, and the processes and adapters themselves take steps in between. *)

From Stdlib Require Import Ascii String.
From stdpp Require Import base tactics numbers list gmap strings relations.
From S2P Require Import Prelude GoError GoStrings.
Local Open Scope string_scope.
Local Open Scope Z_scope.
Local Open Scope list_scope.

(** ** Data *)

Inductive Status := StatusStarting | StatusReady | StatusRestarting | StatusStopped | StatusFailed.

#[export] Instance Status_eq_dec : EqDecision Status.
Proof. solve_decision. Defined.

(** [adapter.InitializeResult]. *)
Record InitializeResult := mkInitializeResult {
  ir_UserAgent : string;
  ir_CodexHome : string;
  ir_PlatformFamily : string;
  ir_PlatformOS : string;
}.

Definition no_server : InitializeResult := mkInitializeResult "" "" "" "".

Record State := mkState {
  rs_Status : Status;
  rs_RestartCount : Z;
  rs_StartedAt : Z;             (* 0 is the zero time *)
  rs_AppServer : InitializeResult;
  rs_Err : option goerr;
}.

(** [runtime.Config], without its callbacks; durations are nanoseconds. *)
Record Config := mkConfig {
  cf_Executable : string;
  cf_BaseArgs : list string;
  cf_SocketPath : string;
  cf_StartTimeout : Z;
  cf_ConnectInterval : Z;
  cf_MaxRestarts : Z;
  cf_Backoff : list Z;
  cf_StopTimeout : Z;
  cf_AppServerReadLimit : Z;
}.

Definition milliseconds (n : Z) : Z := n * 1000000.

(** The defaults of [New]. *)
Definition New_config (cfg : Config) : Config :=
  mkConfig
    (if str_empty (cf_Executable cfg) then "codex" else cf_Executable cfg)
    (match cf_BaseArgs cfg with [] => ["app-server"] | l => l end)
    (cf_SocketPath cfg)
    (if cf_StartTimeout cfg =? 0 then milliseconds 10000 else cf_StartTimeout cfg)
    (if cf_ConnectInterval cfg =? 0 then milliseconds 25 else cf_ConnectInterval cfg)
    (if cf_MaxRestarts cfg =? 0 then 3 else cf_MaxRestarts cfg)
    (match cf_Backoff cfg with [] => [milliseconds 50; milliseconds 200; milliseconds 1000] | l => l end)
    (if cf_StopTimeout cfg =? 0 then milliseconds 2000 else cf_StopTimeout cfg)
    (cf_AppServerReadLimit cfg).

(** An app-server process: how it ended, once it has, and whether its end was received
    (from the channel [exited] or by [cmd.Wait]). *)
Record process := mkProcess {
  p_exit : option (option goerr);
  p_reaped : bool;
}.

Section Runtime.
Context {E : Type}.

(** What the manager sees of an adapter: the process it was connected to, [Done()],
    [ActiveTurnCount()], the buffer of [Idle()], and the events of [Events()] with the
    number of them that were received. *)
Record adapter_view := mkAdapter {
  a_proc : nat;
  a_done : bool;
  a_active : nat;
  a_idle : bool;
  a_events : list E;
  a_taken : nat;
}.

(** Who called [startInstance]: [Start], or the restart loop at an attempt. *)
Inductive starter :=
| ByStart
| ByRestart (attempt : Z) (planned : bool).

(** What follows [waitForProcess]. *)
Inductive after_wait :=
| ThenStop
| ThenLeave (ad : nat) (planned : bool) (exitErr : option goerr).

(** Where [Start] and [supervise] are. *)
Inductive point :=
| Fresh                                                              (* [Start] was not called *)
| Launching (k : starter) (count : Z)                                (* in [startInstance], before [cmd.Start] *)
| Connecting (k : starter) (count : Z) (p : nat)                     (* in its [connectAdapter] *)
| Reaping (k : starter) (p : nat) (err : goerr)                      (* killed, in [cmd.Wait] *)
| LoopTop
| Select (p ad : nat) (exitErr : option goerr)                       (* [connectionLoop] *)
| Reconnect (p ad : nat) (attempt startedAt : Z) (exitErr : option goerr)
| Dialing (p ad : nat) (attempt startedAt : Z) (exitErr : option goerr)
| Waiting (p : nat) (killed : bool) (next : after_wait)              (* [waitForProcess] *)
| Leave (ad : nat) (planned : bool) (exitErr : option goerr)         (* after [connectionLoop] *)
| Backoff (attempt : Z) (planned : bool)
| CloseEvents | CloseStates | CloseDone                              (* the deferred calls *)
| Ended.

Record runtime := mkRuntime {
  rt_ctx : bool;  (* m.ctx is set *)
  rt_cancelled : bool;  (* and cancelled *)
  rt_state : State;
  rt_current : option nat;  (* index of an adapter *)
  rt_cmd : option nat;  (* index of a process *)
  rt_planned : bool;
  rt_plannedWatcher : bool;
  rt_stopping : bool;
  rt_states : list State;  (* buffer of the channel *)
  rt_statesClosed : bool;
  rt_events : list (nat * E);  (* buffer of the channel *)
  rt_eventsClosed : bool;
  rt_wake : bool;  (* buffer of the channel *)
  rt_done : bool;  (* closed *)
  rt_forwards : list (nat * option E);  (* goroutines of forwardWG and the event they hold *)
  rt_watchers : list nat;  (* goroutines of a deferred restart *)
  rt_adapters : list adapter_view;  (* every adapter ever made *)
  rt_procs : list process;  (* every process ever started *)
  rt_main : point;  (* where Start or supervise is *)
  rt_panic : bool;  (* a send on or a close of a closed channel, a nil adapter, an index out of range *)
  rt_restarts : Z;  (* history: restarts begun *)
  rt_sent : list (nat * E);  (* history: events put on the channel *)
}.

Definition set_rt_ctx (x : bool) (r : runtime) : runtime :=
  mkRuntime x (rt_cancelled r) (rt_state r) (rt_current r) (rt_cmd r) (rt_planned r) (rt_plannedWatcher r)
    (rt_stopping r) (rt_states r) (rt_statesClosed r) (rt_events r) (rt_eventsClosed r) (rt_wake r) (rt_done r)
    (rt_forwards r) (rt_watchers r) (rt_adapters r) (rt_procs r) (rt_main r) (rt_panic r) (rt_restarts r)
    (rt_sent r).
Definition set_rt_cancelled (x : bool) (r : runtime) : runtime :=
  mkRuntime (rt_ctx r) x (rt_state r) (rt_current r) (rt_cmd r) (rt_planned r) (rt_plannedWatcher r)
    (rt_stopping r) (rt_states r) (rt_statesClosed r) (rt_events r) (rt_eventsClosed r) (rt_wake r) (rt_done r)
    (rt_forwards r) (rt_watchers r) (rt_adapters r) (rt_procs r) (rt_main r) (rt_panic r) (rt_restarts r)
    (rt_sent r).
Definition set_rt_state (x : State) (r : runtime) : runtime :=
  mkRuntime (rt_ctx r) (rt_cancelled r) x (rt_current r) (rt_cmd r) (rt_planned r) (rt_plannedWatcher r)
    (rt_stopping r) (rt_states r) (rt_statesClosed r) (rt_events r) (rt_eventsClosed r) (rt_wake r) (rt_done r)
    (rt_forwards r) (rt_watchers r) (rt_adapters r) (rt_procs r) (rt_main r) (rt_panic r) (rt_restarts r)
    (rt_sent r).
Definition set_rt_current (x : option nat) (r : runtime) : runtime :=
  mkRuntime (rt_ctx r) (rt_cancelled r) (rt_state r) x (rt_cmd r) (rt_planned r) (rt_plannedWatcher r)
    (rt_stopping r) (rt_states r) (rt_statesClosed r) (rt_events r) (rt_eventsClosed r) (rt_wake r) (rt_done r)
    (rt_forwards r) (rt_watchers r) (rt_adapters r) (rt_procs r) (rt_main r) (rt_panic r) (rt_restarts r)
    (rt_sent r).
Definition set_rt_cmd (x : option nat) (r : runtime) : runtime :=
  mkRuntime (rt_ctx r) (rt_cancelled r) (rt_state r) (rt_current r) x (rt_planned r) (rt_plannedWatcher r)
    (rt_stopping r) (rt_states r) (rt_statesClosed r) (rt_events r) (rt_eventsClosed r) (rt_wake r) (rt_done r)
    (rt_forwards r) (rt_watchers r) (rt_adapters r) (rt_procs r) (rt_main r) (rt_panic r) (rt_restarts r)
    (rt_sent r).
Definition set_rt_planned (x : bool) (r : runtime) : runtime :=
  mkRuntime (rt_ctx r) (rt_cancelled r) (rt_state r) (rt_current r) (rt_cmd r) x (rt_plannedWatcher r)
    (rt_stopping r) (rt_states r) (rt_statesClosed r) (rt_events r) (rt_eventsClosed r) (rt_wake r) (rt_done r)
    (rt_forwards r) (rt_watchers r) (rt_adapters r) (rt_procs r) (rt_main r) (rt_panic r) (rt_restarts r)
    (rt_sent r).
Definition set_rt_plannedWatcher (x : bool) (r : runtime) : runtime :=
  mkRuntime (rt_ctx r) (rt_cancelled r) (rt_state r) (rt_current r) (rt_cmd r) (rt_planned r) x
    (rt_stopping r) (rt_states r) (rt_statesClosed r) (rt_events r) (rt_eventsClosed r) (rt_wake r) (rt_done r)
    (rt_forwards r) (rt_watchers r) (rt_adapters r) (rt_procs r) (rt_main r) (rt_panic r) (rt_restarts r)
    (rt_sent r).
Definition set_rt_stopping (x : bool) (r : runtime) : runtime :=
  mkRuntime (rt_ctx r) (rt_cancelled r) (rt_state r) (rt_current r) (rt_cmd r) (rt_planned r)
    (rt_plannedWatcher r) x (rt_states r) (rt_statesClosed r) (rt_events r) (rt_eventsClosed r) (rt_wake r)
    (rt_done r) (rt_forwards r) (rt_watchers r) (rt_adapters r) (rt_procs r) (rt_main r) (rt_panic r)
    (rt_restarts r) (rt_sent r).
Definition set_rt_states (x : list State) (r : runtime) : runtime :=
  mkRuntime (rt_ctx r) (rt_cancelled r) (rt_state r) (rt_current r) (rt_cmd r) (rt_planned r)
    (rt_plannedWatcher r) (rt_stopping r) x (rt_statesClosed r) (rt_events r) (rt_eventsClosed r) (rt_wake r)
    (rt_done r) (rt_forwards r) (rt_watchers r) (rt_adapters r) (rt_procs r) (rt_main r) (rt_panic r)
    (rt_restarts r) (rt_sent r).
Definition set_rt_statesClosed (x : bool) (r : runtime) : runtime :=
  mkRuntime (rt_ctx r) (rt_cancelled r) (rt_state r) (rt_current r) (rt_cmd r) (rt_planned r)
    (rt_plannedWatcher r) (rt_stopping r) (rt_states r) x (rt_events r) (rt_eventsClosed r) (rt_wake r)
    (rt_done r) (rt_forwards r) (rt_watchers r) (rt_adapters r) (rt_procs r) (rt_main r) (rt_panic r)
    (rt_restarts r) (rt_sent r).
Definition set_rt_events (x : list (nat * E)) (r : runtime) : runtime :=
  mkRuntime (rt_ctx r) (rt_cancelled r) (rt_state r) (rt_current r) (rt_cmd r) (rt_planned r)
    (rt_plannedWatcher r) (rt_stopping r) (rt_states r) (rt_statesClosed r) x (rt_eventsClosed r) (rt_wake r)
    (rt_done r) (rt_forwards r) (rt_watchers r) (rt_adapters r) (rt_procs r) (rt_main r) (rt_panic r)
    (rt_restarts r) (rt_sent r).
Definition set_rt_eventsClosed (x : bool) (r : runtime) : runtime :=
  mkRuntime (rt_ctx r) (rt_cancelled r) (rt_state r) (rt_current r) (rt_cmd r) (rt_planned r)
    (rt_plannedWatcher r) (rt_stopping r) (rt_states r) (rt_statesClosed r) (rt_events r) x (rt_wake r)
    (rt_done r) (rt_forwards r) (rt_watchers r) (rt_adapters r) (rt_procs r) (rt_main r) (rt_panic r)
    (rt_restarts r) (rt_sent r).
Definition set_rt_wake (x : bool) (r : runtime) : runtime :=
  mkRuntime (rt_ctx r) (rt_cancelled r) (rt_state r) (rt_current r) (rt_cmd r) (rt_planned r)
    (rt_plannedWatcher r) (rt_stopping r) (rt_states r) (rt_statesClosed r) (rt_events r) (rt_eventsClosed r) x
    (rt_done r) (rt_forwards r) (rt_watchers r) (rt_adapters r) (rt_procs r) (rt_main r) (rt_panic r)
    (rt_restarts r) (rt_sent r).
Definition set_rt_done (x : bool) (r : runtime) : runtime :=
  mkRuntime (rt_ctx r) (rt_cancelled r) (rt_state r) (rt_current r) (rt_cmd r) (rt_planned r)
    (rt_plannedWatcher r) (rt_stopping r) (rt_states r) (rt_statesClosed r) (rt_events r) (rt_eventsClosed r)
    (rt_wake r) x (rt_forwards r) (rt_watchers r) (rt_adapters r) (rt_procs r) (rt_main r) (rt_panic r)
    (rt_restarts r) (rt_sent r).
Definition set_rt_forwards (x : list (nat * option E)) (r : runtime) : runtime :=
  mkRuntime (rt_ctx r) (rt_cancelled r) (rt_state r) (rt_current r) (rt_cmd r) (rt_planned r)
    (rt_plannedWatcher r) (rt_stopping r) (rt_states r) (rt_statesClosed r) (rt_events r) (rt_eventsClosed r)
    (rt_wake r) (rt_done r) x (rt_watchers r) (rt_adapters r) (rt_procs r) (rt_main r) (rt_panic r)
    (rt_restarts r) (rt_sent r).
Definition set_rt_watchers (x : list nat) (r : runtime) : runtime :=
  mkRuntime (rt_ctx r) (rt_cancelled r) (rt_state r) (rt_current r) (rt_cmd r) (rt_planned r)
    (rt_plannedWatcher r) (rt_stopping r) (rt_states r) (rt_statesClosed r) (rt_events r) (rt_eventsClosed r)
    (rt_wake r) (rt_done r) (rt_forwards r) x (rt_adapters r) (rt_procs r) (rt_main r) (rt_panic r)
    (rt_restarts r) (rt_sent r).
Definition set_rt_adapters (x : list adapter_view) (r : runtime) : runtime :=
  mkRuntime (rt_ctx r) (rt_cancelled r) (rt_state r) (rt_current r) (rt_cmd r) (rt_planned r)
    (rt_plannedWatcher r) (rt_stopping r) (rt_states r) (rt_statesClosed r) (rt_events r) (rt_eventsClosed r)
    (rt_wake r) (rt_done r) (rt_forwards r) (rt_watchers r) x (rt_procs r) (rt_main r) (rt_panic r)
    (rt_restarts r) (rt_sent r).
Definition set_rt_procs (x : list process) (r : runtime) : runtime :=
  mkRuntime (rt_ctx r) (rt_cancelled r) (rt_state r) (rt_current r) (rt_cmd r) (rt_planned r)
    (rt_plannedWatcher r) (rt_stopping r) (rt_states r) (rt_statesClosed r) (rt_events r) (rt_eventsClosed r)
    (rt_wake r) (rt_done r) (rt_forwards r) (rt_watchers r) (rt_adapters r) x (rt_main r) (rt_panic r)
    (rt_restarts r) (rt_sent r).
Definition set_rt_main (x : point) (r : runtime) : runtime :=
  mkRuntime (rt_ctx r) (rt_cancelled r) (rt_state r) (rt_current r) (rt_cmd r) (rt_planned r)
    (rt_plannedWatcher r) (rt_stopping r) (rt_states r) (rt_statesClosed r) (rt_events r) (rt_eventsClosed r)
    (rt_wake r) (rt_done r) (rt_forwards r) (rt_watchers r) (rt_adapters r) (rt_procs r) x (rt_panic r)
    (rt_restarts r) (rt_sent r).
Definition set_rt_panic (x : bool) (r : runtime) : runtime :=
  mkRuntime (rt_ctx r) (rt_cancelled r) (rt_state r) (rt_current r) (rt_cmd r) (rt_planned r)
    (rt_plannedWatcher r) (rt_stopping r) (rt_states r) (rt_statesClosed r) (rt_events r) (rt_eventsClosed r)
    (rt_wake r) (rt_done r) (rt_forwards r) (rt_watchers r) (rt_adapters r) (rt_procs r) (rt_main r) x
    (rt_restarts r) (rt_sent r).
Definition set_rt_restarts (x : Z) (r : runtime) : runtime :=
  mkRuntime (rt_ctx r) (rt_cancelled r) (rt_state r) (rt_current r) (rt_cmd r) (rt_planned r)
    (rt_plannedWatcher r) (rt_stopping r) (rt_states r) (rt_statesClosed r) (rt_events r) (rt_eventsClosed r)
    (rt_wake r) (rt_done r) (rt_forwards r) (rt_watchers r) (rt_adapters r) (rt_procs r) (rt_main r)
    (rt_panic r) x (rt_sent r).
Definition set_rt_sent (x : list (nat * E)) (r : runtime) : runtime :=
  mkRuntime (rt_ctx r) (rt_cancelled r) (rt_state r) (rt_current r) (rt_cmd r) (rt_planned r)
    (rt_plannedWatcher r) (rt_stopping r) (rt_states r) (rt_statesClosed r) (rt_events r) (rt_eventsClosed r)
    (rt_wake r) (rt_done r) (rt_forwards r) (rt_watchers r) (rt_adapters r) (rt_procs r) (rt_main r)
    (rt_panic r) (rt_restarts r) x.

(** [New]. *)
Definition New : runtime :=
  mkRuntime false false (mkState StatusStopped 0 0 no_server None) None None false false false [] false [] false false
    false [] [] [] [] Fresh false 0 [].

Definition panic (r : runtime) : runtime := set_rt_panic true r.

(** ** State and channels *)

Definition publishState (s : State) (r : runtime) : runtime :=
  if rt_statesClosed r then panic r
  else if zlen (rt_states r) <? 32 then set_rt_states (rt_states r ++ [s]) r
  else r.

Definition setState (s : State) (r : runtime) : runtime := publishState s (set_rt_state s r).

Definition close_events (r : runtime) : runtime := if rt_eventsClosed r then panic r else set_rt_eventsClosed true r.
Definition close_states (r : runtime) : runtime := if rt_statesClosed r then panic r else set_rt_statesClosed true r.
Definition close_done (r : runtime) : runtime := if rt_done r then panic r else set_rt_done true r.

Definition goto (pt : point) (r : runtime) : runtime := set_rt_main pt r.

(** [m.State()] and [m.Adapter()]. *)
Definition restart_count (r : runtime) : Z := rs_RestartCount (rt_state r).

Definition Adapter (r : runtime) : res nat :=
  match rt_current r with
  | Some ad => if bool_decide (rs_Status (rt_state r) = StatusReady) then Ok ad else Err (ErrSentinel ErrNotReady)
  | None => Err (ErrSentinel ErrNotReady)
  end.

(** ** Callers *)

Definition wake_up (r : runtime) : runtime := set_rt_wake true r.

Definition RequestRestart (r : runtime) : runtime * res unit :=
  if rt_stopping r then (r, Err (ErrText "runtime stopping"))
  else match rt_current r with
  | Some ad =>
      match rt_adapters r !! ad with
      | Some v =>
          if (0 <? a_active v)%nat then
            let r := set_rt_planned true r in
            (if rt_plannedWatcher r then r
             else set_rt_watchers (rt_watchers r ++ [ad]) (set_rt_plannedWatcher true r),
             Err (ErrSentinel ErrRestartDeferred))
          else (wake_up (set_rt_planned true r), Ok tt)
      | None => (panic r, Ok tt)
      end
  | None => (wake_up (set_rt_planned true r), Ok tt)
  end.

(** [Close] up to its final [select], which waits for [done] or for the caller's context;
    what it does to the process and to the connection is left to their own steps. *)
Definition Close (r : runtime) : runtime :=
  if rt_ctx r then set_rt_cancelled true (set_rt_stopping true r) else r.

Definition Close_result (r : runtime) (ctxErr : option goerr) : option (res unit) :=
  if negb (rt_ctx r) then Some (Ok tt)
  else if rt_done r then Some (Ok tt)
  else match ctxErr with Some e => Some (Err e) | None => None end.

(** ** Starting an instance *)

(** What the calls of [startInstance] before [connectAdapter] return. *)
Record launch := mkLaunch {
  la_mkdir : res unit;
  la_lstat : option (res bool);      (* [None]: no such file; otherwise whether it is a socket *)
  la_dial : res unit;
  la_remove : res unit;
  la_pipe : res unit;
  la_start : res unit;
}.

Definition removeStaleSocket (path : string) (l : launch) : res unit :=
  match la_lstat l with
  | None => Ok tt
  | Some (Err e) => Err e
  | Some (Ok false) => Err (ErrText ("socket path exists and is not a socket: " +:+ path))
  | Some (Ok true) =>
      match la_dial l with
      | Ok _ => Err (ErrText ("socket already has a listener: " +:+ path))
      | Err _ => la_remove l
      end
  end.

Definition prepare_instance (cfg : Config) (l : launch) : res unit :=
  if str_empty (cf_SocketPath cfg) then Err (ErrText "socket path is required")
  else _ ← la_mkdir l; _ ← removeStaleSocket (cf_SocketPath cfg) l; _ ← la_pipe l; la_start l.

(** Dialling until it works or the start context ends ([Some] its error), then the
    handshake. *)
Fixpoint connectAdapter (failed : list (option goerr)) (initialize : res InitializeResult) : res InitializeResult :=
  match failed with
  | [] => match initialize with Ok i => Ok i | Err e => Err (ErrWrapped "initialize app-server: " e "") end
  | None :: failed => connectAdapter failed initialize
  | Some e :: _ => Err (ErrWrapped "wait for app-server socket: " e "")
  end.

(** [startInstance], up to the first call. *)
Definition begin_start (k : starter) (r : runtime) : runtime :=
  let count := match k with ByRestart _ _ => u64_incr (restart_count r) | ByStart => restart_count r end in
  let status := match k with ByRestart _ _ => StatusRestarting | ByStart => StatusStarting end in
  let r := match k with ByRestart _ _ => set_rt_restarts (rt_restarts r + 1) r | ByStart => r end in
  goto (Launching k count) (setState (mkState status count 0 no_server None) r).

(** Its error, as the caller handles it. *)
Definition start_failed (cfg : Config) (k : starter) (err : goerr) (r : runtime) : runtime :=
  match k with
  | ByStart =>
      let r := setState (mkState StatusFailed 0 0 no_server (Some err)) r in
      goto Ended (close_states (close_events (close_done (set_rt_cancelled true r))))
  | ByRestart attempt planned =>
      if cf_MaxRestarts cfg <=? attempt then
        goto CloseEvents (setState (mkState StatusFailed (restart_count r) 0 no_server (Some err)) r)
      else goto (Backoff (attempt + 1) planned) r
  end.

(** A new adapter, connected to the process [p], in the place of the current one. *)
Definition install_adapter (p : nat) (s : State) (r : runtime) : runtime * nat :=
  let ad := length (rt_adapters r) in
  let r := set_rt_adapters (rt_adapters r ++ [mkAdapter p false 0 false [] 0]) r in
  let r := publishState s (set_rt_state s (set_rt_current (Some ad) r)) in
  (set_rt_forwards (rt_forwards r ++ [(ad, None)]) r, ad).

(** Its success. *)
Definition start_succeeded (k : starter) (count now : Z) (p : nat) (info : InitializeResult) (r : runtime) : runtime :=
  let '(r, _) := install_adapter p (mkState StatusReady count now info None) (set_rt_cmd (Some p) r) in
  goto LoopTop (match k with ByStart => r | ByRestart _ _ => set_rt_plannedWatcher false (set_rt_planned false r) end).

(** ** [Start] and [supervise] *)

(** The branch a [select] takes, or what the calls made in between return. *)
Inductive choice :=
| Proceed
| OnExit | OnCancel | OnWake | OnDisconnect | OnTimer
| DoLaunch (l : launch)
| DoConnect (failed : list (option goerr)) (initialize : res InitializeResult) (now : Z).

(** [<-exited]: the end of the process, once. *)
Definition receive_exit (p : nat) (r : runtime) : option (option goerr * runtime) :=
  match rt_procs r !! p with
  | Some (mkProcess (Some e) false) => Some (e, set_rt_procs (<[p := mkProcess (Some e) true]> (rt_procs r)) r)
  | _ => None
  end.

Definition restarting (err : option goerr) (r : runtime) : State := mkState StatusRestarting (restart_count r) 0 no_server err.
Definition stopped : State := mkState StatusStopped 0 0 no_server None.

Definition adapter_done (ad : nat) (r : runtime) : bool :=
  match rt_adapters r !! ad with Some v => a_done v | None => false end.

(** The delay is taken from [cfg.Backoff] at an index that must exist. *)
Definition backoff_index (cfg : Config) (i : Z) : bool :=
  let j := i `min` (zlen (cf_Backoff cfg) - 1) in (0 <=? j) && (j <? zlen (cf_Backoff cfg)).

Definition delay (cfg : Config) (i : Z) (r : runtime) (k : runtime → option runtime) : option runtime :=
  if backoff_index cfg i then k r else Some (panic r).

Definition stop (r : runtime) : runtime := goto CloseEvents (setState stopped r).

Definition resume_after (next : after_wait) (r : runtime) : runtime :=
  match next with
  | ThenStop => stop r
  | ThenLeave ad planned exitErr => goto (Leave ad planned exitErr) r
  end.

(** One turn of [connectionLoop]. *)
Definition connection_select (c : choice) (p ad : nat) (exitErr : option goerr) (r : runtime) : option runtime :=
  match c with
  | OnExit =>
      '(e, r) ← receive_exit p r;
      Some (goto (Leave ad false e) (setState (restarting e r) r))
  | OnCancel => if rt_cancelled r then Some (goto (Waiting p false ThenStop) r) else None
  | OnWake =>
      if rt_wake r then
        let r := set_rt_wake false r in
        Some (goto (Waiting p false (ThenLeave ad true exitErr)) (setState (restarting None r) r))
      else None
  | OnDisconnect =>
      if adapter_done ad r then
        if rt_cancelled r then Some (goto (Waiting p false ThenStop) r)
        else
          let previous := rt_state r in
          let r := setState (mkState StatusRestarting (rs_RestartCount previous) (rs_StartedAt previous)
                               (rs_AppServer previous) (Some (ErrSentinel ErrDisconnected))) r in
          Some (goto (Reconnect p ad 0 (rs_StartedAt previous) exitErr) (set_rt_current None r))
      else None
  | _ => None
  end.

(** The head of the reconnection loop and its delay. *)
Definition reconnect_head (cfg : Config) (c : choice) (p ad : nat) (attempt startedAt : Z) (exitErr : option goerr)
    (r : runtime) : option runtime :=
  if cf_MaxRestarts cfg <? attempt then
    match c with
    | Proceed => Some (goto (Waiting p false (ThenLeave ad false exitErr)) r)
    | _ => None
    end
  else if 0 <? attempt then
    delay cfg (attempt - 1) r (λ r,
      match c with
      | OnTimer => Some (goto (Dialing p ad attempt startedAt exitErr) r)
      | OnExit => '(e, r) ← receive_exit p r; Some (goto (Leave ad false e) r)
      | OnCancel => if rt_cancelled r then Some (goto (Waiting p false ThenStop) r) else None
      | _ => None
      end)
  else match c with Proceed => Some (goto (Dialing p ad attempt startedAt exitErr) r) | _ => None end.

(** The head of the restart loop and its delay. *)
Definition backoff_head (cfg : Config) (c : choice) (attempt : Z) (planned : bool) (r : runtime) : option runtime :=
  if negb planned || (0 <? attempt) then
    delay cfg attempt r (λ r,
      match c with
      | OnTimer => Some (begin_start (ByRestart attempt planned) r)
      | OnCancel => if rt_cancelled r then Some (stop r) else None
      | _ => None
      end)
  else match c with Proceed => Some (begin_start (ByRestart attempt planned) r) | _ => None end.

(** [Start], up to the first call of [startInstance]. *)
Definition Start (r : runtime) : runtime * res unit :=
  if rt_ctx r then (r, Err (ErrText "runtime already started")) else (begin_start ByStart (set_rt_ctx true r), Ok tt).

(** One step of the thread. *)
Definition main_step (cfg : Config) (c : choice) (r : runtime) : option runtime :=
  match rt_main r, c with
  | Fresh, Proceed => Some (Start r).1
  | Launching k count, DoLaunch l =>
      match prepare_instance cfg l with
      | Err e => Some (start_failed cfg k e r)
      | Ok _ =>
          let p := length (rt_procs r) in
          Some (goto (Connecting k count p) (set_rt_procs (rt_procs r ++ [mkProcess None false]) r))
      end
  | Connecting k count p, DoConnect failed initialize now =>
      match connectAdapter failed initialize with
      | Err e => Some (goto (Reaping k p e) r)
      | Ok info => Some (start_succeeded k count now p info r)
      end
  | Reaping k p e, OnExit => '(_, r) ← receive_exit p r; Some (start_failed cfg k e r)
  | LoopTop, Proceed =>
      match rt_cmd r, rt_current r with
      | None, _ => Some (goto CloseEvents r)
      | Some p, Some ad => Some (goto (Select p ad None) r)
      | Some _, None => Some (panic r)
      end
  | Select p ad exitErr, c => connection_select c p ad exitErr r
  | Reconnect p ad attempt startedAt exitErr, c => reconnect_head cfg c p ad attempt startedAt exitErr r
  | Dialing p ad attempt startedAt exitErr, DoConnect failed initialize _ =>
      match connectAdapter failed initialize with
      | Err e => Some (goto (Reconnect p ad (attempt + 1) startedAt (Some e)) r)
      | Ok info =>
          let '(r, ad) := install_adapter p (mkState StatusReady (restart_count r) startedAt info None) r in
          Some (goto (Select p ad exitErr) r)
      end
  | Waiting p killed next, OnExit => '(_, r) ← receive_exit p r; Some (resume_after next r)
  | Waiting p false next, OnTimer => Some (goto (Waiting p true next) r)
  | Leave ad planned exitErr, Proceed => Some (goto (Backoff 0 planned) (set_rt_cmd None (set_rt_current None r)))
  | Backoff attempt planned, c => backoff_head cfg c attempt planned r
  | CloseEvents, Proceed => match rt_forwards r with [] => Some (goto CloseStates (close_events r)) | _ => None end
  | CloseStates, Proceed => Some (goto CloseDone (close_states r))
  | CloseDone, Proceed => Some (goto Ended (close_done r))
  | _, _ => None
  end.

(** ** The other goroutines *)

(** The goroutine of a deferred restart. *)
Definition watcher_step (i : nat) (cancel : bool) (r : runtime) : option runtime :=
  ad ← rt_watchers r !! i;
  let rest := take i (rt_watchers r) ++ drop (S i) (rt_watchers r) in
  if cancel then if rt_cancelled r then Some (set_rt_watchers rest r) else None
  else
    v ← rt_adapters r !! ad;
    if a_idle v then
      Some (wake_up (set_rt_watchers rest
        (set_rt_adapters (<[ad := mkAdapter (a_proc v) (a_done v) (a_active v) false (a_events v) (a_taken v)]> (rt_adapters r)) r)))
    else None.

(** [forwardEvents]: receive an event, pass it on, or return. *)
Definition forward_step (i : nat) (cancel : bool) (r : runtime) : option runtime :=
  '(ad, held) ← rt_forwards r !! i;
  let rest := take i (rt_forwards r) ++ drop (S i) (rt_forwards r) in
  match held with
  | Some e =>
      if cancel then if rt_cancelled r then Some (set_rt_forwards rest r) else None
      else if rt_eventsClosed r then Some (panic r)
      else if zlen (rt_events r) <? 256 then
        Some (set_rt_forwards (<[i := (ad, None)]> (rt_forwards r))
               (set_rt_sent (rt_sent r ++ [(ad, e)]) (set_rt_events (rt_events r ++ [(ad, e)]) r)))
      else None
  | None =>
      v ← rt_adapters r !! ad;
      match a_events v !! a_taken v with
      | Some e =>
          Some (set_rt_forwards (<[i := (ad, Some e)]> (rt_forwards r))
            (set_rt_adapters (<[ad := mkAdapter (a_proc v) (a_done v) (a_active v) (a_idle v) (a_events v) (S (a_taken v))]>
               (rt_adapters r)) r))
      | None => if a_done v then Some (set_rt_forwards rest r) else None
      end
  end.

(** ** The processes, the adapters and the readers of the channels *)

Inductive env_step : runtime → runtime → Prop :=
| env_exit r p e :                                    (* a process ends *)
    rt_procs r !! p = Some (mkProcess None false) →
    env_step r (set_rt_procs (<[p := mkProcess (Some e) false]> (rt_procs r)) r)
| env_adapter r ad v v' :                             (* turns begin and end, events arrive, the connection ends *)
    rt_adapters r !! ad = Some v → a_proc v' = a_proc v → a_taken v' = a_taken v →
    (a_done v = true → a_done v' = true ∧ (a_idle v' = true → a_idle v = true)) → (∃ l, a_events v' = a_events v ++ l) →
    (a_done v = true → a_events v' = a_events v) →
    env_step r (set_rt_adapters (<[ad := v']> (rt_adapters r)) r)
| env_read_state r s l : rt_states r = s :: l → env_step r (set_rt_states l r)
| env_read_event r x l : rt_events r = x :: l → env_step r (set_rt_events l r).

(** ** Runs *)

Inductive rt_step (cfg : Config) : runtime → runtime → Prop :=
| step_main c r r' : rt_panic r = false → main_step cfg c r = Some r' → rt_step cfg r r'
| step_restart r : rt_step cfg r (RequestRestart r).1
| step_close r : rt_step cfg r (Close r)
| step_watcher i cancel r r' : watcher_step i cancel r = Some r' → rt_step cfg r r'
| step_forward i cancel r r' : forward_step i cancel r = Some r' → rt_step cfg r r'
| step_env r r' : env_step r r' → rt_step cfg r r'.

(** The states of a manager made by [New]. *)
Definition rt_reach (cfg : Config) (r : runtime) : Prop := rtc (rt_step (New_config cfg)) New r.

End Runtime.
Arguments runtime E : clear implicits.
Arguments adapter_view E : clear implicits.
