(* ===== verification/RuntimeTheorems.v ===== *)
(** * The runtime supervisor: theorems

    An invariant of every reachable state of the manager, the bound on its restarts, and a
    deferred restart that never happens. *)

From Stdlib Require Import Ascii String.
From stdpp Require Import base tactics numbers list gmap strings relations.
From S2P Require Import Prelude GoError GoStrings Runtime.
Local Open Scope string_scope.
Local Open Scope Z_scope.
Local Open Scope list_scope.

Section Theorems.
Context {E : Type} (cfg : Config).
Implicit Types (r : runtime E) (pt : point).

(** ** The invariant *)

(** The process the thread is responsible for. *)
Definition held r : option nat :=
  match rt_main r with
  | LoopTop => rt_cmd r
  | Connecting _ _ p | Reaping _ p _ | Select p _ _ | Reconnect p _ _ _ _ | Dialing p _ _ _ _ | Waiting p _ _ => Some p
  | _ => None
  end.

Definition is_live r (p : nat) : Prop := ∃ x, rt_procs r !! p = Some x ∧ p_exit x = None.

(** The process and the adapter in use belong together. *)
Definition attached r (p ad : nat) : Prop :=
  rt_cmd r = Some p ∧ rt_current r = Some ad ∧ ∃ v, rt_adapters r !! ad = Some v ∧ a_proc v = p.

(** What each position says of the state. *)
Definition at_point r : Prop :=
  match rt_main r with
  | LoopTop => ∃ p ad, attached r p ad
  | Select p ad _ => attached r p ad
  | Waiting p _ ThenStop => rs_Status (rt_state r) = StatusReady → ∃ ad, attached r p ad
  | Launching k count =>
      rs_Status (rt_state r) ≠ StatusReady ∧ count = restart_count r ∧
      match k with ByStart => rt_forwards r = [] | ByRestart attempt _ => 0 ≤ attempt end
  | Connecting k count _ =>
      rs_Status (rt_state r) ≠ StatusReady ∧ count = restart_count r ∧
      match k with ByStart => rt_forwards r = [] | ByRestart attempt _ => 0 ≤ attempt end
  | Reaping k _ _ =>
      rs_Status (rt_state r) ≠ StatusReady ∧ match k with ByStart => rt_forwards r = [] | ByRestart attempt _ => 0 ≤ attempt end
  | Reconnect p _ attempt _ _ =>
      rs_Status (rt_state r) ≠ StatusReady ∧ 0 ≤ attempt ∧ rt_cmd r = Some p
  | Dialing p _ attempt _ _ =>
      rs_Status (rt_state r) ≠ StatusReady ∧ 0 ≤ attempt ≤ cf_MaxRestarts cfg ∧ rt_cmd r = Some p
  | Backoff attempt _ => rs_Status (rt_state r) ≠ StatusReady ∧ 0 ≤ attempt
  | Fresh => rs_Status (rt_state r) ≠ StatusReady ∧ rt_ctx r = false ∧ rt_forwards r = []
  | _ => rs_Status (rt_state r) ≠ StatusReady
  end.

Definition past_events pt : bool := match pt with CloseStates | CloseDone | Ended => true | _ => false end.
Definition past_states pt : bool := match pt with CloseDone | Ended => true | _ => false end.
Definition past_done pt : bool := match pt with Ended => true | _ => false end.
Definition closing pt : bool := match pt with CloseEvents | CloseStates | CloseDone | Ended => true | _ => false end.

(** Every process that runs is the thread's, and its end was not received yet. *)
Definition procs_ok r : Prop :=
  (∀ p, is_live r p → held r = Some p) ∧
  (∀ p, held r = Some p → ∃ x, rt_procs r !! p = Some x ∧ p_reaped x = false).

Record rt_core r : Prop := mkCore {
  iv_panic : rt_panic r = false;
  iv_point : at_point r;
  iv_current : ∀ ad, rt_current r = Some ad → is_Some (rt_adapters r !! ad);
  iv_events : rt_eventsClosed r = past_events (rt_main r);
  iv_states : rt_statesClosed r = past_states (rt_main r);
  iv_done : rt_done r = past_done (rt_main r);
  iv_forwards : rt_eventsClosed r = true → rt_forwards r = [];
  iv_count : closing (rt_main r) = false → restart_count r = u64 (rt_restarts r);
}.

Definition rt_inv r : Prop := procs_ok r ∧ rt_core r.

Lemma New_inv : rt_inv (New : runtime E).
Proof.
  split; [|by split]. split; [|done]. intros p (x & Hx & _). done.
Qed.

(** ** Processes *)

(** No process runs. *)
Definition quiet r : Prop := ∀ p, ¬ is_live r p.

Lemma procs_frame r r' : rt_procs r' = rt_procs r → held r' = held r → procs_ok r → procs_ok r'.
Proof. intros Ep Eh [H1 H2]. unfold procs_ok, is_live. by rewrite Ep, Eh. Qed.

Lemma procs_quiet r r' : rt_procs r' = rt_procs r → held r' = None → quiet r → procs_ok r'.
Proof. intros Ep Eh H. unfold procs_ok. rewrite Eh. split; [|done]. intros p Hp. destruct (H p). unfold is_live in *. by rewrite <- Ep. Qed.

Lemma unheld_quiet r : procs_ok r → held r = None → quiet r.
Proof. intros [H _] Eh p Hp. apply H in Hp. congruence. Qed.

Lemma receive_exit_inv r p e r' : procs_ok r → held r = Some p → receive_exit p r = Some (e, r') →
  quiet r' ∧ ∃ l, r' = set_rt_procs l r.
Proof.
  intros [Hl _] Hh. unfold receive_exit. destruct (rt_procs r !! p) as [[[x|] []]|] eqn:Ep; intros [= <- <-].
  split; [|by eexists]. intros q (y & Hy & Hn). simpl in Hy. destruct (decide (q = p)) as [->|Hq].
  - rewrite list_lookup_insert_eq in Hy by by eapply lookup_lt_Some. injection Hy as <-. done.
  - rewrite list_lookup_insert_ne in Hy by done. assert (held r = Some q) by (apply Hl; by exists y). congruence.
Qed.

(** A process is started where none runs. *)
Lemma procs_launch r r' : rt_procs r' = rt_procs r ++ [mkProcess None false] → held r' = Some (length (rt_procs r)) →
  quiet r → procs_ok r'.
Proof.
  intros Ep Eh Hq. unfold procs_ok, is_live. rewrite Ep, Eh. split.
  - intros p (x & [Hx|[Hp Hx]]%lookup_app_Some & Hn); [destruct (Hq p); by exists x|].
    apply list_lookup_singleton_Some in Hx as [Hx _]. f_equal. lia.
  - intros p [= <-]. exists (mkProcess None false). split; [|done]. by rewrite lookup_app_r, Nat.sub_diag.
Qed.

(** ** Publishing *)

Lemma publish_open s r : rt_statesClosed r = false → ∃ l, publishState s r = set_rt_states l r.
Proof.
  intros Ho. unfold publishState. rewrite Ho. case_match; [eauto|]. exists (rt_states r). by destruct r.
Qed.

Lemma setState_open s r : rt_statesClosed r = false → ∃ l, setState s r = set_rt_states l (set_rt_state s r).
Proof. intros Ho. unfold setState. by apply publish_open. Qed.

(** ** Steps of the thread *)

(** Publish, then look at every field of the new state. *)
Ltac publish :=
  repeat match goal with
  | |- context [setState ?s ?x] =>
      let l := fresh "l" in let H := fresh in
      destruct (setState_open s x) as [l H]; [simpl; congruence|rewrite H; clear H]
  | |- context [publishState ?s ?x] =>
      let l := fresh "l" in let H := fresh in
      destruct (publish_open s x) as [l H]; [simpl; congruence|rewrite H; clear H]
  end.

Ltac core_case H Em :=
  let Hp := fresh "Hpt" in
  pose proof (iv_point _ H) as Hp; destruct H; unfold at_point, restart_count in *;
  rewrite Em in *; simpl in *; split; simpl; unfold at_point, restart_count, attached in *; simpl; try done; try congruence.

Lemma begin_start_inv k r : rt_core r → quiet r → closing (rt_main r) = false →
  match k with ByStart => rt_forwards r = [] | ByRestart attempt _ => 0 ≤ attempt end → rt_inv (begin_start k r).
Proof.
  intros Hc Hq Hcl Hk. pose proof (iv_states _ Hc) as Hs. pose proof (iv_events _ Hc) as He.
  assert (rt_statesClosed r = false ∧ rt_eventsClosed r = false ∧ rt_done r = false) as (Hs' & He' & Hd').
  { pose proof (iv_done _ Hc). by destruct (rt_main r). }
  pose proof (iv_count _ Hc Hcl) as Hn.
  unfold begin_start. destruct k as [|attempt planned]; publish; (split; [by eapply procs_quiet; [..|exact Hq]|]);
    destruct Hc; split; simpl; unfold at_point, restart_count in *; simpl; try done; try congruence.
  intros _. rewrite Hn. unfold u64_incr, u64. by rewrite Zplus_mod_idemp_l.
Qed.

Lemma not_closing r : rt_core r → closing (rt_main r) = false →
  rt_statesClosed r = false ∧ rt_eventsClosed r = false ∧ rt_done r = false.
Proof. intros [] H. by destruct (rt_main r). Qed.

Lemma start_failed_inv k e r : rt_core r → quiet r → closing (rt_main r) = false → rs_Status (rt_state r) ≠ StatusReady →
  match k with ByStart => rt_forwards r = [] | ByRestart attempt _ => 0 ≤ attempt end → rt_inv (start_failed cfg k e r).
Proof.
  intros Hc Hq Hcl Hst Hk. destruct (not_closing r Hc Hcl) as (Hs' & He' & Hd'). pose proof (iv_count _ Hc Hcl) as Hn.
  unfold start_failed. destruct k as [|attempt planned]; [|destruct (_ <=? _)]; publish.
  - unfold close_done. simpl. rewrite Hd'. unfold close_events. simpl. rewrite He'. unfold close_states. simpl. rewrite Hs'.
    split; [by eapply procs_quiet; [..|exact Hq]|]. destruct Hc; split; simpl; unfold at_point; simpl; try done; congruence.
  - split; [by eapply procs_quiet; [..|exact Hq]|]. destruct Hc; split; simpl; unfold at_point; simpl; try done; congruence.
  - split; [by eapply procs_quiet; [..|exact Hq]|]. destruct Hc; split; simpl; unfold at_point; simpl; try done; try congruence.
    split; [done|lia].
Qed.

Lemma install_adapter_inv p s r : rt_core r → closing (rt_main r) = false →
  ∃ l ad, ad = length (rt_adapters r) ∧ install_adapter p s r =
    (set_rt_forwards (rt_forwards r ++ [(ad, None)]) (set_rt_states l (set_rt_state s (set_rt_current (Some ad)
       (set_rt_adapters (rt_adapters r ++ [mkAdapter p false 0 false [] 0]) r)))), ad).
Proof.
  intros Hc Hcl. destruct (not_closing r Hc Hcl) as (Hs' & _). unfold install_adapter. publish.
  eexists _, _. split; [done|]. done.
Qed.

Lemma start_succeeded_inv k count now p info r : rt_inv r → rt_main r = Connecting k count p →
  rt_inv (start_succeeded k count now p info r).
Proof.
  intros [Hp Hc] Em. pose proof (iv_point _ Hc) as Hpt. unfold at_point in Hpt. rewrite Em in Hpt.
  destruct Hpt as (Hst & -> & Hk). unfold start_succeeded.
  destruct (not_closing r Hc) as (Hs' & He' & Hd'); [by rewrite Em|]. pose proof (iv_count _ Hc) as Hn. rewrite Em in Hn. specialize (Hn eq_refl).
  destruct (install_adapter_inv p (mkState StatusReady (restart_count r) now info None) (set_rt_cmd (Some p) r)) as (l & ad & Ead & ->);
    [destruct Hc; split; unfold at_point in *; simpl; rewrite Em in *; done|simpl; by rewrite Em|]. simpl in Ead.
  assert (attached (set_rt_cmd (Some p) (set_rt_current (Some ad)
       (set_rt_adapters (rt_adapters r ++ [mkAdapter p false 0 false [] 0]) r))) p ad) as Hat.
  { split_and!; [done..|]. exists (mkAdapter p false 0 false [] 0). simpl. split; [|done].
    by rewrite Ead, lookup_app_r, Nat.sub_diag. }
  destruct k as [|attempt planned]; (split; [eapply procs_frame; [..|exact Hp]; unfold held; simpl; by rewrite ?Em|]);
    destruct Hc; split; simpl; unfold at_point, restart_count in *; simpl; try done; try congruence;
    try (by exists p, ad); intros ad' [= <-]; destruct Hat as (_ & _ & v & Hv & _); simpl in Hv; by rewrite Hv.
Qed.

Lemma stop_inv r : rt_core r → quiet r → closing (rt_main r) = false → rt_inv (stop r).
Proof.
  intros Hc Hq Hcl. destruct (not_closing r Hc Hcl) as (Hs' & He' & Hd'). unfold stop. publish.
  split; [by eapply procs_quiet; [..|exact Hq]|]. destruct Hc; split; simpl; unfold at_point; simpl; try done; congruence.
Qed.

(** Moving on with the same process, or after its end. *)
Lemma goto_inv pt r : rt_core r → closing (rt_main r) = false → closing pt = false → at_point (goto pt r) →
  procs_ok (goto pt r) → rt_inv (goto pt r).
Proof.
  intros Hc Hcl Hcl' Hpt Hp. destruct (not_closing r Hc Hcl) as (Hs' & He' & Hd'). split; [done|].
  destruct Hc; split; simpl; [done..| | | | |auto]; rewrite ?Hs', ?He', ?Hd'; by destruct pt.
Qed.

Lemma set_state_core s r l : rt_core r → closing (rt_main r) = false → rs_RestartCount s = restart_count r →
  rs_Status s ≠ StatusReady → at_point (set_rt_states l (set_rt_state s r)) → rt_core (set_rt_states l (set_rt_state s r)).
Proof.
  intros Hc Hcl Hn Hs Hpt. destruct (not_closing r Hc Hcl) as (Hs' & He' & Hd').
  destruct Hc; split; simpl; try done; unfold restart_count in *; simpl; intros; rewrite Hn; auto.
Qed.

(** A new state at a point that is not a closing one, field by field. *)
Ltac fields Hc Em :=
  let H := fresh in let H' := fresh in
  assert (closing (rt_main _) = false) as H' by (rewrite Em; reflexivity);
  destruct (not_closing _ Hc H') as (?Hs' & ?He' & ?Hd'); pose proof (iv_count _ Hc H') as ?Hn;
  pose proof (iv_point _ Hc) as ?Hpt; unfold at_point in Hpt; rewrite Em in Hpt; clear H'.

Ltac settle Hc :=
  destruct Hc; split; simpl; unfold at_point, attached, restart_count in *; simpl; try done; try congruence.

Lemma connection_select_inv c p ad exitErr r r' : rt_inv r → rt_main r = Select p ad exitErr →
  connection_select c p ad exitErr r = Some r' → rt_inv r'.
Proof.
  intros [Hp Hc] Em H. fields Hc Em. assert (held r = Some p) as Hh by (unfold held; by rewrite Em).
  destruct c; simpl in H; try done.
  - destruct (receive_exit p r) as [[e r1]|] eqn:Ex; [|done]. injection H as <-.
    apply receive_exit_inv in Ex as [Hq [l ->]]; [|done..]. publish. split; [by eapply procs_quiet; [..|exact Hq]|]. settle Hc.
  - destruct (rt_cancelled r); [|done]. injection H as <-. split; [by eapply procs_frame; [..|exact Hp]|]. settle Hc. by exists ad.
  - destruct (rt_wake r); [|done]. injection H as <-. publish. split; [by eapply procs_frame; [..|exact Hp]|]. settle Hc.
  - destruct (adapter_done ad r); [|done]. destruct (rt_cancelled r); injection H as <-.
    + split; [by eapply procs_frame; [..|exact Hp]|]. settle Hc. by exists ad.
    + publish. split; [by eapply procs_frame; [..|exact Hp]|]. settle Hc. destruct Hpt as [? _]. done.
Qed.

Lemma delay_inv i r (k : runtime E → option (runtime E)) r' : 0 < zlen (cf_Backoff cfg) → 0 ≤ i →
  delay cfg i r k = Some r' → k r = Some r'.
Proof.
  intros Hb Hi. unfold delay, backoff_index. assert ((0 <=? i `min` (zlen (cf_Backoff cfg) - 1)) &&
    (i `min` (zlen (cf_Backoff cfg) - 1) <? zlen (cf_Backoff cfg)) = true) as ->; [|done].
  apply andb_true_intro. split; [apply Z.leb_le|apply Z.ltb_lt]; lia.
Qed.

Lemma reconnect_head_inv c p ad attempt started exitErr r r' : 0 < zlen (cf_Backoff cfg) → rt_inv r →
  rt_main r = Reconnect p ad attempt started exitErr → reconnect_head cfg c p ad attempt started exitErr r = Some r' → rt_inv r'.
Proof.
  intros Hb [Hp Hc] Em H. fields Hc Em. assert (held r = Some p) as Hh by (unfold held; by rewrite Em).
  destruct Hpt as (Hst & Ha & Hcmd). unfold reconnect_head in H. destruct (_ <? attempt) eqn:E1.
  { destruct c; simplify_eq. split; [by eapply procs_frame; [..|exact Hp]|]. settle Hc. }
  to_prop. destruct (0 <? attempt) eqn:E0; to_prop.
  - apply delay_inv in H; [|done|lia]. destruct c; simplify_eq.
    + destruct (receive_exit p r) as [[e r1]|] eqn:Ex; [|done]. injection H as <-.
      apply receive_exit_inv in Ex as [Hq [l ->]]; [|done..]. split; [by eapply procs_quiet; [..|exact Hq]|]. settle Hc.
    + destruct (rt_cancelled r); [|done]. injection H as <-. split; [by eapply procs_frame; [..|exact Hp]|]. settle Hc.
    + split; [by eapply procs_frame; [..|exact Hp]|]. settle Hc.
  - destruct c; simplify_eq. split; [by eapply procs_frame; [..|exact Hp]|]. settle Hc.
Qed.

Lemma backoff_head_inv c attempt planned r r' : 0 < zlen (cf_Backoff cfg) → rt_inv r →
  rt_main r = Backoff attempt planned → backoff_head cfg c attempt planned r = Some r' → rt_inv r'.
Proof.
  intros Hb [Hp Hc] Em H. fields Hc Em. destruct Hpt as (Hst & Ha).
  assert (quiet r) as Hq by (apply unheld_quiet; [done|unfold held; by rewrite Em]).
  assert (closing (rt_main r) = false) as Hcl by by rewrite Em.
  unfold backoff_head in H. destruct (negb planned || _).
  - apply delay_inv in H; [|done..]. destruct c; simplify_eq; [|by apply begin_start_inv].
    destruct (rt_cancelled r); simplify_eq. by apply stop_inv.
  - destruct c; simplify_eq. by apply begin_start_inv.
Qed.

Lemma begin_start_ctx k r : begin_start k (set_rt_ctx true r) = set_rt_ctx true (begin_start k r).
Proof.
  unfold begin_start, setState, publishState, restart_count.
  destruct k; simpl; destruct (rt_statesClosed r); [done| |done|]; by destruct (_ <? 32).
Qed.

Lemma Start_inv r : rt_inv r → rt_main r = Fresh → rt_inv (Start r).1.
Proof.
  intros [Hp Hc] Em. fields Hc Em. destruct Hpt as (Hst & Hctx & Hf). unfold Start. rewrite Hctx. simpl.
  rewrite begin_start_ctx.
  destruct (begin_start_inv ByStart r) as [Hp' Hc']; [done|apply unheld_quiet; [done|unfold held; by rewrite Em]|by rewrite Em|done|].
  split; [by eapply procs_frame; [..|exact Hp']|]. destruct Hc'; split; done.
Qed.

Lemma resume_inv next r : rt_core r → quiet r → (∃ p k, rt_main r = Waiting p k next) → rt_inv (resume_after next r).
Proof.
  intros Hc Hq (p & k & Em). fields Hc Em. destruct next as [|ad planned exitErr]; simpl.
  - apply stop_inv; [done..|by rewrite Em].
  - split; [by eapply procs_quiet; [..|exact Hq]|]. settle Hc.
Qed.

Lemma core_procs l r : rt_core r → rt_core (set_rt_procs l r).
Proof. intros []. by split. Qed.

Lemma dialled_inv p ad attempt started exitErr info r : rt_inv r → rt_main r = Dialing p ad attempt started exitErr →
  rt_inv (let '(r, ad) := install_adapter p (mkState StatusReady (restart_count r) started info None) r in goto (Select p ad exitErr) r).
Proof.
  intros [Hp Hc] Em. fields Hc Em. destruct Hpt as (Hst & Ha & Hcmd).
  destruct (install_adapter_inv p (mkState StatusReady (restart_count r) started info None) r Hc) as (l & ad' & Ead & ->); [by rewrite Em|].
  assert ((rt_adapters r ++ [mkAdapter p false 0 false [] 0]) !! ad' = Some (mkAdapter p false 0 false [] 0)) as Hl.
  { by rewrite Ead, lookup_app_r, Nat.sub_diag. }
  split; [eapply procs_frame; [..|exact Hp]; [done|unfold held; by rewrite Em]|]. settle Hc.
  - split_and!; eauto.
  - intros x [= <-]. by rewrite Hl.
Qed.

Lemma closing_inv r : rt_inv r → match rt_main r with
  | CloseEvents => rt_forwards r = [] → rt_inv (goto CloseStates (close_events r))
  | CloseStates => rt_inv (goto CloseDone (close_states r))
  | CloseDone => rt_inv (goto Ended (close_done r))
  | _ => True
  end.
Proof.
  intros [Hp Hc]. pose proof (iv_point _ Hc) as Hpt. unfold at_point in Hpt.
  pose proof (iv_events _ Hc) as He. pose proof (iv_states _ Hc) as Hs. pose proof (iv_done _ Hc) as Hd.
  unfold close_events, close_states, close_done. destruct (rt_main r) eqn:Em; try done; simpl in *.
  1: intros Hf.
  all: rewrite ?He, ?Hs, ?Hd; (split; [eapply procs_frame; [..|exact Hp]; [done|unfold held; by rewrite Em]|]).
  all: destruct Hc; split; simpl; unfold at_point; simpl; try done; congruence.
Qed.

Lemma main_step_inv c r r' : 0 < zlen (cf_Backoff cfg) → rt_inv r → main_step cfg c r = Some r' → rt_inv r'.
Proof.
  intros Hb Hi H. pose proof Hi as [Hp Hc]. unfold main_step in H. pose proof (closing_inv r Hi) as Hcl.
  destruct (rt_main r) eqn:Em.
  - destruct c; simplify_eq. by apply Start_inv.
  - fields Hc Em. destruct Hpt as (Hst & -> & Hk). destruct c; simplify_eq.
    assert (quiet r) as Hq by (apply unheld_quiet; [done|unfold held; by rewrite Em]).
    destruct (prepare_instance cfg l); simplify_eq; [|apply start_failed_inv; [done..|by rewrite Em|done|done]].
    split; [by eapply procs_launch; [..|exact Hq]|]. settle Hc.
  - destruct c; simplify_eq. destruct (connectAdapter failed initialize) as [info|e]; simplify_eq; [by apply start_succeeded_inv|].
    fields Hc Em. split; [eapply procs_frame; [..|exact Hp]; [done|unfold held; by rewrite Em]|]. settle Hc. by destruct Hpt as (? & _ & ?).
  - fields Hc Em. destruct Hpt as (Hst & Hk). destruct c; simplify_eq.
    destruct (receive_exit p r) as [[e r1]|] eqn:Ex; simplify_eq/=.
    apply receive_exit_inv in Ex as [Hq [l ->]]; [|done|unfold held; by rewrite Em].
    apply start_failed_inv; [by apply core_procs|done|simpl; by rewrite Em|done|done].
  - fields Hc Em. destruct Hpt as (p & ad & Hcmd & Hcur & Hat). destruct c; simplify_eq. rewrite Hcmd, Hcur in H. simplify_eq.
    split; [eapply procs_frame; [..|exact Hp]; [done|unfold held; by rewrite Em, Hcmd]|]. settle Hc.
  - by eapply connection_select_inv.
  - by eapply reconnect_head_inv.
  - destruct c; simplify_eq. destruct (connectAdapter failed initialize) as [info|e]; simplify_eq.
    + pose proof (dialled_inv p ad attempt startedAt exitErr info r Hi Em) as Hd. by destruct (install_adapter _ _ _); simplify_eq.
    + fields Hc Em. destruct Hpt as (Hst & Ha & Hcmd).
      split; [eapply procs_frame; [..|exact Hp]; [done|unfold held; by rewrite Em]|]. settle Hc. split_and!; [done|lia|done].
  - destruct c; try (by destruct killed); [|destruct killed; simplify_eq].
    + assert (∃ e r1, receive_exit p r = Some (e, r1) ∧ r' = resume_after next r1) as (e & r1 & Ex & ->).
      { destruct (receive_exit p r) as [[e r1]|]; [|by destruct killed]. exists e, r1. by destruct killed; simplify_eq/=. }
      apply receive_exit_inv in Ex as [Hq [l ->]]; [|done|unfold held; by rewrite Em].
      apply resume_inv; [by apply core_procs|done|eauto].
    + fields Hc Em. split; [eapply procs_frame; [..|exact Hp]; [done|unfold held; by rewrite Em]|]. settle Hc.
  - fields Hc Em. destruct c; simplify_eq.
    split; [eapply procs_frame; [..|exact Hp]; [done|unfold held; by rewrite Em]|]. settle Hc.
  - by eapply backoff_head_inv.
  - destruct c; simplify_eq. destruct (rt_forwards r) eqn:Ef; simplify_eq. by apply Hcl.
  - destruct c; simplify_eq. done.
  - destruct c; simplify_eq. done.
  - done.
Qed.

(** ** Steps of the others *)

Lemma inv_adapters l r : rt_inv r →
  (∀ ad v, rt_adapters r !! ad = Some v → ∃ v', l !! ad = Some v' ∧ a_proc v' = a_proc v) → rt_inv (set_rt_adapters l r).
Proof.
  intros [Hp Hc] Hl. split; [by eapply procs_frame; [..|exact Hp]|].
  assert (∀ p ad, attached r p ad → attached (set_rt_adapters l r) p ad) as Hat.
  { intros p ad (? & ? & v & Hv & Hvp). split_and!; [done..|]. apply Hl in Hv as (v' & ? & ?). exists v'. by rewrite <- Hvp. }
  destruct Hc; split; try done.
  - unfold at_point in *. simpl. destruct (rt_main r); try done; [naive_solver| by apply Hat|].
    destruct next; [|done]. intros Hs. destruct (iv_point0 Hs) as [ad ?]. exists ad. by apply Hat.
  - intros ad [v Hv]%iv_current0. apply Hl in Hv as (v' & ? & _). by exists v'.
Qed.

Lemma inv_forwards f r : rt_inv r → (rt_forwards r = [] → f = []) → rt_inv (set_rt_forwards f r).
Proof.
  intros [Hp Hc] Hf. split; [by eapply procs_frame; [..|exact Hp]|]. destruct Hc; split; try done; simpl; [|auto].
  unfold at_point in *. simpl. destruct (rt_main r); try done.
  - naive_solver.
  - destruct k; naive_solver.
  - destruct k; naive_solver.
  - destruct k; naive_solver.
Qed.

(** The fields no position depends on. *)
Lemma inv_other r r' : rt_inv r →
  rt_procs r' = rt_procs r → rt_main r' = rt_main r → rt_cmd r' = rt_cmd r → rt_panic r' = rt_panic r → rt_state r' = rt_state r →
  rt_current r' = rt_current r → rt_adapters r' = rt_adapters r → rt_forwards r' = rt_forwards r → rt_ctx r' = rt_ctx r →
  rt_eventsClosed r' = rt_eventsClosed r → rt_statesClosed r' = rt_statesClosed r → rt_done r' = rt_done r →
  rt_restarts r' = rt_restarts r → rt_inv r'.
Proof.
  intros [Hp Hc] E1 E2 E3 E4 E5 E6 E7 E8 E9 E10 E11 E12 E13. split.
  - eapply procs_frame; [done| |exact Hp]. unfold held. by rewrite E2, E3.
  - destruct Hc; split; unfold at_point, attached, restart_count in *;
      rewrite ?E2, ?E3, ?E4, ?E5, ?E6, ?E7, ?E8, ?E9, ?E10, ?E11, ?E12, ?E13; done.
Qed.

Lemma RequestRestart_inv r : rt_inv r → rt_inv (RequestRestart r).1.
Proof.
  intros Hi. pose proof Hi as [_ Hc]. unfold RequestRestart. destruct (rt_stopping r); [done|].
  destruct (rt_current r) as [ad|] eqn:Ec; [|by eapply inv_other; [exact Hi|..]].
  destruct (iv_current _ Hc ad Ec) as [v ->]. destruct (_ <? _)%nat; [|by eapply inv_other; [exact Hi|..]].
  simpl. destruct (rt_plannedWatcher r); by eapply inv_other; [exact Hi|..].
Qed.

Lemma Close_inv r : rt_inv r → rt_inv (Close r).
Proof. intros Hi. unfold Close. destruct (rt_ctx r); [by eapply inv_other; [exact Hi|..]|done]. Qed.

Lemma adapter_update (l : list (adapter_view E)) ad v v' x w : l !! ad = Some v → a_proc v' = a_proc v →
  l !! x = Some w → ∃ w', <[ad := v']> l !! x = Some w' ∧ a_proc w' = a_proc w.
Proof.
  intros Hv Hp Hx. destruct (decide (x = ad)) as [->|Hne].
  - exists v'. rewrite list_lookup_insert_eq by by eapply lookup_lt_Some. split; [done|congruence].
  - exists w. by rewrite list_lookup_insert_ne.
Qed.

Lemma watcher_step_inv i cancel r r' : rt_inv r → watcher_step i cancel r = Some r' → rt_inv r'.
Proof.
  intros Hi H. unfold watcher_step in H. destruct (rt_watchers r !! i) as [ad|]; [|done]. simpl in H. destruct cancel.
  - destruct (rt_cancelled r); [|done]. injection H as <-. by eapply inv_other; [exact Hi|..].
  - destruct (rt_adapters r !! ad) as [v|] eqn:Ev; [|done]. simpl in H. destruct (a_idle v); [|done]. injection H as <-.
    eapply inv_other; [eapply (inv_adapters (<[ad := _]> (rt_adapters r)) r Hi)|..]; try done.
    intros x w. by apply (adapter_update _ _ v).
Qed.

Lemma lookup_not_nil {A} (l : list A) i x : l !! i = Some x → l ≠ [].
Proof. by destruct l. Qed.

Lemma forward_step_inv i cancel r r' : rt_inv r → forward_step i cancel r = Some r' → rt_inv r'.
Proof.
  intros Hi H. unfold forward_step in H. destruct (rt_forwards r !! i) as [[ad held]|] eqn:Ef; [|done]. simpl in H.
  pose proof (lookup_not_nil _ _ _ Ef) as Hne. destruct held as [e|].
  - destruct cancel; [destruct (rt_cancelled r); simplify_eq; by apply inv_forwards|].
    destruct (rt_eventsClosed r) eqn:Ee; [by destruct Hne; destruct Hi as [_ Hc]; apply (iv_forwards _ Hc)|].
    destruct (_ <? _); simplify_eq. eapply inv_other; [apply (inv_forwards (<[i := (ad, None)]> (rt_forwards r)) r Hi); done|..]; done.
  - destruct (rt_adapters r !! ad) as [v|] eqn:Ev; [|done]. simpl in H. destruct (a_events v !! a_taken v).
    + injection H as <-. apply inv_forwards; [|done]. apply inv_adapters; [done|]. intros x w. by apply (adapter_update _ _ v).
    + destruct (a_done v); simplify_eq. by apply inv_forwards.
Qed.

Lemma env_step_inv r r' : rt_inv r → env_step r r' → rt_inv r'.
Proof.
  intros Hi Hs. pose proof Hi as [Hp Hc]. destruct Hs as [r p e Hx|r ad v v' Hv Hpr _ _ _ _|r s l Hl|r x l Hl].
  - split; [|destruct Hc; by split]. destruct Hp as [H1 H2]. unfold procs_ok, is_live in *. simpl. split.
    + intros q (y & Hy & Hn). apply H1. destruct (decide (q = p)) as [->|Hq]; [eauto|].
      rewrite list_lookup_insert_ne in Hy by done. eauto.
    + intros q Hq. destruct (H2 q Hq) as (y & Hy & Hr). destruct (decide (q = p)) as [->|Hne].
      * rewrite list_lookup_insert_eq by by eapply lookup_lt_Some. by eexists.
      * rewrite list_lookup_insert_ne by done. eauto.
  - apply inv_adapters; [done|]. intros x w. by apply (adapter_update _ _ v).
  - by eapply inv_other; [exact Hi|..].
  - by eapply inv_other; [exact Hi|..].
Qed.

Lemma rt_step_inv r r' : 0 < zlen (cf_Backoff cfg) → rt_inv r → rt_step cfg r r' → rt_inv r'.
Proof.
  intros Hb Hi Hs. destruct Hs; [by eapply main_step_inv|by apply RequestRestart_inv|by apply Close_inv|
    by eapply watcher_step_inv|by eapply forward_step_inv|by eapply env_step_inv].
Qed.

(** ** Restarts end *)

(** Attempts the restart loop has left after [a], and those of the reconnection loop. *)
Definition restarts_left (a : Z) : nat := Z.to_nat (cf_MaxRestarts cfg - a).
Definition dials_left (a : Z) : nat := Z.to_nat (cf_MaxRestarts cfg + 1 - a).

(** The thread is not at work on a start, a restart or its return. *)
Definition settled pt : bool := match pt with Fresh | LoopTop | Select _ _ _ => true | _ => false end.

Definition starter_left (k : starter) : nat := match k with ByStart => 0 | ByRestart a _ => restarts_left a end.

(** An upper bound on the steps until the thread is settled again or has ended. *)
Definition rank pt : nat :=
  match pt with
  | Fresh | LoopTop | Select _ _ _ | Ended => 0
  | CloseDone => 1
  | CloseStates => 2
  | CloseEvents => 3
  | Reaping k _ _ => 4 * starter_left k + 4
  | Connecting k _ _ => 4 * starter_left k + 5
  | Launching k _ => 4 * starter_left k + 6
  | Backoff a _ => 4 * restarts_left a + 7
  | Leave _ _ _ => 4 * restarts_left 0 + 8
  | Waiting _ killed next =>
      match next with ThenStop => 4 | ThenLeave _ _ _ => 4 * restarts_left 0 + 9 end + (if killed then 0 else 1)
  | Dialing _ _ a _ _ => 2 * dials_left a + 4 * restarts_left 0 + 10
  | Reconnect _ _ a _ _ => 2 * dials_left a + 4 * restarts_left 0 + 11
  end%nat.

(** An upper bound on the processes it starts meanwhile. *)
Definition launches pt : nat :=
  match pt with
  | Launching ByStart _ => 1
  | Launching (ByRestart a _) _ | Backoff a _ => S (restarts_left a)
  | Connecting k _ _ | Reaping k _ _ => starter_left k
  | Leave _ _ _ | Waiting _ _ (ThenLeave _ _ _) | Reconnect _ _ _ _ _ | Dialing _ _ _ _ _ => S (restarts_left 0)
  | _ => 0
  end%nat.

(** Nearer to the end, counting the processes started on the way. *)
Definition nearer r r' : Prop :=
  (rank (rt_main r') < rank (rt_main r))%nat ∧
  (length (rt_procs r') + launches (rt_main r') ≤ length (rt_procs r) + launches (rt_main r))%nat.

Lemma publish_main s r : rt_main (publishState s r) = rt_main r ∧ rt_procs (publishState s r) = rt_procs r.
Proof. unfold publishState. by repeat case_match. Qed.

Lemma begin_start_main k r : ∃ count, rt_main (begin_start k r) = Launching k count ∧ rt_procs (begin_start k r) = rt_procs r.
Proof.
  unfold begin_start, setState. destruct k; simpl; eexists; (split; [done|]); by rewrite (proj2 (publish_main _ _)).
Qed.

Lemma setState_procs s r : rt_procs (setState s r) = rt_procs r.
Proof. unfold setState. by rewrite (proj2 (publish_main _ _)). Qed.

Lemma start_failed_main k e r :
  rt_procs (start_failed cfg k e r) = rt_procs r ∧
  (rt_main (start_failed cfg k e r) = Ended ∨ rt_main (start_failed cfg k e r) = CloseEvents ∨
   ∃ a b, k = ByRestart a b ∧ a < cf_MaxRestarts cfg ∧ rt_main (start_failed cfg k e r) = Backoff (a + 1) b).
Proof.
  unfold start_failed. destruct k as [|a b].
  - split; [|by left]. simpl. unfold close_states, close_events, close_done.
    repeat (simpl; case_match); simpl; by rewrite setState_procs.
  - destruct (_ <=? a) eqn:El; to_prop; simpl; (split; [by rewrite ?setState_procs|]); eauto 8.
Qed.

Lemma receive_exit_main p r e r' : receive_exit p r = Some (e, r') → rt_main r' = rt_main r ∧ length (rt_procs r') = length (rt_procs r).
Proof.
  unfold receive_exit. destruct (rt_procs r !! p) as [[[x|] []]|]; intros [= <- <-]. simpl. by rewrite length_insert.
Qed.

Lemma start_failed_nearer k e r r0 :
  length (rt_procs r) = length (rt_procs r0) → (4 * starter_left k + 4 ≤ rank (rt_main r0))%nat →
  (starter_left k ≤ launches (rt_main r0))%nat → nearer r0 (start_failed cfg k e r).
Proof.
  intros Hl Hr Hla. destruct (start_failed_main k e r) as [Ep [Em|[Em|(a & b & -> & Ha & Em)]]];
    unfold nearer; rewrite Ep, Em, Hl; simpl in *; [lia..|].
  unfold restarts_left in *. lia.
Qed.

Lemma stop_main r : rt_main (stop r) = CloseEvents ∧ rt_procs (stop r) = rt_procs r.
Proof. unfold stop. simpl. by rewrite setState_procs. Qed.

Lemma backoff_nearer c a b r r' : 0 < zlen (cf_Backoff cfg) → 0 ≤ a → rt_main r = Backoff a b →
  backoff_head cfg c a b r = Some r' → nearer r r'.
Proof.
  intros Hb Ha Em H. destruct (begin_start_main (ByRestart a b) r) as (n & E1 & E2). destruct (stop_main r) as [E3 E4].
  assert (r' = begin_start (ByRestart a b) r ∨ r' = stop r) as [-> | ->].
  { unfold backoff_head in H. destruct (negb b || _); [apply delay_inv in H; [|done..]|]; destruct c; simplify_eq; auto.
    destruct (rt_cancelled r); simplify_eq. auto. }
  - unfold nearer. rewrite E1, E2, Em. simpl. lia.
  - unfold nearer. rewrite E3, E4, Em. simpl. lia.
Qed.

Lemma reconnect_nearer c p ad a st x r r' : 0 < zlen (cf_Backoff cfg) → 0 ≤ a → rt_main r = Reconnect p ad a st x →
  reconnect_head cfg c p ad a st x r = Some r' → nearer r r'.
Proof.
  intros Hb Ha Em H. unfold nearer. rewrite Em. unfold reconnect_head in H. destruct (_ <? a) eqn:E1.
  { destruct c; simplify_eq. simpl. lia. }
  destruct (0 <? a) eqn:E0; to_prop.
  - apply delay_inv in H; [|done|lia]. destruct c; simplify_eq.
    + destruct (receive_exit p r) as [[e r1]|] eqn:Ex; simplify_eq/=. apply receive_exit_main in Ex as [_ ->]. lia.
    + destruct (rt_cancelled r); simplify_eq/=. lia.
    + simpl. lia.
  - destruct c; simplify_eq. simpl. lia.
Qed.

Lemma main_step_nearer c r r' : 0 < zlen (cf_Backoff cfg) → rt_inv r → settled (rt_main r) = false →
  main_step cfg c r = Some r' → settled (rt_main r') = true ∧ length (rt_procs r') = length (rt_procs r) ∨ nearer r r'.
Proof.
  intros Hb [Hp Hc] Hs H. pose proof (iv_point _ Hc) as Hpt. unfold at_point in Hpt. unfold main_step in H.
  destruct (rt_main r) eqn:Em; try done.
  - right. destruct c; simplify_eq. destruct (prepare_instance cfg l); simplify_eq.
    + unfold nearer. rewrite Em. simpl. rewrite length_app. simpl. destruct k; simpl; lia.
    + apply start_failed_nearer; [done|rewrite Em; simpl; lia|rewrite Em; destruct k; simpl; lia].
  - destruct c; simplify_eq. destruct (connectAdapter failed initialize); simplify_eq.
    + left. unfold start_succeeded, install_adapter. split; [by destruct k|].
      destruct k; simpl; rewrite (proj2 (publish_main _ _)); done.
    + right. unfold nearer. rewrite Em. simpl. lia.
  - right. destruct c; simplify_eq. destruct (receive_exit p r) as [[e r1]|] eqn:Ex; simplify_eq/=. apply receive_exit_main in Ex as [_ El].
    apply start_failed_nearer; [done|rewrite Em; simpl; lia|rewrite Em; simpl; lia].
  - right. destruct Hpt as (_ & Ha & _). by eapply reconnect_nearer.
  - destruct c; simplify_eq. destruct Hpt as (_ & Ha & _). unfold install_adapter in H.
    destruct (connectAdapter failed initialize); simplify_eq.
    + left. split; [done|]. simpl. by rewrite (proj2 (publish_main _ _)).
    + right. unfold nearer. rewrite Em. simpl. unfold dials_left. lia.
  - right. destruct c; try (by destruct killed); [|destruct killed; simplify_eq; unfold nearer; rewrite Em; simpl; destruct next; simpl; lia].
    assert (∃ e r1, receive_exit p r = Some (e, r1) ∧ r' = resume_after next r1) as (e & r1 & Ex & ->).
    { destruct (receive_exit p r) as [[e r1]|]; [|by destruct killed]. exists e, r1. by destruct killed; simplify_eq/=. }
    apply receive_exit_main in Ex as [_ El]. unfold nearer. rewrite Em, <- El.
    destruct next; simpl; [rewrite setState_procs|]; destruct killed; lia.
  - right. destruct c; simplify_eq. unfold nearer. rewrite Em. simpl. lia.
  - right. destruct Hpt as (_ & Ha). by eapply backoff_nearer.
  - right. destruct c; simplify_eq. destruct (rt_forwards r); simplify_eq. unfold nearer. rewrite Em. simpl.
    unfold close_events. case_match; simpl; lia.
  - right. destruct c; simplify_eq. unfold nearer. rewrite Em. simpl. unfold close_states. case_match; simpl; lia.
  - right. destruct c; simplify_eq. unfold nearer. rewrite Em. simpl. unfold close_done. case_match; simpl; lia.
Qed.

(** The other steps leave the thread where it is. *)
Lemma other_step_main r r' : rt_step cfg r r' →
  (∃ c, main_step cfg c r = Some r') ∨ rt_main r' = rt_main r ∧ length (rt_procs r') = length (rt_procs r).
Proof.
  destruct 1 as [c r r' _ H|r|r|i cancel r r' H|i cancel r r' H|r r' H]; [eauto|right..].
  - unfold RequestRestart. destruct (rt_stopping r); [done|]. repeat case_match; done.
  - unfold Close. by destruct (rt_ctx r).
  - unfold watcher_step in H. destruct (rt_watchers r !! i) as [ad|]; [|done]. simpl in H.
    destruct cancel; [destruct (rt_cancelled r); by simplify_eq|]. destruct (rt_adapters r !! ad) as [v|]; [|done]. simpl in H.
    destruct (a_idle v); by simplify_eq.
  - unfold forward_step in H. destruct (rt_forwards r !! i) as [[ad [e|]]|]; [| |done]; simpl in H.
    + destruct cancel; [destruct (rt_cancelled r); by simplify_eq|]. destruct (rt_eventsClosed r); [by simplify_eq|].
      destruct (_ <? _); by simplify_eq.
    + destruct (rt_adapters r !! ad) as [v|]; [|done]. simpl in H. destruct (a_events v !! a_taken v); [by simplify_eq|].
      destruct (a_done v); by simplify_eq.
  - destruct H; simpl; rewrite ?length_insert; done.
Qed.

(** A run in which the thread is never settled; [n] counts its own steps. *)
Inductive unsettled_run : nat → runtime E → runtime E → Prop :=
| run_nil r : settled (rt_main r) = false → unsettled_run 0 r r
| run_main n c r r1 r' : settled (rt_main r) = false → main_step cfg c r = Some r1 →
    unsettled_run n r1 r' → unsettled_run (S n) r r'
| run_other n r r1 r' : settled (rt_main r) = false → rt_step cfg r r1 → rt_main r1 = rt_main r →
    length (rt_procs r1) = length (rt_procs r) → unsettled_run n r1 r' → unsettled_run n r r'.

Lemma unsettled_run_bound n r r' : 0 < zlen (cf_Backoff cfg) → rt_inv r → unsettled_run n r r' →
  (n + rank (rt_main r') ≤ rank (rt_main r))%nat ∧
  (length (rt_procs r') + launches (rt_main r') ≤ length (rt_procs r) + launches (rt_main r))%nat.
Proof.
  intros Hb Hi Hr. induction Hr as [r Hs|n c r r1 r' Hs Hm Hr IH|n r r1 r' Hs Hst Em El Hr IH]; [lia|..].
  - assert (settled (rt_main r1) = false) as Hs1 by by inversion Hr.
    destruct (IH (main_step_inv c r r1 Hb Hi Hm)) as [H1 H2].
    destruct (main_step_nearer c r r1 Hb Hi Hs Hm) as [[? _]|[H3 H4]]; [congruence|lia].
  - destruct (IH (rt_step_inv r r1 Hb Hi Hst)) as [H1 H2]. rewrite Em, El in *. lia.
Qed.

Lemma rank_max pt : match pt with Backoff a _ => 0 ≤ a | Reconnect _ _ a _ _ | Dialing _ _ a _ _ => 0 ≤ a
  | Launching k _ | Connecting k _ _ | Reaping k _ _ => match k with ByStart => True | ByRestart a _ => 0 ≤ a end | _ => True end →
  (rank pt ≤ 6 * Z.to_nat (cf_MaxRestarts cfg) + 13)%nat ∧ (launches pt ≤ Z.to_nat (cf_MaxRestarts cfg) + 1)%nat.
Proof.
  intros H. destruct pt; simpl; unfold starter_left, restarts_left, dials_left; repeat case_match; lia.
Qed.

(** The thread can go on whenever what it waits for has happened. *)
Definition may_wait r : Prop :=
  match rt_main r with
  | Ended => True
  | Select p ad _ => rt_cancelled r = false ∧ rt_wake r = false ∧ adapter_done ad r = false ∧ is_live r p
  | Waiting p true _ | Reaping _ p _ => is_live r p
  | CloseEvents => rt_forwards r ≠ []
  | _ => False
  end.

Lemma receive_exit_ready p r : rt_inv r → held r = Some p → ¬ is_live r p → ∃ e r', receive_exit p r = Some (e, r').
Proof.
  intros [[_ H2] _] Hh Hl. destruct (H2 p Hh) as ([x b] & Hx & Hr). simpl in Hr. subst b.
  unfold receive_exit. rewrite Hx. destruct x as [e|]; [eauto|]. destruct Hl. by exists (mkProcess None false).
Qed.

Lemma delay_ready i r k : 0 < zlen (cf_Backoff cfg) → 0 ≤ i → delay cfg i r k = k r.
Proof.
  intros Hb Hi. unfold delay, backoff_index. assert ((0 <=? i `min` (zlen (cf_Backoff cfg) - 1)) &&
    (i `min` (zlen (cf_Backoff cfg) - 1) <? zlen (cf_Backoff cfg)) = true) as ->; [|done].
  apply andb_true_intro. split; [apply Z.leb_le|apply Z.ltb_lt]; lia.
Qed.

Definition is_live_dec r p : {is_live r p} + {¬ is_live r p}.
Proof.
  unfold is_live. destruct (rt_procs r !! p) as [x|] eqn:E1; [|right; intros (x & Hx & _); congruence].
  destruct (p_exit x) eqn:E2; [right; intros (y & Hy & Hn); congruence|left; eauto].
Defined.

Lemma main_step_ready r : 0 < zlen (cf_Backoff cfg) → rt_inv r → may_wait r ∨ ∃ c r', main_step cfg c r = Some r'.
Proof.
  intros Hb Hi. pose proof Hi as [Hp Hc]. pose proof (iv_point _ Hc) as Hpt. unfold at_point in Hpt.
  unfold may_wait, main_step. destruct (rt_main r) eqn:Em.
  - right. by exists Proceed; eexists.
  - right. exists (DoLaunch (mkLaunch (Ok tt) None (Ok tt) (Ok tt) (Ok tt) (Ok tt))).
    destruct (prepare_instance _ _); eauto.
  - right. exists (DoConnect [] (Ok no_server) 0). by eexists.
  - destruct (is_live_dec r p) as [Hl|Hl]; [by left|]. right. exists OnExit.
    destruct (receive_exit_ready p r Hi) as (e & r1 & ->); [unfold held; by rewrite Em|done|]. simpl. eauto.
  - right. exists Proceed. repeat case_match; eauto.
  - destruct (rt_cancelled r) eqn:E1; [right; exists OnCancel; simpl; rewrite E1; eauto|].
    destruct (rt_wake r) eqn:E2; [right; exists OnWake; simpl; rewrite E2; eauto|].
    destruct (adapter_done ad r) eqn:E3; [right; exists OnDisconnect; simpl; rewrite E3, E1; eauto|].
    destruct (is_live_dec r p) as [Hl|Hl]; [by left|]. right. exists OnExit.
    destruct (receive_exit_ready p r Hi) as (e & r1 & Hr); [unfold held; by rewrite Em|done|]. simpl. rewrite Hr. simpl. eauto.
  - right. destruct Hpt as (_ & Ha & _). unfold reconnect_head. destruct (_ <? attempt); [exists Proceed; eauto|].
    destruct (0 <? attempt) eqn:E0; to_prop; [|exists Proceed; eauto]. exists OnTimer. rewrite delay_ready by lia. eauto.
  - right. exists (DoConnect [] (Ok no_server) 0). by eexists.
  - destruct killed; [|right; exists OnTimer; eauto]. destruct (is_live_dec r p) as [Hl|Hl]; [by left|]. right. exists OnExit.
    destruct (receive_exit_ready p r Hi) as (e & r1 & ->); [unfold held; by rewrite Em|done|]. simpl. eauto.
  - right. exists Proceed. eauto.
  - right. destruct Hpt as [_ Ha]. unfold backoff_head. destruct (negb planned || _); [exists OnTimer|exists Proceed; eauto].
    rewrite delay_ready by lia. eauto.
  - destruct (rt_forwards r) eqn:Ef; [right; exists Proceed; eauto|by left].
  - right. exists Proceed. eauto.
  - right. exists Proceed. eauto.
  - by left.
Qed.

End Theorems.

(** ** Reachable states *)

Lemma New_config_backoff cfg : 0 < zlen (cf_Backoff (New_config cfg)).
Proof. unfold New_config, zlen. simpl. destruct (cf_Backoff cfg); simpl; lia. Qed.

Lemma rt_reach_inv {E} cfg (r : runtime E) : rt_reach cfg r → rt_inv (New_config cfg) r.
Proof.
  intros H. unfold rt_reach in H. assert (rt_inv (New_config cfg) (New : runtime E)) as H0 by apply New_inv.
  induction H as [r|r r1 r2 Hs Hr IH]; [done|]. apply IH. eapply rt_step_inv; [apply New_config_backoff|exact H0|exact Hs].
Qed.

(** C33: the supervisor is safe.  In every state that any interleaving of its goroutines,
    of callers and of the processes can reach: it has not panicked (no send on or close of
    a closed channel, no missing adapter, no index out of range); at most one app-server
    process runs; an adapter is handed out only in the ready state, and it is connected to
    the process in use, whose end was not yet received; [RestartCount] counts the restarts
    begun, modulo 2^64, until the manager stops or fails; and when [Done] is closed no
    process runs, both other channels are closed and no forwarder is left. *)
Theorem runtime_safe {E} cfg (r : runtime E) : rt_reach cfg r →
  rt_panic r = false ∧
  (∀ p q, is_live r p → is_live r q → p = q) ∧
  (∀ ad, Adapter r = Ok ad → rs_Status (rt_state r) = StatusReady ∧
     ∃ p x, attached r p ad ∧ rt_procs r !! p = Some x ∧ p_reaped x = false) ∧
  (closing (rt_main r) = false → restart_count r = u64 (rt_restarts r)) ∧
  (rt_done r = true → quiet r ∧ rt_eventsClosed r = true ∧ rt_statesClosed r = true ∧ rt_forwards r = []).
Proof.
  intros [[H1 H2] Hc]%rt_reach_inv. split_and!.
  - apply Hc.
  - intros p q Hp%H1 Hq%H1. congruence.
  - intros ad Ha. unfold Adapter in Ha. destruct (rt_current r) as [ad'|] eqn:Ec; [|done]. case_bool_decide as Hs; [|done].
    injection Ha as ->. split; [done|]. assert (∃ p, held r = Some p ∧ attached r p ad) as (p & Hp & Hat).
    { pose proof (iv_point _ _ Hc) as Hpt. unfold at_point in Hpt. unfold held. destruct (rt_main r); try naive_solver.
      - destruct Hpt as (p & ad' & Hat). pose proof Hat as (? & ? & _). exists p. split; [done|]. congruence.
      - exists p. split; [done|]. pose proof Hpt as (? & ? & _). congruence.
      - destruct next; [|naive_solver]. destruct (Hpt Hs) as (ad' & Hat). exists p. split; [done|]. pose proof Hat as (? & ? & _). congruence. }
    destruct (H2 p Hp) as (x & Hx & Hr). eauto.
  - apply Hc.
  - intros Hd. rewrite (iv_done _ _ Hc) in Hd. destruct (rt_main r) eqn:Em; try done.
    pose proof (iv_events _ _ Hc) as He. pose proof (iv_states _ _ Hc) as Hs. rewrite Em in He, Hs. split_and!; [|done|done|by apply Hc].
    intros p Hp%H1. unfold held in Hp. by rewrite Em in Hp.
Qed.

(** C34: starting and restarting end.  While the supervisor is neither ready nor idle,
    with anything else happening in between, it makes at most [6 * MaxRestarts + 13] steps
    of its own and starts at most [MaxRestarts + 1] processes; and at every point it can
    take a step, unless it has ended or waits for the end of a process it has killed, for
    the forwarders, or, when ready, for something to happen. *)
Theorem restarts_terminate {E} cfg (r r' : runtime E) n :
  rt_reach cfg r → unsettled_run (New_config cfg) n r r' →
  (n ≤ 6 * Z.to_nat (cf_MaxRestarts (New_config cfg)) + 13)%nat ∧
  (length (rt_procs r') ≤ length (rt_procs r) + Z.to_nat (cf_MaxRestarts (New_config cfg)) + 1)%nat ∧
  (may_wait r ∨ ∃ c r1, main_step (New_config cfg) c r = Some r1).
Proof.
  intros Hi%rt_reach_inv Hr. pose proof (New_config_backoff cfg) as Hb.
  destruct (unsettled_run_bound _ n r r' Hb Hi Hr) as [H1 H2].
  destruct (rank_max (New_config cfg) (rt_main r)) as [H3 H4].
  { destruct Hi as [_ Hc]. pose proof (iv_point _ _ Hc) as Hpt. unfold at_point in Hpt.
    destruct (rt_main r); try done; repeat case_match; naive_solver lia. }
  split_and!; [lia|lia|by apply main_step_ready].
Qed.
