(* ===== verification/RuntimeExamples.v ===== *)
(** * The runtime supervisor: concrete runs

    Runs are executed by a list of actions; they are the witnesses of the theorems, and
    one of them shows a deferred restart that is lost when the connection is renewed. *)

From Stdlib Require Import Ascii String.
From stdpp Require Import base tactics numbers list gmap strings relations.
From S2P Require Import Prelude GoError GoStrings Runtime RuntimeTheorems.
Local Open Scope string_scope.
Local Open Scope Z_scope.
Local Open Scope list_scope.

(** ** Executing a run; events are numbers *)

Inductive action :=
| AMain (c : choice)
| ARequestRestart
| AClose
| AWatcher (i : nat) (cancel : bool)
| AForward (i : nat) (cancel : bool)
| AExit (p : nat) (e : option goerr)
| ATurns (ad n : nat) (idle : bool)     (* the active turns and the idle signal of a live adapter *)
| ADisconnect (ad : nat).

Section Execution.
Context (cfg : Config).
Implicit Types (r : runtime nat).

Definition act (a : action) r : option (runtime nat) :=
  match a with
  | AMain c => if rt_panic r then None else main_step cfg c r
  | ARequestRestart => Some (RequestRestart r).1
  | AClose => Some (Close r)
  | AWatcher i cancel => watcher_step i cancel r
  | AForward i cancel => forward_step i cancel r
  | AExit p e =>
      match rt_procs r !! p with
      | Some (mkProcess None false) => Some (set_rt_procs (<[p := mkProcess (Some e) false]> (rt_procs r)) r)
      | _ => None
      end
  | ATurns ad n idle =>
      match rt_adapters r !! ad with
      | Some (mkAdapter p false _ _ evs k) => Some (set_rt_adapters (<[ad := mkAdapter p false n idle evs k]> (rt_adapters r)) r)
      | _ => None
      end
  | ADisconnect ad =>
      match rt_adapters r !! ad with
      | Some (mkAdapter p _ n idle evs k) => Some (set_rt_adapters (<[ad := mkAdapter p true n idle evs k]> (rt_adapters r)) r)
      | _ => None
      end
  end.

Lemma act_step a r r' : act a r = Some r' → rt_step cfg r r'.
Proof.
  destruct a; simpl; intros H.
  - destruct (rt_panic r) eqn:Ep; [done|]. by eapply step_main.
  - injection H as <-. apply step_restart.
  - injection H as <-. apply step_close.
  - by eapply step_watcher.
  - by eapply step_forward.
  - destruct (rt_procs r !! p) as [[[x|] []]|] eqn:Ex; simplify_eq. by apply step_env, env_exit.
  - destruct (rt_adapters r !! ad) as [[p [] a i evs k]|] eqn:Ex; simplify_eq.
    eapply step_env, env_adapter; [done..| |]; simpl; [|done]. exists []. by rewrite app_nil_r.
  - destruct (rt_adapters r !! ad) as [[p d a i evs k]|] eqn:Ex; simplify_eq.
    eapply step_env, env_adapter; [done|done|done|done| |done]. exists []. by rewrite app_nil_r.
Qed.

Definition acts (l : list action) r : option (runtime nat) := foldl (λ o a, o ≫= act a) (Some r) l.

Lemma acts_none l : foldl (λ (o : option (runtime nat)) a, o ≫= act a) None l = None.
Proof. by induction l. Qed.

Lemma acts_reach l r r' : acts l r = Some r' → rtc (rt_step cfg) r r'.
Proof.
  revert r. induction l as [|a l IH]; intros r; [intros [= <-]; apply rtc_refl|]. unfold acts. simpl.
  destruct (act a r) as [r1|] eqn:Ea; [|by rewrite acts_none]. intros H. eapply rtc_l; [by eapply act_step|by apply IH].
Qed.

(** ** A deferred restart waits for an adapter that is gone *)

(** No restart is under way, and every goroutine that could ask for one waits for the idle
    signal of an adapter that is closed. *)
Definition stranded r : Prop :=
  rt_wake r = false ∧
  Forall (λ ad, ∃ v, rt_adapters r !! ad = Some v ∧ a_done v = true ∧ a_idle v = false) (rt_watchers r).

(** Every step but a call of [RequestRestart]. *)
Inductive unasked_step : runtime nat → runtime nat → Prop :=
| unasked_main c r r' : main_step cfg c r = Some r' → unasked_step r r'
| unasked_close r : unasked_step r (Close r)
| unasked_watcher i cancel r r' : watcher_step i cancel r = Some r' → unasked_step r r'
| unasked_forward i cancel r r' : forward_step i cancel r = Some r' → unasked_step r r'
| unasked_env r r' : env_step r r' → unasked_step r r'.

Lemma stranded_frame r r' : stranded r → rt_wake r' = false → (∀ ad, ad ∈ rt_watchers r' → ad ∈ rt_watchers r) →
  (∀ ad v, rt_adapters r !! ad = Some v → a_done v = true → ∃ v', rt_adapters r' !! ad = Some v' ∧ a_done v' = true ∧
     (a_idle v' = true → a_idle v = true)) → stranded r'.
Proof.
  intros [_ Hw] Hk Hsub Hup. split; [done|]. apply Forall_forall. intros ad Had%Hsub.
  rewrite Forall_forall in Hw. destruct (Hw ad Had) as (v & Hv & Hd & Hi). destruct (Hup ad v Hv Hd) as (v' & Hv' & Hd' & Hi').
  exists v'. split_and!; [done..|]. destruct (a_idle v'); [by rewrite Hi' in Hi|done].
Qed.

(** What the thread does to the signals: it only clears [wake], and only adds adapters. *)
Definition calm r r' : Prop :=
  (rt_wake r = false → rt_wake r' = false) ∧ rt_watchers r' = rt_watchers r ∧ rt_adapters r `prefix_of` rt_adapters r'.

#[export] Instance calm_preorder : PreOrder calm.
Proof.
  split; [done|]. intros r1 r2 r3 (A1 & B1 & C1) (A2 & B2 & C2). split_and!; [auto|congruence|by etrans].
Qed.

Lemma calm_publish s r : calm r (publishState s r).
Proof. unfold publishState. by repeat case_match. Qed.

Lemma calm_setState s r : calm r (setState s r).
Proof. unfold setState. etrans; [|apply calm_publish]. done. Qed.

Lemma calm_goto pt r r' : calm r r' → calm r (goto pt r').
Proof. intros H. etrans; [exact H|done]. Qed.

Lemma calm_closes r : calm r (close_states (close_events (close_done (set_rt_cancelled true r)))).
Proof.
  assert (∀ r, calm r (close_states r)) as H1 by (intros; unfold close_states; by case_match).
  assert (∀ r, calm r (close_events r)) as H2 by (intros; unfold close_events; by case_match).
  assert (∀ r, calm r (close_done r)) as H3 by (intros; unfold close_done; by case_match).
  etrans; [|apply H1]. etrans; [|apply H2]. etrans; [|apply H3]. done.
Qed.

Lemma calm_start_failed k e r : calm r (start_failed cfg k e r).
Proof.
  unfold start_failed. destruct k; [|destruct (_ <=? _)].
  - apply calm_goto. etrans; [|apply calm_closes]. apply calm_setState.
  - apply calm_goto, calm_setState.
  - done.
Qed.

Lemma calm_begin_start k r : calm r (begin_start k r).
Proof. unfold begin_start. destruct k; apply calm_goto; (etrans; [|apply calm_setState]); done. Qed.

Lemma calm_receive p r e r' : receive_exit p r = Some (e, r') → calm r r'.
Proof. unfold receive_exit. by destruct (rt_procs r !! p) as [[[x|] []]|]; intros [= <- <-]. Qed.

Lemma calm_install p s r : calm r (install_adapter p s r).1.
Proof.
  unfold install_adapter. simpl. set (r1 := set_rt_state s _).
  assert (calm r r1) as H1 by (split_and!; simpl; try done; by eexists). apply (transitivity H1). apply (transitivity (calm_publish s r1)). done.
Qed.

Lemma calm_stop r : calm r (stop r).
Proof. apply calm_goto, calm_setState. Qed.

Lemma calm_main c r r' : main_step cfg c r = Some r' → calm r r'.
Proof.
  intros H. unfold main_step in H. destruct (rt_main r); try (destruct c; done).
  - destruct c; simplify_eq. unfold Start. destruct (rt_ctx r); [done|]. simpl. by etrans; [|apply calm_begin_start].
  - destruct c; simplify_eq. destruct (prepare_instance cfg l); simplify_eq; [done|apply calm_start_failed].
  - destruct c; simplify_eq. destruct (connectAdapter failed initialize); simplify_eq; [|done].
    unfold start_succeeded. pose proof (calm_install p (mkState StatusReady count now a None) (set_rt_cmd (Some p) r)) as Hi.
    destruct (install_adapter _ _ _) as [r1 ad]. simpl in Hi. apply calm_goto. etrans; [|destruct k; [exact Hi|etrans; [exact Hi|done]]]. done.
  - destruct c; simplify_eq. destruct (receive_exit p r) as [[e r1]|] eqn:Ex; simplify_eq/=. apply calm_receive in Ex.
    etrans; [exact Ex|apply calm_start_failed].
  - destruct c; simplify_eq. by repeat case_match; simplify_eq.
  - unfold connection_select in H. destruct c; try done.
    + destruct (receive_exit p r) as [[e r1]|] eqn:Ex; simplify_eq/=. apply calm_receive in Ex.
      apply calm_goto. etrans; [exact Ex|apply calm_setState].
    + destruct (rt_cancelled r); by simplify_eq.
    + destruct (rt_wake r) eqn:Ew; simplify_eq. apply calm_goto. etrans; [|apply calm_setState]. done.
    + destruct (adapter_done ad r); [|done]. destruct (rt_cancelled r); simplify_eq; [done|].
      apply calm_goto. set (s := mkState _ _ _ _ _). apply (transitivity (calm_setState s r)). done.
  - unfold reconnect_head, delay in H. destruct (_ <? attempt); [destruct c; by simplify_eq|].
    destruct (0 <? attempt); [|destruct c; by simplify_eq]. destruct (backoff_index _ _); [|by simplify_eq].
    destruct c; simplify_eq; try done.
    + destruct (receive_exit p r) as [[e r1]|] eqn:Ex; simplify_eq/=. apply calm_goto. by eapply calm_receive.
    + destruct (rt_cancelled r); by simplify_eq.
  - destruct c; simplify_eq. destruct (connectAdapter failed initialize); simplify_eq; [|done].
    pose proof (calm_install p (mkState StatusReady (restart_count r) startedAt a None) r) as Hi.
    destruct (install_adapter _ _ _) as [r1 ad']. simplify_eq/=. by apply calm_goto.
  - destruct c; try (by destruct killed); [|destruct killed; by simplify_eq].
    assert (∃ e r1, receive_exit p r = Some (e, r1) ∧ r' = resume_after next r1) as (e & r1 & Ex & ->).
    { destruct (receive_exit p r) as [[e r1]|]; [|by destruct killed]. exists e, r1. by destruct killed; simplify_eq/=. }
    apply calm_receive in Ex. etrans; [exact Ex|]. destruct next; simpl; [apply calm_stop|done].
  - destruct c; by simplify_eq.
  - unfold backoff_head, delay in H. destruct (negb planned || _).
    + destruct (backoff_index _ _); [|by simplify_eq]. destruct c; simplify_eq; [|apply calm_begin_start].
      destruct (rt_cancelled r); simplify_eq. apply calm_stop.
    + destruct c; simplify_eq. apply calm_begin_start.
  - destruct c; simplify_eq. destruct (rt_forwards r); simplify_eq. apply calm_goto. unfold close_events. by case_match.
  - destruct c; simplify_eq. apply calm_goto. unfold close_states. by case_match.
  - destruct c; simplify_eq. apply calm_goto. unfold close_done. by case_match.
Qed.

Lemma done_update (l : list (adapter_view nat)) ad v v' x w : l !! ad = Some v →
  (a_done v = true → a_done v' = true ∧ (a_idle v' = true → a_idle v = true)) → l !! x = Some w → a_done w = true →
  ∃ w', <[ad := v']> l !! x = Some w' ∧ a_done w' = true ∧ (a_idle w' = true → a_idle w = true).
Proof.
  intros Hv Hup Hx Hd. destruct (decide (x = ad)) as [->|Hne].
  - assert (w = v) as -> by congruence. exists v'. rewrite list_lookup_insert_eq by by eapply lookup_lt_Some. naive_solver.
  - exists w. by rewrite list_lookup_insert_ne.
Qed.

Lemma stranded_unasked r r' : stranded r → unasked_step r r' → stranded r'.
Proof.
  intros Hs Hu. pose proof Hs as [Hk Hw]. destruct Hu as [c r r' H|r|i cancel r r' H|i cancel r r' H|r r' H].
  - apply calm_main in H as (A & B & C). apply (stranded_frame r); [done|auto|by rewrite B|].
    intros ad v Hv Hd. exists v. split_and!; [|done|done]. by eapply prefix_lookup_Some.
  - unfold Close. destruct (rt_ctx r); [|done]. apply (stranded_frame r); try done. eauto.
  - unfold watcher_step in H. destruct (rt_watchers r !! i) as [ad|] eqn:Ei; [|done]. simpl in H. destruct cancel.
    + destruct (rt_cancelled r); simplify_eq. apply (stranded_frame r); [done|done| |eauto].
      simpl. intros ad'. rewrite elem_of_app. intros [H|H]; [by eapply subseteq_take|by eapply subseteq_drop].
    + destruct (proj1 (Forall_lookup _ _) Hw i ad Ei) as (v & Hv & Hd & Hidle). rewrite Hv in H. simpl in H. by rewrite Hidle in H.
  - unfold forward_step in H. destruct (rt_forwards r !! i) as [[ad [e|]]|]; [| |done]; simpl in H.
    + destruct cancel; [destruct (rt_cancelled r); by simplify_eq|]. destruct (rt_eventsClosed r); [by simplify_eq|].
      destruct (_ <? _); by simplify_eq.
    + destruct (rt_adapters r !! ad) as [v|] eqn:Ev; [|done]. simpl in H. destruct (a_events v !! a_taken v).
      * simplify_eq. apply (stranded_frame r); [done|done|done|]. simpl. intros x w. by apply (done_update _ _ v).
      * destruct (a_done v); by simplify_eq.
  - destruct H as [r p e Hx|r ad v v' Hv _ _ Hup _ _|r s l Hl|r x l Hl]; try (by apply (stranded_frame r); eauto).
    apply (stranded_frame r); [done|done|done|]. simpl. intros x w. by apply (done_update _ _ v).
Qed.

Lemma stranded_forever r r' : stranded r → rtc unasked_step r r' → rt_wake r' = false.
Proof.
  intros Hs Hr. assert (stranded r') as [? _]; [|done].
  induction Hr as [|r r1 r2 H1 _ IH]; [done|]. by eapply IH, stranded_unasked.
Qed.

End Execution.

Module RuntimeDemo.

Definition demo_cfg : Config := mkConfig "" [] "/run/app.sock" 0 0 1 [] 0 0.
Definition cfg : Config := New_config demo_cfg.
Definition good : launch := mkLaunch (Ok tt) None (Ok tt) (Ok tt) (Ok tt) (Ok tt).
Definition info : InitializeResult := mkInitializeResult "codex" "/h" "unix" "linux".

(** Ready; a turn begins; a restart is asked for and deferred; the connection is lost and
    renewed; the turn is over. *)
Definition start : list action := [AMain Proceed; AMain (DoLaunch good); AMain (DoConnect [None] (Ok info) 5); AMain Proceed].
Definition script : list action :=
  start ++ [ATurns 0 1 false; ARequestRestart; ADisconnect 0; AMain OnDisconnect; AMain Proceed; AMain (DoConnect [] (Ok info) 6)].

Definition run (l : list action) : runtime nat := default New (acts cfg l New).
Definition lost : runtime nat := run script.

Lemma run_reach l r : acts cfg l New = Some r → rt_reach demo_cfg r.
Proof. apply acts_reach. Qed.

(** A deferred restart can be lost: there is a reachable state in which the app-server is
    ready on a new connection with no turn running, a restart is planned, yet, whatever
    happens afterwards, nothing will wake the supervisor up unless a restart is asked for
    again; and asking while a turn runs is answered with "deferred" and changes nothing. *)
Theorem deferred_restart_lost :
  rt_reach demo_cfg lost ∧ rt_planned lost = true ∧ Adapter lost = Ok 1%nat ∧ (a_active <$> rt_adapters lost !! 1%nat) = Some 0%nat ∧
  (∀ r, rtc (unasked_step cfg) lost r → rt_wake r = false) ∧
  let busy := set_rt_adapters (<[1%nat := mkAdapter 0 false 1 false [] 0]> (rt_adapters lost)) lost in
  RequestRestart busy = (busy, Err (ErrSentinel ErrRestartDeferred)).
Proof.
  assert (acts cfg script New = Some lost) as Hr by (vm_compute; reflexivity). split_and!.
  - by eapply run_reach.
  - vm_compute. reflexivity.
  - vm_compute. reflexivity.
  - vm_compute. reflexivity.
  - intros r. apply stranded_forever. split; [vm_compute; reflexivity|].
    vm_compute. constructor; [|constructor]. eexists. split_and!; reflexivity.
  - vm_compute. reflexivity.
Qed.

Definition ready : runtime nat := run start.

Lemma runtime_safe_witness : Adapter ready = Ok 0%nat ∧ rs_Status (rt_state ready) = StatusReady.
Proof.
  assert (acts cfg start New = Some ready) as Hr by (vm_compute; reflexivity).
  assert (Adapter ready = Ok 0%nat) as Ha by (vm_compute; reflexivity).
  split; [exact Ha|].
  destruct (runtime_safe demo_cfg ready (run_reach start ready Hr)) as (_ & _ & H & _).
  exact (proj1 (H 0%nat Ha)).
Defined.

(** The process exits; two restarts fail; the manager gives up. *)
Definition crash : list action := start ++ [AExit 0 None; AMain OnExit].
Definition failing : launch := mkLaunch (Ok tt) None (Ok tt) (Ok tt) (Ok tt) (Err (ErrText "exec: not found")).
Definition crashed : runtime nat := run crash.
Definition gave_up : runtime nat := run (crash ++ [AMain Proceed; AMain OnTimer; AMain (DoLaunch failing); AMain OnTimer; AMain (DoLaunch failing)]).

Lemma restarts_terminate_witness :
  unsettled_run cfg 5 crashed gave_up ∧ rs_Status (rt_state gave_up) = StatusFailed ∧
  (length (rt_procs gave_up) ≤ length (rt_procs crashed) + Z.to_nat (cf_MaxRestarts cfg) + 1)%nat.
Proof.
  assert (acts cfg crash New = Some crashed) as Hr by (vm_compute; reflexivity).
  assert (unsettled_run cfg 5 crashed gave_up) as Hu.
  { eapply (run_main _ _ Proceed); [vm_compute; reflexivity..|]. eapply (run_main _ _ OnTimer); [vm_compute; reflexivity..|].
    eapply (run_main _ _ (DoLaunch failing)); [vm_compute; reflexivity..|]. eapply (run_main _ _ OnTimer); [vm_compute; reflexivity..|].
    eapply (run_main _ _ (DoLaunch failing)); [vm_compute; reflexivity..|]. apply run_nil. vm_compute. reflexivity. }
  split; [exact Hu|]. split; [vm_compute; reflexivity|].
  exact (proj1 (proj2 (restarts_terminate demo_cfg crashed gave_up 5 (run_reach crash crashed Hr) Hu))).
Defined.

End RuntimeDemo.
