(* ===== verification/Float64.v ===== *)
(** * Floating-point numbers of JSON

    [encoding/json] reads a number into a [float64] and prints one with the fewest digits
    that identify it.  A finite [float64] is an integer times a power of two; reading is
    rounding to nearest, ties to even. *)

From Stdlib Require Import Ascii String.
From stdpp Require Import base tactics numbers list gmap strings pretty.
From S2P Require Import Prelude GoError GoStrings.
Local Open Scope string_scope.
Local Open Scope Z_scope.
Local Open Scope list_scope.

(** [f_m * 2 ^ f_e], negated when [f_neg]. *)
Record float64 := mkFloat {
  f_neg : bool;
  f_m : Z;
  f_e : Z;
}.

#[export] Instance float64_eq_dec : EqDecision float64.
Proof. solve_decision. Defined.

(** ** Rounding a positive rational [n / d] *)

(** The integer part of [n / d / 2^e], rounded to nearest, ties to even. *)
Definition scaled (n d e : Z) : Z * Z := if 0 <=? e then (n, d * 2 ^ e) else (n * 2 ^ (- e), d).
Definition round_at (n d e : Z) : Z :=
  let '(a, b) := scaled n d e in
  let q := a / b in
  let r := a mod b in
  if (b <? 2 * r) || ((2 * r =? b) && Z.odd q) then q + 1 else q.

(** The exponent for 53 significant bits, or the smallest one. *)
Definition exponent (n d : Z) : Z :=
  let e := Z.log2 n - Z.log2 d - 52 in
  let '(a, b) := scaled n d e in
  let e := if a / b <? 2 ^ 52 then e - 1 else e in
  e `max` (-1074).

Definition round_pos (n d : Z) : Z * Z := let e := exponent n d in (round_at n d e, e).

(** [None]: the magnitude is too large for a [float64]. *)
Definition of_ratio (neg : bool) (n d : Z) : option float64 :=
  if n =? 0 then Some (mkFloat neg 0 0)
  else let '(m, e) := round_pos n d in
       if (0 <? m) && (1024 <=? Z.log2 m + e) then None else Some (mkFloat neg m e).

(** [digits * 10^exp]; its size is looked at first, since the exponent may be enormous. *)
Definition of_decimal (neg : bool) (digits exp : Z) : option float64 :=
  if digits =? 0 then Some (mkFloat neg 0 0)
  else if 400 <? Z.log2 digits * 3 / 10 + exp then None
  else if Z.log2 digits / 3 + 1 + exp <? -400 then Some (mkFloat neg 0 0)
  else if 0 <=? exp then of_ratio neg (digits * 10 ^ exp) 1 else of_ratio neg digits (10 ^ (- exp)).

(** ** Conversion to integers

    [int64(f)] and [int32(f)] truncate; a value out of range gives the smallest integer of
    the type, as on amd64. *)

Definition truncate (f : float64) : Z :=
  let a := if 0 <=? f_e f then f_m f * 2 ^ f_e f else f_m f / 2 ^ (- f_e f) in
  if f_neg f then - a else a.

Definition to_int (bits : Z) (f : float64) : Z :=
  let x := truncate f in if (- 2 ^ (bits - 1) <=? x) && (x <? 2 ^ (bits - 1)) then x else - 2 ^ (bits - 1).
Definition int64_of (f : float64) : Z := to_int 64 f.
Definition int32_of (f : float64) : Z := to_int 32 f.

(** ** Printing *)

Definition ratio (f : float64) : Z * Z := if 0 <=? f_e f then (f_m f * 2 ^ f_e f, 1) else (f_m f, 2 ^ (- f_e f)).

(** The number [k] with [10^(k-1) <= n/d < 10^k], found upwards from an estimate. *)
Fixpoint decimal_point (fuel : nat) (k n d : Z) : Z :=
  match fuel with
  | O => k
  | S fuel =>
      let below := if 0 <=? k then n <? d * 10 ^ k else n * 10 ^ (- k) <? d in
      if below then k else decimal_point fuel (k + 1) n d
  end.

(** [n / d] in units of [10^u], rounded to nearest. *)
Definition in_units (n d u : Z) : Z :=
  let '(a, b) := if 0 <=? u then (n, d * 10 ^ u) else (n * 10 ^ (- u), d) in (2 * a + b) / (2 * b).

Definition same_value (f g : float64) : bool :=
  let '(a, b) := ratio f in let '(c, d) := ratio g in a * d =? c * b.

(** The fewest digits, at most seventeen, that read back as the number; [k] is the
    position of the decimal point. *)
Fixpoint shortest (fuel : nat) (p k : Z) (f : float64) : Z * Z :=
  let '(n, d) := ratio f in
  let c := in_units n d (k - p) in
  match fuel with
  | O => (c, k - p)
  | S fuel =>
      match of_decimal false c (k - p) with
      | Some g => if same_value g f then (c, k - p) else shortest fuel (p + 1) k f
      | None => shortest fuel (p + 1) k f
      end
  end.

Fixpoint strip_zeros (fuel : nat) (c u : Z) : Z * Z :=
  match fuel with
  | O => (c, u)
  | S fuel => if (c mod 10 =? 0) && negb (c =? 0) then strip_zeros fuel (c / 10) (u + 1) else (c, u)
  end.

(** The significant digits and the position of the decimal point. *)
Definition digits_of (f : float64) : string * Z :=
  if f_m f =? 0 then ("0", 1)
  else
    let '(n, d) := ratio f in
    let k := decimal_point 400 ((Z.log2 n - Z.log2 d - 1) * 3 / 10 - 1) n d in
    let '(c, u) := shortest 17 1 k (mkFloat false (f_m f) (f_e f)) in
    let '(c, u) := strip_zeros 20 c u in
    (pretty c, u + slen (pretty c)).

Definition zeros (n : Z) : string := of_chars (replicate (Z.to_nat n) "0"%char).

(** Without an exponent. *)
Definition plain_form (ds : string) (k : Z) : string :=
  if k <=? 0 then "0." +:+ zeros (- k) +:+ ds
  else if slen ds <=? k then ds +:+ zeros (k - slen ds)
  else str_take (Z.to_nat k) ds +:+ "." +:+ str_drop (Z.to_nat k) ds.

(** With an exponent of at least [width] digits. *)
Definition exp_form (width : Z) (ds : string) (k : Z) : string :=
  let e := k - 1 in
  let ax := pretty (Z.abs e) in
  str_take 1 ds +:+ (if slen ds =? 1 then "" else "." +:+ str_drop 1 ds) +:+ "e" +:+ (if e <? 0 then "-" else "+") +:+
  zeros (width - slen ax) +:+ ax.

Definition signed (f : float64) (s : string) : string := if f_neg f then "-" +:+ s else s.

(** How [encoding/json] prints: plain between 1e-6 and 1e21; a two-digit negative
    exponent loses its zero. *)
Definition json_number (f : float64) : string :=
  let '(ds, k) := digits_of f in
  signed f (if (f_m f =? 0) || ((-6 <? k) && (k <=? 21)) then plain_form ds k
            else exp_form (if k <? 1 then 1 else 2) ds k).

(** How [fmt.Sprint] does. *)
Definition sprint_number (f : float64) : string :=
  let '(ds, k) := digits_of f in
  signed f (if (k <? -3) || (6 <? k) then exp_form 2 ds k else plain_form ds k).

(** Readings and printings of well-known numbers. *)
Definition print_of (neg : bool) (digits exp : Z) : option string := json_number <$> of_decimal neg digits exp.

Example prints :
  print_of false 1 (-1) = Some "0.1" ∧ print_of true 15 0 = Some "-15" ∧ print_of false 30000000000000004 (-17) = Some "0.30000000000000004" ∧
  print_of false 1 21 = Some "1e+21" ∧ print_of false 1 20 = Some "100000000000000000000" ∧ print_of false 15 (-8) = Some "1.5e-7" ∧
  print_of false 17976931348623157 292 = Some "1.7976931348623157e+308" ∧ of_decimal false 1 309 = None ∧
  print_of false 5 (-324) = Some "5e-324" ∧ print_of false 9007199254740993 0 = Some "9007199254740992".
Proof. vm_compute. done. Qed.
