(* ===== verification/Json.v ===== *)
(** * encoding/json

    The decoder and the encoder of Go's [encoding/json], as the Host uses them: the syntax
    check and the tree of a text (every child keeps its own text, which a
    [json.RawMessage] stores), decoding into structs and into [any], and encoding. *)

From Stdlib Require Import Ascii String.
From stdpp Require Import base tactics numbers list gmap strings pretty.
From S2P Require Import Prelude GoError GoStrings Float64.
Local Open Scope string_scope.
Local Open Scope Z_scope.
Local Open Scope list_scope.

(** ** Trees *)

(** A number is [mant * 10^exp], negated when [neg]; [integral] when its text has neither
    a fraction nor an exponent.  Members of an object are in the order of the text. *)
Inductive json :=
| JNull
| JBool (b : bool)
| JNum (neg : bool) (mant exp : Z) (integral : bool)
| JStr (s : string)
| JArr (elems : list (string * json))
| JObj (members : list (string * (string * json))).

(** A value with its text. *)
Notation node := (string * json)%type.

Definition chr (n : nat) : ascii := ascii_of_nat n.
Definition dquote : ascii := chr 34.

(** ** Numbers and strings *)

Definition digit_of (c : ascii) : option Z := if in_range 48 57 (bval c) then Some (bval c - 48) else None.

(** The leading digits: their value, their number and what follows. *)
Fixpoint take_digits (acc : Z) (n : nat) (l : list ascii) : Z * nat * list ascii :=
  match l with
  | [] => (acc, n, [])
  | c :: l' => match digit_of c with Some d => take_digits (acc * 10 + d) (S n) l' | None => (acc, n, l) end
  end.

Definition parse_exponent (l : list ascii) : option (option Z * list ascii) :=
  match l with
  | c :: l1 =>
      if bool_decide (lower_char c = "e"%char) then
        let '(sign, l2) := match l1 with
                           | "-"%char :: r => (-1, r)
                           | "+"%char :: r => (1, r)
                           | _ => (1, l1)
                           end in
        let '(v, n, l3) := take_digits 0 0 l2 in
        if (n =? 0)%nat then None else Some (Some (sign * v), l3)
      else Some (None, l)
  | [] => Some (None, l)
  end.

Definition parse_number (l : list ascii) : option (json * list ascii) :=
  let '(neg, l1) := match l with "-"%char :: r => (true, r) | _ => (false, l) end in
  let int := match l1 with
             | "0"%char :: r => Some (0, r)
             | _ => let '(v, n, r) := take_digits 0 0 l1 in if (n =? 0)%nat then None else Some (v, r)
             end in
  '(v, l2) ← int;
  let frac := match l2 with
              | "."%char :: r => let '(w, n, r') := take_digits v 0 r in if (n =? 0)%nat then None else Some (w, n, r')
              | _ => Some (v, 0%nat, l2)
              end in
  '(w, places, l3) ← frac;
  '(e, l4) ← parse_exponent l3;
  Some (JNum neg w (default 0 e - Z.of_nat places) ((places =? 0)%nat && bool_decide (e = None)), l4).

Definition hex_value (c : ascii) : option Z :=
  let x := bval (lower_char c) in
  if in_range 48 57 x then Some (x - 48) else if in_range 97 102 x then Some (x - 87) else None.

Definition hex4 (a b c d : ascii) : option Z :=
  w ← hex_value a; x ← hex_value b; y ← hex_value c; z ← hex_value d; Some (((w * 16 + x) * 16 + y) * 16 + z).

Definition zchr (n : Z) : ascii := ascii_of_N (Z.to_N n).

(** [utf8.AppendRune]; a surrogate encodes as U+FFFD. *)
Definition utf8_encode (r : Z) : list ascii :=
  if r <? 128 then [zchr r]
  else if r <? 2048 then [zchr (192 + r / 64); zchr (128 + r mod 64)]
  else if in_range 55296 57343 r then [chr 239; chr 191; chr 189]
  else if r <? 65536 then [zchr (224 + r / 4096); zchr (128 + r / 64 mod 64); zchr (128 + r mod 64)]
  else [zchr (240 + r / 262144); zchr (128 + r / 4096 mod 64); zchr (128 + r / 64 mod 64); zchr (128 + r mod 64)].

Definition replacement : list ascii := [chr 239; chr 191; chr 189].

Definition is_high (r : Z) : bool := in_range 55296 56319 r.
Definition is_low (r : Z) : bool := in_range 56320 57343 r.

Definition short_escape (c : ascii) : option ascii :=
  match c with
  | "b"%char => Some (chr 8) | "f"%char => Some (chr 12) | "n"%char => Some (chr 10)
  | "r"%char => Some (chr 13) | "t"%char => Some (chr 9) | "\"%char => Some "\"%char
  | "/"%char => Some "/"%char
  | _ => if bool_decide (c = dquote) then Some dquote else None
  end.

Definition prepend (p : list ascii) (r : option (list ascii * list ascii)) : option (list ascii * list ascii) :=
  '(s, rest) ← r; Some (p ++ s, rest).

(** After the opening quote, up to the closing one; [inside] bytes of a character are
    still to be copied. *)
Fixpoint parse_string (inside : nat) (l : list ascii) : option (list ascii * list ascii) :=
  match l with
  | [] => None
  | c :: l1 =>
      match inside with
      | S n => prepend [c] (parse_string n l1)
      | O =>
          if bool_decide (c = dquote) then Some ([], l1)
          else if bool_decide (c = "\"%char) then
            match l1 with
            | "u"%char :: a1 :: a2 :: a3 :: a4 :: l2 =>
                r ← hex4 a1 a2 a3 a4;
                if is_high r then
                  match l2 with
                  | "\"%char :: "u"%char :: b1 :: b2 :: b3 :: b4 :: l3 =>
                      r2 ← hex4 b1 b2 b3 b4;
                      if is_low r2 then
                        prepend (utf8_encode (65536 + (r - 55296) * 1024 + (r2 - 56320))) (parse_string 0 l3)
                      else prepend replacement (parse_string 0 l2)
                  | _ => prepend replacement (parse_string 0 l2)
                  end
                else prepend (utf8_encode r) (parse_string 0 l2)
            | e :: l2 => x ← short_escape e; prepend [x] (parse_string 0 l2)
            | [] => None
            end
          else if bval c <? 32 then None
          else match rune_width l with
               | None => prepend replacement (parse_string 0 l1)
               | Some n => prepend [c] (parse_string (n - 1) l1)
               end
      end
  end.

(** ** Values *)

Definition is_ws (c : ascii) : bool :=
  let n := nat_of_ascii c in (n =? 32)%nat || (n =? 9)%nat || (n =? 10)%nat || (n =? 13)%nat.

Fixpoint skip_ws (l : list ascii) : list ascii :=
  match l with c :: l' => if is_ws c then skip_ws l' else l | [] => [] end.

(** The text between [l] and its suffix [rest]. *)
Definition text_until (l rest : list ascii) : string := of_chars (take (length l - length rest) l).

Definition max_depth : nat := 100 * 100.

(** [fuel] bounds the recursion, [depth] is the nesting still allowed. *)
Fixpoint parse_value (fuel depth : nat) (l : list ascii) : option (json * list ascii) :=
  match fuel with
  | O => None
  | S fuel =>
      match l with
      | "{"%char :: l1 =>
          match depth with
          | O => None
          | S depth =>
              match skip_ws l1 with
              | "}"%char :: l2 => Some (JObj [], l2)
              | l2 => '(ms, l3) ← parse_members fuel depth l2; Some (JObj ms, l3)
              end
          end
      | "["%char :: l1 =>
          match depth with
          | O => None
          | S depth =>
              match skip_ws l1 with
              | "]"%char :: l2 => Some (JArr [], l2)
              | l2 => '(es, l3) ← parse_elems fuel depth l2; Some (JArr es, l3)
              end
          end
      | "t"%char :: "r"%char :: "u"%char :: "e"%char :: l1 => Some (JBool true, l1)
      | "f"%char :: "a"%char :: "l"%char :: "s"%char :: "e"%char :: l1 => Some (JBool false, l1)
      | "n"%char :: "u"%char :: "l"%char :: "l"%char :: l1 => Some (JNull, l1)
      | c :: l1 =>
          if bool_decide (c = dquote) then '(s, l2) ← parse_string 0 l1; Some (JStr (of_chars s), l2)
          else parse_number l
      | [] => None
      end
  end
with parse_elems (fuel depth : nat) (l : list ascii) : option (list node * list ascii) :=
  match fuel with
  | O => None
  | S fuel =>
      '(v, l1) ← parse_value fuel depth l;
      match skip_ws l1 with
      | "]"%char :: l2 => Some ([(text_until l l1, v)], l2)
      | ","%char :: l2 => '(es, l3) ← parse_elems fuel depth (skip_ws l2); Some ((text_until l l1, v) :: es, l3)
      | _ => None
      end
  end
with parse_members (fuel depth : nat) (l : list ascii) : option (list (string * node) * list ascii) :=
  match fuel with
  | O => None
  | S fuel =>
      match l with
      | c :: l1 =>
          if bool_decide (c = dquote) then
            '(key, l2) ← parse_string 0 l1;
            match skip_ws l2 with
            | ":"%char :: l3 =>
                let l3 := skip_ws l3 in
                '(v, l4) ← parse_value fuel depth l3;
                let member := (of_chars key, (text_until l3 l4, v)) in
                match skip_ws l4 with
                | "}"%char :: l5 => Some ([member], l5)
                | ","%char :: l5 => '(ms, l6) ← parse_members fuel depth (skip_ws l5); Some (member :: ms, l6)
                | _ => None
                end
            | _ => None
            end
          else None
      | [] => None
      end
  end.

(** The tree of a whole text; every call of the recursion consumes a character or moves
    from an element to its value. *)
Definition json_parse (raw : string) : option node :=
  let l := skip_ws (chars raw) in
  '(v, rest) ← parse_value (2 * length l + 2) max_depth l;
  match skip_ws rest with
  | [] => Some (text_until l rest, v)
  | _ => None
  end.

(** [json.Valid]. *)
Definition json_valid (raw : string) : bool := bool_decide (is_Some (json_parse raw)).

(** ** Decoding into typed values

    A decoder changes the value it is given and says whether it met an error; on an error
    the rest is still decoded. *)

Definition decoder (A : Type) : Type := node → A → A * bool.

Definition dec_string : decoder string := λ n a,
  match n.2 with JStr s => (s, true) | JNull => (a, true) | _ => (a, false) end.

Definition dec_bool : decoder bool := λ n a,
  match n.2 with JBool b => (b, true) | JNull => (a, true) | _ => (a, false) end.

(** [strconv.ParseInt] of the text of the number. *)
Definition dec_int64 : decoder Z := λ n a,
  match n.2 with
  | JNum neg m _ true =>
      let x := if neg then - m else m in if in_range (- 2 ^ 63) (2 ^ 63 - 1) x then (x, true) else (a, false)
  | JNull => (a, true)
  | _ => (a, false)
  end.

(** A [json.RawMessage] takes the text of the value, [null] included. *)
Definition dec_raw : decoder string := λ n _, (n.1, true).

(** A pointer is allocated before its target is decoded. *)
Definition dec_ptr {A} (zero : A) (d : decoder A) : decoder (option A) := λ n a,
  match n.2 with
  | JNull => (None, true)
  | _ => let '(x, ok) := d n (default zero a) in (Some x, ok)
  end.

Fixpoint dec_elems {A} (zero : A) (d : decoder A) (ns : list node) (old : list A) : list A * bool :=
  match ns with
  | [] => ([], true)
  | n :: ns =>
      let '(x, ok) := d n (default zero (head old)) in
      let '(xs, oks) := dec_elems zero d ns (tail old) in
      (x :: xs, ok && oks)
  end.

(** An array is decoded over the elements already there. *)
Definition dec_slice {A} (zero : A) (d : decoder A) : decoder (list A) := λ n a,
  match n.2 with
  | JArr es => dec_elems zero d es a
  | JNull => ([], true)
  | _ => (a, false)
  end.

(** A field of a struct: how its decoder acts on the struct. *)
Definition field {A S} (get : S → A) (set : A → S → S) (d : decoder A) : decoder S := λ n s,
  let '(x, ok) := d n (get s) in (set x s, ok).

(** Field names are compared exactly first, then without regard to case (U+017F counts
    as an s, U+212A as a k). *)
Fixpoint fold_name (l : list ascii) : list ascii :=
  match l with
  | [] => []
  | c :: r =>
      match bval c, r with
      | 197, d :: r' => if bval d =? 191 then "s"%char :: fold_name r' else c :: fold_name r
      | 226, d :: ((e :: r') as r1) =>
          if (bval d =? 132) && (bval e =? 170) then "k"%char :: fold_name r' else c :: fold_name r
      | _, _ => lower_char c :: fold_name r
      end
  end.

Definition find_field {A} (fields : list (string * A)) (key : string) : option A :=
  match List.find (λ f, bool_decide (f.1 = key)) fields with
  | Some f => Some f.2
  | None => snd <$> List.find (λ f, bool_decide (fold_name (chars f.1) = fold_name (chars key))) fields
  end.

Fixpoint dec_members {S} (fields : list (string * decoder S)) (ms : list (string * node)) (s : S) : S * bool :=
  match ms with
  | [] => (s, true)
  | (key, n) :: ms =>
      let '(s, ok) := match find_field fields key with Some d => d n s | None => (s, true) end in
      let '(s, oks) := dec_members fields ms s in
      (s, ok && oks)
  end.

Definition dec_struct {S} (fields : list (string * decoder S)) : decoder S := λ n s,
  match n.2 with
  | JObj ms => dec_members fields ms s
  | JNull => (s, true)
  | _ => (s, false)
  end.

(** [json.Unmarshal]: nothing is decoded when the text is not valid. *)
Definition Unmarshal {A} (d : decoder A) (raw : string) (a : A) : A * bool :=
  match json_parse raw with
  | Some n => d n a
  | None => (a, false)
  end.

(** ** Values of type any

    What the decoder puts into an [any], and what the encoder is given: an object's keys
    are sorted and distinct, a struct's fields in their order.  [AInt] and [ARaw] are only
    encoded. *)

Inductive any :=
| ANil
| ABool (b : bool)
| ANum (f : float64)
| AInt (x : Z)
| AStr (s : string)
| AArr (elems : list any)
| AObj (members : list (string * any))
| ARaw (raw : string).

(** Storing a key into a sorted list of members. *)
Fixpoint put_member {A} (key : string) (v : A) (ms : list (string * A)) : list (string * A) :=
  match ms with
  | [] => [(key, v)]
  | (k, w) :: ms' =>
      match String.compare key k with
      | Lt => (key, v) :: ms
      | Eq => (key, v) :: ms'
      | Gt => (k, w) :: put_member key v ms'
      end
  end.

(** A [map] literal or a decoded object: the last of equal keys stays. *)
Definition of_members {A} (ms : list (string * A)) : list (string * A) :=
  foldl (λ acc m, put_member m.1 m.2 acc) [] ms.

Definition AMap (ms : list (string * any)) : any := AObj (of_members ms).

(** The value and whether every number fits; one that does not decodes as nil. *)
Fixpoint to_any (j : json) : any * bool :=
  match j with
  | JNull => (ANil, true)
  | JBool b => (ABool b, true)
  | JNum neg m e _ => match of_decimal neg m e with Some f => (ANum f, true) | None => (ANil, false) end
  | JStr s => (AStr s, true)
  | JArr es =>
      let vs := (λ n, to_any n.2) <$> es in (AArr (fst <$> vs), forallb snd vs)
  | JObj ms =>
      let vs := (λ m, (m.1, to_any m.2.2)) <$> ms in
      (AMap ((λ m, (m.1, m.2.1)) <$> vs), forallb (λ m, m.2.2) vs)
  end.

(** [json.Unmarshal] into a [map[string]any]: [None] on an error, [Some None] is the nil
    map. *)
Definition decode_object (raw : string) : option (option (list (string * any))) :=
  match json_parse raw with
  | Some (_, j) =>
      match to_any j with
      | (AObj ms, true) => Some (Some ms)
      | (ANil, true) => Some None
      | _ => None
      end
  | None => None
  end.

(** [body[key]]; a missing key reads as nil. *)
Definition member (ms : list (string * any)) (key : string) : option any :=
  snd <$> List.find (λ m, bool_decide (m.1 = key)) ms.
Definition get_member (ms : list (string * any)) (key : string) : any := default ANil (member ms key).

(** ** Encoding *)

Definition unicode_escape (n : Z) : list ascii :=
  "\"%char :: "u"%char :: hex_digit (n / 4096) :: hex_digit (n / 256 mod 16) :: hex_digit (n / 16 mod 16) :: [hex_digit (n mod 16)].

Definition escape_char (c : ascii) : list ascii :=
  let n := nat_of_ascii c in
  if (n =? 34)%nat || (n =? 92)%nat then ["\"%char; c]
  else match n with
       | 8 => ["\"%char; "b"%char] | 12 => ["\"%char; "f"%char] | 10 => ["\"%char; "n"%char]
       | 13 => ["\"%char; "r"%char] | 9 => ["\"%char; "t"%char]
       | 60 | 62 | 38 => unicode_escape (bval c)
       | _ => if (n <? 32)%nat then unicode_escape (bval c) else [c]
       end%nat.

(** U+2028 and U+2029. *)
Definition line_separator (l : list ascii) : option Z :=
  match l with
  | a :: b :: c :: _ =>
      if (bval a =? 226) && (bval b =? 128) && ((bval c =? 168) || (bval c =? 169)) then Some (8064 + bval c) else None
  | _ => None
  end.

(** [skip] bytes are part of a character already written, [inside] are to be copied. *)
Fixpoint escape_list (skip inside : nat) (l : list ascii) : list ascii :=
  match l with
  | [] => []
  | c :: l' =>
      match skip, inside with
      | S n, _ => escape_list n inside l'
      | O, S n => c :: escape_list 0 n l'
      | O, O =>
          match line_separator l, rune_width l with
          | Some r, _ => unicode_escape r ++ escape_list 2 0 l'
          | None, None => unicode_escape 65533 ++ escape_list 0 0 l'
          | None, Some (S (S n)) => c :: escape_list 0 (S n) l'
          | None, Some _ => escape_char c ++ escape_list 0 0 l'
          end
      end
  end.

Definition quoted (l : list ascii) : string := of_chars (dquote :: l ++ [dquote]).
Definition encode_string (s : string) : string := quoted (escape_list 0 0 (chars s)).

(** A raw message is written without the white space between its tokens and with the
    escapes of [encode_string] for characters special to HTML. *)
Fixpoint compact_list (skip : nat) (in_string escaped : bool) (l : list ascii) : list ascii :=
  match l with
  | [] => []
  | c :: l' =>
      match skip with
      | S n => compact_list n in_string escaped l'
      | O =>
          if in_string then
            match line_separator l with
            | Some r => unicode_escape r ++ compact_list 2 true false l'
            | None =>
                let n := nat_of_ascii c in
                let out := if (n =? 60)%nat || (n =? 62)%nat || (n =? 38)%nat then unicode_escape (bval c) else [c] in
                out ++ (if escaped then compact_list 0 true false l'
                        else if bool_decide (c = "\"%char) then compact_list 0 true true l'
                        else compact_list 0 (negb (bool_decide (c = dquote))) false l')
            end
          else if is_ws c then compact_list 0 false false l'
          else c :: compact_list 0 (bool_decide (c = dquote)) false l'
      end
  end.

Definition compact (raw : string) : option string :=
  if json_valid raw then Some (of_chars (compact_list 0 false false (chars raw))) else None.

Fixpoint sep_by (sep : string) (l : list string) : string :=
  match l with
  | [] => ""
  | [x] => x
  | x :: l => x +:+ sep +:+ sep_by sep l
  end.

(** [json.Marshal]; a nil [RawMessage] is [null], one that is not valid an error. *)
Fixpoint json_encode (v : any) : option string :=
  match v with
  | ANil => Some "null"
  | ABool b => Some (if b then "true" else "false")
  | ANum f => Some (json_number f)
  | AInt x => Some (pretty x)
  | AStr s => Some (encode_string s)
  | AArr vs => ts ← mapM json_encode vs; Some ("[" +:+ sep_by "," ts +:+ "]")
  | AObj ms => ts ← mapM (λ m, t ← json_encode m.2; Some (encode_string m.1 +:+ ":" +:+ t)) ms; Some ("{" +:+ sep_by "," ts +:+ "}")
  | ARaw raw => if str_empty raw then Some "null" else compact raw
  end.

(** ** Examples *)

(** JSON text written with apostrophes for its quotes. *)
Definition js (s : string) : string := of_chars ((λ c, if bool_decide (c = chr 39) then dquote else c) <$> chars s).

Definition reencode (raw : string) : option string := '(_, j) ← json_parse raw; json_encode (to_any j).1.

Example reencodings :
  reencode (js " { 'b' : [1, 2.50e1 ,-0 ], 'a':{'x':null,'y':true} ,'b':'<\u00e9\n\ud83d\ude00\ud800>' } ")
    = Some (js "{'a':{'x':null,'y':true},'b':'\u003cé\n😀�\u003e'}") ∧
  reencode "[1e400]" = Some "[null]" ∧ reencode "[01]" = None ∧ reencode "[1,]" = None ∧ reencode (js "{'a' 1}") = None ∧
  reencode "1 2" = None ∧ reencode " -12.5 " = Some "-12.5" ∧ reencode "" = None ∧
  compact (js " [ 'a b' , 'x\'y & z' ] ") = Some (js "['a b','x\'y \u0026 z']").
Proof. vm_compute. done. Qed.
