(* ===== verification/JsonTheorems.v ===== *)
(** * encoding/json: reading back what was written

    The decoder applied to the encoder's text gives the value back, for values built from
    strings, booleans, nil, arrays and maps. *)

From Stdlib Require Import Ascii String.
From stdpp Require Import base tactics numbers list sorting gmap strings pretty.
From S2P Require Import Prelude GoError GoStrings GoPath Float64 Json.
Local Open Scope string_scope.
Local Open Scope Z_scope.
Local Open Scope list_scope.

(** ** Characters *)

(** A valid text starts with a character, and what follows is valid. *)
Lemma valid_utf8_head c l : valid_utf8 (c :: l) = true →
  ∃ n, rune_width (c :: l) = Some (S n) ∧ (n ≤ length l)%nat ∧ valid_utf8 (drop n l) = true.
Proof.
  intros H. unfold rune_width. simpl in H.
  destruct (in_range 0 127 (bval c)) eqn:E1; [exists 0%nat; simpl; rewrite E1; split_and!; [done|lia|by rewrite drop_0]|].
  destruct l as [|b l]; [done|]. destruct (in_range 194 223 (bval c)) eqn:E2.
  { to_prop. exists 1%nat. simpl. rewrite E1, E2. split_and!; [|lia|by rewrite drop_0]. by rewrite H. }
  destruct l as [|d l]; [done|].
  destruct (bval c =? 224) eqn:E3; [|destruct (in_range 225 236 (bval c)) eqn:E4; [|destruct (bval c =? 237) eqn:E5; [|destruct (in_range 238 239 (bval c)) eqn:E6]]].
  1-4: apply andb_prop in H as [Ht H]; exists 2%nat; simpl; rewrite E1, E2, E3, ?E4, ?E5, ?E6, Ht;
    (split_and!; [done|lia|by rewrite drop_0]).
  destruct l as [|e l]; [done|].
  exists 3%nat. simpl. rewrite E1, E2, E3, E4, E5, E6.
  destruct (bval c =? 240), (in_range 241 243 (bval c)), (bval c =? 244); to_prop; try done;
    (split_and!; [|lia|by rewrite drop_0]); repeat (match goal with H : _ = true |- _ => rewrite H end); done.
Qed.

(** The width of a character depends on its bytes only. *)
Lemma rune_width_app c p k l n : rune_width (c :: p ++ k) = Some (S n) → n = length p → rune_width (c :: p ++ l) = Some (S n).
Proof.
  intros H ->. unfold rune_width in *.
  assert (∀ m, (m ≤ S (length p))%nat → ((m <=? length (c :: p ++ l))%nat && valid_utf8 (take m (c :: p ++ l))) =
    ((m <=? length (c :: p ++ k))%nat && valid_utf8 (take m (c :: p ++ k)))) as Heq.
  { intros m Hm. f_equal.
    - simpl. rewrite !length_app. destruct m; [done|]. destruct (S m <=? _)%nat eqn:E1, (S m <=? S (length p + length k))%nat eqn:E2; try done.
      all: apply Nat.leb_gt in E1 || apply Nat.leb_gt in E2; lia.
    - f_equal. destruct m as [|m]; [done|]. simpl. f_equal. rewrite !take_app_le by lia. done. }
  cbn [List.find] in *.
  destruct (length p) as [|[|[|[|q]]]] eqn:El; rewrite ?(Heq 1%nat), ?(Heq 2%nat), ?(Heq 3%nat), ?(Heq 4%nat) by lia; repeat case_match; done.
Qed.

Lemma rune_width_le l n : rune_width l = Some n → (1 ≤ n ≤ 4)%nat ∧ (n ≤ length l)%nat.
Proof.
  unfold rune_width. intros H. apply List.find_some in H as [Hin Ht]. apply andb_prop in Ht as [Ht _].
  apply Nat.leb_le in Ht. split; [|done]. simpl in Hin. lia.
Qed.

(** Bytes of one character are copied. *)
Lemma escape_inside p k n : n = length p → escape_list 0 n (p ++ k) = p ++ escape_list 0 0 k.
Proof. intros ->. induction p as [|c p IH]; simpl; [done|]. by rewrite IH. Qed.

Lemma parse_inside p k n : n = length p → parse_string n (p ++ k) = prepend p (parse_string 0 k).
Proof.
  intros ->. induction p as [|c p IH]; simpl; [by destruct (parse_string 0 k) as [[]|]|].
  rewrite IH. by destruct (parse_string 0 k) as [[]|].
Qed.

Lemma skip_escape k a b : escape_list 2 0 (a :: b :: k) = escape_list 0 0 k.
Proof. done. Qed.

Lemma parse_ascii c k : in_range 0 127 (bval c) = true → parse_string 0 (escape_char c ++ k) = prepend [c] (parse_string 0 k).
Proof. destruct c as [[] [] [] [] [] [] [] []]; intros H; first [discriminate H|reflexivity]. Qed.

Lemma bval_inj a b : bval a = bval b → a = b.
Proof. unfold bval. intros H. apply N2Z.inj in H. rewrite <- (ascii_N_embedding a), <- (ascii_N_embedding b). by rewrite H. Qed.

Lemma line_separator_Some l r : line_separator l = Some r →
  ∃ k c, l = chr 226 :: chr 128 :: c :: k ∧ (c = chr 168 ∧ r = 8232 ∨ c = chr 169 ∧ r = 8233).
Proof.
  unfold line_separator. destruct l as [|a [|b [|c l]]]; try done. destruct (bval a =? 226) eqn:Ea, (bval b =? 128) eqn:Eb; try done.
  apply Z.eqb_eq in Ea, Eb. rewrite (bval_inj a (chr 226)), (bval_inj b (chr 128)) by done. simpl.
  destruct (bval c =? 168) eqn:Ec; [|destruct (bval c =? 169) eqn:Ec2; [|done]]; simpl; intros [= <-]; exists l, c; (split; [done|]).
  - apply Z.eqb_eq in Ec. left. split; [by apply bval_inj|lia].
  - apply Z.eqb_eq in Ec2. right. split; [by apply bval_inj|lia].
Qed.

Lemma rune_width_one c l : rune_width (c :: l) = Some 1%nat → in_range 0 127 (bval c) = true.
Proof.
  unfold rune_width. cbn [List.find]. destruct ((1 <=? length (c :: l))%nat && _) eqn:E1.
  - intros _. simpl in E1. by destruct (in_range 0 127 (bval c)).
  - intros H. repeat match type of H with context [if ?b then _ else _] => destruct b; [discriminate H|] end. discriminate H.
Qed.

Lemma parse_separator r c k : c = chr 168 ∧ r = 8232 ∨ c = chr 169 ∧ r = 8233 →
  parse_string 0 (unicode_escape r ++ k) = prepend [chr 226; chr 128; c] (parse_string 0 k).
Proof. intros [[-> ->]|[-> ->]]; reflexivity. Qed.

(** A byte of a longer character is no quote, no backslash and no control character. *)
Lemma parse_rune c l n : rune_width (c :: l) = Some (S (S n)) → parse_string 0 (c :: l) = prepend [c] (parse_string (S n) l).
Proof.
  intros H. assert (in_range 0 127 (bval c) = false) as Hr.
  { unfold rune_width in H. simpl in H. destruct (in_range 0 127 (bval c)); [|done]. simpl in H. congruence. }
  unfold in_range in Hr. pose proof (N_ascii_bounded c) as Hb.
  assert (128 <= bval c) as Hge.
  { assert (0 <= bval c) by (unfold bval; lia). destruct (0 <=? bval c) eqn:E1, (bval c <=? 127) eqn:E2; simpl in Hr; to_prop; lia || done. }
  cbn [parse_string]. rewrite bool_decide_eq_false_2 by (intros ->; apply Hge; vm_compute; reflexivity).
  rewrite bool_decide_eq_false_2 by (intros ->; apply Hge; vm_compute; reflexivity).
  destruct (bval c <? 32) eqn:E; [apply Z.ltb_lt in E; lia|]. rewrite H. done.
Qed.

Lemma parse_escape l k : valid_utf8 l = true → parse_string 0 (escape_list 0 0 l ++ dquote :: k) = Some (l, k).
Proof.
  remember (length l) as len eqn:Hlen. revert l Hlen. induction (lt_wf len) as [len _ IH]. intros [|c l] -> Hv; [done|].
  destruct (valid_utf8_head c l Hv) as (n&Hw&Hn&Hd).
  cbn [escape_list]. destruct (line_separator (c :: l)) as [r|] eqn:Hl.
  - destruct (line_separator_Some _ _ Hl) as (k'&c'&Heq&Hr). injection Heq as -> ->.
    assert (n = 2%nat) as -> by (destruct Hr as [[-> ->]|[-> ->]]; vm_compute in Hw; congruence).
    assert (parse_string 0 (escape_list 0 0 k' ++ dquote :: k) = Some (k', k)) as Hk.
    { eapply IH; [|done|]; [simpl; lia|done]. }
    rewrite skip_escape, <- app_assoc, (parse_separator r c') by done. by rewrite Hk.
  - rewrite Hw. destruct n as [|n].
    + rewrite <- app_assoc, parse_ascii by by eapply rune_width_one.
      rewrite (IH (length l)); [done|simpl; lia|done|]. by rewrite drop_0 in Hd.
    + assert (l = take (S n) l ++ drop (S n) l) as Hsplit by by rewrite take_drop.
      assert (length (take (S n) l) = S n) as Hlen by (rewrite length_take; lia).
      rewrite Hsplit at 1. rewrite escape_inside by done. simpl app. rewrite <- app_assoc.
      rewrite parse_rune with (n := n); [|rewrite Hsplit in Hw; by eapply rune_width_app].
      rewrite parse_inside by done. rewrite (IH (length (drop (S n) l))); [|rewrite length_drop; simpl; lia|done|done].
      simpl. by rewrite take_drop.
Qed.

(** ** Values *)

Section any_induction.
Context (P : any → Prop).
Hypothesis Hnil : P ANil.
Hypothesis Hbool : ∀ b, P (ABool b).
Hypothesis Hnum : ∀ f, P (ANum f).
Hypothesis Hint : ∀ x, P (AInt x).
Hypothesis Hstr : ∀ s, P (AStr s).
Hypothesis Harr : ∀ vs, Forall P vs → P (AArr vs).
Hypothesis Hobj : ∀ ms, Forall (λ m, P m.2) ms → P (AObj ms).
Hypothesis Hraw : ∀ raw, P (ARaw raw).

Fixpoint any_nested_ind (v : any) : P v :=
  match v with
  | ANil => Hnil
  | ABool b => Hbool b
  | ANum f => Hnum f
  | AInt x => Hint x
  | AStr s => Hstr s
  | AArr vs => Harr vs ((fix go l : Forall P l := match l with [] => Forall_nil_2 _ | v :: l => Forall_cons_2 _ _ _ (any_nested_ind v) (go l) end) vs)
  | AObj ms => Hobj ms ((fix go l : Forall (λ m, P m.2) l := match l with [] => Forall_nil_2 _ | m :: l => Forall_cons_2 _ _ _ (any_nested_ind m.2) (go l) end) ms)
  | ARaw raw => Hraw raw
  end.
End any_induction.

(** Values without floating-point numbers and raw messages, whose strings are valid UTF-8. *)
Fixpoint readable (v : any) : bool :=
  match v with
  | ANil | ABool _ | AInt _ => true
  | AStr s => ValidString s
  | AArr vs => forallb readable vs
  | AObj ms => forallb (λ m, ValidString m.1 && readable m.2) ms
  | ANum _ | ARaw _ => false
  end.

Fixpoint nesting (v : any) : nat :=
  match v with
  | AArr vs => S (max_list_with nesting vs)
  | AObj ms => S (max_list_with (λ m, nesting m.2) ms)
  | _ => 0
  end.

(** The text of a value and the tree that text denotes. *)
Definition text (v : any) : string := default "" (json_encode v).

Fixpoint tree (v : any) : json :=
  match v with
  | ABool b => JBool b
  | AInt x => JNum (x <? 0) (Z.abs x) 0 true
  | AStr s => JStr s
  | AArr vs => JArr ((λ v, (text v, tree v)) <$> vs)
  | AObj ms => JObj ((λ m, (m.1, (text m.2, tree m.2))) <$> ms)
  | _ => JNull
  end.

Definition member_text (m : string * any) : string := encode_string m.1 +:+ ":" +:+ text m.2.

Lemma json_encode_readable v : readable v = true → json_encode v = Some (text v).
Proof.
  unfold text. induction v using any_nested_ind; simpl; intros Hr; try done.
  - assert (mapM json_encode vs = Some (text <$> vs)) as ->; [|done].
    induction vs as [|v vs IH]; [done|]. simpl in Hr. apply andb_prop in Hr as [Hv Hr]. inversion_clear H as [|?? Hx Hxs].
    simpl. rewrite (Hx Hv). unfold text at 1. simpl. rewrite (IH Hxs Hr). done.
  - match goal with |- context [mapM ?f ms] => assert (mapM f ms = Some (member_text <$> ms)) as ->; [|done] end.
    induction ms as [|m ms IH]; [done|]. simpl in Hr. apply andb_prop in Hr as [Hm Hr]. apply andb_prop in Hm as [_ Hm].
    inversion_clear H as [|?? Hx Hxs]. simpl. rewrite (Hx Hm). simpl. rewrite (IH Hxs Hr). done.
Qed.

Lemma text_until_app t k : text_until (chars t ++ k) k = t.
Proof.
  unfold text_until. rewrite length_app. replace (length (chars t) + length k - length k)%nat with (length (chars t)) by lia.
  by rewrite take_app_length, of_chars_chars.
Qed.

Lemma text_arr vs : readable (AArr vs) = true → text (AArr vs) = "[" +:+ sep_by "," (text <$> vs) +:+ "]".
Proof.
  intros Hr. simpl in Hr. unfold text at 1. simpl. assert (mapM json_encode vs = Some (text <$> vs)) as ->; [|done].
  induction vs as [|v vs IH]; [done|]. simpl in *. apply andb_prop in Hr as [Hv Hr]. by rewrite (json_encode_readable v Hv), (IH Hr).
Qed.

Lemma text_obj ms : readable (AObj ms) = true → text (AObj ms) = "{" +:+ sep_by "," (member_text <$> ms) +:+ "}".
Proof.
  intros Hr. simpl in Hr. unfold text at 1. simpl.
  match goal with |- context [mapM ?f ms] => assert (mapM f ms = Some (member_text <$> ms)) as ->; [|done] end.
  induction ms as [|m ms IH]; [done|]. simpl in *. apply andb_prop in Hr as [Hm Hr]. apply andb_prop in Hm as [_ Hm].
  by rewrite (json_encode_readable m.2 Hm), (IH Hr).
Qed.

(** ** Integers *)

(** What may follow a value. *)
Definition ends (k : list ascii) : bool :=
  match k with [] => true | c :: _ => bool_decide (c ∈ [","; "]"; "}"]%char) end.

Lemma ends_cases k : ends k = true → k = [] ∨ ∃ l, k = ","%char :: l ∨ k = "]"%char :: l ∨ k = "}"%char :: l.
Proof. destruct k as [|c k]; [by left|]. simpl. intros H. to_prop. right. exists k. set_solver. Qed.

Lemma digit_of_pretty d : (d < 10)%N → digit_of (pretty_N_char d) = Some (Z.of_N d).
Proof.
  intros H. assert (d = 0 ∨ d = 1 ∨ d = 2 ∨ d = 3 ∨ d = 4 ∨ d = 5 ∨ d = 6 ∨ d = 7 ∨ d = 8 ∨ d = 9)%N as Hd by lia.
  by repeat destruct Hd as [-> | Hd]; [..|subst].
Qed.

(** The digits [pretty] writes have the value of the number, and the first is not 0. *)
Lemma pretty_digits x s : (0 < x)%N → ∃ c D, chars (pretty_N_go x s) = c :: D ++ chars s ∧ is_Some (digit_of c) ∧ c ≠ "0"%char ∧
  ∀ acc n k, take_digits acc n (c :: D ++ k) = take_digits (acc * 10 ^ Z.of_nat (S (length D)) + Z.of_N x) (n + S (length D)) k.
Proof.
  revert s. induction x as [x IH] using (well_founded_induction N.lt_wf_0). intros s Hx.
  rewrite pretty_N_go_step by done. assert (x < 10 ∨ 0 < x `div` 10)%N as [Hs|Hl].
  { destruct (N.lt_ge_cases x 10); [by left|right]. apply N.div_str_pos. lia. }
  - rewrite N.div_small, N.mod_small, pretty_N_go_0 by done. exists (pretty_N_char x), []. pose proof (digit_of_pretty x Hs) as Hd.
    split; [done|]. split; [by rewrite Hd|]. split.
    { intros E. rewrite E in Hd. assert (Some 0 = Some (Z.of_N x)) as [= ?] by done. lia. }
    intros acc n k. cbn [app take_digits length]. rewrite Hd. f_equal; lia.
  - destruct (IH (x `div` 10)%N) with (s := String (pretty_N_char (x `mod` 10)) s) as (c&D&Hc&Hdig&Hnz&Hv); [apply N.div_lt; lia|done|].
    exists c, (D ++ [pretty_N_char (x `mod` 10)]). split; [rewrite Hc; by rewrite <- app_assoc|]. split; [done|]. split; [done|].
    intros acc n k. rewrite <- app_assoc, Hv. cbn [app take_digits]. rewrite digit_of_pretty by (by apply N.mod_lt).
    rewrite length_app. simpl length. f_equal; [|lia]. rewrite !Nat2Z.inj_succ, Nat2Z.inj_add, !Z.pow_succ_r, Z.pow_add_r by lia.
    rewrite N2Z.inj_div, N2Z.inj_mod. simpl. pose proof (Z.div_mod (Z.of_N x) 10 ltac:(lia)). nia.
Qed.

(** After the digits of an integer nothing more belongs to the number. *)
Lemma parse_int_tail neg v k : ends k = true →
  ('(w, places, l3) ← (match k with "."%char :: r => let '(w, n, r') := take_digits v 0 r in if (n =? 0)%nat then None else Some (w, n, r') | _ => Some (v, 0%nat, k) end);
   '(e, l4) ← parse_exponent l3;
   Some (JNum neg w (default 0 e - Z.of_nat places) ((places =? 0)%nat && bool_decide (e = None)), l4)) = Some (JNum neg v 0 true, k).
Proof. intros [->|[l [-> | [-> | ->]]]]%ends_cases; done. Qed.

Lemma take_digits_end acc n k : ends k = true → take_digits acc n k = (acc, n, k).
Proof. intros [->|[l [-> | [-> | ->]]]]%ends_cases; done. Qed.

(** The digits of a positive number, with or without a sign before them. *)
Lemma parse_positive (neg : bool) p k : ends k = true →
  parse_number ((if neg then ["-"%char] else []) ++ chars (pretty (Zpos p)) ++ k) = Some (JNum neg (Zpos p) 0 true, k).
Proof.
  intros Hk. change (pretty (Zpos p)) with (pretty_N_go (Npos p) "").
  destruct (pretty_digits (Npos p) "") as (c&D&Hc&Hdig&H0&Hv); [lia|]. rewrite Hc. simpl chars. rewrite app_nil_r. cbn [app].
  specialize (Hv 0 0%nat k). rewrite (take_digits_end _ _ k) in Hv by done. unfold parse_number.
  destruct neg; cbn [app].
  all: destruct c as [[] [] [] [] [] [] [] []]; try (by destruct Hdig); try (by destruct H0); rewrite Hv; cbn [Nat.add Nat.eqb];
    exact (parse_int_tail _ (Zpos p) k Hk).
Qed.

Lemma parse_int x k : ends k = true → parse_number (chars (pretty x) ++ k) = Some (JNum (x <? 0) (Z.abs x) 0 true, k).
Proof.
  intros Hk. destruct x as [|p|p]; [exact (parse_int_tail false 0 k Hk)|by apply (parse_positive false)|by apply (parse_positive true)].
Qed.

(** A text that starts like a number is parsed as one. *)
Lemma parse_value_number fuel d c l : is_Some (digit_of c) ∨ c = "-"%char → parse_value (S fuel) d (c :: l) = parse_number (c :: l).
Proof. destruct c as [[] [] [] [] [] [] [] []]; intros [H|H]; first [done|by destruct H]. Qed.

(** What is shown of every value. *)
Definition reads_back (v : any) : Prop := ∀ fuel d k, ends k = true → (2 * String.length (text v) ≤ fuel)%nat → (nesting v ≤ d)%nat →
  parse_value fuel d (chars (text v) ++ k) = Some (tree v, k) ∧ skip_ws (chars (text v) ++ k) = chars (text v) ++ k ∧
  hd_error (chars (text v) ++ k) ≠ Some "]"%char.

Lemma sep_by_cons s x l : l ≠ [] → sep_by s (x :: l) = x +:+ s +:+ sep_by s l.
Proof. by destruct l. Qed.

Lemma parse_elems_read vs fuel d k : vs ≠ [] → Forall reads_back vs → Forall (λ v, (nesting v ≤ d)%nat) vs →
  (2 * String.length (sep_by "," (text <$> vs)) + 1 ≤ fuel)%nat →
  parse_elems fuel d (chars (sep_by "," (text <$> vs)) ++ "]"%char :: k) = Some ((λ v, (text v, tree v)) <$> vs, k) ∧
  skip_ws (chars (sep_by "," (text <$> vs)) ++ "]"%char :: k) = chars (sep_by "," (text <$> vs)) ++ "]"%char :: k ∧
  hd_error (chars (sep_by "," (text <$> vs)) ++ "]"%char :: k) ≠ Some "]"%char.
Proof.
  revert fuel. induction vs as [|v vs IH]; intros fuel Hne Hp Hn Hf; [done|].
  inversion_clear Hp as [|?? Hv Hvs]. inversion_clear Hn as [|?? Hnv Hnvs]. destruct fuel as [|fuel]; [lia|].
  destruct vs as [|v2 vs].
  - simpl in *. destruct (Hv fuel d ("]"%char :: k)) as (Hpv&Hws&Hh); [done|lia|done|].
    split_and!; [|done|done]. rewrite Hpv. simpl. by rewrite text_until_app.
  - rewrite fmap_cons, sep_by_cons in Hf |- * by done. set (rest := sep_by "," (text <$> v2 :: vs)) in *.
    rewrite <- !length_chars, !chars_app, !length_app in Hf. simpl in Hf.
    rewrite !chars_app, <- !app_assoc. simpl. set (k1 := ","%char :: chars rest ++ "]"%char :: k).
    assert (chars "," ++ chars rest ++ "]"%char :: k = k1) as Hk by done.
    destruct (Hv fuel d k1) as (Hpv&Hws&Hh); [done|rewrite <- length_chars; lia|done|].
    destruct (IH fuel) as (Hpr&Hwr&_); [done|done|done|rewrite <- length_chars; lia|].
    split_and!; [|done|done]. rewrite Hpv. unfold k1 at 2. simpl. rewrite Hwr, Hpr. simpl. by rewrite text_until_app.
Qed.

Lemma chars_member m k : chars (member_text m) ++ k = dquote :: escape_list 0 0 (chars m.1) ++ dquote :: ":"%char :: chars (text m.2) ++ k.
Proof.
  unfold member_text, encode_string, quoted. rewrite !chars_app, chars_of_chars, <- !app_assoc. simpl. by rewrite <- !app_assoc.
Qed.

Lemma parse_member (m : string * any) k : ValidString m.1 = true →
  parse_string 0 (escape_list 0 0 (chars m.1) ++ dquote :: k) = Some (chars m.1, k).
Proof. apply parse_escape. Qed.

Lemma length_member m : (String.length (text m.2) + 1 ≤ String.length (member_text m))%nat.
Proof. rewrite <- !length_chars. pose proof (f_equal length (chars_member m [])) as H. rewrite app_nil_r in H. rewrite H. simpl.
  rewrite !length_app. simpl. rewrite length_app. lia. Qed.

Lemma parse_members_read ms fuel d k : ms ≠ [] → Forall (λ m, reads_back m.2) ms → Forall (λ m, ValidString m.1 = true) ms →
  Forall (λ m, (nesting m.2 ≤ d)%nat) ms → (2 * String.length (sep_by "," (member_text <$> ms)) + 1 ≤ fuel)%nat →
  parse_members fuel d (chars (sep_by "," (member_text <$> ms)) ++ "}"%char :: k)
    = Some ((λ m, (m.1, (text m.2, tree m.2))) <$> ms, k) ∧
  ∃ l, chars (sep_by "," (member_text <$> ms)) = dquote :: l.
Proof.
  revert fuel. induction ms as [|m ms IH]; intros fuel Hne Hp Hv Hn Hf; [done|].
  inversion_clear Hp as [|?? Hm Hms]. inversion_clear Hn as [|?? Hnm Hnms]. inversion_clear Hv as [|?? Hkm Hkms].
  destruct fuel as [|fuel]; [lia|]. pose proof (length_member m) as Hlen. destruct ms as [|m2 ms].
  - simpl sep_by in *. split; [|pose proof (chars_member m []) as E; rewrite app_nil_r in E; by eexists].
    rewrite chars_member. cbn [parse_members]. rewrite bool_decide_eq_true_2 by done. rewrite parse_member by done. simpl.
    destruct (Hm fuel d ("}"%char :: k)) as (Hpv&Hws&_); [done|lia|done|].
    rewrite Hws, Hpv. simpl. rewrite text_until_app, of_chars_chars. done.
  - rewrite fmap_cons, sep_by_cons in Hf |- * by done. set (rest := sep_by "," (member_text <$> m2 :: ms)) in *.
    rewrite <- (length_chars (_ +:+ _)), !chars_app, !length_app, !length_chars in Hf. change (String.length ",") with 1%nat in Hf.
    destruct (IH fuel) as (Hpr&l&Hl); [done|done|done|done|lia|].
    rewrite !chars_app, <- !app_assoc, chars_member. split; [|by eexists].
    cbn [parse_members]. rewrite bool_decide_eq_true_2 by done. rewrite parse_member by done. cbn [mbind option_bind skip_ws].
    simpl. set (k1 := ","%char :: chars rest ++ "}"%char :: k).
    destruct (Hm fuel d k1) as (Hpv&Hws&_); [done|lia|done|]. rewrite Hws, Hpv. unfold k1 at 3. simpl.
    assert (skip_ws (chars rest ++ "}"%char :: k) = chars rest ++ "}"%char :: k) as -> by by rewrite Hl.
    rewrite Hpr. simpl. by rewrite text_until_app, of_chars_chars.
Qed.

Lemma nesting_bound {A} (f : A → nat) l d : (max_list_with f l ≤ d)%nat → Forall (λ x, (f x ≤ d)%nat) l.
Proof. induction l as [|x l IH]; simpl; intros H; constructor; [lia|]. apply IH. lia. Qed.

Lemma int_reads_back x : reads_back (AInt x).
Proof.
  intros fuel d k Hk Hf _. change (text (AInt x)) with (pretty x) in *. cbn [tree].
  assert (∃ c l, chars (pretty x) = c :: l ∧ (is_Some (digit_of c) ∨ c = "-"%char)) as (c&l&Hc&Hd).
  { destruct x as [|p|p]; [eexists _, _; split; [done|left; by eexists]| |eexists _, _; split; [done|by right]].
    change (pretty (Zpos p)) with (pretty_N_go (Npos p) "").
    destruct (pretty_digits (Npos p) "") as (c&D&Hc&Hdig&_); [lia|]. rewrite Hc. eexists _, _. split; [done|by left]. }
  destruct fuel as [|fuel]; [rewrite <- length_chars, Hc in Hf; simpl in Hf; lia|].
  pose proof (parse_int x k Hk) as Hp.
  rewrite Hc in Hp |- *. cbn [app] in *. split; [by rewrite parse_value_number|].
  destruct c as [[] [] [] [] [] [] [] []]; destruct Hd as [Hd|Hd]; first [done|by destruct Hd].
Qed.

Lemma readable_reads_back v : readable v = true → reads_back v.
Proof.
  induction v using any_nested_ind; intros Hr fuel d k Hk Hf Hd; try discriminate Hr.
  - destruct fuel; [simpl in Hf; lia|]. done.
  - destruct fuel; [destruct b; simpl in Hf; lia|]. by destruct b.
  - apply (int_reads_back x); done.
  - assert (chars (text (AStr s)) ++ k = dquote :: escape_list 0 0 (chars s) ++ dquote :: k) as ->.
    { unfold text, encode_string, quoted. simpl. rewrite chars_of_chars. by rewrite <- app_assoc. }
    destruct fuel; [exfalso|]. { unfold text in Hf. simpl in Hf. rewrite <- length_chars in Hf. unfold encode_string, quoted in Hf.
      rewrite chars_of_chars in Hf. simpl in Hf. lia. }
    split_and!; [|done|done]. cbn. rewrite (parse_escape (chars s) k Hr). simpl. by rewrite of_chars_chars.
  - pose proof (text_arr vs Hr) as Ht. rewrite Ht in Hf |- *. simpl in Hr, Hd.
    rewrite <- length_chars, !chars_app, !length_app, !length_chars in Hf. simpl in Hf.
    destruct fuel as [|fuel]; [lia|]. rewrite !chars_app, <- !app_assoc. simpl. split_and!; [|done|done]. destruct d as [|d]; [lia|].
    destruct vs as [|v vs]; [done|].
    destruct (parse_elems_read (v :: vs) fuel d k) as (Hp&Hws&Hh); [done| |apply nesting_bound; lia|lia|].
    { apply Forall_forall. intros x Hx. apply (proj1 (Forall_forall _ _) H x Hx).
      apply forallb_forall with (x := x) in Hr; [done|by apply list_elem_of_In]. }
    rewrite Hws. destruct (chars (sep_by "," (text <$> v :: vs)) ++ "]"%char :: k) as [|c l] eqn:E; [by apply app_eq_nil in E as [_ E]|].
    destruct c as [[] [] [] [] [] [] [] []]; first [rewrite Hp; reflexivity|by destruct Hh].
  - pose proof (text_obj ms Hr) as Ht. rewrite Ht in Hf |- *. simpl in Hr, Hd.
    rewrite <- length_chars, !chars_app, !length_app, !length_chars in Hf. simpl in Hf.
    destruct fuel as [|fuel]; [lia|]. rewrite !chars_app, <- !app_assoc. simpl. split_and!; [|done|done]. destruct d as [|d]; [lia|].
    destruct ms as [|m ms]; [done|].
    assert (Hall : ∀ x, x ∈ m :: ms → ValidString x.1 = true ∧ readable x.2 = true).
    { intros x Hx. apply andb_prop. apply forallb_forall with (x := x) in Hr; [done|by apply list_elem_of_In]. }
    destruct (parse_members_read (m :: ms) fuel d k) as (Hp&l&Hl); [done| | |apply nesting_bound; lia|lia|].
    { apply Forall_forall. intros x Hx. apply (proj1 (Forall_forall _ _) H x Hx). by apply Hall. }
    { apply Forall_forall. intros x Hx. by apply Hall. }
    rewrite Hl in Hp |- *. match goal with |- ?g = _ => change g with ('(ms, l3) ← parse_members fuel d (dquote :: l ++ "}"%char :: k); Some (JObj ms, l3)) end.
    simpl in Hp. by rewrite Hp.
Qed.

(** ** Reading a text back *)

Lemma json_parse_text v : readable v = true → (nesting v ≤ max_depth)%nat → json_parse (text v) = Some (text v, tree v).
Proof.
  intros Hr Hn. unfold json_parse.
  destruct (readable_reads_back v Hr (2 * length (chars (text v)) + 2)%nat max_depth []) as (Hp&Hws&_); [done|rewrite length_chars; lia|done|].
  rewrite app_nil_r in Hp, Hws. rewrite Hws, Hp. simpl. pose proof (text_until_app (text v) []) as Ht. rewrite app_nil_r in Ht. by rewrite Ht.
Qed.

(** Values as they are decoded: maps have their keys in increasing order, and numbers are
    floating-point. *)
Definition after (a b : string) : bool := match String.compare b a with Gt => true | _ => false end.

Fixpoint keys_sorted (ks : list string) : bool :=
  match ks with [] => true | k :: ks => forallb (after k) ks && keys_sorted ks end.

Fixpoint maps_sorted (v : any) : bool :=
  match v with
  | AArr vs => forallb maps_sorted vs
  | AObj ms => keys_sorted (fst <$> ms) && forallb (λ m, maps_sorted m.2) ms
  | AInt _ => false
  | _ => true
  end.

Lemma put_member_last {A} key (v : A) ms : forallb (λ m, after m.1 key) ms = true → put_member key v ms = ms ++ [(key, v)].
Proof.
  induction ms as [|[k w] ms IH]; simpl; [done|]. unfold after at 1. simpl. destruct (String.compare key k); try done.
  intros H. by rewrite IH.
Qed.

Lemma of_members_sorted {A} (ms : list (string * A)) : keys_sorted (fst <$> ms) = true → of_members ms = ms.
Proof.
  unfold of_members. assert (∀ acc, (∀ m, m ∈ ms → forallb (λ x, after x.1 m.1) acc = true) → keys_sorted (fst <$> ms) = true →
    foldl (λ acc m, put_member m.1 m.2 acc) acc ms = acc ++ ms) as H; [|intros Hs; apply H; [intros; done|done]].
  induction ms as [|m ms IH]; intros acc Ha Hs; simpl; [by rewrite app_nil_r|]. simpl in Hs. apply andb_prop in Hs as [Hm Hs].
  rewrite put_member_last by (apply Ha; left). rewrite IH; [by rewrite <- app_assoc; destruct m| |done].
  intros x Hx. rewrite forallb_app. apply andb_true_intro. split; [by apply Ha; right|]. simpl. rewrite andb_true_r.
  apply forallb_forall with (x := x.1) in Hm; [done|]. apply list_elem_of_In, list_elem_of_fmap. by exists x.
Qed.

Lemma to_any_tree v : readable v = true → maps_sorted v = true → to_any (tree v) = (v, true).
Proof.
  induction v using any_nested_ind; simpl; intros Hr Hs; try done.
  - assert ((λ n : node, to_any n.2) <$> ((λ v, (text v, tree v)) <$> vs) = (λ v, (v, true)) <$> vs) as ->.
    { rewrite <- list_fmap_compose. apply list_fmap_ext. intros i x Hx%list_elem_of_lookup_2. simpl.
      apply (proj1 (Forall_forall _ _) H x Hx); [apply forallb_forall with (x := x) in Hr; [done|]|apply forallb_forall with (x := x) in Hs; [done|]];
        by apply list_elem_of_In. }
    rewrite <- list_fmap_compose. f_equal; [f_equal; apply list_fmap_id|]. clear. by induction vs.
  - apply andb_prop in Hs as [Hk Hs].
    assert ((λ m : string * node, (m.1, to_any m.2.2)) <$> ((λ m, (m.1, (text m.2, tree m.2))) <$> ms) = (λ m, (m.1, (m.2, true))) <$> ms) as ->.
    { rewrite <- list_fmap_compose. apply list_fmap_ext. intros i x Hx%list_elem_of_lookup_2. simpl. f_equal.
      apply (proj1 (Forall_forall _ _) H x Hx); [apply forallb_forall with (x := x) in Hr; [by apply andb_prop in Hr as [_ Hr]|]|apply forallb_forall with (x := x) in Hs; [done|]];
        by apply list_elem_of_In. }
    rewrite <- list_fmap_compose. unfold AMap. f_equal.
    + f_equal. rewrite (list_fmap_ext _ id ms); [|by intros i [] ?]. rewrite list_fmap_id. by apply of_members_sorted.
    + clear. by induction ms.
Qed.
