(* ===== verification/Client.v ===== *)
(** * The JSON-RPC client of the app-server (internal/adapter/client.go)

    [Client] carries requests to the app-server over one WebSocket connection and sorts
    what comes back: answers go to the call that waits for them, everything else to the
    [incoming] channel.  Calls, the reader and the closing of the connection run
    concurrently; the steps below are the sections between two points where another
    goroutine can be seen.  The WebSocket library is the environment: whether a write
    succeeds and which frames arrive are inputs of the steps. *)

From Stdlib Require Import Ascii String.
From stdpp Require Import base tactics numbers list gmap strings pretty.
From S2P Require Import Prelude GoError GoStrings Float64 Json.
Local Open Scope string_scope.
Local Open Scope Z_scope.
Local Open Scope list_scope.

(** ** Messages *)

Record RPCError := mkRPCError {
  re_Code : Z;
  re_Message : string;
  re_Data : string;
}.

#[export] Instance RPCError_eq_dec : EqDecision RPCError.
Proof. solve_decision. Defined.

Definition set_re_Code (x : Z) (r : RPCError) : RPCError :=
  mkRPCError x (re_Message r) (re_Data r).
Definition set_re_Message (x : string) (r : RPCError) : RPCError :=
  mkRPCError (re_Code r) x (re_Data r).
Definition set_re_Data (x : string) (r : RPCError) : RPCError :=
  mkRPCError (re_Code r) (re_Message r) x.

(** A nil [json.RawMessage] is the empty string. *)
Record Message := mkMessage {
  msg_ID : string;
  msg_Method : string;
  msg_Params : string;
  msg_Result : string;
  msg_Error : option RPCError;
}.

#[export] Instance Message_eq_dec : EqDecision Message.
Proof. solve_decision. Defined.

Definition set_msg_ID (x : string) (r : Message) : Message :=
  mkMessage x (msg_Method r) (msg_Params r) (msg_Result r) (msg_Error r).
Definition set_msg_Method (x : string) (r : Message) : Message :=
  mkMessage (msg_ID r) x (msg_Params r) (msg_Result r) (msg_Error r).
Definition set_msg_Params (x : string) (r : Message) : Message :=
  mkMessage (msg_ID r) (msg_Method r) x (msg_Result r) (msg_Error r).
Definition set_msg_Result (x : string) (r : Message) : Message :=
  mkMessage (msg_ID r) (msg_Method r) (msg_Params r) x (msg_Error r).
Definition set_msg_Error (x : option RPCError) (r : Message) : Message :=
  mkMessage (msg_ID r) (msg_Method r) (msg_Params r) (msg_Result r) x.

Definition dec_RPCError : decoder RPCError := dec_struct
  [("code", field re_Code set_re_Code dec_int64); ("message", field re_Message set_re_Message dec_string);
   ("data", field re_Data set_re_Data dec_raw)].

Definition dec_Message : decoder Message := dec_struct
  [("id", field msg_ID set_msg_ID dec_raw); ("method", field msg_Method set_msg_Method dec_string);
   ("params", field msg_Params set_msg_Params dec_raw); ("result", field msg_Result set_msg_Result dec_raw);
   ("error", field msg_Error set_msg_Error (dec_ptr (mkRPCError 0 "" "") dec_RPCError))].

Definition requestIDKey (raw : string) : string :=
  let '(s, ok) := Unmarshal dec_string raw "" in if ok then s else raw.

(** What is written for a call, a notification and an answer. *)
Definition request_body (id method : string) (params : any) : any :=
  AObj [("jsonrpc", AStr "2.0"); ("id", AStr id); ("method", AStr method); ("params", params)].

Definition notify_body (method : string) (params : any) : any :=
  AObj ([("jsonrpc", AStr "2.0"); ("method", AStr method)] ++ match params with ANil => [] | _ => [("params", params)] end).

Definition respond_body (id : string) (result : any) : any :=
  AObj [("jsonrpc", AStr "2.0"); ("id", ARaw id); ("result", result)].

(** ** State *)

(** Where a call is: its channel made, its entry registered, its request written, its
    request not written because the connection failed. *)
Inductive phase :=
| Created
| Registered
| Written
| WriteFailed (e : goerr)
| Returned (r : res Message).

Record call := mkCall {
  ca_id : string;
  ca_method : string;
  ca_params : any;
  ca_phase : phase;
  ca_chan : list Message;  (* buffer of its channel, of capacity one *)
}.

Definition set_ca_phase (x : phase) (r : call) : call :=
  mkCall (ca_id r) (ca_method r) (ca_params r) x (ca_chan r).
Definition set_ca_chan (x : list Message) (r : call) : call :=
  mkCall (ca_id r) (ca_method r) (ca_params r) (ca_phase r) x.

(** Where [closeWithError] is: not called, [done] closed, the entries dropped. *)
Inductive closing := Open | Done | Cleared.

#[export] Instance closing_eq_dec : EqDecision closing.
Proof. solve_decision. Defined.

(** Where [readLoop] is. *)
Inductive reader :=
| Reading
| Delivering (n : nat) (m : Message)
| Pushing (m : Message)
| Ending                          (* left the loop, in [closeWithError] *)
| Exited.

Record Client := mkClient {
  cl_nextID : Z;
  cl_pending : gmap string nat;  (* the call whose channel it is *)
  cl_calls : list call;  (* every call ever begun *)
  cl_incoming : list Message;  (* buffer of the channel *)
  cl_incomingClosed : bool;
  cl_closing : closing;
  cl_reader : reader;
  cl_sent : list string;  (* history: texts written *)
  cl_delivered : list Message;  (* history: messages put on [incoming] *)
}.

Definition set_cl_nextID (x : Z) (r : Client) : Client :=
  mkClient x (cl_pending r) (cl_calls r) (cl_incoming r) (cl_incomingClosed r) (cl_closing r) (cl_reader r)
    (cl_sent r) (cl_delivered r).
Definition set_cl_pending (x : gmap string nat) (r : Client) : Client :=
  mkClient (cl_nextID r) x (cl_calls r) (cl_incoming r) (cl_incomingClosed r) (cl_closing r) (cl_reader r)
    (cl_sent r) (cl_delivered r).
Definition set_cl_calls (x : list call) (r : Client) : Client :=
  mkClient (cl_nextID r) (cl_pending r) x (cl_incoming r) (cl_incomingClosed r) (cl_closing r) (cl_reader r)
    (cl_sent r) (cl_delivered r).
Definition set_cl_incoming (x : list Message) (r : Client) : Client :=
  mkClient (cl_nextID r) (cl_pending r) (cl_calls r) x (cl_incomingClosed r) (cl_closing r) (cl_reader r)
    (cl_sent r) (cl_delivered r).
Definition set_cl_incomingClosed (x : bool) (r : Client) : Client :=
  mkClient (cl_nextID r) (cl_pending r) (cl_calls r) (cl_incoming r) x (cl_closing r) (cl_reader r)
    (cl_sent r) (cl_delivered r).
Definition set_cl_closing (x : closing) (r : Client) : Client :=
  mkClient (cl_nextID r) (cl_pending r) (cl_calls r) (cl_incoming r) (cl_incomingClosed r) x (cl_reader r)
    (cl_sent r) (cl_delivered r).
Definition set_cl_reader (x : reader) (r : Client) : Client :=
  mkClient (cl_nextID r) (cl_pending r) (cl_calls r) (cl_incoming r) (cl_incomingClosed r) (cl_closing r) x
    (cl_sent r) (cl_delivered r).
Definition set_cl_sent (x : list string) (r : Client) : Client :=
  mkClient (cl_nextID r) (cl_pending r) (cl_calls r) (cl_incoming r) (cl_incomingClosed r) (cl_closing r)
    (cl_reader r) x (cl_delivered r).
Definition set_cl_delivered (x : list Message) (r : Client) : Client :=
  mkClient (cl_nextID r) (cl_pending r) (cl_calls r) (cl_incoming r) (cl_incomingClosed r) (cl_closing r)
    (cl_reader r) (cl_sent r) x.

(** What [DialWithOptions] returns on a new connection. *)
Definition dialed : Client := mkClient 0 ∅ [] [] false Open Reading [] [].

Definition DefaultReadLimit : Z := 64 * 1024 * 1024.
Definition read_limit (limit : Z) : Z := if limit <=? 0 then DefaultReadLimit else limit.

(** [<-c.done] does not block. *)
Definition is_done (c : Client) : bool := negb (bool_decide (cl_closing c = Open)).

Definition upd_call (n : nat) (f : call → call) (c : Client) : Client := set_cl_calls (alter f n (cl_calls c)) c.

Definition removePending (id : string) (c : Client) : Client := set_cl_pending (delete id (cl_pending c)) c.

Definition return_call (n : nat) (r : res Message) (c : Client) : Client := upd_call n (set_ca_phase (Returned r)) c.

(** ** Closing *)

(** [closeWithError] up to the closing of [done]; the first caller alone does it. *)
Definition begin_close (c : Client) : Client := if is_done c then c else set_cl_closing Done c.

Definition clear_pending (c : Client) : option Client :=
  match cl_closing c with Done => Some (set_cl_closing Cleared (set_cl_pending ∅ c)) | _ => None end.

(** ** Calls *)

Definition call_id (n : Z) : string := "remote-" +:+ pretty n.

(** [c.nextID.Add(1)] and the channel. *)
Definition begin_call (method : string) (params : any) (c : Client) : Client :=
  let next := u64_incr (cl_nextID c) in
  set_cl_calls (cl_calls c ++ [mkCall (call_id next) method params Created []]) (set_cl_nextID next c).

(** The section under [c.mu]. *)
Definition register_call (n : nat) (c : Client) : option Client :=
  a ← cl_calls c !! n;
  match ca_phase a with
  | Created =>
      Some (if is_done c then return_call n (Err (ErrSentinel ErrDisconnected)) c
            else upd_call n (set_ca_phase Registered) (set_cl_pending (<[ca_id a := n]> (cl_pending c)) c))
  | _ => None
  end.

(** [write]: what happens to the text, given what the connection answers; [None] when the
    request was not written and the connection not used. *)
Inductive write_outcome := NotWritten (e : goerr) | Sent (text : string) | Broken (text : string) (e : goerr).

Definition marshal_error : goerr := ErrText "json: error calling MarshalJSON for type json.RawMessage".

Definition write (body : any) (conn : res unit) (c : Client) : write_outcome :=
  match json_encode body with
  | None => NotWritten marshal_error
  | Some text =>
      if is_done c then NotWritten (ErrSentinel ErrDisconnected)
      else match conn with Ok _ => Sent text | Err e => Broken text e end
  end.

(** The observer has seen every text handed to the connection. *)
Definition note_sent (text : string) (c : Client) : Client := set_cl_sent (cl_sent c ++ [text]) c.

Definition write_call (n : nat) (conn : res unit) (c : Client) : option Client :=
  a ← cl_calls c !! n;
  match ca_phase a with
  | Registered =>
      Some (match write (request_body (ca_id a) (ca_method a) (ca_params a)) conn c with
            | NotWritten e => return_call n (Err e) (removePending (ca_id a) c)
            | Sent text => upd_call n (set_ca_phase Written) (note_sent text c)
            | Broken text e => upd_call n (set_ca_phase (WriteFailed e)) (begin_close (note_sent text c))
            end)
  | _ => None
  end.

(** After [closeWithError] has returned. *)
Definition fail_call (n : nat) (c : Client) : option Client :=
  a ← cl_calls c !! n;
  match ca_phase a, cl_closing c with
  | WriteFailed e, Cleared => Some (return_call n (Err e) (removePending (ca_id a) c))
  | _, _ => None
  end.

(** The three branches of the [select]; [ctxErr] is the error of the ended context. *)
Inductive wait_branch := OnAnswer | OnContext (ctxErr : goerr) | OnDone.

Definition finish_call (n : nat) (b : wait_branch) (c : Client) : option Client :=
  a ← cl_calls c !! n;
  match ca_phase a with
  | Written =>
      match b with
      | OnAnswer =>
          match ca_chan a with
          | m :: rest => Some (return_call n (Ok m) (upd_call n (set_ca_chan rest) c))
          | [] => None
          end
      | OnContext e => Some (return_call n (Err e) (removePending (ca_id a) c))
      | OnDone => if is_done c then Some (return_call n (Err (ErrSentinel ErrDisconnected)) (removePending (ca_id a) c)) else None
      end
  | _ => None
  end.

(** What [Call] makes of the answer: the text to decode, if any. *)
Definition answer_result (m : Message) : res string :=
  match msg_Error m with
  | Some e => Err (ErrAppServer (re_Code e) (re_Message e))
  | None => Ok (msg_Result m)
  end.

(** The error of a result that does not decode; the text of [encoding/json]'s own error is
    not described further. *)
Definition decode_error (method : string) : goerr :=
  ErrWrapped ("decode " +:+ method +:+ " result: ") (ErrText "json: cannot unmarshal") "".

(** [json.Unmarshal(msg.Result, result)]; the value and the error of [Call]. *)
Definition decode_result {A} (method : string) (d : decoder A) (zero : A) (r : res Message) : A * option goerr :=
  match r with
  | Err e => (zero, Some e)
  | Ok m =>
      match answer_result m with
      | Err e => (zero, Some e)
      | Ok raw =>
          if str_empty raw then (zero, None)
          else let '(x, ok) := Unmarshal d raw zero in (x, if ok then None else Some (decode_error method))
      end
  end.

(** ** The reader *)

Inductive frame := TextFrame (raw : string) | BinaryFrame | ReadError.

Definition read_frame (f : frame) (c : Client) : option Client :=
  match cl_reader c with
  | Reading =>
      Some (match f with
            | ReadError => set_cl_reader Ending (begin_close c)
            | BinaryFrame => c
            | TextFrame raw =>
                match Unmarshal dec_Message raw (mkMessage "" "" "" "" None) with
                | (_, false) => c
                | (m, true) =>
                    if negb (str_empty (msg_ID m)) && str_empty (msg_Method m) then
                      let key := requestIDKey (msg_ID m) in
                      let ch := cl_pending c !! key in
                      let c := removePending key c in
                      match ch with Some n => set_cl_reader (Delivering n m) c | None => c end
                    else set_cl_reader (Pushing m) c
                end
            end)
  | _ => None
  end.

(** [ch <- msg] on a channel of capacity one. *)
Definition deliver (c : Client) : option Client :=
  match cl_reader c with
  | Delivering n m =>
      a ← cl_calls c !! n;
      match ca_chan a with
      | [] => Some (set_cl_reader Reading (upd_call n (set_ca_chan [m]) c))
      | _ => None
      end
  | _ => None
  end.

(** The [select] on [incoming], of capacity 128, and [done]. *)
Definition push (onDone : bool) (c : Client) : option Client :=
  match cl_reader c with
  | Pushing m =>
      if onDone then if is_done c then Some (set_cl_incomingClosed true (set_cl_reader Exited c)) else None
      else if zlen (cl_incoming c) <? 128 then
        Some (set_cl_reader Reading (set_cl_delivered (cl_delivered c ++ [m]) (set_cl_incoming (cl_incoming c ++ [m]) c)))
      else None
  | _ => None
  end.

(** [closeWithError] has returned; [incoming] is closed. *)
Definition end_reader (c : Client) : option Client :=
  match cl_reader c, cl_closing c with
  | Ending, Cleared => Some (set_cl_incomingClosed true (set_cl_reader Exited c))
  | _, _ => None
  end.

(** The adapter receives from [incoming]. *)
Definition receive (c : Client) : option (Message * Client) :=
  match cl_incoming c with m :: rest => Some (m, set_cl_incoming rest c) | [] => None end.

(** ** Notifications and answers *)

(** [Notify] and [Respond] up to the closing of a broken connection. *)
Definition send (body : any) (conn : res unit) (c : Client) : Client * res unit :=
  match write body conn c with
  | NotWritten e => (c, Err e)
  | Sent text => (note_sent text c, Ok tt)
  | Broken text e => (begin_close (note_sent text c), Err e)
  end.

Definition Notify (method : string) (params : any) (conn : res unit) (c : Client) : Client * res unit :=
  send (notify_body method params) conn c.

Definition Respond (id : string) (result : any) (conn : res unit) (c : Client) : Client * res unit :=
  if str_empty id then (c, Err (ErrText "missing server request id")) else send (respond_body id result) conn c.

(** ** Steps *)

Inductive client_step : Client → Client → Prop :=
| step_begin method params c : client_step c (begin_call method params c)
| step_register n c c' : register_call n c = Some c' → client_step c c'
| step_write n conn c c' : write_call n conn c = Some c' → client_step c c'
| step_fail n c c' : fail_call n c = Some c' → client_step c c'
| step_finish n b c c' : finish_call n b c = Some c' → client_step c c'
| step_frame f c c' : read_frame f c = Some c' → client_step c c'
| step_deliver c c' : deliver c = Some c' → client_step c c'
| step_push b c c' : push b c = Some c' → client_step c c'
| step_end c c' : end_reader c = Some c' → client_step c c'
| step_receive m c c' : receive c = Some (m, c') → client_step c c'
| step_close c : client_step c (begin_close c)
| step_clear c c' : clear_pending c = Some c' → client_step c c'
| step_notify method params conn c : client_step c (Notify method params conn c).1
| step_respond id result conn c : client_step c (Respond id result conn c).1.
