(* ===== verification/ClientTheorems.v ===== *)
(** * The app-server client: theorems

    An invariant of all interleavings of calls, the reader and the closing of the
    connection, and what follows: an answer reaches the call whose id it carries and no
    other, the reader is never stuck on a delivery, and a lost connection releases every
    call. *)

From Stdlib Require Import Ascii String.
From stdpp Require Import base tactics numbers list gmap strings pretty relations.
From S2P Require Import Prelude GoError GoStrings Float64 Json JsonTheorems Client.
Local Open Scope string_scope.
Local Open Scope Z_scope.
Local Open Scope list_scope.

(** ** Ids *)

#[export] Instance call_id_inj : Inj (=) (=) call_id.
Proof. intros x y. unfold call_id. intros H. apply (inj (String.append "remote-")) in H. by apply (inj pretty) in H. Qed.

Lemma ValidString_cons c s : in_range 0 127 (bval c) = true → ValidString (String c s) = ValidString s.
Proof. intros H. unfold ValidString. simpl. by rewrite H. Qed.

Lemma pretty_N_char_ascii x : in_range 0 127 (bval (pretty_N_char x)) = true.
Proof. destruct x as [|p]; [done|]. do 4 (destruct p as [p|p|]; try done). Qed.

Lemma pretty_N_valid x s : ValidString s = true → ValidString (pretty_N_go x s) = true.
Proof.
  revert s. induction (N.lt_wf_0 x) as [x _ IH]; intros s Hs. destruct (decide (x = 0)%N) as [->|Hx]; [done|].
  rewrite pretty_N_go_step by lia. apply IH; [by apply N.div_lt; lia|]. rewrite ValidString_cons; [done|apply pretty_N_char_ascii].
Qed.

Lemma call_id_valid n : ValidString (call_id n) = true.
Proof.
  unfold call_id. assert (ValidString (pretty n) = true) as H.
  { destruct n as [|p|p]; [done|by apply pretty_N_valid|]. etrans; [by apply (ValidString_cons "-"%char (pretty p))|]. by apply pretty_N_valid. }
  do 7 (etrans; [by apply ValidString_cons|]). done.
Qed.

Lemma alter_twice {A} (f g : A → A) (n : nat) (l : list A) : alter f n (alter g n l) = alter (λ x, f (g x)) n l.
Proof. revert n. induction l as [|x l IH]; intros [|n]; simpl; f_equal/=; apply IH. Qed.

(** ** The invariant *)

Definition waiting (a : call) : Prop :=
  match ca_phase a with Registered | Written | WriteFailed _ => True | _ => False end.

(** The [n]-th call: its id is its own, its channel holds at most one answer, and answers
    carry its id. *)
Record call_ok (n : nat) (a : call) : Prop := {
  ok_id : ca_id a = call_id (Z.of_nat n + 1);
  ok_chan : (length (ca_chan a) ≤ 1)%nat;
  ok_answers : Forall (λ m, requestIDKey (msg_ID m) = ca_id a) (ca_chan a);
  ok_created : ca_phase a = Created → ca_chan a = [];
  ok_returned : ∀ m, ca_phase a = Returned (Ok m) → requestIDKey (msg_ID m) = ca_id a;
}.

Definition targets (rd : reader) (n : nat) : Prop := match rd with Delivering k _ => k = n | _ => False end.

Record client_inv (c : Client) : Prop := {
  inv_next : cl_nextID c = zlen (cl_calls c);
  inv_calls : ∀ n a, cl_calls c !! n = Some a → call_ok n a;
  inv_pending : ∀ k n, cl_pending c !! k = Some n →
    ∃ a, cl_calls c !! n = Some a ∧ k = ca_id a ∧ waiting a ∧ ca_chan a = [] ∧ ¬ targets (cl_reader c) n;
  inv_reader : ∀ n m, cl_reader c = Delivering n m →
    ∃ a, cl_calls c !! n = Some a ∧ ca_chan a = [] ∧ ca_phase a ≠ Created ∧ requestIDKey (msg_ID m) = ca_id a;
  inv_cleared : cl_closing c = Cleared → cl_pending c = ∅;
}.

Lemma dialed_inv : client_inv dialed.
Proof. split; try done. Qed.

(** Changing the [n]-th call. *)
Lemma inv_change c c' n a f :
  client_inv c → cl_calls c !! n = Some a → cl_nextID c' = cl_nextID c → cl_calls c' = alter f n (cl_calls c) → call_ok n (f a) →
  (∀ k m, cl_pending c' !! k = Some m →
     m ≠ n ∧ cl_pending c !! k = Some m ∨ m = n ∧ k = ca_id (f a) ∧ waiting (f a) ∧ ca_chan (f a) = [] ∧ ¬ targets (cl_reader c') n) →
  (∀ m x, cl_reader c' = Delivering m x →
     m ≠ n ∧ cl_reader c = Delivering m x ∨ m = n ∧ ca_chan (f a) = [] ∧ ca_phase (f a) ≠ Created ∧ requestIDKey (msg_ID x) = ca_id (f a)) →
  (cl_closing c' = Cleared → cl_pending c' = ∅) → client_inv c'.
Proof.
  intros Hi Ha Hn Hc Hok Hp Hr Hcl.
  assert (Hself : cl_calls c' !! n = Some (f a)) by (rewrite Hc, list_lookup_alter_eq, Ha; done).
  assert (Hother : ∀ m, m ≠ n → cl_calls c' !! m = cl_calls c !! m) by (intros; rewrite Hc; by apply list_lookup_alter_ne).
  split.
  - rewrite Hn, Hc. unfold zlen. rewrite length_alter. apply (inv_next c Hi).
  - intros m b Hb. destruct (decide (m = n)) as [->|Hne]; [congruence|]. rewrite Hother in Hb by done. by apply (inv_calls c Hi).
  - intros k m Hk. destruct (Hp k m Hk) as [[Hne Hk']|(->&?&?&?&?)]; [|eauto 10].
    destruct (inv_pending c Hi k m Hk') as (b&Hb&?&?&?&Ht). exists b. rewrite Hother by done. split_and!; try done.
    intros Htg. destruct (cl_reader c') as [|i x| | |] eqn:Er; try done. simpl in Htg. subst i.
    destruct (Hr m x eq_refl) as [[_ Hr']|[? _]]; [|done]. apply Ht. by rewrite Hr'.
  - intros m x Hm. destruct (Hr m x Hm) as [[Hne Hr']|(->&?&?&?)]; [|eauto 10].
    destruct (inv_reader c Hi m x Hr') as (b&Hb&?&?&?). exists b. by rewrite Hother.
  - done.
Qed.

(** Changing no call. *)
Lemma inv_frame c c' :
  client_inv c → cl_nextID c' = cl_nextID c → cl_calls c' = cl_calls c →
  (∀ k m, cl_pending c' !! k = Some m → cl_pending c !! k = Some m ∧ (targets (cl_reader c') m → targets (cl_reader c) m)) →
  (∀ m x, cl_reader c' = Delivering m x → ∃ a, cl_calls c !! m = Some a ∧ ca_chan a = [] ∧ ca_phase a ≠ Created ∧ requestIDKey (msg_ID x) = ca_id a) →
  (cl_closing c' = Cleared → cl_pending c' = ∅) → client_inv c'.
Proof.
  intros Hi Hn Hc Hp Hr Hcl. split; rewrite ?Hn, ?Hc; try done; try apply Hi.
  intros k m Hk. destruct (Hp k m Hk) as [Hk' Ht]. destruct (inv_pending c Hi k m Hk') as (a&?&?&?&?&?). eauto 10.
Qed.

(** [closing'] is reached only by [clear_pending]. *)
Lemma begin_close_cleared c : cl_closing (begin_close c) = Cleared → cl_closing c = Cleared.
Proof. unfold begin_close, is_done. by destruct (cl_closing c) eqn:E; simpl; rewrite ?E. Qed.

Lemma begin_close_frame c : cl_nextID (begin_close c) = cl_nextID c ∧ cl_calls (begin_close c) = cl_calls c ∧
  cl_pending (begin_close c) = cl_pending c ∧ cl_reader (begin_close c) = cl_reader c.
Proof. unfold begin_close. by destruct (is_done c). Qed.

Lemma begin_close_inv c : client_inv c → client_inv (begin_close c).
Proof.
  intros Hi. destruct (begin_close_frame c) as (Hn&Hc&Hp&Hr).
  apply (inv_frame c); rewrite ?Hp, ?Hr; try done; try apply Hi. intros H. apply Hi. by apply begin_close_cleared.
Qed.

(** The ids in use belong to one call each. *)
Lemma pending_own c n a k m : client_inv c → cl_calls c !! n = Some a → delete (ca_id a) (cl_pending c) !! k = Some m →
  m ≠ n ∧ cl_pending c !! k = Some m.
Proof.
  intros Hi Ha [Hne Hk]%lookup_delete_Some. split; [|done]. intros ->.
  destruct (inv_pending c Hi k n Hk) as (b&Hb&->&_). congruence.
Qed.

Lemma step_delivers c n a m x : client_inv c → cl_calls c !! n = Some a → cl_reader c = Delivering m x →
  m ≠ n ∧ cl_reader c = Delivering m x ∨ m = n ∧ ca_chan a = [] ∧ ca_phase a ≠ Created ∧ requestIDKey (msg_ID x) = ca_id a.
Proof.
  intros Hi Ha Hr. destruct (decide (m = n)) as [->|?]; [right|by left].
  destruct (inv_reader c Hi n x Hr) as (b&Hb&?). by simplify_eq.
Qed.

(** A phase that is neither the first nor an answer. *)
Definition plain_phase (p : phase) : Prop := match p with Created | Returned (Ok _) => False | _ => True end.

Lemma call_ok_phase n a p : call_ok n a → plain_phase p → call_ok n (set_ca_phase p a).
Proof. intros [] Hp. split; try done; destruct p as [| | | |[]]; done. Qed.

(** Moving a call on without touching its channel; its entry stays, or goes when it
    returns. *)
Lemma inv_phase c n a p : client_inv c → cl_calls c !! n = Some a → ca_phase a ≠ Created → plain_phase p → waiting (set_ca_phase p a) →
  client_inv (upd_call n (set_ca_phase p) c).
Proof.
  intros Hi Ha Hcr Hp Hw. apply (inv_change c _ n a (set_ca_phase p)); try done.
  - apply call_ok_phase; [by apply (inv_calls c Hi)|done].
  - intros k m Hk. simpl in *. destruct (decide (m = n)) as [->|?]; [right|by left].
    destruct (inv_pending c Hi k n Hk) as (b&Hb&?&?&?&?). by simplify_eq.
  - intros m x Hm. destruct (step_delivers c n a m x Hi Ha Hm) as [?|(?&?&?&?)]; [by left|right].
    split_and!; try done. simpl. intros ->. done.
  - apply Hi.
Qed.

Lemma inv_return c n a e : client_inv c → cl_calls c !! n = Some a →
  client_inv (return_call n (Err e) (removePending (ca_id a) c)).
Proof.
  intros Hi Ha. apply (inv_change c _ n a (set_ca_phase (Returned (Err e)))); try done.
  - apply call_ok_phase; [by apply (inv_calls c Hi)|done].
  - intros k m Hk. left. by apply (pending_own c n a).
  - intros m x Hm. destruct (step_delivers c n a m x Hi Ha Hm) as [?|(?&?&?&?)]; [by left|right]. by split_and!.
  - intros H. simpl. rewrite (inv_cleared c Hi H). apply delete_empty.
Qed.

Lemma note_sent_inv t c : client_inv c → client_inv (note_sent t c).
Proof. intros Hi. by apply (inv_frame c); try apply Hi. Qed.

(** A call that has not registered has no entry. *)
Lemma created_no_entry c n a k m : client_inv c → cl_calls c !! n = Some a → ca_phase a = Created → cl_pending c !! k = Some m → m ≠ n.
Proof.
  intros Hi Ha Hp Hk ->. destruct (inv_pending c Hi k n Hk) as (b&Hb&_&Hw&_). simplify_eq. unfold waiting in Hw. by rewrite Hp in Hw.
Qed.

Lemma register_inv n c c' : client_inv c → register_call n c = Some c' → client_inv c'.
Proof.
  intros Hi H. unfold register_call in H. destruct (cl_calls c !! n) as [a|] eqn:Ha; [|done]. simpl in H.
  destruct (ca_phase a) eqn:Hp; simplify_eq.
  pose proof (inv_calls c Hi n a Ha) as Hok.
  assert (Hr : ∀ m x p, cl_reader c = Delivering m x → m ≠ n ∧ cl_reader c = Delivering m x ∨
    m = n ∧ ca_chan (set_ca_phase p a) = [] ∧ ca_phase (set_ca_phase p a) ≠ Created ∧ requestIDKey (msg_ID x) = ca_id (set_ca_phase p a)).
  { intros m x p Hm. destruct (step_delivers c n a m x Hi Ha Hm) as [?|(?&?&?&?)]; [by left|done]. }
  destruct (is_done c) eqn:Hd.
  { apply (inv_change c _ n a (set_ca_phase (Returned (Err (ErrSentinel ErrDisconnected))))); try done; eauto using call_ok_phase.
    - by apply call_ok_phase.
    - intros k m Hk. left. split; [by eapply created_no_entry|done].
    - apply Hi. }
  apply (inv_change c _ n a (set_ca_phase Registered)); try done; eauto.
  - by apply call_ok_phase.
  - simpl. intros k m [[<- <-]|[Hne Hk]]%lookup_insert_Some.
    + right. split_and!; try done; [by apply (ok_created n a)|]. intros Ht.
      destruct (cl_reader c) as [|i x| | |] eqn:Er; try done. simpl in Ht. subst i.
      destruct (inv_reader c Hi n x Er) as (b&Hb&_&?&_). by simplify_eq.
    + left. split; [by eapply created_no_entry|done].
  - simpl. intros Hcl. unfold is_done in Hd. by rewrite Hcl in Hd.
Qed.

Lemma write_call_inv n conn c c' : client_inv c → write_call n conn c = Some c' → client_inv c'.
Proof.
  intros Hi H. unfold write_call in H. destruct (cl_calls c !! n) as [a|] eqn:Ha; [|done]. simpl in H.
  destruct (ca_phase a) eqn:Hp; simplify_eq. destruct (write _ _ _).
  - by apply inv_return.
  - apply (inv_phase _ n a); try done; [by apply note_sent_inv|congruence].
  - destruct (begin_close_frame (note_sent text c)) as (_&Hc&_).
    apply (inv_phase _ n a); try done; [apply begin_close_inv, note_sent_inv, Hi|by rewrite Hc|congruence].
Qed.

Lemma finish_call_inv n b c c' : client_inv c → finish_call n b c = Some c' → client_inv c'.
Proof.
  intros Hi H. unfold finish_call in H. destruct (cl_calls c !! n) as [a|] eqn:Ha; [|done]. simpl in H.
  destruct (ca_phase a) eqn:Hp; try done. destruct b as [|e|]; [|simplify_eq; by apply inv_return|].
  - destruct (ca_chan a) as [|m rest] eqn:Hch; simplify_eq. pose proof (inv_calls c Hi n a Ha) as Hok.
    assert (Hkey : requestIDKey (msg_ID m) = ca_id a) by (pose proof (ok_answers n a Hok) as F; rewrite Hch in F; by inversion F).
    assert (rest = []) as -> by (pose proof (ok_chan n a Hok) as L; rewrite Hch in L; simpl in L; destruct rest; simpl in L; [done|lia]).
    apply (inv_change c _ n a (λ a, set_ca_phase (Returned (Ok m)) (set_ca_chan [] a))); try done.
    + unfold return_call, upd_call. simpl. by rewrite alter_twice.
    + split; simpl; [apply Hok|lia|by apply Forall_nil|done|]. intros m' [= <-]. exact Hkey.
    + intros k i Hk. simpl in Hk. left. split; [|done]. intros ->.
      destruct (inv_pending c Hi k n Hk) as (b&Hb&_&_&Hc&_). simplify_eq. congruence.
    + intros i x Hm. destruct (step_delivers c n a i x Hi Ha Hm) as [?|(?&Hc&_)]; [by left|]. congruence.
    + apply Hi.
  - destruct (is_done c); simplify_eq. by apply inv_return.
Qed.

Lemma fail_call_inv n c c' : client_inv c → fail_call n c = Some c' → client_inv c'.
Proof.
  intros Hi H. unfold fail_call in H. destruct (cl_calls c !! n) as [a|] eqn:Ha; [|done]. simpl in H.
  destruct (ca_phase a), (cl_closing c); simplify_eq. by apply inv_return.
Qed.

Lemma read_frame_inv f c c' : client_inv c → read_frame f c = Some c' → client_inv c'.
Proof.
  intros Hi H. unfold read_frame in H. destruct (cl_reader c) eqn:Er; simplify_eq. destruct f as [raw| |]; [|done|].
  2: { pose proof (begin_close_inv c Hi) as Hb. apply (inv_frame (begin_close c)); try done. apply Hb. }
  destruct (Unmarshal _ raw _) as [m [|]]; [|done].
  destruct (negb (str_empty (msg_ID m)) && str_empty (msg_Method m)); [|by apply (inv_frame c); try done; apply Hi].
  assert (Hcl : cl_closing c = Cleared → delete (requestIDKey (msg_ID m)) (cl_pending c) = ∅)
    by (intros H; rewrite (inv_cleared c Hi H); apply delete_empty).
  destruct (cl_pending c !! _) as [n|] eqn:Hk.
  - destruct (inv_pending c Hi _ _ Hk) as (a&Ha&Hid&Hw&Hch&_).
    apply (inv_frame c); try done; simpl.
    + intros k i Hki. rewrite Hid in Hki. destruct (pending_own c n a k i Hi Ha Hki) as [Hne ?]. split; [done|]. by intros ->.
    + intros i x [= <- <-]. exists a. split_and!; try done. intros Hc. unfold waiting in Hw. by rewrite Hc in Hw.
  - apply (inv_frame c); try done; simpl.
    + intros k i [_ ?]%lookup_delete_Some. done.
    + intros i x Hx. congruence.
Qed.

Lemma deliver_inv c c' : client_inv c → deliver c = Some c' → client_inv c'.
Proof.
  intros Hi H. unfold deliver in H. destruct (cl_reader c) as [|n m| | |] eqn:Er; try done.
  destruct (cl_calls c !! n) as [a|] eqn:Ha; [|done]. simpl in H. destruct (ca_chan a) eqn:Hch; simplify_eq.
  destruct (inv_reader c Hi n m Er) as (b&Hb&_&Hcr&Hkey). rewrite Ha in Hb. injection Hb as <-. pose proof (inv_calls c Hi n a Ha) as Hok.
  apply (inv_change c _ n a (set_ca_chan [m])); try done.
  - split; simpl; [apply Hok|lia|by apply Forall_singleton|done|apply Hok].
  - intros k i Hk. left. simpl in Hk. split; [|done]. intros ->. destruct (inv_pending c Hi k n Hk) as (?&_&_&_&_&Ht).
    apply Ht. by rewrite Er.
  - apply Hi.
Qed.

Lemma client_step_inv c c' : client_step c c' → zlen (cl_calls c') < 2 ^ 64 → client_inv c → client_inv c'.
Proof.
  intros Hs Hb Hi. destruct Hs.
  - simpl in Hb. unfold zlen in Hb. rewrite length_app in Hb. simpl in Hb. pose proof (inv_next c Hi) as Hn.
    assert (Hnext : u64_incr (cl_nextID c) = zlen (cl_calls c) + 1).
    { rewrite Hn. unfold u64_incr, u64, u64_modulus, zlen. apply Z.mod_small. lia. }
    split; simpl.
    + rewrite Hnext. unfold zlen. rewrite length_app. simpl. lia.
    + intros n a. intros [Ha|[Hl Ha]]%lookup_app_Some; [by apply (inv_calls c Hi)|].
      apply list_lookup_singleton_Some in Ha as [Hz <-]. split; simpl; [|lia|by apply Forall_nil|done|done].
      rewrite Hnext. f_equal. unfold zlen. lia.
    + intros k n Hk. destruct (inv_pending c Hi k n Hk) as (a&Ha&?). exists a. split; [by apply lookup_app_l_Some|done].
    + intros n m Hr. destruct (inv_reader c Hi n m Hr) as (a&Ha&?). exists a. split; [by apply lookup_app_l_Some|done].
    + apply Hi.
  - by eapply register_inv.
  - by eapply write_call_inv.
  - by eapply fail_call_inv.
  - by eapply finish_call_inv.
  - by eapply read_frame_inv.
  - by eapply deliver_inv.
  - unfold push in *. destruct (cl_reader c) eqn:Er; try done. split_matches; simplify_eq; apply (inv_frame c); try done; apply Hi.
  - unfold end_reader in *. destruct (cl_reader c) eqn:Er; try done. destruct (cl_closing c) eqn:Ec; simplify_eq.
    apply (inv_frame c); try done. apply Hi.
  - unfold receive in *. destruct (cl_incoming c); simplify_eq. apply (inv_frame c); try done; apply Hi.
  - by apply begin_close_inv.
  - unfold clear_pending in *. destruct (cl_closing c) eqn:Ec; simplify_eq. apply (inv_frame c); try done. apply Hi.
  - unfold Notify, send. destruct (write _ _ _); simpl; [done|by apply note_sent_inv|by apply begin_close_inv, note_sent_inv].
  - unfold Respond, send. destruct (str_empty id); [done|].
    destruct (write _ _ _); simpl; [done|by apply note_sent_inv|by apply begin_close_inv, note_sent_inv].
Qed.

(** ** What follows *)

Lemma begin_close_calls c : cl_calls (begin_close c) = cl_calls c.
Proof. by destruct (begin_close_frame c) as (_&->&_). Qed.

Lemma client_step_grows c c' : client_step c c' → (length (cl_calls c) ≤ length (cl_calls c'))%nat.
Proof.
  intros Hs. destruct Hs; unfold register_call, write_call, fail_call, finish_call, read_frame, deliver, push, end_reader, receive,
    clear_pending, Notify, Respond, send in *; repeat case_match; simplify_option_eq; repeat case_match; simplify_option_eq;
    unfold return_call, upd_call, removePending, note_sent in *; simpl; rewrite ?begin_close_calls, ?length_app, ?length_alter; simpl; try lia.
Qed.

Lemma reach_inv c : rtc client_step dialed c → zlen (cl_calls c) < 2 ^ 64 → client_inv c.
Proof.
  intros Hr. revert Hr. apply (rtc_ind_r (λ c, zlen (cl_calls c) < 2 ^ 64 → client_inv c)); [intros _; apply dialed_inv|].
  clear c. intros c c' Hr Hs IH Hb.
  apply (client_step_inv c); [done|done|]. apply IH. pose proof (client_step_grows c c' Hs). unfold zlen in *. lia.
Qed.

(** C38: Whatever the order of calls, answers, cancellations and the loss of the
    connection, for as long as fewer than 2^64 calls were begun: a call returns an answer
    only if the answer carries the call's id; no two calls share an id; the reader, once it
    holds an answer for a call, can always put it into the call's channel; and an entry of
    the table of pending requests belongs to a call that has not returned. *)
Theorem answers_reach_their_call c : rtc client_step dialed c → zlen (cl_calls c) < 2 ^ 64 →
  (∀ n a m, cl_calls c !! n = Some a → ca_phase a = Returned (Ok m) → requestIDKey (msg_ID m) = ca_id a) ∧
  (∀ n n' a a', cl_calls c !! n = Some a → cl_calls c !! n' = Some a' → ca_id a = ca_id a' → n = n') ∧
  (∀ n m, cl_reader c = Delivering n m → is_Some (deliver c)) ∧
  (∀ k n, cl_pending c !! k = Some n → ∃ a, cl_calls c !! n = Some a ∧ k = ca_id a ∧ ∀ r, ca_phase a ≠ Returned r).
Proof.
  intros Hr Hb. pose proof (reach_inv c Hr Hb) as Hi. split_and!.
  - intros n a m Ha. apply (inv_calls c Hi n a Ha).
  - intros n n' a a' Ha Ha' He. rewrite (ok_id n a), (ok_id n' a') in He by by apply (inv_calls c Hi).
    apply (inj call_id) in He. lia.
  - intros n m Hd. destruct (inv_reader c Hi n m Hd) as (a&Ha&Hch&_). unfold deliver. rewrite Hd, Ha. simpl. by rewrite Hch.
  - intros k n Hk. destruct (inv_pending c Hi k n Hk) as (a&Ha&Hid&Hw&_). exists a. split_and!; try done.
    intros r He. unfold waiting in Hw. by rewrite He in Hw.
Qed.

Definition returned (n : nat) (c : Client) : Prop := ∃ a r, cl_calls c !! n = Some a ∧ ca_phase a = Returned r.

Lemma return_call_returned n r c a : cl_calls c !! n = Some a → returned n (return_call n r c).
Proof. intros Ha. exists (set_ca_phase (Returned r) a), r. split; [|done]. unfold return_call, upd_call. simpl. by rewrite list_lookup_alter_eq, Ha. Qed.

Lemma release n r a c c0 c1 : (c0 = c ∨ client_step c c0) → client_step c0 (return_call n r c1) → cl_calls c1 !! n = Some a →
  ∃ k c', (k ≤ 2)%nat ∧ nsteps client_step k c c' ∧ returned n c'.
Proof.
  intros [->|H0] H1 Ha; [exists 1%nat|exists 2%nat]; exists (return_call n r c1); (split; [lia|]); (split; [|by eapply return_call_returned]).
  - by apply nsteps_once.
  - eapply nsteps_l; [done|]. by apply nsteps_once.
Qed.

(** Once the connection is lost, every call, wherever it is, returns after at most
    two steps of its own and of the goroutine that closes the connection. *)
Theorem disconnect_releases c n : is_done c = true → (n < length (cl_calls c))%nat →
  ∃ k c', (k ≤ 2)%nat ∧ nsteps client_step k c c' ∧ returned n c'.
Proof.
  intros Hd [a Ha]%lookup_lt_is_Some_2. destruct (ca_phase a) as [| | |e|r] eqn:Hp.
  - apply (release n (Err (ErrSentinel ErrDisconnected)) a c c c); [by left| |done].
    apply (step_register n). unfold register_call. rewrite Ha. simpl. by rewrite Hp, Hd.
  - assert (∃ e, write (request_body (ca_id a) (ca_method a) (ca_params a)) (Ok tt) c = NotWritten e) as [e He]
      by (unfold write; rewrite Hd; destruct (json_encode _); eauto).
    apply (release n (Err e) a c c (removePending (ca_id a) c)); [by left| |done].
    apply (step_write n (Ok tt)). unfold write_call. rewrite Ha. simpl. by rewrite Hp, He.
  - apply (release n (Err (ErrSentinel ErrDisconnected)) a c c (removePending (ca_id a) c)); [by left| |done].
    apply (step_finish n OnDone). unfold finish_call. rewrite Ha. simpl. by rewrite Hp, Hd.
  - destruct (cl_closing c) eqn:Hc; [unfold is_done in Hd; by rewrite Hc in Hd| |].
    + pose (c0 := set_cl_closing Cleared (set_cl_pending ∅ c)).
      apply (release n (Err e) a c c0 (removePending (ca_id a) c0)); [right| |done].
      * apply step_clear. unfold clear_pending. by rewrite Hc.
      * apply (step_fail n). unfold fail_call. simpl. rewrite Ha. simpl. by rewrite Hp.
    + apply (release n (Err e) a c c (removePending (ca_id a) c)); [by left| |done].
      apply (step_fail n). unfold fail_call. rewrite Ha. simpl. by rewrite Hp, Hc.
  - exists 0%nat, c. split; [lia|]. split; [constructor|]. by exists a, r.
Qed.

(** ** What is written *)

(** What [Call] writes is read back by the same message format as the request it
    stands for: the id, as an answer would repeat it, leads to the call, the method is the
    method, and the parameters decode to the parameters. *)
Theorem request_roundtrip n method params : ValidString method = true → readable params = true → maps_sorted params = true →
  (nesting params < max_depth)%nat →
  ∃ raw m, json_encode (request_body (call_id n) method params) = Some raw ∧
    Unmarshal dec_Message raw (mkMessage "" "" "" "" None) = (m, true) ∧
    requestIDKey (msg_ID m) = call_id n ∧ msg_Method m = method ∧ msg_Error m = None ∧
    to_any <$> (snd <$> json_parse (msg_Params m)) = Some (params, true).
Proof.
  intros Hm Hr Hs Hn. set (body := request_body (call_id n) method params).
  assert (readable body = true) as Hrb by (simpl; by rewrite call_id_valid, Hm, Hr).
  assert (nesting body ≤ max_depth)%nat as Hnb by (simpl; lia).
  exists (text body), (mkMessage (text (AStr (call_id n))) method (text params) "" None).
  split; [by apply json_encode_readable|]. unfold Unmarshal. rewrite json_parse_text by done. split; [done|]. simpl. split.
  - unfold requestIDKey, Unmarshal. rewrite (json_parse_text (AStr (call_id n))); [done|by simpl; rewrite call_id_valid|simpl; lia].
  - split_and!; [done|done|]. rewrite json_parse_text by (done || lia). simpl. by rewrite to_any_tree.
Qed.

(** ** A run

    A call is begun, registered and written; its answer arrives while another call is
    waiting; then the connection breaks. *)
Definition demo_answer : string := js "{'id':'remote-1','result':{'turn':{'id':'t1'}}}".

Definition demo_run : option Client :=
  let c := begin_call "thread/list" (AMap []) (begin_call "turn/start" (AMap [("threadId", AStr "th")]) dialed) in
  c ← register_call 0 c; c ← write_call 0 (Ok tt) c; c ← register_call 1 c; c ← read_frame (TextFrame demo_answer) c;
  c ← deliver c; c ← finish_call 0 OnAnswer c; read_frame ReadError c.

Definition demo_client : Client := default dialed demo_run.

Lemma demo_reachable : rtc client_step dialed demo_client.
Proof.
  eapply rtc_l; [apply (step_begin "turn/start" (AMap [("threadId", AStr "th")]))|].
  eapply rtc_l; [apply (step_begin "thread/list" (AMap []))|].
  eapply rtc_l; [apply (step_register 0); vm_compute; reflexivity|].
  eapply rtc_l; [apply (step_write 0 (Ok tt)); vm_compute; reflexivity|].
  eapply rtc_l; [apply (step_register 1); vm_compute; reflexivity|].
  eapply rtc_l; [apply (step_frame (TextFrame demo_answer)); vm_compute; reflexivity|].
  eapply rtc_l; [apply step_deliver; vm_compute; reflexivity|].
  eapply rtc_l; [apply (step_finish 0 OnAnswer); vm_compute; reflexivity|].
  apply rtc_once, (step_frame ReadError). vm_compute. reflexivity.
Qed.

Lemma answers_reach_their_call_witness :
  zlen (cl_calls demo_client) = 2 ∧ cl_pending demo_client = {[ "remote-2" := 1%nat ]} ∧
  (∃ a, cl_calls demo_client !! 1%nat = Some a ∧ "remote-2" = ca_id a ∧ ∀ r, ca_phase a ≠ Returned r).
Proof.
  split; [vm_compute; reflexivity|]. split; [vm_compute; reflexivity|].
  assert (Hb : zlen (cl_calls demo_client) < 2 ^ 64) by (vm_compute; reflexivity).
  destruct (answers_reach_their_call demo_client demo_reachable Hb) as (_&_&_&H). apply H. vm_compute. reflexivity.
Defined.

Lemma disconnect_releases_witness : ∃ k c', (k ≤ 2)%nat ∧ nsteps client_step k demo_client c' ∧ returned 1 c'.
Proof.
  assert (Hd : is_done demo_client = true) by (vm_compute; reflexivity).
  assert (Hn : (1 < length (cl_calls demo_client))%nat) by (vm_compute; lia).
  exact (disconnect_releases demo_client 1 Hd Hn).
Defined.

Lemma request_roundtrip_witness : ∃ raw m,
  json_encode (request_body (call_id 7) "turn/start" (AMap [("threadId", AStr "th"); ("input", AArr [AStr "hi"])])) = Some raw ∧
  Unmarshal dec_Message raw (mkMessage "" "" "" "" None) = (m, true) ∧ requestIDKey (msg_ID m) = call_id 7 ∧
  msg_Method m = "turn/start" ∧ msg_Error m = None ∧
  to_any <$> (snd <$> json_parse (msg_Params m)) = Some (AMap [("threadId", AStr "th"); ("input", AArr [AStr "hi"])], true).
Proof. apply (request_roundtrip 7 "turn/start" (AMap [("threadId", AStr "th"); ("input", AArr [AStr "hi"])])); [done|done|done|]. apply Nat.ltb_lt. vm_compute. reflexivity. Defined.
