(* ===== verification/Adapter.v ===== *)
(** * The adapter (internal/adapter/adapter.go)

    [Adapter] speaks the app-server's protocol for the rest of the Host: it makes the
    calls, turns notifications and server requests into events, keeps the requests that
    wait for an answer and the turns that run.  The functions here are the code's, cut at
    the points where another goroutine can act; [AdapterTheorems] interleaves them. *)

From Stdlib Require Import Ascii String.
From stdpp Require Import base tactics numbers list gmap strings pretty.
From S2P Require Import Prelude GoError GoStrings Float64 Json Client.
Local Open Scope string_scope.
Local Open Scope Z_scope.
Local Open Scope list_scope.

(** ** Data *)

Record InitializeResult := mkInitializeResult {
  ir_UserAgent : string;
  ir_CodexHome : string;
  ir_PlatformFamily : string;
  ir_PlatformOS : string;
}.

#[export] Instance InitializeResult_eq_dec : EqDecision InitializeResult.
Proof. solve_decision. Defined.

Definition set_ir_UserAgent (x : string) (r : InitializeResult) : InitializeResult :=
  mkInitializeResult x (ir_CodexHome r) (ir_PlatformFamily r) (ir_PlatformOS r).
Definition set_ir_CodexHome (x : string) (r : InitializeResult) : InitializeResult :=
  mkInitializeResult (ir_UserAgent r) x (ir_PlatformFamily r) (ir_PlatformOS r).
Definition set_ir_PlatformFamily (x : string) (r : InitializeResult) : InitializeResult :=
  mkInitializeResult (ir_UserAgent r) (ir_CodexHome r) x (ir_PlatformOS r).
Definition set_ir_PlatformOS (x : string) (r : InitializeResult) : InitializeResult :=
  mkInitializeResult (ir_UserAgent r) (ir_CodexHome r) (ir_PlatformFamily r) x.

Definition dec_InitializeResult : decoder InitializeResult := dec_struct
  [("userAgent", field ir_UserAgent set_ir_UserAgent dec_string);
   ("codexHome", field ir_CodexHome set_ir_CodexHome dec_string);
   ("platformFamily", field ir_PlatformFamily set_ir_PlatformFamily dec_string);
   ("platformOs", field ir_PlatformOS set_ir_PlatformOS dec_string)].

Definition no_InitializeResult : InitializeResult := mkInitializeResult "" "" "" "".

Record TurnError := mkTurnError {
  te_Message : string;
  te_AdditionalDetails : option string;
  te_CodexErrorInfo : string;
}.

#[export] Instance TurnError_eq_dec : EqDecision TurnError.
Proof. solve_decision. Defined.

Definition set_te_Message (x : string) (r : TurnError) : TurnError :=
  mkTurnError x (te_AdditionalDetails r) (te_CodexErrorInfo r).
Definition set_te_AdditionalDetails (x : option string) (r : TurnError) : TurnError :=
  mkTurnError (te_Message r) x (te_CodexErrorInfo r).
Definition set_te_CodexErrorInfo (x : string) (r : TurnError) : TurnError :=
  mkTurnError (te_Message r) (te_AdditionalDetails r) x.

Definition dec_TurnError : decoder TurnError := dec_struct
  [("message", field te_Message set_te_Message dec_string);
   ("additionalDetails", field te_AdditionalDetails set_te_AdditionalDetails (dec_ptr "" dec_string));
   ("codexErrorInfo", field te_CodexErrorInfo set_te_CodexErrorInfo dec_raw)].

Definition no_TurnError : TurnError := mkTurnError "" None "".

Inductive TurnCompleteness := TurnCompletenessNone | TurnCompletenessUnknown | TurnCompletenessPartial | TurnCompletenessFull.

#[export] Instance TurnCompleteness_eq_dec : EqDecision TurnCompleteness.
Proof. solve_decision. Defined.

(** An item is the text of its JSON. *)
Record Turn := mkTurn {
  tn_ID : string;
  tn_Status : string;
  tn_StartedAt : option Z;
  tn_CompletedAt : option Z;
  tn_DurationMS : option Z;
  tn_Error : option TurnError;
  tn_Items : list string;
  tn_ItemsView : string;
  tn_Completeness : TurnCompleteness;
}.

#[export] Instance Turn_eq_dec : EqDecision Turn.
Proof. solve_decision. Defined.

Definition set_tn_ID (x : string) (r : Turn) : Turn :=
  mkTurn x (tn_Status r) (tn_StartedAt r) (tn_CompletedAt r) (tn_DurationMS r) (tn_Error r) (tn_Items r)
    (tn_ItemsView r) (tn_Completeness r).
Definition set_tn_Status (x : string) (r : Turn) : Turn :=
  mkTurn (tn_ID r) x (tn_StartedAt r) (tn_CompletedAt r) (tn_DurationMS r) (tn_Error r) (tn_Items r)
    (tn_ItemsView r) (tn_Completeness r).
Definition set_tn_StartedAt (x : option Z) (r : Turn) : Turn :=
  mkTurn (tn_ID r) (tn_Status r) x (tn_CompletedAt r) (tn_DurationMS r) (tn_Error r) (tn_Items r)
    (tn_ItemsView r) (tn_Completeness r).
Definition set_tn_CompletedAt (x : option Z) (r : Turn) : Turn :=
  mkTurn (tn_ID r) (tn_Status r) (tn_StartedAt r) x (tn_DurationMS r) (tn_Error r) (tn_Items r)
    (tn_ItemsView r) (tn_Completeness r).
Definition set_tn_DurationMS (x : option Z) (r : Turn) : Turn :=
  mkTurn (tn_ID r) (tn_Status r) (tn_StartedAt r) (tn_CompletedAt r) x (tn_Error r) (tn_Items r)
    (tn_ItemsView r) (tn_Completeness r).
Definition set_tn_Error (x : option TurnError) (r : Turn) : Turn :=
  mkTurn (tn_ID r) (tn_Status r) (tn_StartedAt r) (tn_CompletedAt r) (tn_DurationMS r) x (tn_Items r)
    (tn_ItemsView r) (tn_Completeness r).
Definition set_tn_Items (x : list string) (r : Turn) : Turn :=
  mkTurn (tn_ID r) (tn_Status r) (tn_StartedAt r) (tn_CompletedAt r) (tn_DurationMS r) (tn_Error r) x
    (tn_ItemsView r) (tn_Completeness r).
Definition set_tn_ItemsView (x : string) (r : Turn) : Turn :=
  mkTurn (tn_ID r) (tn_Status r) (tn_StartedAt r) (tn_CompletedAt r) (tn_DurationMS r) (tn_Error r)
    (tn_Items r) x (tn_Completeness r).
Definition set_tn_Completeness (x : TurnCompleteness) (r : Turn) : Turn :=
  mkTurn (tn_ID r) (tn_Status r) (tn_StartedAt r) (tn_CompletedAt r) (tn_DurationMS r) (tn_Error r)
    (tn_Items r) (tn_ItemsView r) x.

Definition dec_Turn : decoder Turn := dec_struct
  [("id", field tn_ID set_tn_ID dec_string); ("status", field tn_Status set_tn_Status dec_string);
   ("startedAt", field tn_StartedAt set_tn_StartedAt (dec_ptr 0 dec_int64));
   ("completedAt", field tn_CompletedAt set_tn_CompletedAt (dec_ptr 0 dec_int64));
   ("durationMs", field tn_DurationMS set_tn_DurationMS (dec_ptr 0 dec_int64));
   ("error", field tn_Error set_tn_Error (dec_ptr no_TurnError dec_TurnError));
   ("items", field tn_Items set_tn_Items (dec_slice "" dec_raw));
   ("itemsView", field tn_ItemsView set_tn_ItemsView dec_string)].

Definition no_Turn : Turn := mkTurn "" "" None None None None [] "" TurnCompletenessNone.

Record Thread := mkThread {
  th_ID : string;
  th_SessionID : string;
  th_CWD : string;
  th_Name : option string;
  th_Preview : string;
  th_CreatedAt : Z;
  th_UpdatedAt : Z;
  th_RecencyAt : option Z;
  th_ParentThreadID : option string;
  th_Source : string;
  th_Status : string;
  th_Turns : list Turn;
}.

#[export] Instance Thread_eq_dec : EqDecision Thread.
Proof. solve_decision. Defined.

Definition set_th_ID (x : string) (r : Thread) : Thread :=
  mkThread x (th_SessionID r) (th_CWD r) (th_Name r) (th_Preview r) (th_CreatedAt r) (th_UpdatedAt r)
    (th_RecencyAt r) (th_ParentThreadID r) (th_Source r) (th_Status r) (th_Turns r).
Definition set_th_SessionID (x : string) (r : Thread) : Thread :=
  mkThread (th_ID r) x (th_CWD r) (th_Name r) (th_Preview r) (th_CreatedAt r) (th_UpdatedAt r)
    (th_RecencyAt r) (th_ParentThreadID r) (th_Source r) (th_Status r) (th_Turns r).
Definition set_th_CWD (x : string) (r : Thread) : Thread :=
  mkThread (th_ID r) (th_SessionID r) x (th_Name r) (th_Preview r) (th_CreatedAt r) (th_UpdatedAt r)
    (th_RecencyAt r) (th_ParentThreadID r) (th_Source r) (th_Status r) (th_Turns r).
Definition set_th_Name (x : option string) (r : Thread) : Thread :=
  mkThread (th_ID r) (th_SessionID r) (th_CWD r) x (th_Preview r) (th_CreatedAt r) (th_UpdatedAt r)
    (th_RecencyAt r) (th_ParentThreadID r) (th_Source r) (th_Status r) (th_Turns r).
Definition set_th_Preview (x : string) (r : Thread) : Thread :=
  mkThread (th_ID r) (th_SessionID r) (th_CWD r) (th_Name r) x (th_CreatedAt r) (th_UpdatedAt r)
    (th_RecencyAt r) (th_ParentThreadID r) (th_Source r) (th_Status r) (th_Turns r).
Definition set_th_CreatedAt (x : Z) (r : Thread) : Thread :=
  mkThread (th_ID r) (th_SessionID r) (th_CWD r) (th_Name r) (th_Preview r) x (th_UpdatedAt r)
    (th_RecencyAt r) (th_ParentThreadID r) (th_Source r) (th_Status r) (th_Turns r).
Definition set_th_UpdatedAt (x : Z) (r : Thread) : Thread :=
  mkThread (th_ID r) (th_SessionID r) (th_CWD r) (th_Name r) (th_Preview r) (th_CreatedAt r) x
    (th_RecencyAt r) (th_ParentThreadID r) (th_Source r) (th_Status r) (th_Turns r).
Definition set_th_RecencyAt (x : option Z) (r : Thread) : Thread :=
  mkThread (th_ID r) (th_SessionID r) (th_CWD r) (th_Name r) (th_Preview r) (th_CreatedAt r) (th_UpdatedAt r)
    x (th_ParentThreadID r) (th_Source r) (th_Status r) (th_Turns r).
Definition set_th_ParentThreadID (x : option string) (r : Thread) : Thread :=
  mkThread (th_ID r) (th_SessionID r) (th_CWD r) (th_Name r) (th_Preview r) (th_CreatedAt r) (th_UpdatedAt r)
    (th_RecencyAt r) x (th_Source r) (th_Status r) (th_Turns r).
Definition set_th_Source (x : string) (r : Thread) : Thread :=
  mkThread (th_ID r) (th_SessionID r) (th_CWD r) (th_Name r) (th_Preview r) (th_CreatedAt r) (th_UpdatedAt r)
    (th_RecencyAt r) (th_ParentThreadID r) x (th_Status r) (th_Turns r).
Definition set_th_Status (x : string) (r : Thread) : Thread :=
  mkThread (th_ID r) (th_SessionID r) (th_CWD r) (th_Name r) (th_Preview r) (th_CreatedAt r) (th_UpdatedAt r)
    (th_RecencyAt r) (th_ParentThreadID r) (th_Source r) x (th_Turns r).
Definition set_th_Turns (x : list Turn) (r : Thread) : Thread :=
  mkThread (th_ID r) (th_SessionID r) (th_CWD r) (th_Name r) (th_Preview r) (th_CreatedAt r) (th_UpdatedAt r)
    (th_RecencyAt r) (th_ParentThreadID r) (th_Source r) (th_Status r) x.

Definition dec_Thread : decoder Thread := dec_struct
  [("id", field th_ID set_th_ID dec_string); ("sessionId", field th_SessionID set_th_SessionID dec_string);
   ("cwd", field th_CWD set_th_CWD dec_string); ("name", field th_Name set_th_Name (dec_ptr "" dec_string));
   ("preview", field th_Preview set_th_Preview dec_string);
   ("createdAt", field th_CreatedAt set_th_CreatedAt dec_int64);
   ("updatedAt", field th_UpdatedAt set_th_UpdatedAt dec_int64);
   ("recencyAt", field th_RecencyAt set_th_RecencyAt (dec_ptr 0 dec_int64));
   ("parentThreadId", field th_ParentThreadID set_th_ParentThreadID (dec_ptr "" dec_string));
   ("source", field th_Source set_th_Source dec_raw); ("status", field th_Status set_th_Status dec_raw);
   ("turns", field th_Turns set_th_Turns (dec_slice no_Turn dec_Turn))].

Definition no_Thread : Thread := mkThread "" "" "" None "" 0 0 None None "" "" [].

Record ThreadPage := mkThreadPage {
  tp_Data : list Thread;
  tp_NextCursor : option string;
}.

#[export] Instance ThreadPage_eq_dec : EqDecision ThreadPage.
Proof. solve_decision. Defined.

Definition set_tp_Data (x : list Thread) (r : ThreadPage) : ThreadPage :=
  mkThreadPage x (tp_NextCursor r).
Definition set_tp_NextCursor (x : option string) (r : ThreadPage) : ThreadPage :=
  mkThreadPage (tp_Data r) x.

Definition dec_ThreadPage : decoder ThreadPage := dec_struct
  [("data", field tp_Data set_tp_Data (dec_slice no_Thread dec_Thread));
   ("nextCursor", field tp_NextCursor set_tp_NextCursor (dec_ptr "" dec_string))].

Definition no_ThreadPage : ThreadPage := mkThreadPage [] None.

Record PlanStep := mkPlanStep {
  ps_Step : string;
  ps_Status : string;
}.

#[export] Instance PlanStep_eq_dec : EqDecision PlanStep.
Proof. solve_decision. Defined.

Definition set_ps_Step (x : string) (r : PlanStep) : PlanStep :=
  mkPlanStep x (ps_Status r).
Definition set_ps_Status (x : string) (r : PlanStep) : PlanStep :=
  mkPlanStep (ps_Step r) x.

Definition dec_PlanStep : decoder PlanStep := dec_struct
  [("step", field ps_Step set_ps_Step dec_string); ("status", field ps_Status set_ps_Status dec_string)].

Definition no_PlanStep : PlanStep := mkPlanStep "" "".

Record UserInputOption := mkUserInputOption {
  uo_Label : string;
  uo_Description : string;
}.

#[export] Instance UserInputOption_eq_dec : EqDecision UserInputOption.
Proof. solve_decision. Defined.

Definition set_uo_Label (x : string) (r : UserInputOption) : UserInputOption :=
  mkUserInputOption x (uo_Description r).
Definition set_uo_Description (x : string) (r : UserInputOption) : UserInputOption :=
  mkUserInputOption (uo_Label r) x.

Definition dec_UserInputOption : decoder UserInputOption := dec_struct
  [("label", field uo_Label set_uo_Label dec_string);
   ("description", field uo_Description set_uo_Description dec_string)].

Definition no_UserInputOption : UserInputOption := mkUserInputOption "" "".

Record UserInputQuestion := mkUserInputQuestion {
  uq_ID : string;
  uq_Header : string;
  uq_Question : string;
  uq_AllowsMultiple : bool;
  uq_IsOther : bool;
  uq_IsSecret : bool;
  uq_Options : list UserInputOption;
}.

#[export] Instance UserInputQuestion_eq_dec : EqDecision UserInputQuestion.
Proof. solve_decision. Defined.

Definition set_uq_ID (x : string) (r : UserInputQuestion) : UserInputQuestion :=
  mkUserInputQuestion x (uq_Header r) (uq_Question r) (uq_AllowsMultiple r) (uq_IsOther r) (uq_IsSecret r)
    (uq_Options r).
Definition set_uq_Header (x : string) (r : UserInputQuestion) : UserInputQuestion :=
  mkUserInputQuestion (uq_ID r) x (uq_Question r) (uq_AllowsMultiple r) (uq_IsOther r) (uq_IsSecret r)
    (uq_Options r).
Definition set_uq_Question (x : string) (r : UserInputQuestion) : UserInputQuestion :=
  mkUserInputQuestion (uq_ID r) (uq_Header r) x (uq_AllowsMultiple r) (uq_IsOther r) (uq_IsSecret r)
    (uq_Options r).
Definition set_uq_AllowsMultiple (x : bool) (r : UserInputQuestion) : UserInputQuestion :=
  mkUserInputQuestion (uq_ID r) (uq_Header r) (uq_Question r) x (uq_IsOther r) (uq_IsSecret r) (uq_Options r).
Definition set_uq_IsOther (x : bool) (r : UserInputQuestion) : UserInputQuestion :=
  mkUserInputQuestion (uq_ID r) (uq_Header r) (uq_Question r) (uq_AllowsMultiple r) x (uq_IsSecret r)
    (uq_Options r).
Definition set_uq_IsSecret (x : bool) (r : UserInputQuestion) : UserInputQuestion :=
  mkUserInputQuestion (uq_ID r) (uq_Header r) (uq_Question r) (uq_AllowsMultiple r) (uq_IsOther r) x
    (uq_Options r).
Definition set_uq_Options (x : list UserInputOption) (r : UserInputQuestion) : UserInputQuestion :=
  mkUserInputQuestion (uq_ID r) (uq_Header r) (uq_Question r) (uq_AllowsMultiple r) (uq_IsOther r)
    (uq_IsSecret r) x.

Definition dec_UserInputQuestion : decoder UserInputQuestion := dec_struct
  [("id", field uq_ID set_uq_ID dec_string); ("header", field uq_Header set_uq_Header dec_string);
   ("question", field uq_Question set_uq_Question dec_string);
   ("allowsMultiple", field uq_AllowsMultiple set_uq_AllowsMultiple dec_bool);
   ("isOther", field uq_IsOther set_uq_IsOther dec_bool); ("isSecret", field uq_IsSecret set_uq_IsSecret dec_bool);
   ("options", field uq_Options set_uq_Options (dec_slice no_UserInputOption dec_UserInputOption))].

Definition no_UserInputQuestion : UserInputQuestion := mkUserInputQuestion "" "" "" false false false [].

Inductive EventSemantic :=
| SemanticUnknown | SemanticAgentText | SemanticReasoningText | SemanticReasoningSummary | SemanticCommandOutput
| SemanticFileChangeOutput | SemanticProcessOutput | SemanticPlanDelta | SemanticPlanUpdated | SemanticDiffUpdated.

#[export] Instance EventSemantic_eq_dec : EqDecision EventSemantic.
Proof. solve_decision. Defined.

Inductive EventKind :=
| EventVendor | EventCodexUpdated | EventTurnUpdated | EventItemStarted | EventItemDelta | EventItemUpdated
| EventItemCompleted | EventPendingRequestUpdated | EventWarningRaised.

#[export] Instance EventKind_eq_dec : EqDecision EventKind.
Proof. solve_decision. Defined.

Record Event := mkEvent {
  e_Kind : EventKind;
  e_Semantic : EventSemantic;
  e_Method : string;
  e_ThreadID : string;
  e_TurnID : string;
  e_ItemID : string;
  e_PendingID : string;
  e_Params : string;
  e_Text : string;
  e_Encoding : string;
  e_Stream : string;
  e_Diff : string;
  e_Plan : list PlanStep;
}.

#[export] Instance Event_eq_dec : EqDecision Event.
Proof. solve_decision. Defined.

Definition set_e_PendingID (x : string) (r : Event) : Event :=
  mkEvent (e_Kind r) (e_Semantic r) (e_Method r) (e_ThreadID r) (e_TurnID r) (e_ItemID r) x (e_Params r)
    (e_Text r) (e_Encoding r) (e_Stream r) (e_Diff r) (e_Plan r).

Record PendingRequest := mkPendingRequest {
  p_ID : string;
  p_Method : string;
  p_RPCID : string;
  p_ThreadID : string;
  p_TurnID : string;
  p_ItemID : string;
  p_Params : string;
  p_Questions : list UserInputQuestion;
}.

#[export] Instance PendingRequest_eq_dec : EqDecision PendingRequest.
Proof. solve_decision. Defined.


Record TurnInput := mkTurnInput {
  in_Type : string;
  in_Text : string;
  in_Path : string;
}.

#[export] Instance TurnInput_eq_dec : EqDecision TurnInput.
Proof. solve_decision. Defined.


Record TurnOptions := mkTurnOptions {
  op_Model : string;
  op_ApprovalPolicy : string;
  op_CollaborationMode : string;
  op_ReasoningEffort : string;
}.


(** [mu] guards [pending] and [active]; [idle] is a channel of capacity one. *)
Record Adapter := mkAdapterState {
  ad_client : Client;
  ad_events : list Event;  (* history: what was sent on the channel *)
  ad_pending : gmap string PendingRequest;
  ad_active : gmap string string;  (* the running turn of a thread *)
  ad_idle : bool;  (* the channel holds a token *)
}.

Definition set_ad_client (x : Client) (r : Adapter) : Adapter :=
  mkAdapterState x (ad_events r) (ad_pending r) (ad_active r) (ad_idle r).
Definition set_ad_events (x : list Event) (r : Adapter) : Adapter :=
  mkAdapterState (ad_client r) x (ad_pending r) (ad_active r) (ad_idle r).
Definition set_ad_pending (x : gmap string PendingRequest) (r : Adapter) : Adapter :=
  mkAdapterState (ad_client r) (ad_events r) x (ad_active r) (ad_idle r).
Definition set_ad_active (x : gmap string string) (r : Adapter) : Adapter :=
  mkAdapterState (ad_client r) (ad_events r) (ad_pending r) x (ad_idle r).
Definition set_ad_idle (x : bool) (r : Adapter) : Adapter :=
  mkAdapterState (ad_client r) (ad_events r) (ad_pending r) (ad_active r) x.

Notation MA := (M Adapter).

(** ** Calls

    [call] is what [client.Call] ends with, for the method and the parameters. *)

Section Calls.
Context (call : string → any → res Message).

Definition opt_member (key value : string) : list (string * any) := if str_empty value then [] else [(key, AStr value)].

Definition normalizeTurn (t : Turn) : Turn :=
  set_tn_Completeness
    (match tn_ItemsView t with
     | "full" => TurnCompletenessFull
     | "summary" => TurnCompletenessPartial
     | _ => TurnCompletenessUnknown
     end) t.

Definition normalizeThread (t : Thread) : Thread := set_th_Turns (normalizeTurn <$> th_Turns t) t.
Definition normalizeThreads (l : list Thread) : list Thread := normalizeThread <$> l.

(** The structs the results are decoded into: [{ Thread Thread }] and [{ Turn Turn }]. *)
Definition dec_thread_result : decoder Thread := dec_struct [("thread", field id (λ x _, x) dec_Thread)].
Definition dec_turn_result : decoder Turn := dec_struct [("turn", field id (λ x _, x) dec_Turn)].

Definition initialize_params : any :=
  AMap [("clientInfo", AMap [("name", AStr "codex-remote-host"); ("title", AStr "Codex Remote Host"); ("version", AStr "0.1.0")]);
        ("capabilities", AMap [("experimentalApi", ABool true)])].

(** [Initialize]: [None] and the error, or the adapter. *)
Definition Initialize (conn : res unit) (c : Client) : option Adapter * Client * InitializeResult * option goerr :=
  let '(out, err) := decode_result "initialize" dec_InitializeResult no_InitializeResult (call "initialize" initialize_params) in
  match err with
  | Some e => (None, c, out, Some e)
  | None =>
      let '(c, r) := Notify "initialized" (AMap []) conn c in
      match r with
      | Err e => (None, c, out, Some e)
      | Ok _ => (Some (mkAdapterState c [] ∅ ∅ false), c, out, None)
      end
  end.

Definition list_params (cwd cursor : string) (limit : Z) (sourceKinds : list string) : any :=
  AMap ([("limit", AInt limit); ("useStateDbOnly", ABool false)] ++ opt_member "cwd" cwd ++ opt_member "cursor" cursor ++
        match sourceKinds with [] => [] | _ => [("sourceKinds", AArr (AStr <$> sourceKinds))] end).

Definition ListThreads (cwd cursor : string) (limit : Z) (sourceKinds : list string) : ThreadPage * option goerr :=
  let '(out, err) := decode_result "thread/list" dec_ThreadPage no_ThreadPage (call "thread/list" (list_params cwd cursor limit sourceKinds)) in
  (set_tp_Data (normalizeThreads (tp_Data out)) out, err).

Definition thread_call (method : string) (params : any) : Thread * option goerr :=
  let '(out, err) := decode_result method dec_thread_result no_Thread (call method params) in
  (normalizeThread out, err).

Definition ReadThread (id : string) (includeTurns : bool) : Thread * option goerr :=
  thread_call "thread/read" (AMap [("threadId", AStr id); ("includeTurns", ABool includeTurns)]).

Definition StartThread (cwd : string) : Thread * option goerr :=
  thread_call "thread/start" (AMap [("cwd", AStr cwd); ("ephemeral", ABool false)]).

Definition ResumeThread (id : string) : Thread * option goerr := thread_call "thread/resume" (AMap [("threadId", AStr id)]).

Definition input_any (i : TurnInput) : any :=
  AObj ([("type", AStr (in_Type i))] ++ opt_member "text" (in_Text i) ++ opt_member "path" (in_Path i)).

Definition collaboration_without_model : goerr := ErrText "collaboration mode requires a model for Codex app-server settings".

Definition turn_params (threadID : string) (input : list TurnInput) (opt : TurnOptions) : res any :=
  let p := [("threadId", AStr threadID); ("input", AArr (input_any <$> input))] ++ opt_member "approvalPolicy" (op_ApprovalPolicy opt) in
  if negb (str_empty (op_CollaborationMode opt)) then
    if str_empty (op_Model opt) then Err collaboration_without_model
    else
      let settings := AMap ([("model", AStr (op_Model opt))] ++ opt_member "reasoning_effort" (op_ReasoningEffort opt)) in
      Ok (AMap (p ++ [("collaborationMode", AMap [("mode", AStr (op_CollaborationMode opt)); ("settings", settings)])]))
  else Ok (AMap (p ++ opt_member "model" (op_Model opt) ++ opt_member "effort" (op_ReasoningEffort opt))).

(** [StartTurn] up to [markActive], which follows when there is no error. *)
Definition StartTurn (threadID : string) (input : list TurnInput) (opt : TurnOptions) : Turn * option goerr :=
  match turn_params threadID input opt with
  | Err e => (no_Turn, Some e)
  | Ok p =>
      let '(out, err) := decode_result "turn/start" dec_turn_result no_Turn (call "turn/start" p) in
      (normalizeTurn out, err)
  end.

Definition InterruptTurn (threadID turnID : string) : option goerr :=
  (decode_result "turn/interrupt" (dec_struct []) tt (call "turn/interrupt" (AMap [("threadId", AStr threadID); ("turnId", AStr turnID)]))).2.

End Calls.

(** ** Running turns *)

Definition ActiveTurnCount (a : Adapter) : Z := Z.of_nat (size (ad_active a)).

(** The two halves of [markActive]. *)
Definition set_active (threadID turnID : string) (a : Adapter) : Adapter := set_ad_active (<[threadID := turnID]> (ad_active a)) a.
Definition drain_idle (a : Adapter) : Adapter := set_ad_idle false a.

Definition markActive (threadID turnID : string) (a : Adapter) : Adapter := drain_idle (set_active threadID turnID a).

(** The end of a turn in [consume]: whether none is left is read under the lock, the token
    is sent after it. *)
Definition clear_active (threadID : string) (a : Adapter) : Adapter * bool :=
  let a := set_ad_active (delete threadID (ad_active a)) a in (a, bool_decide (size (ad_active a) = 0%nat)).
Definition signal_idle (a : Adapter) : Adapter := set_ad_idle true a.

(** ** Requests of the app-server *)

Definition Pending (id : string) (a : Adapter) : option PendingRequest := ad_pending a !! id.

Definition takePending (id : string) (a : Adapter) : option (PendingRequest * Adapter) :=
  p ← ad_pending a !! id; Some (p, set_ad_pending (delete id (ad_pending a)) a).

Definition restorePending (p : PendingRequest) (a : Adapter) : Adapter := set_ad_pending (<[p_ID p := p]> (ad_pending a)) a.

Definition is_decision (decision : string) : bool :=
  bool_decide (decision ∈ ["accept"; "acceptForSession"; "decline"; "cancel"]).

(** What is answered to a request that was taken, or the error. *)
Definition approval_answer (id decision : string) (p : PendingRequest) : res any :=
  if bool_decide (p_Method p = "item/permissions/requestApproval") then
    let '(permissions, ok) := Unmarshal (dec_struct [("permissions", dec_raw)]) (p_Params p) "" in
    if negb ok then Err (ErrText "json: cannot unmarshal")
    else
      let granted := bool_decide (decision = "accept") || bool_decide (decision = "acceptForSession") in
      Ok (AMap [("permissions", if granted then ARaw permissions else AMap []);
                ("scope", AStr (if bool_decide (decision = "acceptForSession") then "session" else "turn"))])
  else if bool_decide (p_Method p ≠ "item/commandExecution/requestApproval")
          && bool_decide (p_Method p ≠ "item/fileChange/requestApproval") then
    Err (ErrText ("pending request " +:+ Quote id +:+ " is not a supported approval"))
  else Ok (AMap [("decision", AStr decision)]).

Definition input_answer (id : string) (answers : list (string * list string)) (p : PendingRequest) : res any :=
  if bool_decide (p_Method p ≠ "item/tool/requestUserInput") then
    Err (ErrText ("pending request " +:+ Quote id +:+ " is not user input"))
  else Ok (AMap [("answers", AMap ((λ qv, (qv.1, AMap [("answers", AArr (AStr <$> qv.2))])) <$> answers))]).

(** After [takePending]: answer, or put the request back. *)
Definition answer_taken (answer : PendingRequest → res any) (conn : res unit) (p : PendingRequest) : MA unit := λ a,
  match answer p with
  | Err e => (restorePending p a, Err e)
  | Ok body =>
      let '(c, r) := Respond (p_RPCID p) body conn (ad_client a) in
      let a := set_ad_client c a in
      match r with
      | Err e => (restorePending p a, Err e)
      | Ok _ => (a, Ok tt)
      end
  end.

Definition RespondApproval (id decision : string) (conn : res unit) : MA unit := λ a,
  if negb (is_decision decision) then (a, Err (ErrText ("unsupported approval decision " +:+ Quote decision)))
  else match takePending id a with
  | None => (a, Err (ErrText "approval request not pending"))
  | Some (p, a) => answer_taken (approval_answer id decision) conn p a
  end.

(** [answers] lists the map's entries, in any order. *)
Definition RespondUserInput (id : string) (answers : list (string * list string)) (conn : res unit) : MA unit := λ a,
  match takePending id a with
  | None => (a, Err (ErrText "user input request not pending"))
  | Some (p, a) => answer_taken (input_answer id answers) conn p a
  end.

(** ** Events *)

Definition eventKind (method : string) (serverRequest : bool) : EventKind :=
  if serverRequest then EventPendingRequestUpdated
  else if bool_decide (method ∈ ["thread/started"; "thread/status/changed"; "thread/name/updated"; "thread/settings/updated"])
  then EventCodexUpdated
  else if bool_decide (method ∈ ["turn/started"; "turn/completed"]) then EventTurnUpdated
  else if bool_decide (method = "item/started") then EventItemStarted
  else if bool_decide (method = "item/completed") then EventItemCompleted
  else if bool_decide (method ∈ ["turn/plan/updated"; "turn/diff/updated"]) then EventItemUpdated
  else if bool_decide (method ∈ ["error"; "warning"; "deprecationNotice"]) then EventWarningRaised
  else if HasSuffix method "/delta" || HasSuffix method "Delta" then EventItemDelta
  else EventVendor.

Definition eventSemantic (method : string) : EventSemantic :=
  match method with
  | "item/agentMessage/delta" => SemanticAgentText
  | "item/reasoning/textDelta" => SemanticReasoningText
  | "item/reasoning/summaryTextDelta" => SemanticReasoningSummary
  | "item/commandExecution/outputDelta" | "command/exec/outputDelta" => SemanticCommandOutput
  | "item/fileChange/outputDelta" => SemanticFileChangeOutput
  | "process/outputDelta" => SemanticProcessOutput
  | "item/plan/delta" => SemanticPlanDelta
  | "turn/plan/updated" => SemanticPlanUpdated
  | "turn/diff/updated" => SemanticDiffUpdated
  | _ => SemanticUnknown
  end.

(** The struct [translateEvent] reads from the parameters. *)
Record delta_body := mkDeltaBody {
  db_Delta : string;
  db_DeltaBase64 : string;
  db_Stream : string;
  db_Diff : string;
  db_Plan : list PlanStep;
}.

Definition set_db_Delta (x : string) (r : delta_body) : delta_body :=
  mkDeltaBody x (db_DeltaBase64 r) (db_Stream r) (db_Diff r) (db_Plan r).
Definition set_db_DeltaBase64 (x : string) (r : delta_body) : delta_body :=
  mkDeltaBody (db_Delta r) x (db_Stream r) (db_Diff r) (db_Plan r).
Definition set_db_Stream (x : string) (r : delta_body) : delta_body :=
  mkDeltaBody (db_Delta r) (db_DeltaBase64 r) x (db_Diff r) (db_Plan r).
Definition set_db_Diff (x : string) (r : delta_body) : delta_body :=
  mkDeltaBody (db_Delta r) (db_DeltaBase64 r) (db_Stream r) x (db_Plan r).
Definition set_db_Plan (x : list PlanStep) (r : delta_body) : delta_body :=
  mkDeltaBody (db_Delta r) (db_DeltaBase64 r) (db_Stream r) (db_Diff r) x.

Definition dec_delta_body : decoder delta_body := dec_struct
  [("delta", field db_Delta set_db_Delta dec_string);
   ("deltaBase64", field db_DeltaBase64 set_db_DeltaBase64 dec_string);
   ("stream", field db_Stream set_db_Stream dec_string); ("diff", field db_Diff set_db_Diff dec_string);
   ("plan", field db_Plan set_db_Plan (dec_slice no_PlanStep dec_PlanStep))].

Definition no_delta_body : delta_body := mkDeltaBody "" "" "" "" [].

Definition translateEvent (method : string) (serverRequest : bool) (threadID turnID itemID params : string) : Event :=
  let body := (Unmarshal dec_delta_body params no_delta_body).1 in
  let base64 := negb (str_empty (db_DeltaBase64 body)) in
  mkEvent (eventKind method serverRequest) (eventSemantic method) method threadID turnID itemID "" params
    (if base64 then db_DeltaBase64 body else db_Delta body) (if base64 then "base64" else "") (db_Stream body) (db_Diff body)
    (db_Plan body).

(** ** [consume] *)

(** The ids of a message; [it_Turn] and [it_Item] are those of the nested objects. *)
Record ids := mkIds {
  it_ThreadID : string;
  it_TurnID : string;
  it_ItemID : string;
  it_ApprovalID : option string;
  it_Turn : string;
  it_Item : string;
}.

Definition set_it_ThreadID (x : string) (r : ids) : ids :=
  mkIds x (it_TurnID r) (it_ItemID r) (it_ApprovalID r) (it_Turn r) (it_Item r).
Definition set_it_TurnID (x : string) (r : ids) : ids :=
  mkIds (it_ThreadID r) x (it_ItemID r) (it_ApprovalID r) (it_Turn r) (it_Item r).
Definition set_it_ItemID (x : string) (r : ids) : ids :=
  mkIds (it_ThreadID r) (it_TurnID r) x (it_ApprovalID r) (it_Turn r) (it_Item r).
Definition set_it_ApprovalID (x : option string) (r : ids) : ids :=
  mkIds (it_ThreadID r) (it_TurnID r) (it_ItemID r) x (it_Turn r) (it_Item r).
Definition set_it_Turn (x : string) (r : ids) : ids :=
  mkIds (it_ThreadID r) (it_TurnID r) (it_ItemID r) (it_ApprovalID r) x (it_Item r).
Definition set_it_Item (x : string) (r : ids) : ids :=
  mkIds (it_ThreadID r) (it_TurnID r) (it_ItemID r) (it_ApprovalID r) (it_Turn r) x.

Definition dec_ids : decoder ids := dec_struct
  [("threadId", field it_ThreadID set_it_ThreadID dec_string); ("turnId", field it_TurnID set_it_TurnID dec_string);
   ("itemId", field it_ItemID set_it_ItemID dec_string);
   ("approvalId", field it_ApprovalID set_it_ApprovalID (dec_ptr "" dec_string));
   ("turn", dec_struct [("id", field it_Turn set_it_Turn dec_string)]);
   ("item", dec_struct [("id", field it_Item set_it_Item dec_string)])].

Definition message_ids (m : Message) : ids :=
  let x := (Unmarshal dec_ids (msg_Params m) (mkIds "" "" "" None "" "")).1 in
  let x := if str_empty (it_TurnID x) then set_it_TurnID (it_Turn x) x else x in
  if str_empty (it_ItemID x) then set_it_ItemID (it_Item x) x else x.

Definition is_request (m : Message) : bool := negb (str_empty (msg_ID m)).

Definition pending_id (m : Message) : string :=
  match it_ApprovalID (message_ids m) with
  | Some id => if str_empty id then requestIDKey (msg_ID m) else id
  | None => requestIDKey (msg_ID m)
  end.

Definition message_event (m : Message) : Event :=
  let x := message_ids m in
  let e := translateEvent (msg_Method m) (is_request m) (it_ThreadID x) (it_TurnID x) (it_ItemID x) (msg_Params m) in
  if is_request m then set_e_PendingID (pending_id m) e else e.

Definition message_pending (m : Message) : PendingRequest :=
  let x := message_ids m in
  let questions :=
    if bool_decide (msg_Method m = "item/tool/requestUserInput")
    then (Unmarshal (dec_struct [("questions", dec_slice no_UserInputQuestion dec_UserInputQuestion)]) (msg_Params m) []).1
    else [] in
  mkPendingRequest (pending_id m) (msg_Method m) (msg_ID m) (it_ThreadID x) (it_TurnID x) (it_ItemID x) (msg_Params m) questions.

Definition note_pending (m : Message) (a : Adapter) : Adapter :=
  if is_request m then set_ad_pending (<[pending_id m := message_pending m]> (ad_pending a)) a else a.

Definition emit (e : Event) (a : Adapter) : Adapter := set_ad_events (ad_events a ++ [e]) a.

(** One turn of the loop, when nothing interleaves. *)
Definition consume_one (m : Message) (a : Adapter) : Adapter :=
  let x := message_ids m in
  let a := note_pending m a in
  let a := if bool_decide (msg_Method m = "turn/started") then markActive (it_ThreadID x) (it_TurnID x) a else a in
  let a := if bool_decide (msg_Method m = "turn/completed")
           then let '(a, idle) := clear_active (it_ThreadID x) a in if idle then signal_idle a else a
           else a in
  emit (message_event m) a.
