(* ===== verification/AdapterTheorems.v ===== *)
(** * The adapter: interleavings and theorems

    The goroutines that share an adapter: the consumer of the app-server's messages, the
    callers of [StartTurn] after their call has returned, and the callers of
    [RespondApproval] and [RespondUserInput].  A step is one section under [mu], one
    channel operation or one write. *)

From Stdlib Require Import Ascii String.
From stdpp Require Import base tactics numbers list gmap strings pretty relations.
From S2P Require Import Prelude GoError GoStrings Float64 Json Client Adapter.
Local Open Scope string_scope.
Local Open Scope Z_scope.
Local Open Scope list_scope.

(** ** Goroutines *)

(** Where the consumer is with its message. *)
Inductive consumer :=
| CWait
| CNoted (m : Message)       (* the request, if it is one, is in [pending] *)
| CDrain (m : Message)       (* in [markActive], after its lock *)
| CSignal (m : Message)      (* no turn is left, the token is not sent yet *)
| CSend (m : Message).

(** A caller of [StartTurn] whose call has returned. *)
Inductive starter := SMark (threadID turnID : string) | SDrain | SDone.

(** The caller of [RespondApproval] or [RespondUserInput]. *)
Inductive reply := Approve (id decision : string) | Answer (id : string) (answers : list (string * list string)).

Definition reply_id (r : reply) : string := match r with Approve id _ | Answer id _ => id end.
Definition reply_answer (r : reply) : PendingRequest → res any :=
  match r with Approve id decision => approval_answer id decision | Answer id answers => input_answer id answers end.
Definition reply_missing (r : reply) : goerr :=
  match r with Approve _ _ => ErrText "approval request not pending" | Answer _ _ => ErrText "user input request not pending" end.

(** [RespondApproval] refuses an unknown decision before it takes the request. *)
Definition reply_refused (r : reply) : option goerr :=
  match r with
  | Approve _ decision => if is_decision decision then None else Some (ErrText ("unsupported approval decision " +:+ Quote decision))
  | Answer _ _ => None
  end.

Inductive responder := RTake (r : reply) | RAnswer (p : PendingRequest) (r : reply) | RDone (r : res unit).

(** A text that a caller has handed to the connection as its answer to a request, whether
    the write then succeeded or not. *)
Record answer := mkAnswer { an_by : nat; an_request : PendingRequest; an_text : string }.

(** The histories are ghosts: messages consumed, requests noted, answers written. *)
Record system := mkSystem {
  sy_adapter : Adapter;
  sy_consumer : consumer;
  sy_starters : list starter;
  sy_responders : list responder;
  sy_consumed : list Message;
  sy_noted : list PendingRequest;
  sy_answered : list answer;
}.

Definition consume_take (m : Message) (s : system) : option system :=
  match sy_consumer s with
  | CWait => Some (mkSystem (note_pending m (sy_adapter s)) (CNoted m) (sy_starters s) (sy_responders s) (sy_consumed s ++ [m])
                     (sy_noted s ++ if is_request m then [message_pending m] else []) (sy_answered s))
  | _ => None
  end.

Definition with_adapter (a : Adapter) (c : consumer) (s : system) : system :=
  mkSystem a c (sy_starters s) (sy_responders s) (sy_consumed s) (sy_noted s) (sy_answered s).

Definition consume_next (s : system) : option system :=
  let a := sy_adapter s in
  match sy_consumer s with
  | CWait => None
  | CNoted m =>
      let x := message_ids m in
      Some (if bool_decide (msg_Method m = "turn/started") then
              with_adapter (set_active (it_ThreadID x) (it_TurnID x) a) (CDrain m) s
            else if bool_decide (msg_Method m = "turn/completed") then
              let '(a, idle) := clear_active (it_ThreadID x) a in with_adapter a (if idle then CSignal m else CSend m) s
            else with_adapter a (CSend m) s)
  | CDrain m => Some (with_adapter (drain_idle a) (CSend m) s)
  | CSignal m => Some (with_adapter (signal_idle a) (CSend m) s)
  | CSend m => Some (with_adapter (emit (message_event m) a) CWait s)
  end.

Definition set_starters (a : Adapter) (l : list starter) (s : system) : system :=
  mkSystem a (sy_consumer s) l (sy_responders s) (sy_consumed s) (sy_noted s) (sy_answered s).

Definition start_next (n : nat) (s : system) : option system :=
  let a := sy_adapter s in
  st ← sy_starters s !! n;
  match st with
  | SMark th tn => Some (set_starters (set_active th tn a) (<[n := SDrain]> (sy_starters s)) s)
  | SDrain => Some (set_starters (drain_idle a) (<[n := SDone]> (sy_starters s)) s)
  | SDone => None
  end.

Definition set_responders (a : Adapter) (l : list responder) (answered : list answer) (s : system) : system :=
  mkSystem a (sy_consumer s) (sy_starters s) l (sy_consumed s) (sy_noted s) (sy_answered s ++ answered).

Definition respond_next (n : nat) (conn : res unit) (s : system) : option system :=
  let a := sy_adapter s in
  r ← sy_responders s !! n;
  match r with
  | RTake w =>
      Some (match reply_refused w, takePending (reply_id w) a with
            | Some e, _ => set_responders a (<[n := RDone (Err e)]> (sy_responders s)) [] s
            | None, None => set_responders a (<[n := RDone (Err (reply_missing w))]> (sy_responders s)) [] s
            | None, Some (p, a) => set_responders a (<[n := RAnswer p w]> (sy_responders s)) [] s
            end)
  | RAnswer p w =>
      let '(a', r) := answer_taken (reply_answer w) conn p a in
      let texts := drop (length (cl_sent (ad_client a))) (cl_sent (ad_client a')) in
      Some (set_responders a' (<[n := RDone r]> (sy_responders s)) (mkAnswer n p <$> texts) s)
  | RDone _ => None
  end.

(** What else happens at the client: everything but answers. *)
Inductive client_moves : Client → Client → Prop :=
| moves_quiet c c' : client_step c c' → cl_sent c' = cl_sent c → client_moves c c'
| moves_call n conn c c' : write_call n conn c = Some c' → client_moves c c'
| moves_notify method params conn c : client_moves c (Notify method params conn c).1.

Inductive sys_step : system → system → Prop :=
| sys_take m s s' : consume_take m s = Some s' → sys_step s s'
| sys_consume s s' : consume_next s = Some s' → sys_step s s'
| sys_starter th tn s : sys_step s (set_starters (sy_adapter s) (sy_starters s ++ [SMark th tn]) s)
| sys_start n s s' : start_next n s = Some s' → sys_step s s'
| sys_responder w s : sys_step s (set_responders (sy_adapter s) (sy_responders s ++ [RTake w]) [] s)
| sys_respond n conn s s' : respond_next n conn s = Some s' → sys_step s s'
| sys_client c s : client_moves (ad_client (sy_adapter s)) c → sys_step s (with_adapter (set_ad_client c (sy_adapter s)) (sy_consumer s) s).

Definition sys_start_state (c : Client) : system := mkSystem (mkAdapterState c [] ∅ ∅ false) CWait [] [] [] [] [].

(** ** One answer to a request *)

(** A request taken and not yet answered. *)
Definition held (r : responder) : list PendingRequest := match r with RAnswer p _ => [p] | _ => [] end.

Definition answered (s : system) : list PendingRequest := an_request <$> sy_answered s.
Definition waiting (s : system) : list PendingRequest :=
  (sy_responders s ≫= held) ++ (map_to_list (ad_pending (sy_adapter s))).*2.
Definition wire (s : system) : list string := cl_sent (ad_client (sy_adapter s)).
Definition disconnected (s : system) : bool := is_done (ad_client (sy_adapter s)).

(** Every request is in one place at most: waiting, held by one caller, or answered.  One
    whose answer could not be written on a connection that broke waits again, but nothing
    is written on that connection any more. *)
Record accounted (s : system) : Prop := mkAccounted {
  ac_waiting : waiting s ⊆+ sy_noted s;
  ac_answered : answered s ⊆+ sy_noted s;
  ac_apart : disconnected s = false → answered s ++ waiting s ⊆+ sy_noted s;
}.

Lemma insert_submseteq (m : gmap string PendingRequest) id p : (map_to_list (<[id := p]> m)).*2 ⊆+ p :: (map_to_list m).*2.
Proof.
  destruct (m !! id) as [q|] eqn:E.
  - rewrite <- (insert_delete_id m id q E) at 2. rewrite <- insert_delete_eq. rewrite !map_to_list_insert by apply lookup_delete_eq. simpl. apply submseteq_skip. by apply submseteq_cons.
  - by rewrite map_to_list_insert.
Qed.

Lemma delete_permutation (m : gmap string PendingRequest) id p : m !! id = Some p →
  (map_to_list m).*2 ≡ₚ p :: (map_to_list (delete id m)).*2.
Proof. intros E. rewrite <- (insert_delete_id m id p E) at 1. by rewrite map_to_list_insert by apply lookup_delete_eq. Qed.

Lemma held_insert (rs : list responder) n r r' : rs !! n = Some r →
  ((<[n := r']> rs) ≫= held) ++ held r ≡ₚ (rs ≫= held) ++ held r'.
Proof.
  revert n. induction rs as [|x rs IH]; intros [|n] H; simpl in H; simplify_eq; simpl.
  - rewrite <- !app_assoc. rewrite (Permutation_app_comm _ (held r)). rewrite app_assoc. rewrite (Permutation_app_comm (held r')).
    rewrite <- !app_assoc. by rewrite (Permutation_app_comm _ (held r')).
  - rewrite <- !app_assoc. by rewrite IH.
Qed.

Lemma pending_of_client c a : ad_pending (set_ad_client c a) = ad_pending a.
Proof. done. Qed.

(** What an answer writes: nothing, and the request waits again; one text, and it is
    answered; one text on a connection that breaks. *)
Lemma send_cases body conn c : let '(c', r) := send body conn c in
  ((∃ e, r = Err e) ∧ c' = c) ∨
  (is_done c = false ∧ ∃ text, json_encode body = Some text ∧ cl_sent c' = cl_sent c ++ [text] ∧
    ((r = Ok tt ∧ is_done c' = false) ∨ ((∃ e, r = Err e) ∧ is_done c' = true))).
Proof.
  unfold send, write. destruct (json_encode body) as [text|]; [|left; eauto]. destruct (is_done c) eqn:E; [left; eauto|].
  destruct conn as [u|e]; right; (split; [done|]); exists text; (split_and!; [done| |]).
  - done.
  - left. done.
  - unfold begin_close. simpl. by destruct (is_done _).
  - right. split; [eauto|]. unfold begin_close. change (is_done (note_sent text c)) with (is_done c). by rewrite E.
Qed.

Lemma answer_taken_cases answer conn p a : let '(a', r) := answer_taken answer conn p a in
  ((∃ e, r = Err e) ∧ ad_client a' = ad_client a ∧ ad_pending a' = <[p_ID p := p]> (ad_pending a)) ∨
  (is_done (ad_client a) = false ∧ ∃ body text, answer p = Ok body ∧ json_encode (respond_body (p_RPCID p) body) = Some text ∧
    cl_sent (ad_client a') = cl_sent (ad_client a) ++ [text] ∧
    ((r = Ok tt ∧ is_done (ad_client a') = false ∧ ad_pending a' = ad_pending a) ∨
     ((∃ e, r = Err e) ∧ is_done (ad_client a') = true ∧ ad_pending a' = <[p_ID p := p]> (ad_pending a)))).
Proof.
  unfold answer_taken. destruct (answer p) as [body|e]; [|left; eauto]. unfold Respond.
  destruct (str_empty (p_RPCID p)); [left; simpl; eauto|].
  pose proof (send_cases (respond_body (p_RPCID p) body) conn (ad_client a)) as H. destruct (send _ _ _) as [c r].
  destruct H as [[[e ->] ->]|(Hd & text & He & Hc & [[-> Hd']|[[e ->] Hd']])]; simpl.
  - left. split; [eauto|done].
  - right. split; [done|]. exists body, text. split_and!; [done..|]. by left.
  - right. split; [done|]. exists body, text. split_and!; [done..|]. right. split; [eauto|done].
Qed.

Lemma accounted_frame s s' : answered s' = answered s → sy_responders s' = sy_responders s → sy_noted s' = sy_noted s →
  ad_pending (sy_adapter s') = ad_pending (sy_adapter s) → (disconnected s' = false → disconnected s = false) → accounted s → accounted s'.
Proof.
  intros Ha Hr Hn Hp Hd [H1 H2 H3]. assert (waiting s' = waiting s) as Hw by (unfold waiting; by rewrite Hr, Hp).
  split; rewrite ?Ha, ?Hw, ?Hn; auto.
Qed.

(** More waits only as more is noted. *)
Lemma accounted_more s s' (l : list PendingRequest) : answered s' = answered s → disconnected s' = disconnected s →
  sy_noted s' = sy_noted s ++ l → waiting s' ⊆+ waiting s ++ l → accounted s → accounted s'.
Proof.
  intros Ha Hd Hn Hw [H1 H2 H3]. split; rewrite ?Ha, ?Hn, ?Hd.
  - etrans; [exact Hw|]. by apply submseteq_app.
  - by apply submseteq_inserts_r.
  - intros E. etrans; [apply submseteq_app; [reflexivity|exact Hw]|]. rewrite app_assoc. by apply submseteq_app; [apply H3|].
Qed.

Lemma note_accounted m s s' : consume_take m s = Some s' → accounted s → accounted s'.
Proof.
  unfold consume_take. destruct (sy_consumer s); intros Hs; simplify_eq.
  apply (accounted_more _ _ (if is_request m then [message_pending m] else [])); [done| |done|].
  - unfold disconnected, note_pending. simpl. by destruct (is_request m).
  - unfold waiting, note_pending. simpl. destruct (is_request m); simpl; [|by rewrite app_nil_r].
    rewrite <- app_assoc. apply submseteq_app; [done|]. rewrite (Permutation_app_comm _ [_]). apply insert_submseteq.
Qed.

(** A caller that moves on without a word. *)
Lemma taken_accounted s s' : sy_answered s' = sy_answered s → disconnected s' = disconnected s → sy_noted s' = sy_noted s →
  waiting s' ⊆+ waiting s → accounted s → accounted s'.
Proof.
  intros Ha Hd Hn Hw. apply (accounted_more _ _ []); [unfold answered; by rewrite Ha|done|by rewrite app_nil_r|by rewrite app_nil_r].
Qed.

Lemma respond_accounted n conn s s' : respond_next n conn s = Some s' → accounted s → accounted s'.
Proof.
  unfold respond_next. destruct (sy_responders s !! n) as [r|] eqn:Hn; [|done]. simpl. pose proof (λ r', held_insert (sy_responders s) n r r' Hn) as Hi.
  destruct r as [w|p w|]; [| |done].
  - intros [= <-]. destruct (reply_refused w); [|unfold takePending; destruct (ad_pending (sy_adapter s) !! reply_id w) as [p|] eqn:Ep; simpl].
    + apply taken_accounted; [apply app_nil_r|done..|]. unfold waiting. simpl. specialize (Hi (RDone (Err g))). simpl in Hi. rewrite !app_nil_r in Hi. by rewrite Hi.
    + apply taken_accounted; [apply app_nil_r|done..|]. unfold waiting. simpl. specialize (Hi (RAnswer p w)). simpl in Hi. rewrite app_nil_r in Hi.
      rewrite Hi, (delete_permutation _ _ _ Ep), <- app_assoc. done.
    + apply taken_accounted; [apply app_nil_r|done..|]. unfold waiting. simpl. specialize (Hi (RDone (Err (reply_missing w)))). simpl in Hi. rewrite !app_nil_r in Hi. by rewrite Hi.
  - pose proof (answer_taken_cases (reply_answer w) conn p (sy_adapter s)) as Ht. destruct (answer_taken _ _ _ _) as [a r]. intros [= <-].
    specialize (Hi (RDone r)). simpl in Hi. rewrite app_nil_r in Hi.
    destruct Ht as [([e ->] & Hc & Hp)|(Hd & body & text & _ & _ & Hc & Ht)].
    + apply taken_accounted; [simpl; rewrite Hc, drop_all; apply app_nil_r|unfold disconnected; simpl; by rewrite Hc|done|].
      unfold waiting. simpl. rewrite Hp, <- Hi, <- app_assoc. apply submseteq_app; [done|]. apply insert_submseteq.
    + intros [H1 H2 H3]. specialize (H3 Hd). unfold waiting in H3. rewrite <- Hi in H3.
      assert (answered s ++ [p] ++ ((<[n:=RDone r]> (sy_responders s) ≫= held) ++ (map_to_list (ad_pending (sy_adapter s))).*2) ⊆+ sy_noted s) as H4.
      { etrans; [|exact H3]. rewrite <- !app_assoc. simpl. by rewrite !Permutation_middle. }
      assert (∀ s', sy_answered s' = sy_answered s ++ [mkAnswer n p text] → answered s' = answered s ++ [p]) as Ha.
      { intros s' Hs. unfold answered. by rewrite Hs, fmap_app. }
      rewrite Hc, drop_app_length. simpl.
      split; rewrite ?(Ha (set_responders a _ _ s) eq_refl); unfold waiting, disconnected; simpl.
      * destruct Ht as [(-> & Hd' & ->)|([e ->] & Hd' & ->)].
        -- etrans; [|exact H4]. by apply submseteq_inserts_l, submseteq_inserts_l.
        -- unfold waiting in H1. rewrite <- Hi in H1. etrans; [|exact H1]. rewrite <- app_assoc. apply submseteq_app; [done|]. apply insert_submseteq.
      * etrans; [|exact H4]. rewrite app_assoc. by apply submseteq_inserts_r.
      * destruct Ht as [(-> & Hd' & ->)|(_ & Hd' & _)]; [intros _|intros ?; congruence]. by rewrite <- app_assoc.
Qed.

(** A text of the client's own: a call or a notification. *)
Definition own_text (text : string) : Prop :=
  (∃ id method params, json_encode (request_body id method params) = Some text) ∨
  (∃ method params, json_encode (notify_body method params) = Some text).

Lemma begin_close_done c : is_done (begin_close c) = true.
Proof. unfold begin_close. by destruct (is_done c) eqn:E. Qed.

Lemma client_step_done c c' : client_step c c' → is_done c = true → is_done c' = true.
Proof.
  intros Hs Hd. destruct Hs; unfold register_call, write_call, fail_call, finish_call, read_frame, deliver, push, end_reader, receive, clear_pending in *;
    try done; try (destruct (cl_calls c !! n) as [x|]; [|done]; simpl in *).
  all: try apply begin_close_done.
  all: repeat case_match; simplify_eq/=; try done; try apply begin_close_done.
  all: unfold Notify, Respond, send; repeat case_match; simpl; try done; try apply begin_close_done.
  destruct (cl_calls c !! n) as [x|]; [|done]. simpl in *. by destruct (ca_chan x); simplify_eq.
Qed.

Lemma client_moves_done c c' : client_moves c c' → is_done c = true → is_done c' = true.
Proof.
  intros Hm. eapply client_step_done. destruct Hm; [done|by eapply step_write|apply step_notify].
Qed.

Lemma send_own body conn c : (∀ text, json_encode body = Some text → own_text text) →
  cl_sent (send body conn c).1 = cl_sent c ∨ ∃ text, own_text text ∧ cl_sent (send body conn c).1 = cl_sent c ++ [text].
Proof.
  intros Ho. pose proof (send_cases body conn c) as H. destruct (send body conn c) as [c' r].
  destruct H as [[_ ->]|(_ & text & He & Hc & _)]; [by left|right; eauto].
Qed.

Lemma client_moves_sent c c' : client_moves c c' → cl_sent c' = cl_sent c ∨ ∃ text, own_text text ∧ cl_sent c' = cl_sent c ++ [text].
Proof.
  intros [? ? _ H|n conn ? ? H|method params conn ?]; [by left| |apply send_own; intros text He; right; eauto].
  unfold write_call in H. destruct (cl_calls c0 !! n) as [x|]; [|done]. simpl in H. destruct (ca_phase x); try done. injection H as <-.
  unfold write. destruct (json_encode _) as [text|] eqn:He; [|by left]. destruct (is_done c0); [by left|].
  right. exists text. split; [left; eauto|]. destruct conn; [done|]. simpl. unfold begin_close. by case_match.
Qed.

(** Where the texts on the wire come from, and what a caller that was told of success can
    rely on. *)
Record on_wire (s : system) : Prop := mkOnWire {
  ow_texts : ∃ others, wire s ≡ₚ (an_text <$> sy_answered s) ++ others ∧ Forall own_text others;
  ow_answers : Forall (λ x, ∃ w body, reply_answer w (an_request x) = Ok body ∧
    json_encode (respond_body (p_RPCID (an_request x)) body) = Some (an_text x)) (sy_answered s);
  ow_told : ∀ n, sy_responders s !! n = Some (RDone (Ok tt)) → ∃ x, x ∈ sy_answered s ∧ an_by x = n;
}.

Lemma on_wire_frame s s' : sy_answered s' = sy_answered s → sy_responders s' = sy_responders s → wire s' = wire s → on_wire s → on_wire s'.
Proof. intros Ha Hr Hw [H1 H2 H3]. split; rewrite ?Ha, ?Hr, ?Hw; done. Qed.

Lemma respond_on_wire n conn s s' : respond_next n conn s = Some s' → on_wire s → on_wire s'.
Proof.
  unfold respond_next. destruct (sy_responders s !! n) as [r|] eqn:Hn; [|done]. simpl. intros H [H1 H2 H3].
  assert (∀ a r', wire s = cl_sent (ad_client a) → r' ≠ RDone (Ok tt) → on_wire (set_responders a (<[n := r']> (sy_responders s)) [] s)) as Hquiet.
  { intros a r' Hw Hr. split; simpl; rewrite ?app_nil_r; [unfold wire; simpl; by rewrite <- Hw|done|].
    intros m [(_ & Hm & _)|[_ Hm]]%list_lookup_insert_Some; [by destruct Hr|by apply H3]. }
  destruct r as [w|p w|]; [| |done].
  - injection H as <-. destruct (reply_refused w); [by apply Hquiet|]. unfold takePending.
    destruct (ad_pending (sy_adapter s) !! reply_id w) as [p|]; by apply Hquiet.
  - pose proof (answer_taken_cases (reply_answer w) conn p (sy_adapter s)) as Ht. destruct (answer_taken _ _ _ _) as [a r]. injection H as <-.
    destruct Ht as [([e ->] & Hc & _)|(_ & body & text & Hb & He & Hc & _)]; [rewrite Hc, drop_all; by apply Hquiet; [rewrite Hc|]|].
    rewrite Hc, drop_app_length. split; simpl.
    + destruct H1 as (others & Hp & Ho). exists others. split; [|done]. unfold wire in *. simpl. rewrite Hc, Hp, fmap_app. simpl.
      rewrite <- !app_assoc. by rewrite (Permutation_app_comm others).
    + apply Forall_app. split; [done|]. constructor; [|done]. by exists w, body.
    + intros m [(<- & _ & _)|[_ Hm]]%list_lookup_insert_Some; [exists (mkAnswer n p text); set_solver|].
      destruct (H3 m Hm) as (x & Hx & <-). exists x. set_solver.
Qed.

Definition answered_inv (s : system) : Prop := accounted s ∧ on_wire s.

Lemma step_answered s s' : sys_step s s' → answered_inv s → answered_inv s'.
Proof.
  intros Hs [Ha Hw]. destruct Hs.
  - split; [by eapply note_accounted|]. unfold consume_take in H. destruct (sy_consumer s); simplify_eq.
    eapply on_wire_frame; [..|exact Hw]; [done..|]. unfold wire, note_pending. simpl. by destruct (is_request m).
  - assert (sy_answered s' = sy_answered s ∧ sy_responders s' = sy_responders s ∧ sy_noted s' = sy_noted s ∧
      ad_pending (sy_adapter s') = ad_pending (sy_adapter s) ∧ ad_client (sy_adapter s') = ad_client (sy_adapter s)) as (E1 & E2 & E3 & E4 & E5).
    { unfold consume_next, clear_active in H. destruct (sy_consumer s); [done| | | |]; injection H as <-; try done.
      destruct (bool_decide _); [done|]. by destruct (bool_decide _). }
    split; [eapply accounted_frame; [unfold answered; by rewrite E1|done..| |done]; unfold disconnected; by rewrite E5|].
    eapply on_wire_frame; [done..| |done]. unfold wire. by rewrite E5.
  - split; [by apply (accounted_frame s)|by apply (on_wire_frame s)].
  - unfold start_next in H. destruct (sy_starters s !! n) as [[]|]; simplify_eq/=; (split; [by apply (accounted_frame s)|by apply (on_wire_frame s)]).
  - split.
    + apply (taken_accounted s); [apply app_nil_r|done..| |done]. unfold waiting. simpl. by rewrite bind_app, app_nil_r.
    + destruct Hw as [H1 H2 H3]. split; simpl; rewrite ?app_nil_r; [done..|].
      intros n [Hn|[_ Hn]]%lookup_app_Some; [by apply H3|]. by apply list_lookup_singleton_Some in Hn as [_ ?].
  - split; [by eapply respond_accounted|by eapply respond_on_wire].
  - split.
    + apply (accounted_frame s); [done..| |done]. unfold disconnected. simpl. intros E.
      destruct (is_done (ad_client (sy_adapter s))) eqn:E'; [|done]. by rewrite (client_moves_done _ _ H E') in E.
    + destruct Hw as [(others & Hp & Ho) H2 H3]. split; [|done..]. unfold wire in *. simpl.
      destruct (client_moves_sent _ _ H) as [->|(text & Ht & ->)]; [by exists others|].
      exists (others ++ [text]). split; [by rewrite Hp, app_assoc|]. apply Forall_app. split; [done|by constructor].
Qed.

(** C39: On a new connection, for every interleaving of the consumer, the client's own
    traffic and any number of callers that answer requests, and whatever writes fail: the
    texts handed to the connection are the answers of the callers, counted with
    multiplicity, and calls and notifications; each answer is the encoding of what its
    caller asked for under the id of a request the app-server made; no request is answered
    more often than it was made, so when the app-server uses an id once, at most one
    answer to it is ever written, also when a write is reported as failed; while the
    connection lives, what is answered is not waiting or held any more; and a caller that
    is told of success has had its answer written. *)
Theorem requests_answered_once s : rtc sys_step (sys_start_state dialed) s →
  (∃ others, wire s ≡ₚ (an_text <$> sy_answered s) ++ others ∧ Forall own_text others) ∧
  (∀ x, x ∈ sy_answered s → ∃ w body, reply_answer w (an_request x) = Ok body ∧
    json_encode (respond_body (p_RPCID (an_request x)) body) = Some (an_text x)) ∧
  answered s ⊆+ sy_noted s ∧ waiting s ⊆+ sy_noted s ∧
  (NoDup (p_RPCID <$> sy_noted s) → NoDup (p_RPCID <$> answered s)) ∧
  (disconnected s = false → answered s ++ waiting s ⊆+ sy_noted s) ∧
  (∀ n, sy_responders s !! n = Some (RDone (Ok tt)) → ∃ x, x ∈ sy_answered s ∧ an_by x = n).
Proof.
  intros Hr. assert (answered_inv s) as [[Hw Ha Hap] [H1 H2 H3]].
  { revert Hr. apply (rtc_ind_r answered_inv); [|intros x y _; apply step_answered].
    split; [by split; try intros _; apply submseteq_nil_l|]. split; [by exists []|done|done]. }
  split_and!; [done| |done|done| |done|done].
  - intros x Hx. by eapply (proj1 (Forall_forall _ _) H2).
  - intros Hd. apply submseteq_Permutation in Ha as [k Hk]. rewrite Hk, fmap_app in Hd. by apply NoDup_app in Hd as [Hd _].
Qed.

(** ** Events *)

Definition in_flight (c : consumer) : list Message :=
  match c with CWait => [] | CNoted m | CDrain m | CSignal m | CSend m => [m] end.

Definition events_inv (s : system) : Prop :=
  (ad_events (sy_adapter s)) ++ (message_event <$> in_flight (sy_consumer s)) = message_event <$> sy_consumed s.

Lemma step_events s s' : sys_step s s' → events_inv s → events_inv s'.
Proof.
  unfold events_inv. intros Hs Hi. destruct Hs; try done.
  - unfold consume_take in *. destruct (sy_consumer s) eqn:Ec; simplify_eq/=. rewrite fmap_app. simpl in Hi. rewrite app_nil_r in Hi. rewrite <- Hi.
    unfold note_pending. by destruct (is_request m).
  - unfold consume_next in H. destruct (sy_consumer s) as [|m|m|m|m] eqn:Ec; [done| | | |]; injection H as <-.
    + unfold clear_active. destruct (bool_decide _); [exact Hi|]. destruct (bool_decide _); [|exact Hi].
      by destruct (bool_decide (size _ = _)).
    + exact Hi.
    + exact Hi.
    + etrans; [apply app_nil_r|exact Hi].
  - unfold start_next in *. destruct (sy_starters s !! n) as [[]|]; by simplify_eq/=.
  - unfold respond_next in *. destruct (sy_responders s !! n) as [[]|]; simplify_eq/=.
    + destruct (reply_refused r); [done|]. unfold takePending. by destruct (ad_pending (sy_adapter s) !! reply_id r).
    + unfold answer_taken, restorePending in *. repeat case_match; by simplify_eq/=.
Qed.

(** The events of the adapter are the app-server's messages, translated, each once
    and in the order they were read; the one message in the consumer's hands comes next. *)
Theorem events_follow_messages c s : rtc sys_step (sys_start_state c) s →
  ad_events (sy_adapter s) ++ (message_event <$> in_flight (sy_consumer s)) = message_event <$> sy_consumed s.
Proof. apply (rtc_ind_r events_inv); [done|]. intros x y _ Hs. by apply step_events. Qed.

(** ** Idleness

    When nothing interleaves, a token in the [idle] channel means that no turn runs.  The
    goroutines break that in two ways. *)

Definition idle_sound (a : Adapter) : Prop := ad_idle a = true → ad_active a = ∅.

Lemma markActive_idle th tn a : idle_sound (markActive th tn a).
Proof. done. Qed.

Lemma clear_active_idle th a : idle_sound a → let '(a', idle) := clear_active th a in idle_sound (if idle then signal_idle a' else a').
Proof.
  unfold clear_active, idle_sound. intros Hi. simpl. destruct (bool_decide _) eqn:E; simpl; intros H.
  - apply bool_decide_eq_true in E. by apply map_size_empty_iff in E.
  - rewrite (Hi H). apply delete_empty.
Qed.

Lemma consume_one_idle m a : idle_sound a → idle_sound (consume_one m a).
Proof.
  intros Hi. unfold consume_one.
  assert (idle_sound (note_pending m a)) as H1 by (unfold note_pending; by destruct (is_request m)).
  assert (∀ b, idle_sound b → idle_sound (emit (message_event m) b)) as He by done. apply He. clear He.
  case_bool_decide as E1; case_bool_decide as E2; [congruence| |apply markActive_idle|exact H1].
  pose proof (clear_active_idle (it_ThreadID (message_ids m)) _ H1) as Hc. by destruct (clear_active _ _).
Qed.

Definition turn_message (method th tn : string) : Message :=
  mkMessage "" method (js ("{'threadId':'" +:+ th +:+ "','turn':{'id':'" +:+ tn +:+ "'}}")) "" None.

(** [StartTurn] has its answer; before it marks the turn, the consumer handles the turn's
    start and its end.  The turn stays marked. *)
Definition late_mark : option system :=
  let s := set_starters (sy_adapter (sys_start_state dialed)) [SMark "th" "t1"] (sys_start_state dialed) in
  s ← consume_take (turn_message "turn/started" "th" "t1") s; s ← consume_next s; s ← consume_next s; s ← consume_next s;
  s ← consume_take (turn_message "turn/completed" "th" "t1") s; s ← consume_next s; s ← consume_next s; s ← consume_next s;
  s ← start_next 0 s; start_next 0 s.

(** A turn ends and none is left; before the token is sent, another turn is marked. *)
Definition late_token : option system :=
  let s := sys_start_state dialed in
  s ← consume_take (turn_message "turn/started" "th" "t1") s; s ← consume_next s; s ← consume_next s; s ← consume_next s;
  s ← consume_take (turn_message "turn/completed" "th" "t1") s; s ← consume_next s;
  let s := set_starters (sy_adapter s) [SMark "th" "t2"] s in
  s ← start_next 0 s; s ← start_next 0 s; s ← consume_next s; consume_next s.

Definition summary (s : system) : Z * bool * gmap string string :=
  (ActiveTurnCount (sy_adapter s), ad_idle (sy_adapter s), ad_active (sy_adapter s)).

Lemma idle_races : summary <$> late_mark = Some (1, false, {[ "th" := "t1" ]}) ∧ summary <$> late_token = Some (1, true, {[ "th" := "t2" ]}).
Proof. split; vm_compute; reflexivity. Qed.

(** ** A run

    A command approval arrives, two callers answer it; one of them finds it gone. *)
Definition approval_message : Message :=
  mkMessage "17" "item/commandExecution/requestApproval" (js "{'threadId':'th','turnId':'t1','itemId':'i1'}") "" None.

Definition race_run : option system :=
  let ask := RTake (Approve "17" "accept") in
  let s := sys_start_state dialed in
  s ← consume_take approval_message s;
  let s := set_responders (sy_adapter s) (sy_responders s ++ [ask]) [] s in
  let s := set_responders (sy_adapter s) (sy_responders s ++ [ask]) [] s in
  s ← respond_next 0 (Ok tt) s; s ← respond_next 1 (Ok tt) s; s ← respond_next 0 (Ok tt) s; s ← consume_next s; consume_next s.

Definition race_end : system := default (sys_start_state dialed) race_run.

Lemma race_reachable : rtc sys_step (sys_start_state dialed) race_end.
Proof.
  eapply rtc_l; [apply (sys_take approval_message); vm_compute; reflexivity|].
  eapply rtc_l; [apply (sys_responder (Approve "17" "accept"))|].
  eapply rtc_l; [apply (sys_responder (Approve "17" "accept"))|].
  eapply rtc_l; [apply (sys_respond 0 (Ok tt)); vm_compute; reflexivity|].
  eapply rtc_l; [apply (sys_respond 1 (Ok tt)); vm_compute; reflexivity|].
  eapply rtc_l; [apply (sys_respond 0 (Ok tt)); vm_compute; reflexivity|].
  eapply rtc_l; [apply sys_consume; vm_compute; reflexivity|].
  apply rtc_once, sys_consume. vm_compute. reflexivity.
Qed.

Lemma requests_answered_once_witness :
  wire race_end = [js "{'jsonrpc':'2.0','id':17,'result':{'decision':'accept'}}"] ∧
  p_RPCID <$> answered race_end = ["17"] ∧ NoDup (p_RPCID <$> answered race_end) ∧ ∃ x, x ∈ sy_answered race_end ∧ an_by x = 0%nat.
Proof.
  assert (NoDup (p_RPCID <$> sy_noted race_end)) as Hd by (apply (bool_decide_unpack _); vm_compute; exact I).
  destruct (requests_answered_once race_end race_reachable) as (_ & _ & _ & _ & H & _ & Ht).
  split; [vm_compute; reflexivity|]. split; [vm_compute; reflexivity|]. split; [exact (H Hd)|]. apply Ht. vm_compute. reflexivity.
Defined.

Lemma events_follow_messages_witness :
  length (sy_consumed race_end) = 1%nat ∧
  ad_events (sy_adapter race_end) ++ (message_event <$> in_flight (sy_consumer race_end)) = message_event <$> sy_consumed race_end.
Proof. split; [vm_compute; reflexivity|]. exact (events_follow_messages dialed race_end race_reachable). Defined.

(** ** The outcome of an answer *)

(** Requests are stored under their own ids. *)
Definition keyed (a : Adapter) : Prop := ∀ id p, ad_pending a !! id = Some p → p_ID p = id.

Lemma consume_one_keyed m a : keyed a → keyed (consume_one m a).
Proof.
  intros Hk id p. unfold consume_one.
  assert (keyed (note_pending m a)) as H1.
  { unfold note_pending. destruct (is_request m); [|done]. intros k q Hq. change (<[pending_id m := message_pending m]> (ad_pending a) !! k = Some q) in Hq. revert Hq. intros [[<- <-]|[_ Hq]]%lookup_insert_Some; [done|by apply Hk]. }
  case_bool_decide; case_bool_decide; [congruence| |apply H1|apply H1].
  pose proof (H1 id p) as H2. unfold clear_active. simpl. by destruct (bool_decide (size _ = _)).
Qed.

Lemma restore_taken id p a : keyed a → ad_pending a !! id = Some p → <[p_ID p := p]> (delete id (ad_pending a)) = ad_pending a.
Proof. intros Hk Hp. rewrite (Hk id p Hp). by apply insert_delete_id. Qed.

Lemma send_sent body conn c c' : send body conn c = (c', Ok tt) → ∃ text, json_encode body = Some text ∧ cl_sent c' = cl_sent c ++ [text].
Proof. unfold send, write. destruct (json_encode body) as [text|]; [|done]. destruct (is_done c); [done|]. destruct conn; [|done]. intros [= <-]. by exists text. Qed.

(** Answering an approval either succeeds, and then the request is no longer pending
    and exactly one text was written, the encoding of the answer under the id the
    app-server gave its request, or fails, and then the request is pending as before; the
    running turns, the events and the idle token are not touched. *)
Theorem approval_outcome id decision conn a a' r : keyed a → RespondApproval id decision conn a = (a', r) →
  ad_active a' = ad_active a ∧ ad_events a' = ad_events a ∧ ad_idle a' = ad_idle a ∧
  match r with
  | Ok _ => ∃ p body text, ad_pending a !! id = Some p ∧ ad_pending a' = delete id (ad_pending a) ∧
      approval_answer id decision p = Ok body ∧ json_encode (respond_body (p_RPCID p) body) = Some text ∧
      cl_sent (ad_client a') = cl_sent (ad_client a) ++ [text]
  | Err _ => ad_pending a' = ad_pending a
  end.
Proof.
  intros Hk. unfold RespondApproval. destruct (is_decision decision); simpl; [|intros [= <- <-]; done].
  unfold takePending. destruct (ad_pending a !! id) as [p|] eqn:Hp; simpl; [|intros [= <- <-]; done].
  unfold answer_taken. destruct (approval_answer id decision p) as [body|e] eqn:Ha.
  2: { intros [= <- <-]. split_and!; try done. by apply restore_taken. }
  simpl. unfold Respond. destruct (str_empty (p_RPCID p)).
  { intros [= <- <-]. split_and!; try done. by apply restore_taken. }
  destruct (send _ _ _) as [c [[]|e]] eqn:Hs; intros [= <- <-]; (split_and!; try done).
  - apply send_sent in Hs as (text&He&Ht). exists p, body, text. split_and!; done.
  - by apply restore_taken.
Qed.

Definition asked : Adapter := consume_one approval_message (mkAdapterState dialed [] ∅ ∅ false).

Lemma approval_outcome_witness : ∃ p body text, ad_pending asked !! "17" = Some p ∧
  ad_pending (RespondApproval "17" "decline" (Ok tt) asked).1 = delete "17" (ad_pending asked) ∧
  approval_answer "17" "decline" p = Ok body ∧ json_encode (respond_body (p_RPCID p) body) = Some text ∧
  cl_sent (ad_client (RespondApproval "17" "decline" (Ok tt) asked).1) = cl_sent (ad_client asked) ++ [text].
Proof.
  assert (Hk : keyed asked) by (apply consume_one_keyed; intros ???; done).
  pose proof (approval_outcome "17" "decline" (Ok tt) asked _ _ Hk (surjective_pairing _)) as (_&_&_&H).
  assert ((RespondApproval "17" "decline" (Ok tt) asked).2 = Ok tt) as E by (vm_compute; reflexivity). by rewrite E in H.
Defined.
