(* ===== verification/Sessions.v ===== *)
(** * The session service (internal/session/service.go)

    Discovery, import and creation of app-server threads.  The service sees the adapter
    through an interface; [app_server] implements it with the calls of [Adapter]. *)

From Stdlib Require Import Ascii String.
From stdpp Require Import base tactics numbers list gmap strings pretty.
From S2P Require Import Prelude GoError GoStrings GoPath FileSystem FileCalls Directory Float64 Json Client Adapter.
Local Open Scope string_scope.
Local Open Scope Z_scope.
Local Open Scope list_scope.

(** [session.Adapter]; a method returns its value also when it returns an error. *)
Class SessionAdapter := {
  sa_ListThreads : string → string → Z → list string → ThreadPage * option goerr;
  sa_ReadThread : string → bool → Thread * option goerr;
  sa_ResumeThread : string → Thread * option goerr;
  sa_StartThread : string → Thread * option goerr;
}.

(** The adapter's calls, over what the client answers. *)
Definition app_server (call : string → any → res Message) : SessionAdapter := {|
  sa_ListThreads := ListThreads call;
  sa_ReadThread := ReadThread call;
  sa_ResumeThread := ResumeThread call;
  sa_StartThread := StartThread call;
|}.

Definition DefaultSourceKinds : list string := ["cli"; "vscode"; "exec"; "appServer"; "unknown"].

Definition normalizeIdentity (t : Thread) : Thread * bool :=
  let t := set_th_SessionID (TrimSpace (th_SessionID t)) (set_th_ID (TrimSpace (th_ID t)) t) in
  let t := if str_empty (th_ID t) then set_th_ID (th_SessionID t) t else t in
  let t := if str_empty (th_SessionID t) then set_th_SessionID (th_ID t) t else t in
  (t, negb (str_empty (th_ID t))).

Section Sessions.
Context `{SA : SessionAdapter} (env : process_env) (directories : Directory.Service) (sourceKinds : list string).

(** The loop of [Discover]: which threads of a page are kept, and how. *)
Definition keep_thread (path : string) (t : Thread) : option Thread :=
  match normalizeIdentity t with
  | (t, true) =>
      if bool_decide (th_ParentThreadID t ≠ None) then None
      else match Abs (env_wd env) (Clean (th_CWD t)) with
           | Ok tcwd => if bool_decide (tcwd = path) then Some t else None
           | Err _ => None
           end
  | (_, false) => None
  end.

Definition Discover (cwd cursor : string) (limit : Z) : M FS (string * ThreadPage * option goerr) :=
  r ← attempt (Prepare env directories cwd false);
  match r with
  | Err e => mret ("", no_ThreadPage, Some e)
  | Ok p =>
      let sources := match sourceKinds with [] => DefaultSourceKinds | _ => sourceKinds end in
      let '(page, err) := sa_ListThreads (pr_Path p) cursor limit sources in
      match err with
      | Some e => mret (pr_Path p, page, Some e)
      | None => mret (pr_Path p, set_tp_Data (omap (keep_thread (pr_Path p)) (tp_Data page)) page, None)
      end
  end.

Definition Import (id : string) : Thread * option goerr :=
  let '(t, err) := sa_ReadThread id true in
  match err with
  | Some e => (t, Some e)
  | None =>
      if bool_decide (th_ParentThreadID t ≠ None) then (t, Some (ErrText ("cannot import subagent thread " +:+ id)))
      else
        let '(t, ok) := normalizeIdentity t in
        if negb ok || negb (bool_decide (th_ID t = id)) then (t, Some (ErrText ("session identity mismatch for " +:+ id)))
        else
          let '(resumed, err) := sa_ResumeThread id in
          match err with
          | Some e => (t, Some e)
          | None =>
              let resumed := match th_Turns resumed with [] => set_th_Turns (th_Turns t) resumed | _ => resumed end in
              let '(resumed, ok) := normalizeIdentity resumed in
              if negb ok || negb (bool_decide (th_ID resumed = id))
              then (resumed, Some (ErrText ("resumed session identity mismatch for " +:+ id)))
              else (resumed, None)
          end
  end.

Definition Create (cwd : string) (create : bool) : M FS (Thread * bool * option goerr) :=
  r ← attempt (Prepare env directories cwd create);
  match r with
  | Err e => mret (no_Thread, false, Some e)
  | Ok p =>
      let '(t, err) := sa_StartThread (pr_Path p) in
      match err with
      | Some e => mret (t, pr_Created p, Some e)
      | None =>
          match normalizeIdentity t with
          | (_, false) => mret (no_Thread, pr_Created p, Some (ErrText "app-server returned an empty thread identity"))
          | (t, true) => mret (t, pr_Created p, None)
          end
      end
  end.

(** ** Properties *)

Lemma attempt_any {S A} (m : M S A) s s' r : attempt m s = (s', r) → ∃ r1, r = Ok r1 ∧ m s = (s', r1).
Proof. unfold attempt. destruct (m s) as [s1 r1]. intros [= <- <-]. eauto. Qed.

(** The identity of a thread that leaves the service. *)
Definition identified (t : Thread) : Prop :=
  th_ID t ≠ "" ∧ th_SessionID t ≠ "" ∧ TrimSpace (th_ID t) = th_ID t ∧ TrimSpace (th_SessionID t) = th_SessionID t.

Lemma normalizeIdentity_identified t t' : normalizeIdentity t = (t', true) → identified t'.
Proof.
  unfold normalizeIdentity, identified. intros H. destruct (str_empty (TrimSpace (th_ID t))) eqn:E1; simpl in H; rewrite ?E1 in H; simpl in H.
  - destruct (str_empty (TrimSpace (th_SessionID t))) eqn:E2; simpl in H; rewrite ?E2 in H; [by injection H|].
    injection H as <-. simpl. unfold str_empty in *. to_prop. by rewrite !TrimSpace_idemp.
  - destruct (str_empty (TrimSpace (th_SessionID t))) eqn:E2; simpl in H; rewrite ?E1 in H; injection H as <-; simpl;
      unfold str_empty in *; to_prop; by rewrite !TrimSpace_idemp.
Qed.

(** Normalising changes the two identity fields only. *)
Lemma normalizeIdentity_frame t t' ok : normalizeIdentity t = (t', ok) →
  th_CWD t' = th_CWD t ∧ th_ParentThreadID t' = th_ParentThreadID t ∧ th_Turns t' = th_Turns t ∧ th_Source t' = th_Source t.
Proof. unfold normalizeIdentity. intros [= <- _]. simpl. by repeat case_match. Qed.

(** A listed thread is kept when it has an identity, is no subagent's and runs in the
    directory. *)
Definition belongs (path : string) (t : Thread) : Prop :=
  (TrimSpace (th_ID t) ≠ "" ∨ TrimSpace (th_SessionID t) ≠ "") ∧ th_ParentThreadID t = None ∧ Abs (env_wd env) (Clean (th_CWD t)) = Ok path.

#[local] Instance belongs_dec path t : Decision (belongs path t).
Proof. unfold belongs. apply _. Defined.

Lemma normalizeIdentity_ok t : (normalizeIdentity t).2 = true ↔ TrimSpace (th_ID t) ≠ "" ∨ TrimSpace (th_SessionID t) ≠ "".
Proof.
  unfold normalizeIdentity. simpl. destruct (str_empty (TrimSpace (th_ID t))) eqn:E1; simpl; rewrite ?E1; simpl.
  - destruct (str_empty (TrimSpace (th_SessionID t))) eqn:E2; simpl; rewrite ?E2; simpl; unfold str_empty in *; to_prop; naive_solver.
  - destruct (str_empty (TrimSpace (th_SessionID t))) eqn:E2; simpl; rewrite ?E1; unfold str_empty in *; to_prop; naive_solver.
Qed.

Lemma keep_thread_spec path t : keep_thread path t = if bool_decide (belongs path t) then Some (normalizeIdentity t).1 else None.
Proof.
  unfold keep_thread. pose proof (normalizeIdentity_ok t) as Hok. destruct (normalizeIdentity t) as [t' ok] eqn:En.
  destruct (normalizeIdentity_frame _ _ _ En) as (Hc&Hp&_). rewrite Hc, Hp. simpl in *.
  destruct (bool_decide_reflect (belongs path t)) as [Hb|Hb]; unfold belongs in Hb; destruct ok; try naive_solver.
  - destruct Hb as (_&->&->). simpl. by rewrite bool_decide_true.
  - case_bool_decide; [done|]. destruct (Abs _ _) as [q|]; [|done]. case_bool_decide; [|done]. subst. destruct Hb.
    split_and!; [by apply Hok|by destruct (th_ParentThreadID t)|done].
Qed.

Lemma omap_keep path (l : list Thread) : omap (keep_thread path) l = (λ t, (normalizeIdentity t).1) <$> filter (belongs path) l.
Proof.
  induction l as [|t l IH]; [done|]. cbn [omap list_omap]. rewrite keep_thread_spec, IH, filter_cons.
  case_bool_decide as Hb; [by rewrite decide_True|by rewrite decide_False].
Qed.

Lemma Import_spec id t : Import id = (t, None) →
  ∃ read resumed, sa_ReadThread id true = (read, None) ∧ sa_ResumeThread id = (resumed, None) ∧ th_ParentThreadID read = None ∧
    identified t ∧ th_ID t = id ∧ th_Turns t = match th_Turns resumed with [] => th_Turns read | turns => turns end.
Proof.
  unfold Import. destruct (sa_ReadThread id true) as [read [e|]] eqn:Er; [done|]. case_bool_decide as Hp; [done|].
  destruct (normalizeIdentity read) as [t1 ok1] eqn:E1. destruct (negb ok1 || _); [done|].
  destruct (sa_ResumeThread id) as [resumed [e|]] eqn:Es; [done|].
  destruct (normalizeIdentity (match th_Turns resumed with [] => _ | _ => _ end)) as [t2 [|]] eqn:E2; [|done].
  simpl. case_bool_decide as Hid; [|done]. intros [= <-]. exists read, resumed.
  destruct (normalizeIdentity_frame _ _ _ E1) as (_&_&Ht1&_). destruct (normalizeIdentity_frame _ _ _ E2) as (_&_&Ht2&_).
  split; [done|]. split; [done|]. split; [by destruct (th_ParentThreadID read)|]. split; [by eapply normalizeIdentity_identified|]. split; [done|].
  rewrite Ht2. destruct (th_Turns resumed) eqn:E; simpl; by rewrite ?Ht1, ?E.
Qed.

(** What the session service hands out.  A directory is listed only if it exists, and
    nothing is created for it; the threads listed are exactly those of the app-server's
    page that have an identity, belong to no subagent and run in that directory, in order,
    with their identity completed.  An imported thread has exactly the id asked for, was
    not a subagent's when it was read, and keeps the turns that were read when resuming
    brings none.  A created thread was started in an existing directory and has an
    identity. *)
Theorem session_results (Henv : rooted_env env) s (Hroot : ∃ i, fs_tree s !! [] = Some i ∧ in_node i = NDir) :
  (∀ cwd cursor limit s' path page, Discover cwd cursor limit s = (s', Ok (path, page, None)) →
     fs_tree s' = fs_tree s ∧ Normalize env directories cwd = Ok path ∧ names_dir (fs_tree s') path ∧
     ∃ listed kinds, sa_ListThreads path cursor limit kinds = (listed, None) ∧ kinds ≠ [] ∧ tp_NextCursor page = tp_NextCursor listed ∧
       tp_Data page = (λ t, (normalizeIdentity t).1) <$> filter (belongs path) (tp_Data listed) ∧ Forall identified (tp_Data page)) ∧
  (∀ id t, Import id = (t, None) →
     ∃ read resumed, sa_ReadThread id true = (read, None) ∧ sa_ResumeThread id = (resumed, None) ∧ th_ParentThreadID read = None ∧
       identified t ∧ th_ID t = id ∧ th_Turns t = match th_Turns resumed with [] => th_Turns read | turns => turns end) ∧
  (∀ cwd create s' t created, Create cwd create s = (s', Ok (t, created, None)) →
     grown (fs_tree s) (fs_tree s') ∧ identified t ∧
     ∃ path started, Normalize env directories cwd = Ok path ∧ names_dir (fs_tree s') path ∧
       sa_StartThread path = (started, None) ∧ t = (normalizeIdentity started).1).
Proof.
  split_and!.
  - intros cwd cursor limit s' path page H. unfold Discover in H. apply M_bind_inv_any in H as (s1 & r & H1 & H).
    apply attempt_any in H1 as (r1 & -> & H1). destruct (Prepare_spec _ _ _ _ _ _ _ Henv Hroot H1) as (_ & Hno & Hr).
    destruct r1 as [p|e]; [|done]. destruct Hr as (Hn & _ & Hd & _).
    destruct (sa_ListThreads _ _ _ _) as [listed [e|]] eqn:El; [done|]. injection H as -> <- <-.
    split_and!; [by apply Hno|done|done|]. eexists listed, _. split; [exact El|]. split; [by destruct sourceKinds|]. split; [done|].
    simpl. rewrite omap_keep. split; [done|]. apply Forall_fmap, Forall_forall. intros t [Hb _]%list_elem_of_filter. simpl.
    apply (normalizeIdentity_identified t). rewrite (surjective_pairing (normalizeIdentity t)) at 1. f_equal. apply normalizeIdentity_ok, Hb.
  - apply Import_spec.
  - intros cwd create s' t created H. unfold Create in H. apply M_bind_inv_any in H as (s1 & r & H1 & H).
    apply attempt_any in H1 as (r1 & -> & H1). destruct (Prepare_spec _ _ _ _ _ _ _ Henv Hroot H1) as (Hg & _ & Hr).
    destruct r1 as [p|e]; [|done]. destruct Hr as (Hn & _ & Hd & _).
    destruct (sa_StartThread (pr_Path p)) as [started [e|]] eqn:Es; [done|].
    destruct (normalizeIdentity started) as [t' [|]] eqn:En; [|done]. injection H as -> <- <-.
    split_and!; [done|by eapply normalizeIdentity_identified|]. exists (pr_Path p), started. by rewrite En.
Qed.

End Sessions.

(** ** A concrete app-server *)

Module SessionDemo.

Definition page_text : string := js
  "{'data':[{'id':' th1 ','cwd':'/srv/'},{'sessionId':'s2','cwd':'/srv'},{'id':'sub','cwd':'/srv','parentThreadId':'th1'},{'id':'x','cwd':'/'},{'cwd':'/srv'}],'nextCursor':null}".
Definition thread_text : string := js "{'thread':{'id':'th1','turns':[{'id':'t1','itemsView':'full'}]}}".

Definition call (method : string) (params : any) : res Message :=
  Ok (mkMessage "" "" "" (if bool_decide (method = "thread/list") then page_text
                          else if bool_decide (method = "thread/resume") then js "{'thread':{'sessionId':'th1'}}" else thread_text) None).

Definition found := Discover (SA := app_server call) DirectoryDemo.env (mkDirectories "") [] "/srv" "" 10 DirectoryDemo.disk.

Lemma session_results_witness :
  (∃ path page, found.2 = Ok (path, page, None) ∧ (th_ID <$> tp_Data page) = ["th1"; "s2"] ∧ fs_tree found.1 = fs_tree DirectoryDemo.disk) ∧
  (∃ t, Import (SA := app_server call) "th1" = (t, None) ∧ th_ID t = "th1" ∧ length (th_Turns t) = 1%nat).
Proof.
  destruct (session_results (SA := app_server call) DirectoryDemo.env (mkDirectories "") [] DirectoryDemo.env_rooted
    DirectoryDemo.disk DirectoryDemo.disk_root) as (Hd & Hi & _). split.
  - eexists _, _. split; [vm_compute; reflexivity|]. split; [vm_compute; reflexivity|].
    apply (Hd "/srv" "" 10 _ "/srv" (match found.2 with Ok (_, page, _) => page | Err _ => no_ThreadPage end)). unfold found. vm_compute. reflexivity.
  - eexists. assert (Import (SA := app_server call) "th1" = _) as H by (vm_compute; reflexivity). split; [exact H|].
    destruct (Hi _ _ H) as (_&_&_&_&_&_&Hid&_). split; [exact Hid|vm_compute; reflexivity].
Defined.

End SessionDemo.
