(* ===== verification/Base64.v ===== *)
(** * encoding/base64

    [StdEncoding] (with padding) and [RawURLEncoding] (without), decoding as Go does: line
    breaks are skipped and the unused bits of the last character are not looked at. *)

From Stdlib Require Import Ascii String.
From stdpp Require Import base tactics numbers list gmap strings.
From S2P Require Import Prelude GoStrings.
Local Open Scope string_scope.
Local Open Scope Z_scope.
Local Open Scope list_scope.

Record Encoding := mkEncoding {
  en_62 : ascii;
  en_63 : ascii;
  en_pad : bool;
}.

Definition StdEncoding : Encoding := mkEncoding "+" "/" true.
Definition RawURLEncoding : Encoding := mkEncoding "-" "_" false.

Definition byte_of (n : Z) : ascii := ascii_of_N (Z.to_N n).

(** The character of six bits, and back. *)
Definition sextet_char (en : Encoding) (n : Z) : ascii :=
  if n <? 26 then byte_of (65 + n)
  else if n <? 52 then byte_of (71 + n)
  else if n <? 62 then byte_of (n - 4)
  else if n =? 62 then en_62 en else en_63 en.

Definition char_sextet (en : Encoding) (c : ascii) : option Z :=
  let x := bval c in
  if in_range 65 90 x then Some (x - 65)
  else if in_range 97 122 x then Some (x - 71)
  else if in_range 48 57 x then Some (x + 4)
  else if bool_decide (c = en_62 en) then Some 62
  else if bool_decide (c = en_63 en) then Some 63
  else None.

Definition pad_char : ascii := "=".

Fixpoint encode_list (en : Encoding) (l : list ascii) : list ascii :=
  let ch := sextet_char en in
  match l with
  | a :: b :: c :: l' =>
      let n := bval a * 65536 + bval b * 256 + bval c in
      ch (n / 262144) :: ch (n / 4096 mod 64) :: ch (n / 64 mod 64) :: ch (n mod 64) :: encode_list en l'
  | [a; b] =>
      let n := bval a * 256 + bval b in
      ch (n / 1024) :: ch (n / 16 mod 64) :: ch (n mod 16 * 4) :: if en_pad en then [pad_char] else []
  | [a] => ch (bval a / 4) :: ch (bval a mod 4 * 16) :: if en_pad en then [pad_char; pad_char] else []
  | [] => []
  end.

Fixpoint decode_list (en : Encoding) (l : list ascii) : option (list ascii) :=
  let sx := char_sextet en in
  match l with
  | [] => Some []
  | a :: b :: c :: d :: l' =>
      if en_pad en && bool_decide (c = pad_char) then
        match l' with
        | [] => if bool_decide (d = pad_char) then w ← sx a; x ← sx b; Some [byte_of (w * 4 + x / 16)] else None
        | _ => None
        end
      else if en_pad en && bool_decide (d = pad_char) then
        match l' with
        | [] => w ← sx a; x ← sx b; y ← sx c; Some [byte_of (w * 4 + x / 16); byte_of (x mod 16 * 16 + y / 4)]
        | _ => None
        end
      else
        w ← sx a; x ← sx b; y ← sx c; z ← sx d; r ← decode_list en l';
        Some (byte_of (w * 4 + x / 16) :: byte_of (x mod 16 * 16 + y / 4) :: byte_of (y mod 4 * 64 + z) :: r)
  | [a; b; c] =>
      if en_pad en then None
      else w ← sx a; x ← sx b; y ← sx c; Some [byte_of (w * 4 + x / 16); byte_of (x mod 16 * 16 + y / 4)]
  | [a; b] => if en_pad en then None else w ← sx a; x ← sx b; Some [byte_of (w * 4 + x / 16)]
  | [_] => None
  end.

Definition is_line_break (c : ascii) : bool := let n := nat_of_ascii c in (n =? 10)%nat || (n =? 13)%nat.

Definition base64_encode (en : Encoding) (s : string) : string := of_chars (encode_list en (chars s)).
Definition base64_decode (en : Encoding) (s : string) : option string :=
  of_chars <$> decode_list en (filter (λ c, is_line_break c = false) (chars s)).

(** ** Round trip *)

(** The two characters of an encoding are none of the others, nor padding or line breaks. *)
Definition sane (en : Encoding) : bool :=
  forallb (λ n, bool_decide (char_sextet en (sextet_char en n) = Some n) && negb (is_line_break (sextet_char en n))
    && negb (bool_decide (sextet_char en n = pad_char))) (Z.of_nat <$> seq 0 64).

Lemma encodings_sane : sane StdEncoding = true ∧ sane RawURLEncoding = true.
Proof. split; vm_compute; reflexivity. Qed.

Lemma sextet_ok en n : sane en = true → 0 <= n < 64 →
  char_sextet en (sextet_char en n) = Some n ∧ is_line_break (sextet_char en n) = false ∧ sextet_char en n ≠ pad_char.
Proof.
  unfold sane. intros H Hn. apply forallb_forall with (x := n) in H.
  - to_prop. done.
  - apply list_elem_of_In, list_elem_of_fmap. exists (Z.to_nat n). split; [lia|]. apply elem_of_seq. lia.
Qed.

Lemma byte_of_bval c : byte_of (bval c) = c.
Proof. unfold byte_of, bval. rewrite N2Z.id. apply ascii_N_embedding. Qed.

Lemma encode_no_breaks en l : sane en = true → filter (λ c, is_line_break c = false) (encode_list en l) = encode_list en l.
Proof.
  intros Hs. assert (Forall (λ c, is_line_break c = false) (encode_list en l)) as H; [|clear Hs; induction H; [done|]; rewrite filter_cons, decide_True by done; by f_equal].
  assert (∀ n, 0 <= n < 64 → is_line_break (sextet_char en n) = false) as Hb by (intros n Hn; by apply sextet_ok).
  revert l. fix IH 1. intros [|a [|b [|c l]]]; simpl.
  - constructor.
  - pose proof (bval_range a). repeat constructor; [apply Hb; split; [apply Z.div_pos|apply Z.div_lt_upper_bound]; lia|
      apply Hb; pose proof (Z.mod_pos_bound (bval a) 4); lia|destruct (en_pad en); repeat constructor].
  - pose proof (bval_range a). pose proof (bval_range b). pose proof (Z.mod_pos_bound (bval a * 256 + bval b) 16).
    repeat constructor; [apply Hb; split; [apply Z.div_pos|apply Z.div_lt_upper_bound]; lia|apply Hb, Z.mod_pos_bound; lia|apply Hb; lia|
      destruct (en_pad en); repeat constructor].
  - pose proof (bval_range a). pose proof (bval_range b). pose proof (bval_range c).
    repeat constructor; [apply Hb; split; [apply Z.div_pos|apply Z.div_lt_upper_bound]; lia|apply Hb, Z.mod_pos_bound; lia..|apply IH].
Qed.

Lemma decode_encode_list en l : sane en = true → decode_list en (encode_list en l) = Some l.
Proof.
  intros Hs. assert (∀ n, 0 <= n < 64 → char_sextet en (sextet_char en n) = Some n) as Hc by (intros n Hn; by apply sextet_ok).
  assert (∀ n, 0 <= n < 64 → bool_decide (sextet_char en n = pad_char) = false) as Hp
    by (intros n Hn; apply bool_decide_eq_false_2; by apply sextet_ok).
  revert l. fix IH 1. intros [|a [|b [|c l]]]; [done| | |]; cbn [encode_list]; pose proof (bval_range a).
  - assert (0 <= bval a / 4 < 64 ∧ 0 <= bval a mod 4 * 16 < 64) as [? ?] by (split; [split; [apply Z.div_pos|apply Z.div_lt_upper_bound]; lia|pose proof (Z.mod_pos_bound (bval a) 4); lia]).
    assert (byte_of (bval a / 4 * 4 + bval a mod 4 * 16 / 16) = a) as Ha.
    { rewrite Z.div_mul by lia. rewrite <- (byte_of_bval a) at 3. f_equal. pose proof (Z.div_mod (bval a) 4). lia. }
    destruct (en_pad en) eqn:Ep; cbn [decode_list]; rewrite Ep; cbn -[Z.div Z.modulo byte_of]; rewrite !Hc by done; cbn -[Z.div Z.modulo byte_of]; by rewrite Ha.
  - pose proof (bval_range b). set (n := bval a * 256 + bval b).
    assert (0 <= n / 1024 < 64) by (unfold n; split; [apply Z.div_pos|apply Z.div_lt_upper_bound]; lia).
    assert (0 <= n / 16 mod 64 < 64) by (apply Z.mod_pos_bound; lia).
    assert (0 <= n mod 16 * 4 < 64) by (pose proof (Z.mod_pos_bound n 16); lia).
    assert (byte_of (n / 1024 * 4 + n / 16 mod 64 / 16) = a) as Ha by (rewrite <- (byte_of_bval a); f_equal; unfold n; Z.div_mod_to_equations; lia).
    assert (byte_of (n / 16 mod 64 mod 16 * 16 + n mod 16 * 4 / 4) = b) as Hb by (rewrite <- (byte_of_bval b); f_equal; unfold n; Z.div_mod_to_equations; lia).
    destruct (en_pad en) eqn:Ep; cbn [decode_list]; rewrite Ep; cbn -[Z.div Z.modulo byte_of]; rewrite ?Hp, !Hc by done; cbn -[Z.div Z.modulo byte_of];
      by rewrite Ha, Hb.
  - pose proof (bval_range b). pose proof (bval_range c). set (n := bval a * 65536 + bval b * 256 + bval c).
    assert (0 <= n / 262144 < 64) by (unfold n; split; [apply Z.div_pos|apply Z.div_lt_upper_bound]; lia).
    assert (0 <= n / 4096 mod 64 < 64) by (apply Z.mod_pos_bound; lia).
    assert (0 <= n / 64 mod 64 < 64) by (apply Z.mod_pos_bound; lia).
    assert (0 <= n mod 64 < 64) by (apply Z.mod_pos_bound; lia).
    assert (byte_of (n / 262144 * 4 + n / 4096 mod 64 / 16) = a) as Ha by (rewrite <- (byte_of_bval a); f_equal; unfold n; Z.div_mod_to_equations; lia).
    assert (byte_of (n / 4096 mod 64 mod 16 * 16 + n / 64 mod 64 / 4) = b) as Hb by (rewrite <- (byte_of_bval b); f_equal; unfold n; Z.div_mod_to_equations; lia).
    assert (byte_of (n / 64 mod 64 mod 4 * 64 + n mod 64) = c) as Hcc by (rewrite <- (byte_of_bval c); f_equal; unfold n; Z.div_mod_to_equations; lia).
    cbn [decode_list]. rewrite !Hp, !andb_false_r, !Hc by done. cbn -[Z.div Z.modulo byte_of decode_list encode_list]. rewrite (IH l). simpl. by rewrite Ha, Hb, Hcc.
Qed.

(** What was encoded is decoded to itself. *)
Lemma base64_roundtrip en s : sane en = true → base64_decode en (base64_encode en s) = Some s.
Proof.
  intros Hs. unfold base64_decode, base64_encode. rewrite chars_of_chars, encode_no_breaks, decode_encode_list by done. simpl. by rewrite of_chars_chars.
Qed.
