(* ===== verification/Translate.v ===== *)
(** * Item translation (internal/codex/translate.go)

    The app-server's items, turns and errors are loose JSON objects; this file turns them
    into the protocol's items.  [body] is a decoded [map[string]any].  The helpers of
    manager.go that only read an event's JSON are here too. *)

From Stdlib Require Import Ascii String.
From stdpp Require Import base tactics numbers list gmap strings pretty.
From S2P Require Import Prelude GoError GoStrings Float64 Json Base64 Client Adapter Remote Budget.
Local Open Scope string_scope.
Local Open Scope Z_scope.
Local Open Scope list_scope.

Notation object := (list (string * any)).

(** ** Reading objects *)

Definition rawObject (raw : string) : object := match decode_object raw with Some (Some ms) => ms | _ => [] end.

Fixpoint firstString (body : object) (keys : list string) : string :=
  match keys with
  | [] => ""
  | key :: keys => match get_member body key with AStr s => s | _ => firstString body keys end
  end.

Definition text_keys : list string := ["text"; "content"; "message"; "summary"; "output"].

(** The first text that is not empty. *)
Definition first_nonempty (l : list string) : string := default "" (List.find (λ s, negb (str_empty s)) l).

Fixpoint textValue (value : any) : string :=
  match value with
  | AStr s => s
  | AArr vs => sep_by (String (chr 10) "") (filter (λ s, str_empty s = false) (textValue <$> vs))
  | AObj ms =>
      let texts := (λ m, (m.1, textValue m.2)) <$> ms in
      let lookup key := match List.find (λ m, bool_decide (m.1 = key)) texts with Some m => m.2 | None => "" end in
      let text := first_nonempty (lookup <$> text_keys) in
      if str_empty text then default "" (json_encode (AObj ms)) else text
  | _ => ""
  end.

Definition firstText (body : object) (keys : list string) : string :=
  first_nonempty ((λ key, match member body key with Some v => textValue v | None => "" end) <$> keys).

Definition anySlice (value : any) : list any := match value with AArr vs => vs | _ => [] end.
Definition objectSlice (value : any) : list object := omap (λ v, match v with AObj ms => Some ms | _ => None end) (anySlice value).
Definition stringSlice (value : any) : list string := omap (λ v, match v with AStr s => Some s | _ => None end) (anySlice value).

Definition commandArgv (value : any) : list string :=
  match value with AStr command => [command] | AArr _ => stringSlice value | _ => [] end.

Definition int32Value (value : any) : option Z := match value with ANum f => Some (int32_of f) | _ => None end.
Definition int64Number (value : any) : Z := match value with ANum f => int64_of f | _ => 0 end.

(** ** Enumerations and times *)

Definition fileChangeKind (value : string) : FileChangeKind :=
  match ToLower value with
  | "add" | "added" | "create" | "created" => FILE_CHANGE_KIND_ADDED
  | "delete" | "deleted" | "remove" | "removed" => FILE_CHANGE_KIND_DELETED
  | "rename" | "renamed" | "move" | "moved" => FILE_CHANGE_KIND_RENAMED
  | "modify" | "modified" | "update" | "updated" => FILE_CHANGE_KIND_MODIFIED
  | _ => FILE_CHANGE_KIND_UNSPECIFIED
  end.

Definition itemStatus (value : string) : ItemStatus :=
  match ToLower value with
  | "inprogress" | "in_progress" | "running" | "started" => ITEM_STATUS_RUNNING
  | "completed" | "succeeded" | "success" => ITEM_STATUS_COMPLETED
  | "failed" | "error" => ITEM_STATUS_FAILED
  | "cancelled" | "canceled" | "interrupted" => ITEM_STATUS_CANCELLED
  | _ => ITEM_STATUS_UNSPECIFIED
  end.

Definition turnStatus (v : string) : TurnStatus :=
  match ToLower v with
  | "completed" => TURN_STATUS_COMPLETED
  | "failed" => TURN_STATUS_FAILED
  | "interrupted" | "cancelled" => TURN_STATUS_INTERRUPTED
  | _ => TURN_STATUS_RUNNING
  end.

Definition outputStream (value : string) : OutputStream :=
  match ToLower value with
  | "stdout" => OUTPUT_STREAM_STDOUT
  | "stderr" => OUTPUT_STREAM_STDERR
  | _ => OUTPUT_STREAM_COMBINED
  end.

(** [int64] arithmetic wraps around. *)
Definition i64 (x : Z) : Z := (x + 2 ^ 63) mod 2 ^ 64 - 2 ^ 63.

Definition unixMillis (value : Z) : Z :=
  if value =? 0 then 0
  else if (-1000000000000 <? value) && (value <? 1000000000000) then i64 (value * 1000) else value.

Fixpoint first_trimmed (object : object) (keys : list string) : option string :=
  match keys with
  | [] => None
  | key :: keys =>
      match get_member object key with
      | AStr v => if str_empty (TrimSpace v) then first_trimmed object keys else Some (TrimSpace v)
      | _ => first_trimmed object keys
      end
  end.

Definition normalizeSource (raw : string) : string :=
  if str_empty raw || bool_decide (raw = "null") then "unknown"
  else
    let '(value, ok) := Unmarshal dec_string raw "" in
    if ok && negb (str_empty (TrimSpace value)) then TrimSpace value
    else match decode_object raw with
    | Some (Some object) =>
        match first_trimmed object ["kind"; "type"; "name"; "source"] with
        | Some s => s
        | None => match json_encode (AObj object) with Some compact => compact | None => TrimSpace raw end
        end
    | Some None => "null"
    | None => TrimSpace raw
    end.

(** ** Parts of items *)

Record translatedPlanStep := mkPlan { pl_Text : string; pl_Status : string }.

Definition planSteps (body : object) : list translatedPlanStep :=
  let value := match get_member body "steps" with ANil => get_member body "plan" | v => v end in
  omap (λ v,
    match v with
    | AStr step => Some (mkPlan step "")
    | AObj step => Some (mkPlan (firstText step ["step"; "text"; "description"]) (firstString step ["status"]))
    | _ => None
    end) (anySlice value).

(** [translatedInputPart] with its type. *)
Inductive translatedInputPart := TextPart (text : string) | LocalImagePart (path : string).

Definition input_part (entry : any) : option translatedInputPart :=
  match entry with
  | AStr value => Some (TextPart value)
  | AObj value =>
      let typeName := firstString value ["type"; "kind"] in
      if bool_decide (typeName = "localImage") || bool_decide (typeName = "local_image") then
        let path := firstString value ["path"] in if str_empty path then None else Some (LocalImagePart path)
      else
        let text := firstText value ["text"; "content"] in if str_empty text then None else Some (TextPart text)
  | _ => None
  end.

Definition inputParts (body : object) : list translatedInputPart :=
  let from key := omap input_part (anySlice (get_member body key)) in
  match from "input", from "content" with
  | (_ :: _) as parts, _ => parts
  | [], (_ :: _) as parts => parts
  | [], [] => let text := firstText body ["text"; "message"] in if str_empty text then [] else [TextPart text]
  end.

Notation imageDescriptorResolver := (string → res (option ImageAttachment)).

Definition incomplete (reason : string) : option Completeness := Some (mkCompleteness false true 0 reason).

(** One part of a user message, with what it says about completeness. *)
Definition user_part (resolve : option imageDescriptorResolver) (budget : Z) (part : translatedInputPart)
    : option UserMessagePart * option Completeness :=
  match part with
  | TextPart text => let '(bounded, complete) := boundString text budget in (Some (PartText bounded), complete)
  | LocalImagePart path =>
      match resolve with
      | None => (None, incomplete "local image descriptor resolver is unavailable")
      | Some resolve =>
          match resolve path with
          | Ok (Some descriptor) => (Some (PartImage descriptor), None)
          | _ => (None, incomplete "local image descriptor is unavailable")
          end
      end
  end.

Definition merge_all (l : list (option Completeness)) : option Completeness := foldl mergeCompleteness None l.

(** ** Items *)

(** The branch of the switch. *)
Inductive item_class := ClassUser | ClassReasoning | ClassAgent | ClassPlan | ClassCommand | ClassFileChange | ClassTool.

Definition classify (typeName method : string) (semantic : EventSemantic) : item_class :=
  let method := ToLower method in
  let named (names : list string) := bool_decide (typeName ∈ names) in
  let sem (l : list EventSemantic) := bool_decide (semantic ∈ l) in
  if named ["usermessage"; "user_message"] || Contains method "usermessage" then ClassUser
  else if sem [SemanticReasoningText; SemanticReasoningSummary] || Contains typeName "reasoning" then ClassReasoning
  else if named ["agentmessage"; "agent_message"] || sem [SemanticAgentText] || Contains method "agentmessage" then ClassAgent
  else if sem [SemanticPlanDelta; SemanticPlanUpdated] || named ["plan"; "todolist"] then ClassPlan
  else if named ["commandexecution"; "command"] || sem [SemanticCommandOutput; SemanticProcessOutput] || Contains method "commandexecution"
  then ClassCommand
  else if named ["filechange"; "file_change"] || sem [SemanticFileChangeOutput; SemanticDiffUpdated] || Contains method "filechange"
          || Contains method "diff" then ClassFileChange
  else ClassTool.

Definition command_content (body : object) (budget : Z) : ItemContent * option Completeness :=
  let argv := match stringSlice (get_member body "argv") with [] => commandArgv (get_member body "command") | argv => argv end in
  let '(output, complete) := boundString (firstText body ["aggregatedOutput"; "output"; "stdout"; "text"]) budget in
  let exit := int32Value (get_member body "exitCode") in
  (Item_Command (mkCommandItem argv (firstString body ["cwd"]) output (default 0 exit) (bool_decide (is_Some exit))), complete).

Definition file_change (c : object) : FileChange :=
  mkFileChange (firstString c ["path"]) (firstString c ["oldPath"; "old_path"]) (firstString c ["newPath"; "new_path"])
    (fileChangeKind (firstString c ["kind"; "type"; "status"])).

Definition file_change_content (body : object) (budget : Z) : ItemContent * option Completeness :=
  let changes := file_change <$> objectSlice (get_member body "changes") in
  let '(diff, complete) := boundString (firstText body ["unifiedDiff"; "diff"; "output"]) budget in
  (Item_FileChange (mkFileChangeItem diff changes), complete).

Definition tool_content (raw typeName method : string) (body : object) (budget : Z) : ItemContent * option Completeness :=
  let name := first_nonempty [firstString body ["toolName"; "name"; "tool"; "server"]; typeName; method] in
  let summary := firstText body ["summary"; "input"; "arguments"; "query"; "text"] in
  let result := firstText body ["resultSummary"; "result"; "output"; "content"] in
  let summary := if str_empty summary && str_empty result then raw else summary in
  let '(summary, c1) := boundString summary budget in
  let '(result, c2) := boundString result budget in
  (Item_Tool (mkToolItem name summary result), mergeCompleteness c1 c2).

Definition item_content (class : item_class) (raw typeName method : string) (body : object) (budget : Z)
    (resolve : option imageDescriptorResolver) : ItemContent * option Completeness :=
  match class with
  | ClassUser =>
      let parts := user_part resolve budget <$> inputParts body in
      (Item_UserMessage (omap fst parts), merge_all (snd <$> parts))
  | ClassReasoning =>
      let '(bounded, complete) := boundString (firstText body ["text"; "summary"; "content"]) budget in
      (Item_ReasoningSummary bounded, complete)
  | ClassAgent =>
      let '(bounded, complete) := boundString (firstText body ["text"; "content"; "message"]) budget in
      (Item_AgentMessage bounded, complete)
  | ClassPlan =>
      let steps := (λ step, (boundString (pl_Text step) budget, pl_Status step)) <$> planSteps body in
      (Item_Plan ((λ s, mkPlanStep s.1.1 s.2) <$> steps), merge_all ((λ s, s.1.2) <$> steps))
  | ClassCommand => command_content body budget
  | ClassFileChange => file_change_content body budget
  | ClassTool => tool_content raw typeName method body budget
  end.

Definition translateItem (raw turnID fallbackID method : string) (semantic : EventSemantic) (status : ItemStatus) (budget : Z)
    (provenance : ProvenanceKind) (resolve : option imageDescriptorResolver) : Item :=
  let body := rawObject raw in
  let body := match get_member body "item" with AObj item => item | _ => body end in
  let id := first_nonempty [firstString body ["id"; "itemId"]; fallbackID] in
  let turnID := first_nonempty [firstString body ["turnId"]; turnID] in
  let status := match itemStatus (firstString body ["status"]) with ITEM_STATUS_UNSPECIFIED => status | parsed => parsed end in
  let typeName := ToLower (firstString body ["type"; "kind"]) in
  let '(content, complete) := item_content (classify typeName method semantic) raw typeName method body budget resolve in
  mkItem id turnID status (Some content) complete provenance.

(** ** Events *)

Definition deltaText (raw : string) : string :=
  let '(delta, ok) := Unmarshal (dec_struct [("delta", dec_string)]) raw "" in
  if ok && negb (str_empty delta) then delta else raw.

Definition eventText (e : Adapter.Event) : string :=
  let text := if str_empty (e_Text e) then deltaText (e_Params e) else e_Text e in
  if bool_decide (e_Encoding e = "base64") then default text (base64_decode StdEncoding text) else text.

Definition canonicalEventItemID (e : Adapter.Event) : string :=
  if negb (str_empty (e_ItemID e)) then e_ItemID e
  else
    let turnID := if str_empty (e_TurnID e) then firstString (rawObject (e_Params e)) ["turnId"] else e_TurnID e in
    match e_Semantic e with
    | SemanticPlanDelta | SemanticPlanUpdated => turnID +:+ ":plan"
    | SemanticDiffUpdated | SemanticFileChangeOutput => turnID +:+ ":diff"
    | _ => ""
    end.

(** [fmt.Sprint]. *)
Fixpoint sprint (v : any) : string :=
  match v with
  | ANil => "<nil>"
  | ABool b => if b then "true" else "false"
  | ANum f => sprint_number f
  | AInt x => pretty x
  | AStr s | ARaw s => s
  | AArr vs => "[" +:+ sep_by " " (sprint <$> vs) +:+ "]"
  | AObj ms => "map[" +:+ sep_by " " ((λ m, m.1 +:+ ":" +:+ sprint m.2) <$> ms) +:+ "]"
  end.

Definition turnFailure (value : any) : option Error :=
  let failed message metadata := Some (mkError ERROR_CODE_INTERNAL_ERROR message false metadata) in
  match value with
  | ANil => None
  | AStr failure => failed failure ∅
  | AObj failure =>
      let message := first_nonempty [firstString failure ["message"]; "turn failed"] in
      let details := firstString failure ["additionalDetails"] in
      let metadata : gmap string string := if str_empty details then ∅ else {[ "additional_details" := details ]} in
      let metadata := match member failure "codexErrorInfo" with
                      | Some info => match json_encode info with Some raw => <["codex_error_info" := raw]> metadata | None => metadata end
                      | None => metadata
                      end in
      failed message metadata
  | _ => failed (sprint value) ∅
  end.

Definition turnEvent (e : Adapter.Event) : TurnStatus * Z * Z * option Error :=
  let body := rawObject (e_Params e) in
  let body := match get_member body "turn" with AObj turn => turn | _ => body end in
  let status := turnStatus (firstString body ["status"]) in
  let status := if bool_decide (status = TURN_STATUS_RUNNING) && Contains (ToLower (e_Method e)) "completed" then TURN_STATUS_COMPLETED else status in
  let failure := turnFailure (get_member body "error") in
  let status := if bool_decide (is_Some failure) && bool_decide (status = TURN_STATUS_COMPLETED) then TURN_STATUS_FAILED else status in
  (status, unixMillis (int64Number (get_member body "startedAt")), unixMillis (int64Number (get_member body "completedAt")), failure).
