(* ===== verification/TranslateTheorems.v ===== *)
(** * Item translation: theorems *)

From Stdlib Require Import Ascii String.
From stdpp Require Import base tactics numbers list gmap strings pretty.
From S2P Require Import Prelude GoError GoStrings Float64 Json Base64 Client Adapter Remote Budget BudgetTheorems Translate.
Local Open Scope string_scope.
Local Open Scope Z_scope.
Local Open Scope list_scope.

(** ** Markers *)

Lemma merge_None d s : mergeCompleteness d s = None ↔ d = None ∧ s = None.
Proof. destruct d, s; simpl; naive_solver. Qed.

Lemma merge_all_None l : merge_all l = None ↔ Forall (λ c, c = None) l.
Proof.
  unfold merge_all. assert (∀ acc, foldl mergeCompleteness acc l = None ↔ acc = None ∧ Forall (λ c, c = None) l) as H; [|rewrite H; naive_solver].
  induction l as [|c l IH]; intros acc; simpl; [naive_solver|]. rewrite IH, merge_None, Forall_cons. naive_solver.
Qed.

Lemma boundString_None value budget x : boundString value budget = (x, None) → x = value ∧ ∀ budget', budget <= budget' → boundString value budget' = (value, None).
Proof.
  unfold boundString. destruct (Z.leb_spec (slen value) (if budget <=? 0 then 1 else budget)) as [H|]; [|done]. intros [= <-]. split; [done|].
  intros b Hb. destruct (Z.leb_spec (slen value) (if b <=? 0 then 1 else b)) as [|Hl]; [done|]. destruct (Z.leb_spec budget 0), (Z.leb_spec b 0); lia.
Qed.

(** A text after bounding fits. *)
Definition fits (budget : Z) (s : string) : Prop := slen s <= budget `max` 1.

Lemma boundString_fits value budget x c : boundString value budget = (x, c) → fits budget x.
Proof.
  unfold boundString, fits. replace (if budget <=? 0 then 1 else budget) with (budget `max` 1) by (destruct (Z.leb_spec budget 0); lia).
  destruct (Z.leb_spec (slen value) (budget `max` 1)) as [H|H]; [by intros [= <- _]|]. intros [= <- _].
  destruct (validUTF8Prefix_cut value (budget `max` 1)) as (k & -> & Hk & _); [lia|]. unfold slen. rewrite length_str_take. lia.
Qed.

(** The texts of an item that are cut to the budget. *)
Definition bounded_texts (content : ItemContent) : list string :=
  match content with
  | Item_UserMessage parts => omap (λ p, match p with PartText t => Some t | _ => None end) parts
  | Item_AgentMessage t | Item_ReasoningSummary t => [t]
  | Item_Plan steps => step_Text <$> steps
  | Item_Command c => [cmd_Output c]
  | Item_Tool t => [tool_Summary t; tool_ResultSummary t]
  | Item_FileChange f => [fci_UnifiedDiff f]
  end.

Lemma item_content_fits class raw typeName method body budget resolve :
  Forall (fits budget) (bounded_texts (item_content class raw typeName method body budget resolve).1).
Proof.
  destruct class; simpl; unfold command_content, file_change_content, tool_content;
    repeat (match goal with |- context [boundString ?v budget] => destruct (boundString v budget) eqn:? end); simpl;
    try (repeat constructor; by eapply boundString_fits).
  - apply Forall_forall. intros t (p & Hp & Ht)%list_elem_of_omap. apply list_elem_of_omap in Hp as (q & Hq & Hp).
    apply list_elem_of_fmap in Hq as (part & -> & _). destruct p; simplify_eq. unfold user_part in Hp.
    destruct part as [text|path]; [|repeat case_match; simplify_eq].
    destruct (boundString text budget) eqn:E. simplify_eq/=. by eapply boundString_fits.
  - apply Forall_forall. intros t Ht. apply list_elem_of_fmap in Ht as (s & -> & Hs). apply list_elem_of_fmap in Hs as (x & -> & Hx).
    apply list_elem_of_fmap in Hx as (step & -> & _). simpl. destruct (boundString (pl_Text step) budget) eqn:E. by eapply boundString_fits.
Qed.

Lemma bound_again value budget budget' x : budget <= budget' → boundString value budget = (x, None) → boundString value budget' = (x, None).
Proof. intros Hb H. apply boundString_None in H as [-> H]. by apply H. Qed.

Lemma user_part_whole resolve budget budget' part p : budget <= budget' → user_part resolve budget part = (p, None) →
  user_part resolve budget' part = (p, None) ∧ is_Some p.
Proof.
  intros Hb. unfold user_part. destruct part as [text|path].
  - destruct (boundString text budget) as [x c] eqn:E. intros [= <- ->]. by rewrite (bound_again _ _ _ _ Hb E).
  - repeat case_match; try done; by intros [= <-].
Qed.

Lemma item_content_whole class raw typeName method body budget budget' resolve content : budget <= budget' →
  item_content class raw typeName method body budget resolve = (content, None) →
  item_content class raw typeName method body budget' resolve = (content, None) ∧
  match content with Item_UserMessage parts => length parts = length (inputParts body) | _ => True end.
Proof.
  intros Hb. destruct class; unfold item_content, command_content, file_change_content, tool_content.
  - intros [= <- H]. apply merge_all_None in H. rewrite !Forall_fmap in H. generalize (inputParts body) H. clear H. intros l H.
    assert (user_part resolve budget' <$> l = user_part resolve budget <$> l ∧ length (omap fst (user_part resolve budget <$> l)) = length l ∧
      merge_all (snd <$> (user_part resolve budget <$> l)) = None) as (-> & Hl & Hm); [|by rewrite Hm].
    rewrite merge_all_None, !Forall_fmap. split_and!; [| |exact H].
    + induction H as [|part l' Hp Hl IH]; [done|]. rewrite !fmap_cons, IH. f_equal. simpl in Hp.
      destruct (user_part resolve budget part) as [p c] eqn:E. simpl in Hp. subst c. by destruct (user_part_whole _ _ _ _ _ Hb E) as [-> _].
    + induction H as [|part l' Hp Hl IH]; [done|]. rewrite fmap_cons. simpl in Hp |- *.
      destruct (user_part resolve budget part) as [p c] eqn:E. simpl in Hp. subst c. destruct (user_part_whole _ _ _ _ _ Hb E) as [_ [x ->]].
      cbn. f_equal. exact IH.
  - destruct (boundString _ budget) as [x c] eqn:E. intros [= <- ->]. by rewrite (bound_again _ _ _ _ Hb E).
  - destruct (boundString _ budget) as [x c] eqn:E. intros [= <- ->]. by rewrite (bound_again _ _ _ _ Hb E).
  - intros [= <- H]. split; [|done]. apply merge_all_None in H. rewrite !Forall_fmap in H. generalize (planSteps body) H. clear H. intros l H.
    assert ((λ step, (boundString (pl_Text step) budget', pl_Status step)) <$> l = (λ step, (boundString (pl_Text step) budget, pl_Status step)) <$> l) as ->.
    { induction H as [|step l' Hs Hl IH]; [done|]. rewrite !fmap_cons, IH. f_equal. simpl in Hs. destruct (boundString (pl_Text step) budget) as [x c] eqn:E.
      simpl in Hs. subst c. by rewrite (bound_again _ _ _ _ Hb E). }
    f_equal. apply merge_all_None. by rewrite !Forall_fmap.
  - destruct (boundString _ budget) as [x c] eqn:E. intros [= <- ->]. by rewrite (bound_again _ _ _ _ Hb E).
  - destruct (boundString _ budget) as [x c] eqn:E. intros [= <- ->]. by rewrite (bound_again _ _ _ _ Hb E).
  - destruct (boundString _ budget) as [x c1] eqn:E1. destruct (boundString (firstText body ["resultSummary"; "result"; "output"; "content"]) budget) as [y c2] eqn:E2.
    intros [= <- [-> ->]%merge_None]. by rewrite (bound_again _ _ _ _ Hb E1), (bound_again _ _ _ _ Hb E2).
Qed.

(** What a translated item carries.  Every text that is cut fits the budget.  An item
    without a completeness marker is whole: a larger budget gives the same item, and a user
    message has as many parts as the app-server's input.  Its id and its turn are the
    item's own where it states them and the event's otherwise. *)
Theorem translated_item raw turnID fallbackID method semantic status budget provenance resolve :
  let item := translateItem raw turnID fallbackID method semantic status budget provenance resolve in
  let body := match get_member (rawObject raw) "item" with AObj item => item | _ => rawObject raw end in
  Forall (fits budget) (from_option bounded_texts [] (item_Content item)) ∧
  (item_Completeness item = None →
     (∀ budget', budget <= budget' → translateItem raw turnID fallbackID method semantic status budget' provenance resolve = item) ∧
     match item_Content item with Some (Item_UserMessage parts) => length parts = length (inputParts body) | _ => True end) ∧
  item_ItemId item = first_nonempty [firstString body ["id"; "itemId"]; fallbackID] ∧
  item_TurnId item = first_nonempty [firstString body ["turnId"]; turnID] ∧ item_Provenance item = provenance.
Proof.
  intros item body. subst item. unfold translateItem. fold body.
  set (typeName := ToLower (firstString body ["type"; "kind"])). set (class := classify typeName method semantic).
  pose proof (item_content_fits class raw typeName method body budget resolve) as Hf.
  destruct (item_content class raw typeName method body budget resolve) as [content c] eqn:E. split; [exact Hf|]. split_and!; [|done..].
  intros Hc. change (c = None) in Hc. subst c. split.
  - intros budget' Hb. destruct (item_content_whole _ _ _ _ _ _ _ _ _ Hb E) as [-> _]. done.
  - by destruct (item_content_whole _ _ _ _ _ budget budget _ _ (Z.le_refl _) E) as [_ H].
Qed.

(** ** Turns *)

Definition terminal (s : TurnStatus) : bool :=
  match s with TURN_STATUS_COMPLETED | TURN_STATUS_FAILED | TURN_STATUS_INTERRUPTED => true | _ => false end.

Lemma turnStatus_cases v : turnStatus v = TURN_STATUS_RUNNING ∨ terminal (turnStatus v) = true.
Proof. unfold turnStatus. generalize (ToLower v). intros s. repeat (case_match; try (by left); try (by right)). Qed.

(** The end of a turn is never read as a running turn, whatever its JSON says; a turn
    with an error is never reported as completed; and times in seconds, up to the year
    33658, come out in milliseconds without overflow. *)
Theorem turn_event_status e : let '(status, _, _, failure) := turnEvent e in
  (Contains (ToLower (e_Method e)) "completed" = true → terminal status = true) ∧
  (is_Some failure → status ≠ TURN_STATUS_COMPLETED) ∧ status ≠ TURN_STATUS_UNSPECIFIED ∧
  ∀ t, 0 <= t < 1000000000000 → unixMillis t = t * 1000.
Proof.
  unfold turnEvent. set (body := match get_member (rawObject (e_Params e)) "turn" with AObj turn => turn | _ => rawObject (e_Params e) end).
  pose proof (turnStatus_cases (firstString body ["status"])) as Hs. revert Hs.
  generalize (turnStatus (firstString body ["status"])) (turnFailure (get_member body "error")) (Contains (ToLower (e_Method e)) "completed").
  intros status failure completed Hs. split_and!.
  - intros ->. by destruct status, failure, Hs.
  - intros [x ->]. by destruct status, completed.
  - by destruct status, failure, completed, Hs.
  - intros t Ht. unfold unixMillis, i64. destruct (t =? 0) eqn:E; [apply Z.eqb_eq in E; lia|].
    destruct (-1000000000000 <? t) eqn:E1, (t <? 1000000000000) eqn:E2; to_prop; try lia. simpl. rewrite Z.mod_small; lia.
Qed.

(** ** Concrete items *)

Example translated_command :
  translateItem (js "{'item':{'id':'i1','type':'commandExecution','command':['ls','-l'],'cwd':'/w','aggregatedOutput':'héllo','exitCode':2,'status':'failed'}}")
    "t1" "" "item/completed" SemanticUnknown ITEM_STATUS_COMPLETED 4 PROVENANCE_KIND_LIVE_WIRE None
  = mkItem "i1" "t1" ITEM_STATUS_FAILED (Some (Item_Command (mkCommandItem ["ls"; "-l"] "/w" "hél" 2 true)))
      (Some (mkCompleteness true true 6 "content exceeds C/S frame budget")) PROVENANCE_KIND_LIVE_WIRE.
Proof. vm_compute. reflexivity. Qed.

Example translated_user_message :
  translateItem (js "{'id':'u1','type':'userMessage','content':[{'type':'text','text':'look'},{'type':'localImage','path':'/x.png'}]}")
    "t1" "" "" SemanticUnknown ITEM_STATUS_COMPLETED 100 PROVENANCE_KIND_IMPORTED_HISTORY None
  = mkItem "u1" "t1" ITEM_STATUS_COMPLETED (Some (Item_UserMessage [PartText "look"]))
      (Some (mkCompleteness false true 0 "local image descriptor resolver is unavailable")) PROVENANCE_KIND_IMPORTED_HISTORY.
Proof. vm_compute. reflexivity. Qed.

Example translated_failure :
  turnEvent (Adapter.mkEvent EventTurnUpdated SemanticUnknown "turn/completed" "th" "t1" "" "" (js
    "{'turn':{'id':'t1','status':'completed','startedAt':1700000000,'error':{'message':'no','codexErrorInfo':{'code':1.5}}}}") "" "" "" "" [])
  = (TURN_STATUS_FAILED, 1700000000000, 0, Some (mkError ERROR_CODE_INTERNAL_ERROR "no" false {[ "codex_error_info" := js "{'code':1.5}" ]})).
Proof. vm_compute. reflexivity. Qed.

Example normalized_sources :
  normalizeSource (js "{'kind':' vscode '}") = "vscode" ∧ normalizeSource (js "'cli'") = "cli" ∧ normalizeSource "" = "unknown" ∧
  normalizeSource (js "{'b':1,'a':[true]}") = js "{'a':[true],'b':1}" ∧ normalizeSource "[1" = "[1".
Proof. vm_compute. done. Qed.
