(* ===== verification/ManagerWorkspace.v ===== *)
(** * The manager's side of the workspace (internal/codex/workspace.go)

    The manager registers the workspace of every Codex, publishes its access states (it is
    the sink of the workspace service), and tells the service which agents work in it: the
    turns it started and the subagents it reads out of [collabAgentToolCall] items. *)

From Stdlib Require Import Ascii String.
From stdpp Require Import base tactics numbers list sorting gmap strings pretty.
From S2P Require Import Prelude GoError GoStrings GoPath FileSystem Float64 Json Client Adapter Remote Persistence Activity HostEvents Workspace WorkspaceFiles WorkspaceService Budget Manager.
Local Open Scope string_scope.
Local Open Scope Z_scope.
Local Open Scope list_scope.

(** ** Subagents in the app-server's items *)

Record collabAgentItem := mkCollab {
  ca_Type : string;
  ca_ID : string;
  ca_Tool : string;
  ca_SenderThreadID : string;
  ca_ReceiverThreadIDs : list string;
  ca_AgentsStates : gmap string string;  (* the [Status] of each [collabAgentState] *)
}.

Definition no_collab : collabAgentItem := mkCollab "" "" "" "" [] ∅.

Definition set_ca_Type (x : string) (c : collabAgentItem) : collabAgentItem :=
  mkCollab x (ca_ID c) (ca_Tool c) (ca_SenderThreadID c) (ca_ReceiverThreadIDs c) (ca_AgentsStates c).
Definition set_ca_ID (x : string) (c : collabAgentItem) : collabAgentItem :=
  mkCollab (ca_Type c) x (ca_Tool c) (ca_SenderThreadID c) (ca_ReceiverThreadIDs c) (ca_AgentsStates c).
Definition set_ca_Tool (x : string) (c : collabAgentItem) : collabAgentItem :=
  mkCollab (ca_Type c) (ca_ID c) x (ca_SenderThreadID c) (ca_ReceiverThreadIDs c) (ca_AgentsStates c).
Definition set_ca_SenderThreadID (x : string) (c : collabAgentItem) : collabAgentItem :=
  mkCollab (ca_Type c) (ca_ID c) (ca_Tool c) x (ca_ReceiverThreadIDs c) (ca_AgentsStates c).
Definition set_ca_ReceiverThreadIDs (x : list string) (c : collabAgentItem) : collabAgentItem :=
  mkCollab (ca_Type c) (ca_ID c) (ca_Tool c) (ca_SenderThreadID c) x (ca_AgentsStates c).
Definition set_ca_AgentsStates (x : gmap string string) (c : collabAgentItem) : collabAgentItem :=
  mkCollab (ca_Type c) (ca_ID c) (ca_Tool c) (ca_SenderThreadID c) (ca_ReceiverThreadIDs c) x.

(** [collabAgentState]. *)
Definition dec_collabAgentState : decoder string := dec_struct [("status", dec_string)].

(** A [map[string]T]: the members are added to the entries already there. *)
Fixpoint dec_entries {A} (zero : A) (d : decoder A) (ms : list (string * node)) (m : gmap string A) : gmap string A * bool :=
  match ms with
  | [] => (m, true)
  | (key, n) :: ms =>
      let '(x, ok) := d n zero in
      let '(m, oks) := dec_entries zero d ms (<[key := x]> m) in
      (m, ok && oks)
  end.

Definition dec_map {A} (zero : A) (d : decoder A) : decoder (gmap string A) := λ n m,
  match n.2 with
  | JObj ms => dec_entries zero d ms m
  | JNull => (∅, true)
  | _ => (m, false)
  end.

Definition dec_collabAgentItem : decoder collabAgentItem := dec_struct
  [("type", field ca_Type set_ca_Type dec_string); ("id", field ca_ID set_ca_ID dec_string);
   ("tool", field ca_Tool set_ca_Tool dec_string);
   ("senderThreadId", field ca_SenderThreadID set_ca_SenderThreadID dec_string);
   ("receiverThreadIds", field ca_ReceiverThreadIDs set_ca_ReceiverThreadIDs (dec_slice "" dec_string));
   ("agentsStates", field ca_AgentsStates set_ca_AgentsStates (dec_map "" dec_collabAgentState))].

Definition parseCollabAgentItem (raw : string) : option collabAgentItem :=
  let envelope := (Unmarshal (dec_struct [("item", dec_raw)]) raw "").1 in
  let raw := if str_empty envelope then raw else envelope in
  match Unmarshal dec_collabAgentItem raw no_collab with
  | (item, true) => if bool_decide (ca_Type item = "collabAgentToolCall") then Some item else None
  | (_, false) => None
  end.

Definition collabAgentActive (status : string) : bool := bool_decide (status = "pendingInit") || bool_decide (status = "running").

Definition collabAgentTerminal (status : string) : bool :=
  bool_decide (status ∈ ["interrupted"; "completed"; "errored"; "shutdown"; "notFound"]).

(** Receivers and keys, as the item lists them. *)
Definition collab_children (item : collabAgentItem) : list string := ca_ReceiverThreadIDs item ++ (map_to_list (ca_AgentsStates item)).*1.

(** The loop over the sorted children: no empty name, none twice. *)
Fixpoint unique_sorted (last : option string) (l : list string) : list string :=
  match l with
  | [] => []
  | child :: l =>
      if negb (str_empty child) && negb (bool_decide (last = Some child)) then child :: unique_sorted (Some child) l
      else unique_sorted last l
  end.

Definition sorted_children (item : collabAgentItem) : list string := unique_sorted None (merge_sort name_le (collab_children item)).

Definition no_observation : workspaceChildObservation := mkChildObservation "" false.

(** What an item says about one child: the new observation and whether the child runs, or
    nothing.  A terminal child is reactivated only by a [resumeAgent] item that is not the
    one it ended with. *)
Definition observe_child (item : collabAgentItem) (observation : workspaceChildObservation) (child : string)
    : option (workspaceChildObservation * bool) :=
  match ca_AgentsStates item !! child with
  | None => None
  | Some status =>
      let active := collabAgentActive status in
      let terminal := collabAgentTerminal status in
      if negb active && negb terminal then None
      else if co_Terminal observation && active && (bool_decide (ca_Tool item ≠ "resumeAgent") || bool_decide (co_ItemID observation = ca_ID item))
      then None
      else Some (mkChildObservation (ca_ID item) terminal, active)
  end.

(** The loop of [applyCollabAgentItem]: the two maps and the transitions. *)
Fixpoint observe_children (codexID : string) (item : collabAgentItem) (children : list string) (s : MState) : MState * list (string * bool) :=
  match children with
  | [] => (s, [])
  | child :: children =>
      let s := set_mg_workspaceChildCodex (<[child := codexID]> (mg_workspaceChildCodex s)) s in
      match observe_child item (default no_observation (mg_workspaceChildState s !! child)) child with
      | None => observe_children codexID item children s
      | Some (observation, active) =>
          let s := set_mg_workspaceChildState (<[child := observation]> (mg_workspaceChildState s)) s in
          let '(s, transitions) := observe_children codexID item children s in
          (s, (child, active) :: transitions)
      end
  end.

Definition subagent (child : string) : string := "subagent:" +:+ child.

(** ** The workspace of a Codex *)

Definition workspaces {A} (m : M Service A) : MM A := zoom mg_workspaces set_mg_workspaces m.

(** [registerRoot] is how the file system resolves the root, [token] and [wall] what
    [Register] draws. *)
Definition ensureWorkspace (registerRoot : string → res string) (token : string) (wall : Z) (codexID root : string) (view : CurrentView)
    : MM CurrentView :=
  state ← workspaces (Register codexID root (registerRoot root) (cv_WorkspaceAccessState view) wall token);
  mret (set_cv_WorkspaceAccessState (Some state) view).

Definition workspaceError (e : goerr) : goerr :=
  match errorsAsWorkspace e with
  | Some (code, e) => rpcErr code (error_text e)
  | None => e
  end.

(** [err = m.workspaceError(err)] on the way out. *)
Definition with_workspaceError {S A} (m : M S A) : M S A := λ s,
  match m s with
  | (s, Ok a) => (s, Ok a)
  | (s, Err e) => (s, Err (workspaceError e))
  end.

Section Workspace.
Context `{PJ : ProtoJSON} (audit : Event → option string).

(** Read and decode the durable view. *)
Definition durable_view (codexID : string) : MM CurrentView :=
  raw ← store (CurrentViewJSON codexID);
  match UnmarshalView raw with
  | Some v => mret v
  | None => fail_msg "proto: cannot decode CurrentView"
  end.

Definition has_access (state : WorkspaceAccessState) (r : res CurrentView) : bool :=
  match r with Ok v => bool_decide (cv_WorkspaceAccessState v = Some state) | Err _ => false end.

(** Publication of the access state, once it is known to be wanted. *)
Definition publish_access (now wall : Z) (codexID : string) (state : WorkspaceAccessState) (view : CurrentView) : MM unit :=
  let snapshot := set_cv_GeneratedAtUnixMs (UnixMilli now) (set_cv_WorkspaceAccessState (Some state) view) in
  let event := mkEvent codexID 0 (UnixMilli now) "" None (Some (Event_WorkspaceAccessStateUpdated state)) in
  r ← attempt (publishEvent audit wall event snapshot);
  match r with
  | Ok published => put_view codexID (set_cv_HeadEventSeq (ev_EventSeq published) snapshot)
  | Err e =>
      if errorsIs e ErrEventCommitOutcomeUnknown then
        read ← attempt (durable_view codexID);
        match read with
        | Ok durable =>
            _ ← put_view codexID durable;
            _ ← attempt (events (ReloadDurable codexID));
            if has_access state read then mret tt
            else throw (ErrText ("workspace event commit did not advance durable state: " +:+ error_text e))
        | Err readErr =>
            _ ← put_view codexID snapshot;
            _ ← noteAsyncError (ErrJoin e readErr);
            throw e
        end
      else
        _ ← noteAsyncError e;
        throw e
  end.

Definition commitWorkspaceState (now wall : Z) (codexID : string) (state : WorkspaceAccessState) : MM unit :=
  found ← gets (λ s, find_view s codexID);
  match found with
  | None => throw codex_not_found
  | Some (view, _) =>
      match cv_WorkspaceAccessState view with
      | None => publish_access now wall codexID state view
      | Some current =>
          if was_Generation state <? was_Generation current then mret tt
          else if bool_decide (current = state) then
            read ← attempt (durable_view codexID);
            if has_access state read then mret tt else publish_access now wall codexID state view
          else publish_access now wall codexID state view
      end
  end.

(** ** Agents *)

(** [AgentStarted] and [AgentStopped] of the service with the manager as its sink.  A call
    that finds a transition pending waits for it; [ctxErr] is what it returns when the
    context ends first. *)
Definition agent_moves (ctxErr : goerr) (now wall : Z) (codexID : string)
    (begin : nat → workspaceState → workspaceState * option flight) : MM unit :=
  p ← workspaces (known codexID);
  w ← gets (λ s, sv_heap (mg_workspaces s) !! p);
  match w with
  | None => throw codex_not_found
  | Some w =>
      match lockMutationCoordinator None w with
      | None => throw ctxErr
      | Some (Err e) => throw e
      | Some (Ok _) =>
          chan ← gets (λ s, sv_next_chan (mg_workspaces s));
          match begin chan w with
          | (w, None) => modify (λ s, set_mg_workspaces (put_ws p w (mg_workspaces s)) s)
          | (w, Some fl) =>
              _ ← modify (λ s, set_mg_workspaces (put_ws p w (fresh_chan (mg_workspaces s))) s);
              outcome ← attempt (commitWorkspaceState now wall codexID (fl_attempted fl));
              _ ← modify (λ s, set_mg_workspaces (put_ws p (finish_transition outcome fl w) (mg_workspaces s)) s);
              of_res outcome
          end
      end
  end.

Definition WorkspaceAgentStarted (ctxErr : goerr) (now wall : Z) (codexID agentID : string) : MM unit :=
  with_workspaceError (
    if str_empty agentID then of_res (workspaceErr ERROR_CODE_INVALID_REQUEST "agent id is required")
    else agent_moves ctxErr now wall codexID (begin_start wall agentID)).

Definition WorkspaceAgentStopped (ctxErr : goerr) (now wall : Z) (token codexID agentID : string) : MM unit :=
  with_workspaceError (agent_moves ctxErr now wall codexID (begin_stop wall agentID token)).

(** [tokens] are drawn in turn by the agents that stop. *)
Fixpoint apply_transitions (ctxErr : goerr) (now wall : Z) (tokens : nat → string) (codexID : string) (transitions : list (string * bool)) : MM unit :=
  match transitions with
  | [] => mret tt
  | (child, active) :: transitions =>
      _ ← (if active : bool then WorkspaceAgentStarted ctxErr now wall codexID (subagent child)
           else WorkspaceAgentStopped ctxErr now wall (tokens (length transitions)) codexID (subagent child));
      apply_transitions ctxErr now wall tokens codexID transitions
  end.

Definition applyCollabAgentItem (ctxErr : goerr) (now wall : Z) (tokens : nat → string) (e : Adapter.Event) : MM unit :=
  if bool_decide (e_Kind e ∉ [EventItemStarted; EventItemUpdated; EventItemCompleted]) then mret tt
  else match parseCollabAgentItem (e_Params e) with
  | None => mret tt
  | Some item =>
      let sender := if str_empty (ca_SenderThreadID item) then e_ThreadID e else ca_SenderThreadID item in
      codexID ← gets (λ s, let id := get_str (mg_byThread s) sender in
                           if str_empty id then get_str (mg_workspaceChildCodex s) sender else id);
      if str_empty codexID then mret tt
      else
        transitions ← (λ s, let '(s, ts) := observe_children codexID item (sorted_children item) s in (s, Ok ts));
        apply_transitions ctxErr now wall tokens codexID transitions
  end.

(** ** Restoring subagents from a thread's history *)

(** The last state each child was seen in, with the item that said so. *)
Definition note_latest (item : collabAgentItem) (latest : gmap string (string * string)) (child : string) : gmap string (string * string) :=
  if str_empty child then latest
  else match ca_AgentsStates item !! child with
       | Some status => <[child := (ca_ID item, status)]> latest
       | None => latest
       end.

Definition latest_children (thread : Thread) : gmap string (string * string) :=
  foldl (λ latest raw, match parseCollabAgentItem raw with
                       | Some item => foldl (note_latest item) latest (collab_children item)
                       | None => latest
                       end) ∅ (t ← th_Turns thread; tn_Items t).

Fixpoint restore_agents (wall : Z) (codexID : string) (children : list string) (access : option WorkspaceAccessState)
    : MM (option WorkspaceAccessState) :=
  match children with
  | [] => mret access
  | child :: children =>
      state ← workspaces (RestoreAgent wall codexID (subagent child));
      restore_agents wall codexID children (Some state)
  end.

Definition restoreCollabAgents (wall : Z) (codexID : string) (thread : Thread) : MM (option WorkspaceAccessState) :=
  let latest := latest_children thread in
  _ ← modify (λ s, set_mg_workspaceChildState
        (((λ l, mkChildObservation l.1 (collabAgentTerminal l.2)) <$> latest) ∪ mg_workspaceChildState s)
        (set_mg_workspaceChildCodex (((λ _, codexID) <$> latest) ∪ mg_workspaceChildCodex s) s));
  let children := merge_sort name_le (map_to_list (filter (λ '(_, l), collabAgentActive l.2 = true) latest)).*1 in
  restore_agents wall codexID children None.

End Workspace.

(** ** The file handlers

    State: the manager and the disk.  [ws] is the configuration of the workspace service. *)

Notation MF := (M (MState * FS)).

Definition on_manager {A} (m : MM A) : MF A := zoom fst (λ s w, (s, w.2)) m.

(** A handler of the workspace service, on the manager's service and the disk. *)
Definition on_files {A} (h : WState → WState * res A) : MF A := λ w,
  let '(st, r) := h (mkWState (mg_workspaces w.1) w.2) in
  ((set_mg_workspaces (wst_sv st) w.1, wst_fs st), r).

Definition need_codex_id (codexID : string) : MF unit :=
  guard_err (str_empty codexID) (rpcErr ERROR_CODE_INVALID_REQUEST "codex id is required").

(** [State] of the service. *)
Definition service_state (codexID : string) (st : WState) : WState * res (WorkspaceAccessState * string) :=
  match known codexID (wst_sv st) with
  | (sv, Err e) => (mkWState sv (wst_fs st), Err e)
  | (sv, Ok p) =>
      match sv_heap sv !! p with
      | None => (mkWState sv (wst_fs st), workspaceErr ERROR_CODE_CODEX_NOT_FOUND "codex not found")
      | Some w =>
          match access_root w (wst_fs st) with
          | (fs, Err e) => (mkWState sv fs, Err e)
          | (fs, Ok (w, Err e)) => (mkWState (put_ws p w sv) fs, Err e)
          | (fs, Ok (w, Ok _)) => (mkWState (put_ws p w sv) fs, Ok (ws_state w, ws_displayRoot w))
          end
      end
  end.

Definition GetWorkspace (codexID : string) : MF (string * WorkspaceAccessState) :=
  _ ← need_codex_id codexID;
  _ ← on_manager (lookup_codex codexID);
  r ← with_workspaceError (on_files (service_state codexID));
  mret (r.2, r.1).

Definition ReadWorkspaceTextFile (ws : Config) (codexID relative : string) : MF (WorkspaceEntry * string) :=
  _ ← need_codex_id codexID;
  with_workspaceError (on_files (ReadText ws codexID relative)).

(** A mutation with what its publication through [commitWorkspaceState] answers; a call
    that waits for a pending transition ends with its context. *)
Definition on_mutation (ctxErr : goerr) (h : WState → option (WState * res WorkspaceEntry)) : MF WorkspaceEntry :=
  with_workspaceError (on_files (λ st, default (st, Err ctxErr) (h st))).

Definition WriteWorkspaceTextFile (ws : Config) (ctxErr : goerr) (sink : sink_fn) (wall : Z) (token' : string)
    (codexID relative text expectedRevision token : string) (condition : WorkspaceWriteCondition) : MF WorkspaceEntry :=
  _ ← need_codex_id codexID;
  on_mutation ctxErr (WriteText ws None sink wall token' codexID relative text expectedRevision token condition).

Definition UploadWorkspaceEntry (zip_NewReader : string → res (list zip_item)) (ws : Config) (ctxErr : goerr) (sink : sink_fn) (wall : Z)
    (token' codexID destination : string) (kind : WorkspaceUploadKind) (content token : string) : MF WorkspaceEntry :=
  _ ← need_codex_id codexID;
  on_mutation ctxErr (WorkspaceService.Upload zip_NewReader ws None sink wall token' codexID destination kind content token).

Definition DownloadWorkspaceEntry (zip_buffer zip_closed : list (string * option string) → string) (ws : Config) (codexID relative : string)
    : MF (WorkspaceEntry * WorkspaceDownloadKind * string * string) :=
  _ ← need_codex_id codexID;
  r ← with_workspaceError (on_files (WorkspaceService.Download zip_buffer zip_closed ws codexID relative));
  let '(entry, kind, filename, content) := r in
  mret (entry, kind, (if bool_decide (filename = ".zip") then Base relative +:+ ".zip" else filename), content).
