(* ===== verification/ManagerWorkspaceTheorems.v ===== *)
(** * The manager and the workspace service together

    What publishing an access state leaves in memory and in the database, that the
    manager's agent transitions are those of the workspace service, and that a subagent
    that ended stays ended. *)

From Stdlib Require Import Ascii String.
From stdpp Require Import base tactics numbers list sorting gmap strings pretty.
From S2P Require Import Prelude GoError GoStrings GoPath FileSystem Float64 Json Client Adapter Remote Persistence Activity HostEvents CodecTable Workspace Budget Manager ManagerTheorems ManagerWorkspace.
Local Open Scope string_scope.
Local Open Scope Z_scope.
Local Open Scope list_scope.

(** ** Frames *)

(** In memory [s'] is [s], but for the view of Codex [id] and the degradation note. *)
Definition only_view (id : string) (s s' : MState) : Prop :=
  (∀ k, k ≠ id → mg_byID s' !! k = mg_byID s !! k) ∧ mg_warningDeadline s' = mg_warningDeadline s ∧ rest s' = rest s.

Lemma only_view_refl id s : only_view id s s.
Proof. done. Qed.

Lemma only_view_trans id s1 s2 s3 : only_view id s1 s2 → only_view id s2 s3 → only_view id s1 s3.
Proof. intros (H1&H2&H3) (H4&H5&H6). split; [intros k Hk; by rewrite H4, H1|]. by rewrite H5, H6. Qed.

Lemma only_view_put id v a note s : only_view id s (set_mg_asyncError note (set_mg_events a (set_mg_byID (<[id := v]> (mg_byID s)) s))).
Proof. split; [|done]. intros k Hk. cbn. by rewrite lookup_insert_ne. Qed.

Section Access.
Context `{PJ : ProtoJSON} `{PL : !ProtoJSONLaws} (audit : Event → option string).

(** The view the database holds for a Codex. *)
Definition stored_view (d : DB) (id : string) : option CurrentView := r ← db_codexes d !! id; UnmarshalView (cr_CurrentViewJSON r).

Lemma durable_view_spec id s s' r : durable_view id s = (s', r) →
  ∃ p, s' = set_mg_events (set_as_persist p (mg_events s)) s ∧ st_db p = mdb s ∧ ∀ v, r = Ok v → stored_view (mdb s) id = Some v.
Proof.
  unfold durable_view, mbind, M_bind, store, zoom. destruct (CurrentViewJSON id (as_persist (mg_events s))) as [p rq] eqn:E.
  apply sql_query_inv in E as [Hp Hr]. intros H. exists p. unfold stored_view, mdb, adb in *.
  destruct rq as [raw|e]; cycle 1.
  { injection H as <- <-. done. }
  destruct Hr as [Hr|[f ?]]; [|done]. destruct (db_codexes _ !! id) as [row|]; [|done]. cbn in Hr. injection Hr as ->. cbn.
  destruct (UnmarshalView (cr_CurrentViewJSON row)) as [v|]; injection H as <- <-; (split; [done|]); (split; [done|]); naive_solver.
Qed.

(** What [publish_access] and [commitWorkspaceState] leave behind when Codex [id] was
    shown as [view]. *)
Definition committed (id : string) (state : WorkspaceAccessState) (view : CurrentView) (s s' : MState) (r : res unit) : Prop :=
  only_view id s s' ∧
  (stored_view (mdb s') id = stored_view (mdb s) id ∨
   ∃ d, stored_view (mdb s') id = Some d ∧ cv_WorkspaceAccessState d = Some state ∧ cv_Codex d = cv_Codex view) ∧
  ∃ v, mg_byID s' !! id = Some v ∧ (cv_Codex v = cv_Codex view ∨ stored_view (mdb s') id = Some v) ∧
  match r with
  | Ok _ =>
      cv_WorkspaceAccessState v = Some state ∧ ∃ d, stored_view (mdb s') id = Some d ∧ cv_WorkspaceAccessState d = Some state
  | Err e =>
      v = view ∧ stored_view (mdb s') id = stored_view (mdb s) id ∨ stored_view (mdb s') id = Some v ∧ cv_WorkspaceAccessState v ≠ Some state ∨
      errorsIs e ErrEventCommitOutcomeUnknown = true ∧ cv_WorkspaceAccessState v = Some state
  end.

Lemma event_applied_stored wall id v raw seq d d' :
  Marshal (MsgView v) = Ok raw → event_applied wall id raw seq d d' → stored_view d' id = Some v.
Proof.
  intros Hm (row&Hrow&_&_&_&->). unfold stored_view. cbn. rewrite lookup_insert_eq. cbn. by apply UnmarshalView_Marshal.
Qed.

Lemma has_access_true state r : has_access state r = true ↔ ∃ v, r = Ok v ∧ cv_WorkspaceAccessState v = Some state.
Proof. unfold has_access. destruct r as [v|e]; [rewrite bool_decide_eq_true|]; naive_solver. Qed.

Lemma publish_access_spec now wall id state view s s' r : mg_byID s !! id = Some view →
  publish_access audit now wall id state view s = (s', r) → committed id state view s s' r.
Proof.
  intros Hv. unfold publish_access. set (snapshot := set_cv_GeneratedAtUnixMs _ _). set (ev := mkEvent _ _ _ _ _ _).
  unfold mbind at 1, M_bind at 1, attempt at 1.
  destruct (publishEvent audit wall ev snapshot s) as [s1 rp] eqn:Ep. apply publishEvent_spec in Ep as (a&->&Hp). destruct rp as [published|e].
  - destruct Hp as (raw&seq&Hm&Ha). intros [= <- <-]. apply (event_applied_stored _ _ _ _ _ _ _ Hm) in Ha.
    split; [by apply (only_view_put id _ a (mg_asyncError s))|]. split; [right; by eexists|].
    eexists. split; [cbn; by rewrite lookup_insert_eq|]. split; [by left|]. split; [done|]. by eexists.
  - assert (stored_view (adb a) id = stored_view (mdb s) id ∨
      ∃ d, stored_view (adb a) id = Some d ∧ cv_WorkspaceAccessState d = Some state ∧ cv_Codex d = cv_Codex view) as Hdb0.
    { destruct Hp as [->|(raw&seq&_&Hm&Ha)]; [by left|right]. eexists. by split; [eapply event_applied_stored|]. }
    destruct (errorsIs e ErrEventCommitOutcomeUnknown) eqn:Eu; cycle 1.
    { intros [= <- <-]. split; [done|]. split; [exact Hdb0|]. exists view. split; [done|]. split; [by left|]. left. split; [done|].
      destruct Hp as [E|(?&?&?&_)]; [|done]. unfold mdb at 1. cbn. by rewrite E. }
    unfold mbind at 1, M_bind at 1, attempt at 1. destruct (durable_view id _) as [s2 rd] eqn:Ed.
    apply durable_view_spec in Ed as (p&->&Hdb&Hr). destruct rd as [durable|readErr]; cycle 1.
    { intros [= <- <-]. split; [by apply (only_view_put id snapshot _ _ s)|].
      split; [unfold mdb, adb in *; cbn in *; rewrite Hdb; exact Hdb0|]. exists snapshot. split; [cbn; by rewrite lookup_insert_eq|].
      split; [by left|]. by right; right. }
    specialize (Hr durable eq_refl).
    unfold mbind, M_bind, put_view, modify, attempt. destruct (events (ReloadDurable id) _) as [s3 rr] eqn:El.
    unfold events, zoom in El. destruct (ReloadDurable id _) as [a' rr'] eqn:Er. pose proof (ReloadDurable_reads id) as Hreads.
    match type of Er with ReloadDurable id ?x = _ => specialize (Hreads x) end. rewrite Er in Hreads. cbn in Hreads. injection El as <- <-.
    assert (adb a' = adb a) as Hadb. { rewrite Hreads. unfold adb. cbn. exact Hdb. }
    assert (only_view id s (set_mg_events a' (set_mg_byID (<[id := durable]> (mg_byID s)) s))) as Hframe
      by apply (only_view_put id durable a' (mg_asyncError s) s).
    change (stored_view (adb a) id = Some durable) in Hr.
    destruct (has_access state (Ok durable)) eqn:Eh; intros [= <- <-]; (split; [exact Hframe|]);
      unfold mdb at 1 3 4; cbn [mg_events set_mg_events set_mg_byID]; rewrite Hadb; (split; [exact Hdb0|]); exists durable;
      (split; [cbn; by rewrite lookup_insert_eq|]); unfold mdb; cbn [mg_events set_mg_events set_mg_byID]; rewrite Hadb; (split; [by right|]).
    + apply has_access_true in Eh as (v&[= <-]&Hacc). split; [done|]. by exists durable.
    + right. left. split; [exact Hr|].
      intros Hacc. assert (has_access state (Ok durable) = true) as E by (apply has_access_true; eauto). congruence.
Qed.

Lemma commitWorkspaceState_spec now wall id state view c s s' r
    (Hv : mg_byID s !! id = Some view) (Hc : cv_Codex view = Some c)
    (Hrun : commitWorkspaceState audit now wall id state s = (s', r)) :
  match cv_WorkspaceAccessState view with
  | Some current => was_Generation state < was_Generation current → s' = s ∧ r = Ok tt
  | None => True
  end ∧
  (match cv_WorkspaceAccessState view with Some current => was_Generation current ≤ was_Generation state | None => True end →
   committed id state view s s' r).
Proof.
  unfold commitWorkspaceState, mbind, M_bind, gets in Hrun. rewrite (proj2 (find_view_Some s id view c)) in Hrun by done.
  destruct (cv_WorkspaceAccessState view) as [current|] eqn:Ew.
  2:{ split; [done|]. intros _. by eapply publish_access_spec. }
  destruct (was_Generation state <? was_Generation current) eqn:Elt.
  { injection Hrun as <- <-. split; [done|]. lia. }
  split; [lia|]. intros _. case_bool_decide as Ecur; [subst current|by eapply publish_access_spec].
  unfold attempt in Hrun. destruct (durable_view id s) as [s1 rd] eqn:Ed. apply durable_view_spec in Ed as (p&->&Hdb&Hr).
  destruct (has_access state rd) eqn:Eh.
  - apply has_access_true in Eh as (d&->&Hd). injection Hrun as <- <-. split; [done|].
    assert (mdb (set_mg_events (set_as_persist p (mg_events s)) s) = mdb s) as E by exact Hdb. unfold committed. rewrite E.
    split; [by left|]. exists view. split; [done|]. split; [by left|]. split; [done|]. exists d. split; [|done]. by apply Hr.
  - apply publish_access_spec in Hrun as (Hf&Hst&Hm); [|exact Hv]. split; [exact Hf|].
    assert (mdb (set_mg_events (set_as_persist p (mg_events s)) s) = mdb s) as E by exact Hdb. unfold committed. rewrite E in Hst, Hm. by split.
Qed.

(** Publishing an access state is guarded and honest.  It never replaces the state of a
    newer generation: then it changes nothing at all.  Otherwise success means that the
    Codex is shown with the state and that the database holds it too, even when the state
    was in memory already and only its persistence had failed.  After an error the Codex is
    shown as before and the database holds what it held, or it is shown as the database has
    it, without the state, or, only when the outcome is unknown and cannot be read back, it
    is shown with the state.  No other
    Codex and no other map is touched. *)
Theorem access_state_committed now wall id state view c s s' r
    (Hv : mg_byID s !! id = Some view) (Hc : cv_Codex view = Some c)
    (Hrun : commitWorkspaceState audit now wall id state s = (s', r)) :
  match cv_WorkspaceAccessState view with
  | Some current => was_Generation state < was_Generation current → s' = s ∧ r = Ok tt
  | None => True
  end ∧
  (match cv_WorkspaceAccessState view with Some current => was_Generation current ≤ was_Generation state | None => True end →
   committed id state view s s' r).
Proof. by eapply commitWorkspaceState_spec. Qed.

(** ** Agents *)

(** [agent_moves] on an idle workspace: the service's own two halves around the commit. *)
Lemma agent_moves_halves ctxErr now wall id begin s s' r p w :
  sv_states (mg_workspaces s) !! id = Some p → sv_heap (mg_workspaces s) !! p = Some w → ws_removed w = false → ws_pending w = None →
  agent_moves audit ctxErr now wall id begin s = (s', r) →
  match begin (sv_next_chan (mg_workspaces s)) w with
  | (w1, None) => s' = set_mg_workspaces (put_ws p w1 (mg_workspaces s)) s ∧ r = Ok tt
  | (w1, Some fl) => ∃ s1,
      commitWorkspaceState audit now wall id (fl_attempted fl) (set_mg_workspaces (put_ws p w1 (fresh_chan (mg_workspaces s))) s) = (s1, r) ∧
      s' = set_mg_workspaces (put_ws p (finish_transition r fl w1) (mg_workspaces s1)) s1
  end.
Proof.
  intros Hst Hw Hrem Hp. unfold agent_moves, mbind, M_bind, workspaces, zoom, known, gets. rewrite Hst. cbn. rewrite Hw.
  unfold lockMutationCoordinator. rewrite Hrem, Hp. unfold modify, attempt, of_res.
  destruct (begin _ w) as [w1 [fl|]].
  - destruct (commitWorkspaceState _ _ _ _ _ _) as [s1 outcome] eqn:Ec. intros [= <- <-]. eexists. split; [|done]. by rewrite <- Ec; destruct s.
  - intros [= <- <-]. by destruct s.
Qed.

(** The workspace service, the view shown and the database agree on the access state [st]
    of Codex [id], whose workspace is [w]; no transition is pending. *)
Definition agrees (s : MState) (id : string) (st : WorkspaceAccessState) (w : workspaceState) : Prop :=
  (∃ p, sv_states (mg_workspaces s) !! id = Some p ∧ sv_heap (mg_workspaces s) !! p = Some w) ∧
  ws_removed w = false ∧ ws_pending w = None ∧ ws_state w = st ∧
  (∃ v c, mg_byID s !! id = Some v ∧ cv_Codex v = Some c ∧ cv_WorkspaceAccessState v = Some st) ∧
  ∃ d c, stored_view (mdb s) id = Some d ∧ cv_Codex d = Some c ∧ cv_WorkspaceAccessState d = Some st.

Lemma begin_generation (begin : nat → workspaceState → workspaceState * option flight) wall agentID token c w w1 fl :
  begin = begin_start wall agentID ∨ begin = begin_stop wall agentID token → begin c w = (w1, Some fl) →
  was_Generation (fl_attempted fl) = u64_incr (was_Generation (ws_state w)).
Proof. intros [->| ->]; unfold begin_start, begin_stop; case_bool_decide; [done| |done|]; intros [= <- <-]; cbn; by repeat case_match. Qed.

(** How the agents of a workspace are to change. *)
Definition agents_after (begin : nat → workspaceState → workspaceState * option flight) (wall : Z) (agentID token : string) (w : workspaceState)
    (agents : gset string) : Prop :=
  begin = begin_start wall agentID ∧ agents = {[agentID]} ∪ ws_agentIDs w ∨
  begin = begin_stop wall agentID token ∧ agents = ws_agentIDs w ∖ {[agentID]}.

Lemma agent_moves_agree ctxErr now wall agentID token begin agents id st w s s' r :
  agrees s id st w → 0 ≤ was_Generation st < u64_modulus - 1 → agents_after begin wall agentID token w agents →
  agent_moves audit ctxErr now wall id begin s = (s', r) →
  match r with
  | Ok _ => ∃ st' w', agrees s' id st' w' ∧ ws_agentIDs w' = agents ∧ was_Generation st ≤ was_Generation st'
  | Err e => errorsIs e ErrEventCommitOutcomeUnknown = false → agrees s' id st w
  end.
Proof.
  intros ((p&Hst&Hw)&Hrem&Hp&Hws&(v&c&Hv&Hc&Hacc)&(d&cd&Hd&Hcd&Hdacc)) Hmax Hag Hrun.
  apply (agent_moves_halves _ _ _ _ _ _ _ _ p w Hst Hw Hrem Hp) in Hrun. set (chan := sv_next_chan _) in Hrun.
  assert (undoable w chan (begin chan w) ∧ ws_agentIDs (begin chan w).1 = agents) as [Hu Ha].
  { destruct Hag as [[-> ->]|[-> ->]]; [apply begin_start_undoable|apply begin_stop_undoable]. }
  destruct (begin chan w) as [w1 [fl|]] eqn:Eb; cycle 1.
  { destruct Hrun as [-> ->]. cbn in Hu. subst w1. exists st, w. cbn in Ha. split; [|lia || split; [done|lia]].
    split; [exists p; cbn; by rewrite lookup_insert_eq|]. do 3 (split; [done|]). split; [by exists v, c|by exists d, cd]. }
  destruct Hrun as (s1&Hcommit&->). destruct Hu as (Hchan&Hatt&Hprev&Hundo&Hw1).
  assert (was_Generation (fl_attempted fl) = was_Generation st + 1) as Hgen.
  { rewrite <- (u64_incr_small (was_Generation st)) by lia. rewrite <- Hws. eapply begin_generation; [|exact Eb].
    destruct Hag as [[-> _]|[-> _]]; [by left|by right]. }
  set (s0 := set_mg_workspaces _ s) in Hcommit.
  destruct (commitWorkspaceState_spec now wall id (fl_attempted fl) v c s0 s1 r Hv Hc Hcommit) as [_ Hspec].
  rewrite Hacc in Hspec. destruct Hspec as ((_&_&Hrest)&Hstored&v'&Hv'&Hvc&Hr); [lia|].
  assert (mg_workspaces s1 = mg_workspaces s0) as Esv by (unfold rest in Hrest; by injection Hrest).
  assert (ws_pending w1 = Some (fl_chan fl)) as Hp1 by (rewrite Hw1, Hchan; done).
  assert (∀ w2, sv_states (put_ws p w2 (mg_workspaces s1)) !! id = Some p ∧ sv_heap (put_ws p w2 (mg_workspaces s1)) !! p = Some w2) as Hput.
  { intros w2. rewrite Esv. cbn. by rewrite lookup_insert_eq. }
  assert (∃ d' c', stored_view (mdb s1) id = Some d' ∧ cv_Codex d' = Some c' ∧
            (cv_WorkspaceAccessState d' = Some st ∨ cv_WorkspaceAccessState d' = Some (fl_attempted fl))) as (d'&c'&Hd'&Hc'&Hdacc').
  { destruct Hstored as [E|(d'&E&Ea&Ec)]; [exists d, cd; rewrite E; by split_and!; [| |left]|]. exists d', c. rewrite Ec. by split_and!; [| |right]. }
  assert (∃ c'', cv_Codex v' = Some c'') as [c'' Hc''].
  { destruct Hvc as [E|E]; [exists c; by rewrite E|]. rewrite E in Hd'. injection Hd' as ->. eauto. }
  destruct r as [[]|e].
  - destruct Hr as (Hacc'&d''&Hd''&Hdacc''). assert (d'' = d') as -> by congruence. exists (fl_attempted fl), (finish_transition (Ok tt) fl w1).
    assert (finish_transition (Ok tt) fl w1 = set_ws_pending None w1) as ->.
    { unfold finish_transition, finishPending. cbn. by rewrite bool_decide_eq_true_2. }
    split; [|split; [exact Ha|lia]]. split; [exists p; apply Hput|]. split; [cbn; rewrite Hw1; done|]. split; [done|]. split; [cbn; by rewrite Hatt|].
    split; [by exists v', c''|by exists d', c'].
  - intros Hknown. rewrite finish_rollback by (cbn; rewrite ?Hknown; done || congruence).
    assert (set_ws_pending None (set_ws_agentIDs (undo_agents (fl_change fl) (ws_agentIDs w1)) (set_ws_state (fl_previous fl) w1)) = w) as ->.
    { rewrite Hundo, Hprev, Hw1. destruct w; cbn in *. by subst. }
    split; [exists p; apply Hput|]. do 3 (split; [done|]).
    assert (fl_attempted fl ≠ st) as Hne by (intros E; rewrite E in Hgen; lia).
    destruct Hr as [[-> Hsame]|[[Hsv Hna]|[Hunk _]]]; [| |congruence].
    + split; [by exists v, c|]. exists d, cd. cbn. change (mdb (set_mg_workspaces _ s1)) with (mdb s1). by rewrite Hsame.
    + assert (d' = v') as -> by congruence. destruct Hdacc' as [E|E]; [|done].
      split; [by exists v', c''|by exists v', c'].
Qed.

Lemma with_workspaceError_inv {S A} (m : M S A) s s' r : with_workspaceError m s = (s', r) →
  ∃ r0, m s = (s', r0) ∧ match r0 with Ok a => r = Ok a | Err e => r = Err (workspaceError e) end.
Proof. unfold with_workspaceError. destruct (m s) as [s1 [a|e]]; intros [= <- <-]; eexists; (split; [done|done]). Qed.

(** What a report of the manager about an agent leaves: after success all three agree on a
    state that is not older and the workspace has these [agents]; after an error whose
    outcome is known, the state and the workspace of before. *)
Definition reported (s' : MState) (id : string) (st : WorkspaceAccessState) (w : workspaceState) (agents : gset string) (r : res unit) : Prop :=
  match r with
  | Ok _ => ∃ st' w', agrees s' id st' w' ∧ ws_agentIDs w' = agents ∧ was_Generation st ≤ was_Generation st'
  | Err e' => ∃ e, e' = workspaceError e ∧ (errorsIs e ErrEventCommitOutcomeUnknown = false → agrees s' id st w)
  end.

(** C11: The workspace service, the view shown to clients and the database never disagree
    about who may change the files, as long as the outcome of a commit is known.  If they
    agree on the access state and nothing is pending, then after the manager reported a
    started or stopped agent they agree again: on success with the agent added or removed
    and a generation that is not older, on a failure with exactly the workspace of before. *)
Theorem workspace_and_codex_agree ctxErr now wall id agentID token st w s s' r
    (Hagree : agrees s id st w) (Hgen : 0 ≤ was_Generation st < u64_modulus - 1) (Hagent : agentID ≠ "") :
  (WorkspaceAgentStarted audit ctxErr now wall id agentID s = (s', r) → reported s' id st w ({[agentID]} ∪ ws_agentIDs w) r) ∧
  (WorkspaceAgentStopped audit ctxErr now wall token id agentID s = (s', r) → reported s' id st w (ws_agentIDs w ∖ {[agentID]}) r).
Proof.
  split; intros (r0&Hrun&Hr)%with_workspaceError_inv.
  - rewrite str_empty_false in Hrun by done. eapply (agent_moves_agree _ _ _ agentID token) in Hrun; [|done|done|by left].
    destruct r0; subst r; [done|]. by eexists.
  - eapply (agent_moves_agree _ _ _ agentID token) in Hrun; [|done|done|by right]. destruct r0; subst r; [done|]. by eexists.
Qed.
End Access.

(** ** Subagents *)

(** The items of the app-server that name Codex [id]'s subagents, one after the other: the
    observations and the transitions they ask for. *)
Fixpoint observe_all (id : string) (items : list collabAgentItem) (s : MState) : MState * list (string * bool) :=
  match items with
  | [] => (s, [])
  | item :: items =>
      let '(s, ts) := observe_children id item (sorted_children item) s in
      let '(s, ts') := observe_all id items s in
      (s, ts ++ ts')
  end.

Definition is_terminal (s : MState) (child : string) : Prop := ∃ o, mg_workspaceChildState s !! child = Some o ∧ co_Terminal o = true.

Lemma observe_children_terminal id item children s child : is_terminal s child → ca_Tool item ≠ "resumeAgent" →
  is_terminal (observe_children id item children s).1 child ∧ (child, true) ∉ (observe_children id item children s).2.
Proof.
  intros Ht Hi. revert s Ht. induction children as [|k children IH]; intros s Ht; [split; [done|apply not_elem_of_nil]|]. cbn [observe_children].
  set (s1 := set_mg_workspaceChildCodex _ s). destruct (observe_child item _ k) as [[o active]|] eqn:Eo; [|by apply IH].
  set (s2 := set_mg_workspaceChildState _ s1).
  assert (k = child → active = false ∧ co_Terminal o = true) as Hk.
  { intros ->. unfold observe_child in Eo. destruct Ht as (o'&Ho'&Hterm). change (mg_workspaceChildState s1) with (mg_workspaceChildState s) in Eo.
    rewrite Ho' in Eo. cbn [default] in Eo. destruct (ca_AgentsStates item !! child) as [status|]; [|done].
    unfold from_option, Datatypes.id in Eo. rewrite Hterm, (bool_decide_true (ca_Tool item ≠ "resumeAgent")) in Eo by done. cbn [andb orb] in Eo.
    destruct (collabAgentActive status), (collabAgentTerminal status) eqn:Et; cbn in Eo; simplify_eq; done. }
  assert (is_terminal s2 child) as Ht2.
  { destruct Ht as (o'&Ho'&Hterm). unfold is_terminal, s2. cbn. destruct (decide (k = child)) as [->|Hne].
    - rewrite lookup_insert_eq. exists o. split; [done|]. by apply Hk.
    - rewrite lookup_insert_ne by done. by exists o'. }
  specialize (IH s2 Ht2). destruct (observe_children id item children s2) as [s3 ts]. cbn in *. destruct IH as [IH1 IH2]. split; [done|].
  rewrite not_elem_of_cons. split; [|done]. intros [= E1 E2]. by destruct Hk; congruence.
Qed.

(** A subagent that ended stays ended.  Whatever items arrive late, repeated or out of
    order, and whatever they say about it, it is never reported as running again, until
    an explicit [resumeAgent] item arrives. *)
Theorem ended_subagent_stays_ended id items s child
    (Hend : is_terminal s child) (Hitems : Forall (λ item, ca_Tool item ≠ "resumeAgent") items) :
  is_terminal (observe_all id items s).1 child ∧ (child, true) ∉ (observe_all id items s).2.
Proof.
  revert s Hend. induction items as [|item items IH]; intros s Hend; [split; [done|apply not_elem_of_nil]|]. cbn [observe_all].
  inversion_clear Hitems as [|?? Hi His]. destruct (observe_children_terminal id item (sorted_children item) s child Hend Hi) as [H1 H2].
  destruct (observe_children id item (sorted_children item) s) as [s1 ts]. cbn in H1, H2.
  destruct (IH His s1 H1) as [H3 H4]. destruct (observe_all id items s1) as [s2 ts']. cbn in *. split; [done|]. rewrite elem_of_app. tauto.
Qed.

(** ** A concrete manager with one workspace *)

Module WorkspaceLink.

Definition c0 : Codex := mkCodex "c1" "t1" "/w" "title" CODEX_ORIGIN_REMOTE_CREATED CODEX_STATUS_IDLE "" MANAGEMENT_STATE_MANAGED 1000 1 0 1 [].
Definition st0 : WorkspaceAccessState := mkWorkspaceAccessState 1 0 ALLOWED "q1" 0.
Definition st1 : WorkspaceAccessState := busy_state {["turn"]} 7 st0.
Definition v0 : CurrentView := mkCurrentView (Some c0) None [] (Some st0) None 0 0.
Definition v1 : CurrentView := mkCurrentView (Some c0) None [] (Some st1) None 1 5.
Definition w0 : workspaceState := mkWs "/w" "/w" st0 ∅ None false.

#[local] Instance two_views : ProtoJSON := table_json [v0; v1].
#[local] Instance two_views_laws : ProtoJSONLaws := table_json_laws [v0; v1].

Definition row0 : CodexRecord := set_cr_CurrentViewJSON (place_text 0) (recordFromCodex c0 "cli").
Definition s0 : MState :=
  mkMState (NewStore (mkStore (set_db_codexes {["c1" := row0]} empty_db) []) false 8) (mkService {["c1" := 0%nat]} {[0%nat := w0]} 1 0)
    {["c1" := v0]} {["t1" := "c1"]} {[sessionKey "cli" "t1" := "c1"]} {["c1" := "cli"]} {["c1" := "owner"]} ∅ ∅ ∅ ∅ ∅ "".
Definition no_audit (e : Event) : option string := None.

Lemma s0_agrees : agrees s0 "c1" st0 w0.
Proof.
  split; [exists 0%nat; split; reflexivity|]. do 3 (split; [reflexivity|]). split; [exists v0, c0; split_and!; reflexivity|].
  exists v0, c0. split_and!; vm_compute; reflexivity.
Qed.

Lemma access_state_committed_witness :
  let '(s', r) := commitWorkspaceState no_audit 5000000 7 "c1" st1 s0 in r = Ok tt ∧ committed "c1" st1 v0 s0 s' r.
Proof.
  assert ((commitWorkspaceState no_audit 5000000 7 "c1" st1 s0).2 = Ok tt) as Hr by (vm_compute; reflexivity).
  destruct (commitWorkspaceState no_audit 5000000 7 "c1" st1 s0) as [s' r] eqn:E. split; [exact Hr|].
  destruct (access_state_committed no_audit 5000000 7 "c1" st1 v0 c0 s0 s' r eq_refl eq_refl E) as [_ H]. apply H. vm_compute. discriminate.
Defined.

Lemma workspace_and_codex_agree_witness :
  let '(s', r) := WorkspaceAgentStarted no_audit (ErrText "") 5000000 7 "c1" "turn" s0 in
  r = Ok tt ∧ ∃ st w, agrees s' "c1" st w ∧ ws_agentIDs w = {["turn"]} ∪ ∅.
Proof.
  assert ((WorkspaceAgentStarted no_audit (ErrText "") 5000000 7 "c1" "turn" s0).2 = Ok tt) as Hr by (vm_compute; reflexivity).
  destruct (WorkspaceAgentStarted no_audit (ErrText "") 5000000 7 "c1" "turn" s0) as [s' r] eqn:E. cbn in Hr. subst r. split; [reflexivity|].
  assert (0 ≤ was_Generation st0 < u64_modulus - 1) as Hg by (vm_compute; split; [discriminate|reflexivity]).
  assert ("turn" ≠ "") as Hne by discriminate.
  destruct (workspace_and_codex_agree no_audit (ErrText "") 5000000 7 "c1" "turn" "" st0 w0 s0 s' (Ok tt) s0_agrees Hg Hne) as [H _].
  destruct (H E) as (st'&w'&Hag&Ha&_). exists st', w'. split; [exact Hag|exact Ha].
Defined.

(** A child that completed, and a late item that still calls it running. *)
Definition late_item : collabAgentItem := mkCollab "collabAgentToolCall" "i2" "wait" "t1" ["child"] {["child" := "running"]}.
Definition s_end : MState := set_mg_workspaceChildState {["child" := mkChildObservation "i1" true]} s0.

Lemma ended_subagent_stays_ended_witness : observe_all "c1" [late_item; late_item] s_end = ((observe_all "c1" [late_item] s_end).1, []) ∧
  (("child", true) ∉ (observe_all "c1" [late_item; late_item] s_end).2).
Proof.
  assert (is_terminal s_end "child") as Hend by (eexists; split; reflexivity).
  assert (Forall (λ item, ca_Tool item ≠ "resumeAgent") [late_item; late_item]) as Hall by (repeat constructor; discriminate).
  split; [vm_compute; reflexivity|]. exact (proj2 (ended_subagent_stays_ended "c1" [late_item; late_item] s_end "child" Hend Hall)).
Defined.

End WorkspaceLink.
