(* ===== verification/ManagerItems.v ===== *)
(** * Items, deltas and pending requests (internal/codex/manager.go)

    The pure half of event handling: what an event of the adapter does to the snapshot of
    the running turn, how a request of the app-server becomes a pending request of the
    protocol, and how its answer is read. *)

From Stdlib Require Import Ascii String.
From stdpp Require Import base tactics numbers list gmap strings pretty.
From S2P Require Import Prelude GoError GoStrings Float64 Json Client Adapter Remote Base64 Attachments Budget Translate Manager.
Local Open Scope string_scope.
Local Open Scope Z_scope.
Local Open Scope list_scope.

(** ** The running turn *)

(** [wall] is [time.Now()] in milliseconds. *)
Definition new_turn (turnID : string) (wall : Z) : TurnSnapshot :=
  mkTurnSnapshot turnID TURN_STATUS_RUNNING wall 0 [] None None PROVENANCE_KIND_UNSPECIFIED.

Definition active_turn (wall : Z) (turnID : string) (v : CurrentView) : TurnSnapshot :=
  match cv_ActiveTurn v with
  | Some t => if bool_decide (turn_TurnId t = turnID) then t else new_turn turnID wall
  | None => new_turn turnID wall
  end.

Definition ensureActiveTurn (wall : Z) (turnID : string) (v : CurrentView) : CurrentView :=
  set_cv_ActiveTurn (Some (active_turn wall turnID v)) v.

Definition with_turn (f : TurnSnapshot → TurnSnapshot) (v : CurrentView) : CurrentView := set_cv_ActiveTurn (f <$> cv_ActiveTurn v) v.

(** Replace the first element with this identity, or append. *)
Fixpoint upsert {A} (identity : A → string) (x : A) (l : list A) : list A :=
  match l with
  | [] => [x]
  | y :: l => if bool_decide (identity y = identity x) then x :: l else y :: upsert identity x l
  end.

Definition upsertItem (item : Item) (turn : TurnSnapshot) : TurnSnapshot :=
  set_turn_Items (upsert item_ItemId item (turn_Items turn)) turn.

Definition findItem (turn : option TurnSnapshot) (id : string) : option Item :=
  t ← turn; List.find (λ i, bool_decide (item_ItemId i = id)) (turn_Items t).

(** ** Deltas *)

(** The text a delta is appended to: [&item.GetAgentMessage().Text] and its like. *)
Definition delta_target (content : option ItemContent) : option string :=
  match content with
  | Some (Item_AgentMessage text) | Some (Item_ReasoningSummary text) => Some text
  | Some (Item_Command c) => Some (cmd_Output c)
  | Some (Item_FileChange f) => Some (fci_UnifiedDiff f)
  | _ => None
  end.

Definition set_delta_target (text : string) (content : ItemContent) : ItemContent :=
  match content with
  | Item_AgentMessage _ => Item_AgentMessage text
  | Item_ReasoningSummary _ => Item_ReasoningSummary text
  | Item_Command c => Item_Command (set_cmd_Output text c)
  | Item_FileChange f => Item_FileChange (set_fci_UnifiedDiff text f)
  | content => content
  end.

(** The part of [text] that still fits behind [target]. *)
Definition fitting (budget : Z) (target text : string) : string :=
  let remaining := Z.max (budget - slen target) 0 in
  if remaining <? slen text then validUTF8Prefix text remaining else text.

(** The delta on the item it names; [false] when the item has no such text. *)
Definition append_delta (budget : Z) (text : string) (item : Item) : Item * bool :=
  match delta_target (item_Content item) with
  | None => (item, false)
  | Some target =>
      let original := slen target + slen text in
      let item' := set_item_Content (set_delta_target (target +:+ fitting budget target text) <$> item_Content item) item in
      (if budget <? original
       then set_item_Completeness (Some (mkCompleteness true true (u64 original) "content exceeds C/S frame budget")) item'
       else item', true)
  end.

(** The item a delta creates when none has its id, as the JSON it is translated from. *)
Definition delta_item_body (e : Adapter.Event) (text : string) : any :=
  let base := [("id", AStr (e_ItemID e)); ("text", AStr text)] in
  AMap [("item", AMap (base ++
    match e_Semantic e with
    | SemanticReasoningText | SemanticReasoningSummary => [("type", AStr "reasoning")]
    | SemanticCommandOutput | SemanticProcessOutput => [("type", AStr "commandExecution"); ("output", AStr text)]
    | SemanticFileChangeOutput => [("type", AStr "fileChange"); ("diff", AStr text)]
    | _ => [("type", AStr "agentMessage")]
    end))].

Definition delta_item (budget : Z) (turnID : string) (e : Adapter.Event) (text : string) : Item :=
  translateItem (default "" (json_encode (delta_item_body e text))) turnID (e_ItemID e) (e_Method e) (e_Semantic e) ITEM_STATUS_RUNNING
    budget PROVENANCE_KIND_LIVE_WIRE None.

(** Append to the first item with the id: the items and whether the text was taken, or
    [None] when no item has the id. *)
Fixpoint append_to (budget : Z) (id text : string) (items : list Item) : option (list Item * bool) :=
  match items with
  | [] => None
  | item :: items =>
      if bool_decide (item_ItemId item = id) then
        let '(item, taken) := append_delta budget text item in Some (item :: items, taken)
      else '(items, taken) ← append_to budget id text items; Some (item :: items, taken)
  end.

(** The turn after the delta and the text of the event. *)
Definition applyItemDelta (budget : Z) (turn : TurnSnapshot) (e : Adapter.Event) (text : string) : TurnSnapshot * string :=
  let event_text := (boundString text budget).1 in
  match append_to budget (e_ItemID e) text (turn_Items turn) with
  | Some (items, taken) => (set_turn_Items items turn, if taken then event_text else "")
  | None => (set_turn_Items (turn_Items turn ++ [delta_item budget (turn_TurnId turn) e text]) turn, event_text)
  end.

(** ** Pending requests *)

Definition pendingIDOf (p : PendingRequest) : string :=
  match p with
  | Pending_Approval a => apr_ApprovalId a
  | Pending_UserInput u => uir_UserInputRequestId u
  | Pending_None => ""
  end.

Definition upsertPending (pending : PendingRequest) (view : CurrentView) : CurrentView :=
  set_cv_PendingRequests (upsert pendingIDOf pending (cv_PendingRequests view)) view.

Definition pendingBelongsToCodex (c : Codex) (p : Adapter.PendingRequest) : bool :=
  negb (str_empty (p_ThreadID p)) && bool_decide (p_ThreadID p = cdx_ThreadId c).

Definition canonicalOptionID (index : nat) (label : string) : string :=
  "option-" +:+ pretty (Z.of_nat (S index)) +:+ "-" +:+ base64_encode RawURLEncoding label.

Definition pendingCreatedAt (wall : Z) (raw : string) : Z :=
  let body := rawObject raw in
  let startedAtMs := int64Number (get_member body "startedAtMs") in
  let createdAtMs := int64Number (get_member body "createdAtMs") in
  let createdAt := int64Number (get_member body "createdAt") in
  if negb (startedAtMs =? 0) then startedAtMs
  else if negb (createdAtMs =? 0) then createdAtMs
  else if negb (createdAt =? 0) then unixMillis createdAt
  else wall.

Definition canonical_question (q : Adapter.UserInputQuestion) : UserInputQuestion :=
  mkUserInputQuestion (uq_ID q) (uq_Header q) (uq_Question q) (uq_AllowsMultiple q) (uq_IsOther q)
    (imap (λ i o, mkUserInputOption (canonicalOptionID i (uo_Label o)) (uo_Label o) (uo_Description o)) (uq_Options q)).

Definition pendingFromAdapter (wall : Z) (p : Adapter.PendingRequest) : PendingRequest :=
  let createdAt := pendingCreatedAt wall (p_Params p) in
  if Contains (p_Method p) "requestUserInput" then
    Pending_UserInput (mkUserInputRequestState (p_ID p) (p_TurnID p) (p_ItemID p) (canonical_question <$> p_Questions p) createdAt
      false 0 [] None)
  else
    let body := rawObject (p_Params p) in
    Pending_Approval (mkApproval (p_ID p) (p_TurnID p) (p_ItemID p) (p_Method p) APPROVAL_STATUS_PENDING (firstString body ["title"])
      (firstText body ["reason"; "explanation"]) (commandArgv (get_member body "command"))
      [APPROVAL_DECISION_ALLOW; APPROVAL_DECISION_ALLOW_FOR_SESSION; APPROVAL_DECISION_DENY] APPROVAL_DECISION_UNSPECIFIED createdAt 0).

Definition resolvedUserInputState (wall : Z) (p : Adapter.PendingRequest) (answers : list UserInputAnswer) (resolvedAt : Z) : UserInputRequestState :=
  let '(questions, createdAt) :=
    match pendingFromAdapter wall p with
    | Pending_UserInput u => (uir_Questions u, uir_CreatedAtUnixMs u)
    | _ => ([], 0)
    end in
  mkUserInputRequestState (p_ID p) (p_TurnID p) (p_ItemID p) questions createdAt true resolvedAt answers None.

(** ** Answers *)

Definition invalid_request (message : string) : goerr := rpcErr ERROR_CODE_INVALID_REQUEST message.

(** [answers[id] = append(answers[id], label)]; the map is kept as a list of its entries. *)
Fixpoint add_answer (id label : string) (answers : list (string * list string)) : list (string * list string) :=
  match answers with
  | [] => [(id, [label])]
  | (k, ls) :: answers => if bool_decide (k = id) then (k, ls ++ [label]) :: answers else (k, ls) :: add_answer id label answers
  end.

(** The option with this id, in order of the options. *)
Fixpoint option_label (index : nat) (selected : string) (options : list Adapter.UserInputOption) : option string :=
  match options with
  | [] => None
  | opt :: options => if bool_decide (canonicalOptionID index (uo_Label opt) = selected) then Some (uo_Label opt) else option_label (S index) selected options
  end.

Fixpoint select_options (id : string) (options : list Adapter.UserInputOption) (selected : list string) (answers : list (string * list string))
    : res (list (string * list string)) :=
  match selected with
  | [] => Ok answers
  | s :: selected =>
      match option_label 0 s options with
      | None => Err (invalid_request ("unknown option_id " +:+ Quote s))
      | Some label => select_options id options selected (add_answer id label answers)
      end
  end.

(** The loop of [RespondUserInput] over the answers. *)
Fixpoint collect_answers (questions : list Adapter.UserInputQuestion) (given : list UserInputAnswer) (answers : list (string * list string))
    : res (list (string * list string)) :=
  match given with
  | [] => Ok answers
  | a :: given =>
      match List.find (λ q, bool_decide (uq_ID q = ans_QuestionId a)) questions with
      | None => Err (invalid_request ("unknown question_id " +:+ Quote (ans_QuestionId a)))
      | Some question =>
          match select_options (ans_QuestionId a) (uq_Options question) (ans_SelectedOptionIds a) answers with
          | Err e => Err e
          | Ok answers =>
              collect_answers questions given
                (if str_empty (ans_FreeFormText a) then answers else add_answer (ans_QuestionId a) (ans_FreeFormText a) answers)
          end
      end
  end.

(** ** Codex parameters, warnings, history *)

(** The status a thread reports, for a Codex with status [current]. *)
Definition thread_status (name : string) (current : CodexStatus) : CodexStatus :=
  match name with
  | "idle" | "inactive" => CODEX_STATUS_IDLE
  | "active" | "running" => if bool_decide (current = CODEX_STATUS_IDLE) then CODEX_STATUS_RUNNING else current
  | "error" | "failed" => CODEX_STATUS_ERROR
  | _ => current
  end.

Definition applyCodexParams (method raw : string) (c : Codex) : Codex :=
  let body := rawObject raw in
  if bool_decide (method = "thread/name/updated") then
    match member body "threadName" with
    | Some ANil => set_cdx_Title "" c
    | Some (AStr value) => set_cdx_Title value c
    | _ => c
    end
  else
    let body := match get_member body "thread" with AObj thread => thread | _ => body end in
    let title := firstString body ["name"; "title"] in
    let c := if str_empty title then c else set_cdx_Title title c in
    let status := match get_member body "status" with
                  | AObj object => firstString object ["type"; "status"; "kind"]
                  | _ => firstString body ["status"]
                  end in
    set_cdx_Status (thread_status (ToLower status) (cdx_Status c)) c.

Definition warningMessage (raw : string) : string :=
  let '(message, ok) := Unmarshal (dec_struct [("message", dec_string)]) raw "" in
  if ok && negb (str_empty message) then message else raw.

Definition canonicalItem (budget : Z) (e : Adapter.Event) (status : ItemStatus) (resolve : imageDescriptorResolver) : Item :=
  translateItem (e_Params e) (e_TurnID e) (canonicalEventItemID e) (e_Method e) (e_Semantic e) status budget PROVENANCE_KIND_LIVE_WIRE (Some resolve).

Definition attachmentDescriptorProto (d : Descriptor) : ImageAttachment :=
  let pixels n := if n =? 0 then None else Some n in
  mkImageAttachment (de_AttachmentID d) (de_Filename d) (de_MIMEType d) (de_SizeBytes d) (de_SHA256 d)
    (pixels (de_WidthPixels d)) (pixels (de_HeightPixels d)).

(** [describe] is [DescribePath] of the attachment service, if there is one. *)
Definition imageResolverForOwner (describe : option (string → string → res Descriptor)) (ownerID : string) : imageDescriptorResolver := λ path,
  match describe with
  | Some describe =>
      if str_empty ownerID then Err (ErrText "image attachment resolver is unavailable")
      else match describe ownerID path with Ok d => Ok (Some (attachmentDescriptorProto d)) | Err e => Err e end
  | None => Err (ErrText "image attachment resolver is unavailable")
  end.

Definition attachmentRPCError (e : goerr) : goerr :=
  if errorsIs e ErrAttachmentNotFound then rpcErr ERROR_CODE_IMAGE_ATTACHMENT_NOT_FOUND (error_text e)
  else if errorsIs e ErrTooLarge then rpcErr ERROR_CODE_IMAGE_ATTACHMENT_TOO_LARGE (error_text e)
  else if errorsIs e ErrMIMEUnsupported then rpcErr ERROR_CODE_IMAGE_ATTACHMENT_MIME_TYPE_UNSUPPORTED (error_text e)
  else if errorsIs e ErrContentInvalid then rpcErr ERROR_CODE_IMAGE_ATTACHMENT_CONTENT_INVALID (error_text e)
  else if errorsIs e ErrHashMismatch then rpcErr ERROR_CODE_IMAGE_ATTACHMENT_HASH_MISMATCH (error_text e)
  else e.

Section Snapshots.
Context `{PJ : ProtoJSON} (ContentBudget : Z).

(** One imported item; [i] is its place in the turn. *)
Definition imported_item (resolve : imageDescriptorResolver) (turnID : string) (i : nat) (raw : string) : Item :=
  let id := firstString (rawObject raw) ["id"; "itemId"] in
  let id := if str_empty id then turnID +:+ "-" +:+ pretty (Z.of_nat i) else id in
  translateItem raw turnID id "imported" SemanticUnknown ITEM_STATUS_COMPLETED (contentBudget ContentBudget)
    PROVENANCE_KIND_IMPORTED_HISTORY (Some resolve).

Definition turn_failure_value (e : TurnError) : any :=
  AMap ([("message", AStr (te_Message e)); ("codexErrorInfo", ARaw (te_CodexErrorInfo e))] ++
        match te_AdditionalDetails e with Some d => [("additionalDetails", AStr d)] | None => [] end).

Definition turnSnapshot (resolve : imageDescriptorResolver) (t : Turn) : TurnSnapshot :=
  let status := turnStatus (tn_Status t) in
  let failure := e ← tn_Error t; turnFailure (turn_failure_value e) in
  let status := if bool_decide (is_Some (tn_Error t)) && bool_decide (status = TURN_STATUS_COMPLETED) then TURN_STATUS_FAILED else status in
  let reason := "app-server did not provide full turn items" +:+
                (if str_empty (tn_ItemsView t) then "" else " (itemsView=" +:+ tn_ItemsView t +:+ ")") in
  let complete := if bool_decide (tn_Completeness t = TurnCompletenessFull) then None else Some (mkCompleteness false true 0 reason) in
  let items := imap (imported_item resolve (tn_ID t)) (tn_Items t) in
  boundTurnSnapshot ContentBudget
    (mkTurnSnapshot (tn_ID t) status (match tn_StartedAt t with Some x => unixMillis x | None => 0 end)
       (match tn_CompletedAt t with Some x => unixMillis x | None => 0 end) items failure
       (foldl mergeCompleteness complete (item_Completeness <$> items)) PROVENANCE_KIND_IMPORTED_HISTORY).

End Snapshots.
