(* ===== verification/ManagerTurns.v ===== *)
(** * Turns, answers and events (internal/codex/manager.go)

    The handlers that move a turn: starting and interrupting it, answering what it asks,
    and applying the adapter's events.  They work on the manager and the adapter together
    ([MH]).  A handler that runs in several critical sections of [commitMu] is the
    composition of its sections, each a function of its own ([setRunning],
    [publishAcceptedUserMessage], [resolvePending], [renewLease],
    [applyAdapterEventLocked]); other handlers may run between two of them.

    An item or request of an event is the object that is also in the view, so what
    bounding the one cuts is gone from the other as well ([share_into], [share_from]).  A
    view without its Codex, on which the code would panic, is never registered. *)

From Stdlib Require Import Ascii String.
From stdpp Require Import base tactics numbers list gmap strings pretty.
From S2P Require Import Prelude GoError GoStrings Float64 Json Client Adapter Remote Persistence Activity HostEvents Workspace Base64 Attachments Budget Translate Manager ManagerWorkspace ManagerItems.
Local Open Scope string_scope.
Local Open Scope Z_scope.
Local Open Scope list_scope.

Notation MH := (M (MState * Adapter)).

Definition mgr {A} (m : MM A) : MH A := zoom fst (λ s h, (s, h.2)) m.
Definition adp {A} (m : M Adapter A) : MH A := zoom snd (λ a h, (h.1, a)) m.

(** [m.Runtime.Adapter()]: [Some e] when the runtime is not ready. *)
Definition need_adapter {S} (wrap : goerr → goerr) (runtime : option goerr) : M S unit :=
  match runtime with Some e => throw (wrap e) | None => mret tt end.

Definition runtime_unavailable (e : goerr) : goerr := rpcErr ERROR_CODE_RUNTIME_UNAVAILABLE (error_text e).

(** ** Errors of the app-server *)

Definition unmaterializedIncludeTurnsSuffix : string :=
  " is not materialized yet; includeTurns is unavailable before first user message".
Definition unmaterializedResumePrefix : string := "no rollout found for thread id ".

Definition normalizeUnmaterializedResume (c : Codex) (e : goerr) : bool :=
  if bool_decide (cdx_Origin c ≠ CODEX_ORIGIN_REMOTE_CREATED) then false
  else match errorsAsAppServer e with
  | Some (code, message) => (code =? -32600) && bool_decide (message = unmaterializedResumePrefix +:+ cdx_ThreadId c)
  | None => false
  end.

Definition normalizeUnmaterializedHistory (c : Codex) (e : goerr) : bool :=
  if bool_decide (cdx_Origin c ≠ CODEX_ORIGIN_REMOTE_CREATED) then false
  else match errorsAsAppServer e with
  | Some (code, message) =>
      (code =? -32600) && (bool_decide (message = "thread " +:+ cdx_ThreadId c +:+ unmaterializedIncludeTurnsSuffix)
                           || bool_decide (message = unmaterializedResumePrefix +:+ cdx_ThreadId c))
  | None => false
  end.

(** [strings.EqualFold] with an ASCII text. *)
Definition forgottenSessionNotFound (e : goerr) : bool :=
  match errorsAsAppServer e with
  | Some (code, message) => (code =? -32004) && bool_decide (fold_name (chars (TrimSpace message)) = chars "thread not found")
  | None => false
  end.

(** [errors.Join] with an error that may be nil. *)
Definition join_opt (first : option goerr) (e : goerr) : goerr := match first with Some f => ErrJoin f e | None => e end.

(** Run [m]; an error is also noted. *)
Definition noting {A} (m : MM A) : MM A :=
  r ← attempt m;
  match r with
  | Ok a => mret a
  | Err e => _ ← noteAsyncError e; throw e
  end.

Section Turns.
Context `{PJ : ProtoJSON} (cfg : ManagerConfig) (audit : Event → option string).

Notation CB := (mc_ContentBudget cfg).

(** ** Starting a turn *)

(** The view of a Codex whose turn [turnID] was started at [now]. *)
Definition running_codex (now : Z) (turnID : string) (c : Codex) : Codex :=
  let c := if bool_decide (cdx_Status c ≠ CODEX_STATUS_WAITING_FOR_APPROVAL) && bool_decide (cdx_Status c ≠ CODEX_STATUS_WAITING_FOR_USER_INPUT)
           then set_cdx_Status CODEX_STATUS_RUNNING c else c in
  let c := set_cdx_LastActivityAtUnixMs (UnixMilli now) (set_cdx_ActiveTurnId turnID c) in
  set_cdx_ManagedUntilUnixMs (UnixMilli (now + leaseDuration cfg)) (set_cdx_ManagementState MANAGEMENT_STATE_MANAGED c).

Definition running_turn (now : Z) (turnID : string) (v : CurrentView) : TurnSnapshot :=
  match cv_ActiveTurn v with
  | Some t =>
      if bool_decide (turn_TurnId t = turnID) then
        let t := set_turn_Status TURN_STATUS_RUNNING t in
        if turn_StartedAtUnixMs t =? 0 then set_turn_StartedAtUnixMs (UnixMilli now) t else t
      else new_turn turnID (UnixMilli now)
  | None => new_turn turnID (UnixMilli now)
  end.

Definition running_view (now : Z) (turnID : string) (v : CurrentView) : CurrentView :=
  boundCurrentView CB (set_cv_GeneratedAtUnixMs (UnixMilli now)
    (set_cv_ActiveTurn (Some (running_turn now turnID v)) (with_codex (running_codex now turnID) v))).

(** The turn runs at the app-server already, so the snapshot is kept whatever fails. *)
Definition setRunning (now wall : Z) (id turnID requestID : string) : MM unit :=
  v ← gets (λ s, mg_byID s !! id);
  match v with
  | None => throw codex_not_found
  | Some v =>
      let snapshot := running_view now turnID v in
      _ ← put_deadline id 0;
      r ← attempt (persistState snapshot);
      _ ← put_view id snapshot;
      noting (
        _ ← of_res r;
        _ ← publishEvent audit wall (mkEvent id 0 (UnixMilli now) requestID None
              (Some (Event_TurnUpdated (mkTurnUpdated turnID TURN_STATUS_RUNNING (UnixMilli now) 0 None)))) snapshot;
        match cv_Codex snapshot with
        | Some c => publishCodex cfg audit wall c requestID
        | None => mret tt
        end)
  end.

Definition accepted_item (turnID : string) (parts : list UserMessagePart) : Item :=
  (boundItem (mkItem (turnID +:+ ":user-message") turnID ITEM_STATUS_COMPLETED (Some (Item_UserMessage parts)) None PROVENANCE_KIND_LIVE_WIRE)
     (contentBudget CB)).1.

(** The item joins the running turn; its completeness is the turn's and the view's. *)
Definition view_with_item (wall : Z) (turnID : string) (item : Item) (v : CurrentView) : CurrentView :=
  let v := with_turn (upsertItem item) (ensureActiveTurn wall turnID v) in
  let v := with_turn (λ t, set_turn_Completeness (mergeCompleteness (turn_Completeness t) (item_Completeness item)) t) v in
  set_cv_Completeness (mergeCompleteness (cv_Completeness v) (item_Completeness item)) v.

Definition publishAcceptedUserMessage (now wall : Z) (codexID turnID : string) (parts : list UserMessagePart) (requestID : string) : MM unit :=
  let item := accepted_item turnID parts in
  found ← gets (λ s, find_view s codexID);
  match found with
  | None => throw codex_not_found
  | Some (view, _) =>
      let snapshot := set_cv_GeneratedAtUnixMs (UnixMilli now) (view_with_item wall turnID item view) in
      noting (
        _ ← persistState snapshot;
        _ ← put_view codexID snapshot;
        _ ← publishEvent audit wall (boundCanonicalEvent CB (mkEvent codexID 0 (UnixMilli now) requestID None (Some (Event_ItemCompleted item)))) snapshot;
        mret tt)
  end.

(** A part of the input of a turn. *)
Inductive TurnInputPart := InputText (text : string) | InputImage (attachmentID : string) | InputEmpty.

(** [resolve] is [Resolve] of the attachment service, if there is one. *)
Fixpoint accept_input (resolve : option (string → string → res (Descriptor * string))) (ownerID : string) (parts : list TurnInputPart)
    : res (list TurnInput * list UserMessagePart) :=
  match parts with
  | [] => Ok ([], [])
  | part :: parts =>
      let accepted :=
        match part with
        | InputText text => Ok (mkTurnInput "text" text "", PartText text)
        | InputImage id =>
            match resolve with
            | None => Err (rpcErr ERROR_CODE_CAPABILITY_NOT_SUPPORTED "image attachments are not enabled")
            | Some resolve =>
                match resolve ownerID id with
                | Ok (d, path) => Ok (mkTurnInput "localImage" "" path, PartImage (attachmentDescriptorProto d))
                | Err e => Err (attachmentRPCError e)
                end
            end
        | InputEmpty => Err (invalid_request "turn input part is empty")
        end in
      match accepted with
      | Err e => Err e
      | Ok (i, p) =>
          match accept_input resolve ownerID parts with
          | Err e => Err e
          | Ok (inputs, ps) => Ok (i :: inputs, p :: ps)
          end
      end
  end.

(** [StartTurnRequest]; the options are the adapter's, all empty when there are none. *)
Record StartTurnRequest := mkStartTurn {
  rq_CodexId : string;
  rq_Input : list TurnInputPart;
  rq_Options : TurnOptions;
}.

(** [runtime] and [call] are the adapter of the moment, [ctxErr] what ends a wait. *)
Definition StartTurn (runtime : option goerr) (call : string → any → res Message) (resolve : option (string → string → res (Descriptor * string)))
    (ctxErr : goerr) (now wall : Z) (req : StartTurnRequest) (requestID : string) : MH string :=
  c ← mgr (lookup_codex (rq_CodexId req));
  if bool_decide (cdx_Status c ≠ CODEX_STATUS_IDLE) then throw (rpcErr ERROR_CODE_TURN_ALREADY_RUNNING "turn already active") else
  _ ← need_adapter runtime_unavailable runtime;
  _ ← (if bool_decide (cdx_ManagementState c = MANAGEMENT_STATE_UNMANAGED) then
         match (ResumeThread call (cdx_ThreadId c)).2 with
         | Some e => if normalizeUnmaterializedResume c e then mret tt else throw e
         | None => mret tt
         end
       else mret tt);
  ownerID ← mgr (gets (λ s, get_str (mg_logicalOwners s) (rq_CodexId req)));
  accepted ← of_res (accept_input resolve ownerID (rq_Input req));
  match Adapter.StartTurn call (cdx_ThreadId c) accepted.1 (rq_Options req) with
  | (_, Some e) => throw e
  | (turn, None) =>
      _ ← adp (modify (markActive (cdx_ThreadId c) (tn_ID turn)));
      w ← mgr (attempt (noting (WorkspaceAgentStarted audit ctxErr now wall (rq_CodexId req) (tn_ID turn))));
      let workspaceErr := match w with Err e => Some e | Ok _ => None end in
      r ← mgr (attempt (_ ← setRunning now wall (rq_CodexId req) (tn_ID turn) requestID;
                        publishAcceptedUserMessage now wall (rq_CodexId req) (tn_ID turn) accepted.2 requestID));
      match r, workspaceErr with
      | Err e, _ => throw (join_opt workspaceErr e)
      | Ok _, Some e => throw e
      | Ok _, None => mret (tn_ID turn)
      end
  end.

Definition InterruptTurn (runtime : option goerr) (call : string → any → res Message) (now wall : Z) (codexID turnID : string) : MH string :=
  c ← mgr (lookup_codex codexID);
  if str_empty (cdx_ActiveTurnId c) || bool_decide (cdx_ActiveTurnId c ≠ turnID)
  then throw (rpcErr ERROR_CODE_TURN_NOT_RUNNING "turn is not active")
  else
    _ ← need_adapter id runtime;
    match Adapter.InterruptTurn call (cdx_ThreadId c) turnID with
    | Some e => throw e
    | None => _ ← mgr (renewLease cfg audit now wall codexID); mret turnID
    end.

(** ** Answering the app-server *)

Definition pending_kind (p : PendingRequest) : string := match p with Pending_UserInput _ => "user_input" | _ => "approval" end.

(** The view once the request is gone. *)
Definition view_without (wall : Z) (pendingID : string) (v : CurrentView) : CurrentView :=
  let out := filter (λ p, pendingIDOf p ≠ pendingID) (cv_PendingRequests v) in
  let v := set_cv_PendingRequests out v in
  let v := match out with
           | [] => with_codex (set_cdx_Status (match cv_ActiveTurn v with Some _ => CODEX_STATUS_RUNNING | None => CODEX_STATUS_IDLE end)) v
           | _ => v
           end in
  boundCurrentView CB (set_cv_GeneratedAtUnixMs wall v).

Definition event_pending (default : PendingRequest) (ev : Event) : PendingRequest :=
  match ev_Payload ev with Some (Event_PendingRequestUpdated r) => r | _ => default end.

(** The view is changed where it is, before it is persisted; the request is changed where
    it is as well, and is returned as it was published. *)
Definition resolvePending (wall : Z) (codexID pendingID : string) (resolved : PendingRequest) (requestID : string) : MM PendingRequest :=
  let '(resolved, complete) := boundPendingRequest resolved (eventPayloadBudget CB) in
  raw ← of_res (Marshal (MsgPending resolved));
  _ ← store (SaveResolvedPending wall codexID pendingID (pending_kind resolved) raw);
  view ← gets (λ s, mg_byID s !! codexID);
  match view with
  | None => fail_msg "current view missing while resolving pending request"
  | Some view =>
      let snapshot := view_without wall pendingID view in
      _ ← put_view codexID snapshot;
      _ ← persistState snapshot;
      let event := boundCanonicalEvent CB (mkEvent codexID 0 wall requestID complete (Some (Event_PendingRequestUpdated resolved))) in
      _ ← publishEvent audit wall event snapshot;
      mret (event_pending resolved event)
  end.

Definition decision_name (d : ApprovalDecision) : string :=
  match d with
  | APPROVAL_DECISION_ALLOW => "accept"
  | APPROVAL_DECISION_ALLOW_FOR_SESSION => "acceptForSession"
  | APPROVAL_DECISION_DENY => "decline"
  | APPROVAL_DECISION_UNSPECIFIED => ""
  end.

Definition resolved_approval (wall : Z) (id : string) (p : Adapter.PendingRequest) (d : ApprovalDecision) : Approval :=
  mkApproval id (p_TurnID p) (p_ItemID p) "" (if bool_decide (d ≠ APPROVAL_DECISION_DENY) then APPROVAL_STATUS_ALLOWED else APPROVAL_STATUS_DENIED)
    "" "" [] [] d 0 wall.

(** Why a request that is not pending is not answered. *)
Definition not_pending {A} (codexID id kind : string) (resolved missing : goerr) : MH A :=
  r ← mgr (attempt (store (ResolvedPending codexID id)));
  match r with
  | Ok (k, _) => throw (if bool_decide (k = kind) then resolved else missing)
  | Err _ => throw missing
  end.

(** [conn] is how the answer can be written to the app-server. *)
Definition RespondApproval (runtime : option goerr) (conn : res unit) (now wall : Z) (codexID id : string) (decision : ApprovalDecision)
    (requestID : string) : MH Approval :=
  c ← mgr (lookup_codex codexID);
  _ ← need_adapter Datatypes.id runtime;
  if str_empty (decision_name decision) then throw (invalid_request "invalid approval decision") else
  p ← adp (gets (Pending id));
  match p with
  | None => not_pending codexID id "approval" (rpcErr ERROR_CODE_APPROVAL_ALREADY_RESOLVED "approval already resolved")
              (rpcErr ERROR_CODE_APPROVAL_NOT_FOUND "approval not pending")
  | Some p =>
      if negb (pendingBelongsToCodex c p) then throw (rpcErr ERROR_CODE_APPROVAL_NOT_FOUND "approval does not belong to codex")
      else
        _ ← adp (Adapter.RespondApproval id (decision_name decision) conn);
        let resolved := resolved_approval wall id p decision in
        answered ← mgr (resolvePending wall codexID id (Pending_Approval resolved) requestID);
        _ ← mgr (renewLease cfg audit now wall codexID);
        mret match answered with Pending_Approval a => a | _ => resolved end
  end.

Definition RespondUserInput (runtime : option goerr) (conn : res unit) (now wall : Z) (codexID id : string) (given : list UserInputAnswer)
    (requestID : string) : MH UserInputRequestState :=
  c ← mgr (lookup_codex codexID);
  _ ← need_adapter Datatypes.id runtime;
  p ← adp (gets (Pending id));
  match p with
  | None => not_pending codexID id "user_input" (rpcErr ERROR_CODE_USER_INPUT_ALREADY_RESOLVED "user input already resolved")
              (rpcErr ERROR_CODE_USER_INPUT_REQUEST_NOT_FOUND "user input not pending")
  | Some p =>
      if negb (pendingBelongsToCodex c p) then throw (rpcErr ERROR_CODE_USER_INPUT_REQUEST_NOT_FOUND "user input does not belong to codex")
      else
        answers ← of_res (collect_answers (p_Questions p) given []);
        _ ← adp (Adapter.RespondUserInput id answers conn);
        let resolved := resolvedUserInputState wall p given wall in
        answered ← mgr (resolvePending wall codexID id (Pending_UserInput resolved) requestID);
        _ ← mgr (renewLease cfg audit now wall codexID);
        mret match answered with Pending_UserInput u => u | _ => resolved end
  end.

(** ** Events of the adapter *)

(** What an event does: the new view, the payload to publish and its completeness. *)
Record change := mkChange {
  cg_view : CurrentView;
  cg_payload : EventPayload;
  cg_completeness : option Completeness;
}.

Definition no_codex : Codex :=
  mkCodex "" "" "" "" CODEX_ORIGIN_UNSPECIFIED CODEX_STATUS_UNSPECIFIED "" MANAGEMENT_STATE_UNSPECIFIED 0 0 0 0 [].

Definition codex_change (wall : Z) (e : Adapter.Event) (manualTitle : bool) (v : CurrentView) : change :=
  let update c :=
    let c' := applyCodexParams (e_Method e) (e_Params e) c in
    set_cdx_LastActivityAtUnixMs wall (if manualTitle then set_cdx_Title (cdx_Title c) c' else c') in
  let v := with_codex update v in
  mkChange v (Event_CodexUpdated (default no_codex (cv_Codex v))) None.

Definition event_turn_id (e : Adapter.Event) : string :=
  if str_empty (e_TurnID e) then firstString (rawObject (e_Params e)) ["turnId"; "id"] else e_TurnID e.

Definition ended_codex (wall : Z) (status : TurnStatus) (c : Codex) : Codex :=
  set_cdx_LastActivityAtUnixMs wall (set_cdx_ActiveTurnId ""
    (set_cdx_Status (if bool_decide (status = TURN_STATUS_FAILED) then CODEX_STATUS_ERROR else CODEX_STATUS_IDLE) c)).

Definition turn_change (wall : Z) (e : Adapter.Event) (v : CurrentView) : change :=
  let '(status, started, completed, failure) := turnEvent e in
  let turnID := event_turn_id e in
  let payload := Event_TurnUpdated (mkTurnUpdated turnID status started completed failure) in
  if bool_decide (status = TURN_STATUS_RUNNING) then
    let v := ensureActiveTurn wall turnID v in
    mkChange (if started =? 0 then v else with_turn (set_turn_StartedAtUnixMs started) v) payload None
  else mkChange (set_cv_ActiveTurn None (with_codex (ended_codex wall status) v)) payload None.

Definition item_change (wall : Z) (resolve : imageDescriptorResolver) (e : Adapter.Event) (v : CurrentView) : change :=
  let status := if bool_decide (e_Kind e = EventItemCompleted) then ITEM_STATUS_COMPLETED else ITEM_STATUS_RUNNING in
  let item := canonicalItem (contentBudget CB) e status resolve in
  let payload := match e_Kind e with
                 | EventItemStarted => Event_ItemStarted item
                 | EventItemUpdated => Event_ItemUpdated item
                 | _ => Event_ItemCompleted item
                 end in
  mkChange (view_with_item wall (e_TurnID e) item v) payload (item_Completeness item).

Definition delta_change (wall : Z) (chunk : Z) (e : Adapter.Event) (v : CurrentView) : change :=
  let text := eventText e in
  let '(turn, bounded) := applyItemDelta (contentBudget CB) (active_turn wall (e_TurnID e) v) e text in
  let complete := i ← findItem (Some turn) (e_ItemID e); item_Completeness i in
  let turn := set_turn_Completeness (mergeCompleteness (turn_Completeness turn) complete) turn in
  let v := set_cv_Completeness (mergeCompleteness (cv_Completeness v) complete) (set_cv_ActiveTurn (Some turn) v) in
  let delta := if bool_decide (e_Semantic e = SemanticCommandOutput) || bool_decide (e_Semantic e = SemanticProcessOutput)
               then Delta_CommandOutput (outputStream (e_Stream e)) bounded else Delta_Text bounded in
  mkChange v (Event_ItemDelta (mkItemDelta (e_TurnID e) (e_ItemID e) chunk delta)) (boundString text (contentBudget CB)).2.

Definition pending_change (pending : PendingRequest) (v : CurrentView) : change :=
  let status := match pending with Pending_Approval _ => CODEX_STATUS_WAITING_FOR_APPROVAL | _ => CODEX_STATUS_WAITING_FOR_USER_INPUT end in
  mkChange (with_codex (set_cdx_Status status) (upsertPending pending v)) (Event_PendingRequestUpdated pending) None.

Definition warning_change (e : Adapter.Event) (v : CurrentView) : change :=
  let message := warningMessage (e_Params e) in
  let message := if bool_decide (e_Kind e = EventVendor) then "unmapped app-server event " +:+ e_Method e +:+ ": " +:+ message else message in
  let warning := mkWarning WARNING_CODE_UNSPECIFIED message 0 {[ "vendor_method" := e_Method e ]} in
  mkChange (with_codex (λ c, set_cdx_Warnings (cdx_Warnings c ++ [warning]) c) v) (Event_WarningRaised warning) None.

Definition adapter_change (wall : Z) (resolve : imageDescriptorResolver) (manualTitle : bool) (chunk : Z) (pending : PendingRequest)
    (e : Adapter.Event) (v : CurrentView) : change :=
  match e_Kind e with
  | EventCodexUpdated => codex_change wall e manualTitle v
  | EventTurnUpdated => turn_change wall e v
  | EventItemStarted | EventItemUpdated | EventItemCompleted => item_change wall resolve e v
  | EventItemDelta => delta_change wall chunk e v
  | EventPendingRequestUpdated => pending_change pending v
  | EventWarningRaised | EventVendor => warning_change e v
  end.

(** The item or request of the event is the view's own. *)
Definition share_into (p : EventPayload) (v : CurrentView) : CurrentView :=
  match p with
  | Event_ItemStarted item | Event_ItemUpdated item | Event_ItemCompleted item => with_turn (upsertItem item) v
  | Event_PendingRequestUpdated r => upsertPending r v
  | _ => v
  end.

Definition share_from (v : CurrentView) (p : EventPayload) : EventPayload :=
  let current item := default item (findItem (cv_ActiveTurn v) (item_ItemId item)) in
  match p with
  | Event_ItemStarted item => Event_ItemStarted (current item)
  | Event_ItemUpdated item => Event_ItemUpdated (current item)
  | Event_ItemCompleted item => Event_ItemCompleted (current item)
  | Event_PendingRequestUpdated r =>
      Event_PendingRequestUpdated (default r (List.find (λ q, bool_decide (pendingIDOf q = pendingIDOf r)) (cv_PendingRequests v)))
  | p => p
  end.

(** Bounding the event and the view. *)
Definition settle (wall : Z) (id : string) (g : change) : CurrentView * Event :=
  let ev := boundCanonicalEvent CB (mkEvent id 0 wall "" (cg_completeness g) (Some (cg_payload g))) in
  let v := set_cv_GeneratedAtUnixMs wall (cg_view g) in
  let v := match ev_Payload ev with Some p => share_into p v | None => v end in
  let v := match ev_Completeness ev with
           | Some c => addBudgetWarning "canonical_event" (set_cv_Completeness (mergeCompleteness (cv_Completeness v) (Some c)) v)
           | None => v
           end in
  let v := boundCurrentView CB v in
  (v, set_ev_Payload (share_from v <$> ev_Payload ev) ev).

Definition set_e_ItemID (x : string) (r : Adapter.Event) : Adapter.Event :=
  Adapter.mkEvent (e_Kind r) (e_Semantic r) (e_Method r) (e_ThreadID r) (e_TurnID r) x (e_PendingID r) (e_Params r)
    (e_Text r) (e_Encoding r) (e_Stream r) (e_Diff r) (e_Plan r).

Definition chunk_key (id : string) (e : Adapter.Event) : string := (id +:+ nul +:+ e_TurnID e +:+ nul +:+ e_ItemID e)%string.

(** [m.chunks[key]++] for a delta. *)
Definition next_chunk (id : string) (e : Adapter.Event) : MM Z :=
  if bool_decide (e_Kind e = EventItemDelta) then
    chunk ← gets (λ s, u64_incr (get_int (mg_chunks s) (chunk_key id e)));
    _ ← modify (λ s, set_mg_chunks (<[chunk_key id e := chunk]> (mg_chunks s)) s);
    mret chunk
  else mret 0.

(** The request the event announces, as the adapter still holds it. *)
Definition canonical_pending (runtime : option goerr) (wall : Z) (e : Adapter.Event) : MH PendingRequest :=
  if bool_decide (e_Kind e = EventPendingRequestUpdated) then
    _ ← need_adapter id runtime;
    p ← adp (gets (Pending (e_PendingID e)));
    match p with
    | None => fail_msg ("pending request " +:+ Quote (e_PendingID e) +:+ " disappeared before canonicalization")
    | Some p => mret (pendingFromAdapter wall p)
    end
  else mret Pending_None.

(** The part under [mu]: the new view is shown and the event made. *)
Definition apply_change (describe : option (string → string → res Descriptor)) (wall : Z) (id : string) (e : Adapter.Event) (pending : PendingRequest)
    (old : CurrentView) : MM (CurrentView * Event) :=
  chunk ← next_chunk id e;
  manual ← gets (λ s, get_bool (mg_manualTitle s) id);
  owner ← gets (λ s, get_str (mg_logicalOwners s) id);
  let '(view, ev) := settle wall id (adapter_change wall (imageResolverForOwner describe owner) manual chunk pending e old) in
  _ ← put_view id view;
  mret (view, ev).

Definition applyAdapterEventLocked (runtime : option goerr) (describe : option (string → string → res Descriptor)) (wall : Z) (e : Adapter.Event) : MH unit :=
  let e := set_e_ItemID (canonicalEventItemID e) e in
  pending ← canonical_pending runtime wall e;
  mgr (
    id ← gets (λ s, get_str (mg_byThread s) (e_ThreadID e));
    old ← gets (λ s, mg_byID s !! id);
    match old with
    | None => mret tt
    | Some old =>
        if str_empty id then mret tt
        else
          r ← apply_change describe wall id e pending old;
          let '(view, ev) := r in
          _ ← persistState view;
          _ ← publishEvent audit wall ev view;
          if bool_decide (e_Kind e = EventTurnUpdated) then
            match cv_Codex view with Some c => publishCodex cfg audit wall c "" | None => mret tt end
          else mret tt
    end).

(** After the end of a turn its agent has stopped. *)
Definition stop_turn_agent (ctxErr : goerr) (now wall : Z) (token : string) (e : Adapter.Event) (turnID : string) : MM unit :=
  codexID ← gets (λ s, get_str (mg_byThread s) (e_ThreadID e));
  child ← gets (λ s, get_str (mg_workspaceChildCodex s) (e_ThreadID e));
  if negb (str_empty child) then
    _ ← modify (λ s, let o := default no_observation (mg_workspaceChildState s !! e_ThreadID e) in
          set_mg_workspaceChildState (<[e_ThreadID e := mkChildObservation (co_ItemID o) true]> (mg_workspaceChildState s)) s);
    WorkspaceAgentStopped audit ctxErr now wall token child (subagent (e_ThreadID e))
  else if negb (str_empty codexID) then WorkspaceAgentStopped audit ctxErr now wall token codexID turnID
  else mret tt.

(** [tokens 0] is drawn by the turn's agent, the others by subagents. *)
Definition applyAdapterEvent (runtime : option goerr) (describe : option (string → string → res Descriptor)) (ctxErr : goerr) (now wall : Z)
    (tokens : nat → string) (e : Adapter.Event) : MH unit :=
  _ ← mgr (applyCollabAgentItem audit ctxErr now wall (λ n, tokens (S n)) e);
  let turnID := event_turn_id e in
  let terminal := bool_decide (e_Kind e = EventTurnUpdated) && bool_decide ((turnEvent e).1.1.1 ≠ TURN_STATUS_RUNNING) in
  _ ← applyAdapterEventLocked runtime describe wall e;
  if terminal && negb (str_empty turnID) then mgr (stop_turn_agent ctxErr now wall (tokens O) e turnID) else mret tt.

(** [RunEvents], one event after the other: what fails is noted and the loop goes on. *)
Fixpoint RunEvents (runtime : option goerr) (describe : option (string → string → res Descriptor)) (ctxErr : goerr) (now wall : Z)
    (tokens : nat → nat → string) (es : list Adapter.Event) : MH unit :=
  match es with
  | [] => mret tt
  | e :: es =>
      r ← attempt (applyAdapterEvent runtime describe ctxErr now wall (tokens (length es)) e);
      _ ← (match r with Err err => mgr (noteAsyncError err) | Ok _ => mret tt end);
      RunEvents runtime describe ctxErr now wall tokens es
  end.

End Turns.
