(* ===== verification/ManagerQueries.v ===== *)
(** * Queries and pages (internal/codex/manager.go)

    The handlers that only look: the Host's state, directories, session candidates, the
    managed Codexes, a thread's history, a workspace directory.  Long answers come in
    pages; the token of the next page is JSON in base64 and names the operation and the
    query it belongs to. *)

From Stdlib Require Import Ascii String.
From stdpp Require Import base tactics numbers list sorting gmap strings pretty.
From S2P Require Import Prelude GoError GoStrings GoPath FileSystem Float64 Json Client Adapter Runtime Remote Persistence Activity HostEvents Workspace WorkspaceFiles WorkspaceService Base64 Attachments Capability Directory Sessions Budget Translate Manager ManagerWorkspace ManagerItems ManagerTurns.
Local Open Scope string_scope.
Local Open Scope Z_scope.
Local Open Scope list_scope.

(** ** Page tokens *)

Record pageToken := mkPageToken {
  pt_Operation : string;
  pt_Query : string;
  pt_Offset : Z;  (* a Go int *)
  pt_Cursor : string;
}.

Definition set_pt_Operation (x : string) (t : pageToken) : pageToken := mkPageToken x (pt_Query t) (pt_Offset t) (pt_Cursor t).
Definition set_pt_Query (x : string) (t : pageToken) : pageToken := mkPageToken (pt_Operation t) x (pt_Offset t) (pt_Cursor t).
Definition set_pt_Offset (x : Z) (t : pageToken) : pageToken := mkPageToken (pt_Operation t) (pt_Query t) x (pt_Cursor t).
Definition set_pt_Cursor (x : string) (t : pageToken) : pageToken := mkPageToken (pt_Operation t) (pt_Query t) (pt_Offset t) x.

Definition dec_pageToken : decoder pageToken := dec_struct
  [("op", field pt_Operation set_pt_Operation dec_string); ("query", field pt_Query set_pt_Query dec_string);
   ("offset", field pt_Offset set_pt_Offset dec_int64); ("cursor", field pt_Cursor set_pt_Cursor dec_string)].

Definition token_json (t : pageToken) : any :=
  AObj ([("op", AStr (pt_Operation t)); ("query", AStr (pt_Query t))] ++
        (if pt_Offset t =? 0 then [] else [("offset", AInt (pt_Offset t))]) ++
        (if str_empty (pt_Cursor t) then [] else [("cursor", AStr (pt_Cursor t))])).

Definition encodePageToken (t : pageToken) : string := base64_encode RawURLEncoding (default "" (json_encode (token_json t))).

Definition decodePageToken (value operation query : string) : res pageToken :=
  match base64_decode RawURLEncoding value with
  | None => Err (ErrText "invalid page token")
  | Some raw =>
      match Unmarshal dec_pageToken raw (mkPageToken "" "" 0 "") with
      | (t, true) =>
          if bool_decide (pt_Operation t = operation) && bool_decide (pt_Query t = query) then Ok t
          else Err (ErrText "page token does not match operation and normalized query")
      | (_, false) => Err (ErrText "page token does not match operation and normalized query")
      end
  end.

(** [PageRequest]; an absent one reads as one with zero fields. *)
Record PageRequest := mkPageRequest { pq_PageSize : Z; pq_PageToken : string }.

Definition pageSize (p : PageRequest) (max : Z) : Z :=
  let n := if 0 <? pq_PageSize p then pq_PageSize p else 50 in
  if (0 <? max) && (max <? n) then max else n.

(** The offset and the size of the page. *)
Definition page (p : PageRequest) (max : Z) (operation query : string) : res (Z * Z) :=
  if str_empty (pq_PageToken p) then Ok (0, pageSize p max)
  else match decodePageToken (pq_PageToken p) operation query with
  | Ok t =>
      if (pt_Offset t <? 0) || negb (str_empty (pt_Cursor t)) then Err (ErrText "invalid page token")
      else Ok (pt_Offset t, pageSize p max)
  | Err _ => Err (ErrText "invalid page token")
  end.

Definition cursorPage (p : PageRequest) (operation query : string) : res string :=
  if str_empty (pq_PageToken p) then Ok ""
  else match decodePageToken (pq_PageToken p) operation query with
  | Ok t =>
      if negb (pt_Offset t =? 0) || str_empty (pt_Cursor t) then Err (ErrText "invalid page token")
      else Ok (pt_Cursor t)
  | Err _ => Err (ErrText "invalid page token")
  end.

(** [err] as an invalid request. *)
Definition as_invalid {S A} (r : res A) : M S A :=
  match r with Ok a => mret a | Err e => throw (rpcErr ERROR_CODE_INVALID_REQUEST (error_text e)) end.

(** A slice expression out of range panics. *)
Definition slice_panic : goerr := ErrText "runtime error: slice bounds out of range".

Definition go_slice {A} (l : list A) (low high : Z) : res (list A) :=
  if (0 <=? low) && (low <=? high) && (high <=? zlen l)
  then Ok (take (Z.to_nat (high - low)) (drop (Z.to_nat low) l)) else Err slice_panic.

(** The page of a list, where it starts and where it ends; [start + limit] is an [int]. *)
Definition cut_page {A} (l : list A) (start limit : Z) : res (list A * Z * Z) :=
  let high := Z.min (i64 (start + limit)) (zlen l) in
  let start := if zlen l <? start then zlen l else start in
  match go_slice l start high with
  | Ok entries => Ok (entries, start, high)
  | Err e => Err e
  end.

(** The token of what follows, if anything does. *)
Definition next_token (operation query : string) (next total : Z) : string :=
  if next <? total then encodePageToken (mkPageToken operation query next "") else "".

(** ** The Host *)

Inductive RuntimeStatus :=
| RUNTIME_STATUS_STARTING | RUNTIME_STATUS_READY | RUNTIME_STATUS_RESTARTING | RUNTIME_STATUS_STOPPED | RUNTIME_STATUS_UNAVAILABLE.

#[export] Instance RuntimeStatus_eq_dec : EqDecision RuntimeStatus.
Proof. solve_decision. Defined.

Record HostInfo := mkHostInfo {
  hi_HostId : string;
  hi_Ready : bool;  (* HOST_STATUS_READY, else HOST_STATUS_DEGRADED *)
  hi_HostVersion : string;
  hi_StartedAtUnixMs : Z;
  hi_RuntimeStatus : RuntimeStatus;
  hi_AppServerVersion : string;
  hi_RuntimeStartedAtUnixMs : Z;
  hi_RestartCount : Z;
  hi_Capabilities : Capabilities;
}.

(** [UnixMilli] of a time, 0 standing for the zero [time.Time] of the year 1. *)
Definition time_millis (t : Z) : Z := if t =? 0 then -62135596800000 else UnixMilli t.

(** [degraded] is what [m.Degraded()] answers, if it is set. *)
Definition GetHost (hostID version : string) (startedAt : Z) (st : State) (degraded : option bool) (caps : Capabilities) : MM HostInfo :=
  asyncError ← gets mg_asyncError;
  let status := match rs_Status st with
                | StatusReady => RUNTIME_STATUS_READY
                | StatusStarting => RUNTIME_STATUS_STARTING
                | StatusRestarting => RUNTIME_STATUS_RESTARTING
                | StatusStopped => RUNTIME_STATUS_STOPPED
                | StatusFailed => RUNTIME_STATUS_UNAVAILABLE
                end in
  let ready := bool_decide (status = RUNTIME_STATUS_READY) && negb (default false degraded) && str_empty asyncError in
  mret (mkHostInfo hostID ready version (time_millis startedAt) status (Runtime.ir_UserAgent (rs_AppServer st)) (time_millis (rs_StartedAt st))
          (rs_RestartCount st) caps).

(** ** Directories *)

(** [os.ReadDir] with the type of each entry. *)
Definition read_dirs (parent : string) : M FS (list string) :=
  names ← ReadDir parent;
  t ← gets fs_tree;
  mret match walk max_links t [] (Split_slash parent) with
       | Ok d => filter (λ name, is_dir_at t (d ++ [name]) = true) names
       | Err _ => []
       end.

Definition on_disk {A} (m : M FS A) : MF A := zoom snd (λ f w, (w.1, f)) m.

(** The parent, the directories with their paths, and the next page. *)
Definition ListDirectories (env : process_env) (dirs : Directory.Service) (maxPage : Z) (parentPath : string) (p : PageRequest)
    : MF (string * list (string * string) * string) :=
  parent ← as_invalid (Normalize env dirs parentPath);
  r ← attempt (on_disk (read_dirs parent));
  match r with
  | Err e => throw (rpcErr ERROR_CODE_DIRECTORY_NOT_ACCESSIBLE (error_text e))
  | Ok names =>
      let entries := (λ name, (name, Join [parent; name])) <$> merge_sort name_le names in
      at_ ← as_invalid (page p maxPage "directories" parent);
      cut ← of_res (cut_page entries at_.1 at_.2);
      let '(shown, _, high) := cut in
      mret (parent, shown, next_token "directories" parent high (zlen entries))
  end.

(** ** Codexes *)

Definition ListCodexes (maxPage : Z) (p : PageRequest) : MM (list Codex * string) :=
  at_ ← as_invalid (page p maxPage "codexes" "all");
  let '(start, limit) := at_ in
  records ← store (Persistence.ListCodexes (limit + 1) start);
  let more := limit <? zlen records in
  let records := if more then take (Z.to_nat limit) records else records in
  mret (codexFromRecord <$> records,
        if more then encodePageToken (mkPageToken "codexes" "all" (i64 (start + limit)) "") else "").

(** ** History *)

Section History.
Context `{PJ : ProtoJSON} (cfg : ManagerConfig).

(** A turn joins the page. *)
Definition add_turn (h : HistoryPage) (snapshot : TurnSnapshot) : HistoryPage :=
  let h := set_hp_Turns (hp_Turns h ++ [snapshot]) h in
  match turn_Completeness snapshot with
  | Some c =>
      if comp_Truncated c || comp_Incomplete c
      then set_hp_Completeness (mergeCompleteness (hp_Completeness h) (Some c)) (set_hp_HistoryComplete false h) else h
  | None => h
  end.

Definition history_page (resolve : imageDescriptorResolver) (codexID : string) (turns : list Turn) (start limit : Z) : res HistoryPage :=
  match cut_page turns start limit with
  | Err e => Err e
  | Ok (shown, start, high) =>
      let h := foldl add_turn (mkHistoryPage codexID [] "" true None) (turnSnapshot (mc_ContentBudget cfg) resolve <$> shown) in
      let h := set_hp_NextPageToken (next_token "history" codexID high (zlen turns)) h in
      let bounded := boundHistoryPage (mc_ContentBudget cfg) h in
      Ok (if zlen (hp_Turns bounded) <? zlen (hp_Turns h)
          then set_hp_NextPageToken (encodePageToken (mkPageToken "history" codexID (start + zlen (hp_Turns bounded)) "")) bounded
          else bounded)
  end.

Definition ListHistory (runtime : option goerr) (call : string → any → res Message) (describe : option (string → string → res Descriptor))
    (maxPage : Z) (codexID : string) (p : PageRequest) : MM HistoryPage :=
  c ← lookup_codex codexID;
  at_ ← as_invalid (page p maxPage "history" codexID);
  _ ← need_adapter runtime_unavailable runtime;
  match ReadThread call (cdx_ThreadId c) true with
  | (_, Some e) => if normalizeUnmaterializedHistory c e then mret (mkHistoryPage codexID [] "" true None) else throw e
  | (thread, None) =>
      owner ← gets (λ s, get_str (mg_logicalOwners s) codexID);
      of_res (history_page (imageResolverForOwner describe owner) codexID (th_Turns thread) at_.1 at_.2)
  end.

End History.

(** ** A workspace directory *)

Definition ListWorkspaceEntries (ws : WorkspaceFiles.Config) (maxPage : Z) (codexID relative : string) (p : PageRequest)
    : MF (list WorkspaceEntry * string) :=
  _ ← need_codex_id codexID;
  let query := (codexID +:+ nul +:+ relative)%string in
  at_ ← as_invalid (page p maxPage "workspace_list" query);
  r ← with_workspaceError (on_files (Service_List ws codexID relative at_.1 at_.2));
  let '(entries, total) := r in
  mret (entries, next_token "workspace_list" query (at_.1 + zlen entries) total).

(** ** Session candidates *)

Record SessionCandidate := mkCandidate {
  sc_SessionId : string;
  sc_Cwd : string;
  sc_Title : string;
  sc_Preview : string;
  sc_Source : string;
  sc_CreatedAtUnixMs : Z;
  sc_UpdatedAtUnixMs : Z;
  sc_ManagedCodexId : string;
  sc_AlreadyManaged : bool;  (* ALREADY_MANAGED, else RESUMABLE *)
}.

(** A forgotten session as a thread; [source] is the text of its JSON string. *)
Definition forgotten_thread (source : string) (r : ForgottenSessionRecord) : Thread :=
  mkThread (fs_SessionID r) (fs_SessionID r) (fs_CWD r) (if str_empty (fs_Title r) then None else Some (fs_Title r)) (fs_Preview r)
    (fs_CreatedAtUnixMS r) (fs_UpdatedAtUnixMS r) None None (encode_string source) "" [].

(** Forgotten sessions that the app-server does not list; each identity once. *)
Fixpoint add_forgotten (seen : list string) (forgotten : list ForgottenSessionRecord) : list Thread :=
  match forgotten with
  | [] => []
  | r :: forgotten =>
      let key := sessionKey (fs_Source r) (fs_SessionID r) in
      if bool_decide (key ∈ seen) then add_forgotten seen forgotten
      else forgotten_thread (fs_Source r) r :: add_forgotten (key :: seen) forgotten
  end.

Definition candidate (bySession : gmap string string) (t : Thread) : SessionCandidate :=
  let source := normalizeSource (th_Source t) in
  let id := get_str bySession (sessionKey source (th_ID t)) in
  mkCandidate (th_ID t) (th_CWD t) (default "" (th_Name t)) (th_Preview t) source (unixMillis (th_CreatedAt t)) (unixMillis (th_UpdatedAt t))
    id (negb (str_empty id)).

Definition thread_key (t : Thread) : string := sessionKey (normalizeSource (th_Source t)) (th_ID t).

(** State: the manager, the disk and the advertised capabilities. *)
Definition ListSessionCandidates (SA : SessionAdapter) (env : process_env) (dirs : Directory.Service) (runtime : option goerr) (maxPage : Z)
    (requestedCwd : string) (p : PageRequest) : M (MState * FS * Capabilities) (string * list SessionCandidate * string) :=
  _ ← need_adapter runtime_unavailable runtime;
  normalized ← as_invalid (Normalize env dirs requestedCwd);
  cursor ← as_invalid (cursorPage p "sessions" normalized);
  let on_host {A} (m : MF A) : M (MState * FS * Capabilities) A := zoom fst (λ h w, (h, w.2)) m in
  found ← on_host (on_disk (Discover (SA := SA) env dirs [] normalized cursor (pageSize p maxPage)));
  match found with
  | (_, _, Some e) => throw (rpcErr ERROR_CODE_SESSION_NOT_FOUND (error_text e))
  | (cwd, threads, None) =>
      listed ← on_host (on_manager (
        match tp_NextCursor threads with
        | Some next => mret (tp_Data threads, encodePageToken (mkPageToken "sessions" cwd 0 next))
        | None =>
            forgotten ← store (ListForgottenSessions cwd);
            mret (tp_Data threads ++ add_forgotten (thread_key <$> tp_Data threads) forgotten, "")
        end));
      bySession ← on_host (on_manager (gets mg_bySession));
      let sessions := candidate bySession <$> listed.1 in
      _ ← zoom snd (λ c w, (w.1, c)) (modify (ObserveSessionSources (sc_Source <$> sessions)));
      mret (cwd, sessions, listed.2)
  end.
