(* ===== verification/ManagerSessions.v ===== *)
(** * Creating, importing and restoring Codexes (internal/codex/manager.go)

    How a Codex comes to be managed: a new thread, a native session that is imported, and
    the rows of the database when the runtime becomes ready.  [registerRoot], [token] and
    [entropy] are what the file system answers for the root of a workspace and what the
    random source delivers. *)

From Stdlib Require Import Ascii String.
From stdpp Require Import base tactics numbers list sorting gmap strings pretty.
From S2P Require Import Prelude GoError GoStrings GoPath FileSystem Float64 Json Client Adapter Remote Persistence Activity HostEvents Workspace Attachments Directory Sessions Budget Translate Manager ManagerWorkspace ManagerItems ManagerTurns ManagerQueries.
Local Open Scope string_scope.
Local Open Scope Z_scope.
Local Open Scope list_scope.

Definition newID (prefix raw : string) : string := (prefix +:+ "_" +:+ EncodeToString raw)%string.

(** ** Views of earlier versions *)

(** [userMessage.input] is renamed to [parts]; the value itself is changed. *)
Definition rename_input (ms : list (string * any)) : list (string * any) :=
  match member ms "parts", member ms "input" with
  | None, Some input => put_member "parts" input (filter (λ m, m.1 ≠ "input") ms)
  | _, _ => ms
  end.

Definition migrate_message (m : string * any) : string * any :=
  match m with
  | (key, AObj ms) => if bool_decide (key = "userMessage") then (key, AObj (rename_input ms)) else m
  | _ => m
  end.

Fixpoint migrateUserMessageInput (v : any) : any :=
  match v with
  | AArr vs => AArr (migrateUserMessageInput <$> vs)
  | AObj ms => AObj (migrate_message <$> ((λ m, (m.1, migrateUserMessageInput m.2)) <$> ms))
  | v => v
  end.

Section Sessions.
Context `{PJ : ProtoJSON} (cfg : ManagerConfig) (audit : Event → option string) (registerRoot : string → res string).

Definition unmarshalCurrentView (raw : string) : option CurrentView :=
  match UnmarshalView raw with
  | Some v => Some v
  | None =>
      match json_parse raw with
      | Some (_, j) =>
          match to_any j with
          | (value, true) => migrated ← json_encode (migrateUserMessageInput value); UnmarshalView migrated
          | (_, false) => None
          end
      | None => None
      end
  end.

(** ** Registration *)

(** The maps of a Codex that is now managed. *)
Definition register_maps (id thread source owner : string) (manual : bool) (deadline : Z) (view : CurrentView) (s : MState) : MState :=
  mkMState (mg_events s) (mg_workspaces s) (<[id := view]> (mg_byID s)) (<[thread := id]> (mg_byThread s))
    (<[sessionKey source thread := id]> (mg_bySession s)) (<[id := normalizeSourceString source]> (mg_sources s))
    (<[id := owner]> (mg_logicalOwners s)) (<[id := manual]> (mg_manualTitle s)) (<[id := deadline]> (mg_warningDeadline s))
    (mg_chunks s) (mg_workspaceChildCodex s) (mg_workspaceChildState s) (mg_asyncError s).

Definition registerRestored (r : CodexRecord) (view : CurrentView) : MM unit :=
  modify (register_maps (cr_CodexID r) (cr_ThreadID r) (cr_SessionSource r) (cr_LogicalOwnerID r) (cr_ManualTitleOverride r)
            (cr_WarningDeadlineUnixMS r) view).

Definition new_view (c : Codex) (at_ : Z) : CurrentView := mkCurrentView (Some c) None [] None None 0 at_.

Definition saveCodex (wall : Z) (token : string) (entropy : res string) (c : Codex) (source ownerID : string) : MM unit :=
  let source := normalizeSourceString source in
  ownerID ← (if str_empty ownerID then store (EnsureLogicalOwner entropy source (cdx_ThreadId c)) else mret ownerID);
  view ← ensureWorkspace registerRoot token wall (cdx_CodexId c) (cdx_Cwd c) (new_view c wall);
  let view := boundCurrentView (mc_ContentBudget cfg) view in
  raw ← of_res (Marshal (MsgView view));
  _ ← store (UpsertCodex (set_cr_CurrentViewJSON raw (set_cr_LogicalOwnerID ownerID (recordFromCodex c source))));
  modify (register_maps (cdx_CodexId c) (cdx_ThreadId c) source ownerID false 0 view).

(** ** New Codexes *)

(** The Codex of a thread; [created] and [imported] are its times. *)
Definition fresh_codex (now : Z) (id : string) (t : Thread) (title : string) (origin : CodexOrigin) (created imported : Z) : Codex :=
  mkCodex id (th_ID t) (th_CWD t) title origin CODEX_STATUS_IDLE "" MANAGEMENT_STATE_MANAGED (UnixMilli (now + leaseDuration cfg))
    created imported (UnixMilli now) [].

Definition CreateCodex (SA : SessionAdapter) (env : process_env) (dirs : Directory.Service) (runtime : option goerr) (now wall : Z)
    (idRaw token : string) (entropy : res string) (cwd requestedTitle : string) (createDirectory : bool) (requestID : string) : MF (Codex * bool) :=
  _ ← need_adapter runtime_unavailable runtime;
  r ← on_disk (Create (SA := SA) env dirs cwd createDirectory);
  match r with
  | (_, _, Some e) => throw (rpcErr ERROR_CODE_DIRECTORY_CREATE_FAILED (error_text e))
  | (t, created, None) =>
      let title := if str_empty requestedTitle then default "" (th_Name t) else requestedTitle in
      let c := fresh_codex now (newID "cdx" idRaw) t title CODEX_ORIGIN_REMOTE_CREATED (UnixMilli now) 0 in
      let source := normalizeSource (th_Source t) in
      _ ← on_manager (
        ownerID ← store (EnsureLogicalOwner entropy source (th_ID t));
        _ ← saveCodex wall token entropy c source ownerID;
        publishCodex cfg audit wall c requestID);
      mret (c, created)
  end.

Definition threadFromForgotten (r : ForgottenSessionRecord) : Thread := forgotten_thread (normalizeSourceString (fs_Source r)) r.

Definition import_failed (e : goerr) : goerr := rpcErr ERROR_CODE_SESSION_IMPORT_FAILED (error_text e).

(** A forgotten session that was created here and never got a message. *)
Definition never_materialized (forgotten : option ForgottenSessionRecord) : bool :=
  match forgotten with Some f => negb (fs_Materialized f) && Contains (fs_Origin f) "REMOTE_CREATED" | None => false end.

(** The [switch] of [ImportSession]: the thread and its source. *)
Definition imported_thread (SA : SessionAdapter) (env : process_env) (dirs : Directory.Service) (sessionID source : string)
    (forgotten : option ForgottenSessionRecord) (listed : Thread) (readErr : option goerr) : MF (Thread * string) :=
  let candidate := set_cdx_Origin CODEX_ORIGIN_REMOTE_CREATED (set_cdx_ThreadId sessionID no_codex) in
  match readErr with
  | None =>
      let actual := normalizeSource (th_Source listed) in
      if bool_decide (actual ≠ source) then
        throw (import_failed (ErrText ("session source mismatch: requested " +:+ Quote source +:+ ", app-server returned " +:+ Quote actual)))
      else match Import (SA := SA) sessionID with
      | (_, Some e) => throw (import_failed e)
      | (t, None) => mret (t, actual)
      end
  | Some readErr =>
      match forgotten with
      | Some f =>
          if never_materialized forgotten
             && (normalizeUnmaterializedHistory candidate readErr || normalizeUnmaterializedResume candidate readErr) then
            match (sa_ResumeThread (SessionAdapter := SA) sessionID).2 with
            | Some resumeErr => if normalizeUnmaterializedResume candidate resumeErr then mret (threadFromForgotten f, source)
                                else throw (import_failed resumeErr)
            | None => mret (threadFromForgotten f, source)
            end
          else if never_materialized forgotten && forgottenSessionNotFound readErr then
            r ← on_disk (Create (SA := SA) env dirs (fs_CWD f) false);
            match r with
            | (_, _, Some e) => throw (import_failed e)
            | (t, _, None) =>
                let t := if str_empty (th_Source t) then set_th_Source (encode_string source) t else t in
                mret (t, normalizeSource (th_Source t))
            end
          else throw (import_failed readErr)
      | None => throw (import_failed readErr)
      end
  end.

(** What the thread lacks comes from the one that was read. *)
Definition complete_thread (listed t : Thread) : Thread :=
  let t := if str_empty (th_Source t) then set_th_Source (th_Source listed) t else t in
  let t := if str_empty (th_ID t) then set_th_ID (th_ID listed) t else t in
  let t := if str_empty (th_CWD t) then set_th_CWD (th_CWD listed) t else t in
  let t := match th_Name t with None => set_th_Name (th_Name listed) t | Some _ => t end in
  if th_CreatedAt t =? 0 then set_th_CreatedAt (th_CreatedAt listed) t else t.

(** The rest of an import, from the thread to the published Codex. *)
Definition adopt_thread (now wall : Z) (idRaw token : string) (entropy : res string) (forgotten : option ForgottenSessionRecord)
    (source sessionID : string) (t : Thread) (actual requestID : string) : MM Codex :=
  let origin := match forgotten with
                | Some f => if Contains (fs_Origin f) "REMOTE_CREATED" then CODEX_ORIGIN_REMOTE_CREATED else CODEX_ORIGIN_LOCAL_EXISTING
                | None => CODEX_ORIGIN_LOCAL_EXISTING
                end in
  let c := fresh_codex now (newID "cdx" idRaw) t (default "" (th_Name t)) origin (unixMillis (th_CreatedAt t)) (UnixMilli now) in
  let owner := match forgotten with Some f => fs_LogicalOwnerID f | None => "" end in
  ownerID ← (if str_empty owner then store (EnsureLogicalOwner entropy actual (th_ID t))
             else _ ← store (BindLogicalOwner actual (th_ID t) owner); mret owner);
  _ ← saveCodex wall token entropy c actual ownerID;
  _ ← publishCodex cfg audit wall c requestID;
  _ ← (match forgotten with Some _ => store (DeleteForgottenSession source sessionID) | None => mret tt end);
  mret c.

(** The Codex and whether it was managed already. *)
Definition ImportSession (SA : SessionAdapter) (env : process_env) (dirs : Directory.Service) (runtime : option goerr) (now wall : Z)
    (idRaw token : string) (entropy : res string) (sessionID requestedSource requestID : string) : MF (Codex * bool) :=
  let source := normalizeSourceString requestedSource in
  if str_empty sessionID || str_empty (TrimSpace requestedSource) then throw (invalid_request "session_id and source are required") else
  existing ← attempt (on_manager (store (GetCodexBySession source sessionID)));
  match existing with
  | Ok r => mret (codexFromRecord r, true)
  | Err e =>
      if negb (errorsIs e ErrNoRows) then throw e else
      _ ← need_adapter runtime_unavailable runtime;
      f ← attempt (on_manager (store (GetForgottenSession source sessionID)));
      forgotten ← (match f with
                   | Ok f => mret (Some f)
                   | Err e => if errorsIs e ErrNoRows then mret None else throw e
                   end);
      let '(listed, readErr) := sa_ReadThread (SessionAdapter := SA) sessionID true in
      imported ← imported_thread SA env dirs sessionID source forgotten listed readErr;
      c ← on_manager (adopt_thread now wall idRaw token entropy forgotten source sessionID (complete_thread listed imported.1) imported.2 requestID);
      mret (c, false)
  end.

(** ** Restoring *)

(** The persisted view keeps its warnings, access state and completeness; requests that
    waited for an answer are gone and noted. *)
Definition cleared_warning (n : Z) : Warning :=
  mkWarning WARNING_CODE_HISTORY_IMPORT_INCOMPLETE
    "pending app-server requests from the previous runtime were cleared because their response RPC cannot be restored" 0
    {[ "cleared_pending_count" := pretty n ]}.

Definition note_old (old view : CurrentView) : CurrentView :=
  let view := match cv_Codex old with Some c => with_codex (set_cdx_Warnings (cdx_Warnings c)) view | None => view end in
  let view := match cv_WorkspaceAccessState old with Some st => set_cv_WorkspaceAccessState (Some st) view | None => view end in
  let view := set_cv_Completeness (mergeCompleteness (cv_Completeness view) (cv_Completeness old)) view in
  match cv_PendingRequests old with
  | [] => view
  | ps =>
      set_cv_Completeness (mergeCompleteness (cv_Completeness view) (Some (mkCompleteness false true 0 "pending response RPC state is not restartable")))
        (with_codex (λ c, set_cdx_Warnings (cdx_Warnings c ++ [cleared_warning (zlen ps)]) c) view)
  end.

Definition noteUnrecoverablePending (codexID : string) (view : CurrentView) : MM CurrentView :=
  raw ← attempt (store (CurrentViewJSON codexID));
  mret match raw with
       | Err _ => view
       | Ok raw => match unmarshalCurrentView raw with Some old => note_old old view | None => view end
       end.

Definition safeUnmaterializedRemoteCodex (r : CodexRecord) (c : Codex) : bool :=
  if bool_decide (cdx_Origin c ≠ CODEX_ORIGIN_REMOTE_CREATED) || negb (str_empty (cr_ActiveTurnID r)) then false
  else if str_empty (cr_CurrentViewJSON r) then true
  else match unmarshalCurrentView (cr_CurrentViewJSON r) with
  | None => false
  | Some view =>
      bool_decide (cv_ActiveTurn view = None) && bool_decide (zlen (cv_PendingRequests view) = 0)
      && match cv_Codex view with None => true | Some c => str_empty (cdx_ActiveTurnId c) end
  end.

Definition canReplaceUnmaterializedRemoteCodex (r : CodexRecord) (c : Codex) (readErr : goerr) : bool :=
  forgottenSessionNotFound readErr && safeUnmaterializedRemoteCodex r c.

Definition canRestoreExistingUnmaterializedRemoteCodex (r : CodexRecord) (c : Codex) (readErr : goerr) : bool :=
  normalizeUnmaterializedHistory c readErr && safeUnmaterializedRemoteCodex r c.

(** The view of a restored Codex is registered and written. *)
Definition register_and_persist (r : CodexRecord) (view : CurrentView) : MM unit :=
  _ ← registerRestored r view; persistState view.

Definition set_idle (status : CodexStatus) (c : Codex) : Codex := set_cdx_ActiveTurnId "" (set_cdx_Status status c).

Definition restoreExistingUnmaterializedRemoteCodex (now wall : Z) (token : string) (r : CodexRecord) (c : Codex) : MM unit :=
  let c := set_idle CODEX_STATUS_IDLE c in
  let r := set_cr_ActiveTurnID "" (set_cr_Status (CodexStatus_String CODEX_STATUS_IDLE) r) in
  view ← ensureWorkspace registerRoot token wall (cr_CodexID r) (cdx_Cwd c) (new_view c (UnixMilli now));
  register_and_persist r view.

Definition replaceUnmaterializedRemoteCodex (SA : SessionAdapter) (now wall : Z) (token : string) (r : CodexRecord) (c : Codex) : MM unit :=
  let oldThreadID := cr_ThreadID r in
  let oldSource := normalizeSourceString (cr_SessionSource r) in
  let context := ("replace unmaterialized thread " +:+ oldThreadID +:+ ": ")%string in
  match sa_StartThread (SessionAdapter := SA) (cdx_Cwd c) with
  | (_, Some e) => throw (ErrWrapped context e "")
  | (replacement, None) =>
      if str_empty (th_ID replacement) then fail_msg (context +:+ "app-server returned an empty thread id") else
      let newSource := if str_empty (th_Source replacement) then oldSource else normalizeSource (th_Source replacement) in
      _ ← store (BindLogicalOwner newSource (th_ID replacement) (cr_LogicalOwnerID r));
      let c := set_cdx_ThreadId (th_ID replacement) c in
      let c := if str_empty (th_CWD replacement) then c else set_cdx_Cwd (th_CWD replacement) c in
      let c := set_idle CODEX_STATUS_IDLE c in
      let r := set_cr_ActiveTurnID "" (set_cr_Status (CodexStatus_String CODEX_STATUS_IDLE) (set_cr_CWD (cdx_Cwd c)
                 (set_cr_SessionSource newSource (set_cr_ThreadID (th_ID replacement) r)))) in
      view ← ensureWorkspace registerRoot token wall (cr_CodexID r) (cdx_Cwd c) (new_view c (UnixMilli now));
      _ ← modify (λ s, set_mg_bySession (delete_own (sessionKey oldSource oldThreadID) (cr_CodexID r) (mg_bySession s))
                         (set_mg_byThread (delete_own oldThreadID (cr_CodexID r) (mg_byThread s)) s));
      register_and_persist r view
  end.

Definition reconcileRestoredThreadTitle (thread : Thread) (c : Codex) : Codex :=
  match th_Name thread with Some name => set_cdx_Title name c | None => c end.

(** [RestoreAgent], whose state becomes the view's. *)
Definition restore_agent_into (wall : Z) (codexID agentID : string) (view : CurrentView) : MM CurrentView :=
  state ← workspaces (RestoreAgent wall codexID agentID);
  mret (set_cv_WorkspaceAccessState (Some state) view).

(** An unmanaged Codex keeps the view it had. *)
Definition restore_unmanaged (now wall : Z) (token : string) (r : CodexRecord) (c : Codex) : MM unit :=
  let view := match (if str_empty (cr_CurrentViewJSON r) then None else unmarshalCurrentView (cr_CurrentViewJSON r)) with
              | Some persisted =>
                  set_cv_Codex (Some (match cv_Codex persisted with
                                      | Some p => set_cdx_ManagedUntilUnixMs (cdx_ManagedUntilUnixMs c) (set_cdx_ManagementState (cdx_ManagementState c) p)
                                      | None => c
                                      end)) persisted
              | None => new_view c (UnixMilli now)
              end in
  view ← ensureWorkspace registerRoot token wall (cr_CodexID r) (cdx_Cwd c) view;
  register_and_persist r view.

(** The app-server cannot read the thread. *)
Definition restore_unavailable (now wall : Z) (token : string) (r : CodexRecord) (c : Codex) : MM unit :=
  let agents := match (if str_empty (cr_CurrentViewJSON r) then None else unmarshalCurrentView (cr_CurrentViewJSON r)) with
                | Some persisted => match cv_WorkspaceAccessState persisted with Some st => was_ActiveAgentCount st | None => 0 end
                | None => 0
                end in
  view ← noteUnrecoverablePending (cr_CodexID r) (new_view (set_idle CODEX_STATUS_UNAVAILABLE c) (UnixMilli now));
  view ← ensureWorkspace registerRoot token wall (cr_CodexID r) (cdx_Cwd c) view;
  view ← (if negb (str_empty (cr_ActiveTurnID r)) || (0 <? agents) then restore_agent_into wall (cr_CodexID r) (cr_ActiveTurnID r) view
          else mret view);
  register_and_persist r view.

(** The thread was read and resumed. *)
Definition restore_resumed (now wall : Z) (token : string) (r : CodexRecord) (c : Codex) (thread : Thread) : MM unit :=
  let c := if cr_ManualTitleOverride r then c else reconcileRestoredThreadTitle thread c in
  view ← noteUnrecoverablePending (cr_CodexID r) (new_view (set_idle CODEX_STATUS_IDLE c) (UnixMilli now));
  view ← ensureWorkspace registerRoot token wall (cr_CodexID r) (cdx_Cwd c) view;
  state ← restoreCollabAgents wall (cr_CodexID r) thread;
  let view := match state with Some _ => set_cv_WorkspaceAccessState state view | None => view end in
  view ← (match last (th_Turns thread) with
          | Some t =>
              if bool_decide (turnStatus (tn_Status t) = TURN_STATUS_RUNNING)
              then restore_agent_into wall (cr_CodexID r) (tn_ID t) (with_codex (set_idle CODEX_STATUS_UNAVAILABLE) view)
              else mret view
          | None => mret view
          end);
  register_and_persist r view.

(** One row. *)
Definition restore_record (SA : SessionAdapter) (now wall : Z) (token : string) (entropy : res string) (r : CodexRecord) : MM unit :=
  owner ← (if str_empty (cr_LogicalOwnerID r) then store (EnsureLogicalOwner entropy (cr_SessionSource r) (cr_ThreadID r))
           else _ ← store (BindLogicalOwner (cr_SessionSource r) (cr_ThreadID r) (cr_LogicalOwnerID r)); mret (cr_LogicalOwnerID r));
  let r := set_cr_LogicalOwnerID owner r in
  let c := codexFromRecord r in
  let unspecified := bool_decide (cdx_ManagementState c = MANAGEMENT_STATE_UNSPECIFIED) in
  let c := if unspecified then set_cdx_ManagedUntilUnixMs (UnixMilli (now + leaseDuration cfg)) (set_cdx_ManagementState MANAGEMENT_STATE_MANAGED c) else c in
  let r := if unspecified then set_cr_WarningDeadlineUnixMS 0 (set_cr_ManagedUntilUnixMS (cdx_ManagedUntilUnixMs c)
                                 (set_cr_ManagementState (ManagementState_String (cdx_ManagementState c)) r)) else r in
  if bool_decide (cdx_ManagementState c = MANAGEMENT_STATE_UNMANAGED) then restore_unmanaged now wall token r c
  else match sa_ReadThread (SessionAdapter := SA) (cr_ThreadID r) true with
  | (_, Some readErr) =>
      if canRestoreExistingUnmaterializedRemoteCodex r c readErr then restoreExistingUnmaterializedRemoteCodex now wall token r c
      else if canReplaceUnmaterializedRemoteCodex r c readErr then replaceUnmaterializedRemoteCodex SA now wall token r c
      else restore_unavailable now wall token r c
  | (thread, None) =>
      match (sa_ResumeThread (SessionAdapter := SA) (cr_ThreadID r)).2 with
      | Some e => throw (ErrWrapped ("resume managed thread " +:+ cr_ThreadID r +:+ ": ")%string e "")
      | None => restore_resumed now wall token r c thread
      end
  end.

(** [draws] gives each row its token and entropy. *)
Fixpoint restore_records (SA : SessionAdapter) (now wall : Z) (draws : nat → string * res string) (records : list CodexRecord) : MM unit :=
  match records with
  | [] => mret tt
  | r :: records =>
      let '(token, entropy) := draws (length records) in
      _ ← restore_record SA now wall token entropy r;
      restore_records SA now wall draws records
  end.

Definition restoreLocked (SA : SessionAdapter) (runtime : option goerr) (now wall : Z) (draws : nat → string * res string) : MM unit :=
  records ← store (Persistence.ListCodexes 100000 0);
  _ ← need_adapter id runtime;
  restore_records SA now wall draws records.

Definition Restore (SA : SessionAdapter) (runtime : option goerr) (range_order : list string → list string) (now wall : Z)
    (draws : nat → string * res string) : MM unit :=
  _ ← restoreLocked SA runtime now wall draws;
  sweepLeases cfg audit range_order now wall.

End Sessions.

(** ** Image attachments

    State: the manager, and the disk and rows of the attachment store [st]. *)

Section Images.
Context {D : Type} `{ID : ImageDecoder} `{MS : MetadataStore D}.

Definition images {A} (m : M (FS * D) A) : M (MState * (FS * D)) A := zoom snd (λ x w, (w.1, x)) m.
Definition managers {A} (m : MM A) : M (MState * (FS * D)) A := zoom fst (λ x w, (x, w.2)) m.

(** [err = attachmentRPCError(err)] on the way out. *)
Definition with_attachmentError {S A} (m : M S A) : M S A := λ s,
  match m s with
  | (s, Ok a) => (s, Ok a)
  | (s, Err e) => (s, Err (attachmentRPCError e))
  end.

(** The owner of the Codex and the attachment service. *)
Definition owner_and_store {A} (st : option A) (codexID : string) : M (MState * (FS * D)) (string * A) :=
  _ ← managers (lookup_codex codexID);
  match st with
  | None => throw (rpcErr ERROR_CODE_CAPABILITY_NOT_SUPPORTED "image attachments are not enabled")
  | Some st => ownerID ← managers (gets (λ s, get_str (mg_logicalOwners s) codexID)); mret (ownerID, st)
  end.

Definition UploadImageAttachment (st : option Attachments) (now : Z) (codexID filename mimeType sha256 content : string)
    : M (MState * (FS * D)) ImageAttachment :=
  if str_empty codexID then throw (invalid_request "codex id is required") else
  os ← owner_and_store st codexID;
  d ← with_attachmentError (images (Attachments.Upload os.2 now os.1 filename mimeType sha256 content));
  mret (attachmentDescriptorProto d).

Definition DownloadImageAttachment (st : option Attachments) (codexID attachmentID : string) : M (MState * (FS * D)) (ImageAttachment * string) :=
  if str_empty codexID || str_empty attachmentID then throw (invalid_request "codex id and attachment id are required") else
  os ← owner_and_store st codexID;
  r ← with_attachmentError (images (Attachments.Download os.2 os.1 attachmentID));
  mret (attachmentDescriptorProto r.1, r.2).

End Images.
