(* ===== verification/ManagerQueryTheorems.v ===== *)
(** * Pages: proofs *)

From Stdlib Require Import Ascii String.
From stdpp Require Import base tactics numbers list sorting gmap strings pretty.
From S2P Require Import Prelude GoError GoStrings GoPath FileSystem Float64 Json JsonTheorems Base64 Remote Persistence Activity Workspace Capability Directory Translate Manager ManagerTheorems ManagerWorkspace ManagerQueries.
Local Open Scope string_scope.
Local Open Scope Z_scope.
Local Open Scope list_scope.

(** ** Tokens *)

(** A token that can be written: its strings are UTF-8, its offset is an [int]. *)
Definition token_ok (t : pageToken) : bool :=
  ValidString (pt_Operation t) && ValidString (pt_Query t) && ValidString (pt_Cursor t) && in_range (- 2 ^ 63) (2 ^ 63 - 1) (pt_Offset t).

Notation token_fields :=
  [("op", field pt_Operation set_pt_Operation dec_string); ("query", field pt_Query set_pt_Query dec_string);
   ("offset", field pt_Offset set_pt_Offset dec_int64); ("cursor", field pt_Cursor set_pt_Cursor dec_string)].

Lemma find_op : find_field token_fields "op" = Some (field pt_Operation set_pt_Operation dec_string).
Proof. reflexivity. Qed.
Lemma find_query : find_field token_fields "query" = Some (field pt_Query set_pt_Query dec_string).
Proof. reflexivity. Qed.
Lemma find_offset : find_field token_fields "offset" = Some (field pt_Offset set_pt_Offset dec_int64).
Proof. reflexivity. Qed.
Lemma find_cursor : find_field token_fields "cursor" = Some (field pt_Cursor set_pt_Cursor dec_string).
Proof. reflexivity. Qed.

Lemma offset_field offset : in_range (- 2 ^ 63) (2 ^ 63 - 1) offset = true → ∀ raw t,
  field pt_Offset set_pt_Offset dec_int64 (raw, JNum (offset <? 0) (Z.abs offset) 0 true) t = (set_pt_Offset offset t, true).
Proof.
  intros Hr raw t. unfold field, dec_int64. cbn [snd].
  replace (if offset <? 0 then - Z.abs offset else Z.abs offset) with offset by (destruct (Z.ltb_spec offset 0); lia). by rewrite Hr.
Qed.

Lemma token_json_reads t : token_ok t = true →
  json_encode (token_json t) = Some (text (token_json t)) ∧
  Unmarshal dec_pageToken (text (token_json t)) (mkPageToken "" "" 0 "") = (t, true).
Proof.
  unfold token_ok. intros H. destruct t as [op query offset cursor]. cbn [pt_Operation pt_Query pt_Offset pt_Cursor] in H.
  apply andb_prop in H as [H Hr]. apply andb_prop in H as [H Hc]. apply andb_prop in H as [Ho Hq].
  assert (readable (token_json (mkPageToken op query offset cursor)) = true ∧
          (nesting (token_json (mkPageToken op query offset cursor)) ≤ max_depth)%nat) as [Hrd Hn].
  { unfold token_json. cbn [pt_Operation pt_Query pt_Offset pt_Cursor].
    destruct (offset =? 0), (str_empty cursor); cbn [app readable forallb fst snd nesting max_list_with foldr];
      rewrite ?Ho, ?Hq, ?Hc; split; first [done|unfold max_depth; lia]. }
  split; [by apply json_encode_readable|]. unfold Unmarshal. rewrite json_parse_text by done.
  unfold token_json. cbn [pt_Operation pt_Query pt_Offset pt_Cursor].
  pose proof (offset_field offset Hr) as Hoff.
  destruct (Z.eqb_spec offset 0) as [->|Hz], (str_empty cursor) eqn:Ec; unfold str_empty in Ec; to_prop; subst;
    cbn -[Z.abs Z.ltb]; rewrite ?find_op, ?find_query, ?find_offset, ?find_cursor; cbn -[Z.abs Z.ltb]; rewrite ?Hoff; done.
Qed.

(** A page token is read back as the token it was made from by the operation and query
    it was made for, and is refused by every other. *)
Theorem page_token_roundtrip t operation query (Hok : token_ok t = true) :
  decodePageToken (encodePageToken t) operation query =
    if bool_decide (pt_Operation t = operation) && bool_decide (pt_Query t = query) then Ok t
    else Err (ErrText "page token does not match operation and normalized query").
Proof.
  destruct (token_json_reads t Hok) as [Henc Hdec]. unfold decodePageToken, encodePageToken. rewrite Henc. simpl default.
  rewrite base64_roundtrip by apply encodings_sane. by rewrite Hdec.
Qed.

Lemma page_token_roundtrip_witness :
  decodePageToken (encodePageToken (mkPageToken "history" "cdx_1" 50 "")) "history" "cdx_1" = Ok (mkPageToken "history" "cdx_1" 50 "").
Proof. apply (page_token_roundtrip (mkPageToken "history" "cdx_1" 50 "") "history" "cdx_1"). vm_compute. reflexivity. Defined.

(** The token of an offset, as it is decoded. *)
Lemma offset_token op query n : ValidString op = true → ValidString query = true → 0 ≤ n < 2 ^ 63 →
  decodePageToken (encodePageToken (mkPageToken op query n "")) op query = Ok (mkPageToken op query n "").
Proof.
  intros Ho Hq Hn. destruct (token_json_reads (mkPageToken op query n "")) as [Henc Hdec].
  { unfold token_ok. cbn [pt_Operation pt_Query pt_Offset pt_Cursor]. rewrite Ho, Hq. unfold in_range. simpl. lia. }
  unfold decodePageToken, encodePageToken. rewrite Henc. simpl default. rewrite base64_roundtrip by apply encodings_sane.
  rewrite Hdec. cbn [pt_Operation pt_Query]. by rewrite !bool_decide_true.
Qed.

Lemma encodePageToken_nonempty op query n : ValidString op = true → ValidString query = true → 0 ≤ n < 2 ^ 63 →
  str_empty (encodePageToken (mkPageToken op query n "")) = false.
Proof.
  intros Ho Hq Hn. apply bool_decide_false. intros E. pose proof (offset_token op query n Ho Hq Hn) as H. rewrite E in H.
  revert H. unfold decodePageToken. vm_compute. discriminate.
Qed.

(** ** Walking through the pages *)

Section Limits.
Context (size maxPage : Z).

Definition page_limit : Z := pageSize (mkPageRequest size "") maxPage.

Lemma page_limit_pos : 0 < page_limit.
Proof. unfold page_limit, pageSize. simpl. destruct (Z.ltb_spec 0 size), (Z.ltb_spec 0 maxPage); simpl; try case_match; lia. Qed.

Lemma page_limit_bound : size < 2 ^ 32 → page_limit ≤ 2 ^ 32.
Proof. intros ?. unfold page_limit, pageSize. simpl. destruct (Z.ltb_spec 0 size), (Z.ltb_spec 0 maxPage); simpl; try case_match; lia. Qed.

Lemma cut_page_spec {A} (l : list A) start limit : 0 ≤ start ≤ zlen l → 0 < limit → start + limit < 2 ^ 63 →
  cut_page l start limit = Ok (take (Z.to_nat limit) (drop (Z.to_nat start) l), start, Z.min (start + limit) (zlen l)).
Proof.
  intros Hs Hl Hb. unfold cut_page. replace (i64 (start + limit)) with (start + limit) by (unfold i64; rewrite Z.mod_small; lia).
  destruct (Z.ltb_spec (zlen l) start); [lia|]. unfold go_slice.
  rewrite (proj2 (Z.leb_le 0 start)), (proj2 (Z.leb_le start _)), (proj2 (Z.leb_le _ (zlen l))) by lia. simpl.
  replace (take (Z.to_nat (Z.min (start + limit) (zlen l) - start)) (drop (Z.to_nat start) l)) with (take (Z.to_nat limit) (drop (Z.to_nat start) l)); [done|].
  destruct (Z.min_spec (start + limit) (zlen l)) as [[? ->]|[? ->]]; [f_equal; lia|].
  rewrite !take_ge; [done|rewrite length_drop; unfold zlen in *; lia..].
Qed.
End Limits.

(** A client that asks a handler for the first page and then follows the tokens, each
    request on the state the one before has left. *)
Fixpoint follow {S A} (handler : PageRequest → M S (list A * string)) (size : Z) (fuel : nat) (token : string) : M S (list (list A)) :=
  match fuel with
  | O => fail_msg "too many pages"
  | Datatypes.S fuel =>
      r ← handler (mkPageRequest size token);
      if str_empty r.2 then mret [r.1] else pages ← follow handler size fuel r.2; mret (r.1 :: pages)
  end.

Section Walk.
Context {S A : Type} (handler : PageRequest → M S (list A * string)) (I : S → Prop) (l : list A) (size maxPage : Z) (op query : string).
Hypothesis (Hop : ValidString op = true) (Hquery : ValidString query = true) (Hsize : size < 2 ^ 32) (Hl : zlen l < 2 ^ 62).

(** The handler answers with the page the token names and the token of the next one. *)
Hypothesis Hserve : ∀ s token n, I s → page (mkPageRequest size token) maxPage op query = Ok (Z.of_nat n, page_limit size maxPage) → (n ≤ length l)%nat →
  ∃ s', I s' ∧ handler (mkPageRequest size token) s =
    (s', Ok (take (Z.to_nat (page_limit size maxPage)) (drop n l), next_token op query (Z.of_nat n + page_limit size maxPage) (zlen l))).

(** From offset [n] the walk shows the rest. *)
Lemma walk_from fuel token n s : I s → page (mkPageRequest size token) maxPage op query = Ok (Z.of_nat n, page_limit size maxPage) → (n ≤ length l)%nat →
  (length l - n < fuel)%nat →
  ∃ s' pages, I s' ∧ follow handler size fuel token s = (s', Ok pages) ∧ concat pages = drop n l ∧ Forall (λ p, zlen p ≤ page_limit size maxPage) pages.
Proof.
  pose proof (page_limit_pos size maxPage) as Hpos. pose proof (page_limit_bound size maxPage Hsize) as Hbnd.
  revert token n s. induction fuel as [|fuel IH]; intros token n s HI Hp Hn Hf; [lia|].
  destruct (Hserve s token n HI Hp Hn) as (s1&HI1&Hs). cbn [follow]. unfold mbind at 1, M_bind at 1. rewrite Hs. cbn [fst snd]. unfold next_token.
  set (lim := page_limit size maxPage) in *. set (k := Z.to_nat lim).
  assert (Hk : zlen (take k (drop n l)) ≤ lim) by (unfold zlen; rewrite length_take; lia).
  destruct (Z.ltb_spec (Z.of_nat n + lim) (zlen l)) as [Hlt|Hge].
  - set (next := Z.of_nat n + lim) in *. assert (Hr : 0 ≤ next < 2 ^ 63) by (unfold zlen in *; lia).
    rewrite encodePageToken_nonempty by done.
    destruct (IH (encodePageToken (mkPageToken op query next "")) (n + k)%nat s1) as (s2&pages&HI2&E&Hc&Hf').
    + done.
    + unfold page. cbn [pq_PageToken]. rewrite encodePageToken_nonempty by done.
      rewrite offset_token by done. cbn [pt_Offset pt_Cursor]. destruct (Z.ltb_spec next 0); [lia|]. simpl. do 2 f_equal. lia.
    + unfold zlen in *. lia.
    + unfold zlen in *. lia.
    + exists s2. eexists. split; [done|]. unfold mbind, M_bind. rewrite E. split; [done|]. cbn [concat]. rewrite Hc. split; [|by constructor].
      rewrite <- drop_drop. apply take_drop.
  - simpl. exists s1. eexists. split; [done|]. split; [done|]. split; [|by constructor]. simpl. rewrite app_nil_r. apply take_ge. rewrite length_drop. unfold k, zlen in *. lia.
Qed.

Lemma walk_all s : I s → ∃ s' pages, I s' ∧ follow handler size (Datatypes.S (length l)) "" s = (s', Ok pages) ∧ concat pages = l ∧
  Forall (λ p, zlen p ≤ page_limit size maxPage) pages.
Proof. intros HI. destruct (walk_from (Datatypes.S (length l)) "" 0 s) as (s'&pages&H); [done|done|lia|lia|]. rewrite drop_0 in H. eauto. Qed.
End Walk.

(** *** The handlers that serve a stored list *)

(** [ListCodexes] on a database that answers. *)
Lemma ListCodexes_serves size maxPage s token n : size < 2 ^ 32 → zlen (codex_rows (mdb s)) < 2 ^ 62 → mleft s = [] →
  page (mkPageRequest size token) maxPage "codexes" "all" = Ok (Z.of_nat n, page_limit size maxPage) → (n ≤ length (codex_rows (mdb s)))%nat →
  ListCodexes maxPage (mkPageRequest size token) s =
    (s, Ok (codexFromRecord <$> take (Z.to_nat (page_limit size maxPage)) (drop n (codex_rows (mdb s))),
            next_token "codexes" "all" (Z.of_nat n + page_limit size maxPage) (zlen (codex_rows (mdb s))))).
Proof.
  intros Hsize Hlen Hq Hp Hn. pose proof (page_limit_pos size maxPage) as Hpos. pose proof (page_limit_bound size maxPage Hsize) as Hbnd.
  unfold ListCodexes. rewrite Hp. unfold as_invalid, mbind, M_bind, mret, M_ret. set (lim := page_limit size maxPage) in *.
  assert (store (Persistence.ListCodexes (lim + 1) (Z.of_nat n)) s = (s, Ok (take (Z.to_nat (lim + 1)) (drop n (codex_rows (mdb s)))))) as ->.
  { unfold store, zoom, Persistence.ListCodexes, sql_query, pop. unfold mleft, events_left in Hq. unfold mdb, adb.
    destruct s as [[[d o] ? ? ? ? ? ? ? ?] ? ? ? ? ? ? ? ? ? ? ? ?]. simpl in Hq. subst o. simpl.
    destruct (Z.leb_spec (lim + 1) 0); [lia|]. destruct (Z.ltb_spec (Z.of_nat n) 0); [lia|]. by rewrite Nat2Z.id. }
  set (rows := codex_rows (mdb s)) in *. unfold next_token. replace (i64 (Z.of_nat n + lim)) with (Z.of_nat n + lim) by (unfold i64, zlen in *; rewrite Z.mod_small; lia).
  assert (zlen (take (Z.to_nat (lim + 1)) (drop n rows)) = Z.min (lim + 1) (zlen rows - Z.of_nat n)) as E
    by (unfold zlen in *; rewrite length_take, length_drop; lia).
  rewrite E. destruct (Z.ltb_spec lim (Z.min (lim + 1) (zlen rows - Z.of_nat n))), (Z.ltb_spec (Z.of_nat n + lim) (zlen rows)); try lia.
  - rewrite take_take. do 4 f_equal. f_equal. lia.
  - do 4 f_equal. rewrite !take_ge; [done|rewrite length_drop; unfold zlen in *; lia..].
Qed.

(** The directories of [parent] by name, with their paths. *)
Definition directory_entries (t : FileSystem.tree) (parent : string) (d : list string) : list (string * string) :=
  (λ name, (name, Join [parent; name])) <$> merge_sort name_le (filter (λ name, is_dir_at t (d ++ [name]) = true) (children t d)).

(** [ListDirectories] on a disk that answers, without the parent it repeats. *)
Definition listed_directories (env : process_env) (dirs : Directory.Service) (maxPage : Z) (path : string) (p : PageRequest)
    : MF (list (string * string) * string) :=
  r ← ListDirectories env dirs maxPage path p; let '(_, shown, next) := r in mret (shown, next).

Lemma ListDirectories_serves env dirs size maxPage path parent d t token n w :
  Normalize env dirs path = Ok parent → walk max_links t [] (Split_slash parent) = Ok d → is_dir_at t d = true →
  size < 2 ^ 32 → zlen (directory_entries t parent d) < 2 ^ 62 → fs_tree w.2 = t ∧ fs_faults w.2 = [] →
  page (mkPageRequest size token) maxPage "directories" parent = Ok (Z.of_nat n, page_limit size maxPage) →
  (n ≤ length (directory_entries t parent d))%nat →
  listed_directories env dirs maxPage path (mkPageRequest size token) w =
    ((w.1, tick w.2), Ok (take (Z.to_nat (page_limit size maxPage)) (drop n (directory_entries t parent d)),
       next_token "directories" parent (Z.of_nat n + page_limit size maxPage) (zlen (directory_entries t parent d)))).
Proof.
  intros Hnorm Hwalk Hdir Hsize Hlen [Ht Hf] Hp Hn. pose proof (page_limit_pos size maxPage) as Hpos. pose proof (page_limit_bound size maxPage Hsize) as Hbnd.
  unfold listed_directories, ListDirectories. rewrite Hnorm. unfold mbind at 1 2 3, M_bind at 1 2 3, as_invalid at 1, mret at 1, M_ret at 1.
  assert (attempt (on_disk (read_dirs parent)) w = ((w.1, tick w.2), Ok (Ok (filter (λ name, is_dir_at t (d ++ [name]) = true) (children t d))))) as ->.
  { unfold attempt, on_disk, zoom, read_dirs, mbind, M_bind, ReadDir, sys. rewrite Hf. unfold gets.
    change (fs_tree (tick w.2)) with (fs_tree w.2). rewrite Ht, Hwalk, Hdir. done. }
  fold (directory_entries t parent d). rewrite Hp. unfold as_invalid, mbind, M_bind, mret, M_ret, of_res. cbn [fst snd].
  rewrite cut_page_spec by (unfold zlen in *; lia). unfold next_token. rewrite Nat2Z.id.
  destruct (Z.ltb_spec (Z.min (Z.of_nat n + page_limit size maxPage) (zlen (directory_entries t parent d))) (zlen (directory_entries t parent d))),
    (Z.ltb_spec (Z.of_nat n + page_limit size maxPage) (zlen (directory_entries t parent d))); try lia; [|done].
  by rewrite Z.min_l by lia.
Qed.

Lemma child_name_spec d k name : child_name d k = Some name ↔ k = d ++ [name].
Proof.
  unfold child_name. split.
  - destruct (drop (length d) k) as [|c [|? ?]] eqn:E; [done| |done]. case_bool_decide as H; [|done]. intros [= ->].
    rewrite <-(take_drop (length d) k), H, E. done.
  - intros ->. by rewrite drop_app_length, take_app_length, bool_decide_true.
Qed.

Lemma children_NoDup t d : NoDup (children t d).
Proof.
  unfold children. rewrite merge_sort_Permutation. pose proof (NoDup_fst_map_to_list t) as H.
  induction H as [|k l Hk _ IH]; simpl; [constructor|]. destruct (child_name d k) as [name|] eqn:E; [|done].
  constructor; [|done]. rewrite list_elem_of_omap. intros (k'&Hk'&E'). apply child_name_spec in E, E'. congruence.
Qed.

(** The entries of a directory are its subdirectories. *)
Lemma elem_of_children t d name : name ∈ children t d ↔ is_Some (t !! (d ++ [name])).
Proof.
  unfold children. rewrite merge_sort_Permutation, list_elem_of_omap. split.
  - intros (k&Hk&Hc). apply child_name_spec in Hc as ->. apply list_elem_of_fmap in Hk as ([k' i]&->&Hk). apply elem_of_map_to_list in Hk. by eexists.
  - intros [i Hi]. exists (d ++ [name]). split; [|by apply child_name_spec].
    apply list_elem_of_fmap. exists (d ++ [name], i). split; [done|]. by apply elem_of_map_to_list.
Qed.

Lemma elem_of_entries t parent d name path :
  (name, path) ∈ directory_entries t parent d ↔ path = Join [parent; name] ∧ is_dir_at t (d ++ [name]) = true.
Proof.
  unfold directory_entries. rewrite list_elem_of_fmap. setoid_rewrite merge_sort_Permutation. setoid_rewrite list_elem_of_filter.
  setoid_rewrite elem_of_children. split.
  - by intros (x&[= -> ->]&H&_).
  - intros [-> H]. exists name. split; [done|]. split; [done|]. unfold is_dir_at in H. destruct (d ++ [name]) eqn:E; [by destruct d|].
    destruct (t !! _); [by eexists|done].
Qed.

(** C25: Following the page tokens of a list handler shows everything exactly once and in
    order, in pages no longer than the limit, and comes to an end.  For [ListCodexes] the
    pages together are the rows of the database, as long as no statement fails; for
    [ListDirectories] they are the subdirectories of the parent and their paths, by name,
    as long as no call fails and the name of the parent is UTF-8.  Neither the database nor
    the disk changes. *)
Theorem pages_show_everything size maxPage (Hsize : size < 2 ^ 32) :
  (∀ s, mleft s = [] → zlen (codex_rows (mdb s)) < 2 ^ 62 →
   ∃ pages, follow (ListCodexes maxPage) size (Datatypes.S (length (codex_rows (mdb s)))) "" s = (s, Ok pages) ∧
     concat pages = codexFromRecord <$> codex_rows (mdb s) ∧ Forall (λ p, zlen p ≤ page_limit size maxPage) pages) ∧
  (∀ env dirs path parent d w, Normalize env dirs path = Ok parent → ValidString parent = true →
   walk max_links (fs_tree w.2) [] (Split_slash parent) = Ok d → is_dir_at (fs_tree w.2) d = true → fs_faults w.2 = [] →
   zlen (directory_entries (fs_tree w.2) parent d) < 2 ^ 62 →
   ∃ pages w', follow (listed_directories env dirs maxPage path) size (Datatypes.S (length (directory_entries (fs_tree w.2) parent d))) "" w = (w', Ok pages) ∧
     w'.1 = w.1 ∧ fs_tree w'.2 = fs_tree w.2 ∧ Sorted name_le (concat pages).*1 ∧ NoDup (concat pages).*1 ∧
     (∀ name p, (name, p) ∈ concat pages ↔ p = Join [parent; name] ∧ is_dir_at (fs_tree w.2) (d ++ [name]) = true) ∧
     Forall (λ p, zlen p ≤ page_limit size maxPage) pages).
Proof.
  split.
  - intros s Hq Hl. set (rows := codex_rows (mdb s)) in *.
    destruct (walk_all (ListCodexes maxPage) (λ s', s' = s) (codexFromRecord <$> rows) size maxPage "codexes" "all") with (s := s) as (s'&pages&->&H1&H2&H3);
      [done|done|done|by unfold zlen in *; rewrite length_fmap| |done|].
    + intros ? token n -> Hp Hn. rewrite length_fmap in Hn. exists s. split; [done|]. rewrite (ListCodexes_serves size maxPage s token n) by done.
      unfold zlen. by rewrite length_fmap, <-fmap_drop, <-fmap_take.
    + rewrite length_fmap in H1. by exists pages.
  - intros env dirs path parent d w Hnorm Hv Hwalk Hdir Hf Hl. set (t := fs_tree w.2) in *. set (l := directory_entries t parent d) in *.
    destruct (walk_all (listed_directories env dirs maxPage path) (λ w', w'.1 = w.1 ∧ fs_tree w'.2 = t ∧ fs_faults w'.2 = []) l size maxPage "directories" parent)
      with (s := w) as (w'&pages&(E1&E2&_)&H1&H2&H3); [done|done|done|done| |done|].
    + intros w0 token n (E1&E2&E3) Hp Hn. exists (w0.1, tick w0.2). split; [done|]. by apply ListDirectories_serves.
    + assert (∀ xs : list string, ((λ name, (name, Join [parent; name])) <$> xs).*1 = xs) as Hfst
        by (intros xs; induction xs as [|x xs IH]; [done|by rewrite !fmap_cons, IH]).
      exists pages, w'. rewrite H2. split_and!; try done.
      * unfold l, directory_entries. rewrite Hfst. apply Sorted_merge_sort, _.
      * unfold l, directory_entries. rewrite Hfst. rewrite merge_sort_Permutation. apply NoDup_filter, children_NoDup.
      * intros name p. apply elem_of_entries.
Qed.

(** Five directories in pages of two, and an empty database. *)
Module PagesDemo.
Definition dir : inode := mkInode NDir 493 0 0 1 0.
Definition file : inode := mkInode (NFile "x") 420 0 0 2 0.
Definition disk : FS :=
  mkFS (list_to_map [([], dir); (["srv"], dir); (["srv"; "b"], dir); (["srv"; "a"], dir); (["srv"; "f"], file); (["srv"; "c"], dir)]) [] [] 10.
Definition env : process_env := mkEnv (Ok "/home/u") (Ok "/srv").
Definition host : MState :=
  mkMState (NewStore (mkStore empty_db []) false 8) (mkService ∅ ∅ 0 0) ∅ ∅ ∅ ∅ ∅ ∅ ∅ ∅ ∅ ∅ "".

Lemma pages_show_everything_witness :
  ∃ pages w', follow (listed_directories env (mkDirectories "") 100 "/srv") 2 4 "" (host, disk) = (w', Ok pages) ∧
    length pages = 2%nat ∧ (concat pages).*1 = ["a"; "b"; "c"] ∧ (∀ name p, (name, p) ∈ concat pages ↔ p = Join ["/srv"; name] ∧ is_dir_at (fs_tree disk) ["srv"; name] = true) ∧
  ∃ pages0, follow (ListCodexes 100) 2 1 "" host = (host, Ok pages0) ∧ concat pages0 = [].
Proof.
  destruct (pages_show_everything 2 100 ltac:(lia)) as [Hc Hd].
  destruct (Hd env (mkDirectories "") "/srv" "/srv" ["srv"] (host, disk)) as (pages&w'&H1&_&_&_&_&H2&_); [vm_compute; reflexivity..|].
  destruct (Hc host) as (pages0&H3&H4&_); [vm_compute; reflexivity..|].
  assert (match (follow (listed_directories env (mkDirectories "") 100 "/srv") 2 4 "" (host, disk)).2 with
          | Ok l => length l = 2%nat ∧ (concat l).*1 = ["a"; "b"; "c"] | Err _ => False end) as Hr by (vm_compute; split; reflexivity).
  exists pages, w'. split; [exact H1|]. change (Datatypes.S (length (directory_entries (fs_tree (host, disk).2) "/srv" ["srv"]))) with 4%nat in H1.
  rewrite H1 in Hr. cbn [snd] in Hr. destruct Hr as [Hr1 Hr2]. split; [exact Hr1|]. split; [exact Hr2|]. split; [exact H2|].
  exists pages0. exact (conj H3 H4).
Defined.
End PagesDemo.

(** A token is not authenticated: one with the offset 2^63 - 1 makes the sum of offset and
    limit negative, and the slice expression panics. *)
Lemma crafted_token_panics {A} (l : list A) size maxPage op query : ValidString op = true → ValidString query = true → size < 2 ^ 32 → zlen l < 2 ^ 62 →
  let token := encodePageToken (mkPageToken op query (2 ^ 63 - 1) "") in
  page (mkPageRequest size token) maxPage op query = Ok (2 ^ 63 - 1, page_limit size maxPage) ∧
  cut_page l (2 ^ 63 - 1) (page_limit size maxPage) = Err slice_panic.
Proof.
  intros Ho Hq Hs Hl token. split.
  - unfold page, token. cbn [pq_PageToken]. rewrite encodePageToken_nonempty by done.
    rewrite offset_token by done. done.
  - pose proof (page_limit_pos size maxPage). pose proof (page_limit_bound size maxPage Hs).
    unfold cut_page, go_slice. set (lim := page_limit size maxPage) in *.
    assert (i64 (2 ^ 63 - 1 + lim) = lim - 1 - 2 ^ 63) as ->.
    { unfold i64. replace (2 ^ 63 - 1 + lim + 2 ^ 63) with (lim - 1 + 1 * 2 ^ 64) by lia. rewrite Z_mod_plus_full, Z.mod_small; lia. }
    unfold zlen in *. destruct (Z.ltb_spec (Z.of_nat (length l)) (2 ^ 63 - 1)); [|lia].
    destruct (Z.leb_spec 0 (Z.of_nat (length l))); [|done]. simpl. destruct (Z.leb_spec (Z.of_nat (length l)) (Z.min (lim - 1 - 2 ^ 63) (Z.of_nat (length l)))); [lia|done].
Qed.
