(* ===== verification/ManagerItemTheorems.v ===== *)
(** * Deltas and answers: proofs *)

From Stdlib Require Import Ascii String.
From stdpp Require Import base tactics numbers list gmap strings pretty.
From S2P Require Import Prelude GoError GoStrings GoPath Float64 Json JsonTheorems Client Adapter Remote Base64 Attachments Budget BudgetTheorems Translate Manager ManagerItems.
Local Open Scope string_scope.
Local Open Scope Z_scope.
Local Open Scope list_scope.

(** ** Strings *)

(** [p] is the beginning of [s]. *)
Definition begins (p s : string) : Prop := ∃ k, p = str_take k s.

(** What still fits is the beginning of the text, and the whole text if that fits. *)
Lemma fitting_spec budget target text : slen target ≤ budget →
  begins (fitting budget target text) text ∧ slen target + slen (fitting budget target text) ≤ budget ∧
  (slen target + slen text ≤ budget → fitting budget target text = text).
Proof.
  intros Ht. unfold fitting. pose proof (slen_nonneg text). destruct (Z.ltb_spec (Z.max (budget - slen target) 0) (slen text)) as [Hlt|Hge].
  - split; [|split; [|lia]].
    + unfold validUTF8Prefix. destruct (Z.leb_spec (slen text) (Z.max (budget - slen target) 0)); [lia|]. case_match; [by exists 0%nat|].
      destruct (valid_prefix_spec text (Z.to_nat (Z.max (budget - slen target) 0))) as (k&_&->&_). by exists k.
    + unfold validUTF8Prefix. destruct (Z.leb_spec (slen text) (Z.max (budget - slen target) 0)); [lia|]. case_match; [simpl; change (slen "") with 0; lia|].
      destruct (valid_prefix_spec text (Z.to_nat (Z.max (budget - slen target) 0))) as (k&Hk&->&_). pose proof (slen_take k text). lia.
  - split; [|split; [lia|done]]. exists (String.length text). by rewrite str_take_ge.
Qed.

(** ** Deltas *)

Definition truncated (c : option Completeness) : Prop := ∃ d, c = Some d ∧ comp_Truncated d = true ∧ comp_Incomplete d = true.

(** The item [id] of the turn shows [text]. *)
Definition shows_text (turn : TurnSnapshot) (id text : string) (c : option Completeness) : Prop :=
  ∃ item, findItem (Some turn) id = Some item ∧ item_ItemId item = id ∧ delta_target (item_Content item) = Some text ∧ item_Completeness item = c.

Lemma delta_target_set text content : is_Some (delta_target (Some content)) → delta_target (Some (set_delta_target text content)) = Some text.
Proof. destruct content; simpl; intros H; first [done|by destruct H]. Qed.

Lemma append_to_spec budget id text items item target : List.find (λ i, bool_decide (item_ItemId i = id)) items = Some item →
  delta_target (item_Content item) = Some target →
  ∃ items', append_to budget id text items = Some (items', true) ∧
    List.find (λ i, bool_decide (item_ItemId i = id)) items' = Some (append_delta budget text item).1 ∧
    ∀ j, j ≠ id → List.find (λ i, bool_decide (item_ItemId i = j)) items' = List.find (λ i, bool_decide (item_ItemId i = j)) items.
Proof.
  induction items as [|i items IH]; [done|]. cbn [List.find append_to]. intros Hf Ht. case_bool_decide as Hi.
  - injection Hf as ->. unfold append_delta. rewrite Ht. eexists. split; [done|]. cbn [fst List.find].
    assert (∀ b : bool, item_ItemId (if b then set_item_Completeness (Some (mkCompleteness true true (u64 (slen target + slen text)) "content exceeds C/S frame budget"))
        (set_item_Content (set_delta_target (target +:+ fitting budget target text) <$> item_Content item) item)
      else set_item_Content (set_delta_target (target +:+ fitting budget target text) <$> item_Content item) item) = id) as E by (by intros []).
    rewrite E. rewrite bool_decide_true by done. split; [done|]. intros j Hj. by rewrite Hi, !bool_decide_false.
  - destruct (IH Hf Ht) as (items'&E&Hf'&Ho). rewrite E. simpl. eexists. split; [done|]. cbn [List.find].
    rewrite (bool_decide_false (item_ItemId i = id)) by done. split; [done|]. intros j Hj. by rewrite Ho.
Qed.

(** One delta on an item that shows a text. *)
Lemma delta_step budget turn e text target c : shows_text turn (e_ItemID e) target c → slen target ≤ budget →
  ∃ piece c', let turn' := (applyItemDelta budget turn e text).1 in
    shows_text turn' (e_ItemID e) (target +:+ piece) c' ∧ begins piece text ∧ slen target + slen piece ≤ budget ∧
    (slen target + slen text ≤ budget → piece = text ∧ c' = c) ∧
    (budget < slen target + slen text → truncated c') ∧ (truncated c → truncated c') ∧
    ∀ j, j ≠ e_ItemID e → findItem (Some turn') j = findItem (Some turn) j.
Proof.
  intros (item&Hf&Hid&Ht&Hc) Hb. destruct (append_to_spec budget (e_ItemID e) text (turn_Items turn) item target Hf Ht) as (items'&Ha&Hf'&Ho).
  destruct (fitting_spec budget target text Hb) as (Hp&Hs&Hw).
  exists (fitting budget target text), (item_Completeness (append_delta budget text item).1).
  unfold applyItemDelta. rewrite Ha. cbn [fst]. split.
  { exists (append_delta budget text item).1. split; [exact Hf'|]. unfold append_delta. rewrite Ht. cbn [fst].
    destruct (item_Content item) as [content|] eqn:Econ; [|done].
    split; [by case_match|]. split; [|done].
    assert (delta_target (Some (set_delta_target (target +:+ fitting budget target text) content)) = Some (target +:+ fitting budget target text)) as E
      by (apply delta_target_set; by rewrite Ht). by case_match. }
  split; [done|]. split; [done|]. unfold append_delta. rewrite Ht. cbn [fst]. split_and!.
  - intros Hw'. split; [by apply Hw|]. destruct (Z.ltb_spec budget (slen target + slen text)); [lia|done].
  - intros Hlt. destruct (Z.ltb_spec budget (slen target + slen text)); [|lia]. by eexists.
  - intros Htr. case_match; [by eexists|]. simpl. by rewrite Hc.
  - intros j Hj. apply (Ho j Hj).
Qed.

Definition apply_deltas (budget : Z) (turn : TurnSnapshot) (deltas : list (Adapter.Event * string)) : TurnSnapshot :=
  foldl (λ t d, (applyItemDelta budget t d.1 d.2).1) turn deltas.

(** The texts one after the other. *)
Definition joined (texts : list string) : string := foldr String.append "" texts.

Lemma slen_joined texts : 0 ≤ slen (joined texts).
Proof. apply slen_nonneg. Qed.

Lemma deltas_on_item budget id deltas turn target c : shows_text turn id target c → slen target ≤ budget →
  Forall (λ d, e_ItemID d.1 = id) deltas →
  let turn' := apply_deltas budget turn deltas in
  ∃ pieces c', shows_text turn' id (target +:+ joined pieces) c' ∧ Forall2 begins pieces deltas.*2 ∧
    slen (target +:+ joined pieces) ≤ budget ∧
    (slen target + slen (joined deltas.*2) ≤ budget → pieces = deltas.*2 ∧ c' = c) ∧
    (budget < slen target + slen (joined deltas.*2) → truncated c') ∧ (truncated c → truncated c') ∧
    ∀ j, j ≠ id → findItem (Some turn') j = findItem (Some turn) j.
Proof.
  revert turn target c. induction deltas as [|[e text] deltas IH]; intros turn target c Hs Hb Hid; cbn zeta.
  - exists [], c. cbn [joined foldr apply_deltas foldl fmap list_fmap]. rewrite string_append_nil_r. change (slen "") with 0.
    split_and!; [done|constructor|done|done|lia|done|done].
  - inversion_clear Hid as [|?? He Hid']. cbn [fst] in He. subst id.
    destruct (delta_step budget turn e text target c Hs Hb) as (piece&c1&Hs1&Hp&Hl&Hfit&Hover&Hkeep&Hother).
    destruct (IH _ _ _ Hs1 ltac:(rewrite slen_append; lia) Hid') as (pieces&c2&H1&H2&H3&H4&H5&H6&H7).
    cbn [apply_deltas foldl fst snd] in *. fold (apply_deltas budget (applyItemDelta budget turn e text).1 deltas) in *.
    exists (piece :: pieces), c2. cbn [fmap list_fmap joined foldr snd]. fold (joined pieces). fold (joined deltas.*2).
    rewrite string_append_assoc in H1, H3. rewrite !slen_append in *. pose proof (slen_joined deltas.*2). pose proof (slen_nonneg text).
    split_and!; [exact H1|by constructor|lia| | | |].
    + intros Hw. destruct Hfit as [-> ->]; [lia|]. destruct H4 as [-> ->]; [lia|done].
    + intros Hw. destruct (Z.le_gt_cases (slen target + slen text) budget) as [Hle|Hgt].
      * destruct Hfit as [-> ->]; [lia|]. apply H5. lia.
      * apply H6, Hover. lia.
    + intros Ht. apply H6, Hkeep, Ht.
    + intros j Hj. rewrite H7, Hother by done. done.
Qed.

(** ** A delta without an item *)

Lemma rawObject_text ms : readable (AObj ms) = true → maps_sorted (AObj ms) = true → (nesting (AObj ms) ≤ max_depth)%nat →
  rawObject (text (AObj ms)) = ms.
Proof.
  intros Hr Hs Hn. unfold rawObject, decode_object. rewrite json_parse_text by done. by rewrite to_any_tree.
Qed.

(** The methods of the app-server's deltas that say what they extend. *)
Definition delta_methods : list string :=
  ["item/agentMessage/delta"; "item/reasoning/textDelta"; "item/reasoning/summaryTextDelta"; "item/commandExecution/outputDelta";
   "command/exec/outputDelta"; "item/fileChange/outputDelta"; "process/outputDelta"; "item/plan/delta"].

Definition delta_of (id : string) (d : Adapter.Event * string) : Prop :=
  e_ItemID d.1 = id ∧ e_Method d.1 ∈ delta_methods ∧ e_Semantic d.1 = eventSemantic (e_Method d.1) ∧ ValidString d.2 = true.

Definition item_members (id text : string) (extra : list (string * any)) (type : string) : list (string * any) :=
  extra ++ [("text", AStr text); ("type", AStr type)].

Lemma delta_body_text id text extra type : ValidString id = true → ValidString text = true → ValidString type = true →
  extra = [("id", AStr id)] ∨ extra = [("id", AStr id); ("output", AStr text)] ∨ extra = [("diff", AStr text); ("id", AStr id)] →
  let body := [("item", AObj (item_members id text extra type))] in
  json_encode (AObj body) = Some (JsonTheorems.text (AObj body)) ∧ rawObject (JsonTheorems.text (AObj body)) = body.
Proof.
  intros Hi Ht Hy Hx body.
  assert (readable (AObj body) = true ∧ maps_sorted (AObj body) = true ∧ (nesting (AObj body) ≤ max_depth)%nat) as (Hr&Hs&Hn).
  { unfold body, item_members. destruct Hx as [-> | [-> | ->]]; cbn [app readable forallb fst snd nesting max_list_with foldr]; rewrite ?Hi, ?Ht, ?Hy;
      (split; [done|]); (split; [done|]); unfold max_depth; lia. }
  split; [by apply json_encode_readable|by apply rawObject_text].
Qed.

(** The one text among empty ones. *)
Lemma first_nonempty_one l txt : (∀ x, x ∈ l → x = txt ∨ x = "") → txt ∈ l → first_nonempty l = txt.
Proof.
  unfold first_nonempty. destruct (decide (txt = "")) as [->|Hne].
  - intros Hall _. induction l as [|x l IH]; [done|]. cbn [List.find]. destruct (Hall x (list_elem_of_here _ _)) as [-> | ->]; apply IH; set_solver.
  - induction l as [|x l IH]; intros Hall Hin; [by apply not_elem_of_nil in Hin|]. cbn [List.find].
    destruct (Hall x (list_elem_of_here _ _)) as [-> | ->]; [unfold str_empty; by rewrite bool_decide_false|]. simpl. apply IH; set_solver.
Qed.

(** The content of the three kinds of item. *)
Lemma delta_contents id txt type raw typeName method budget :
  let agent := [("id", AStr id)] in
  let command := [("id", AStr id); ("output", AStr txt)] in
  let change := [("diff", AStr txt); ("id", AStr id)] in
  let shown extra class := let '(content, complete) := item_content class raw typeName method (item_members id txt extra type) budget None in
    delta_target (Some content) = Some (boundString txt budget).1 ∧ complete = (boundString txt budget).2 in
  shown agent ClassAgent ∧ shown agent ClassReasoning ∧ shown command ClassCommand ∧ shown change ClassFileChange.
Proof.
  intros agent command change shown.
  assert (H1 : firstText (item_members id txt agent type) ["text"; "content"; "message"] = txt) by (apply first_nonempty_one; set_solver).
  assert (H2 : firstText (item_members id txt agent type) ["text"; "summary"; "content"] = txt) by (apply first_nonempty_one; set_solver).
  assert (H3 : firstText (item_members id txt command type) ["aggregatedOutput"; "output"; "stdout"; "text"] = txt) by (apply first_nonempty_one; set_solver).
  assert (H4 : firstText (item_members id txt change type) ["unifiedDiff"; "diff"; "output"] = txt) by (apply first_nonempty_one; set_solver).
  unfold shown, item_content, command_content, file_change_content. rewrite H1, H2, H3, H4. by destruct (boundString txt budget).
Qed.

(** Which kind of item a delta creates. *)
Lemma delta_shape e txt : e_Method e ∈ delta_methods → e_Semantic e = eventSemantic (e_Method e) →
  let id := e_ItemID e in
  ∃ extra type class, delta_item_body e txt = AObj [("item", AObj (item_members id txt extra type))] ∧ ValidString type = true ∧
    classify (ToLower type) (e_Method e) (e_Semantic e) = class ∧
    (extra = [("id", AStr id)] ∧ (class = ClassAgent ∨ class = ClassReasoning) ∨
     extra = [("id", AStr id); ("output", AStr txt)] ∧ class = ClassCommand ∨
     extra = [("diff", AStr txt); ("id", AStr id)] ∧ class = ClassFileChange).
Proof.
  destruct e as [kind sem method thread turn id pending params etext encoding stream diff plan]. cbn [e_ItemID e_Method e_Semantic].
  unfold delta_methods. rewrite !elem_of_cons. intros Hm ->. cbn zeta.
  destruct Hm as [-> |[-> |[-> |[-> |[-> |[-> |[-> |[-> |Hm]]]]]]]]; [..|by apply not_elem_of_nil in Hm].
  1, 8: exists [("id", AStr id)], "agentMessage", ClassAgent.
  3, 4: exists [("id", AStr id)], "reasoning", ClassReasoning.
  5, 6, 8: exists [("id", AStr id); ("output", AStr txt)], "commandExecution", ClassCommand.
  8: exists [("diff", AStr txt); ("id", AStr id)], "fileChange", ClassFileChange.
  all: split; [reflexivity|]; split; [reflexivity|]; split; [vm_compute; reflexivity|]; naive_solver.
Qed.

(** The item a delta creates shows the delta's text. *)
Lemma delta_item_spec budget turnID e txt : e_ItemID e ≠ "" → ValidString (e_ItemID e) = true → delta_of (e_ItemID e) (e, txt) →
  let item := delta_item budget turnID e txt in
  item_ItemId item = e_ItemID e ∧ delta_target (item_Content item) = Some (boundString txt budget).1 ∧
  item_Completeness item = (boundString txt budget).2.
Proof.
  intros Hne Hid (_&Hm&Hs&Ht) item. cbn [fst snd] in *.
  destruct (delta_shape e txt Hm Hs) as (extra&type&class&Hb&Hty&Hcl&Hx).
  destruct (delta_body_text (e_ItemID e) txt extra type Hid Ht Hty) as [Henc Hraw]; [naive_solver|].
  set (body := item_members (e_ItemID e) txt extra type) in *.
  assert (member body "id" = Some (AStr (e_ItemID e)) ∧ member body "type" = Some (AStr type)) as [Hmi Hmt].
  { unfold body, item_members. destruct Hx as [[-> _]|[[-> _]|[-> _]]]; done. }
  assert (Hne' : str_empty (e_ItemID e) = false) by (by apply bool_decide_false).
  set (raw := JsonTheorems.text (AObj [("item", AObj body)])) in *. clearbody raw.
  assert (E : ∃ turn status, item = let '(content, complete) := item_content class raw (ToLower type) (e_Method e) body budget None in
    mkItem (e_ItemID e) turn status (Some content) complete PROVENANCE_KIND_LIVE_WIRE).
  { eexists _, _. unfold item, delta_item. rewrite Hb, Henc. cbn [from_option]. unfold Datatypes.id. unfold translateItem. rewrite Hraw.
    change (get_member [("item", AObj body)] "item") with (AObj body). cbv iota.
    assert (firstString body ["id"; "itemId"] = e_ItemID e) as -> by (cbn [firstString]; unfold get_member; by rewrite Hmi).
    assert (firstString body ["type"; "kind"] = type) as -> by (cbn [firstString]; unfold get_member; by rewrite Hmt).
    rewrite Hcl. unfold first_nonempty at 1. cbn [List.find]. rewrite Hne'. cbn [negb from_option]. reflexivity. }
  destruct E as (turn&status&->).
  destruct (delta_contents (e_ItemID e) txt type raw (ToLower type) (e_Method e) budget) as (H1&H2&H3&H4).
  assert (H : let '(content, complete) := item_content class raw (ToLower type) (e_Method e) body budget None in
    delta_target (Some content) = Some (boundString txt budget).1 ∧ complete = (boundString txt budget).2).
  { unfold body. destruct Hx as [[-> [-> | ->]]|[[-> ->]|[-> ->]]]; [exact H1|exact H2|exact H3|exact H4]. }
  clear H1 H2 H3 H4. destruct (item_content _ _ _ _ _ _ _) as [content complete]. destruct H as [Hc1 Hc2]. cbn [item_ItemId item_Content item_Completeness].
  split; [reflexivity|]. split; [exact Hc1|exact Hc2].
Qed.

(** ** Streams *)

Lemma find_app_new {A} (p : A → bool) l x : List.find p l = None → p x = true → List.find p (l ++ [x]) = Some x.
Proof. induction l as [|y l IH]; cbn [List.find app]; [by intros _ ->|]. destruct (p y); [done|apply IH]. Qed.

Lemma find_app_other {A} (p : A → bool) l x : p x = false → List.find p (l ++ [x]) = List.find p l.
Proof. intros Hx. induction l as [|y l IH]; cbn [List.find app]; [by rewrite Hx|]. by destruct (p y). Qed.

Lemma append_to_none budget id txt items : List.find (λ i, bool_decide (item_ItemId i = id)) items = None → append_to budget id txt items = None.
Proof. induction items as [|i items IH]; cbn [List.find append_to]; [done|]. case_bool_decide; [done|]. intros H'. by rewrite IH. Qed.

(** C23: The text of an item that is streamed.  Whether the first delta finds its item or
    creates it, after any number of deltas the item shows, after what it showed before,
    the beginning of each delta's text, within the budget; if all of it fits, exactly the
    texts one after the other and no mark, otherwise the item is marked as truncated.
    Other items stay as they are. *)
Theorem deltas_accumulate budget id deltas turn (Hb : 0 < budget) (Hid : id ≠ "") (Hvalid : ValidString id = true) (Hd : deltas ≠ [])
    (Hdeltas : Forall (delta_of id) deltas)
    (Hturn : match findItem (Some turn) id with
             | Some item => match delta_target (item_Content item) with Some t => slen t ≤ budget | None => False end
             | None => True
             end) :
  let before := default "" (i ← findItem (Some turn) id; delta_target (item_Content i)) in
  let old := i ← findItem (Some turn) id; item_Completeness i in
  let turn' := apply_deltas budget turn deltas in
  ∃ pieces c, shows_text turn' id (before +:+ joined pieces) c ∧ Forall2 begins pieces deltas.*2 ∧ slen (before +:+ joined pieces) ≤ budget ∧
    (slen before + slen (joined deltas.*2) ≤ budget → pieces = deltas.*2 ∧ c = old) ∧
    (budget < slen before + slen (joined deltas.*2) → truncated c) ∧
    ∀ j, j ≠ id → findItem (Some turn') j = findItem (Some turn) j.
Proof.
  assert (Hids : Forall (λ d, e_ItemID d.1 = id) deltas) by (eapply Forall_impl; [exact Hdeltas|]; by intros d (E&_)).
  destruct (findItem (Some turn) id) as [item|] eqn:Ef; cbn [mbind option_bind] in *; cbn zeta.
  - destruct (delta_target (item_Content item)) as [t|] eqn:Et; [|done]. cbn [from_option]. unfold Datatypes.id.
    assert (Hi : item_ItemId item = id).
    { unfold findItem in Ef. cbn in Ef. apply List.find_some in Ef as [_ Ef]. by apply bool_decide_eq_true in Ef. }
    destruct (deltas_on_item budget id deltas turn t (item_Completeness item)) as (pieces&c&H1&H2&H3&H4&H5&_&H7); [by exists item|done|done|].
    exists pieces, c. split_and!; done.
  - destruct deltas as [|[e txt] deltas]; [done|]. inversion Hdeltas as [|?? He Hrest]; subst. inversion Hids as [|?? Hei Hirest]; subst. cbn [fst snd] in *.
    pose proof (delta_item_spec budget (turn_TurnId turn) e txt Hid Hvalid He) as (Hi&Ht&Hc). cbn zeta in *.
    set (item := delta_item budget (turn_TurnId turn) e txt) in *.
    assert (Ha : (applyItemDelta budget turn e txt).1 = set_turn_Items (turn_Items turn ++ [item]) turn).
    { unfold applyItemDelta. by rewrite append_to_none. }
    assert (Hshow : shows_text (set_turn_Items (turn_Items turn ++ [item]) turn) (e_ItemID e) (boundString txt budget).1 (boundString txt budget).2).
    { exists item. split; [|done]. unfold findItem. cbn. apply find_app_new; [done|]. by rewrite bool_decide_true. }
    destruct (boundString_spec txt budget) as [[Hle Hbs]|[Hgt (k&Hbs&Hk&_)]]; rewrite Z.max_l in * by lia; rewrite Hbs in Hshow; cbn [fst snd] in Hshow.
    + destruct (deltas_on_item budget (e_ItemID e) deltas _ _ _ Hshow) as (pieces&c&H1&H2&H3&H4&H5&_&H7); [done|done|].
      exists (txt :: pieces), c. cbn [apply_deltas foldl fst snd fmap list_fmap joined foldr from_option]. fold (joined pieces) (joined deltas.*2). rewrite Ha.
      change (slen "") with 0. rewrite !slen_append in *. change ("" +:+ (txt +:+ joined pieces)) with (txt +:+ joined pieces).
      split_and!; [exact H1|constructor; [exists (String.length txt); by rewrite str_take_ge|done]|done| | |].
      * intros Hw. destruct H4 as [-> ->]; [lia|done].
      * intros Hw. apply H5. lia.
      * intros j Hj. rewrite H7 by done. unfold findItem. cbn. apply find_app_other. by rewrite Hi, bool_decide_false.
    + destruct (deltas_on_item budget (e_ItemID e) deltas _ _ _ Hshow) as (pieces&c&H1&H2&H3&_&_&H6&H7); [pose proof (slen_take k txt); lia|done|].
      exists (str_take k txt :: pieces), c. cbn [apply_deltas foldl fst snd fmap list_fmap joined foldr from_option]. fold (joined pieces) (joined deltas.*2). rewrite Ha.
      change (slen "") with 0. rewrite !slen_append in *. change ("" +:+ (str_take k txt +:+ joined pieces)) with (str_take k txt +:+ joined pieces).
      pose proof (slen_joined deltas.*2).
      split_and!; [exact H1|constructor; [by exists k|done]|done|lia| |].
      * intros _. apply H6. by eexists.
      * intros j Hj. rewrite H7 by done. unfold findItem. cbn. apply find_app_other. by rewrite Hi, bool_decide_false.
Qed.

Definition stream_delta (txt : string) : Adapter.Event * string :=
  (Adapter.mkEvent EventItemDelta SemanticAgentText "item/agentMessage/delta" "thread" "t1" "m1" "" "" txt "" "" "" [], txt).

Lemma deltas_accumulate_witness :
  shows_text (apply_deltas 100 (new_turn "t1" 0) [stream_delta "Hel"; stream_delta "lo"]) "m1" "Hello" None.
Proof.
  destruct (deltas_accumulate 100 "m1" [stream_delta "Hel"; stream_delta "lo"] (new_turn "t1" 0)) as (pieces&c&H1&_&_&H4&_);
    [lia|discriminate|reflexivity|discriminate|repeat constructor; set_solver|done|].
  destruct H4 as [-> ->]; [vm_compute; discriminate|exact H1].
Defined.

(** A delta whose first character does not fit any more is dropped, and a later, shorter one
    is still appended: the text then has a gap, marked only as truncated. *)
Lemma delta_gap :
  let e_acute := of_chars [chr 195; chr 169] in
  let turn := apply_deltas 4 (new_turn "t1" 0) [stream_delta "abc"; stream_delta e_acute; stream_delta "d"] in
  shows_text turn "m1" "abcd" (Some (mkCompleteness true true 5 "content exceeds C/S frame budget")).
Proof. eexists. split; [vm_compute; reflexivity|]. vm_compute. done. Qed.

(** ** Option ids *)

Lemma pretty_no_dash n : "-"%char ∉ chars (pretty (Z.of_nat (S n))).
Proof.
  assert (∀ x s, "-"%char ∉ chars s → "-"%char ∉ chars (pretty_N_go x s)) as H.
  { intros x. induction x as [x IH] using (well_founded_induction N.lt_wf_0). intros s Hs.
    destruct (decide (x = 0)%N) as [->|Hx]; [by rewrite pretty_N_go_0|]. rewrite pretty_N_go_step by lia.
    apply IH; [apply N.div_lt; lia|]. cbn [chars list_ascii_of_string]. rewrite not_elem_of_cons. split; [|done].
    pose proof (digit_of_pretty (x `mod` 10)%N (N.mod_lt x 10 ltac:(lia))) as Hd. intros E. rewrite <- E in Hd. discriminate Hd. }
  destruct (Z.of_nat (S n)) as [|p|p] eqn:E; [lia| |lia]. change (pretty (Zpos p)) with (pretty_N_go (Npos p) ""). apply H, not_elem_of_nil.
Qed.

Lemma split_at_dash (a b a' b' : list ascii) : "-"%char ∉ a → "-"%char ∉ a' → a ++ "-"%char :: b = a' ++ "-"%char :: b' → a = a' ∧ b = b'.
Proof.
  revert a'. induction a as [|x a IH]; intros [|x' a'] Ha Ha' E; simpl in E.
  - by injection E.
  - injection E as <- _. destruct Ha'. apply elem_of_cons. by left.
  - injection E as -> _. destruct Ha. apply elem_of_cons. by left.
  - injection E as -> E. rewrite not_elem_of_cons in Ha, Ha'. destruct Ha as [_ Ha], Ha' as [_ Ha'].
    by destruct (IH a' Ha Ha' E) as [-> ->].
Qed.

(** An option id determines the place and the label of its option. *)
Lemma canonicalOptionID_inj i j a b : canonicalOptionID i a = canonicalOptionID j b → i = j ∧ a = b.
Proof.
  unfold canonicalOptionID. intros E. apply (f_equal chars) in E. rewrite !chars_app in E. apply (inj (app (chars "option-"))) in E.
  change (chars "-") with ["-"%char] in E. cbn [app] in E.
  apply split_at_dash in E as [E1 E2]; [|apply pretty_no_dash..]. split.
  - apply (f_equal of_chars) in E1. rewrite !of_chars_chars in E1. apply (inj pretty) in E1. lia.
  - apply (f_equal of_chars) in E2. rewrite !of_chars_chars in E2. apply (f_equal (base64_decode RawURLEncoding)) in E2.
    rewrite !base64_roundtrip in E2 by apply encodings_sane. by injection E2.
Qed.

Lemma option_label_at k options i o : options !! i = Some o → option_label k (canonicalOptionID (k + i) (uo_Label o)) options = Some (uo_Label o).
Proof.
  revert k i. induction options as [|p options IH]; intros k i Hi; [done|]. cbn [option_label]. destruct i as [|i].
  - injection Hi as ->. rewrite Nat.add_0_r. by rewrite bool_decide_true.
  - rewrite bool_decide_false; [rewrite <- Nat.add_succ_comm; by apply IH|]. intros [E _]%canonicalOptionID_inj. lia.
Qed.

Lemma option_label_known k options selected label : option_label k selected options = Some label →
  ∃ i o, options !! i = Some o ∧ selected = canonicalOptionID (k + i) (uo_Label o) ∧ label = uo_Label o.
Proof.
  revert k. induction options as [|p options IH]; intros k H; [done|]. cbn [option_label] in H. case_bool_decide as E.
  - injection H as <-. exists 0%nat, p. by rewrite Nat.add_0_r.
  - destruct (IH _ H) as (i&o&Hi&Hs&Hl). exists (S i), o. by rewrite Nat.add_succ_r.
Qed.

(** ** Answers *)

(** What the answers say to a question. *)
Definition answers_to (answers : list (string * list string)) (id : string) : list string :=
  match List.find (λ a, bool_decide (a.1 = id)) answers with Some a => a.2 | None => [] end.

Lemma answers_to_add answers id label j :
  answers_to (add_answer id label answers) j = if decide (j = id) then answers_to answers id ++ [label] else answers_to answers j.
Proof.
  unfold answers_to. induction answers as [|[k ls] answers IH]; cbn [add_answer List.find fst].
  - case_decide as E; [subst; by rewrite bool_decide_true|by rewrite bool_decide_false].
  - case_bool_decide as Ek; cbn [List.find fst]; [subst k|].
    + destruct (decide (j = id)) as [->|Hj]; [by rewrite bool_decide_true|]. by rewrite bool_decide_false by done.
    + destruct (decide (j = id)) as [->|Hj]; [by rewrite bool_decide_false|]. by destruct (bool_decide (k = j)).
Qed.

(** A choice of the user: a question, the places of the options taken, a free text. *)
Definition choice : Type := Adapter.UserInputQuestion * list nat * string.

(** The answer a client makes of it: it names the options by the ids it was shown. *)
Definition answer_of (c : choice) : UserInputAnswer :=
  let '(q, taken, free) := c in
  mkUserInputAnswer (uq_ID q) (omap (λ i, opt_OptionId <$> qst_Options (canonical_question q) !! i) taken) free.

(** The labels and texts it stands for. *)
Definition chosen (c : choice) : list string :=
  let '(q, taken, free) := c in
  omap (λ i, uo_Label <$> uq_Options q !! i) taken ++ (if str_empty free then [] else [free]).

Definition chosen_for (id : string) (cs : list choice) : list string := c ← cs; if bool_decide (uq_ID c.1.1 = id) then chosen c else [].

Lemma shown_option q i : opt_OptionId <$> qst_Options (canonical_question q) !! i = (λ o, canonicalOptionID i (uo_Label o)) <$> uq_Options q !! i.
Proof. unfold canonical_question. cbn [qst_Options]. rewrite list_lookup_imap, <- option_fmap_compose. by destruct (uq_Options q !! i). Qed.

Lemma select_options_ok q taken answers :
  ∃ answers', select_options (uq_ID q) (uq_Options q) (ans_SelectedOptionIds (answer_of (q, taken, ""))) answers = Ok answers' ∧
    ∀ j, answers_to answers' j = answers_to answers j ++ if decide (j = uq_ID q) then omap (λ i, uo_Label <$> uq_Options q !! i) taken else [].
Proof.
  cbn [answer_of ans_SelectedOptionIds]. revert answers. induction taken as [|i taken IH]; intros answers; cbn [omap list_omap].
  - eexists. split; [done|]. intros j. case_decide; by rewrite app_nil_r.
  - rewrite shown_option. destruct (uq_Options q !! i) as [o|] eqn:Eo; cbn [fmap option_fmap option_map]; [|apply IH].
    cbn [select_options]. pose proof (option_label_at 0 _ i o Eo) as Hl. cbn [Nat.add] in Hl. rewrite Hl.
    destruct (IH (add_answer (uq_ID q) (uo_Label o) answers)) as (answers'&->&H). exists answers'. split; [done|]. intros j.
    rewrite H, answers_to_add. case_decide; [subst|done]. by rewrite <- app_assoc.
Qed.

Lemma collect_answers_ok questions cs answers : NoDup (uq_ID <$> questions) → Forall (λ c : choice, c.1.1 ∈ questions) cs →
  ∃ answers', collect_answers questions (answer_of <$> cs) answers = Ok answers' ∧
    ∀ id, answers_to answers' id = answers_to answers id ++ chosen_for id cs.
Proof.
  intros Hnd. revert answers. induction cs as [|[[q taken] free] cs IH]; intros answers Hq.
  - eexists. split; [done|]. intros id. by rewrite app_nil_r.
  - inversion_clear Hq as [|?? Hin Hqs]. cbn [fst] in Hin. rewrite fmap_cons. cbn [collect_answers answer_of ans_QuestionId ans_SelectedOptionIds ans_FreeFormText].
    assert (List.find (λ p, bool_decide (uq_ID p = uq_ID q)) questions = Some q) as ->.
    { clear -Hnd Hin. induction questions as [|p questions IH]; [by apply not_elem_of_nil in Hin|]. cbn [List.find].
      apply NoDup_cons in Hnd as [Hp Hnd]. apply elem_of_cons in Hin as [<- |Hin]; [by rewrite bool_decide_true|].
      rewrite bool_decide_false; [by apply IH|]. intros E. apply Hp. rewrite E. by apply list_elem_of_fmap_2. }
    destruct (select_options_ok q taken answers) as (answers1&E&H1). cbn [answer_of ans_SelectedOptionIds] in E. rewrite E.
    destruct (IH (if str_empty free then answers1 else add_answer (uq_ID q) free answers1) Hqs) as (answers2&->&H2).
    exists answers2. split; [done|]. intros id. rewrite H2. unfold chosen_for. rewrite bind_cons. cbn [fst chosen].
    assert (answers_to (if str_empty free then answers1 else add_answer (uq_ID q) free answers1) id =
      answers_to answers1 id ++ if decide (id = uq_ID q) then (if str_empty free then [] else [free]) else []) as ->.
    { destruct (str_empty free); [case_decide; by rewrite app_nil_r|]. rewrite answers_to_add. case_decide; [by subst|by rewrite app_nil_r]. }
    rewrite H1. destruct (decide (id = uq_ID q)) as [->|Hne].
    + rewrite bool_decide_true by done. by rewrite <- !app_assoc.
    + rewrite bool_decide_false by done. by rewrite !app_nil_r.
Qed.

(** C24: Answers survive the round trip through the protocol.  Options shown under their
    canonical ids and chosen by them come back as exactly the labels the app-server gave,
    per question and in the order they were given, free texts included; and an answer with
    an unknown question or an option id that was not shown is refused. *)
Theorem answers_roundtrip questions (cs : list choice) (Hnd : NoDup (uq_ID <$> questions)) (Hq : Forall (λ c : choice, c.1.1 ∈ questions) cs) :
  (∃ answers, collect_answers questions (answer_of <$> cs) [] = Ok answers ∧ ∀ id, answers_to answers id = chosen_for id cs) ∧
  ∀ given answers, collect_answers questions given [] = Ok answers →
    Forall (λ a, ∃ q, q ∈ questions ∧ uq_ID q = ans_QuestionId a ∧
      Forall (λ s, s ∈ opt_OptionId <$> qst_Options (canonical_question q)) (ans_SelectedOptionIds a)) given.
Proof.
  split; [destruct (collect_answers_ok questions cs [] Hnd Hq) as (answers&H1&H2); by exists answers|].
  intros given. generalize ([] : list (string * list string)). induction given as [|a given IH]; intros start answers H; [constructor|].
  cbn [collect_answers] in H. destruct (List.find _ questions) as [q|] eqn:Ef; [|done].
  destruct (select_options _ _ _ start) as [answers1|] eqn:Es; [|done]. constructor; [|by eapply IH].
  apply List.find_some in Ef as [Hin Hid]. apply bool_decide_eq_true in Hid. exists q. split; [by apply list_elem_of_In|]. split; [done|].
  clear -Es. revert start Es. generalize (ans_SelectedOptionIds a). intros l. induction l as [|s l IH]; intros start Es; [constructor|].
  cbn [select_options] in Es. destruct (option_label 0 s (uq_Options q)) as [label|] eqn:El; [|done]. constructor; [|by eapply IH].
  destruct (option_label_known _ _ _ _ El) as (i&o&Hi&->&_). apply list_elem_of_fmap.
  exists (mkUserInputOption (canonicalOptionID i (uo_Label o)) (uo_Label o) (uo_Description o)). split; [done|].
  unfold canonical_question. cbn [qst_Options]. apply (list_elem_of_lookup_2 _ i). rewrite list_lookup_imap. by rewrite Hi.
Qed.

Definition demo_question : Adapter.UserInputQuestion :=
  Adapter.mkUserInputQuestion "q1" "Deploy?" "Which target?" true true false
    [Adapter.mkUserInputOption "staging" ""; Adapter.mkUserInputOption "prod-eu" ""; Adapter.mkUserInputOption "prod-us" ""].

Lemma answers_roundtrip_witness :
  ∃ answers, collect_answers [demo_question] (answer_of <$> [(demo_question, [2; 0]%nat, "now")]) [] = Ok answers ∧
    answers_to answers "q1" = ["prod-us"; "staging"; "now"].
Proof.
  destruct (answers_roundtrip [demo_question] [(demo_question, [2; 0]%nat, "now")]) as [(answers&H&Ha) _]; [repeat constructor; set_solver..|].
  exists answers. split; [exact H|]. rewrite Ha. vm_compute. reflexivity.
Defined.
