(* ===== verification/ManagerTurnTheorems.v ===== *)
(** * Turns and events of a Codex

    A turn that runs at the app-server is not started twice whatever fails afterwards, and
    an event of the app-server reaches memory, database and clients as one. *)

From Stdlib Require Import Ascii String.
From stdpp Require Import base tactics numbers list gmap strings pretty.
From S2P Require Import Prelude GoError GoStrings Float64 Json Client Adapter Remote Persistence Activity HostEvents CodecTable Workspace Base64 Attachments Budget BudgetTheorems Translate Manager ManagerTheorems ManagerWorkspace ManagerWorkspaceTheorems ManagerItems ManagerItemTheorems ManagerTurns.
Local Open Scope string_scope.
Local Open Scope Z_scope.
Local Open Scope list_scope.

(** ** Frames *)

Definition codex_of (s : MState) (id : string) : option Codex := v ← mg_byID s !! id; cv_Codex v.

Lemma codex_of_find s id c : codex_of s id = Some c → ∃ v, find_view s id = Some (v, c) ∧ mg_byID s !! id = Some v ∧ cv_Codex v = Some c.
Proof. unfold codex_of, find_view. destruct (mg_byID s !! id) as [v|]; [|done]. cbn. intros E. exists v. by rewrite E. Qed.

Lemma lookup_codex_spec s id : lookup_codex id s = (s, match codex_of s id with Some c => Ok c | None => Err codex_not_found end).
Proof. unfold lookup_codex, find_view, codex_of. destruct (mg_byID s !! id) as [v|]; [|done]. cbn. by destruct (cv_Codex v). Qed.

(** Equal in memory, but for the note of degradation. *)
Definition same_memory (s s' : MState) : Prop :=
  mg_byID s' = mg_byID s ∧ mg_warningDeadline s' = mg_warningDeadline s ∧ rest s' = rest s.

Lemma same_memory_trans s1 s2 s3 : same_memory s1 s2 → same_memory s2 s3 → same_memory s1 s3.
Proof. intros (H1&H2&H3) (H4&H5&H6). split_and!; congruence. Qed.

Lemma same_memory_events a note s : same_memory s (set_mg_asyncError note (set_mg_events a s)).
Proof. done. Qed.

Section Turns.
Context `{PJ : ProtoJSON} `{PL : !ProtoJSONLaws} (cfg : ManagerConfig) (audit : Event → option string).

Lemma publishEvent_frame wall ev v s s' r : publishEvent audit wall ev v s = (s', r) → ∃ a, s' = set_mg_events a s.
Proof. intros (a&->&_)%publishEvent_spec. by exists a. Qed.

Lemma publishCodex_frame wall c req s s' r : publishCodex cfg audit wall c req s = (s', r) → ∃ a, s' = set_mg_events a s.
Proof.
  unfold publishCodex, mbind, M_bind, gets. destruct (mg_byID s !! _) as [v|]; cycle 1.
  { intros [= <- <-]. exists (mg_events s). by destruct s. }
  destruct (publishEvent _ _ _ _ s) as [s1 r1] eqn:E. apply publishEvent_frame in E as (a&->). destruct r1; intros [= <- <-]; by exists a.
Qed.

Lemma noting_frame {A} (m : MM A) s s' r : (∀ s1 r1, m s = (s1, r1) → same_memory s s1) → noting m s = (s', r) → same_memory s s'.
Proof.
  intros Hm. unfold noting, mbind, M_bind, attempt, mret, M_ret. destruct (m s) as [s1 r1]. specialize (Hm _ _ eq_refl).
  destruct r1 as [x|e]; intros [= <- <-]; [done|]. exact Hm.
Qed.

(** ** A started turn *)

(** A Codex that cannot start a turn. *)
Definition busy_with (turnID : string) (c : Codex) : Prop :=
  cdx_Status c ≠ CODEX_STATUS_IDLE ∧ cdx_ActiveTurnId c = turnID ∧ cdx_ManagementState c = MANAGEMENT_STATE_MANAGED.

Lemma bounded_codex v c : cv_Codex v = Some c → ∃ c', cv_Codex (boundCurrentView (mc_ContentBudget cfg) v) = Some c' ∧ Core.codex c' = Core.codex c.
Proof.
  intros Hc. pose proof (boundCurrentView_core (mc_ContentBudget cfg) v) as E. apply (f_equal cv_Codex) in E. unfold Core.view in E. cbn in E.
  rewrite Hc in E. destruct (cv_Codex (boundCurrentView _ v)) as [c'|]; [|done]. exists c'. split; [done|]. cbn in E. congruence.
Qed.

Lemma core_busy turnID c c' : Core.codex c' = Core.codex c → busy_with turnID c → busy_with turnID c'.
Proof. unfold Core.codex, busy_with. destruct c, c'. cbn. intros [=]. by subst. Qed.

Lemma running_codex_busy now turnID c : busy_with turnID (running_codex cfg now turnID c).
Proof. unfold busy_with, running_codex. cbn. split; [|done]. repeat case_bool_decide; cbn; congruence. Qed.

(** [setRunning] keeps its snapshot whatever fails. *)
Lemma setRunning_busy now wall id turnID req s s' r c : codex_of s id = Some c → setRunning cfg audit now wall id turnID req s = (s', r) →
  ∃ c', codex_of s' id = Some c' ∧ busy_with turnID c'.
Proof.
  intros (v&_&Hv&Hc)%codex_of_find. unfold setRunning, mbind, M_bind, gets, put_deadline, put_view, modify, attempt. rewrite Hv.
  set (snapshot := running_view cfg now turnID v).
  assert (∃ c', cv_Codex snapshot = Some c' ∧ busy_with turnID c') as (c'&Hc'&Hbusy).
  { unfold snapshot, running_view. edestruct bounded_codex as (c'&E&Hcore); [|exists c'; split; [exact E|]; eapply core_busy; [exact Hcore|]].
    - unfold with_codex. cbn. rewrite Hc. done.
    - apply running_codex_busy. }
  set (s1 := set_mg_warningDeadline _ s). destruct (persistState snapshot s1) as [s2 rp] eqn:Ep. apply persistState_spec in Ep as (p&->&_).
  set (s3 := set_mg_byID _ _). intros Hn. apply noting_frame in Hn as (Hby&_&_).
  - exists c'. split; [|done]. unfold codex_of. rewrite Hby. subst s3. cbn. by rewrite lookup_insert_eq.
  - unfold of_res. intros s4 r4. destruct rp as [[]|e]; [|by intros [= <- <-]].
    destruct (publishEvent _ _ _ _ s3) as [s5 r5] eqn:Ee. apply publishEvent_frame in Ee as (a&->). destruct r5; [|by intros [= <- <-]].
    rewrite Hc'. intros (a'&->)%publishCodex_frame. done.
Qed.

Lemma publishAccepted_busy now wall id turnID parts req s s' r c : codex_of s id = Some c →
  publishAcceptedUserMessage cfg audit now wall id turnID parts req s = (s', r) → codex_of s' id = Some c.
Proof.
  intros (v&Hf&Hv&Hc)%codex_of_find. unfold publishAcceptedUserMessage, mbind, M_bind, gets. rewrite Hf.
  set (snapshot := set_cv_GeneratedAtUnixMs _ _). assert (cv_Codex snapshot = Some c) as Hs by exact Hc.
  unfold noting, mbind, M_bind, attempt, put_view, modify, mret, M_ret.
  destruct (persistState snapshot s) as [s1 rp] eqn:Ep. apply persistState_spec in Ep as (p&->&_).
  destruct rp as [[]|e]; [|intros [= <- <-]; unfold codex_of; cbn; by rewrite Hv].
  set (s2 := set_mg_byID _ _). destruct (publishEvent _ _ _ _ s2) as [s3 re] eqn:Ee. apply publishEvent_frame in Ee as (a&->).
  assert (∀ note, codex_of (set_mg_asyncError note (set_mg_events a s2)) id = Some c) as H.
  { intros note. unfold codex_of, s2. cbn. by rewrite lookup_insert_eq. }
  destruct re as [e|e]; intros [= <- <-]; [exact (H (mg_asyncError s2))|apply H].
Qed.

(** The database has no view of the Codex that lacks the Codex. *)
Definition stored_with_codex (s : MState) (id : string) : Prop := ∀ d, stored_view (mdb s) id = Some d → is_Some (cv_Codex d).

Lemma agent_moves_codex ctxErr now wall id begin s s' r : is_Some (codex_of s id) → stored_with_codex s id →
  agent_moves audit ctxErr now wall id begin s = (s', r) → is_Some (codex_of s' id).
Proof.
  intros [c Hc] Hst. unfold agent_moves, mbind, M_bind, workspaces, zoom, known, gets.
  destruct (sv_states (mg_workspaces s) !! id) as [p|]; [|by intros E; apply (f_equal fst) in E; cbn in E; subst s'; exists c]. cbn.
  destruct (sv_heap (mg_workspaces s) !! p) as [w|]; [|by intros E; apply (f_equal fst) in E; cbn in E; subst s'; exists c].
  destruct (ws_removed w); [by intros E; apply (f_equal fst) in E; cbn in E; subst s'; exists c|]. destruct (ws_pending w); [by intros E; apply (f_equal fst) in E; cbn in E; subst s'; exists c|].
  unfold modify, attempt, of_res. destruct (begin _ w) as [w1 [fl|]]; [|by intros E; apply (f_equal fst) in E; cbn in E; subst s'; exists c].
  destruct (commitWorkspaceState _ _ _ _ _ _) as [s1 outcome] eqn:Ec. intros [= <- <-].
  apply codex_of_find in Hc as (v&_&Hv&Hc).
  match type of Ec with commitWorkspaceState _ _ _ _ _ ?x = _ => set (s0 := x) in Ec end.
  destruct (commitWorkspaceState_spec audit now wall id (fl_attempted fl) v c s0 s1 outcome Hv Hc Ec) as [Hnew Hold].
  assert (s1 = s0 ∨ committed id (fl_attempted fl) v s0 s1 outcome) as [->|Hcom].
  { destruct (cv_WorkspaceAccessState v) as [current|]; [|right; by apply Hold].
    destruct (decide (was_Generation (fl_attempted fl) < was_Generation current)); [left; by apply Hnew|right; apply Hold; lia]. }
  - unfold codex_of. cbn. rewrite Hv. cbn. by rewrite Hc.
  - destruct Hcom as (_&Hdb&v'&Hv'&Hvc&_). unfold codex_of. cbn. rewrite Hv'. cbn.
    destruct Hvc as [E|E]; [rewrite E, Hc; by eexists|]. destruct Hdb as [E'|(d&E'&_&E'')].
    + apply (Hst v'). change (mdb s) with (mdb s0). by rewrite <- E', E.
    + assert (d = v') as -> by congruence. rewrite E'', Hc. by eexists.
Qed.

Lemma StartTurn_refused runtime call resolve ctxErr now wall req requestID s a c : codex_of s (rq_CodexId req) = Some c → cdx_Status c ≠ CODEX_STATUS_IDLE →
  StartTurn cfg audit runtime call resolve ctxErr now wall req requestID (s, a) =
    ((s, a), Err (rpcErr ERROR_CODE_TURN_ALREADY_RUNNING "turn already active")).
Proof.
  intros Hc Hidle. unfold StartTurn. unfold mbind at 1, M_bind at 1, mgr at 1, zoom at 1. cbn [fst snd]. rewrite lookup_codex_spec, Hc.
  by rewrite bool_decide_true.
Qed.

(** What follows a turn the app-server accepted. *)
Lemma started_busy ctxErr now wall id turnID parts req s s1 w s2 r : is_Some (codex_of s id) → stored_with_codex s id →
  attempt (noting (WorkspaceAgentStarted audit ctxErr now wall id turnID)) s = (s1, w) →
  attempt (_ ← setRunning cfg audit now wall id turnID req; publishAcceptedUserMessage cfg audit now wall id turnID parts req) s1 = (s2, r) →
  ∃ c', codex_of s2 id = Some c' ∧ busy_with turnID c'.
Proof.
  intros Hc Hst. unfold attempt at 1. destruct (noting _ s) as [s1' rw] eqn:Ew. intros [= <- <-].
  assert (is_Some (codex_of s1' id)) as [c1 Hc1].
  { unfold noting, mbind, M_bind, attempt in Ew. destruct (WorkspaceAgentStarted _ _ _ _ _ _ s) as [s0 r0] eqn:E0.
    apply with_workspaceError_inv in E0 as (r1&E0&_).
    assert (is_Some (codex_of s0 id)) as [c0 Hc0].
    { destruct (str_empty turnID); [by injection E0 as <- _|by eapply agent_moves_codex]. }
    destruct r0; injection Ew as <- _; by exists c0. }
  unfold attempt, mbind, M_bind. destruct (setRunning _ _ _ _ _ _ _ s1') as [s3 r3] eqn:Er.
  destruct (setRunning_busy _ _ _ _ _ _ _ _ _ Hc1 Er) as (c'&Hc'&Hb). destruct r3 as [[]|e]; [|intros [= <- <-]; eauto].
  destruct (publishAcceptedUserMessage _ _ _ _ _ _ _ _ s3) as [s4 r4] eqn:Ea. intros [= <- <-]. exists c'. split; [|done].
  by eapply publishAccepted_busy.
Qed.

(** C3: A turn is never started twice because something failed.  [StartTurn] either
    changes nothing and reports an error, or the app-server has accepted a turn; then,
    whatever failed afterwards (the workspace, the database, a publication) and whatever
    the call reports, the Codex is shown as managed and busy with this turn, and every
    further [StartTurn] for it is refused without asking the app-server again. *)
Theorem accepted_turn_not_repeated runtime call resolve ctxErr now wall req requestID s a s' a' r c
    (Hc : codex_of s (rq_CodexId req) = Some c) (Hst : stored_with_codex s (rq_CodexId req))
    (Hrun : StartTurn cfg audit runtime call resolve ctxErr now wall req requestID (s, a) = ((s', a'), r)) :
  (s' = s ∧ a' = a ∧ ∃ e, r = Err e) ∨
  ∃ turn inputs, Adapter.StartTurn call (cdx_ThreadId c) inputs (rq_Options req) = (turn, None) ∧
    (∃ c', codex_of s' (rq_CodexId req) = Some c' ∧ busy_with (tn_ID turn) c') ∧
    ∀ runtime2 call2 resolve2 ctxErr2 now2 wall2 req2 requestID2, rq_CodexId req2 = rq_CodexId req →
      StartTurn cfg audit runtime2 call2 resolve2 ctxErr2 now2 wall2 req2 requestID2 (s', a') =
        ((s', a'), Err (rpcErr ERROR_CODE_TURN_ALREADY_RUNNING "turn already active")).
Proof.
  unfold StartTurn in Hrun. unfold mbind at 1, M_bind at 1, mgr at 1, zoom at 1 in Hrun. cbn [fst snd] in Hrun. rewrite lookup_codex_spec, Hc in Hrun.
  case_bool_decide as Hidle; [injection Hrun as <- <- <-; left; eauto|].
  unfold need_adapter in Hrun. destruct runtime as [e|]; [injection Hrun as <- <- <-; left; eauto|].
  unfold mbind at 1, M_bind at 1 in Hrun. cbn [mret M_ret] in Hrun.
  set (resume := if bool_decide (cdx_ManagementState c = MANAGEMENT_STATE_UNMANAGED) then _ else _) in Hrun.
  unfold mbind at 1, M_bind at 1 in Hrun.
  assert (∃ rr, resume (s, a) = ((s, a), rr)) as [rr0 Hres].
  { subst resume. repeat case_match; by eexists. }
  rewrite Hres in Hrun. destruct rr0 as [[]|e]; [|injection Hrun as <- <- <-; left; eauto].
  unfold mbind at 1, M_bind at 1, mgr at 1, zoom at 1, gets at 1 in Hrun. cbn [fst snd] in Hrun.
  unfold mbind at 1, M_bind at 1, of_res at 1 in Hrun.
  destruct (accept_input _ _ _) as [[inputs parts]|e]; [|injection Hrun as <- <- <-; left; eauto]. cbn [fst snd] in Hrun.
  destruct (Adapter.StartTurn call _ inputs _) as [turn [e|]] eqn:Et; [injection Hrun as <- <- <-; left; eauto|].
  right. exists turn, inputs. split; [exact Et|].
  unfold mbind, M_bind, adp, mgr, zoom, modify in Hrun. cbn [fst snd] in Hrun.
  destruct (attempt (noting _) s) as [s1 rw] eqn:Ew. unfold attempt in Ew at 1. destruct (noting _ s) as [s1' rw'] eqn:Ew'. injection Ew as <- <-.
  cbn [fst snd] in Hrun.
  destruct (attempt _ s1') as [s2 rr] eqn:Er.
  destruct (started_busy ctxErr now wall (rq_CodexId req) (tn_ID turn) parts requestID s s1' (Ok rw') s2 rr) as (c'&Hc'&Hb);
    [by exists c|done|unfold attempt; by rewrite Ew'|exact Er|].
  assert (s' = s2) as ->. { destruct rr as [[x|x]|x]; [destruct rw' as [y|y]| |]; injection Hrun as <- _ _; done. }
  split; [by exists c'|]. intros. rewrite (StartTurn_refused _ _ _ _ _ _ _ _ _ _ c'); [done| |apply Hb]. congruence.
Qed.

(** ** Applied events *)

Lemma upsert_map {A B} (identity : A → string) (f : A → B) x y (l : list A) : identity x = identity y → f x = f y →
  f <$> upsert identity x l = f <$> upsert identity y l.
Proof. intros Hi Hf. induction l as [|z l IH]; cbn; [by rewrite Hf|]. rewrite Hi. case_bool_decide; cbn; by rewrite ?Hf, ?IH. Qed.

Lemma upsert_again {A} (identity : A → string) x (l : list A) : upsert identity x (upsert identity x l) = upsert identity x l.
Proof.
  induction l as [|z l IH]; cbn; [by rewrite bool_decide_true|]. case_bool_decide as E; cbn; [by rewrite bool_decide_true|].
  by rewrite bool_decide_false, IH.
Qed.

Lemma upsert_ids {A} (identity : A → string) x (l : list A) :
  identity <$> upsert identity x l = (identity <$> l) ++ (if bool_decide (identity x ∈ identity <$> l) then [] else [identity x]).
Proof.
  induction l as [|z l IH]; [done|]. cbn [upsert]. destruct (decide (identity z = identity x)) as [E|E].
  - rewrite (bool_decide_true (identity z = identity x)), bool_decide_true by (done || (rewrite fmap_cons; apply elem_of_cons; by left)). cbn.
    by rewrite app_nil_r, E.
  - rewrite (bool_decide_false (identity z = identity x)) by done. cbn. rewrite IH. f_equal. f_equal.
    erewrite bool_decide_ext; [done|]. rewrite elem_of_cons. naive_solver.
Qed.

(** The item or the request of an event. *)
Definition payload_item (p : EventPayload) : option Item :=
  match p with Event_ItemStarted i | Event_ItemUpdated i | Event_ItemCompleted i => Some i | _ => None end.
Definition payload_request (p : EventPayload) : option PendingRequest := match p with Event_PendingRequestUpdated r => Some r | _ => None end.

Lemma share_into_parts p v : share_into p v =
  match payload_item p, payload_request p with
  | Some i, _ => with_turn (upsertItem i) v
  | None, Some r => upsertPending r v
  | None, None => v
  end.
Proof. by destruct p. Qed.

Lemma payload_item_core p : payload_item (Core.payload p) = Core.item <$> payload_item p.
Proof. by destruct p. Qed.
Lemma payload_request_core p : payload_request (Core.payload p) = Core.pending <$> payload_request p.
Proof. by destruct p. Qed.

Lemma pending_core_id p : pendingIDOf (Core.pending p) = pendingIDOf p.
Proof. by destruct p as [[]|[]|]. Qed.
Lemma item_core_id i : item_ItemId (Core.item i) = item_ItemId i.
Proof. by destruct i. Qed.

Lemma share_into_core p q v : Core.payload p = Core.payload q → Core.view (share_into p v) = Core.view (share_into q v).
Proof.
  intros E. pose proof (f_equal payload_item E) as Ei. pose proof (f_equal payload_request E) as Er. rewrite !share_into_parts.
  rewrite !payload_item_core in Ei. rewrite !payload_request_core in Er.
  destruct (payload_item p) as [i|], (payload_item q) as [j|]; try done; cbn [fmap option_fmap option_map] in Ei.
  - apply (inj Some) in Ei. unfold Core.view, with_turn, upsertItem. cbn. destruct (cv_ActiveTurn v) as [t|]; [|done]. cbn. unfold Core.turn. cbn.
    rewrite (upsert_map item_ItemId Core.item i j); [done| |done]. by rewrite <- (item_core_id i), Ei, item_core_id.
  - destruct (payload_request p) as [a|], (payload_request q) as [b|]; try done; cbn [fmap option_fmap option_map] in Er. apply (inj Some) in Er.
    unfold Core.view, upsertPending. cbn. rewrite (upsert_map pendingIDOf Core.pending a b); [done| |done].
    by rewrite <- (pending_core_id a), Er, pending_core_id.
Qed.

(** An event's item or request is part of the changed view. *)
Definition shared (g : change) : Prop := share_into (cg_payload g) (cg_view g) = cg_view g.

Lemma share_into_generated p at_ v : share_into p (set_cv_GeneratedAtUnixMs at_ v) = set_cv_GeneratedAtUnixMs at_ (share_into p v).
Proof. by destruct p. Qed.

(** Bounding the event and the view changes texts only. *)
Lemma settle_core wall id g : shared g → Core.view (settle cfg wall id g).1 = Core.view (set_cv_GeneratedAtUnixMs wall (cg_view g)).
Proof.
  intros Hs. unfold settle. set (ev0 := mkEvent _ _ _ _ _ _). pose proof (boundCanonicalEvent_core (mc_ContentBudget cfg) ev0) as E.
  destruct (boundCanonicalEvent _ ev0) as [i q o k cm pl]. apply (f_equal ev_Payload) in E. cbn in E. destruct pl as [p|]; [|done]. injection E as E.
  cbn [ev_Payload ev_Completeness fst]. rewrite boundCurrentView_core.
  transitivity (Core.view (share_into p (set_cv_GeneratedAtUnixMs wall (cg_view g)))).
  { destruct cm as [k'|]; [|done]. rewrite addBudgetWarning_core. done. }
  rewrite (share_into_core p (cg_payload g)) by done. by rewrite share_into_generated, Hs.
Qed.

Lemma view_with_item_shared wall turnID item v : with_turn (upsertItem item) (view_with_item wall turnID item v) = view_with_item wall turnID item v.
Proof. unfold view_with_item, with_turn, upsertItem, ensureActiveTurn. cbn. by rewrite upsert_again. Qed.

Lemma adapter_change_shared wall resolve manual chunk pending e v : shared (adapter_change cfg wall resolve manual chunk pending e v).
Proof.
  unfold shared, adapter_change. destruct (e_Kind e) eqn:Ek.
  - done.
  - done.
  - unfold turn_change. destruct (turnEvent e) as [[[status started] completed] failure]. by case_bool_decide.
  - unfold item_change. rewrite Ek. apply view_with_item_shared.
  - unfold delta_change. destruct (applyItemDelta _ _ _ _). done.
  - unfold item_change. rewrite Ek. apply view_with_item_shared.
  - unfold item_change. rewrite Ek. apply view_with_item_shared.
  - unfold pending_change. cbn. unfold upsertPending, with_codex. cbn. by rewrite upsert_again.
  - done.
Qed.

(** *** What an event does to the view *)

(** The turn an event is about, as it was: the one that runs, or a new one. *)
Definition live_turn (wall : Z) (turnID : string) (v : CurrentView) (t : TurnSnapshot) : Prop :=
  cv_ActiveTurn v = Some t ∧ turn_TurnId t = turnID ∨
  (∀ t', cv_ActiveTurn v = Some t' → turn_TurnId t' ≠ turnID) ∧
  t = mkTurnSnapshot turnID TURN_STATUS_RUNNING wall 0 [] None None PROVENANCE_KIND_UNSPECIFIED.

(** [x] takes the place of the first element with its identity, or comes last. *)
Definition placed {A} (identity : A → string) (x : A) (l l' : list A) : Prop :=
  (∃ l1 y l2, l = l1 ++ y :: l2 ∧ identity y = identity x ∧ Forall (λ z, identity z ≠ identity x) l1 ∧ l' = l1 ++ x :: l2) ∨
  Forall (λ z, identity z ≠ identity x) l ∧ l' = l ++ [x].

(** The object of a thread notification that describes the thread. *)
Definition thread_body (raw : string) : list (string * any) :=
  match get_member (rawObject raw) "thread" with AObj thread => thread | _ => rawObject raw end.

Definition told_title (method raw old new : string) : Prop :=
  if decide (method = "thread/name/updated") then
    match member (rawObject raw) "threadName" with
    | Some (AStr name) => new = name
    | Some ANil => new = ""
    | _ => new = old
    end
  else
    let name := firstString (thread_body raw) ["name"; "title"] in
    new = if decide (name = "") then old else name.

Definition told_status (method raw : string) (old new : CodexStatus) : Prop :=
  if decide (method = "thread/name/updated") then new = old else
  let name := ToLower (match get_member (thread_body raw) "status" with
                       | AObj object => firstString object ["type"; "status"; "kind"]
                       | _ => firstString (thread_body raw) ["status"]
                       end) in
  (name ∈ ["idle"; "inactive"] → new = CODEX_STATUS_IDLE) ∧
  (name ∈ ["active"; "running"] → new = if decide (old = CODEX_STATUS_IDLE) then CODEX_STATUS_RUNNING else old) ∧
  (name ∈ ["error"; "failed"] → new = CODEX_STATUS_ERROR) ∧
  (name ∉ ["idle"; "inactive"; "active"; "running"; "error"; "failed"] → new = old).

(** The items of a turn after [text] has arrived for item [e_ItemID e]: the first item of
    that id grows by the beginning of the text, by all of it if that fits the budget, when
    it shows a text at all; without such an item a new one comes last, which shows the text. *)
Definition grown (budget : Z) (e : Adapter.Event) (text : string) (l l' : list Item) : Prop :=
  (∃ l1 x l2, l = l1 ++ x :: l2 ∧ item_ItemId x = e_ItemID e ∧ Forall (λ i, item_ItemId i ≠ e_ItemID e) l1 ∧
     match delta_target (item_Content x) with
     | None => l' = l
     | Some target => ∃ x' piece, l' = l1 ++ x' :: l2 ∧ item_ItemId x' = e_ItemID e ∧ item_Status x' = item_Status x ∧
         delta_target (item_Content x') = Some (target +:+ piece) ∧
         (slen target ≤ budget → begins piece text ∧ (slen target + slen text ≤ budget → piece = text))
     end) ∨
  Forall (λ i, item_ItemId i ≠ e_ItemID e) l ∧
  ∃ x, l' = l ++ [x] ∧
    (e_ItemID e ≠ "" → ValidString (e_ItemID e) = true → delta_of (e_ItemID e) (e, text) →
     item_ItemId x = e_ItemID e ∧ delta_target (item_Content x) = Some (boundString text budget).1).

(** A request of the app-server as clients see it. *)
Definition request_of (q : Adapter.PendingRequest) (r : PendingRequest) : Prop :=
  match r with
  | Pending_Approval a => Contains (p_Method q) "requestUserInput" = false ∧ apr_ApprovalId a = p_ID q ∧ apr_TurnId a = p_TurnID q ∧
      apr_ItemId a = p_ItemID q ∧ apr_Status a = APPROVAL_STATUS_PENDING ∧
      apr_AllowedDecisions a = [APPROVAL_DECISION_ALLOW; APPROVAL_DECISION_ALLOW_FOR_SESSION; APPROVAL_DECISION_DENY]
  | Pending_UserInput u => Contains (p_Method q) "requestUserInput" = true ∧ uir_UserInputRequestId u = p_ID q ∧ uir_TurnId u = p_TurnID q ∧
      uir_ItemId u = p_ItemID q ∧ uir_Resolved u = false ∧ (qst_QuestionId <$> uir_Questions u) = (uq_ID <$> p_Questions q)
  | Pending_None => False
  end.

(** What the event makes of [old] before it is cut to the frame: the view [u], the payload
    [p] for the clients and its completeness [k]. *)
Definition event_effect (wall : Z) (resolve : imageDescriptorResolver) (manual : bool) (chunk : Z) (pending : PendingRequest) (e : Adapter.Event)
    (old u : CurrentView) (p : EventPayload) (k : option Completeness) : Prop :=
  let budget := contentBudget (mc_ContentBudget cfg) in
  let with_items t items k := set_cv_Completeness (mergeCompleteness (cv_Completeness old) k)
    (set_cv_ActiveTurn (Some (set_turn_Completeness (mergeCompleteness (turn_Completeness t) k) (set_turn_Items items t))) old) in
  let item_effect status make :=
    ∃ t items, let item := translateItem (e_Params e) (e_TurnID e) (e_ItemID e) (e_Method e) (e_Semantic e) status budget PROVENANCE_KIND_LIVE_WIRE (Some resolve) in
      live_turn wall (e_TurnID e) old t ∧ placed item_ItemId item (turn_Items t) items ∧
      u = with_items t items (item_Completeness item) ∧ p = make item ∧ k = item_Completeness item in
  let warning_effect message :=
    ∃ c, let w := mkWarning WARNING_CODE_UNSPECIFIED message 0 {[ "vendor_method" := e_Method e ]} in
      cv_Codex old = Some c ∧ u = set_cv_Codex (Some (set_cdx_Warnings (cdx_Warnings c ++ [w]) c)) old ∧ p = Event_WarningRaised w ∧ k = None in
  match e_Kind e with
  | EventCodexUpdated => ∃ c title status,
      let c' := set_cdx_LastActivityAtUnixMs wall (set_cdx_Status status (set_cdx_Title (if manual then cdx_Title c else title) c)) in
      cv_Codex old = Some c ∧ told_title (e_Method e) (e_Params e) (cdx_Title c) title ∧
      told_status (e_Method e) (e_Params e) (cdx_Status c) status ∧
      u = set_cv_Codex (Some c') old ∧ p = Event_CodexUpdated c' ∧ k = None
  | EventTurnUpdated =>
      let '(status, started, completed, failure) := turnEvent e in
      p = Event_TurnUpdated (mkTurnUpdated (event_turn_id e) status started completed failure) ∧ k = None ∧
      if decide (status = TURN_STATUS_RUNNING) then
        ∃ t, live_turn wall (event_turn_id e) old t ∧
          u = set_cv_ActiveTurn (Some (if decide (started = 0) then t else set_turn_StartedAtUnixMs started t)) old
      else ∃ c, cv_Codex old = Some c ∧
        u = set_cv_ActiveTurn None (set_cv_Codex (Some (set_cdx_LastActivityAtUnixMs wall (set_cdx_ActiveTurnId "" (set_cdx_Status
              (if decide (status = TURN_STATUS_FAILED) then CODEX_STATUS_ERROR else CODEX_STATUS_IDLE) c)))) old)
  | EventItemStarted => item_effect ITEM_STATUS_RUNNING Event_ItemStarted
  | EventItemUpdated => item_effect ITEM_STATUS_RUNNING Event_ItemUpdated
  | EventItemCompleted => item_effect ITEM_STATUS_COMPLETED Event_ItemCompleted
  | EventItemDelta =>
      ∃ t items k0 shown, live_turn wall (e_TurnID e) old t ∧ grown budget e (eventText e) (turn_Items t) items ∧ u = with_items t items k0 ∧
        (shown = "" ∨ shown = (boundString (eventText e) budget).1) ∧ k = (boundString (eventText e) budget).2 ∧
        p = Event_ItemDelta (mkItemDelta (e_TurnID e) (e_ItemID e) chunk
              (if decide (e_Semantic e = SemanticCommandOutput ∨ e_Semantic e = SemanticProcessOutput)
               then Delta_CommandOutput (outputStream (e_Stream e)) shown else Delta_Text shown))
  | EventPendingRequestUpdated =>
      ∃ c requests, cv_Codex old = Some c ∧ placed pendingIDOf pending (cv_PendingRequests old) requests ∧
        u = set_cv_Codex (Some (set_cdx_Status (match pending with Pending_Approval _ => CODEX_STATUS_WAITING_FOR_APPROVAL
                                                | _ => CODEX_STATUS_WAITING_FOR_USER_INPUT end) c)) (set_cv_PendingRequests requests old) ∧
        p = Event_PendingRequestUpdated pending ∧ k = None
  | EventWarningRaised => warning_effect (warningMessage (e_Params e))
  | EventVendor => warning_effect ("unmapped app-server event " +:+ e_Method e +:+ ": " +:+ warningMessage (e_Params e))
  end.

Lemma core_codex v u c : Core.view v = Core.view u → cv_Codex u = Some c → ∃ c', cv_Codex v = Some c' ∧ Core.codex c' = Core.codex c.
Proof.
  intros E Hc. apply (f_equal cv_Codex) in E. cbn in E. rewrite Hc in E. destruct (cv_Codex v) as [c'|]; [|done].
  cbn [fmap option_fmap option_map] in E. apply (inj Some) in E. by exists c'.
Qed.

Lemma active_turn_running wall turnID v : live_turn wall turnID v (active_turn wall turnID v).
Proof.
  unfold live_turn, active_turn. destruct (cv_ActiveTurn v) as [t|]; [|by right].
  case_bool_decide; [by left|right]. split; [|done]. by intros t' [= <-].
Qed.

Lemma upsert_placed {A} (identity : A → string) x l : placed identity x l (upsert identity x l).
Proof.
  induction l as [|y l IH]; [by right|]. cbn [upsert]. case_bool_decide as E; [left; by exists [], y, l|].
  destruct IH as [(l1&z&l2&->&Hz&Hl1&->)|[Hl ->]]; [left|right].
  - exists (y :: l1), z, l2. split_and!; [done|done|by constructor|done].
  - split; [by constructor|done].
Qed.

Lemma applyItemDelta_grown budget t e text : let '(t', shown) := applyItemDelta budget t e text in
  ∃ items, t' = set_turn_Items items t ∧ grown budget e text (turn_Items t) items ∧ (shown = "" ∨ shown = (boundString text budget).1).
Proof.
  unfold applyItemDelta. destruct (append_to _ _ _ _) as [[items taken]|] eqn:E.
  - exists items. split; [done|]. split; [|by destruct taken; [right|left]]. left. revert items E.
    induction (turn_Items t) as [|x l IH]; intros items; [done|]. cbn [append_to]. case_bool_decide as Ex.
    + intros E. exists [], x, l. split; [done|]. split; [done|]. split; [constructor|]. unfold append_delta in E.
      destruct (delta_target (item_Content x)) as [target|] eqn:Et; [|by injection E as <- _]. injection E as <- _.
      eexists _, (fitting budget target text). split; [done|]. split; [by case_match|]. split; [by case_match|]. split.
      * destruct (item_Content x) as [content|] eqn:Ec; [|done].
        assert (delta_target (Some (set_delta_target (target +:+ fitting budget target text) content)) = Some (target +:+ fitting budget target text)) as E
          by (apply delta_target_set; by rewrite Et). by case_match.
      * intros Hb. destruct (fitting_spec budget target text Hb) as (?&_&?). done.
    + destruct (append_to budget (e_ItemID e) text l) as [[l0 tk]|]; [|done]. cbn. intros [= <- ->].
      destruct (IH l0 eq_refl) as (l1&y&l2&->&Hy&Hl1&H). exists (x :: l1), y, l2. split; [done|]. split; [done|]. split; [by constructor|].
      destruct (delta_target (item_Content y)) as [target|]; [|by subst]. destruct H as (x'&piece&->&H). exists x', piece. split; [done|exact H].
  - exists (turn_Items t ++ [delta_item budget (turn_TurnId t) e text]). split; [done|]. split; [|by right]. right. split.
    + revert E. induction (turn_Items t) as [|x l IH]; [done|]. cbn [append_to]. case_bool_decide; [by destruct (append_delta _ _ _)|].
      destruct (append_to budget (e_ItemID e) text l) as [[]|]; [done|]. intros _. constructor; [done|by apply IH].
    + eexists. split; [done|]. intros H1 H2 H3. destruct (delta_item_spec budget (turn_TurnId t) e text H1 H2 H3) as (?&?&_). done.
Qed.

Lemma thread_status_told name old : let new := thread_status name old in
  (name ∈ ["idle"; "inactive"] → new = CODEX_STATUS_IDLE) ∧
  (name ∈ ["active"; "running"] → new = if decide (old = CODEX_STATUS_IDLE) then CODEX_STATUS_RUNNING else old) ∧
  (name ∈ ["error"; "failed"] → new = CODEX_STATUS_ERROR) ∧
  (name ∉ ["idle"; "inactive"; "active"; "running"; "error"; "failed"] → new = old).
Proof.
  cbv zeta. rewrite !elem_of_cons, !elem_of_nil. split_and!.
  - intros [->|[->|[]]]; done.
  - intros [->|[->|[]]]; simpl; by destruct (decide (old = CODEX_STATUS_IDLE)) as [->|]; rewrite ?bool_decide_true, ?bool_decide_false by done.
  - intros [->|[->|[]]]; done.
  - intros Hn. unfold thread_status. repeat case_match; try done; exfalso; apply Hn; tauto.
Qed.

Lemma applyCodexParams_told method raw c : ∃ title status, told_title method raw (cdx_Title c) title ∧ told_status method raw (cdx_Status c) status ∧
  applyCodexParams method raw c = set_cdx_Status status (set_cdx_Title title c).
Proof.
  unfold applyCodexParams, told_title, told_status. destruct (decide (method = "thread/name/updated")) as [E|E].
  - rewrite bool_decide_true by done. exists (match member (rawObject raw) "threadName" with Some (AStr name) => name | Some ANil => "" | _ => cdx_Title c end), (cdx_Status c).
    destruct (member (rawObject raw) "threadName") as [[]|]; (split; [done|]); (split; [done|]); by destruct c.
  - rewrite bool_decide_false by done. fold (thread_body raw). cbv zeta. eexists _, _. split; [done|].
    set (name := firstString (thread_body raw) ["name"; "title"]).
    assert ((if str_empty name then c else set_cdx_Title name c) = set_cdx_Title (if decide (name = "") then cdx_Title c else name) c) as ->.
    { unfold str_empty. destruct (decide (name = "")); [rewrite bool_decide_true by done; by destruct c|by rewrite bool_decide_false]. }
    split; [apply thread_status_told|]. by destruct c.
Qed.

(** An item event. *)
Lemma view_with_item_effect wall turnID item old : ∃ t items, live_turn wall turnID old t ∧ placed item_ItemId item (turn_Items t) items ∧
  view_with_item wall turnID item old = set_cv_Completeness (mergeCompleteness (cv_Completeness old) (item_Completeness item))
    (set_cv_ActiveTurn (Some (set_turn_Completeness (mergeCompleteness (turn_Completeness t) (item_Completeness item)) (set_turn_Items items t))) old).
Proof.
  exists (active_turn wall turnID old), (upsert item_ItemId item (turn_Items (active_turn wall turnID old))).
  split; [apply active_turn_running|]. split; [apply upsert_placed|]. done.
Qed.

Lemma adapter_change_effect wall resolve manual chunk pending e old c : cv_Codex old = Some c → canonicalEventItemID e = e_ItemID e →
  let g := adapter_change cfg wall resolve manual chunk pending e old in
  event_effect wall resolve manual chunk pending e old (cg_view g) (cg_payload g) (cg_completeness g).
Proof.
  intros Hc Hid. unfold event_effect, adapter_change. cbv zeta. destruct (e_Kind e) eqn:Ek.
  - unfold warning_change, with_codex. rewrite Ek. cbn. rewrite Hc. by exists c.
  - unfold codex_change, with_codex. cbn. rewrite Hc. cbn.
    destruct (applyCodexParams_told (e_Method e) (e_Params e) c) as (title&status&H1&H2&E). rewrite E.
    exists c, title, status. split; [done|]. split; [done|]. split; [done|]. destruct manual; done.
  - unfold turn_change. destruct (turnEvent e) as [[[status started] completed] failure]. destruct (decide (status = TURN_STATUS_RUNNING)) as [E|E].
    + rewrite bool_decide_true by done. split; [done|]. split; [done|]. exists (active_turn wall (event_turn_id e) old). split; [apply active_turn_running|].
      cbn. destruct (Z.eqb_spec started 0), (decide (started = 0)); done.
    + rewrite bool_decide_false by done. split; [done|]. split; [done|]. exists c. split; [done|]. cbn. unfold with_codex. rewrite Hc. cbn. unfold ended_codex.
      by destruct (decide (status = TURN_STATUS_FAILED)); rewrite ?bool_decide_true, ?bool_decide_false by done.
  - unfold item_change, canonicalItem. rewrite Ek, Hid. set (item := translateItem _ _ _ _ _ _ _ _ _).
    destruct (view_with_item_effect wall (e_TurnID e) item old) as (t&items&H1&H2&H3). by exists t, items.
  - unfold delta_change. pose proof (applyItemDelta_grown (contentBudget (mc_ContentBudget cfg)) (active_turn wall (e_TurnID e) old) e (eventText e)) as H.
    destruct (applyItemDelta _ _ _ _) as [t shown]. destruct H as (items&->&H1&H2). cbn [cg_view cg_payload cg_completeness].
    exists (active_turn wall (e_TurnID e) old), items. eexists _, shown. split; [apply active_turn_running|]. split; [done|]. split; [reflexivity|].
    split; [done|]. split; [done|]. f_equal. f_equal. destruct (decide _) as [E|E].
    + destruct E as [E|E]; rewrite E; done.
    + rewrite !bool_decide_false by naive_solver. done.
  - unfold item_change, canonicalItem. rewrite Ek, Hid. set (item := translateItem _ _ _ _ _ _ _ _ _).
    destruct (view_with_item_effect wall (e_TurnID e) item old) as (t&items&H1&H2&H3). by exists t, items.
  - unfold item_change, canonicalItem. rewrite Ek, Hid. set (item := translateItem _ _ _ _ _ _ _ _ _).
    destruct (view_with_item_effect wall (e_TurnID e) item old) as (t&items&H1&H2&H3). by exists t, items.
  - unfold pending_change, with_codex, upsertPending. cbn. rewrite Hc. exists c. eexists. split; [done|]. split; [apply upsert_placed|]. done.
  - unfold warning_change, with_codex. rewrite Ek. cbn. rewrite Hc. by exists c.
Qed.

Lemma applyCodexParams_identity method raw c :
  cdx_CodexId (applyCodexParams method raw c) = cdx_CodexId c ∧ cdx_ThreadId (applyCodexParams method raw c) = cdx_ThreadId c.
Proof.
  unfold applyCodexParams. case_bool_decide; [by destruct (member _ _) as [[]|]|].
  match goal with |- context [set_cdx_Status _ (if ?b then _ else _)] => by destruct b end.
Qed.

Lemma adapter_change_identity wall resolve manual chunk pending e old c : cv_Codex old = Some c →
  ∃ c', cv_Codex (cg_view (adapter_change cfg wall resolve manual chunk pending e old)) = Some c' ∧
    cdx_CodexId c' = cdx_CodexId c ∧ cdx_ThreadId c' = cdx_ThreadId c.
Proof.
  intros Hc. unfold adapter_change. destruct (e_Kind e); try by (exists c).
  - unfold warning_change, with_codex. cbn. rewrite Hc. by eexists.
  - unfold codex_change, with_codex. cbn. rewrite Hc. eexists. split; [done|]. cbn. destruct (applyCodexParams_identity (e_Method e) (e_Params e) c) as [E1 E2].
    by destruct manual.
  - unfold turn_change. destruct (turnEvent e) as [[[status started] completed] failure]. case_bool_decide; cbn.
    + exists c. by destruct (started =? 0).
    + unfold with_codex. cbn. rewrite Hc. by eexists.
  - unfold delta_change. destruct (applyItemDelta _ _ _ _). by exists c.
  - unfold pending_change, with_codex. cbn. rewrite Hc. by eexists.
  - unfold warning_change, with_codex. cbn. rewrite Hc. by eexists.
Qed.

(** Publishing the same view again keeps it durable. *)
Lemma durable_after s s' id v w wall raw seq a : durable s id v w → Marshal (MsgView (set_cv_HeadEventSeq seq v)) = Ok raw →
  event_applied wall id raw seq (mdb s) (adb a) → mg_events s' = a → durable s' id v w.
Proof.
  intros (c&row&seq0&Hc&Hr&_&_&H1&H2&H3&H4&H5) Hm (row'&Hr'&_&_&_&Ha) Hs'. assert (row' = row) as -> by congruence.
  exists c, (with_view wall raw row), seq. unfold mdb. rewrite Hs', Ha. cbn. rewrite !lookup_insert_eq. split_and!; done.
Qed.

(** The request an event announces is the one the adapter holds. *)
Lemma canonical_pending_reads runtime wall e s a : ∃ r, canonical_pending runtime wall e (s, a) = ((s, a), r) ∧
  match r with
  | Ok pending => e_Kind e = EventPendingRequestUpdated → runtime = None ∧ ∃ q, Pending (e_PendingID e) a = Some q ∧ request_of q pending
  | Err err => e_Kind e = EventPendingRequestUpdated ∧ (runtime = Some err ∨ runtime = None ∧ Pending (e_PendingID e) a = None)
  end.
Proof.
  unfold canonical_pending. case_bool_decide as Ek; [|by eexists]. unfold mbind, M_bind, need_adapter. destruct runtime as [err|]; [eexists; split; [done|]; by split; [|left]|].
  cbn [mret M_ret]. unfold adp, zoom, gets. cbn [fst snd]. destruct (Pending (e_PendingID e) a) as [q|]; eexists; (split; [done|]); [|by split; [|right]].
  intros _. split; [done|]. exists q. split; [done|]. unfold pendingFromAdapter. cbv zeta. destruct (Contains (p_Method q) "requestUserInput") eqn:Ec; [|done].
  cbn [request_of]. split_and!; try done. cbn. rewrite <-list_fmap_compose. by apply list_fmap_ext.
Qed.

Lemma canonical_id_again e : canonicalEventItemID (set_e_ItemID (canonicalEventItemID e) e) = canonicalEventItemID e.
Proof.
  unfold canonicalEventItemID at 1. cbn [e_ItemID set_e_ItemID]. destruct (str_empty (canonicalEventItemID e)) eqn:E; cbn [negb]; [|done].
  unfold canonicalEventItemID in *. destruct (str_empty (e_ItemID e)) eqn:E1; [done|]. cbn [negb] in E. congruence.
Qed.

(** The counter of deltas of an item. *)
Definition chunks_after (id : string) (e : Adapter.Event) (m : gmap string Z) : Z * gmap string Z :=
  if decide (e_Kind e = EventItemDelta) then let n := u64_incr (get_int m (chunk_key id e)) in (n, <[chunk_key id e := n]> m) else (0, m).

(** The part under the lock of the maps. *)
Lemma apply_change_spec describe wall id e pending old s s' r : apply_change cfg describe wall id e pending old s = (s', r) →
  let resolve := imageResolverForOwner describe (get_str (mg_logicalOwners s) id) in
  let g := adapter_change cfg wall resolve (get_bool (mg_manualTitle s) id) (chunks_after id e (mg_chunks s)).1 pending e old in
  r = Ok (settle cfg wall id g) ∧ s' = set_mg_byID (<[id := (settle cfg wall id g).1]> (mg_byID s)) (set_mg_chunks (chunks_after id e (mg_chunks s)).2 s).
Proof.
  unfold apply_change, next_chunk, chunks_after, mbind, M_bind, gets, put_view, modify, mret, M_ret. destruct (decide (e_Kind e = EventItemDelta)) as [E|E].
  - rewrite bool_decide_true by done. cbv zeta. cbn [fst snd mg_manualTitle mg_logicalOwners set_mg_chunks].
    destruct (settle _ _ _ _) as [v ev]. by intros [= <- <-].
  - rewrite bool_decide_false by done. cbv zeta. cbn [fst snd]. destruct (settle _ _ _ _) as [v ev]. intros [= <- <-]. split; [done|]. by destruct s.
Qed.

(** Nothing is cut when the event and the view fit. *)
Lemma settle_whole wall id g : shared g → cg_completeness g = None →
  protoJSONSize (MsgEvent (mkEvent id 0 wall "" None (Some (cg_payload g)))) ≤ eventPayloadBudget (mc_ContentBudget cfg) →
  protoJSONSize (MsgView (set_cv_GeneratedAtUnixMs wall (cg_view g))) ≤ collectionBudget (mc_ContentBudget cfg) →
  (settle cfg wall id g).1 = set_cv_GeneratedAtUnixMs wall (cg_view g).
Proof.
  intros Hs Hk He Hv. unfold settle, boundCanonicalEvent. rewrite Hk, (proj2 (Z.leb_le _ _) He). cbn [ev_Payload ev_Completeness fst].
  rewrite share_into_generated, Hs. unfold boundCurrentView. by rewrite (proj2 (Z.leb_le _ _) Hv).
Qed.

(** The view is persisted and published, once more with its Codex after a turn event. *)
Lemma publish_change_durable wall id (turn : bool) v c ev s s' r : mg_byID s !! id = Some v → cv_Codex v = Some c → cdx_CodexId c = id → ev_CodexId ev = id →
  (_ ← persistState v; _ ← publishEvent audit wall ev v; if turn then publishCodex cfg audit wall c "" else mret tt) s = (s', r) →
  (∃ a, s' = set_mg_events a s) ∧ (r = Ok tt → durable s' id v (get_int (mg_warningDeadline s) id)).
Proof.
  intros Hv Hc Hid Hev. unfold mbind, M_bind. destruct (persistState v s) as [s1 rp] eqn:Ep. apply persistState_spec in Ep as (p&->&Hp).
  destruct rp as [[]|err]; [|intros [= <- <-]; split; [by eexists|done]]. destruct Hp as (c0&raw0&source&created&Hc0&Hp). assert (c0 = c) as -> by congruence.
  set (s1 := set_mg_events _ s). destruct (publishEvent audit wall ev v s1) as [s2 re] eqn:Ee. apply publishEvent_spec in Ee as (a&->&He).
  destruct re as [published|err]; [|intros [= <- <-]; split; [by eexists|done]]. destruct He as (raw&seq&Hm&Ha). rewrite Hev in Ha.
  assert (∀ s3, mg_events s3 = a → durable s3 id v (get_int (mg_warningDeadline s) id)) as Hd.
  { eapply (durable_published s id v c _ wall created source raw0 p a raw seq); try done. by rewrite <- Hid. }
  destruct turn; [|intros [= <- <-]; split; [by eexists|intros _; by apply Hd]].
  intros Hpub. apply (publishCodex_spec cfg audit wall c "" v) in Hpub as (a'&->&Ha'); [|by rewrite Hid]. split; [by eexists|]. intros ->.
  destruct Ha' as (raw'&seq'&Hm'&Ha'). rewrite Hid in Ha'. eapply (durable_after (set_mg_events a s1)); [by apply Hd|exact Hm'|exact Ha'|done].
Qed.

(** C4: An event of the app-server reaches memory and database as one.  For an event of a
    managed thread the adapter is only read; an event that announces a request the adapter
    does not hold any more (or that has no adapter) changes nothing; otherwise exactly the
    view of that Codex changes, and the counter of the item's deltas.  The new view is,
    before it is cut to a frame, what the event says: title and status as the thread
    reports them (a title set by hand stays), a turn started or ended, the item in its
    place among the others with its status, the text of a delta appended to its item, the
    request among the pending ones and the Codex waiting for its answer, the warning after
    the earlier ones.  The view that is shown has the same ids, statuses and decisions, and
    is exactly that view when it and the event fit the budget.  And if the call succeeds,
    the view that is shown is in the database, with the columns that belong to it and
    stamped with the last event published. *)
Theorem adapter_event_applied runtime describe wall e s a s' a' r id old c
    (Hid : get_str (mg_byThread s) (e_ThreadID e) = id) (Hne : id ≠ "")
    (Hold : mg_byID s !! id = Some old) (Hc : cv_Codex old = Some c) (Hcid : cdx_CodexId c = id)
    (Hrun : applyAdapterEventLocked cfg audit runtime describe wall e (s, a) = ((s', a'), r)) :
  let e1 := set_e_ItemID (canonicalEventItemID e) e in
  let resolve := imageResolverForOwner describe (get_str (mg_logicalOwners s) id) in
  a' = a ∧
  (e_Kind e = EventPendingRequestUpdated ∧ s' = s ∧
     (∃ err, r = Err err ∧ (runtime = Some err ∨ runtime = None ∧ Pending (e_PendingID e) a = None)) ∨
   ∃ v c' u p k pending,
     mg_byID s' = <[id := v]> (mg_byID s) ∧ mg_warningDeadline s' = mg_warningDeadline s ∧
     mg_chunks s' = (chunks_after id e1 (mg_chunks s)).2 ∧ rest (set_mg_chunks (mg_chunks s) s') = rest s ∧
     (e_Kind e = EventPendingRequestUpdated → runtime = None ∧ ∃ q, Pending (e_PendingID e) a = Some q ∧ request_of q pending) ∧
     event_effect wall resolve (get_bool (mg_manualTitle s) id) (chunks_after id e1 (mg_chunks s)).1 pending e1 old u p k ∧
     Core.view v = Core.view (set_cv_GeneratedAtUnixMs wall u) ∧
     (k = None → protoJSONSize (MsgEvent (mkEvent id 0 wall "" None (Some p))) ≤ eventPayloadBudget (mc_ContentBudget cfg) →
      protoJSONSize (MsgView (set_cv_GeneratedAtUnixMs wall u)) ≤ collectionBudget (mc_ContentBudget cfg) → v = set_cv_GeneratedAtUnixMs wall u) ∧
     cv_Codex v = Some c' ∧ cdx_CodexId c' = id ∧ cdx_ThreadId c' = cdx_ThreadId c ∧
     (r = Ok tt → durable s' id v (get_int (mg_warningDeadline s) id))).
Proof.
  intros e1 resolve. unfold applyAdapterEventLocked in Hrun. fold e1 in Hrun. unfold mbind at 1, M_bind at 1 in Hrun.
  destruct (canonical_pending_reads runtime wall e1 s a) as (rp&Ep&Hrp). rewrite Ep in Hrun. destruct rp as [pending|err]; cycle 1.
  { injection Hrun as <- <- <-. split; [done|]. left. destruct Hrp as [H1 H2]. split; [exact H1|]. split; [done|]. by exists err. }
  unfold mgr, zoom in Hrun. cbn [fst snd] in Hrun. unfold mbind at 1, M_bind at 1, gets at 1 in Hrun. unfold mbind at 1, M_bind at 1, gets at 1 in Hrun.
  change (e_ThreadID e1) with (e_ThreadID e) in Hrun. rewrite Hid, Hold, str_empty_false in Hrun by done. unfold mbind at 1, M_bind at 1 in Hrun.
  destruct (apply_change cfg describe wall id e1 pending old s) as [s1 ra] eqn:Ea. apply apply_change_spec in Ea as [-> ->]. fold resolve in Hrun.
  set (manual := get_bool (mg_manualTitle s) id) in *. set (chunks := chunks_after id e1 (mg_chunks s)) in *. set (g := adapter_change _ _ _ _ _ _ _ _) in Hrun.
  pose proof (adapter_change_shared wall resolve manual chunks.1 pending e1 old) as Hsh. fold g in Hsh.
  pose proof (settle_core wall id g Hsh) as Hcore. pose proof (settle_whole wall id g Hsh) as Hwhole.
  assert (ev_CodexId (settle cfg wall id g).2 = id) as Hev by (unfold settle; cbn; by rewrite boundCanonicalEvent_id).
  destruct (settle cfg wall id g) as [v ev]. cbn [fst snd] in *.
  destruct (adapter_change_identity wall resolve manual chunks.1 pending e1 old c Hc) as (c1&Hc1&Hi1&Ht1).
  fold g in Hc1. destruct (core_codex v _ c1 Hcore Hc1) as (c'&Hc'&Hcc).
  assert (cdx_CodexId c' = id ∧ cdx_ThreadId c' = cdx_ThreadId c) as [Hci Hti].
  { pose proof (f_equal cdx_CodexId Hcc). pose proof (f_equal cdx_ThreadId Hcc). cbn in *. split; congruence. }
  rewrite Hc' in Hrun. match type of Hrun with context [let '(t, r0) := ?m ?x in _] => destruct (m x) as [s2 r2] eqn:Em end.
  injection Hrun as <- <- <-. split; [done|]. right. exists v, c', (cg_view g), (cg_payload g), (cg_completeness g), pending.
  apply (publish_change_durable wall id (bool_decide (e_Kind e1 = EventTurnUpdated)) v c' ev) in Em as [[a2 ->] Hd];
    [|cbn; by rewrite lookup_insert_eq|done|done|done].
  split; [done|]. split; [done|]. split; [done|]. split; [by destruct s|]. split; [exact Hrp|].
  split; [apply (adapter_change_effect wall resolve manual chunks.1 pending e1 old c Hc), canonical_id_again|]. by split_and!.
Qed.
End Turns.

(** ** A concrete turn *)

Module TurnDemo.
Import WorkspaceLink.

Definition cfg : ManagerConfig := mkManagerConfig 0 0 0.

(** The app-server accepts every turn as [turn-1]. *)
Definition call (method : string) (params : any) : res Message := Ok (mkMessage "" "" "" (js "{'turn':{'id':'turn-1'}}") None).
Definition adapter0 : Adapter := mkAdapterState dialed [] ∅ ∅ false.
Definition request : StartTurnRequest := mkStartTurn "c1" [InputText "hello"] (mkTurnOptions "" "" "" "").

(** The view cannot be written, since the codec knows only the two views of before; still
    the turn is not started again. *)
Lemma accepted_turn_not_repeated_witness :
  let '(s1, a1, r1) := StartTurn (PJ := two_views) cfg no_audit None call None (ErrText "") 5000000 7 request "r1" (s0, adapter0) in
  (∃ e, r1 = Err e) ∧
  StartTurn (PJ := two_views) cfg no_audit None call None (ErrText "") 6000000 8 request "r2" (s1, a1) =
    ((s1, a1), Err (rpcErr ERROR_CODE_TURN_ALREADY_RUNNING "turn already active")).
Proof.
  assert (stored_with_codex (PJ := two_views) s0 "c1") as Hst.
  { intros d Hd. vm_compute in Hd. injection Hd as <-. eexists. reflexivity. }
  assert (codex_of s0 (rq_CodexId request) = Some c0) as Hc by reflexivity.
  pose proof (accepted_turn_not_repeated (PJ := two_views) (PL := two_views_laws) cfg no_audit None call None (ErrText "") 5000000 7 request "r1" s0 adapter0) as H.
  assert (∃ e, (StartTurn (PJ := two_views) cfg no_audit None call None (ErrText "") 5000000 7 request "r1" (s0, adapter0)).2 = Err e) as Hr
    by (eexists; vm_compute; reflexivity).
  assert (ad_active (StartTurn (PJ := two_views) cfg no_audit None call None (ErrText "") 5000000 7 request "r1" (s0, adapter0)).1.2 ≠ ∅) as Ha
    by (vm_compute; discriminate).
  destruct (StartTurn (PJ := two_views) cfg no_audit None call None (ErrText "") 5000000 7 request "r1" (s0, adapter0)) as [[s1 a1] r1].
  split; [exact Hr|]. destruct (H s1 a1 r1 c0 Hc Hst eq_refl) as [(_&->&_)|(turn&inputs&_&_&Hagain)]; [by destruct Ha|]. apply Hagain. reflexivity.
Defined.

(** The end of a turn of the thread. *)
Definition ended : Adapter.Event :=
  Adapter.mkEvent EventTurnUpdated SemanticUnknown "turn/completed" "t1" "turn-1" "" "" (js "{'turn':{'id':'turn-1','status':'completed'}}") "" "" "" "" [].

Definition after_end (head : Z) : CurrentView := mkCurrentView (Some (set_cdx_LastActivityAtUnixMs 9 c0)) None [] (Some st0) None head 9.
Definition end_views : list CurrentView := [v0; after_end 0; after_end 1; after_end 2].

Lemma adapter_event_applied_witness :
  let '(s1, a1, r1) := applyAdapterEventLocked (PJ := table_json end_views) cfg no_audit None None 9 ended (s0, adapter0) in
  r1 = Ok tt ∧ ∃ v, mg_byID s1 = <["c1" := v]> (mg_byID s0) ∧ cv_ActiveTurn v = None ∧ durable (PJ := table_json end_views) s1 "c1" v 0.
Proof.
  pose proof (adapter_event_applied (PJ := table_json end_views) cfg no_audit None None 9 ended s0 adapter0) as H.
  assert ((applyAdapterEventLocked (PJ := table_json end_views) cfg no_audit None None 9 ended (s0, adapter0)).2 = Ok tt) as Hr by (vm_compute; reflexivity).
  destruct (applyAdapterEventLocked (PJ := table_json end_views) cfg no_audit None None 9 ended (s0, adapter0)) as [[s1 a1] r1]. cbn in Hr. subst r1.
  assert ("c1" ≠ "") as Hne by discriminate.
  destruct (H s1 a1 (Ok tt) "c1" v0 c0 eq_refl Hne eq_refl eq_refl eq_refl eq_refl)
    as [_ [(Hk&_)|(v&c'&u&p&k&pending&Hby&_&_&_&_&Heff&Hcore&_&_&_&_&Hd)]]; [discriminate Hk|].
  split; [reflexivity|]. exists v. split; [exact Hby|]. split; [|apply Hd; reflexivity].
  assert (turnEvent (set_e_ItemID (canonicalEventItemID ended) ended) = (TURN_STATUS_COMPLETED, 0, 0, None)) as Et by (vm_compute; reflexivity).
  unfold event_effect in Heff. change (e_Kind (set_e_ItemID (canonicalEventItemID ended) ended)) with EventTurnUpdated in Heff. cbv iota zeta in Heff.
  rewrite Et in Heff. destruct Heff as (_&_&Heff). rewrite decide_False in Heff by discriminate. destruct Heff as (c&_&->).
  apply (f_equal cv_ActiveTurn) in Hcore. cbn in Hcore. by destruct (cv_ActiveTurn v).
Defined.

(** A quick turn: its end is applied before the handler that started it has marked the
    Codex as running.  The Codex is then left busy with a turn that is over. *)
Lemma quick_turn_strands_codex :
  let '(s1, a1, _) := applyAdapterEventLocked (PJ := two_views) cfg no_audit None None 9 ended (s0, adapter0) in
  let '(s2, _) := setRunning (PJ := two_views) cfg no_audit 10000000 10 "c1" "turn-1" "r1" s1 in
  (∃ c, codex_of s2 "c1" = Some c ∧ cdx_Status c = CODEX_STATUS_RUNNING ∧ cdx_ActiveTurnId c = "turn-1") ∧ ad_active a1 = ∅.
Proof. vm_compute. split; [eexists; split; [reflexivity|split; reflexivity]|reflexivity]. Qed.

End TurnDemo.
