(* ===== verification/ManagerSessionTheorems.v ===== *)
(** * Restored and imported Codexes

    After a restart of the runtime every Codex of the database is managed again, without a
    claim that cannot be kept; a session is imported at most once. *)

From Stdlib Require Import Ascii String.
From stdpp Require Import base tactics numbers list sorting gmap strings pretty.
From S2P Require Import Prelude GoError GoStrings GoPath FileSystem Float64 Json Client Adapter Remote Persistence Activity HostEvents CodecTable Workspace Attachments Directory Sessions Budget BudgetTheorems Translate Manager ManagerTheorems ManagerWorkspace ManagerWorkspaceTheorems ManagerItems ManagerTurns ManagerTurnTheorems ManagerQueries ManagerSessions.
Local Open Scope string_scope.
Local Open Scope Z_scope.
Local Open Scope list_scope.

(** ** Successful runs *)

Lemma bind_ok {S A B} (m : M S A) (k : A → M S B) s s' b : (m ≫= k) s = (s', Ok b) → ∃ a s1, m s = (s1, Ok a) ∧ k a s1 = (s', Ok b).
Proof. unfold mbind, M_bind. destruct (m s) as [s1 [a|e]]; [|done]. eauto. Qed.

(** A call that leaves the views and the rows of the Codexes alone. *)
Definition keeps_rows (s s' : MState) : Prop := mg_byID s' = mg_byID s ∧ db_codexes (mdb s') = db_codexes (mdb s).

Lemma keeps_rows_trans s1 s2 s3 : keeps_rows s1 s2 → keeps_rows s2 s3 → keeps_rows s1 s3.
Proof. intros [H1 H2] [H3 H4]. split; congruence. Qed.

Lemma workspaces_keep {A} (m : M Workspace.Service A) s s' r : workspaces m s = (s', r) → keeps_rows s s'.
Proof. unfold workspaces, zoom. destruct (m _). by intros [= <- <-]. Qed.

Lemma store_keeps {A} (m : M Store A) s s' r :
  (∀ p p' r, m p = (p', r) → db_codexes (st_db p') = db_codexes (st_db p)) → store m s = (s', r) → keeps_rows s s'.
Proof. intros Hm. unfold store, zoom. destruct (m _) as [p r0] eqn:E. intros [= <- <-]. split; [done|]. by eapply Hm. Qed.

Lemma EnsureLogicalOwner_rows entropy source id p p' r : EnsureLogicalOwner entropy source id p = (p', r) → db_codexes (st_db p') = db_codexes (st_db p).
Proof.
  intros E. pose proof (run_op_step (OpEnsureOwner entropy source id) p) as H. cbn in H. rewrite E in H. cbn in H.
  destruct H as [->|H]; [done|]. by inversion H.
Qed.

Lemma BindLogicalOwner_rows source id owner p p' r : BindLogicalOwner source id owner p = (p', r) → db_codexes (st_db p') = db_codexes (st_db p).
Proof.
  intros E. pose proof (run_op_step (OpBindOwner source id owner) p) as H. cbn in H. rewrite E in H. cbn in H.
  destruct H as [->|H]; [done|]. by inversion H.
Qed.

Section Restore.
Context `{PJ : ProtoJSON} `{PL : !ProtoJSONLaws} (cfg : ManagerConfig) (registerRoot : string → res string) (SA : SessionAdapter).

Lemma ensureWorkspace_spec token wall id root view s s' v : ensureWorkspace registerRoot token wall id root view s = (s', Ok v) →
  keeps_rows s s' ∧ ∃ st, v = set_cv_WorkspaceAccessState st view.
Proof. intros (st&s1&H1&[= <- <-])%bind_ok. split; [by eapply workspaces_keep|by eexists]. Qed.

Lemma restore_agent_into_spec wall id agent view s s' v : restore_agent_into wall id agent view s = (s', Ok v) →
  keeps_rows s s' ∧ ∃ st, v = set_cv_WorkspaceAccessState st view.
Proof. intros (st&s1&H1&[= <- <-])%bind_ok. split; [by eapply workspaces_keep|by eexists]. Qed.

Lemma restore_agents_keep wall id children access s s' r : restore_agents wall id children access s = (s', Ok r) → keeps_rows s s'.
Proof.
  revert access s. induction children as [|child children IH]; intros access s; [by intros [= <- <-]|]. cbn [restore_agents].
  intros (st&s1&H1&H2)%bind_ok. eapply keeps_rows_trans; [by eapply workspaces_keep|by eapply IH].
Qed.

Lemma restoreCollabAgents_keep wall id thread s s' r : restoreCollabAgents wall id thread s = (s', Ok r) → keeps_rows s s'.
Proof. intros ([]&s1&[= <-]&H2)%bind_ok. eapply keeps_rows_trans; [|by eapply restore_agents_keep]. done. Qed.

(** What restoring keeps of a view: no turn runs, nothing waits for an answer. *)
Definition at_rest (v : CurrentView) : Prop :=
  cv_ActiveTurn v = None ∧ cv_PendingRequests v = [] ∧
  ∃ c, cv_Codex v = Some c ∧ cdx_ActiveTurnId c = "" ∧ (cdx_Status c = CODEX_STATUS_IDLE ∨ cdx_Status c = CODEX_STATUS_UNAVAILABLE).

Lemma note_old_codex old c at_ : ∃ c', cv_Codex (note_old old (new_view c at_)) = Some c' ∧ cdx_CodexId c' = cdx_CodexId c ∧
  cdx_ActiveTurnId c' = cdx_ActiveTurnId c ∧ cdx_Status c' = cdx_Status c ∧
  cv_ActiveTurn (note_old old (new_view c at_)) = None ∧ cv_PendingRequests (note_old old (new_view c at_)) = [].
Proof.
  unfold note_old, new_view, with_codex. destruct (cv_Codex old), (cv_WorkspaceAccessState old), (cv_PendingRequests old);
    eexists; split_and!; reflexivity.
Qed.

Lemma noteUnrecoverablePending_spec id c at_ s s' v : noteUnrecoverablePending id (new_view c at_) s = (s', Ok v) →
  keeps_rows s s' ∧ ∃ c', cv_Codex v = Some c' ∧ cdx_CodexId c' = cdx_CodexId c ∧ cdx_ActiveTurnId c' = cdx_ActiveTurnId c ∧ cdx_Status c' = cdx_Status c ∧
    cv_ActiveTurn v = None ∧ cv_PendingRequests v = [].
Proof.
  intros (raw&s1&H1&[= <- <-])%bind_ok. split.
  - unfold attempt in H1. destruct (store _ s) as [s2 r2] eqn:E. injection H1 as <- _. eapply store_keeps; [|exact E].
    intros p p' r H. apply sql_query_step in H. by rewrite H.
  - destruct raw as [raw|e]; [|by exists c]. destruct (unmarshalCurrentView raw) as [old|]; [|by exists c]. apply note_old_codex.
Qed.

(** Codex [id] is shown as [v] and stored as [v]; the views and rows of the others are as
    before. *)
Definition settled (id : string) (v : CurrentView) (s s' : MState) : Prop :=
  mg_byID s' !! id = Some v ∧ stored_view (mdb s') id = Some v ∧
  ∀ j, j ≠ id → mg_byID s' !! j = mg_byID s !! j ∧ db_codexes (mdb s') !! j = db_codexes (mdb s) !! j.

Lemma register_and_persist_settled id r view c s s1 s' : register_and_persist r view s1 = (s', Ok tt) →
  keeps_rows s s1 → cv_Codex view = Some c → cdx_CodexId c = id → cr_CodexID r = id → settled id view s s'.
Proof.
  intros ([]&s2&[= <-]&Hp)%bind_ok [Hk1 Hk2] Hc Hid Hr. apply persistState_full in Hp as (p&->&c0&raw&source&created&Hc0&Hm&Hp).
  assert (c0 = c) as -> by congruence. unfold settled. split; [cbn; by rewrite Hr, lookup_insert_eq|].
  unfold stored_view, mdb, adb in *. cbn in *. rewrite Hp. cbn. split.
  - rewrite Hid, lookup_insert_eq. cbn. by apply UnmarshalView_Marshal.
  - intros j Hj. rewrite Hid, Hr, !lookup_insert_ne by done. by rewrite Hk1, Hk2.
Qed.

Lemma at_rest_access st v : at_rest v → at_rest (set_cv_WorkspaceAccessState st v).
Proof. done. Qed.

Lemma new_view_at_rest status c at_ : status = CODEX_STATUS_IDLE ∨ status = CODEX_STATUS_UNAVAILABLE → at_rest (new_view (set_idle status c) at_).
Proof. intros H. split; [done|]. split; [done|]. eexists. split; [done|]. done. Qed.

Lemma restore_unmanaged_settled now wall token r c s s' : cdx_CodexId c = cr_CodexID r →
  (∀ v p, unmarshalCurrentView (cr_CurrentViewJSON r) = Some v → cv_Codex v = Some p → cdx_CodexId p = cr_CodexID r) →
  restore_unmanaged registerRoot now wall token r c s = (s', Ok tt) → ∃ v, settled (cr_CodexID r) v s s'.
Proof.
  intros Hid Hviews. unfold restore_unmanaged. set (view := match _ with Some _ => _ | None => _ end).
  assert (∃ c', cv_Codex view = Some c' ∧ cdx_CodexId c' = cr_CodexID r) as (c'&Hc'&Hid').
  { subst view. destruct (str_empty _); [by exists c|]. destruct (unmarshalCurrentView _) as [pv|] eqn:Eu; [|by exists c].
    destruct (cv_Codex pv) as [p|] eqn:Ep; [|by exists c]. eexists. split; [done|]. cbn. by eapply Hviews. }
  intros (v&s1&H1&H2)%bind_ok. apply ensureWorkspace_spec in H1 as (Hk&st&->). eexists.
  eapply register_and_persist_settled; [exact H2|exact Hk|exact Hc'|exact Hid'|done].
Qed.

Lemma restoreExisting_settled now wall token r c s s' : cdx_CodexId c = cr_CodexID r →
  restoreExistingUnmaterializedRemoteCodex registerRoot now wall token r c s = (s', Ok tt) → ∃ v, settled (cr_CodexID r) v s s' ∧ at_rest v.
Proof.
  intros Hid (v&s1&H1&H2)%bind_ok. apply ensureWorkspace_spec in H1 as (Hk&st&->). eexists.
  split; [eapply register_and_persist_settled; [exact H2|exact Hk|done|exact Hid|done]|]. apply at_rest_access, new_view_at_rest. by left.
Qed.

Lemma replace_settled now wall token r c s s' : cdx_CodexId c = cr_CodexID r →
  replaceUnmaterializedRemoteCodex registerRoot SA now wall token r c s = (s', Ok tt) → ∃ v, settled (cr_CodexID r) v s s' ∧ at_rest v.
Proof.
  intros Hid. unfold replaceUnmaterializedRemoteCodex. destruct (sa_StartThread _) as [replacement [e|]]; [done|]. destruct (str_empty (th_ID _)); [done|].
  cbv zeta. set (c1 := set_idle _ _). set (r1 := set_cr_ActiveTurnID _ _).
  assert (cdx_CodexId c1 = cr_CodexID r) as Hid1 by (subst c1; by destruct (str_empty (th_CWD _))).
  intros ([]&s1&H1&(v&s2&H2&([]&s3&[= <-]&H4)%bind_ok)%bind_ok)%bind_ok.
  eapply store_keeps in H1; [|intros *; apply BindLogicalOwner_rows]. apply ensureWorkspace_spec in H2 as (Hk&st&->). eexists. split.
  - eapply (register_and_persist_settled _ r1); [exact H4| |done|exact Hid1|done]. eapply keeps_rows_trans; [exact H1|]. eapply keeps_rows_trans; [exact Hk|done].
  - apply at_rest_access, new_view_at_rest. by left.
Qed.

Lemma restore_unavailable_settled now wall token r c s s' : cdx_CodexId c = cr_CodexID r →
  restore_unavailable registerRoot now wall token r c s = (s', Ok tt) → ∃ v, settled (cr_CodexID r) v s s' ∧ at_rest v.
Proof.
  intros Hid. unfold restore_unavailable. cbv zeta.
  intros (v&s1&H1&(v1&s2&H2&(v2&s3&H3&H4)%bind_ok)%bind_ok)%bind_ok.
  apply noteUnrecoverablePending_spec in H1 as (Hk1&c1&Hc1&Hid1&Ha1&Hs1&Ht1&Hp1). apply ensureWorkspace_spec in H2 as (Hk2&st&->).
  assert (keeps_rows s2 s3 ∧ ∃ st', v2 = set_cv_WorkspaceAccessState st' v) as [Hk3 [st' ->]].
  { destruct (_ || _); [apply restore_agent_into_spec in H3 as (Hk&st'&->); split; [done|by exists st']|]. injection H3 as <- <-. split; [done|by eexists]. }
  eexists. split; [eapply register_and_persist_settled; [exact H4|eauto using keeps_rows_trans|exact Hc1|by rewrite Hid1|done]|].
  apply at_rest_access. split; [done|]. split; [done|]. exists c1. split; [done|]. rewrite Ha1, Hs1. split; [done|by right].
Qed.

Lemma restore_resumed_settled now wall token r c thread s s' : cdx_CodexId c = cr_CodexID r →
  restore_resumed registerRoot now wall token r c thread s = (s', Ok tt) →
  ∃ v, settled (cr_CodexID r) v s s' ∧ at_rest v ∧
    ∀ t, last (th_Turns thread) = Some t → turnStatus (tn_Status t) = TURN_STATUS_RUNNING → cdx_Status <$> cv_Codex v = Some CODEX_STATUS_UNAVAILABLE.
Proof.
  intros Hid. unfold restore_resumed. cbv zeta. set (c0 := if cr_ManualTitleOverride r then c else _).
  assert (cdx_CodexId c0 = cr_CodexID r) as Hid0 by (subst c0; destruct (cr_ManualTitleOverride r); [done|]; unfold reconcileRestoredThreadTitle; by destruct (th_Name thread)).
  intros (v&s1&H1&(v1&s2&H2&(st1&s3&H3&(v2&s4&H4&H5)%bind_ok)%bind_ok)%bind_ok)%bind_ok.
  apply noteUnrecoverablePending_spec in H1 as (Hk1&c1&Hc1&Hid1&Ha1&Hs1&Ht1&Hp1). apply ensureWorkspace_spec in H2 as (Hk2&st&->).
  apply restoreCollabAgents_keep in H3. set (v3 := match st1 with Some _ => _ | None => _ end) in H4.
  assert (∃ st', v3 = set_cv_WorkspaceAccessState st' v) as [st' E3] by (subst v3; destruct st1; by eexists).
  assert (keeps_rows s s3) as Hk by eauto using keeps_rows_trans.
  assert (at_rest v) as Hrest.
  { split; [done|]. split; [done|]. exists c1. split; [done|]. rewrite Ha1, Hs1. split; [done|by left]. }
  destruct (last (th_Turns thread)) as [t|]; [case_bool_decide as Erun|].
  - apply restore_agent_into_spec in H4 as (Hk4&st4&->). eexists. split; [|split].
    + eapply register_and_persist_settled; [exact H5|eapply keeps_rows_trans; [exact Hk|exact Hk4]| | |done];
        [cbn; rewrite E3; cbn; by rewrite Hc1|]. cbn. by rewrite Hid1.
    + apply at_rest_access. rewrite E3. split; [done|]. split; [done|]. unfold with_codex. cbn. rewrite Hc1. eexists. split; [done|]. cbn. split; [done|by right].
    + intros t' _ _. unfold with_codex. cbn. rewrite E3. cbn. by rewrite Hc1.
  - injection H4 as <- <-. exists v3. rewrite E3. split; [|split; [done|by intros t' [= <-] ?]].
    rewrite E3 in H5. eapply register_and_persist_settled; [exact H5|exact Hk|exact Hc1|by rewrite Hid1|done].
  - injection H4 as <- <-. exists v3. rewrite E3. split; [|split; [done|done]].
    rewrite E3 in H5. eapply register_and_persist_settled; [exact H5|exact Hk|exact Hc1|by rewrite Hid1|done].
Qed.

(** The stored views name their own Codex. *)
Definition own_view (r : CodexRecord) : Prop :=
  ∀ v p, unmarshalCurrentView (cr_CurrentViewJSON r) = Some v → cv_Codex v = Some p → cdx_CodexId p = cr_CodexID r.

(** How a managed row may be shown after a restore. *)
Definition restored_view (r : CodexRecord) (v : CurrentView) : Prop :=
  cdx_ManagementState (codexFromRecord r) ≠ MANAGEMENT_STATE_UNMANAGED →
  at_rest v ∧ ∀ thread t, sa_ReadThread (cr_ThreadID r) true = (thread, None) → last (th_Turns thread) = Some t →
    turnStatus (tn_Status t) = TURN_STATUS_RUNNING → cdx_Status <$> cv_Codex v = Some CODEX_STATUS_UNAVAILABLE.

Lemma restore_record_settled now wall token entropy r s s' : own_view r →
  restore_record cfg registerRoot SA now wall token entropy r s = (s', Ok tt) → ∃ v, settled (cr_CodexID r) v s s' ∧ restored_view r v.
Proof.
  intros Hown (owner&s1&H1&H2)%bind_ok. cbv zeta in H2. set (c := codexFromRecord _) in H2.
  assert (keeps_rows s s1) as Hk.
  { destruct (str_empty _); [eapply store_keeps; [|exact H1]; intros *; apply EnsureLogicalOwner_rows|].
    apply bind_ok in H1 as ([]&s2&H1&[= <- <-]). eapply store_keeps; [|exact H1]. intros *; apply BindLogicalOwner_rows. }
  set (unspecified := bool_decide (cdx_ManagementState c = MANAGEMENT_STATE_UNSPECIFIED)) in H2.
  set (c1 := if unspecified then _ else c) in H2. set (r1 := if unspecified then _ else _) in H2.
  assert (cdx_CodexId c1 = cr_CodexID r1 ∧ cr_CodexID r1 = cr_CodexID r ∧ cr_ThreadID r1 = cr_ThreadID r ∧ cr_CurrentViewJSON r1 = cr_CurrentViewJSON r) as (Hid&Hr&Ht&Hj)
    by (subst c1 r1; destruct unspecified; done).
  assert (∃ v, settled (cr_CodexID r1) v s1 s' ∧ restored_view r v) as (v&(Hv&Hs&Ho)&Hrv); cycle 1.
  { exists v. rewrite Hr in *. split; [|done]. split; [done|]. split; [done|]. intros j Hj'. destruct (Ho j Hj') as [-> ->]. by rewrite (proj1 Hk), (proj2 Hk). }
  case_bool_decide as Eun.
  { apply restore_unmanaged_settled in H2 as (v&Hset); [|done|intros; rewrite Hr; eapply Hown; [by rewrite <- Hj|done]]. exists v. split; [done|].
    intros Hm. exfalso. apply Hm. subst c1 c. by destruct unspecified. }
  destruct (sa_ReadThread (cr_ThreadID r1) true) as [thread [readErr|]] eqn:Eread; rewrite Ht in Eread.
  - assert (∃ v, settled (cr_CodexID r1) v s1 s' ∧ at_rest v) as (v&Hset&Hrest).
    { destruct (canRestoreExistingUnmaterializedRemoteCodex _ _ _); [by eapply restoreExisting_settled|].
      destruct (canReplaceUnmaterializedRemoteCodex _ _ _); [by eapply replace_settled|by eapply restore_unavailable_settled]. }
    exists v. split; [done|]. intros _. split; [done|]. intros thread' t E. congruence.
  - destruct (sa_ResumeThread (cr_ThreadID r1)).2; [done|]. apply restore_resumed_settled in H2 as (v&Hset&Hrest&Hrun); [|done].
    exists v. split; [done|]. intros _. split; [done|]. intros thread' t E. assert (thread' = thread) as -> by congruence. apply Hrun.
Qed.

Lemma restore_records_settled now wall draws records s s' : NoDup (cr_CodexID <$> records) → Forall own_view records →
  restore_records cfg registerRoot SA now wall draws records s = (s', Ok tt) →
  (∀ r, r ∈ records → ∃ v, mg_byID s' !! cr_CodexID r = Some v ∧ stored_view (mdb s') (cr_CodexID r) = Some v ∧ restored_view r v) ∧
  ∀ j, j ∉ cr_CodexID <$> records → mg_byID s' !! j = mg_byID s !! j ∧ db_codexes (mdb s') !! j = db_codexes (mdb s) !! j.
Proof.
  revert s. induction records as [|r records IH]; intros s Hnd Hown.
  { intros [= <-]. split; [intros r Hr; by apply elem_of_nil in Hr|done]. }
  cbn [restore_records]. destruct (draws _) as [token entropy]. intros ([]&s1&H1&H2)%bind_ok. rewrite fmap_cons in Hnd. apply NoDup_cons in Hnd as [Hr Hnd].
  inversion_clear Hown as [|?? Ho Hos]. apply restore_record_settled in H1 as (v&(Hv&Hs&Hother)&Hrv); [|done].
  destruct (IH s1 Hnd Hos H2) as [IH1 IH2]. split.
  - intros r' [->|Hr']%elem_of_cons; [|by apply IH1]. exists v. destruct (IH2 _ Hr) as [E1 E2]. rewrite E1. split; [done|]. split; [|done].
    unfold stored_view in *. by rewrite E2.
  - intros j Hj. rewrite fmap_cons, not_elem_of_cons in Hj. destruct Hj as [Hj1 Hj2]. destruct (IH2 j Hj2) as [-> ->]. by apply Hother.
Qed.

(** C14: A restore leaves no claim that cannot be kept.  When it succeeds, every Codex of the
    database (up to the 100000 the code reads) is managed in memory again and what is shown
    of it is what the database holds.  A Codex that is not unmanaged is at rest: no turn, no
    request waiting for an answer whose connection is gone, and a status of idle or
    unavailable; and it is not idle if its last turn still runs at the app-server. *)
Theorem restore_conservative runtime now wall draws s s' id row
    (Hwf : codexes_wf (mdb s)) (Hsize : Z.of_nat (size (db_codexes (mdb s))) ≤ 100000) (Hviews : ∀ id r, db_codexes (mdb s) !! id = Some r → own_view r)
    (Hrun : restoreLocked cfg registerRoot SA runtime now wall draws s = (s', Ok tt)) (Hrow : db_codexes (mdb s) !! id = Some row) :
  ∃ v, mg_byID s' !! id = Some v ∧ stored_view (mdb s') id = Some v ∧ restored_view row v.
Proof.
  apply bind_ok in Hrun as (records&s1&Hl&([]&s2&Ha&Hr)%bind_ok). destruct runtime; [done|]. injection Ha as <-.
  assert (records = codex_rows (mdb s)) as ->.
  { unfold store, zoom in Hl. destruct (Persistence.ListCodexes _ _ _) as [p r] eqn:El. injection Hl as _ ->. apply sql_query_inv in El as [_ [El|[f ?]]]; [|done].
    injection El as ->. change (if 100000 <=? 0 then 50 else 100000) with 100000. change (if 0 <? 0 then 0 else 0) with 0. change (Z.to_nat 0) with 0%nat. rewrite drop_0. apply take_ge.
    unfold codex_rows. rewrite merge_sort_Permutation, length_fmap, length_map_to_list. lia. }
  assert (codex_rows (mdb s) ≡ₚ (map_to_list (db_codexes (mdb s))).*2) as Hperm by apply merge_sort_Permutation.
  assert (∀ r, r ∈ codex_rows (mdb s) → ∃ id, db_codexes (mdb s) !! id = Some r) as Hin.
  { intros r Hr'. rewrite Hperm in Hr'. apply list_elem_of_fmap in Hr' as ([k r']&->&Hk). apply elem_of_map_to_list in Hk. by exists k. }
  destruct (restore_records_settled now wall draws (codex_rows (mdb s)) s1 s') as [H _]; [| |exact Hr|].
  - rewrite Hperm. rewrite <- list_fmap_compose. assert (cr_CodexID ∘ snd <$> map_to_list (db_codexes (mdb s)) = (map_to_list (db_codexes (mdb s))).*1) as ->;
      [|apply NoDup_fst_map_to_list].
    apply list_fmap_ext. intros i [k r] Hk. cbn. apply list_elem_of_lookup_2, elem_of_map_to_list in Hk. by apply (proj1 Hwf).
  - apply Forall_forall. intros r Hr'. destruct (Hin r Hr') as [k Hk]. by eapply Hviews.
  - destruct (H row) as (v&Hv); [rewrite Hperm; apply list_elem_of_fmap; exists (id, row); split; [done|by apply elem_of_map_to_list]|].
    exists v. by rewrite (proj1 Hwf _ _ Hrow) in Hv.
Qed.
End Restore.

(** ** Imported sessions *)

Lemma normalizeSource_twice source : normalizeSessionSource (normalizeSourceString source) = normalizeSourceString source.
Proof.
  unfold normalizeSourceString, normalizeSessionSource. cbv zeta. destruct (str_empty (TrimSpace source)) eqn:E; [done|]. by rewrite TrimSpace_idemp, E.
Qed.

Section Imports.
Context `{PJ : ProtoJSON} (cfg : ManagerConfig) (audit : Event → option string) (registerRoot : string → res string).

(** The database knows session [thread] of [source] as Codex [id]. *)
Definition session_row (d : DB) (id source thread : string) : Prop :=
  ∃ row, db_codexes d !! id = Some row ∧ cr_CodexID row = id ∧ cr_SessionSource row = source ∧ cr_ThreadID row = thread.

Lemma saveCodex_spec wall token entropy c source owner s s' : saveCodex cfg registerRoot wall token entropy c source owner s = (s', Ok tt) →
  session_row (mdb s') (cdx_CodexId c) (normalizeSourceString source) (cdx_ThreadId c) ∧ mg_byThread s' !! cdx_ThreadId c = Some (cdx_CodexId c) ∧
  ∃ v c', mg_byID s' !! cdx_CodexId c = Some v ∧ cv_Codex v = Some c' ∧ Core.codex c' = Core.codex c.
Proof.
  intros (owner'&s1&_&(v&s2&H2&(raw&s3&H3&([]&s4&H4&[= <-])%bind_ok)%bind_ok)%bind_ok)%bind_ok.
  apply ensureWorkspace_spec in H2 as (_&st&->).
  unfold store, zoom in H4. destruct (UpsertCodex _ _) as [p ru] eqn:Eu. injection H4 as <- ->.
  apply sql_exec_inv in Eu as [([]&_&Hw)|(e&[=]&_)]. cbv beta zeta in Hw. case_match; [done|]. injection Hw as Hw.
  split; [|split].
  - unfold session_row, mdb, adb. cbn. rewrite <- Hw. cbn. rewrite lookup_insert_eq. eexists. split; [done|].
    rewrite <- (normalizeSource_twice source), <- (normalizeSource_twice source) at 1. by destruct (db_codexes _ !! _).
  - cbn. by rewrite lookup_insert_eq.
  - cbn. rewrite lookup_insert_eq. destruct (bounded_codex cfg (set_cv_WorkspaceAccessState st (new_view c wall)) c eq_refl) as (c'&Hc'&Hcore).
    by eexists _, c'.
Qed.

(** Publishing an event and forgetting a forgotten session keep the row. *)
Lemma publishCodex_row wall c req s s' id source thread : publishCodex cfg audit wall c req s = (s', Ok tt) →
  session_row (mdb s) id source thread → session_row (mdb s') id source thread ∧ mg_byID s' = mg_byID s ∧ mg_byThread s' = mg_byThread s.
Proof.
  intros H Hrow. destruct (mg_byID s !! cdx_CodexId c) as [v|] eqn:Hv; cycle 1.
  { unfold publishCodex, mbind, M_bind, gets in H. by rewrite Hv in H. }
  apply (publishCodex_spec cfg audit wall c req v s s' _ Hv) in H as (a&->&raw&seq&_&(row&Hr&_&_&_&Ha)). split; [|done].
  destruct Hrow as (row'&Hr'&H1&H2&H3). unfold session_row, mdb. cbn. rewrite Ha. cbn.
  destruct (decide (id = cdx_CodexId c)) as [->|Hne]; [rewrite lookup_insert_eq; assert (row' = row) as -> by congruence; by eexists|].
  rewrite lookup_insert_ne by done. by exists row'.
Qed.

Lemma DeleteForgottenSession_row source id s s' r : store (DeleteForgottenSession source id) s = (s', r) →
  keeps_rows s s' ∧ mg_byThread s' = mg_byThread s.
Proof.
  intros H. split; [|unfold store, zoom in H; destruct (DeleteForgottenSession _ _ _); by injection H as <- _].
  eapply store_keeps; [|exact H]. intros p p' r' E. pose proof (run_op_step (OpDeleteForgotten source id) p) as Hs. cbn in Hs. rewrite E in Hs. cbn in Hs.
  destruct Hs as [->|Hs]; [done|]. by inversion Hs.
Qed.

Lemma adopt_thread_spec now wall idRaw token entropy forgotten source sessionID t actual req s s' c :
  adopt_thread cfg audit registerRoot now wall idRaw token entropy forgotten source sessionID t actual req s = (s', Ok c) →
  cdx_ThreadId c = th_ID t ∧ session_row (mdb s') (cdx_CodexId c) (normalizeSourceString actual) (th_ID t) ∧
  mg_byThread s' !! th_ID t = Some (cdx_CodexId c) ∧ ∃ v c', mg_byID s' !! cdx_CodexId c = Some v ∧ cv_Codex v = Some c' ∧ Core.codex c' = Core.codex c.
Proof.
  unfold adopt_thread. cbv zeta. set (c0 := fresh_codex _ _ _ _ _ _ _ _).
  intros (owner&s1&_&([]&s2&H2&([]&s3&H3&([]&s4&H4&[= <- <-])%bind_ok)%bind_ok)%bind_ok)%bind_ok. split; [done|].
  apply saveCodex_spec in H2 as (Hrow&Hth&Hv). apply (publishCodex_row _ _ _ _ _ _ _ _ H3) in Hrow as (Hrow&Hby&Hth').
  assert (keeps_rows s3 s4 ∧ mg_byThread s4 = mg_byThread s3) as [[Hk1 Hk2] Hth4].
  { destruct forgotten; [by eapply DeleteForgottenSession_row|by injection H4 as <-]. }
  unfold session_row in *. rewrite Hk1, Hk2, Hth4, Hth', Hby. done.
Qed.

Lemma on_manager_ok {A} (m : MM A) w w' a : on_manager m w = (w', Ok a) → ∃ s', m w.1 = (s', Ok a) ∧ w' = (s', w.2).
Proof. unfold on_manager, zoom. destruct (m w.1) as [s' r]. intros [= <- ->]. eauto. Qed.

(** A query answers from the database, unless its outcome is a fault. *)
Lemma query_outcome {A} (q : DB → res A) p p' r : sql_query q p = (p', r) →
  st_db p' = st_db p ∧ (r = q (st_db p) ∨ ∃ f b, r = Err (fault_err f) ∧ st_oracle p = Bad f b :: st_oracle p').
Proof. unfold sql_query, pop. destruct p as [d [|[|f b] o]]; intros [= <- <-]; simpl; eauto 6. Qed.

(** A session the database knows is answered from the database. *)
Lemma known_session_answered SA env dirs runtime now wall idRaw token entropy sessionID requested req s fs w r id :
  str_empty sessionID || str_empty (TrimSpace requested) = false →
  codexes_wf (mdb s) → session_row (mdb s) id (normalizeSourceString requested) sessionID →
  ImportSession cfg audit registerRoot SA env dirs runtime now wall idRaw token entropy sessionID requested req (s, fs) = (w, r) →
  w.2 = fs ∧ same_memory s w.1 ∧ mdb w.1 = mdb s ∧
    ((∃ f b, r = Err (fault_err f) ∧ mleft s = Bad f b :: mleft w.1) ∨ ∃ c, r = Ok (c, true) ∧ cdx_CodexId c = id ∧ cdx_ThreadId c = sessionID).
Proof.
  intros Hne Hwf (row&Hrow&Hid&Hsrc&Hth). unfold ImportSession. cbv zeta. rewrite Hne.
  unfold mbind at 1, M_bind at 1, attempt at 1, on_manager at 1, zoom at 1, store at 1, zoom at 1. cbn [fst snd].
  destruct (GetCodexBySession _ _ _) as [p rq] eqn:Eq. apply query_outcome in Eq as [Hp Hr].
  rewrite normalizeSource_twice in Hr. set (found := List.find _ _) in Hr.
  assert (∃ row', found = Some row' ∧ cr_CodexID row' = id ∧ cr_ThreadID row' = sessionID) as (row'&Hf&Hid'&Hth').
  { destruct found as [row'|] eqn:Hf; subst found.
    - exists row'. split; [done|]. apply List.find_some in Hf as [Hin Hcond]. apply andb_true_iff in Hcond as [H1 H2]. to_prop. split; [|done].
      apply list_elem_of_In in Hin. unfold codex_rows in Hin. rewrite merge_sort_Permutation in Hin.
      apply list_elem_of_fmap in Hin as ([k x]&->&Hk). apply elem_of_map_to_list in Hk. cbn in *.
      rewrite (proj1 Hwf _ _ Hk). eapply (proj2 Hwf); [exact Hk|exact Hrow|congruence|congruence].
    - exfalso. eapply List.find_none in Hf; [|apply list_elem_of_In; unfold codex_rows; rewrite merge_sort_Permutation; apply list_elem_of_fmap;
        exists (id, row); split; [reflexivity|]; by apply elem_of_map_to_list].
      cbn in Hf. by rewrite !bool_decide_true in Hf. }
  rewrite Hf in Hr. cbn in Hr. assert (mdb (set_mg_events (set_as_persist p (mg_events s)) s) = mdb s) as E by exact Hp.
  destruct Hr as [->|(f&b&->&Hl)].
  - intros [= <- <-]. cbn [fst snd]. split; [done|]. split; [done|]. split; [exact E|]. right. eexists. split; [done|]. by rewrite <- Hid', <- Hth'.
  - destruct (negb _) eqn:En; [intros [= <- <-]; cbn [fst snd]; split; [done|]; split; [done|]; split; [exact E|]; left; by exists f, b|]. by destruct f.
Qed.

(** C15: A session is imported once.  When the import of a session the app-server knows
    succeeds, the new Codex belongs to exactly that session, it is registered under its
    thread and in memory, and the database has its row.  From then on, as long as the row
    is there and whatever else happened, importing the session again never makes a second
    Codex: the request changes neither memory nor database nor disk and answers with the
    same Codex, as already managed; only when the one statement it runs fails it answers
    with the fault of the database. *)
Theorem import_once SA env dirs runtime now wall idRaw token entropy sessionID requested req s fs s1 fs1 c listed
    (Hread : sa_ReadThread (SessionAdapter := SA) sessionID true = (listed, None))
    (Hrun : ImportSession cfg audit registerRoot SA env dirs runtime now wall idRaw token entropy sessionID requested req (s, fs) = ((s1, fs1), Ok (c, false))) :
  cdx_ThreadId c = sessionID ∧ mg_byThread s1 !! sessionID = Some (cdx_CodexId c) ∧
  (∃ v c', mg_byID s1 !! cdx_CodexId c = Some v ∧ cv_Codex v = Some c' ∧ Core.codex c' = Core.codex c) ∧
  session_row (mdb s1) (cdx_CodexId c) (normalizeSourceString requested) sessionID ∧
  ∀ SA2 env2 dirs2 runtime2 now2 wall2 idRaw2 token2 entropy2 req2 s2 fs2 w r, codexes_wf (mdb s2) →
    session_row (mdb s2) (cdx_CodexId c) (normalizeSourceString requested) sessionID →
    ImportSession cfg audit registerRoot SA2 env2 dirs2 runtime2 now2 wall2 idRaw2 token2 entropy2 sessionID requested req2 (s2, fs2) = (w, r) →
    w.2 = fs2 ∧ same_memory s2 w.1 ∧ mdb w.1 = mdb s2 ∧
      ((∃ f b, r = Err (fault_err f) ∧ mleft s2 = Bad f b :: mleft w.1) ∨ ∃ c2, r = Ok (c2, true) ∧ cdx_CodexId c2 = cdx_CodexId c ∧ cdx_ThreadId c2 = sessionID).
Proof.
  assert (cdx_ThreadId c = sessionID ∧ session_row (mdb s1) (cdx_CodexId c) (normalizeSourceString requested) sessionID ∧
    mg_byThread s1 !! sessionID = Some (cdx_CodexId c) ∧
    ∃ v c', mg_byID s1 !! cdx_CodexId c = Some v ∧ cv_Codex v = Some c' ∧ Core.codex c' = Core.codex c) as (H1&H2&H3&H4); cycle 1.
  { split; [done|]. split; [done|]. split; [done|]. split; [done|]. intros. eapply known_session_answered; [|done..].
    unfold ImportSession in Hrun. by destruct (str_empty sessionID || _). }
  unfold ImportSession in Hrun. cbv zeta in Hrun. destruct (str_empty sessionID || _) eqn:Eempty; [done|]. apply orb_false_iff in Eempty as [Eempty _].
  apply bind_ok in Hrun as (existing&w1&_&Hrun). destruct existing as [row|e]; [by injection Hrun|]. destruct (negb _); [done|].
  apply bind_ok in Hrun as ([]&w2&_&(f&w3&_&(forgotten&w4&_&Hrun)%bind_ok)%bind_ok). rewrite Hread in Hrun.
  apply bind_ok in Hrun as ([t actual]&w5&Hi&(c'&w6&Ha&[= -> ->])%bind_ok). cbn [fst snd] in Ha.
  apply on_manager_ok in Ha as (s6&Ha&[= <- _]). apply adopt_thread_spec in Ha.
  unfold imported_thread in Hi. case_bool_decide as Eact; [done|]. destruct (Import sessionID) as [t0 [e0|]] eqn:Eimp; [done|]. injection Hi as _ <- <-.
  apply Import_spec in Eimp as (?&?&_&_&_&_&Hid&_).
  assert (th_ID (complete_thread listed t0) = sessionID) as Eth.
  { unfold complete_thread. cbv zeta. rewrite <- Hid. rewrite <- Hid in Eempty.
    destruct (str_empty (th_Source t0)); cbn; rewrite Eempty; repeat case_match; done. }
  rewrite Eth in Ha. destruct (decide (normalizeSource (th_Source listed) = normalizeSourceString requested)) as [E|]; [|done].
  rewrite E in Ha. change (normalizeSourceString (normalizeSourceString requested)) with (normalizeSessionSource (normalizeSourceString requested)) in Ha.
  by rewrite normalizeSource_twice in Ha.
Qed.
End Imports.

(** ** A concrete restart *)

Module RestoreDemo.
Import WorkspaceLink.

Definition cfg : ManagerConfig := mkManagerConfig 0 0 0.

(** The app-server still runs the last turn of the thread. *)
Definition thread_text : string :=
  js "{'thread':{'id':'t1','sessionId':'t1','cwd':'/w','source':'cli','name':'renamed','turns':[{'id':'turn-1','status':'inProgress','itemsView':'full'}]}}".
Definition call (method : string) (params : any) : res Message := Ok (mkMessage "" "" "" thread_text None).
Definition root_ok (root : string) : res string := Ok root.
Definition draws (n : nat) : string * res string := ("q9", Ok "entropy").

(** A fresh manager over the database of before. *)
Definition fresh : MState := mkMState (mg_events s0) (mkService ∅ ∅ 0 0) ∅ ∅ ∅ ∅ ∅ ∅ ∅ ∅ ∅ ∅ "".

Definition restored_codex : Codex := set_cdx_Status CODEX_STATUS_UNAVAILABLE (set_cdx_Title "renamed" c0).
Definition shown_again : CurrentView := mkCurrentView (Some restored_codex) None [] (Some (busy_state {["turn-1"]} 7 st0)) None 0 5.
#[local] Instance restart_views : ProtoJSON := table_json [v0; shown_again].
#[local] Instance restart_laws : ProtoJSONLaws := table_json_laws [v0; shown_again].

Lemma restore_conservative_witness :
  ∃ s1 v, restoreLocked cfg root_ok (app_server call) None 5000000 7 draws fresh = (s1, Ok tt) ∧ mg_byID s1 !! "c1" = Some v ∧
    at_rest v ∧ cdx_Status <$> cv_Codex v = Some CODEX_STATUS_UNAVAILABLE.
Proof.
  assert (∃ s1, restoreLocked cfg root_ok (app_server call) None 5000000 7 draws fresh = (s1, Ok tt)) as [s1 Hrun] by (eexists; vm_compute; reflexivity).
  assert (db_codexes (mdb fresh) = {["c1" := row0]}) as Hdb by reflexivity.
  assert (codexes_wf (mdb fresh)) as Hwf.
  { split; rewrite Hdb; [intros id r [<- <-]%lookup_singleton_Some; reflexivity|].
    intros i j ri rj [<- <-]%lookup_singleton_Some [<- <-]%lookup_singleton_Some _ _. reflexivity. }
  assert (Z.of_nat (size (db_codexes (mdb fresh))) ≤ 100000) as Hsize by (vm_compute; discriminate).
  assert (∀ id r, db_codexes (mdb fresh) !! id = Some r → own_view r) as Hviews.
  { rewrite Hdb. intros id r [<- <-]%lookup_singleton_Some v p Hv Hp. vm_compute in Hv. injection Hv as <-. injection Hp as <-. reflexivity. }
  destruct (restore_conservative cfg root_ok (app_server call) None 5000000 7 draws fresh s1 "c1" row0 Hwf Hsize Hviews Hrun eq_refl) as (v&Hv&_&Hrest).
  exists s1, v. split; [exact Hrun|]. split; [exact Hv|]. destruct Hrest as [H1 H2]; [discriminate|]. split; [exact H1|].
  eapply H2; vm_compute; reflexivity.
Defined.

(** The same thread is imported into an empty database. *)
Definition empty_host : MState := mkMState (NewStore (mkStore empty_db []) false 8) (mkService ∅ ∅ 0 0) ∅ ∅ ∅ ∅ ∅ ∅ ∅ ∅ ∅ ∅ "".
Definition any_view : ProtoJSON := {| Marshal _ := Ok "{}"; UnmarshalView _ := None |}.
Definition import_run (s : MState) (fs : FS) : MState * FS * res (Codex * bool) :=
  ImportSession (PJ := any_view) cfg no_audit root_ok (app_server call) DirectoryDemo.env (mkDirectories "") None 5000000 7 "id" "q1" (Ok "entropy") "t1" "cli" "r1" (s, fs).
Definition host_after : MState := (import_run empty_host DirectoryDemo.disk).1.1.
Definition imported_row : CodexRecord := default row0 (db_codexes (mdb host_after) !! "cdx_6964").

Lemma import_once_witness :
  ∃ c c2, (import_run empty_host DirectoryDemo.disk).2 = Ok (c, false) ∧ (import_run host_after DirectoryDemo.disk).2 = Ok (c2, true) ∧ cdx_CodexId c2 = cdx_CodexId c.
Proof.
  assert (∃ listed, sa_ReadThread (SessionAdapter := app_server call) "t1" true = (listed, None)) as [listed Hread] by (eexists; vm_compute; reflexivity).
  assert (∃ s1 fs1 c, import_run empty_host DirectoryDemo.disk = ((s1, fs1), Ok (c, false))) as (s1&fs1&c&Hrun) by (eexists _, _, _; vm_compute; reflexivity).
  assert (∃ w c2, import_run host_after DirectoryDemo.disk = (w, Ok (c2, true))) as (w&c2&Hagain) by (eexists _, _; vm_compute; reflexivity).
  assert (s1 = host_after) as -> by (unfold host_after; rewrite Hrun; reflexivity).
  destruct (import_once (PJ := any_view) cfg no_audit root_ok (app_server call) DirectoryDemo.env (mkDirectories "") None 5000000 7 "id" "q1" (Ok "entropy") "t1" "cli" "r1"
    empty_host DirectoryDemo.disk host_after fs1 c listed Hread Hrun) as (_&_&_&Hrow&Honce).
  assert (codexes_wf (mdb host_after)) as Hwf.
  { assert (db_codexes (mdb host_after) = {["cdx_6964" := imported_row]}) as E by (vm_compute; reflexivity). split; rewrite E.
    - intros id r [<- <-]%lookup_singleton_Some. vm_compute. reflexivity.
    - intros i j ri rj [<- <-]%lookup_singleton_Some [<- <-]%lookup_singleton_Some _ _. reflexivity. }
  exists c, c2. split; [by rewrite Hrun|]. split; [by rewrite Hagain|].
  destruct (Honce (app_server call) DirectoryDemo.env (mkDirectories "") None 5000000 7 "id" "q1" (Ok "entropy") "r1" host_after DirectoryDemo.disk w _ Hwf Hrow Hagain)
    as (_&_&_&[(f&b&He&_)|(c3&Hc3&Hid&_)]); [discriminate He|]. by injection Hc3 as ->.
Defined.

End RestoreDemo.
