(* ===== verification/AuditLog.v ===== *)
(** * The audit recorder (internal/audit/recorder.go)

    Evidence of what the Host did, one JSON line per record, in a directory of journals by
    kind, each cut into parts.  A [Recorder] numbers the records, completes them, appends
    their lines and remembers which wire records belong to which request and turn, so that
    a canonical activity can name its sources.

    The state is the [Recorder] and the file system; [Record], [Close] and [Export] hold
    the lock [mu], the correlations are read and written under [corrMu], so the recording
    methods are sequences of atomic sections.  ProtoJSON ([Marshal]) and the tar and gzip
    writers ([ArchiveWriter]) are parameters; times and random bytes are arguments.  The
    directory is a rooted path. *)

From Stdlib Require Import Ascii String.
From stdpp Require Import base tactics numbers list gmap strings pretty.
From S2P Require Import Prelude GoError GoStrings Sha256 GoPath FileSystem FileCalls GoTime FileWrites Interleave Tailnet Float64 Json Remote Activity Dispatcher Server.
Local Open Scope string_scope.
Local Open Scope Z_scope.
Local Open Scope list_scope.

(** ** Data *)

Inductive AuditKind :=
| AUDIT_KIND_CS_WIRE_FRAME | AUDIT_KIND_RPC | AUDIT_KIND_CANONICAL_ACTIVITY | AUDIT_KIND_APP_SERVER_WIRE
| AUDIT_KIND_HOST_ACTION | AUDIT_KIND_RUNTIME_LOG | AUDIT_KIND_PROCESS_LIFECYCLE | AUDIT_KIND_CONNECTION_LIFECYCLE.

#[export] Instance AuditKind_eq_dec : EqDecision AuditKind.
Proof. solve_decision. Defined.

Inductive AuditDirection := AUDIT_DIRECTION_INBOUND | AUDIT_DIRECTION_OUTBOUND | AUDIT_DIRECTION_INTERNAL.

(** [remotev1.Provenance]. *)
Record Provenance := mkProvenance {
  pr_Kind : ProvenanceKind;
  pr_ObservedAtUnixMs : Z;
  pr_SourceRecordIds : list string;
}.

Record CanonicalActivity := mkCanonicalActivity {
  ca_ActivityId : string;
  ca_CodexId : string;
  ca_TurnId : string;
  ca_ItemId : string;
  ca_OccurredAtUnixMs : Z;
  ca_Event : Event;
  ca_Provenance : Provenance;
}.

Record Config := mkConfig {
  rcf_Dir : string;
  rcf_ProcessRunID : string;
  rcf_MaxFileBytes : Z;   (* int64 *)
  rcf_MaxRawBytes : Z;
}.

(** An open journal part: the handle (nothing once it is closed), path, size and number. *)
Record journal := mkJournal {
  jn_file : option (list string);
  jn_path : string;
  jn_size : Z;   (* int64 *)
  jn_part : Z;
}.

Section Records.
Context {B V : Type}.

(** [remotev1.AuditRecord], the fields the Host sets. *)
Record AuditRecord := mkAuditRecord {
  au_FormatVersion : Z;
  au_RecordId : string;
  au_LocalSeq : Z;
  au_ProcessRunId : string;
  au_HostSide : bool;  (* AUDIT_SIDE_HOST or unspecified *)
  au_ObservedAtUnixMs : Z;
  au_Kind : AuditKind;
  au_Direction : AuditDirection;
  au_Outcome : AuditOutcome;
  au_Component : string;
  au_Operation : string;
  au_Message : string;
  au_RequestId : string;
  au_ConnectionId : string;
  au_ClientId : string;
  au_ClientRunId : string;
  au_CodexId : string;
  au_ThreadId : string;
  au_TurnId : string;
  au_ItemId : string;
  au_EventSeq : Z;
  au_RawText : string;
  au_RawSha256 : string;
  au_RawSizeBytes : Z;
  au_RawTruncated : bool;
  au_Frame : option (payload B V);
  au_CanonicalActivity : option CanonicalActivity;
  au_Provenance : option Provenance;
  au_ParentRecordId : string;
  au_Metadata : gmap string string;
  au_Error : option Error;
}.

Definition set_au_FormatVersion (x : Z) (r : AuditRecord) : AuditRecord :=
  mkAuditRecord x (au_RecordId r) (au_LocalSeq r) (au_ProcessRunId r) (au_HostSide r) (au_ObservedAtUnixMs r)
    (au_Kind r) (au_Direction r) (au_Outcome r) (au_Component r) (au_Operation r) (au_Message r)
    (au_RequestId r) (au_ConnectionId r) (au_ClientId r) (au_ClientRunId r) (au_CodexId r) (au_ThreadId r)
    (au_TurnId r) (au_ItemId r) (au_EventSeq r) (au_RawText r) (au_RawSha256 r) (au_RawSizeBytes r)
    (au_RawTruncated r) (au_Frame r) (au_CanonicalActivity r) (au_Provenance r) (au_ParentRecordId r)
    (au_Metadata r) (au_Error r).
Definition set_au_RecordId (x : string) (r : AuditRecord) : AuditRecord :=
  mkAuditRecord (au_FormatVersion r) x (au_LocalSeq r) (au_ProcessRunId r) (au_HostSide r)
    (au_ObservedAtUnixMs r) (au_Kind r) (au_Direction r) (au_Outcome r) (au_Component r) (au_Operation r)
    (au_Message r) (au_RequestId r) (au_ConnectionId r) (au_ClientId r) (au_ClientRunId r) (au_CodexId r)
    (au_ThreadId r) (au_TurnId r) (au_ItemId r) (au_EventSeq r) (au_RawText r) (au_RawSha256 r)
    (au_RawSizeBytes r) (au_RawTruncated r) (au_Frame r) (au_CanonicalActivity r) (au_Provenance r)
    (au_ParentRecordId r) (au_Metadata r) (au_Error r).
Definition set_au_LocalSeq (x : Z) (r : AuditRecord) : AuditRecord :=
  mkAuditRecord (au_FormatVersion r) (au_RecordId r) x (au_ProcessRunId r) (au_HostSide r)
    (au_ObservedAtUnixMs r) (au_Kind r) (au_Direction r) (au_Outcome r) (au_Component r) (au_Operation r)
    (au_Message r) (au_RequestId r) (au_ConnectionId r) (au_ClientId r) (au_ClientRunId r) (au_CodexId r)
    (au_ThreadId r) (au_TurnId r) (au_ItemId r) (au_EventSeq r) (au_RawText r) (au_RawSha256 r)
    (au_RawSizeBytes r) (au_RawTruncated r) (au_Frame r) (au_CanonicalActivity r) (au_Provenance r)
    (au_ParentRecordId r) (au_Metadata r) (au_Error r).
Definition set_au_ProcessRunId (x : string) (r : AuditRecord) : AuditRecord :=
  mkAuditRecord (au_FormatVersion r) (au_RecordId r) (au_LocalSeq r) x (au_HostSide r) (au_ObservedAtUnixMs r)
    (au_Kind r) (au_Direction r) (au_Outcome r) (au_Component r) (au_Operation r) (au_Message r)
    (au_RequestId r) (au_ConnectionId r) (au_ClientId r) (au_ClientRunId r) (au_CodexId r) (au_ThreadId r)
    (au_TurnId r) (au_ItemId r) (au_EventSeq r) (au_RawText r) (au_RawSha256 r) (au_RawSizeBytes r)
    (au_RawTruncated r) (au_Frame r) (au_CanonicalActivity r) (au_Provenance r) (au_ParentRecordId r)
    (au_Metadata r) (au_Error r).
Definition set_au_HostSide (x : bool) (r : AuditRecord) : AuditRecord :=
  mkAuditRecord (au_FormatVersion r) (au_RecordId r) (au_LocalSeq r) (au_ProcessRunId r) x
    (au_ObservedAtUnixMs r) (au_Kind r) (au_Direction r) (au_Outcome r) (au_Component r) (au_Operation r)
    (au_Message r) (au_RequestId r) (au_ConnectionId r) (au_ClientId r) (au_ClientRunId r) (au_CodexId r)
    (au_ThreadId r) (au_TurnId r) (au_ItemId r) (au_EventSeq r) (au_RawText r) (au_RawSha256 r)
    (au_RawSizeBytes r) (au_RawTruncated r) (au_Frame r) (au_CanonicalActivity r) (au_Provenance r)
    (au_ParentRecordId r) (au_Metadata r) (au_Error r).
Definition set_au_ObservedAtUnixMs (x : Z) (r : AuditRecord) : AuditRecord :=
  mkAuditRecord (au_FormatVersion r) (au_RecordId r) (au_LocalSeq r) (au_ProcessRunId r) (au_HostSide r) x
    (au_Kind r) (au_Direction r) (au_Outcome r) (au_Component r) (au_Operation r) (au_Message r)
    (au_RequestId r) (au_ConnectionId r) (au_ClientId r) (au_ClientRunId r) (au_CodexId r) (au_ThreadId r)
    (au_TurnId r) (au_ItemId r) (au_EventSeq r) (au_RawText r) (au_RawSha256 r) (au_RawSizeBytes r)
    (au_RawTruncated r) (au_Frame r) (au_CanonicalActivity r) (au_Provenance r) (au_ParentRecordId r)
    (au_Metadata r) (au_Error r).
Definition set_au_Kind (x : AuditKind) (r : AuditRecord) : AuditRecord :=
  mkAuditRecord (au_FormatVersion r) (au_RecordId r) (au_LocalSeq r) (au_ProcessRunId r) (au_HostSide r)
    (au_ObservedAtUnixMs r) x (au_Direction r) (au_Outcome r) (au_Component r) (au_Operation r) (au_Message r)
    (au_RequestId r) (au_ConnectionId r) (au_ClientId r) (au_ClientRunId r) (au_CodexId r) (au_ThreadId r)
    (au_TurnId r) (au_ItemId r) (au_EventSeq r) (au_RawText r) (au_RawSha256 r) (au_RawSizeBytes r)
    (au_RawTruncated r) (au_Frame r) (au_CanonicalActivity r) (au_Provenance r) (au_ParentRecordId r)
    (au_Metadata r) (au_Error r).
Definition set_au_Direction (x : AuditDirection) (r : AuditRecord) : AuditRecord :=
  mkAuditRecord (au_FormatVersion r) (au_RecordId r) (au_LocalSeq r) (au_ProcessRunId r) (au_HostSide r)
    (au_ObservedAtUnixMs r) (au_Kind r) x (au_Outcome r) (au_Component r) (au_Operation r) (au_Message r)
    (au_RequestId r) (au_ConnectionId r) (au_ClientId r) (au_ClientRunId r) (au_CodexId r) (au_ThreadId r)
    (au_TurnId r) (au_ItemId r) (au_EventSeq r) (au_RawText r) (au_RawSha256 r) (au_RawSizeBytes r)
    (au_RawTruncated r) (au_Frame r) (au_CanonicalActivity r) (au_Provenance r) (au_ParentRecordId r)
    (au_Metadata r) (au_Error r).
Definition set_au_Outcome (x : AuditOutcome) (r : AuditRecord) : AuditRecord :=
  mkAuditRecord (au_FormatVersion r) (au_RecordId r) (au_LocalSeq r) (au_ProcessRunId r) (au_HostSide r)
    (au_ObservedAtUnixMs r) (au_Kind r) (au_Direction r) x (au_Component r) (au_Operation r) (au_Message r)
    (au_RequestId r) (au_ConnectionId r) (au_ClientId r) (au_ClientRunId r) (au_CodexId r) (au_ThreadId r)
    (au_TurnId r) (au_ItemId r) (au_EventSeq r) (au_RawText r) (au_RawSha256 r) (au_RawSizeBytes r)
    (au_RawTruncated r) (au_Frame r) (au_CanonicalActivity r) (au_Provenance r) (au_ParentRecordId r)
    (au_Metadata r) (au_Error r).
Definition set_au_Component (x : string) (r : AuditRecord) : AuditRecord :=
  mkAuditRecord (au_FormatVersion r) (au_RecordId r) (au_LocalSeq r) (au_ProcessRunId r) (au_HostSide r)
    (au_ObservedAtUnixMs r) (au_Kind r) (au_Direction r) (au_Outcome r) x (au_Operation r) (au_Message r)
    (au_RequestId r) (au_ConnectionId r) (au_ClientId r) (au_ClientRunId r) (au_CodexId r) (au_ThreadId r)
    (au_TurnId r) (au_ItemId r) (au_EventSeq r) (au_RawText r) (au_RawSha256 r) (au_RawSizeBytes r)
    (au_RawTruncated r) (au_Frame r) (au_CanonicalActivity r) (au_Provenance r) (au_ParentRecordId r)
    (au_Metadata r) (au_Error r).
Definition set_au_Operation (x : string) (r : AuditRecord) : AuditRecord :=
  mkAuditRecord (au_FormatVersion r) (au_RecordId r) (au_LocalSeq r) (au_ProcessRunId r) (au_HostSide r)
    (au_ObservedAtUnixMs r) (au_Kind r) (au_Direction r) (au_Outcome r) (au_Component r) x (au_Message r)
    (au_RequestId r) (au_ConnectionId r) (au_ClientId r) (au_ClientRunId r) (au_CodexId r) (au_ThreadId r)
    (au_TurnId r) (au_ItemId r) (au_EventSeq r) (au_RawText r) (au_RawSha256 r) (au_RawSizeBytes r)
    (au_RawTruncated r) (au_Frame r) (au_CanonicalActivity r) (au_Provenance r) (au_ParentRecordId r)
    (au_Metadata r) (au_Error r).
Definition set_au_Message (x : string) (r : AuditRecord) : AuditRecord :=
  mkAuditRecord (au_FormatVersion r) (au_RecordId r) (au_LocalSeq r) (au_ProcessRunId r) (au_HostSide r)
    (au_ObservedAtUnixMs r) (au_Kind r) (au_Direction r) (au_Outcome r) (au_Component r) (au_Operation r) x
    (au_RequestId r) (au_ConnectionId r) (au_ClientId r) (au_ClientRunId r) (au_CodexId r) (au_ThreadId r)
    (au_TurnId r) (au_ItemId r) (au_EventSeq r) (au_RawText r) (au_RawSha256 r) (au_RawSizeBytes r)
    (au_RawTruncated r) (au_Frame r) (au_CanonicalActivity r) (au_Provenance r) (au_ParentRecordId r)
    (au_Metadata r) (au_Error r).
Definition set_au_RequestId (x : string) (r : AuditRecord) : AuditRecord :=
  mkAuditRecord (au_FormatVersion r) (au_RecordId r) (au_LocalSeq r) (au_ProcessRunId r) (au_HostSide r)
    (au_ObservedAtUnixMs r) (au_Kind r) (au_Direction r) (au_Outcome r) (au_Component r) (au_Operation r)
    (au_Message r) x (au_ConnectionId r) (au_ClientId r) (au_ClientRunId r) (au_CodexId r) (au_ThreadId r)
    (au_TurnId r) (au_ItemId r) (au_EventSeq r) (au_RawText r) (au_RawSha256 r) (au_RawSizeBytes r)
    (au_RawTruncated r) (au_Frame r) (au_CanonicalActivity r) (au_Provenance r) (au_ParentRecordId r)
    (au_Metadata r) (au_Error r).
Definition set_au_ConnectionId (x : string) (r : AuditRecord) : AuditRecord :=
  mkAuditRecord (au_FormatVersion r) (au_RecordId r) (au_LocalSeq r) (au_ProcessRunId r) (au_HostSide r)
    (au_ObservedAtUnixMs r) (au_Kind r) (au_Direction r) (au_Outcome r) (au_Component r) (au_Operation r)
    (au_Message r) (au_RequestId r) x (au_ClientId r) (au_ClientRunId r) (au_CodexId r) (au_ThreadId r)
    (au_TurnId r) (au_ItemId r) (au_EventSeq r) (au_RawText r) (au_RawSha256 r) (au_RawSizeBytes r)
    (au_RawTruncated r) (au_Frame r) (au_CanonicalActivity r) (au_Provenance r) (au_ParentRecordId r)
    (au_Metadata r) (au_Error r).
Definition set_au_ClientId (x : string) (r : AuditRecord) : AuditRecord :=
  mkAuditRecord (au_FormatVersion r) (au_RecordId r) (au_LocalSeq r) (au_ProcessRunId r) (au_HostSide r)
    (au_ObservedAtUnixMs r) (au_Kind r) (au_Direction r) (au_Outcome r) (au_Component r) (au_Operation r)
    (au_Message r) (au_RequestId r) (au_ConnectionId r) x (au_ClientRunId r) (au_CodexId r) (au_ThreadId r)
    (au_TurnId r) (au_ItemId r) (au_EventSeq r) (au_RawText r) (au_RawSha256 r) (au_RawSizeBytes r)
    (au_RawTruncated r) (au_Frame r) (au_CanonicalActivity r) (au_Provenance r) (au_ParentRecordId r)
    (au_Metadata r) (au_Error r).
Definition set_au_ClientRunId (x : string) (r : AuditRecord) : AuditRecord :=
  mkAuditRecord (au_FormatVersion r) (au_RecordId r) (au_LocalSeq r) (au_ProcessRunId r) (au_HostSide r)
    (au_ObservedAtUnixMs r) (au_Kind r) (au_Direction r) (au_Outcome r) (au_Component r) (au_Operation r)
    (au_Message r) (au_RequestId r) (au_ConnectionId r) (au_ClientId r) x (au_CodexId r) (au_ThreadId r)
    (au_TurnId r) (au_ItemId r) (au_EventSeq r) (au_RawText r) (au_RawSha256 r) (au_RawSizeBytes r)
    (au_RawTruncated r) (au_Frame r) (au_CanonicalActivity r) (au_Provenance r) (au_ParentRecordId r)
    (au_Metadata r) (au_Error r).
Definition set_au_CodexId (x : string) (r : AuditRecord) : AuditRecord :=
  mkAuditRecord (au_FormatVersion r) (au_RecordId r) (au_LocalSeq r) (au_ProcessRunId r) (au_HostSide r)
    (au_ObservedAtUnixMs r) (au_Kind r) (au_Direction r) (au_Outcome r) (au_Component r) (au_Operation r)
    (au_Message r) (au_RequestId r) (au_ConnectionId r) (au_ClientId r) (au_ClientRunId r) x (au_ThreadId r)
    (au_TurnId r) (au_ItemId r) (au_EventSeq r) (au_RawText r) (au_RawSha256 r) (au_RawSizeBytes r)
    (au_RawTruncated r) (au_Frame r) (au_CanonicalActivity r) (au_Provenance r) (au_ParentRecordId r)
    (au_Metadata r) (au_Error r).
Definition set_au_ThreadId (x : string) (r : AuditRecord) : AuditRecord :=
  mkAuditRecord (au_FormatVersion r) (au_RecordId r) (au_LocalSeq r) (au_ProcessRunId r) (au_HostSide r)
    (au_ObservedAtUnixMs r) (au_Kind r) (au_Direction r) (au_Outcome r) (au_Component r) (au_Operation r)
    (au_Message r) (au_RequestId r) (au_ConnectionId r) (au_ClientId r) (au_ClientRunId r) (au_CodexId r) x
    (au_TurnId r) (au_ItemId r) (au_EventSeq r) (au_RawText r) (au_RawSha256 r) (au_RawSizeBytes r)
    (au_RawTruncated r) (au_Frame r) (au_CanonicalActivity r) (au_Provenance r) (au_ParentRecordId r)
    (au_Metadata r) (au_Error r).
Definition set_au_TurnId (x : string) (r : AuditRecord) : AuditRecord :=
  mkAuditRecord (au_FormatVersion r) (au_RecordId r) (au_LocalSeq r) (au_ProcessRunId r) (au_HostSide r)
    (au_ObservedAtUnixMs r) (au_Kind r) (au_Direction r) (au_Outcome r) (au_Component r) (au_Operation r)
    (au_Message r) (au_RequestId r) (au_ConnectionId r) (au_ClientId r) (au_ClientRunId r) (au_CodexId r)
    (au_ThreadId r) x (au_ItemId r) (au_EventSeq r) (au_RawText r) (au_RawSha256 r) (au_RawSizeBytes r)
    (au_RawTruncated r) (au_Frame r) (au_CanonicalActivity r) (au_Provenance r) (au_ParentRecordId r)
    (au_Metadata r) (au_Error r).
Definition set_au_ItemId (x : string) (r : AuditRecord) : AuditRecord :=
  mkAuditRecord (au_FormatVersion r) (au_RecordId r) (au_LocalSeq r) (au_ProcessRunId r) (au_HostSide r)
    (au_ObservedAtUnixMs r) (au_Kind r) (au_Direction r) (au_Outcome r) (au_Component r) (au_Operation r)
    (au_Message r) (au_RequestId r) (au_ConnectionId r) (au_ClientId r) (au_ClientRunId r) (au_CodexId r)
    (au_ThreadId r) (au_TurnId r) x (au_EventSeq r) (au_RawText r) (au_RawSha256 r) (au_RawSizeBytes r)
    (au_RawTruncated r) (au_Frame r) (au_CanonicalActivity r) (au_Provenance r) (au_ParentRecordId r)
    (au_Metadata r) (au_Error r).
Definition set_au_EventSeq (x : Z) (r : AuditRecord) : AuditRecord :=
  mkAuditRecord (au_FormatVersion r) (au_RecordId r) (au_LocalSeq r) (au_ProcessRunId r) (au_HostSide r)
    (au_ObservedAtUnixMs r) (au_Kind r) (au_Direction r) (au_Outcome r) (au_Component r) (au_Operation r)
    (au_Message r) (au_RequestId r) (au_ConnectionId r) (au_ClientId r) (au_ClientRunId r) (au_CodexId r)
    (au_ThreadId r) (au_TurnId r) (au_ItemId r) x (au_RawText r) (au_RawSha256 r) (au_RawSizeBytes r)
    (au_RawTruncated r) (au_Frame r) (au_CanonicalActivity r) (au_Provenance r) (au_ParentRecordId r)
    (au_Metadata r) (au_Error r).
Definition set_au_RawText (x : string) (r : AuditRecord) : AuditRecord :=
  mkAuditRecord (au_FormatVersion r) (au_RecordId r) (au_LocalSeq r) (au_ProcessRunId r) (au_HostSide r)
    (au_ObservedAtUnixMs r) (au_Kind r) (au_Direction r) (au_Outcome r) (au_Component r) (au_Operation r)
    (au_Message r) (au_RequestId r) (au_ConnectionId r) (au_ClientId r) (au_ClientRunId r) (au_CodexId r)
    (au_ThreadId r) (au_TurnId r) (au_ItemId r) (au_EventSeq r) x (au_RawSha256 r) (au_RawSizeBytes r)
    (au_RawTruncated r) (au_Frame r) (au_CanonicalActivity r) (au_Provenance r) (au_ParentRecordId r)
    (au_Metadata r) (au_Error r).
Definition set_au_RawSha256 (x : string) (r : AuditRecord) : AuditRecord :=
  mkAuditRecord (au_FormatVersion r) (au_RecordId r) (au_LocalSeq r) (au_ProcessRunId r) (au_HostSide r)
    (au_ObservedAtUnixMs r) (au_Kind r) (au_Direction r) (au_Outcome r) (au_Component r) (au_Operation r)
    (au_Message r) (au_RequestId r) (au_ConnectionId r) (au_ClientId r) (au_ClientRunId r) (au_CodexId r)
    (au_ThreadId r) (au_TurnId r) (au_ItemId r) (au_EventSeq r) (au_RawText r) x (au_RawSizeBytes r)
    (au_RawTruncated r) (au_Frame r) (au_CanonicalActivity r) (au_Provenance r) (au_ParentRecordId r)
    (au_Metadata r) (au_Error r).
Definition set_au_RawSizeBytes (x : Z) (r : AuditRecord) : AuditRecord :=
  mkAuditRecord (au_FormatVersion r) (au_RecordId r) (au_LocalSeq r) (au_ProcessRunId r) (au_HostSide r)
    (au_ObservedAtUnixMs r) (au_Kind r) (au_Direction r) (au_Outcome r) (au_Component r) (au_Operation r)
    (au_Message r) (au_RequestId r) (au_ConnectionId r) (au_ClientId r) (au_ClientRunId r) (au_CodexId r)
    (au_ThreadId r) (au_TurnId r) (au_ItemId r) (au_EventSeq r) (au_RawText r) (au_RawSha256 r) x
    (au_RawTruncated r) (au_Frame r) (au_CanonicalActivity r) (au_Provenance r) (au_ParentRecordId r)
    (au_Metadata r) (au_Error r).
Definition set_au_RawTruncated (x : bool) (r : AuditRecord) : AuditRecord :=
  mkAuditRecord (au_FormatVersion r) (au_RecordId r) (au_LocalSeq r) (au_ProcessRunId r) (au_HostSide r)
    (au_ObservedAtUnixMs r) (au_Kind r) (au_Direction r) (au_Outcome r) (au_Component r) (au_Operation r)
    (au_Message r) (au_RequestId r) (au_ConnectionId r) (au_ClientId r) (au_ClientRunId r) (au_CodexId r)
    (au_ThreadId r) (au_TurnId r) (au_ItemId r) (au_EventSeq r) (au_RawText r) (au_RawSha256 r)
    (au_RawSizeBytes r) x (au_Frame r) (au_CanonicalActivity r) (au_Provenance r) (au_ParentRecordId r)
    (au_Metadata r) (au_Error r).
Definition set_au_Frame (x : option (payload B V)) (r : AuditRecord) : AuditRecord :=
  mkAuditRecord (au_FormatVersion r) (au_RecordId r) (au_LocalSeq r) (au_ProcessRunId r) (au_HostSide r)
    (au_ObservedAtUnixMs r) (au_Kind r) (au_Direction r) (au_Outcome r) (au_Component r) (au_Operation r)
    (au_Message r) (au_RequestId r) (au_ConnectionId r) (au_ClientId r) (au_ClientRunId r) (au_CodexId r)
    (au_ThreadId r) (au_TurnId r) (au_ItemId r) (au_EventSeq r) (au_RawText r) (au_RawSha256 r)
    (au_RawSizeBytes r) (au_RawTruncated r) x (au_CanonicalActivity r) (au_Provenance r) (au_ParentRecordId r)
    (au_Metadata r) (au_Error r).
Definition set_au_CanonicalActivity (x : option CanonicalActivity) (r : AuditRecord) : AuditRecord :=
  mkAuditRecord (au_FormatVersion r) (au_RecordId r) (au_LocalSeq r) (au_ProcessRunId r) (au_HostSide r)
    (au_ObservedAtUnixMs r) (au_Kind r) (au_Direction r) (au_Outcome r) (au_Component r) (au_Operation r)
    (au_Message r) (au_RequestId r) (au_ConnectionId r) (au_ClientId r) (au_ClientRunId r) (au_CodexId r)
    (au_ThreadId r) (au_TurnId r) (au_ItemId r) (au_EventSeq r) (au_RawText r) (au_RawSha256 r)
    (au_RawSizeBytes r) (au_RawTruncated r) (au_Frame r) x (au_Provenance r) (au_ParentRecordId r)
    (au_Metadata r) (au_Error r).
Definition set_au_Provenance (x : option Provenance) (r : AuditRecord) : AuditRecord :=
  mkAuditRecord (au_FormatVersion r) (au_RecordId r) (au_LocalSeq r) (au_ProcessRunId r) (au_HostSide r)
    (au_ObservedAtUnixMs r) (au_Kind r) (au_Direction r) (au_Outcome r) (au_Component r) (au_Operation r)
    (au_Message r) (au_RequestId r) (au_ConnectionId r) (au_ClientId r) (au_ClientRunId r) (au_CodexId r)
    (au_ThreadId r) (au_TurnId r) (au_ItemId r) (au_EventSeq r) (au_RawText r) (au_RawSha256 r)
    (au_RawSizeBytes r) (au_RawTruncated r) (au_Frame r) (au_CanonicalActivity r) x (au_ParentRecordId r)
    (au_Metadata r) (au_Error r).
Definition set_au_ParentRecordId (x : string) (r : AuditRecord) : AuditRecord :=
  mkAuditRecord (au_FormatVersion r) (au_RecordId r) (au_LocalSeq r) (au_ProcessRunId r) (au_HostSide r)
    (au_ObservedAtUnixMs r) (au_Kind r) (au_Direction r) (au_Outcome r) (au_Component r) (au_Operation r)
    (au_Message r) (au_RequestId r) (au_ConnectionId r) (au_ClientId r) (au_ClientRunId r) (au_CodexId r)
    (au_ThreadId r) (au_TurnId r) (au_ItemId r) (au_EventSeq r) (au_RawText r) (au_RawSha256 r)
    (au_RawSizeBytes r) (au_RawTruncated r) (au_Frame r) (au_CanonicalActivity r) (au_Provenance r) x
    (au_Metadata r) (au_Error r).
Definition set_au_Metadata (x : gmap string string) (r : AuditRecord) : AuditRecord :=
  mkAuditRecord (au_FormatVersion r) (au_RecordId r) (au_LocalSeq r) (au_ProcessRunId r) (au_HostSide r)
    (au_ObservedAtUnixMs r) (au_Kind r) (au_Direction r) (au_Outcome r) (au_Component r) (au_Operation r)
    (au_Message r) (au_RequestId r) (au_ConnectionId r) (au_ClientId r) (au_ClientRunId r) (au_CodexId r)
    (au_ThreadId r) (au_TurnId r) (au_ItemId r) (au_EventSeq r) (au_RawText r) (au_RawSha256 r)
    (au_RawSizeBytes r) (au_RawTruncated r) (au_Frame r) (au_CanonicalActivity r) (au_Provenance r)
    (au_ParentRecordId r) x (au_Error r).
Definition set_au_Error (x : option Error) (r : AuditRecord) : AuditRecord :=
  mkAuditRecord (au_FormatVersion r) (au_RecordId r) (au_LocalSeq r) (au_ProcessRunId r) (au_HostSide r)
    (au_ObservedAtUnixMs r) (au_Kind r) (au_Direction r) (au_Outcome r) (au_Component r) (au_Operation r)
    (au_Message r) (au_RequestId r) (au_ConnectionId r) (au_ClientId r) (au_ClientRunId r) (au_CodexId r)
    (au_ThreadId r) (au_TurnId r) (au_ItemId r) (au_EventSeq r) (au_RawText r) (au_RawSha256 r)
    (au_RawSizeBytes r) (au_RawTruncated r) (au_Frame r) (au_CanonicalActivity r) (au_Provenance r)
    (au_ParentRecordId r) (au_Metadata r) x.

(** A record with the fields every caller sets. *)
Definition new_record (kind : AuditKind) (direction : AuditDirection) (outcome : AuditOutcome) (component operation : string) : AuditRecord :=
  mkAuditRecord 0 "" 0 "" false 0 kind direction outcome component operation "" "" "" "" "" "" "" "" "" 0 "" "" 0 false
    None None None "" ∅ None.

(** [audit.Recorder]. *)
Record Recorder := mkRecorder {
  rc_cfg : Config;
  rc_seq : Z;  (* uint64 *)
  rc_files : gmap string journal;
  rc_degraded : bool;
  rc_lastErr : string;
  rc_requestWire : gmap string string;
  rc_appByTurn : gmap string string;
  rc_disabled : option goerr;
  rc_accepted : list AuditRecord;  (* the records written so far, in order; read by no operation *)
}.

Definition set_rc_seq (x : Z) (r : Recorder) : Recorder :=
  mkRecorder (rc_cfg r) x (rc_files r) (rc_degraded r) (rc_lastErr r) (rc_requestWire r) (rc_appByTurn r)
    (rc_disabled r) (rc_accepted r).
Definition set_rc_files (x : gmap string journal) (r : Recorder) : Recorder :=
  mkRecorder (rc_cfg r) (rc_seq r) x (rc_degraded r) (rc_lastErr r) (rc_requestWire r) (rc_appByTurn r)
    (rc_disabled r) (rc_accepted r).
Definition set_rc_degraded (x : bool) (r : Recorder) : Recorder :=
  mkRecorder (rc_cfg r) (rc_seq r) (rc_files r) x (rc_lastErr r) (rc_requestWire r) (rc_appByTurn r)
    (rc_disabled r) (rc_accepted r).
Definition set_rc_lastErr (x : string) (r : Recorder) : Recorder :=
  mkRecorder (rc_cfg r) (rc_seq r) (rc_files r) (rc_degraded r) x (rc_requestWire r) (rc_appByTurn r)
    (rc_disabled r) (rc_accepted r).
Definition set_rc_requestWire (x : gmap string string) (r : Recorder) : Recorder :=
  mkRecorder (rc_cfg r) (rc_seq r) (rc_files r) (rc_degraded r) (rc_lastErr r) x (rc_appByTurn r)
    (rc_disabled r) (rc_accepted r).
Definition set_rc_appByTurn (x : gmap string string) (r : Recorder) : Recorder :=
  mkRecorder (rc_cfg r) (rc_seq r) (rc_files r) (rc_degraded r) (rc_lastErr r) (rc_requestWire r) x
    (rc_disabled r) (rc_accepted r).
Definition set_rc_accepted (x : list AuditRecord) (r : Recorder) : Recorder :=
  mkRecorder (rc_cfg r) (rc_seq r) (rc_files r) (rc_degraded r) (rc_lastErr r) (rc_requestWire r)
    (rc_appByTurn r) (rc_disabled r) x.

End Records.
Arguments AuditRecord B V : clear implicits.
Arguments Recorder B V : clear implicits.

(** [protojson.MarshalOptions{...}.Marshal] of a record. *)
Class RecordJSON (B V : Type) := Marshal : AuditRecord B V → res string.

(** ** Helpers *)

(** [newID]; [raw] are the 12 random bytes. *)
Definition newID (prefix raw : string) : string := prefix +:+ "_" +:+ EncodeToString raw.

Definition journalKey (k : AuditKind) : string :=
  match k with
  | AUDIT_KIND_CS_WIRE_FRAME => "cs-wire"
  | AUDIT_KIND_RPC => "rpc"
  | AUDIT_KIND_CANONICAL_ACTIVITY => "activities"
  | AUDIT_KIND_APP_SERVER_WIRE => "app-server-wire"
  | AUDIT_KIND_HOST_ACTION => "host-actions"
  | AUDIT_KIND_RUNTIME_LOG => "runtime"
  | AUDIT_KIND_PROCESS_LIFECYCLE | AUDIT_KIND_CONNECTION_LIFECYCLE => "host"
  end.

Definition appendUnique (values : list string) (value : string) : list string :=
  if existsb (λ existing, bool_decide (existing = value)) values then values else values ++ [value].

Definition secret_key (k : string) : bool :=
  let lower := ToLower k in Contains lower "auth" || Contains lower "secret" || Contains lower "key".

Definition SafeMetadata (m : gmap string string) : gmap string string := filter (λ kv, secret_key kv.1 = false) m.

Definition scalarString (v : any) : string :=
  match v with AStr s => s | ANum f => sprint_number f | _ => "" end.

(** The ids an object holds itself. *)
Definition object_ids (ms : list (string * any)) (ids : string * string) : string * string :=
  let '(thread, turn) := ids in
  let thread := if str_empty thread then scalarString (get_member ms "threadId") else thread in
  let turn := if str_empty turn then scalarString (get_member ms "turnId") else turn in
  let thread := if str_empty thread
                then match get_member ms "thread" with AObj o => scalarString (get_member o "id") | _ => thread end else thread in
  let turn := if str_empty turn
              then match get_member ms "turn" with AObj o => scalarString (get_member o "id") | _ => turn end else turn in
  (thread, turn).

Definition visitor : Type := string * (string * string → string * string).

(** The recursive search; [order] is the order in which Go ranges over the members of the
    object at a position. *)
Fixpoint walk_ids (order : list string → list visitor → list visitor) (pos : list string) (v : any) (ids : string * string) : string * string :=
  match v with
  | AObj ms =>
      let kids := (fix kids (ms : list (string * any)) : list visitor :=
        match ms with
        | [] => []
        | (k, c) :: ms => (k, walk_ids order (pos ++ [k]) c) :: kids ms
        end) ms in
      foldl (λ ids kid, kid.2 ids) (object_ids ms ids) (order pos kids)
  | AArr es =>
      (fix each (i : Z) (es : list any) (ids : string * string) : string * string :=
        match es with
        | [] => ids
        | c :: es => each (i + 1) es (walk_ids order (pos ++ [pretty i]) c ids)
        end) 0 es ids
  | _ => ids
  end.

(** Request, thread and turn id of a message. *)
Definition appServerIDs (order : list string → list visitor → list visitor) (raw : string) : string * string * string :=
  match json_parse raw with
  | None => ("", "", "")
  | Some (_, j) =>
      match to_any j with
      | (_, false) => ("", "", "")
      | (value, true) =>
          let request := match value with
            | AObj top => let r := scalarString (get_member top "requestId") in
                          if str_empty r then scalarString (get_member top "id") else r
            | _ => ""
            end in
          let '(thread, turn) := walk_ids order [] value ("", "") in (request, thread, turn)
      end
  end.

(** Turn and item id of an event. *)
Definition eventIDs (e : Event) : string * string :=
  match ev_Payload e with
  | Some (Event_TurnUpdated t) => (tu_TurnId t, "")
  | Some (Event_ItemStarted i) | Some (Event_ItemUpdated i) | Some (Event_ItemCompleted i) => (item_TurnId i, item_ItemId i)
  | Some (Event_ItemDelta d) => (dl_TurnId d, dl_ItemId d)
  | Some (Event_PendingRequestUpdated (Pending_Approval a)) => (apr_TurnId a, apr_ItemId a)
  | Some (Event_PendingRequestUpdated (Pending_UserInput u)) => (uir_TurnId u, uir_ItemId u)
  | _ => ("", "")
  end.

(** ** The recorder *)

Section Recorder.
Context {B V : Type} {json : RecordJSON B V}.
Notation AuditRecord := (AuditRecord B V).
Notation Recorder := (Recorder B V).
Notation World := (Recorder * FS)%type.
Implicit Types (rec : AuditRecord).

Definition recs {A} (m : M Recorder A) : M World A := zoom fst (λ r w, (r, w.2)) m.
Definition disk {A} (m : M FS A) : M World A := zoom snd (λ s w, (w.1, s)) m.

Definition NewDegraded (processRunID : string) (cause : option goerr) : Recorder :=
  let cause := default (ErrText "audit recorder unavailable") cause in
  mkRecorder (mkConfig "" processRunID 0 0) 0 ∅ true (error_text cause) ∅ ∅ (Some cause) [].

(** [json.MarshalIndent(manifest, "", "  ")] and the line end. *)
Definition newline : string := String (ascii_of_nat 10) "".

Definition manifest_text (runID startedAt : string) : string :=
  let entry (k v : string) := "  " +:+ encode_string k +:+ ": " +:+ v in
  "{" +:+ newline +:+ sep_by ("," +:+ newline)
    [entry "auditFormatVersion" "1"; entry "format" (encode_string "ProtoJSON JSONL");
     entry "integrity" (encode_string "diagnostic; no hash chain"); entry "processRunId" (encode_string runID);
     entry "side" (encode_string "host"); entry "startedAt" (encode_string startedAt)]
  +:+ newline +:+ "}" +:+ newline.

Definition default_limits (raw : string) (cfg : Config) : Config :=
  mkConfig (rcf_Dir cfg)
    (if str_empty (rcf_ProcessRunID cfg) then newID "host_run" raw else rcf_ProcessRunID cfg)
    (if rcf_MaxFileBytes cfg <=? 0 then 16777216 else rcf_MaxFileBytes cfg)
    (if rcf_MaxRawBytes cfg <=? 0 then 1048576 else rcf_MaxRawBytes cfg).

Definition New (mo : moment) (cfg : Config) : M FS Recorder :=
  if str_empty (rcf_Dir cfg) then fail_msg "audit directory is required"
  else
    let cfg := default_limits mo.2 cfg in
    _ ← MkdirAll (rcf_Dir cfg) 448;
    _ ← WriteFile (Join [rcf_Dir cfg; "manifest.json"]) (manifest_text (rcf_ProcessRunID cfg) (RFC3339Nano mo.1)) 384;
    mret (mkRecorder cfg 0 ∅ false "" ∅ ∅ None []).

Definition Degraded (r : Recorder) : bool * string := (rc_degraded r, rc_lastErr r).

Definition markFailed {A} (e : goerr) : M World A :=
  _ ← recs (modify (λ r, set_rc_lastErr (error_text e) (set_rc_degraded true r))); throw e.

Definition put_journal (key : string) (j : journal) : M World unit :=
  recs (modify (λ r, set_rc_files (<[key := j]> (rc_files r)) r)).

Definition closed_file (op path : string) : goerr := ErrText (op +:+ " " +:+ path +:+ ": file already closed").

(** [j.file.Close()]: the file is closed whatever the call reports. *)
Definition close_journal (key : string) (j : journal) : M World unit :=
  match jn_file j with
  | None => throw (closed_file "close" (jn_path j))
  | Some d =>
      _ ← put_journal key (mkJournal None (jn_path j) (jn_size j) (jn_part j));
      disk (HandleClose d)
  end.

Definition i64 (x : Z) : Z := (x + 2 ^ 63) mod 2 ^ 64 - 2 ^ 63.

Definition part_name (now part : Z) : string := date_text now +:+ "-" +:+ pad_zeros 3 part +:+ ".jsonl".

(** The next part of a journal, opened at the end. *)
Definition open_part (now : Z) (key : string) (part : Z) : M World journal :=
  cfg ← recs (gets rc_cfg);
  let dir := Join [rcf_Dir cfg; key] in
  _ ← disk (MkdirAll dir 448);
  let path := Join [dir; part_name now part] in
  d ← disk (OpenAppend path 384);
  info ← attempt (disk (FStat d));
  let j := mkJournal (Some d) path (match info with Ok i => fi_Size i | Err _ => 0 end) part in
  _ ← put_journal key j;
  mret j.

Definition ensureJournal (now : Z) (key : string) (incoming : Z) : M World journal :=
  r ← recs (gets id);
  match rc_files r !! key with
  | Some j =>
      if i64 (jn_size j + incoming) <=? rcf_MaxFileBytes (rc_cfg r) then mret j
      else _ ← close_journal key j; open_part now key (i64 (jn_part j + 1))
  | None => open_part now key 0
  end.

(** What [Record] sets, and the limit on the raw text. *)
Definition stamp (mo : moment) (seq : Z) (cfg : Config) (rec : AuditRecord) : AuditRecord :=
  let rec := set_au_HostSide true (set_au_ProcessRunId (rcf_ProcessRunID cfg) (set_au_LocalSeq seq (set_au_FormatVersion 1 rec))) in
  let rec := if str_empty (au_RecordId rec) then set_au_RecordId (newID "audit" mo.2) rec else rec in
  let rec := if au_ObservedAtUnixMs rec =? 0 then set_au_ObservedAtUnixMs (mo.1 / 1000000) rec else rec in
  let raw := au_RawText rec in
  if str_empty raw then rec
  else
    let rec := set_au_RawSizeBytes (slen raw) (set_au_RawSha256 (EncodeToString (Sum256 raw)) rec) in
    if rcf_MaxRawBytes cfg <? slen raw
    then set_au_RawTruncated true (set_au_RawText (str_take (Z.to_nat (rcf_MaxRawBytes cfg)) raw) rec) else rec.

(** [j.file.Write(b)] and the size it leaves. *)
Definition write_journal (key : string) (j : journal) (b : string) : M World unit :=
  r ← match jn_file j with
      | None => mret (0, Some (closed_file "write" (jn_path j)))
      | Some d => disk (Write d b)
      end;
  _ ← put_journal key (mkJournal (jn_file j) (jn_path j) (i64 (jn_size j + r.1)) (jn_part j));
  match r.2 with
  | Some e => throw e
  | None => if r.1 =? slen b then mret tt else throw (ErrText "short write")
  end.

Definition Record (mo : moment) (rec : option AuditRecord) : M World AuditRecord :=
  r ← recs (gets id);
  match rc_disabled r, rec with
  | Some e, _ => markFailed e
  | None, None => fail_msg "nil audit record"
  | None, Some rec =>
      _ ← recs (modify (λ r, set_rc_seq (u64_incr (rc_seq r)) r));
      let rec := stamp mo (u64_incr (rc_seq r)) (rc_cfg r) rec in
      match Marshal rec with
      | Err e => markFailed e
      | Ok b =>
          let b := b +:+ newline in
          let key := journalKey (au_Kind rec) in
          j ← attempt (ensureJournal mo.1 key (slen b));
          match j with
          | Err e => markFailed e
          | Ok j =>
              w ← attempt (write_journal key j b);
              match w with
              | Err e => markFailed e
              | Ok _ => _ ← recs (modify (λ r, set_rc_accepted (rc_accepted r ++ [rec]) r)); mret rec
              end
          end
      end
  end.

(** ** The recording methods *)

Definition recorded (mo : moment) (rec : AuditRecord) : prog World AuditRecord := atomic (Record mo (Some rec)).

(** The caller is told only whether it failed. *)
Definition forgetting {A} (p : prog World A) : prog World unit := on_result p (λ e, Ret (Err e)) (λ _, Ret (Ok tt)).

Definition tailnet_record (e : AuditEvent) : AuditRecord :=
  let outcome := if bool_decide (ae_Outcome e = "failed") then AUDIT_OUTCOME_FAILED else AUDIT_OUTCOME_SUCCEEDED in
  set_au_Metadata (SafeMetadata (ae_Metadata e)) (set_au_Message (ae_Message e)
    (new_record AUDIT_KIND_HOST_ACTION AUDIT_DIRECTION_INTERNAL outcome "tailnet" (ae_Operation e))).

(** [RecordTailnet], the sink of the tailnet service. *)
#[export] Instance recorder_sink : AuditSink Recorder := λ mo e, _ ← Record mo (Some (tailnet_record e)); mret tt.

Definition wire_direction (inbound : bool) : AuditDirection := if inbound then AUDIT_DIRECTION_INBOUND else AUDIT_DIRECTION_OUTBOUND.

Definition populateFrameIDs (frame : option (payload B V)) (rec : AuditRecord) : AuditRecord :=
  match frame with
  | Some (Frame_Request q) => set_au_RequestId (rq_RequestId q) rec
  | Some (Frame_Response p) => set_au_RequestId (rs_RequestId p) rec
  | Some (Frame_Event e) => set_au_RequestId (ev_CausedByRequestId e) (set_au_EventSeq (ev_EventSeq e) (set_au_CodexId (ev_CodexId e) rec))
  | Some (Frame_ClientHello h) => set_au_ClientRunId (ch_ClientRunId h) (set_au_ClientId (ch_ClientId h) rec)
  | _ => rec
  end.

Definition wire_record (inbound : bool) (connectionID clientID clientRunID raw : string) (frame : option (payload B V))
    (outcome : AuditOutcome) : AuditRecord :=
  populateFrameIDs frame (set_au_Frame frame (set_au_RawText raw (set_au_ClientRunId clientRunID (set_au_ClientId clientID
    (set_au_ConnectionId connectionID (new_record AUDIT_KIND_CS_WIRE_FRAME (wire_direction inbound) outcome "gateway" "cs_wire")))))).

Definition is_request_frame (frame : option (payload B V)) : bool := match frame with Some (Frame_Request _) => true | _ => false end.

Definition note_request (requestID recordID : string) : M World unit :=
  recs (modify (λ r, set_rc_requestWire (<[requestID := recordID]> (rc_requestWire r)) r)).

Definition RecordWire (mo : moment) (inbound : bool) (connectionID clientID clientRunID raw : string) (frame : option (payload B V))
    (outcome : AuditOutcome) : prog World string :=
  on_result (recorded mo (wire_record inbound connectionID clientID clientRunID raw frame outcome)) (λ e, Ret (Err e)) (λ rec,
  if inbound && is_request_frame frame && negb (str_empty (au_RequestId rec)) then
    and_then (atomic (note_request (au_RequestId rec) (au_RecordId rec))) (λ _, Ret (Ok (au_RecordId rec)))
  else Ret (Ok (au_RecordId rec))).

Definition note_turn (turnID recordID : string) : M World unit :=
  recs (modify (λ r, set_rc_appByTurn (<[turnID := recordID]> (rc_appByTurn r)) r)).

Definition RecordAppServerWire (mo : moment) (order : list string → list visitor → list visitor) (inbound : bool)
    (raw requestID threadID turnID : string) : prog World unit :=
  let '(parsedRequest, parsedThread, parsedTurn) := appServerIDs order raw in
  let requestID := if str_empty requestID then parsedRequest else requestID in
  let threadID := if str_empty threadID then parsedThread else threadID in
  let turnID := if str_empty turnID then parsedTurn else turnID in
  on_result (recorded mo (set_au_TurnId turnID (set_au_ThreadId threadID (set_au_RequestId requestID (set_au_RawText raw
      (new_record AUDIT_KIND_APP_SERVER_WIRE (wire_direction inbound) AUDIT_OUTCOME_SUCCEEDED "app_server" "raw_wire"))))))
    (λ e, Ret (Err e)) (λ rec,
  if negb (str_empty turnID) then atomic (note_turn turnID (au_RecordId rec)) else Ret (Ok tt)).

(** The sources of an event: the wire record of its request, the last one of its turn. *)
Definition add_source (id : option string) (sources : list string) : list string :=
  match id with Some id => if str_empty id then sources else appendUnique sources id | None => sources end.

Definition sources_of (e : Event) (sources : list string) (r : Recorder) : list string :=
  add_source (rc_appByTurn r !! (eventIDs e).1) (add_source (rc_requestWire r !! ev_CausedByRequestId e) sources).

Definition canonical_record (activityRaw : string) (e : Event) (p : Provenance) (parent : string) : AuditRecord :=
  let '(turnID, itemID) := eventIDs e in
  let parent := if str_empty parent then match pr_SourceRecordIds p with id :: _ => id | [] => parent end else parent in
  set_au_ParentRecordId parent (set_au_Provenance (Some p) (set_au_CanonicalActivity
    (Some (mkCanonicalActivity (newID "activity" activityRaw) (ev_CodexId e) turnID itemID (ev_OccurredAtUnixMs e) e p))
    (set_au_ItemId itemID (set_au_TurnId turnID (set_au_RequestId (ev_CausedByRequestId e) (set_au_EventSeq (ev_EventSeq e) (set_au_CodexId (ev_CodexId e)
      (new_record AUDIT_KIND_CANONICAL_ACTIVITY AUDIT_DIRECTION_INTERNAL AUDIT_OUTCOME_SUCCEEDED "activity" "canonical_event")))))))).

Definition RecordCanonical (mo : moment) (activityRaw : string) (event : option Event) (provenance : option Provenance)
    (parentRecordID : string) : prog World unit :=
  match event with
  | None => Ret (Err (ErrText "nil canonical event"))
  | Some e =>
      let p := default (mkProvenance PROVENANCE_KIND_UNSPECIFIED 0 []) provenance in
      on_result (atomic (recs (gets (sources_of e (pr_SourceRecordIds p))))) (λ e, Ret (Err e)) (λ sources,
      forgetting (recorded mo (canonical_record activityRaw e (mkProvenance (pr_Kind p) (pr_ObservedAtUnixMs p) sources) parentRecordID)))
  end.

Definition RecordRuntime (mo : moment) (operation raw : string) (failed : bool) : prog World unit :=
  let out := if failed then AUDIT_OUTCOME_FAILED else AUDIT_OUTCOME_SUCCEEDED in
  forgetting (recorded mo (set_au_RawText raw (new_record AUDIT_KIND_RUNTIME_LOG AUDIT_DIRECTION_INTERNAL out "runtime" operation))).

(** ** The auditor of the gateway *)

(** The records the gateway builds in [auditRPC] and [auditAction]. *)
Definition gateway_record (g : Server.AuditRecord) : AuditRecord :=
  let kind := if ar_Connection g then AUDIT_KIND_CONNECTION_LIFECYCLE else AUDIT_KIND_RPC in
  set_au_Error (ar_Error g) (set_au_ParentRecordId (ar_ParentRecordId g) (set_au_ClientRunId (ar_ClientRunId g) (set_au_ClientId (ar_ClientId g)
    (set_au_ConnectionId (ar_ConnectionId g) (set_au_RequestId (ar_RequestId g) (set_au_Message (ar_Message g)
      (new_record kind AUDIT_DIRECTION_INTERNAL (ar_Outcome g) "gateway" (ar_Operation g)))))))).

(** The methods of [gateway.WireAuditor]. *)
Definition gateway_call (mo : moment) (c : audit_call B V) : prog World string :=
  match c with
  | Server.RecordWire inbound connectionID clientID clientRunID raw frame outcome =>
      RecordWire mo inbound connectionID clientID clientRunID raw frame outcome
  | Record_ g => on_result (recorded mo (gateway_record g)) (λ e, Ret (Err e)) (λ _, Ret (Ok ""))
  end.

(** The recorder in the place of the connection's auditor: the answer to a call after the
    calls before it. *)
Fixpoint after_calls (moments : nat → moment) (n : nat) (history : list (audit_call B V)) (w : World) : World :=
  match history with
  | [] => w
  | c :: history => after_calls moments (S n) history (run (gateway_call (moments n) c) w).1
  end.

Definition recorder_auditor (moments : nat → moment) (w : World) (history : list (audit_call B V)) (c : audit_call B V) : string * option goerr :=
  match (run (gateway_call (moments (length history)) c) (after_calls moments 0 history w)).2 with
  | Ok id => (id, None)
  | Err e => ("", Some e)
  end.

(** ** Close *)

(** The journals are closed in the order Go ranges over them; every one is tried. *)
Fixpoint close_all (keys : list string) : M World (list goerr) :=
  match keys with
  | [] => mret []
  | key :: keys =>
      files ← recs (gets rc_files);
      e ← match files !! key with
          | Some j => r ← attempt (close_journal key j); mret match r with Ok _ => [] | Err e => [e] end
          | None => mret []
          end;
      rest ← close_all keys;
      mret (e ++ rest)
  end.

Definition Close (range_order : list string → list string) : M World unit :=
  files ← recs (gets rc_files);
  errs ← close_all (range_order (map_to_list files).*1);
  _ ← recs (modify (set_rc_files ∅));
  of_res (join_errors errs).

(** ** Export *)

(** The tar writer over the gzip writer: the header of an entry, its content and the two
    closings, each of which may fail; what has reached the file so far, and the writers
    after the file refused some of it. *)
Class ArchiveWriter (T : Type) := {
  aw_new : T;
  aw_header : string → inode → T → T * option goerr;
  aw_copy : string → T → T * option goerr;
  tw_close : T → T * option goerr;
  gz_close : T → T * option goerr;
  aw_bytes : T → string;
  aw_refused : goerr → T → T;
}.

Context {T : Type} {archive : ArchiveWriter T}.

(** The files and the writers. *)
Notation Exporting := (FS * T)%type.

Definition on_files {A} (m : M FS A) : M Exporting A := zoom fst (λ s w, (s, w.2)) m.
Definition on_writers {A} (m : M T A) : M Exporting A := zoom snd (λ t w, (w.1, t)) m.

(** The new bytes go to the file. *)
Definition flush (d : list string) (old : T) : M Exporting unit :=
  new ← on_writers (gets aw_bytes);
  let b := str_drop (String.length (aw_bytes old)) new in
  if str_empty b then mret tt
  else
    r ← on_files (Write d b);
    match r.2 with
    | Some e => _ ← on_writers (modify (aw_refused e)); throw e
    | None => mret tt
    end.

(** One call of a writer, with the bytes it lets through. *)
Definition through (d : list string) (step : T → T * option goerr) : M Exporting unit :=
  old ← on_writers (gets id);
  let '(new, err) := step old in
  _ ← on_writers (modify (λ _, new));
  r ← attempt (flush d old);
  match err with Some e => throw e | None => of_res r end.

(** [ctx.Err()]. *)
Definition ctxErr : M FS unit := sys (mret tt).

(** The callback on a file. *)
Definition export_file (dir : string) (d : list string) (path : string) : M Exporting unit :=
  rel ← of_res (Rel dir path);
  info ← on_files (Lstat path);
  _ ← through d (aw_header rel info);
  content ← on_files (ReadFile path);
  copyErr ← attempt (through d (aw_copy content));
  closeErr ← attempt (on_files (sys (mret tt)));
  _ ← of_res copyErr;
  of_res closeErr.

(** [filepath.WalkDir] below [path]; [fuel] bounds the depth of the tree. *)
Fixpoint export_walk (fuel : nat) (dir : string) (d : list string) (path : string) (isDir : bool) : M Exporting unit :=
  _ ← on_files ctxErr;
  if negb isDir then export_file dir d path
  else match fuel with
  | O => fail_msg "file name too long"
  | S fuel =>
      names ← on_files (ReadDir path);
      mfor names (λ name,
        let child := Join [path; name] in
        i ← on_files (gets (λ s, lstat_tree (fs_tree s) child));
        export_walk fuel dir d child (match i with Ok i => fi_IsDir i | Err _ => false end))
  end.

(** [if err == nil { err = m } else { _ = m }]. *)
Definition then_close (err : res unit) (m : M Exporting unit) : M Exporting (res unit) :=
  r ← attempt m; mret match err with Ok _ => r | Err e => Err e end.

(** What is written to the opened file; the writers are closed also after an error. *)
Definition export_to (dir : string) (d : list string) : M Exporting unit :=
  fuel ← on_files (gets (λ s, S (size (fs_tree s))));
  err ← attempt (root ← on_files (Lstat dir); export_walk fuel dir d dir (fi_IsDir root));
  err ← then_close err (through d tw_close);
  err ← then_close err (through d gz_close);
  _ ← of_res err;
  on_files (HandleClose d).

(** With new writers, which are dropped at the end. *)
Definition run_export (dir : string) (d : list string) : M FS unit := λ s,
  let '(w, r) := export_to dir d (s, aw_new) in (w.1, r).

Fixpoint sync_all (keys : list string) : M World unit :=
  match keys with
  | [] => mret tt
  | key :: keys =>
      files ← recs (gets rc_files);
      _ ← match files !! key with
          | Some (mkJournal (Some _) _ _ _) => attempt (disk (sys (mret tt)))
          | _ => mret (Ok tt)
          end;
      sync_all keys
  end.

Definition Export (range_order : list string → list string) (dst : string) : M World unit :=
  r ← recs (gets id);
  match rc_disabled r with
  | Some e => throw e
  | None =>
      _ ← sync_all (range_order (map_to_list (rc_files r)).*1);
      _ ← disk (OpenExclusive dst 384);
      d ← disk (gets (λ s, locate (fs_tree s) dst));
      written ← attempt (disk (d ← of_res d; run_export (rcf_Dir (rc_cfg r)) d));
      match written with
      | Ok _ => mret tt
      | Err e => _ ← attempt (disk (Remove dst)); throw e
      end
  end.

End Recorder.
