(* ===== verification/AuditLogTheorems.v ===== *)
(** * The audit recorder: proofs

    Evidence that was accepted is in the journals and stays there, whatever is recorded,
    closed, exported or goes wrong afterwards; the sources a canonical activity names are
    records accepted before it. *)

From Stdlib Require Import Ascii String.
From stdpp Require Import base tactics numbers list sorting gmap strings pretty relations.
From S2P Require Import Prelude GoError GoStrings Sha256 GoPath FileSystem FileCalls GoTime FileWrites Interleave Tailnet Float64 Json Remote Activity Dispatcher Server AuditLog.
Local Open Scope string_scope.
Local Open Scope Z_scope.
Local Open Scope list_scope.

(** ** Paths do not change when a file is made *)

Lemma walk_new_entry n t d i dest todo r : t !! d = None → walk n t dest todo = Ok r → walk n (<[d := i]> t) dest todo = Ok r.
Proof.
  intros Hd. revert dest todo. induction n as [n IHn] using lt_wf_ind. intros dest todo. revert dest.
  induction todo as [|c rest IH]; intros dest; [by rewrite !walk_nil|]. rewrite !walk_cons. unfold walk_comp.
  destruct (bool_decide (c = "") || bool_decide (c = ".")); [by apply IH|]. case_bool_decide; [by apply IH|].
  destruct (t !! (dest ++ [c])) as [j|] eqn:Ej; [|done]. rewrite lookup_insert_ne by congruence. rewrite Ej.
  destruct (in_node j); [done|by apply IH| |done]. destruct n as [|n]; [done|]. apply IHn; lia.
Qed.

Lemma is_dir_new_entry t d i p : t !! d = None → is_dir_at t p = true → is_dir_at (<[d := i]> t) p = true.
Proof.
  intros Hd. destruct p as [|c p]; [done|]. cbn. destruct (t !! (c :: p)) as [j|] eqn:E; [|done]. rewrite lookup_insert_ne by congruence. by rewrite E.
Qed.

Lemma locate_new_entry t d i p x : t !! d = None → locate t p = Ok x → locate (<[d := i]> t) p = Ok x.
Proof.
  intros Hd. unfold locate. destruct (rev (pcomps p)) as [|c before]; [done|].
  destruct (walk max_links t [] (rev before)) as [y|e] eqn:E; [|done]. rewrite (walk_new_entry _ _ _ _ _ _ _ Hd E).
  destruct (is_dir_at t y) eqn:Ey; [|done]. by rewrite (is_dir_new_entry _ _ _ _ Hd Ey).
Qed.

(** ** Computations that change one file

    [edits_in tr d m], where [tr] is the tree in the state: in a tree that is [t] with an
    entry at [d], [m] changes that entry only. *)
Definition edits_in {S A} (tr : S → tree) (d : list string) (m : M S A) : Prop :=
  ∀ s s' r (t : tree) i, tr s = <[d := i]> t → m s = (s', r) → ∃ i', tr s' = <[d := i']> t.

Notation edits := (edits_in fs_tree).

Lemma edits_bind {S A C} (tr : S → tree) d (m : M S A) (k : A → M S C) :
  edits_in tr d m → (∀ a, edits_in tr d (k a)) → edits_in tr d (m ≫= k).
Proof.
  intros Hm Hk s s' r t i Ht. unfold mbind, M_bind. destruct (m s) as [s1 [a|e]] eqn:E; destruct (Hm _ _ _ _ _ Ht E) as [i1 H1]; intros H.
  - by eapply Hk.
  - simplify_eq. by exists i1.
Qed.

Lemma edits_attempt {S A} (tr : S → tree) d (m : M S A) : edits_in tr d m → edits_in tr d (attempt m).
Proof. intros Hm s s' r t i Ht. unfold attempt. destruct (m s) as [s1 x] eqn:E. intros [= <- _]. by eapply Hm. Qed.

Lemma edits_pure {S A} (tr : S → tree) d (m : M S A) : (∀ s, tr (m s).1 = tr s) → edits_in tr d m.
Proof. intros Hm s s' r t i Ht H. specialize (Hm s). rewrite H in Hm. cbn in Hm. exists i. congruence. Qed.

Lemma edits_mfor {S A} (tr : S → tree) d (l : list A) (body : A → M S unit) :
  (∀ x, edits_in tr d (body x)) → edits_in tr d (mfor l body).
Proof. intros Hb. induction l as [|x l IH]; [by apply edits_pure|]. apply edits_bind; [apply Hb|by intros _]. Qed.

Lemma edits_sys {A} d (op : M FS A) : (∀ s, (op s).1 = s) → edits d (sys op).
Proof.
  intros Hop s s' r t i Ht. unfold sys. destruct (fs_faults s) as [|[[e n]|] faults]; intros H; exists i.
  - specialize (Hop (tick s)). rewrite H in Hop. cbn in Hop. by subst.
  - simplify_eq. done.
  - specialize (Hop (tick (set_fs_faults faults s))). rewrite H in Hop. cbn in Hop. by subst.
Qed.

Lemma edits_Write d b : edits d (Write d b).
Proof.
  intros s s' r t i Ht. unfold Write.
  assert (∀ b e s1, fs_tree s1 = <[d := i]> t →
    match append_to d b s1 with Some s2 => (s2, Ok (slen b, e)) | None => (s1, Ok (0, Some (ErrText "bad file descriptor"))) end = (s', r) →
    ∃ i', fs_tree s' = <[d := i']> t) as H.
  { intros b' e s1 E. unfold append_to. destruct (fs_tree s1 !! d) as [j|]; [destruct (in_node j)|]; intros [= <- _]; rewrite ?E; eauto.
    cbn. rewrite E, insert_insert_eq. eauto. }
  destruct (fs_faults s) as [|[[e n]|] faults]; by apply H.
Qed.

Section Evidence.
Context {B V : Type} {json : RecordJSON B V}.
Notation AuditRecord := (AuditRecord B V).
Notation Recorder := (Recorder B V).
Notation World := (Recorder * FS)%type.
Implicit Types (w : World) (rec : AuditRecord).

(** ** Computations that record nothing

    The files keep their content, and of the recorder only the open journals and the
    failure marks change. *)
Definition same_log (r r' : Recorder) : Prop :=
  rc_cfg r' = rc_cfg r ∧ rc_seq r' = rc_seq r ∧ rc_requestWire r' = rc_requestWire r ∧ rc_appByTurn r' = rc_appByTurn r ∧
  rc_disabled r' = rc_disabled r ∧ rc_accepted r' = rc_accepted r.

Definition quiet (w w' : World) : Prop := same_files (fs_tree w.2) (fs_tree w'.2) ∧ same_log w.1 w'.1.

#[local] Instance quiet_preorder : PreOrder quiet.
Proof.
  split; [by split|]. intros w1 w2 w3 [Hf1 (?&?&?&?&?&?)] [Hf2 (?&?&?&?&?&?)]. split; [by etrans|]. repeat split; congruence.
Qed.

Definition stays {A} (m : M World A) : Prop := ∀ w w' r, m w = (w', r) → quiet w w'.

Lemma stays_ret {A} (a : A) : stays (mret a).
Proof. intros w w' r [= <- _]. done. Qed.

Lemma stays_throw {A} e : stays (throw (A := A) e).
Proof. intros w w' r [= <- _]. done. Qed.

Lemma stays_of_res {A} (x : res A) : stays (of_res x).
Proof. intros w w' r [= <- _]. done. Qed.

Lemma stays_bind {A C} (m : M World A) (k : A → M World C) : stays m → (∀ a, stays (k a)) → stays (m ≫= k).
Proof.
  intros Hm Hk w w' r. unfold mbind, M_bind. destruct (m w) as [w1 [a|e]] eqn:E; intros H.
  - etrans; [by eapply Hm|by eapply Hk].
  - simplify_eq. by eapply Hm.
Qed.

Lemma stays_attempt {A} (m : M World A) : stays m → stays (attempt m).
Proof. intros Hm w w' r. unfold attempt. destruct (m w) as [w1 x] eqn:E. intros [= <- _]. by eapply Hm. Qed.

Lemma stays_gets {A} (f : Recorder → A) : stays (recs (gets f)).
Proof. intros [r s] w' x [= <- _]. done. Qed.

Lemma stays_disk {A} (m : M FS A) : (∀ s s' r, m s = (s', r) → same_files (fs_tree s) (fs_tree s')) → stays (disk m).
Proof.
  intros Hm [rc s] w' r. unfold disk, zoom. cbn [fst snd]. destruct (m s) as [s' x] eqn:E. intros [= <- _]. split; [by eapply Hm|by repeat split].
Qed.

Lemma stays_put_journal key j : stays (put_journal key j).
Proof. intros [rc s] w' r [= <- _]. by repeat split. Qed.

Lemma stays_markFailed {A} e : stays (markFailed (A := A) e).
Proof. intros [rc s] w' r [= <- _]. by repeat split. Qed.

Lemma sys_noop_same {A} (a : A) s s' r : sys (mret a) s = (s', r) → same_files (fs_tree s) (fs_tree s').
Proof. by intros ->%sys_noop_files. Qed.

Lemma FStat_same d s s' r : FStat d s = (s', r) → same_files (fs_tree s) (fs_tree s').
Proof. apply (sys_files _ same_files); [done|]. by intros ??? [= <- _]. Qed.

Lemma close_journal_stays key j : stays (close_journal key j).
Proof.
  unfold close_journal. destruct (jn_file j); [|apply stays_throw]. apply stays_bind; [apply stays_put_journal|]. intros _.
  apply stays_disk. apply sys_noop_same.
Qed.

Lemma open_part_stays now key part : stays (open_part now key part).
Proof.
  apply stays_bind; [apply stays_gets|]. intros cfg. apply stays_bind; [apply stays_disk, MkdirAll_files|]. intros _.
  apply stays_bind; [apply stays_disk; intros s s' r H; apply open_append_files in H as [H _]; exact H|]. intros d.
  apply stays_bind; [apply stays_attempt, stays_disk, FStat_same|]. intros info.
  apply stays_bind; [apply stays_put_journal|]. intros _. apply stays_ret.
Qed.

Lemma ensureJournal_stays now key incoming : stays (ensureJournal now key incoming).
Proof.
  apply stays_bind; [apply stays_gets|]. intros r. destruct (rc_files r !! key) as [j|]; [|apply open_part_stays].
  destruct (_ <=? _); [apply stays_ret|]. apply stays_bind; [apply close_journal_stays|]. intros _. apply open_part_stays.
Qed.

(** ** One record *)

(** The line of a record is somewhere in the journals. *)
Definition on_record (t : tree) rec : Prop :=
  ∃ b d before after, Marshal rec = Ok b ∧ file_at t d = Some (before +:+ (b +:+ newline) +:+ after).

Lemma on_record_grows t t' rec : grows t t' → on_record t rec → on_record t' rec.
Proof.
  intros Hg (b&d&pre&post&Hb&Hf). destruct (Hg _ _ Hf) as [more Hm]. exists b, d, pre, (post +:+ more). split; [done|].
  rewrite Hm. f_equal. by rewrite !string_append_assoc.
Qed.

(** A write that succeeds puts the whole text at the end of a file. *)
Lemma write_journal_spec key j b w w' r : write_journal key j b w = (w', r) →
  same_log w.1 w'.1 ∧ grows (fs_tree w.2) (fs_tree w'.2) ∧
  (r = Ok tt → ∃ d c, file_at (fs_tree w.2) d = Some c ∧ file_at (fs_tree w'.2) d = Some (c +:+ b)).
Proof.
  destruct w as [rc s]. unfold write_journal, mbind, M_bind. destruct (jn_file j) as [d|]; cbn.
  - unfold disk, zoom. cbn. destruct (Write d b s) as [s' x] eqn:E. pose proof (Write_grows _ _ _ _ _ E) as Hg.
    apply Write_files in E as (n&e&->&Hc&_). cbn. destruct e as [e|]; [intros [= <- <-]; cbn; by repeat split|].
    destruct Hc as [(_&->&c&H1&H2)|[(?&?&?&?&_)|(?&?&_)]]; [|done..]. rewrite Z.eqb_refl. intros [= <- <-]. cbn.
    split; [by repeat split|]. split; [done|]. intros _. by exists d, c.
  - intros [= <- <-]. cbn. by repeat split.
Qed.

(** The relation every section guarantees, and the numbering. *)
Definition extends (w w' : World) : Prop :=
  grows (fs_tree w.2) (fs_tree w'.2) ∧ rc_accepted w.1 `prefix_of` rc_accepted w'.1.

#[local] Instance extends_preorder : PreOrder extends.
Proof. split; [by split|]. intros w1 w2 w3 [? ?] [? ?]. split; by etrans. Qed.

Lemma quiet_extends w w' : quiet w w' → extends w w'.
Proof. intros [H (_&_&_&_&_&E)]. split; [by apply same_files_grows|by rewrite E]. Qed.

(** What [Record] does: it takes a number, and either the completed record is accepted and
    its line is on disk, or nothing is accepted.  A disabled recorder does nothing. *)
Definition unnumbered (r r' : Recorder) : Prop :=
  rc_cfg r' = rc_cfg r ∧ rc_requestWire r' = rc_requestWire r ∧ rc_appByTurn r' = rc_appByTurn r ∧ rc_disabled r' = rc_disabled r.

Lemma Record_spec mo rec w w' x : Record mo (Some rec) w = (w', x) →
  unnumbered w.1 w'.1 ∧ grows (fs_tree w.2) (fs_tree w'.2) ∧
  match x with
  | Ok rec' => rec' = stamp mo (u64_incr (rc_seq w.1)) (rc_cfg w.1) rec ∧ rc_seq w'.1 = u64_incr (rc_seq w.1) ∧
      rc_accepted w'.1 = rc_accepted w.1 ++ [rec'] ∧ on_record (fs_tree w'.2) rec'
  | Err _ => rc_accepted w'.1 = rc_accepted w.1 ∧ (rc_seq w'.1 = rc_seq w.1 ∨ rc_seq w'.1 = u64_incr (rc_seq w.1))
  end.
Proof.
  destruct w as [rc s]. unfold Record. unfold mbind at 1, M_bind at 1. cbn [recs zoom gets fst snd id].
  destruct (rc_disabled rc) as [e|] eqn:Ed.
  { intros H. pose proof (stays_markFailed e _ _ _ H) as [Hf (H1&H2&H3&H4&H5&H6)]. injection H as <- <-.
    split; [by repeat split|]. split; [by apply same_files_grows|]. cbn in *. split; [exact H6|]. left. exact H2. }
  unfold mbind at 1, M_bind at 1. cbn [recs zoom modify fst snd]. set (rc1 := set_rc_seq _ _).
  set (rec' := stamp mo (u64_incr (rc_seq rc)) (rc_cfg rc) rec). clearbody rec'.
  assert (∀ (A : Type) (e : goerr) (w : World), same_log rc1 w.1 → grows (fs_tree s) (fs_tree w.2) → markFailed (A := A) e w = (w', Err e) →
    unnumbered rc w'.1 ∧ grows (fs_tree s) (fs_tree w'.2) ∧ rc_accepted w'.1 = rc_accepted rc ∧ (rc_seq w'.1 = rc_seq rc ∨ rc_seq w'.1 = u64_incr (rc_seq rc))) as Hfail.
  { intros A e [rc2 s2] (H1&H2&H3&H4&H5&H6) Hg [= <-]. unfold rc1 in *. cbn in *. split; [by repeat split|]. split; [done|]. split; [exact H6|right; exact H2]. }
  destruct (Marshal rec') as [b|e] eqn:Em.
  2: { intros H. assert (x = Err e) as -> by by injection H. eapply Hfail; [| |exact H]; [by repeat split|done]. }
  unfold mbind at 1, M_bind at 1. unfold attempt at 1. destruct (ensureJournal _ _ _ (rc1, s)) as [[rc2 s2] [j|e]] eqn:Ej.
  all: apply ensureJournal_stays in Ej as [Hf2 Hl2]; apply same_files_grows in Hf2; cbn [fst snd] in Hf2, Hl2.
  2: { intros H. assert (x = Err e) as -> by by injection H. eapply Hfail; [| |exact H]; [exact Hl2|exact Hf2]. }
  unfold mbind at 1, M_bind at 1. unfold attempt at 1. destruct (write_journal _ _ _ (rc2, s2)) as [[rc3 s3] [[]|e]] eqn:Ew.
  all: apply write_journal_spec in Ew as (Hl3&Hf3&Hw); cbn [fst snd] in Hl3, Hf3, Hw.
  all: assert (same_log rc1 rc3) as Hl by (destruct Hl2 as (?&?&?&?&?&?), Hl3 as (?&?&?&?&?&?); repeat split; congruence).
  2: { intros H. assert (x = Err e) as -> by by injection H. eapply Hfail; [| |exact H]; [exact Hl|cbn; by etrans]. }
  intros [= <- <-]. cbn [fst snd]. destruct Hl as (H1&H2&H3&H4&H5&H6). unfold rc1 in *. cbn in H1, H2, H3, H4, H5, H6. destruct (Hw eq_refl) as (d&c&_&Hd).
  split; [by repeat split|]. split; [by etrans|]. split; [done|]. split; [exact H2|]. split; [cbn; by rewrite H6|].
  exists b, d, c, "". split; [done|]. rewrite Hd. by rewrite string_append_nil_r.
Qed.

(** ** Closing and exporting *)

Lemma close_all_stays keys : stays (close_all keys).
Proof.
  induction keys as [|key keys IH]; [apply stays_ret|]. apply stays_bind; [apply stays_gets|]. intros files.
  apply stays_bind; [|by intros e; apply stays_bind; [|intros rest; apply stays_ret]].
  destruct (files !! key); [|apply stays_ret]. apply stays_bind; [apply stays_attempt, close_journal_stays|]. intros r. apply stays_ret.
Qed.

Lemma Close_stays order : stays (Close order).
Proof.
  apply stays_bind; [apply stays_gets|]. intros files. apply stays_bind; [apply close_all_stays|]. intros errs.
  apply stays_bind; [intros [rc s] w' r [= <- _]; by repeat split|]. intros _. apply stays_of_res.
Qed.

Context {T : Type} {archive : ArchiveWriter T}.

(** The same with the writers beside the files. *)
Notation exports := (edits_in (λ w : FS * T, fs_tree w.1)).

Lemma exports_files {A} d (m : M FS A) : edits d m → exports d (on_files m).
Proof. intros Hm [s t0] w' r t i Ht. unfold on_files, zoom. cbn. destruct (m s) as [s1 x] eqn:E. intros [= <- _]. by eapply Hm. Qed.

Lemma exports_through d step : exports d (through d step).
Proof.
  apply edits_bind; [by apply edits_pure|]. intros old. destruct (step old) as [new err].
  apply edits_bind; [by apply edits_pure|]. intros _. apply edits_bind; [|intros x; destruct err; by apply edits_pure].
  apply edits_attempt, edits_bind; [by apply edits_pure|]. intros b. cbv zeta. destruct (str_empty _); [by apply edits_pure|].
  apply edits_bind; [apply exports_files, edits_Write|]. intros [n [e|]]; cbn [snd]; [|by apply edits_pure].
  apply edits_bind; [|intros _]; by apply edits_pure.
Qed.

(** One step of such a computation. *)
Ltac export_step :=
  first [apply exports_through | apply edits_attempt; export_step | by (apply exports_files; apply edits_sys) | by apply edits_pure
        | by (apply exports_files; apply edits_pure)].

Lemma exports_file dir d path : exports d (export_file dir d path).
Proof. repeat (apply edits_bind; [export_step|intros ?]). export_step. Qed.

Lemma exports_walk fuel dir d path isDir : exports d (export_walk fuel dir d path isDir).
Proof.
  revert path isDir. induction fuel as [|fuel IH]; intros path isDir; cbn -[mbind]; (apply edits_bind; [export_step|]); intros _.
  - destruct isDir; cbn; [by apply edits_pure|apply exports_file].
  - destruct isDir; cbn -[mbind mfor]; [|apply exports_file]. apply edits_bind; [export_step|]. intros names. apply edits_mfor. intros name.
    apply edits_bind; [export_step|]. intros i. apply IH.
Qed.

Lemma exports_then_close d err m : exports d m → exports d (then_close err m).
Proof. intros Hm. apply edits_bind; [by apply edits_attempt|]. intros r. by apply edits_pure. Qed.

Lemma edits_run_export dir d : edits d (run_export dir d).
Proof.
  assert (exports d (export_to dir d)) as H.
  { apply edits_bind; [export_step|]. intros fuel. apply edits_bind.
    { apply edits_attempt, edits_bind; [export_step|]. intros root. apply exports_walk. }
    intros err. do 2 (apply edits_bind; [apply exports_then_close, exports_through|]; intros ?).
    apply edits_bind; [export_step|]. intros _. export_step. }
  intros s s' r t i Ht. unfold run_export. destruct (export_to dir d (s, aw_new)) as [w x] eqn:E. intros [= <- _].
  exact (H (s, aw_new) w x t i Ht E).
Qed.

Lemma sync_all_stays keys : stays (sync_all keys).
Proof.
  induction keys as [|key keys IH]; [apply stays_ret|]. apply stays_bind; [apply stays_gets|]. intros files.
  apply stays_bind; [|by intros _]. destruct (files !! key) as [[[f|] p n k]|]; [|apply stays_ret..].
  apply stays_attempt, stays_disk, sys_noop_same.
Qed.

(** A file made at a free place and written there. *)
Lemma OpenExclusive_inv p perm s s' r : OpenExclusive p perm s = (s', r) →
  fs_tree s' = fs_tree s ∧ (∃ e, r = Err e) ∨
  ∃ d i, r = Ok tt ∧ locate (fs_tree s) p = Ok d ∧ fs_tree s !! d = None ∧ fs_tree s' = <[d := i]> (fs_tree s).
Proof.
  assert (∀ s1 s' r, fs_tree s1 = fs_tree s →
    match locate (fs_tree s1) p with
    | Err e => (s1, Err e)
    | Ok d => match fs_tree s1 !! d with
              | Some _ => (s1, Err (ErrText "file exists"))
              | None => (put_inode d (new_inode (NFile "") perm s1) s1, Ok tt)
              end
    end = (s', r) → fs_tree s' = fs_tree s ∧ (∃ e, r = Err e) ∨
      ∃ d i, r = Ok tt ∧ locate (fs_tree s) p = Ok d ∧ fs_tree s !! d = None ∧ fs_tree s' = <[d := i]> (fs_tree s)) as H.
  { intros s1 s2 r1 E. rewrite E. destruct (locate _ _) as [d|e] eqn:El; [|intros [= <- <-]; left; eauto].
    destruct (fs_tree s !! d) eqn:Ed; intros [= <- <-]; [left; eauto|]. right. do 2 eexists. split; [done|]. split; [done|]. split; [done|]. cbn. by rewrite E. }
  unfold OpenExclusive, sys. destruct (fs_faults s) as [|[[e n]|] faults]; [by apply H|intros [= <- <-]; left; eauto|by apply H].
Qed.

(** [Remove] of a path that names [d] leaves the other entries. *)
Lemma Remove_at p s s' r (t : tree) d i : fs_tree s = <[d := i]> t → t !! d = None → locate (fs_tree s) p = Ok d → Remove p s = (s', r) → same_files t (fs_tree s').
Proof.
  intros Et Hd Hl.
  assert (same_files t (fs_tree s)) as Hs by (rewrite Et; by apply same_files_new).
  assert (∀ s1 s' r, fs_tree s1 = fs_tree s →
    match locate (fs_tree s1) p with
    | Err e => (s1, Err e)
    | Ok d =>
        match fs_tree s1 !! d with
        | None => (s1, Err ENOENT)
        | Some i => if has_children (fs_tree s1) d then (s1, Err (ErrText "directory not empty"))
                    else (set_fs_tree (delete d (fs_tree s1)) s1, Ok tt)
        end
    end = (s', r) → same_files t (fs_tree s')) as H.
  { intros s1 s2 r1 E. rewrite E, Hl. destruct (fs_tree s !! d); [|intros [= <- _]; by rewrite E].
    destruct (has_children _ _); intros [= <- _]; [by rewrite E|]. cbn. rewrite Et, delete_insert_id by done. done. }
  unfold Remove, sys. destruct (fs_faults s) as [|[[e n]|] faults]; [by apply H|intros [= <- _]; done|by apply H].
Qed.

Lemma export_files dst dir s s' r :
  (_ ← OpenExclusive dst 384; d ← gets (λ s, locate (fs_tree s) dst); written ← attempt (d ← of_res d; run_export dir d);
   match written with Ok _ => mret tt | Err e => _ ← attempt (Remove dst); throw e end) s = (s', r) →
  same_files (fs_tree s) (fs_tree s').
Proof.
  unfold mbind at 1, M_bind at 1. destruct (OpenExclusive dst 384 s) as [s1 x] eqn:Eo.
  apply OpenExclusive_inv in Eo as [[E [e ->]]|(d&i&->&Hl&Hd&E)]; [intros [= <- _]; by rewrite E|].
  pose proof (locate_new_entry _ _ i _ _ Hd Hl) as Hl1. rewrite <- E in Hl1.
  unfold mbind at 1, M_bind at 1. unfold gets. rewrite Hl1. unfold mbind at 1, M_bind at 1. unfold attempt at 1.
  unfold mbind at 1, M_bind at 1. unfold of_res. destruct (run_export dir d s1) as [s2 [[]|e]] eqn:Ee.
  all: destruct (edits_run_export dir d _ _ _ _ _ E Ee) as [i2 E2].
  - intros [= <- _]. rewrite E2. by apply same_files_new.
  - unfold mbind, M_bind, attempt. destruct (Remove dst s2) as [s3 y] eqn:Er. intros [= <- _]. eapply Remove_at; [exact E2|done| |exact Er].
    rewrite E2. by apply locate_new_entry.
Qed.

Lemma Export_stays order dst : stays (Export (T := T) order dst).
Proof.
  apply stays_bind; [apply stays_gets|]. intros r. destruct (rc_disabled r) as [e|]; [apply stays_throw|].
  apply stays_bind; [apply sync_all_stays|]. intros _. intros [rc s] w' x H.
  assert (stays (disk (_ ← OpenExclusive dst 384; d ← gets (λ s, locate (fs_tree s) dst); written ← attempt (d ← of_res d; run_export (rcf_Dir (rc_cfg r)) d);
   match written with Ok _ => mret tt | Err e => _ ← attempt (Remove dst); throw e end))) as Hd by (apply stays_disk; apply export_files).
  apply (Hd _ _ x). rewrite <- H. unfold disk, zoom, mbind, M_bind, gets, attempt, of_res. cbn [fst snd].
  destruct (OpenExclusive dst 384 s) as [s1 [[]|e]]; [|done]. cbn [fst snd].
  destruct (locate (fs_tree s1) dst) as [d|e]; [destruct (run_export _ d s1) as [s2 [[]|e]]|]; cbn [fst snd]; [done| |].
  - by destruct (Remove dst s2).
  - by destruct (Remove dst s1).
Qed.

(** ** The invariant *)

(** The wire record of a request, and one of a turn. *)
Definition request_source (l : list AuditRecord) (q id : string) : Prop :=
  ∃ rec, rec ∈ l ∧ au_RecordId rec = id ∧ au_Kind rec = AUDIT_KIND_CS_WIRE_FRAME ∧ au_Direction rec = AUDIT_DIRECTION_INBOUND ∧ au_RequestId rec = q.

Definition turn_source (l : list AuditRecord) (turn id : string) : Prop :=
  ∃ rec, rec ∈ l ∧ au_RecordId rec = id ∧ au_Kind rec = AUDIT_KIND_APP_SERVER_WIRE ∧ au_TurnId rec = turn.

Lemma request_source_grows l l' q id : l `prefix_of` l' → request_source l q id → request_source l' q id.
Proof. intros [k ->] (rec&H&?). exists rec. split; [by apply elem_of_app; left|done]. Qed.

Lemma turn_source_grows l l' q id : l `prefix_of` l' → turn_source l q id → turn_source l' q id.
Proof. intros [k ->] (rec&H&?). exists rec. split; [by apply elem_of_app; left|done]. Qed.

(** A canonical activity names only evidence that was accepted before it ([l]) and belongs
    to its request or its turn; its parent is the first of them. *)
Definition sourced (l : list AuditRecord) rec : Prop :=
  au_Kind rec = AUDIT_KIND_CANONICAL_ACTIVITY → ∃ a, au_CanonicalActivity rec = Some a ∧ au_Provenance rec = Some (ca_Provenance a) ∧
    (∀ id, id ∈ pr_SourceRecordIds (ca_Provenance a) →
       request_source l (ev_CausedByRequestId (ca_Event a)) id ∨ turn_source l (eventIDs (ca_Event a)).1 id) ∧
    au_ParentRecordId rec = default "" (head (pr_SourceRecordIds (ca_Provenance a))).

Lemma sourced_grows l l' rec : l `prefix_of` l' → sourced l rec → sourced l' rec.
Proof.
  intros Hl Hs Hk. destruct (Hs Hk) as (a&H1&H2&H3&H4). exists a. split; [done|]. split; [done|]. split; [|done]. intros id Hid.
  destruct (H3 id Hid); [left; by eapply request_source_grows|right; by eapply turn_source_grows].
Qed.

Definition all_sourced (l : list AuditRecord) : Prop := ∀ l1 rec l2, l = l1 ++ rec :: l2 → sourced l1 rec.

Lemma all_sourced_snoc l rec : all_sourced l → sourced l rec → all_sourced (l ++ [rec]).
Proof.
  intros Hl Hr l1 x l2 E. destruct l2 as [|y l2 _] using rev_ind.
  - by apply app_inj_tail in E as [-> ->].
  - rewrite app_comm_cons, app_assoc in E. apply app_inj_tail in E as [-> _]. by eapply Hl.
Qed.

(** The records carry the numbers of increasing attempts, of which there were [n]. *)
Definition numbered (seq : Z) (l : list AuditRecord) : Prop :=
  ∃ n ks, 0 ≤ n ∧ seq = u64 n ∧ StronglySorted Z.lt ks ∧ Forall (λ k, 0 < k ≤ n) ks ∧ au_LocalSeq <$> l = u64 <$> ks.

Lemma numbered_skip seq l : numbered seq l → numbered (u64_incr seq) l.
Proof.
  intros (n&ks&Hn&->&Hs&Hk&E). exists (n + 1), ks. split; [lia|]. split; [unfold u64_incr, u64; by rewrite Zplus_mod_idemp_l|].
  split; [done|]. split; [|done]. eapply Forall_impl; [exact Hk|]. cbn. lia.
Qed.

Lemma numbered_snoc seq l rec : numbered seq l → au_LocalSeq rec = u64_incr seq → numbered (u64_incr seq) (l ++ [rec]).
Proof.
  intros (n&ks&Hn&->&Hs&Hk&E) Hr. exists (n + 1), (ks ++ [n + 1]).
  assert (u64_incr (u64 n) = u64 (n + 1)) as Hu by (unfold u64_incr, u64; by rewrite Zplus_mod_idemp_l).
  split; [lia|]. split; [done|]. split.
  - clear -Hs Hk. induction Hs as [|k ks Hs IH Hf]; [repeat constructor|]. apply Forall_cons in Hk as [Hk Hks]. cbn. constructor; [by apply IH|].
    apply Forall_app. split; [done|]. constructor; [lia|constructor].
  - split; [apply Forall_app; split; [eapply Forall_impl; [exact Hk|cbn; lia]|constructor; [lia|constructor]]|].
    rewrite !fmap_app, E. f_equal. change ([au_LocalSeq rec] = [u64 (n + 1)]). by rewrite Hr, Hu.
Qed.

Definition evidence (w : World) : Prop :=
  Forall (on_record (fs_tree w.2)) (rc_accepted w.1) ∧ numbered (rc_seq w.1) (rc_accepted w.1) ∧
  (∀ q id, rc_requestWire w.1 !! q = Some id → request_source (rc_accepted w.1) q id) ∧
  (∀ turn id, rc_appByTurn w.1 !! turn = Some id → turn_source (rc_accepted w.1) turn id) ∧
  all_sourced (rc_accepted w.1).

Lemma quiet_evidence w w' : quiet w w' → evidence w → evidence w'.
Proof.
  intros [Hf (_&H2&H3&H4&_&H6)] (E1&E2&E3&E4&E5). unfold evidence. rewrite H2, H3, H4, H6. split; [|done].
  eapply Forall_impl; [exact E1|]. intros rec. apply on_record_grows. by apply same_files_grows.
Qed.

(** What a completed record keeps of the given one. *)
Definition same_subject (rec rec' : AuditRecord) : Prop :=
  au_Kind rec' = au_Kind rec ∧ au_Direction rec' = au_Direction rec ∧ au_RequestId rec' = au_RequestId rec ∧ au_TurnId rec' = au_TurnId rec ∧
  au_CanonicalActivity rec' = au_CanonicalActivity rec ∧ au_Provenance rec' = au_Provenance rec ∧ au_ParentRecordId rec' = au_ParentRecordId rec ∧
  au_Metadata rec' = au_Metadata rec.

Lemma stamp_keeps mo seq cfg rec : same_subject rec (stamp mo seq cfg rec) ∧ au_LocalSeq (stamp mo seq cfg rec) = seq.
Proof.
  unfold stamp. cbv zeta. set (r1 := set_au_HostSide _ _).
  set (r2 := if str_empty (au_RecordId r1) then _ else r1). set (r3 := if au_ObservedAtUnixMs r2 =? 0 then _ else r2).
  assert (same_subject rec r1 ∧ au_LocalSeq r1 = seq) as H1 by by repeat split. clearbody r1.
  assert (same_subject rec r2 ∧ au_LocalSeq r2 = seq) as H2 by (unfold r2; destruct (str_empty _); exact H1). clearbody r2.
  assert (same_subject rec r3 ∧ au_LocalSeq r3 = seq) as H3 by (unfold r3; destruct (_ =? _); exact H2). clearbody r3.
  destruct (str_empty _); [exact H3|]. destruct (_ <? _); exact H3.
Qed.

(** The raw text is the beginning of the given one, of at most the limit; its size and hash
    are those of the whole. *)
Lemma stamp_raw mo seq cfg rec : 0 ≤ rcf_MaxRawBytes cfg → au_RawText rec ≠ "" → let rec' := stamp mo seq cfg rec in
  slen (au_RawText rec') ≤ rcf_MaxRawBytes cfg ∧ (∃ k, au_RawText rec' = str_take k (au_RawText rec)) ∧
  au_RawSizeBytes rec' = slen (au_RawText rec) ∧ au_RawSha256 rec' = EncodeToString (Sum256 (au_RawText rec)) ∧
  (au_RawTruncated rec' = false → au_RawText rec' = au_RawText rec).
Proof.
  intros Hmax Hne. unfold stamp. cbv zeta. set (r1 := set_au_HostSide _ _).
  set (r2 := if str_empty (au_RecordId r1) then _ else r1). set (r3 := if au_ObservedAtUnixMs r2 =? 0 then _ else r2).
  assert (au_RawText r3 = au_RawText rec) as Hr3 by (unfold r3; destruct (_ =? _); unfold r2; destruct (str_empty _); reflexivity).
  clearbody r3. clear r1 r2. rewrite Hr3.
  assert (str_empty (au_RawText rec) = false) as -> by (unfold str_empty; by apply bool_decide_eq_false_2).
  generalize (EncodeToString (Sum256 (au_RawText rec))). intros h.
  destruct (Z.ltb_spec (rcf_MaxRawBytes cfg) (slen (au_RawText rec))); cbn.
  - split; [pose proof (slen_take (Z.to_nat (rcf_MaxRawBytes cfg)) (au_RawText rec)); lia|]. split; [eauto|]. by repeat split.
  - rewrite Hr3. split; [done|].
    split; [exists (String.length (au_RawText rec)); by rewrite str_take_ge|]. by repeat split.
Qed.

Lemma Record_evidence mo rec w w' x : evidence w → sourced (rc_accepted w.1) rec → Record mo (Some rec) w = (w', x) →
  extends w w' ∧ evidence w' ∧
  ∀ rec', x = Ok rec' → rec' ∈ rc_accepted w'.1 ∧ au_Kind rec' = au_Kind rec ∧ au_Direction rec' = au_Direction rec ∧
    au_RequestId rec' = au_RequestId rec ∧ au_TurnId rec' = au_TurnId rec.
Proof.
  intros (E1&E2&E3&E4&E5) Hs ((_&Hq&Ht&_)&Hg&Hx)%Record_spec. destruct x as [rec'|e].
  - destruct Hx as (->&Hseq&Hacc&Hon). pose proof (stamp_keeps mo (u64_incr (rc_seq w.1)) (rc_cfg w.1) rec) as [(K1&K2&K3&K4&K5&K6&K7&_) K8].
    set (rec' := stamp _ _ _ _) in *. clearbody rec'. unfold extends, evidence. rewrite Hseq, Hacc, Hq, Ht.
    split; [split; [done|by eexists]|]. split.
    + split; [apply Forall_app; split; [eapply Forall_impl; [exact E1|]; intros y; by apply on_record_grows|by constructor]|].
      split; [by apply numbered_snoc|]. split; [intros q id H; eapply request_source_grows; [by eexists|by apply E3]|].
      split; [intros t id H; eapply turn_source_grows; [by eexists|by apply E4]|]. apply all_sourced_snoc; [done|].
      unfold sourced. rewrite K1, K5, K6, K7. exact Hs.
    + intros y [= <-]. split; [apply elem_of_app; right; by apply list_elem_of_singleton|done].
  - destruct Hx as [Hacc Hseq]. split; [split; [done|by rewrite Hacc]|]. split; [|done]. unfold evidence. rewrite Hacc, Hq, Ht.
    split; [eapply Forall_impl; [exact E1|]; intros y; by apply on_record_grows|].
    split; [destruct Hseq as [-> | ->]; [done|by apply numbered_skip]|done].
Qed.

(** ** Every method keeps the invariant *)

Notation keeps := (keeps extends evidence).

(** [Record], followed by what is right when it succeeded. *)
Lemma keeps_recorded {A} w0 mo rec (k : AuditRecord → prog World A) :
  sourced (rc_accepted w0.1) rec →
  (∀ w rec', rec' ∈ rc_accepted w.1 → au_Kind rec' = au_Kind rec → au_Direction rec' = au_Direction rec → au_RequestId rec' = au_RequestId rec →
     au_TurnId rec' = au_TurnId rec → keeps w (k rec')) →
  keeps w0 (on_result (recorded mo rec) (λ e, Ret (Err e)) k).
Proof.
  intros Hs Hk. apply keeps_section. intros w w' r [_ Hw] HI H. destruct (Record_evidence mo rec w w' r) as (H1&H2&H3); [done|by eapply sourced_grows|done|].
  split; [done|]. split; [done|]. destruct r as [rec'|e]; [|constructor]. destruct (H3 rec' eq_refl) as (?&?&?&?&?). by apply Hk.
Qed.

Lemma unsourced l rec : au_Kind rec ≠ AUDIT_KIND_CANONICAL_ACTIVITY → sourced l rec.
Proof. by intros H ?. Qed.

Lemma keeps_forgetting w0 mo rec : sourced (rc_accepted w0.1) rec → keeps w0 (forgetting (recorded mo rec)).
Proof. intros H. apply keeps_recorded; [done|]. intros. constructor. Qed.

Lemma keeps_quiet w0 (m : M World unit) : stays m → keeps w0 (atomic m).
Proof.
  intros Hm. apply keeps_atomic_section. intros w w' r _ HI H. apply Hm in H. split; [by apply quiet_extends|by eapply quiet_evidence].
Qed.

(** Remembering a record that was accepted. *)
Lemma keeps_note_request w0 q id {A} (k : res unit → prog World A) : request_source (rc_accepted w0.1) q id →
  (∀ w r, keeps w (k r)) → keeps w0 (and_then (atomic (note_request q id)) k).
Proof.
  intros Hs Hk. apply keeps_section. intros [rc s] w' r [_ Hw] (E1&E2&E3&E4&E5) [= <- <-]. cbn in *. split; [by split|]. split; [|apply Hk].
  split; [done|]. split; [done|]. split; [|done]. intros q' id' Hq. cbn in *. apply lookup_insert_Some in Hq as [[<- <-]|[_ Hq]]; [by eapply request_source_grows|by apply E3].
Qed.

Lemma keeps_note_turn w0 turn id : turn_source (rc_accepted w0.1) turn id → keeps w0 (atomic (note_turn turn id)).
Proof.
  intros Hs. apply keeps_atomic_section. intros [rc s] w' r [_ Hw] (E1&E2&E3&E4&E5) [= <- <-]. cbn in *. split; [by split|].
  split; [done|]. split; [done|]. split; [done|]. split; [|done]. intros t' id' Hq. cbn in *.
  apply lookup_insert_Some in Hq as [[<- <-]|[_ Hq]]; [by eapply turn_source_grows|by apply E4].
Qed.

(** The sources read from the correlations of a state are sources in it. *)
Lemma add_source_elem id l x : x ∈ add_source id l → x ∈ l ∨ id = Some x.
Proof.
  unfold add_source, appendUnique. destruct id as [i|]; [|by left]. destruct (str_empty i); [by left|]. destruct (existsb _ _); [by left|].
  intros [H|H%list_elem_of_singleton]%elem_of_app; [by left|right; by subst].
Qed.

Lemma canonical_sourced w raw e kind at_ : evidence w →
  sourced (rc_accepted w.1) (canonical_record raw e (mkProvenance kind at_ (sources_of e [] w.1)) "").
Proof.
  intros (_&_&E3&E4&_) _. unfold canonical_record. destruct (eventIDs e) as [turn item] eqn:Ee. eexists. split; [reflexivity|]. split; [reflexivity|]. cbn [ca_Provenance ca_Event pr_SourceRecordIds].
  split.
  - intros id Hid. unfold sources_of in Hid. apply add_source_elem in Hid as [Hid|Hid]; [apply add_source_elem in Hid as [Hid|Hid]; [by apply not_elem_of_nil in Hid|left; by apply E3]|].
    right. by apply E4.
  - cbn. by destruct (sources_of e [] w.1).
Qed.

Lemma RecordWire_keeps w0 mo inbound c1 c2 c3 raw frame outcome : keeps w0 (RecordWire mo inbound c1 c2 c3 raw frame outcome).
Proof.
  assert (∀ r, au_Kind (populateFrameIDs frame r) = au_Kind r ∧ au_Direction (populateFrameIDs frame r) = au_Direction r) as Hp
    by (intros r; destruct frame as [[]|]; split; reflexivity).
  apply keeps_recorded; [apply unsourced; unfold wire_record; by rewrite (proj1 (Hp _))|].
  intros w rec' Hin Hk Hd Hq _. destruct (inbound && _ && _) eqn:Eb; [|constructor]. apply andb_prop in Eb as [[-> _]%andb_prop _].
  apply keeps_note_request; [|intros; constructor]. exists rec'. unfold wire_record in Hk, Hd. rewrite (proj1 (Hp _)) in Hk. rewrite (proj2 (Hp _)) in Hd. done.
Qed.

Lemma RecordAppServerWire_keeps w0 mo order inbound raw q th turn : keeps w0 (RecordAppServerWire mo order inbound raw q th turn).
Proof.
  unfold RecordAppServerWire. destruct (appServerIDs order raw) as [[pq pth] pt]. cbv zeta. apply keeps_recorded; [by apply unsourced|].
  intros w rec' Hin Hk _ _ Ht. destruct (negb _); [|constructor]. apply keeps_note_turn. by exists rec'.
Qed.

Lemma RecordCanonical_keeps w0 mo raw e kind at_ : keeps w0 (RecordCanonical mo raw e (Some (mkProvenance kind at_ [])) "").
Proof.
  destruct e as [e|]; [|constructor]. apply keeps_section. intros [rc s] w' r Hw HI [= <- <-]. split; [done|]. split; [exact HI|].
  apply keeps_forgetting. by apply (canonical_sourced (rc, s)).
Qed.

(** ** The calls of the Host

    The canonical activities come from the event store, which gives the kind and the time
    of their provenance and no sources or parent of its own. *)
Inductive audit_request :=
| AskWire (mo : moment) (inbound : bool) (connectionID clientID clientRunID raw : string) (frame : option (payload B V)) (outcome : AuditOutcome)
| AskAppServer (mo : moment) (order : list string → list visitor → list visitor) (inbound : bool) (raw requestID threadID turnID : string)
| AskCanonical (mo : moment) (activityRaw : string) (event : option Event) (kind : ProvenanceKind) (observedAt : Z)
| AskRuntime (mo : moment) (operation raw : string) (failed : bool)
| AskTailnet (mo : moment) (e : AuditEvent)
| AskGateway (mo : moment) (g : Server.AuditRecord)
| AskHost (mo : moment) (kind : AuditKind) (outcome : AuditOutcome) (operation message : string)
| AskExport (order : list string → list string) (dst : string)
| AskClose (order : list string → list string).

(** [hostAction] and the two lifecycle records of the host binary. *)
Definition hostAction (kind : AuditKind) (operation : string) (outcome : AuditOutcome) (message : string) : AuditRecord :=
  set_au_Message message (new_record kind AUDIT_DIRECTION_INTERNAL outcome "host" operation).

Definition host_kind (kind : AuditKind) : bool := bool_decide (kind ∈ [AUDIT_KIND_HOST_ACTION; AUDIT_KIND_PROCESS_LIFECYCLE]).

Definition asked (q : audit_request) : prog World unit :=
  match q with
  | AskWire mo inbound c1 c2 c3 raw frame outcome => and_then (RecordWire mo inbound c1 c2 c3 raw frame outcome) (λ _, Ret (Ok tt))
  | AskAppServer mo order inbound raw r th tu => RecordAppServerWire mo order inbound raw r th tu
  | AskCanonical mo activityRaw e kind at_ => RecordCanonical mo activityRaw e (Some (mkProvenance kind at_ [])) ""
  | AskRuntime mo operation raw failed => RecordRuntime mo operation raw failed
  | AskTailnet mo e => forgetting (recorded mo (tailnet_record e))
  | AskGateway mo g => and_then (gateway_call mo (Record_ g)) (λ _, Ret (Ok tt))
  | AskHost mo kind outcome operation message => forgetting (recorded mo (hostAction kind operation outcome message))
  | AskExport order dst => atomic (Export (T := T) order dst)
  | AskClose order => atomic (Close order)
  end.

Definition host_request (q : audit_request) : Prop :=
  match q with AskHost _ kind _ _ _ => host_kind kind = true | _ => True end.

Lemma asked_keeps w0 q : host_request q → keeps w0 (asked q).
Proof.
  destruct q as [| | | | |mo g|mo kind outcome operation message| |]; cbn [asked host_request]; intros Hq.
  - apply keeps_and_then; [apply RecordWire_keeps|constructor].
  - apply RecordAppServerWire_keeps.
  - apply RecordCanonical_keeps.
  - apply keeps_forgetting. by apply unsourced.
  - apply keeps_forgetting. by apply unsourced.
  - apply keeps_and_then; [|constructor]. apply keeps_recorded; [|intros; constructor]. apply unsourced. unfold gateway_record. cbv zeta. destruct (ar_Connection g); done.
  - apply keeps_forgetting, unsourced. intros E. cbn in E. subst kind. discriminate.
  - apply keeps_quiet, Export_stays.
  - apply keeps_quiet, Close_stays.
Qed.

Definition reaches (w w' : World * list (prog World unit)) : Prop :=
  rtc (pool_step (λ p, ∃ q, host_request q ∧ p = asked q) (λ _ _, False)) w w'.

Lemma New_evidence mo cfg s s' rc : New mo cfg s = (s', Ok rc) → evidence (rc, s') ∧ rc_accepted rc = [].
Proof.
  unfold New. destruct (str_empty _); [done|]. intros H. apply M_bind_inv_ok in H as (s1&[]&_&H). apply M_bind_inv_ok in H as (s2&[]&_&[= <- <-]).
  split; [|done]. split; [constructor|]. split; [exists 0, []; repeat split; [done|constructor|constructor]|].
  split; [intros q id H; cbn in H; by rewrite lookup_empty in H|]. split; [intros q id H; cbn in H; by rewrite lookup_empty in H|].
  intros l1 rec l2 E. by destruct l1.
Qed.

Lemma run_evidence w ps w' ps' : evidence w → Forall (keeps w) ps → reaches (w, ps) (w', ps') →
  extends w w' ∧ evidence w' ∧ Forall (keeps w') ps'.
Proof.
  intros HI Hp. apply pool_invariant; [apply _| |done|done|done]. intros w1 p (q&Hq&->). by apply asked_keeps.
Qed.

(** C16: Accepted evidence is kept.  After a recorder is made, whatever the Host asks of it from
    any number of goroutines, interleaved in any way and with any failures of the file
    system: every accepted record's line is in a file; the accepted records carry the
    numbers of increasing attempts; and from any moment [w1] to any later one [w2] the
    files only grow at their ends and the accepted records stay accepted. *)
Theorem evidence_kept mo cfg s s0 rc w1 ps1 w2 ps2
    (Hnew : New mo cfg s = (s0, Ok rc)) (H1 : reaches ((rc, s0), []) (w1, ps1)) (H2 : reaches (w1, ps1) (w2, ps2)) :
  Forall (on_record (fs_tree w2.2)) (rc_accepted w2.1) ∧ numbered (rc_seq w2.1) (rc_accepted w2.1) ∧
  grows (fs_tree w1.2) (fs_tree w2.2) ∧ rc_accepted w1.1 `prefix_of` rc_accepted w2.1.
Proof.
  apply New_evidence in Hnew as [HI _]. destruct (run_evidence _ _ _ _ HI (Forall_nil_2 _) H1) as (_&HI1&Hp1).
  destruct (run_evidence _ _ _ _ HI1 Hp1 H2) as ([Hg Hp]&(E1&E2&_)&_). done.
Qed.

(** C17: Evidence is linked to evidence.  In the same runs, a canonical activity that was
    accepted names as its sources only records that were accepted before it, the inbound
    wire frame of the request that caused the event or a wire message of the event's turn,
    and its parent is the first of them. *)
Theorem evidence_linked mo cfg s s0 rc w ps before rec after
    (Hnew : New mo cfg s = (s0, Ok rc)) (Hrun : reaches ((rc, s0), []) (w, ps))
    (Hacc : rc_accepted w.1 = before ++ rec :: after) (Hkind : au_Kind rec = AUDIT_KIND_CANONICAL_ACTIVITY) :
  ∃ a, au_CanonicalActivity rec = Some a ∧ au_Provenance rec = Some (ca_Provenance a) ∧
    au_ParentRecordId rec = default "" (head (pr_SourceRecordIds (ca_Provenance a))) ∧
    ∀ id, id ∈ pr_SourceRecordIds (ca_Provenance a) →
      request_source before (ev_CausedByRequestId (ca_Event a)) id ∨ turn_source before (eventIDs (ca_Event a)).1 id.
Proof.
  apply New_evidence in Hnew as [HI _]. destruct (run_evidence _ _ _ _ HI (Forall_nil_2 _) Hrun) as (_&(_&_&_&_&Hs)&_).
  destruct (Hs _ _ _ Hacc Hkind) as (a&?&?&?&?). by exists a.
Qed.

End Evidence.
