(* ===== verification/AuditLogExamples.v ===== *)
(** * The audit recorder: runs

    Concrete recorders: a run with linked evidence, and what happens when the file system
    fails at an unfortunate moment. *)

From Stdlib Require Import Ascii String.
From stdpp Require Import base tactics numbers list sorting gmap strings pretty relations.
From S2P Require Import Prelude GoError GoStrings Sha256 GoPath FileSystem FileCalls GoTime FileWrites Interleave Tailnet Float64 Json Remote Activity Dispatcher Server AuditLog AuditLogTheorems.
Local Open Scope string_scope.
Local Open Scope Z_scope.
Local Open Scope list_scope.

Module AuditDemo.

(** A marshaller that, as protojson does, refuses text that is not UTF-8. *)
#[export] Instance demo_json : RecordJSON unit unit := λ rec,
  if ValidString (au_RawText rec) then Ok (pretty (au_LocalSeq rec) +:+ " " +:+ au_RecordId rec +:+ " " +:+ au_Operation rec)
  else Err (ErrText "string field contains invalid UTF-8").

#[export] Instance demo_archive : ArchiveWriter string := {|
  aw_new := "";
  aw_header name _ t := (t +:+ name +:+ ":", None);
  aw_copy content t := (t +:+ content, None);
  tw_close t := (t, None);
  gz_close t := (t, None);
  aw_bytes t := t;
  aw_refused _ t := t;
|}.

Definition cfg : Config := mkConfig "/audit" "run1" 0 0.
Definition fs0 : FS := mkFS ∅ [] [] 0.
Definition mo (raw : string) : moment := (1000000000, raw).

Definition no_recorder : Recorder unit unit := NewDegraded "" None.
Definition opened (cfg : Config) (s : FS) : Recorder unit unit * FS :=
  match New (mo "") cfg s with (s', Ok rc) => (rc, s') | (s', Err _) => (no_recorder, s') end.
Definition start : Recorder unit unit * FS := opened cfg fs0.

Lemma start_new : New (mo "") cfg fs0 = (start.2, Ok start.1).
Proof. vm_compute. reflexivity. Qed.

(** A request arrives, the app-server reports its turn, and an event is published. *)
Definition request : Request unit := mkRequest "req1" 0 0 None.
Definition event : Event := mkEvent "codex1" 1 0 "req1" None (Some (Event_TurnUpdated (mkTurnUpdated "turn1" TURN_STATUS_RUNNING 0 0 None))).

Definition asks : list (audit_request (B := unit) (V := unit)) :=
  [AskWire (mo "a") true "c" "cl" "r" "raw" (Some (Frame_Request request)) AUDIT_OUTCOME_SUCCEEDED;
   AskAppServer (mo "b") (λ _ l, l) true "{}" "" "" "turn1";
   AskCanonical (mo "c") "d" (Some event) PROVENANCE_KIND_LIVE_WIRE 0;
   AskExport (λ l, l) "/out.tgz";
   AskClose (λ l, l)].

Definition threads := asked <$> asks.

(** The state after the sections of the threads, in the order of the thread numbers. *)
Fixpoint schedule (order : list nat) (wps : (Recorder unit unit * FS) * list (prog (Recorder unit unit * FS) unit)) :=
  match order with
  | [] => wps
  | i :: order =>
      schedule order
        match wps.2 !! i with
        | Some (Atomic act next) => (act wps.1, <[i := next wps.1]> wps.2)
        | _ => wps
        end
  end.

Lemma schedule_reaches order wps : reaches (T := string) wps (schedule order wps).
Proof.
  revert wps. induction order as [|i order IH]; intros [w ps]; [constructor|]. cbn [schedule fst snd].
  destruct (ps !! i) as [[r|act next]|] eqn:E; [apply IH| |apply IH]. eapply rtc_l; [by apply (step_section _ _ _ _ i)|]. apply IH.
Qed.

Lemma then_reaches a b c : reaches (B := unit) (V := unit) (T := string) a b → reaches (T := string) b c → reaches (T := string) a c.
Proof. unfold reaches. intros. by etrans. Qed.

Lemma spawn_all w qs ps : Forall host_request qs → reaches (T := string) (w, ps) (w, ps ++ (asked <$> qs)).
Proof.
  intros Hq. revert ps. induction Hq as [|q qs Hq _ IH]; intros ps; [rewrite app_nil_r; constructor|].
  assert (ps ++ (asked <$> q :: qs) = (ps ++ [asked q]) ++ (asked <$> qs)) as -> by (by rewrite <- app_assoc).
  eapply rtc_l; [apply (step_spawn _ _ _ _ (asked q)); by exists q|]. apply IH.
Qed.

(** The two wire records interleave; the event follows, then the export and the close. *)
Definition middle := schedule [0; 1; 0; 1]%nat (start, threads).
Definition final := schedule [2; 2; 3; 4]%nat middle.

Lemma spawned : reaches (T := string) (start, []) (start, threads).
Proof. apply (spawn_all start asks []). by repeat constructor. Qed.

Lemma middle_reached : reaches (T := string) (start, []) (middle.1, middle.2).
Proof. rewrite <- surjective_pairing. eapply then_reaches; [exact spawned|]. unfold middle. apply schedule_reaches. Qed.

Lemma final_reached : reaches (T := string) (middle.1, middle.2) (final.1, final.2).
Proof. rewrite <- !surjective_pairing. unfold final. apply schedule_reaches. Qed.

Definition ids (w : Recorder unit unit * FS) : list (Z * string) := (λ rec, (au_LocalSeq rec, au_RecordId rec)) <$> rc_accepted w.1.

Lemma evidence_kept_witness :
  Forall (on_record (fs_tree final.1.2)) (rc_accepted final.1.1) ∧ ids final.1 = [(1, "audit_61"); (2, "audit_62"); (3, "audit_63")] ∧
  grows (fs_tree middle.1.2) (fs_tree final.1.2).
Proof.
  destruct (evidence_kept (T := string) (mo "") cfg fs0 start.2 start.1 middle.1 middle.2 final.1 final.2) as (H1&_&H3&_).
  - exact start_new.
  - rewrite <- surjective_pairing. exact middle_reached.
  - exact final_reached.
  - split; [exact H1|]. split; [vm_compute; reflexivity|exact H3].
Defined.

Lemma accepted_split : ∃ r1 r2 r3, rc_accepted final.1.1 = [r1; r2] ++ r3 :: [] ∧ au_Kind r3 = AUDIT_KIND_CANONICAL_ACTIVITY ∧
  au_Provenance r3 = Some (mkProvenance PROVENANCE_KIND_LIVE_WIRE 0 ["audit_61"; "audit_62"]).
Proof. do 3 eexists. split; [vm_compute; reflexivity|]. split; reflexivity. Qed.

Lemma evidence_linked_witness : ∃ l : list (AuditRecord unit unit), request_source l "req1" "audit_61" ∨ turn_source l "turn1" "audit_61".
Proof.
  destruct accepted_split as (r1&r2&r3&E&K&P).
  destruct (evidence_linked (T := string) (mo "") cfg fs0 start.2 start.1 final.1 final.2 [r1; r2] r3 []) as (a&Ha&Hp&_&Hs).
  - exact start_new.
  - rewrite <- surjective_pairing. eapply then_reaches; [exact middle_reached|exact final_reached].
  - exact E.
  - exact K.
  - exists [r1; r2]. rewrite P in Hp. apply (inj Some) in Hp.
    assert (ca_Event a = event) as He.
    { assert (Some r3 = last (rc_accepted final.1.1)) as H by (rewrite E; reflexivity). vm_compute in H. apply (inj Some) in H. subst r3.
      cbn in Ha. apply (inj Some) in Ha. by subst a. }
    rewrite He in Hs. apply Hs. rewrite <- Hp. left.
Defined.

(** ** Failures

    [record_all] records host actions one after the other. *)
Fixpoint record_all (recs : list (AuditRecord unit unit)) (w : Recorder unit unit * FS) : (Recorder unit unit * FS) * list bool :=
  match recs with
  | [] => (w, [])
  | rec :: recs =>
      let '(w, r) := Record (mo "x") (Some rec) w in
      let '(w, rs) := record_all recs w in (w, is_ok r :: rs)
  end.

Definition action (op : string) : AuditRecord unit unit := hostAction AUDIT_KIND_HOST_ACTION op AUDIT_OUTCOME_STARTED "".
Definition with_faults (l : list (option (goerr * nat))) (w : Recorder unit unit * FS) : Recorder unit unit * FS := (w.1, set_fs_faults l w.2).
Definition io : option (goerr * nat) := Some (ErrText "input/output error", 3%nat).
Definition part (n : string) : list string := ["audit"; "host-actions"; "1970-01-01-" +:+ n +:+ ".jsonl"].

(** When closing the full part fails once, the journal is never written again: the closed
    part stays in place, and every later record fails on it. *)
Definition small : Recorder unit unit * FS := opened (mkConfig "/audit" "run1" 20 0) fs0.

Lemma failed_close_stops_journal :
  let w := (record_all [action "one"] small).1 in
  (record_all [action "two"; action "three"; action "four"] (with_faults [io] w)).2 = [false; false; false].
Proof. vm_compute. reflexivity. Qed.

(** A write that fails half-way leaves its fragment, and the next record is glued to it. *)
Lemma fragment_joins_next_record :
  let w := (record_all [action "one"] start).1 in
  let w := (record_all [action "two"; action "three"] (with_faults [io] w)).1 in
  file_at (fs_tree w.2) (part "000") = Some ("1 audit_78 one" +:+ newline +:+ "2 a3 audit_78 three" +:+ newline).
Proof. vm_compute. reflexivity. Qed.

(** A raw text that is cut inside a character is not recorded at all. *)
Definition narrow : Recorder unit unit * FS := opened (mkConfig "/audit" "run1" 0 2) fs0.
Definition raw_line (raw : string) : AuditRecord unit unit :=
  set_au_RawText raw (new_record AUDIT_KIND_RUNTIME_LOG AUDIT_DIRECTION_INTERNAL AUDIT_OUTCOME_SUCCEEDED "runtime" "stderr").

Lemma cut_character_loses_record :
  let e_acute := of_chars [chr 195; chr 169] in
  (record_all [raw_line ("a" +:+ e_acute); raw_line "abc"] narrow).2 = [false; true].
Proof. vm_compute. reflexivity. Qed.

(** After a restart the first part of the day is opened again whatever its size: here it
    grows beyond the limit of 20 bytes by more than one record. *)
Lemma restart_exceeds_limit :
  let w := (record_all [action "one"] small).1 in
  let again := opened (mkConfig "/audit" "run2" 20 0) w.2 in
  file_at (fs_tree (record_all [action "uno"] again).1.2) (part "000") = Some ("1 audit_78 one" +:+ newline +:+ "1 audit_78 uno" +:+ newline).
Proof. vm_compute. reflexivity. Qed.

End AuditDemo.
