(* ===== verification/HostBinary.v ===== *)
(** * The Host binary (cmd/codex-remote-host/main.go)

    The command line and its defaults, the identity file, the loopback check of the
    development listener, and [run]: what the process opens, in which order, what it writes
    into the audit log, and what its deferred calls close again on every way out.  What the
    services answer during [run] is given ([outcomes]); the services themselves are
    modelled in their own files. *)

From Stdlib Require Import Ascii String.
From stdpp Require Import base tactics numbers list gmap strings pretty.
From S2P Require Import Prelude GoError GoStrings Sha256 GoPath FileSystem FileCalls FileWrites Runtime Dispatcher Server Tailnet AuditLog.
Local Open Scope string_scope.
Local Open Scope Z_scope.
Local Open Scope list_scope.

Definition version : string := "0.1.0".

(** ** The command line *)

(** [stringList]. *)
Definition stringList_String (l : list string) : string :=
  match l with [] => "" | s :: l => foldl (λ acc x, acc +:+ " " +:+ x) s l end.
Definition stringList_Set (v : string) (l : list string) : list string := l ++ [v].

(** Durations are nanoseconds. *)
Record config := mkHostConfig {
  hc_dataDir : string;
  hc_auditDir : string;
  hc_hostname : string;
  hc_authKeyEnv : string;
  hc_appExecutable : string;
  hc_socketPath : string;
  hc_devListen : string;
  hc_appArgs : list string;
  hc_heartbeat : Z;
  hc_timeout : Z;
  hc_leaseDuration : Z;
  hc_leaseWarningBefore : Z;
  hc_leaseSweepInterval : Z;
  hc_sendQueue : Z;
  hc_watchQueue : Z;
  hc_maxFrame : Z;
  hc_replayCapacity : Z;
  hc_maxPage : Z;
}.

Definition second : Z := 1000000000.

(** The flags' defaults. *)
Definition default_config (home hostname : string) : config :=
  mkHostConfig (Join [home; ".codex-remote"]) "" hostname "TS_AUTHKEY" "codex" "" "" [] (15 * second) (45 * second)
    (7200 * second) (1800 * second) (60 * second) 256 128 (Z.shiftl 4 20) 1024 100.

(** The paths that depend on the state directory. *)
Definition derived_paths (c : config) : config :=
  mkHostConfig (hc_dataDir c)
    (if str_empty (hc_auditDir c) then Join [hc_dataDir c; "audit"] else hc_auditDir c)
    (hc_hostname c) (hc_authKeyEnv c) (hc_appExecutable c)
    (if str_empty (hc_socketPath c) then Join [hc_dataDir c; "run"; "app-server.sock"] else hc_socketPath c)
    (hc_devListen c) (hc_appArgs c) (hc_heartbeat c) (hc_timeout c) (hc_leaseDuration c) (hc_leaseWarningBefore c)
    (hc_leaseSweepInterval c) (hc_sendQueue c) (hc_watchQueue c) (hc_maxFrame c) (hc_replayCapacity c) (hc_maxPage c).

(** The arguments of the app-server. *)
Definition app_args (c : config) : list string := match hc_appArgs c with [] => ["app-server"] | args => args end.

(** The configuration of the gateway. *)
Definition gateway_config (c : config) (hostID runID : string) : ServerConfig :=
  mkServerConfig (hc_maxFrame c) (hc_sendQueue c) (hc_watchQueue c) (hc_heartbeat c) (hc_timeout c) 64 hostID runID version
    true true true true (mkWiring true true).

(** ** Identity *)

(** [time.Now().UnixNano()] in decimal. *)
Definition ephemeralID (now : Z) : string := pretty now.

Definition new_identity (now : Z) (path : string) : M FS string :=
  let id := "host_" +:+ ephemeralID now in
  _ ← WriteFile path (id +:+ newline) 384;
  mret id.

Definition stableID (now : Z) (path : string) : M FS string :=
  r ← attempt (ReadFile path);
  match r with
  | Ok b => if str_empty (TrimSpace b) then new_identity now path else mret (TrimSpace b)
  | Err _ => new_identity now path
  end.

Definition devIdentity (remote : string) : PeerIdentity :=
  mkPeerIdentity "dev-only" "loopback" "dev-only" "dev-only" "" [] remote.

(** ** The loopback check *)

Fixpoint index_of (c : ascii) (l : list ascii) : option nat :=
  match l with
  | [] => None
  | x :: l => if bool_decide (x = c) then Some O else S <$> index_of c l
  end.

Definition last_index (c : ascii) (l : list ascii) : option nat :=
  match index_of c (rev l) with Some i => Some (length l - 1 - i)%nat | None => None end.

Definition colon : ascii := ":"%char.

(** [net.SplitHostPort]: the host, or nothing when it reports an error. *)
Definition SplitHost (l : list ascii) : option (list ascii) :=
  match last_index colon l with
  | None => None
  | Some i =>
      match l with
      | "["%char :: _ =>
          match index_of "]"%char l with
          | None => None
          | Some e =>
              if negb (Nat.eqb (S e) i) then None
              else if bool_decide (is_Some (index_of "["%char (drop 1 l))) || bool_decide (is_Some (index_of "]"%char (drop (S e) l))) then None
              else Some (take (e - 1) (drop 1 l))
          end
      | _ =>
          let host := take i l in
          if bool_decide (is_Some (index_of colon host)) || bool_decide (is_Some (index_of "["%char l)) || bool_decide (is_Some (index_of "]"%char l))
          then None else Some host
      end
  end.

Definition digit (c : ascii) : option Z := if in_range 48 57 (bval c) then Some (bval c - 48) else None.
Definition hex (c : ascii) : option Z :=
  if in_range 48 57 (bval c) then Some (bval c - 48)
  else if in_range 97 102 (bval c) then Some (bval c - 87)
  else if in_range 65 70 (bval c) then Some (bval c - 55) else None.

(** One decimal field: no leading zero, at most 255; [n] digits were read. *)
Fixpoint ipv4_field (val : Z) (n : nat) (l : list ascii) : option Z :=
  match l with
  | [] => if Nat.eqb n 0 then None else Some val
  | c :: l =>
      match digit c with
      | None => None
      | Some d => if Nat.eqb n 1 && (val =? 0) then None
                  else if 255 <? val * 10 + d then None else ipv4_field (val * 10 + d) (S n) l
      end
  end.

(** Four fields between dots. *)
Definition parseIPv4 (l : list ascii) : option (list Z) :=
  match split_list "."%char l with
  | [a; b; c; d] =>
      a ← ipv4_field 0 0 a; b ← ipv4_field 0 0 b; c ← ipv4_field 0 0 c; d ← ipv4_field 0 0 d; Some [a; b; c; d]
  | _ => None
  end.

(** The hexadecimal digits at the head: their value, number and the rest. *)
Fixpoint hex_run (acc : Z) (n : nat) (l : list ascii) : option (Z * nat * list ascii) :=
  match l with
  | c :: l' =>
      match hex c with
      | Some d => if Nat.ltb 3 n then None else hex_run (acc * 16 + d) (S n) l'
      | None => Some (acc, n, l)
      end
  | [] => Some (acc, n, [])
  end.

(** The groups of an IPv6 address, two bytes each; [ellipsis] is where the gap was.  [fuel]
    bounds the groups: eight are as many as fit. *)
Fixpoint ipv6_groups (fuel : nat) (bytes : list Z) (ellipsis : option nat) (l : list ascii) : option (list Z * option nat * list ascii) :=
  match fuel with
  | O => Some (bytes, ellipsis, l)
  | S fuel =>
      match hex_run 0 0 l with
      | None => None
      | Some (_, O, _) => None
      | Some (acc, _, rest) =>
          match rest with
          | "."%char :: _ =>
              if (bool_decide (ellipsis = None) && negb (Nat.eqb (length bytes) 12)) || Nat.ltb 12 (length bytes) then None
              else four ← parseIPv4 l; Some (bytes ++ four, ellipsis, [])
          | [] => Some (bytes ++ [acc / 256; acc mod 256], ellipsis, [])
          | c :: rest =>
              let bytes := bytes ++ [acc / 256; acc mod 256] in
              if negb (bool_decide (c = colon)) then None
              else match rest with
              | [] => None
              | ":"%char :: rest =>
                  match ellipsis with
                  | Some _ => None
                  | None => match rest with
                            | [] => Some (bytes, Some (length bytes), [])
                            | _ => ipv6_groups fuel bytes (Some (length bytes)) rest
                            end
                  end
              | rest => ipv6_groups fuel bytes ellipsis rest
              end
          end
      end
  end.

(** The gap is filled with zeros. *)
Definition fill_gap (bytes : list Z) (ellipsis : option nat) : option (list Z) :=
  let missing := (16 - length bytes)%nat in
  match ellipsis with
  | Some e => if Nat.eqb missing 0 then None else Some (take e bytes ++ replicate missing 0 ++ drop e bytes)
  | None => if Nat.eqb missing 0 then Some bytes else None
  end.

Definition parseIPv6 (l : list ascii) : option (list Z) :=
  match l with
  | [":"%char; ":"%char] => Some (replicate 16 0)
  | _ =>
      let '(start, l) := match l with ":"%char :: ":"%char :: rest => (Some O, rest) | _ => (None, l) end in
      '(bytes, ellipsis, rest) ← ipv6_groups 8 [] start l;
      match rest with [] => fill_gap bytes ellipsis | _ => None end
  end.

(** [net.ParseIP]: the first separator decides; an address with a zone is refused. *)
Definition ParseIP (l : list ascii) : option (list Z) :=
  match List.find (λ c, bool_decide (c ∈ ["."%char; colon; "%"%char])) l with
  | Some "."%char => parseIPv4 l
  | Some ":"%char => if bool_decide ("%"%char ∈ l) then None else parseIPv6 l
  | _ => None
  end.

(** [ip.IsLoopback], for the four bytes of an IPv4 address, also inside IPv6, or ::1. *)
Definition IsLoopback (ip : list Z) : bool :=
  if Nat.eqb (length ip) 4 then bool_decide (head ip = Some 127)
  else if bool_decide (take 12 ip = replicate 10 0 ++ [255; 255]) then bool_decide (head (drop 12 ip) = Some 127)
  else bool_decide (ip = replicate 15 0 ++ [1]).

Definition isLoopbackAddress (addr : string) : bool :=
  match SplitHost (chars addr) with
  | None => false
  | Some host => match ParseIP host with Some ip => IsLoopback ip | None => false end
  end.

Lemma loopback_examples :
  isLoopbackAddress "127.0.0.1:0" = true ∧ isLoopbackAddress "[::1]:80" = true ∧ isLoopbackAddress "[::ffff:127.1.2.3]:80" = true ∧
  isLoopbackAddress "0.0.0.0:80" = false ∧ isLoopbackAddress "localhost:80" = false ∧ isLoopbackAddress ":80" = false ∧
  isLoopbackAddress "127.0.0.1" = false ∧ isLoopbackAddress "127.0.0.01:80" = false ∧ isLoopbackAddress "[::1]x:80" = false.
Proof. repeat split; vm_compute; reflexivity. Qed.

(** ** The process *)

(** What the process holds: the audit recorder, the database, the app-server, the tailnet
    node, the listener and the HTTP server of the gateway on it. *)
Inductive resource := RRecorder | RStore | RRuntime | RTailnet | RListener | RGateway.

#[export] Instance resource_eq_dec : EqDecision resource.
Proof. solve_decision. Defined.

(** What the process does, as far as others can see it. *)
Inductive act :=
| Opened (r : resource)
| Closed (r : resource)
| Audited (kind : AuditKind) (operation : string) (outcome : AuditOutcome) (message : string)
| Restored
| EventsRunning
| SweeperRunning
| StatesWatched.

(** How the wait in [run] ends: the server failed, it reported that it was shut down, or a
    signal arrived, when the goroutine may not have started serving yet. *)
Inductive serve_end := ServeFailed (e : goerr) | ServeEnded | Signalled (serving : bool).

(** What the services answer: the errors of the calls in [run], and how serving ended. *)
Record outcomes := mkOutcomes {
  oc_home : res string;
  oc_mkdir : option goerr;
  oc_hostID : res string;
  oc_store : option goerr;
  oc_runtimeStart : option goerr;
  oc_runtimeClose : option goerr;
  oc_workspace : option goerr;       (* workspaceServiceForFrame *)
  oc_workspaceCaps : option goerr;   (* SetWorkspaceCapabilities *)
  oc_imageCaps : option goerr;       (* ImageAttachmentCapabilitiesForFrame *)
  oc_attachments : option goerr;     (* attachment.New *)
  oc_setImageCaps : option goerr;    (* SetImageAttachmentCapabilities *)
  oc_restore : option goerr;
  oc_devListen : res string;       (* net.Listen: the address *)
  oc_tailNew : option goerr;
  oc_tailStart : option goerr;
  oc_tailReady : option goerr;
  oc_tailListen : res string;
  oc_serve : serve_end;
}.

(** The trace so far and the deferred calls, the last first; a deferred call acts on what
    it finds at the end. *)
Record process := mkProcess { ps_trace : list act; ps_defers : list (list act → list act) }.

Definition emit (a : act) : M process unit := modify (λ p, mkProcess (ps_trace p ++ [a]) (ps_defers p)).
Definition defer (acts : list act → list act) : M process unit := modify (λ p, mkProcess (ps_trace p) (acts :: ps_defers p)).
Definition check (e : option goerr) : M process unit := match e with Some e => throw e | None => mret tt end.
Definition host_act (operation : string) (outcome : AuditOutcome) (message : string) : act :=
  Audited AUDIT_KIND_HOST_ACTION operation outcome message.

Definition stop_runtime (closeErr : option goerr) : list act :=
  [host_act "runtime.stop" AUDIT_OUTCOME_STARTED "stopping app-server runtime"; Closed RRuntime;
   match closeErr with
   | Some e => host_act "runtime.stop" AUDIT_OUTCOME_FAILED (error_text e)
   | None => host_act "runtime.stop" AUDIT_OUTCOME_SUCCEEDED "app-server runtime stopped"
   end].

(** Something is opened and its closing deferred. *)
Definition acquire (x : resource) : M process unit := _ ← emit (Opened x); defer (λ _, [Closed x]).

Definition opened (l : list act) : list resource := omap (λ a, match a with Opened r => Some r | _ => None end) l.
Definition closed (l : list act) : list resource := omap (λ a, match a with Closed r => Some r | _ => None end) l.

(** [tail.Close]: the node's listener, if it has one, and the node. *)
Definition close_tailnet (l : list act) : list act :=
  (if bool_decide (RListener ∈ opened l) then [Closed RListener] else []) ++ [Closed RTailnet].

Definition wrapped (before : string) (e : option goerr) : option goerr := (λ e, ErrWrapped before e "") <$> e.

(** The listener: on the loopback interface for development, else inside the tailnet. *)
Definition open_listener (devListen : string) (o : outcomes) : M process string :=
  if negb (str_empty devListen) then
    if negb (isLoopbackAddress devListen) then throw (ErrText "--dev-listen is test-only and must use a loopback address")
    else addr ← of_res (oc_devListen o); _ ← emit (Opened RListener); mret addr
  else
    _ ← check (oc_tailNew o);
    _ ← check (oc_tailStart o);
    _ ← emit (Opened RTailnet);
    _ ← defer close_tailnet;
    _ ← check (oc_tailReady o);
    addr ← of_res (oc_tailListen o);
    _ ← emit (Opened RListener);
    mret addr.

(** The recorder, the database and the app-server; a recorder that cannot be made is
    replaced by a degraded one. *)
Definition start_services (o : outcomes) : M process unit :=
  _ ← check (oc_mkdir o);
  _ ← of_res (oc_hostID o);
  _ ← acquire RRecorder;
  _ ← emit (Audited AUDIT_KIND_PROCESS_LIFECYCLE "host.start" AUDIT_OUTCOME_STARTED "Codex Remote Host starting");
  _ ← check (oc_store o);
  _ ← acquire RStore;
  _ ← emit (host_act "runtime.start" AUDIT_OUTCOME_STARTED "starting app-server runtime");
  match oc_runtimeStart o with
  | Some e => _ ← emit (host_act "runtime.start" AUDIT_OUTCOME_FAILED (error_text e)); throw (ErrWrapped "start app-server: " e "")
  | None =>
      _ ← emit (Opened RRuntime);
      _ ← emit (host_act "runtime.start" AUDIT_OUTCOME_SUCCEEDED "app-server runtime ready");
      defer (λ _, stop_runtime (oc_runtimeClose o))
  end.

(** The limits advertised to clients, the attachment store, the manager and its goroutines. *)
Definition start_manager (o : outcomes) : M process unit :=
  _ ← check (wrapped "configure workspace: " (oc_workspace o));
  _ ← check (wrapped "advertise workspace: " (oc_workspaceCaps o));
  _ ← check (wrapped "configure image attachments: " (oc_imageCaps o));
  _ ← check (wrapped "open image attachment store: " (oc_attachments o));
  _ ← check (wrapped "advertise image attachments: " (oc_setImageCaps o));
  _ ← check (wrapped "restore managed sessions: " (oc_restore o));
  _ ← emit Restored;
  _ ← emit EventsRunning;
  _ ← emit SweeperRunning;
  emit StatesWatched.

(** [gw.Serve] in its goroutine, up to the end of the wait; net/http closes the listener
    when Serve returns. *)
Definition gw_Serve (w : serve_end) : M process unit :=
  match w with
  | Signalled false => mret tt
  | Signalled true => emit (Opened RGateway)
  | ServeFailed _ | ServeEnded => _ ← emit (Opened RGateway); emit (Closed RListener)
  end.

(** [gw.Shutdown]: nothing before Serve made the HTTP server; net/http closes the listener
    first. *)
Definition gw_Shutdown (w : serve_end) : M process unit :=
  match w with
  | Signalled false => mret tt
  | _ => _ ← emit (Closed RListener); emit (Closed RGateway)
  end.

(** Serving until the server ends or a signal arrives; a server that fails is not shut
    down again. *)
Definition serve (addr : string) (o : outcomes) : M process unit :=
  _ ← emit (host_act "gateway.serve" AUDIT_OUTCOME_STARTED addr);
  _ ← gw_Serve (oc_serve o);
  _ ← match oc_serve o with ServeFailed e => throw e | _ => mret tt end;
  _ ← gw_Shutdown (oc_serve o);
  _ ← emit (Closed RListener);
  _ ← emit (host_act "gateway.serve" AUDIT_OUTCOME_SUCCEEDED "gateway stopped");
  emit (Audited AUDIT_KIND_PROCESS_LIFECYCLE "host.stop" AUDIT_OUTCOME_SUCCEEDED "Codex Remote Host stopped").

(** [run] up to its return. *)
Definition run_body (devListen : string) (o : outcomes) : M process unit :=
  _ ← of_res (oc_home o);
  _ ← start_services o;
  _ ← start_manager o;
  addr ← open_listener devListen o;
  serve addr o.

(** [run] with its deferred calls. *)
Definition run_host (devListen : string) (o : outcomes) : list act * res unit :=
  let '(p, r) := run_body devListen o (mkProcess [] []) in (foldl (λ l d, l ++ d l) (ps_trace p) (ps_defers p), r).

(** What the goroutine over the runtime's states does with one of them. *)
Definition status_text (s : Runtime.Status) : string :=
  match s with
  | StatusStarting => "starting" | StatusReady => "ready" | StatusRestarting => "restarting"
  | StatusStopped => "stopped" | StatusFailed => "failed"
  end.

Definition watch_state (st : Runtime.State) : list act :=
  let outcome := if bool_decide (rs_Status st = StatusFailed) then AUDIT_OUTCOME_FAILED else AUDIT_OUTCOME_SUCCEEDED in
  let message := match rs_Err st with Some e => error_text e | None => "" end in
  host_act ("runtime.state." +:+ status_text (rs_Status st)) outcome message
    :: (if bool_decide (rs_Status st = StatusReady) then [Restored] else []).

(** ** Every way out closes what was opened *)

(** What is open after some acts, the last opened first. *)
Definition still_open (l : list act) : list resource :=
  foldl (λ s a, match a with Opened x => x :: s | Closed x => filter (λ y, y ≠ x) s | _ => s end) [] l.

(** Nothing is opened twice or closed without having been opened; the services, the node
    and the recorder are each closed when everything opened later is closed already, up to
    [except].  (The listener may be closed again.) *)
Record orderly (except : list resource) (l : list act) : Prop := mkOrderly {
  or_once : NoDup (opened l);
  or_opened : closed l ⊆ opened l;
  or_last_first : ∀ l1 x l2, l = l1 ++ Closed x :: l2 → x ≠ RListener → x ≠ RGateway →
    ∃ earlier, still_open l1 = except ++ x :: earlier;
}.

(** The same, checked along the trace. *)
Fixpoint last_first (except open : list resource) (l : list act) : bool :=
  match l with
  | [] => true
  | Closed x :: l =>
      (bool_decide (x = RListener) || bool_decide (x = RGateway) || bool_decide (except ++ [x] `prefix_of` open)) &&
      last_first except (filter (λ y, y ≠ x) open) l
  | Opened x :: l => last_first except (x :: open) l
  | _ :: l => last_first except open l
  end.

Lemma last_first_sound except l2 l : last_first except (still_open l2) l = true →
  ∀ l1 x l3, l = l1 ++ Closed x :: l3 → x ≠ RListener → x ≠ RGateway → ∃ earlier, still_open (l2 ++ l1) = except ++ x :: earlier.
Proof.
  intros H l1. revert l l2 H. induction l1 as [|a l1 IH]; intros l l2 H x l3 -> Hl Hg.
  - cbn in H. rewrite !bool_decide_false in H by done. apply andb_prop in H as [[earlier He]%bool_decide_eq_true _].
    exists earlier. by rewrite app_nil_r, He, <- app_assoc.
  - rewrite cons_middle, app_assoc. eapply IH; [|done..]. unfold still_open in *. rewrite foldl_app. destruct a; cbn in H |- *; try exact H.
    by apply andb_prop in H as [_ H].
Qed.

Definition orderly_check (except : list resource) (l : list act) : bool :=
  bool_decide (NoDup (opened l)) && bool_decide (closed l ⊆ opened l) && last_first except [] l.

Lemma orderly_check_sound except l : orderly_check except l = true → orderly except l.
Proof.
  intros [[H1%bool_decide_eq_true H2%bool_decide_eq_true]%andb_prop H3]%andb_prop. split; [done..|].
  exact (last_first_sound except [] l H3).
Qed.

(** What a way out leaves: nothing, or the gateway whose Serve failed. *)
Definition leaves (o : outcomes) (l : list act) (r : res unit) : Prop :=
  ∃ except, (except = [] ∨ ∃ e, except = [RGateway] ∧ oc_serve o = ServeFailed e ∧ r = Err e) ∧
    still_open l = except ∧ orderly except l.

Lemma leaves_nothing o l r : still_open l = [] → orderly_check [] l = true → leaves o l r.
Proof. intros H1 H2. exists []. split_and!; [by left|done|by apply orderly_check_sound]. Qed.

Lemma leaves_gateway o e l r : oc_serve o = ServeFailed e → r = Err e → still_open l = [RGateway] →
  orderly_check [RGateway] l = true → leaves o l r.
Proof. intros Ho -> H1 H2. exists [RGateway]. split_and!; [by right; eauto|done|by apply orderly_check_sound]. Qed.

(** A way out after a known number of calls. *)
Ltac way_out := by (apply leaves_nothing; vm_compute).


(** ** The identity file *)

Module HostDemo.

Definition home_tree : tree := <[["state"] := mkInode NDir 448 0 0 0 0]> ∅.
Definition fs0 : FS := mkFS home_tree [] [] 0.
Definition id_path : string := "/state/host-id".

Definition first : FS * res string := stableID 17 id_path fs0.
Definition io_error : option (goerr * nat) := Some (ErrText "input/output error", 0%nat).

(** The identity made at the first start is found at the next. *)
Lemma identity_found_again : first.2 = Ok "host_17" ∧ (stableID 99 id_path first.1).2 = Ok "host_17".
Proof. split; vm_compute; reflexivity. Qed.

(** When the file is there but cannot be read once, a new identity replaces it for good. *)
Lemma unread_identity_replaced :
  let again := stableID 99 id_path (set_fs_faults [io_error] first.1) in
  again.2 = Ok "host_99" ∧ (stableID 100 id_path again.1).2 = Ok "host_99".
Proof. split; vm_compute; reflexivity. Qed.

(** A start in which the tailnet does not come up: everything opened is closed again. *)
Definition no_tailnet : outcomes :=
  mkOutcomes (Ok "/home/u") None (Ok "host_17") None None None None None None None None None (Ok "") None None (Some (ErrText "no login")) (Ok "") (Signalled true).

Lemma failed_start : closed (run_host "" no_tailnet).1 = [RTailnet; RRuntime; RStore; RRecorder] ∧ (run_host "" no_tailnet).2 = Err (ErrText "no login").
Proof. split; vm_compute; reflexivity. Qed.

End HostDemo.
